(* ===== verification/_CoqProject ===== *)
-Q . S2P
Prelude.v
GoErr.v
GoStr.v
Codec.v
BlockId.v
ImageVersions.v
BakePlan.v
NetIP.v
Config.v
ConfigSpec.v
Sha256.v
Json.v
CacheStore.v
Sqlite.v
CacheStoreInv.v
CacheStoreSpec.v
CacheStoreLookup.v
CacheServer.v
CacheServerSpec.v
CacheIsolation.v
Backend.v
Session.v
SessionSpec.v
Threads.v
ScaleSet.v
ScaleSetInv.v
ScaleSetSpec.v
ScaleSetServe.v
Runner.v
GitHub.v
GitHubSpec.v
Provider.v
Pools.v
Accounts.v
PoolManager.v
PoolManagerSpec.v
Autoscale.v
AutoscaleSpec.v
Webhook.v
Filepath.v
GitEnv.v
GitMirror.v
GhApp.v
TokenRefresher.v
TokenRefresherSpec.v
JsonInt.v
Qemu.v
QemuBackend.v
QemuBackendSpec.v
Containers.v
ContainersSpec.v
Host.v
UpdateVersions.v
UpdateVersionsSpec.v
ConfigFile.v
ConfigFileSpec.v
Connect.v
ConnectSpec.v
Redact.v
ServiceHost.v
RedactSpec.v
Doctor.v
DoctorSpec.v
Orchestrator.v
OrchestratorSpec.v
Sha512.v
Bake.v
BakeSpec.v
Build.v
BuildSpec.v
Winsetup.v
WinsetupSpec.v
Detect.v
DetectSpec.v
BrowserFlow.v
ServiceControl.v
