(* ===== verification/Prelude.v ===== *)
(** * multirunner: a verification development

    multirunner runs ephemeral GitHub Actions runners on a host of its own.  It
    loads a configuration of pools, keeps runners for them, in one of three
    modes, and serves the runners a local Actions cache and git mirrors.  This
    library models the part of it that decides something, the packages below
    [src/internal] and the commands that run, check and connect the program, and
    proves what makes each of them correct.

    ** The program and this library

    - [cmd/multirunner/main.go] wires the parts ([Orchestrator]): the
      configuration says which pools there are and what they may serve; each
      pool's backend is opened and asked for its daemon; then per pool either a scale set
      launcher is driven by GitHub's message session, or the queue autoscaler
      launches runners for queued jobs, or a warm pool keeps its slots filled.
      Each launch goes through the backend contract and [RunOnce], and through
      the GitHub client for the runner's registration.  Beside them run the
      cache server over its store, the mirror cache, the webhook receiver that
      feeds the autoscaler, and the service host that restarts the process.
    - _Language and standard library._  [GoErr]: wrapped errors, results and the
      effect monad.  [GoStr]: [strings] and [strconv].  [Codec]: base64 and
      hexadecimal.  [NetIP]: [net].  [Sha256] and [Sha512]: the digests
      and HMAC.  [Json]: [encoding/json].  [Filepath]: [path/filepath].  [Threads]: goroutines as
      programs of atomic actions over a shared state, with reachability and the
      rule that proves invariants of all interleavings; [Accounts]: the rule for
      locks, semaphores and wait groups.
    - _Configuration._  [ImageVersions] ([images/versions.go]), [BakePlan]
      ([internal/winvm/bake.go], the tool selectors), [Config] and [ConfigSpec]
      ([internal/config/config.go]).  [Config.Load] is the composition of the
      code: secrets, defaults, image resolution, validation.  [ConfigFile] and
      [ConfigFileSpec] ([connect.go], [template.go] and [dotenv.go] of the same
      package): the editing of a configuration as a tree of nodes, and its file.
    - _Files._  [Host]: the calls on a file system, each of which may fail,
      with what they leave behind.  [UpdateVersions] and [UpdateVersionsSpec]
      ([cmd/update-image-versions/main.go]): the refresh of the image versions
      from the feeds.
    - _Cache._  [BlockId] ([internal/cache/blockid.go]), [CacheStore]
      ([store.go]: each method is a term of the monad over the state [store],
      the two tables and the blob folders), [Sqlite] (a reference instance of
      the database interface), [CacheStoreInv], [CacheStoreSpec],
      [CacheStoreLookup]; [CacheServer] ([server.go] and [env.go]: [serve] maps
      a request to a response over the store), [CacheServerSpec],
      [CacheIsolation].
    - _Runners._  [Backend] ([internal/backend/backend.go]), [Runner]
      ([internal/runner/instance.go]), [GitHub] and [GitHubSpec]
      ([internal/github/client.go], [provider.go]), [Provider] (the interface
      the launchers use, as a class with its law).
    - _Backends._  [Containers] and [ContainersSpec]
      ([internal/backend/docker.go], [dockerwindows.go],
      [containerdwindows.go], [discover.go]): the launch, the listing and the
      removal of containers over a daemon and over nerdctl.  [Qemu]
      ([internal/winvm/qemu.go], [qmp.go], [iso.go], [housekeeping.go]):
      arguments, the conversation that stops a machine, the age of an image.
      [QemuBackend] and [QemuBackendSpec] ([internal/winvm/backend.go]): the
      life of machines as threads over the work directory.
    - _Golden images._  [Bake] and [BakeSpec] ([internal/winvm/bake.go],
      [meta.go], [iso.go], [housekeeping_run.go], [qmp.go]): the pinned
      payloads and the scripts that install them, the fingerprint of the inputs,
      the display, the preparation of the disk and the media, the installation,
      its metadata, the rearm and the rebuild, over the calls of [Host] and a
      class [Workshop] of what QEMU, qemu-img and the ISO library do.
    - _Credentials._  [GhApp] and [JsonInt] ([internal/ghapp/device.go],
      [connect.go]): the requests of the device flow; [TokenRefresher] and
      [TokenRefresherSpec] ([refresher.go], [tokenstore.go]): the rotation of a
      token among processes that share its file; [Connect] and [ConnectSpec]
      ([cmd/multirunner/connect.go]): the connect command; [BrowserFlow]
      ([connect.go]): the server and the waiting of the browser flow, as a step
      relation over its requests.
    - _Scale sets._  [Session] and [SessionSpec] ([internal/scaleset/session.go],
      [supervisor.go], [client.go]), [ScaleSet] ([launcher.go],
      [launcher_cleanup.go], [reconciler.go]: each method a program of atomic
      actions), [ScaleSetInv], [ScaleSetSpec], [ScaleSetServe].
    - _Queues and warm pools._  [Pools], [PoolManager] and [PoolManagerSpec]
      ([internal/pool/launcher.go], [pool.go]), [Autoscale] and [AutoscaleSpec]
      ([internal/autoscale/autoscale.go]), [Webhook]
      ([internal/webhook/webhook.go]).
    - _Git mirrors._  [GitEnv] and [GitMirror] ([internal/gitcache/mirror.go]).
    - _Service._  [ServiceHost] ([internal/servicehost/failures.go] and, in
      [cmd/multirunner], [service_supervisor.go], [service_lifecycle.go]);
      [Redact] and [RedactSpec] ([service_logging.go]): what is taken out of the
      log, and the capture of the output of a worker; [ServiceControl]
      ([internal/servicehost/policy.go], [recovery_windows.go], and the service
      command of [main.go]): the installation with its rollback.
    - _Commands._  [Orchestrator] and [OrchestratorSpec] ([main.go],
      [helpers.go], [scaleset.go] of [cmd/multirunner]): the run; [Doctor] and
      [DoctorSpec] ([main.go]): the preflight; [Detect] and [DetectSpec]
      ([internal/detect/detect.go]): the images that a repository needs;
      [Winsetup] and [WinsetupSpec] ([internal/winsetup/winsetup.go]): the
      installers of the Windows runtimes; [Build] and [BuildSpec]
      ([internal/buildcmd/build.go], [internal/buildinfo/buildinfo.go]): the
      build of the program itself.

    Definitions keep the names of the code; where two parts share a name the
    file qualifies it.

    ** What the theorems show

    - _Scale set launcher._  In every interleaving of listener, session,
      shutdown and cleanups the trace is legal ([launcher_trace_legal]): no
      launch after shutdown, a registration and the resources of a runner are
      removed after its end and in that order, the hooks hear of an end once.
      The live runners fit the capacity ([launcher_capacity],
      [launcher_gauge]); a desired count is served exactly up to the cap
      ([serve_count_exact]); a cleanup whose calls succeed converges
      ([finishRunner_converges]).  A session is opened or given up within
      twenty tries ([openSession_terminates]), and a supervised session ends
      only on cancellation or a permanent failure, with capped doubling delays
      ([superviseSession_outcome], [superviseSession_delays]).
    - _Cache._  The rows and folders stay consistent whatever fails
      ([store_runs_ok]); what is uploaded is downloaded byte for byte
      ([save_fetch_roundtrip]); an upload that is not whole is refused
      ([completeUpload_rejects]).  [matchEntry] refines a reference lookup and
      stays within the caller's repository, scopes and version
      ([matchEntry_reference], [matchEntry_isolated]); eviction is by age, then
      by use until the blobs fit ([evict_lru]).  Only authorized requests change
      the cache ([serve_guarded]), and no entry and no pending upload that the
      token does not cover ([post_isolated]); signed
      ids cannot be altered and do work for their life time
      ([signature_binds], [issued_url_works]).
    - _Autoscaler, warm pools, webhook._  A runner starts only for a job its
      pool may serve ([scaler_authorized]), within the pool's slots
      ([scaler_capacity]), on the first pool with a free one
      ([launchFor_first]); a slot never gives up ([runSlot_backoff]); the pool
      manager returns after all of its goroutines, with an error only when a
      pool could not provide its image ([manager_returns]); the webhook starts
      work exactly for authentic events ([handle_authentic]).
    - _One runner, GitHub._  [RunOnce] asks for the deletion of a registration
      exactly when its runner is over and has just been seen to be
      ([RunOnce_settles]); listing queued jobs ends and
      is complete ([QueuedWorkflowJobs_complete], [RepoSet_polls_all]); names in
      the configuration cannot redirect a request ([runnersBasePath_segments]).
    - _Mirrors._  Git sees exactly the configuration it should ([git_sees]); a
      sweep removes no mirror in use and none whose marker is not stale at that
      moment ([sweep_excluded]).
    - _Backends._  A machine that runs has a record from which it can be found
      and removed ([machine_has_record]); a Docker daemon, which may list
      more than it is asked for and adds the labels of images, lists what was
      launched under an ownership and is not removed ([docker_reconciles]); the
      cleanup of a failed launch spares the containers of others
      ([failed_launch_spares]).
    - _Golden images._  The metadata of an image is written only by an
      installation that said so in the log of this run, from the inputs it was
      asked for ([bake_ships]); two bakes with one fingerprint have the same inputs, up to
      a collision of the digest ([fingerprint_faithful]); what is staged for the
      guest has the pinned digest, and the guest asks for it under that name and
      digest ([payloads_verified], [guest_asks_staged]); the ports of the viewer
      are different and ones that QEMU can take ([vnc_ports]).
    - _Credentials._  A rotation is asked for only when the shared file has no
      fresh pair, and uses the refresh token that was issued last, but for the
      cases that the theorem names ([refresh_live]); a login that fails
      somewhere leaves a configuration that can be used, and one that succeeds the right sections
      ([device_login_consistent], [connect_sections]); the browser flow returns
      the first App that GitHub granted and the first installation that came in
      ([browser_flow_returns]).
    - _Files._  A refresh of the versions replaces files as a whole or not at
      all ([run_replaces_whole]).
    - _Service._  A crash loop of the supervised worker is bounded, as far as
      its history can be kept ([crash_loop_bounded]); the program
      decides to exit at most once ([program_exits_once]).  No secret of the
      configuration is in the log, unless characters that are dropped interrupt
      it ([sanitize_hides]), in the error of a run
      ([orchestrator_error_hides]) or, for a private key, in the captured output
      ([private_keys_hidden], over [output_by_lines]); the reported tail is
      bounded and has the crash and the last message ([tail_reports]).  An
      installation of the service is whole, undone or says what is left of it
      ([install_settles]), and
      its bounds on restarts agree ([restart_limits_agree]).
    - _Commands._  A run fails before its mode or runs exactly the configured
      mode with every pool ready, and closes what it opened
      ([orchestrator_starts]); the preflight passes exactly when everything it
      checks is in order ([doctor_passes]), and its checks of the repositories
      fit the budget they are given ([repo_checks_in_budget]).  The detection
      reports exactly what a repository shows ([scan_exact]), and which of its
      recommendations can be followed is known ([recommended_images]); an
      elevated installer runs exactly its script, unless a typographic quote is
      in its data root, and succeeds exactly when the status file says so
      ([installer_runs_script], [installers_report]); a binary reports the
      sources it was built from ([build_identity]).
    - _Configuration._  What [Load] guarantees to the other parts: resource
      limits that fit the backends' integers, job authorization exact up to letter
      case ([load_workflow_jobs]), distinct
      repositories and identities, the image each pool runs ([load_resource_bounds]
      and its neighbours), and the manifest check ([validate_exact]).

    ** Environment, bounds and fuel

    Answers of GitHub, the backends, git, the clock, the disk and the database
    are data of the model: a list or a record the definitions read, or the
    environment of a thread's action.  Theorems quantify over them, so they
    cover every failure and every order.  SQLite's [LIKE] and sort, the protobuf
    encoder, the upstream cache service and the order of a Go map are classes
    ([Sqlite], [Protowire], [Upstream], [MapRange]) with the documented
    behaviour as laws or without any, and so are the programs that a command
    calls ([Workshop], [Builder], [Windows], [Manager], [Source]).  Machine integers are [Z] with the wrap
    written out where the code can reach it.

    Fuel occurs where a loop is not structural.  [GitHub.pages] walks the pages of a listing:
    as many steps as there are pages are enough, as
    [QueuedWorkflowJobs_complete] proves.  [CacheStore.copy_out] copies a
    download: more steps than there are bytes are enough, as
    [save_fetch_roundtrip] proves, and [CacheServer.copy_fuel] supplies them.
    [GoStr.dec_digits] takes the length of the number in bits, which bounds its
    decimal digits.  The parsers and scanners over a text ([Json], [NetIP], the
    patterns of [Redact]) take its length, and each step consumes a byte; the
    capture of [Redact] takes one step for a buffer, and [output_by_lines]
    proves that this reaches the end; the search for a module in [Build] takes
    the length of the path, which [find_root_nearest] shows to be enough.  All
    other loops are structural, on the answers they
    consume (a supervised session, a slot, a worker) or on the list they walk.

    ** Not modelled

    - Bodies of the operating system and of client libraries: containers,
      nerdctl, QEMU, PowerShell and git are subprocesses or daemons with
      answers; process handles, the service library, the HTTP servers and TCP,
      Prometheus metrics and slog are not modelled, nor is the live viewer of a
      bake ([internal/vmview]).
    - The parser and printer of YAML: a configuration starts as the decoded
      record, and its editing is that of the tree.  Flag parsing, the dry run of
      run and connect, and what is only printed.
    - The HTML of the browser flow, and the permissions of files on Windows.
    - Unicode case mapping: [GoStr.equal_fold] and [GoStr.to_lower] map the
      letters of ASCII only, where [strings.EqualFold] also folds others.  What
      the code compares in this way are hosts, schemes, names of variables, hex
      digests, and logins, repositories and events, which are ASCII; a label or
      a ref that is not ASCII is compared byte by byte here.  The race detector's
      notion of a data race: an action of a thread is atomic where the code
      holds a lock or makes one call.

    ** What could come next

    The process handles of the service host, and the tickers that only repeat
    operations that are modelled. *)

From Stdlib Require Export Ascii ZArith Lia.
From stdpp Require Export base gmap sets list strings option fin_maps sorting.

#[export] Set Default Proof Using "Type".
#[global] Arguments String.append !_ _ / : simpl nomatch.

(** ** Notations of the development *)

Declare Scope go_scope.
Delimit Scope go_scope with go.

(** ** Hint database for the lemmas that automate the common cases *)

Create HintDb gohints.
Create Rewrite HintDb gorw.

(** ** Tactics *)

(** Destruct every [match] in the goal, closing the branches [done] solves. *)
Ltac case_all := repeat (case_match; simplify_eq/=; try done).

(** [lia] with quotients and remainders by constants. *)
Ltac dlia := zify; Z.to_euclidean_division_equations; lia.

(** Split conjunctions and existentials in the context. *)
Ltac split_hyps :=
  repeat match goal with
         | H : _ ∧ _ |- _ => destruct H
         | H : ∃ _, _ |- _ => destruct H
         | H : _ && _ = true |- _ => apply andb_true_iff in H
         | H : _ || _ = false |- _ => apply orb_false_iff in H
         end.

(** ** Lists *)

(** [In] on a list of integers, as the prefix of naturals [0..n-1]. *)
Definition upto (n : nat) : list Z := Z.of_nat <$> seq 0 n.

Lemma length_upto n : length (upto n) = n.
Proof. unfold upto. by rewrite length_fmap, length_seq. Qed.

Lemma elem_of_upto n i : i ∈ upto n ↔ (0 ≤ i < Z.of_nat n)%Z.
Proof.
  unfold upto. rewrite list_elem_of_fmap. split.
  - intros (k & -> & Hk%elem_of_seq). lia.
  - intros Hi. exists (Z.to_nat i). rewrite elem_of_seq. lia.
Qed.

Lemma upto_S n : upto (S n) = upto n ++ [Z.of_nat n].
Proof. unfold upto. by rewrite seq_S, fmap_app. Qed.

(** Two sums over a list that differ at one place. *)
Lemma sum_change (f g : nat → nat) l i : NoDup l → i ∈ l → (∀ j, j ≠ i → f j = g j) →
  (sum_list (f <$> l) + g i = sum_list (g <$> l) + f i)%nat.
Proof.
  intros Hd Hi Hfg. induction Hd as [|x l Hx Hd IH]; [by apply elem_of_nil in Hi|].
  cbn [fmap list_fmap sum_list_with sum_list]. unfold id. apply elem_of_cons in Hi as [<-|Hi].
  - assert (f <$> l = g <$> l) as E by (apply list_fmap_ext; intros j y Hy; apply Hfg; intros ->; by apply Hx, (list_elem_of_lookup_2 _ j)).
    fold (fmap (M := list) f) (fmap (M := list) g) in *. unfold sum_list in *. rewrite E. unfold id. lia.
  - specialize (IH Hi). assert (x ≠ i) by (by intros ->). rewrite (Hfg x) by done. unfold id in *. lia.
Qed.

Lemma sum_member (f : nat → nat) l i : i ∈ l → (f i ≤ sum_list (f <$> l))%nat.
Proof.
  induction l as [|x l IH]; intros Hi; [by apply elem_of_nil in Hi|].
  cbn [fmap list_fmap sum_list_with sum_list]. unfold sum_list in *. unfold id in *.
  apply elem_of_cons in Hi as [<-|Hi]; [lia|]. specialize (IH Hi). lia.
Qed.

Lemma filter_all {A} (P : A → Prop) `{∀ x, Decision (P x)} (l : list A) :
  (∀ x, x ∈ l → P x) → filter P l = l.
Proof.
  induction l as [|x l IH]; [done|]. intros HP. rewrite filter_cons_True by (apply HP; left).
  f_equal. apply IH. intros y Hy. apply HP. by right.
Qed.

Lemma some_default {A} (d : A) o : (match o with Some _ => true | None => false end) = true → o = Some (default d o).
Proof. by destruct o. Qed.
