(* ===== verification/GoErr.v ===== *)
(** * Go errors, results and the effect monad

    [goerror] is the tree of wrapped errors the [errors] and [fmt] packages
    build, with [errors.Is], [errors.As] and [Error()].  [result] is the Go
    pair [(value, error)] of a call whose value is meaningless on error, and
    [M S] threads a component's state through fallible calls: a failing call
    keeps the state changes made before it, as the Go code does. *)

From S2P Require Import Prelude.

#[local] Set Warnings "-register-all".

(** ** Error values *)

(** [ENew id msg]: [errors.New msg], or [fmt.Errorf] without [%w]; [id] is the
    name of the sentinel variable holding it, [""] for an anonymous one.
    [EWrap pre e post]: [fmt.Errorf("pre%wpost", e)].
    [EJoin es]: [errors.Join(es...)] of non-nil errors.
    [ETyped ty e unwraps]: a named error type around [e]; [unwraps] says
    whether the type has an [Unwrap] method. *)
Inductive goerror :=
| ENew (id : string) (msg : string)
| EWrap (pre : string) (inner : goerror) (post : string)
| EJoin (es : list goerror)
| ETyped (ty : string) (inner : goerror) (unwraps : bool).

(** [fmt.Errorf("pre%w", e)]. *)
Definition errorf_w (pre : string) (e : goerror) : goerror := EWrap pre e "".

(** An anonymous error. *)
Definition errorf (msg : string) : goerror := ENew "" msg.

(** [err.Error()]. *)
Fixpoint error_text (e : goerror) : string :=
  match e with
  | ENew _ msg => msg
  | EWrap pre e post => pre +:+ error_text e +:+ post
  | EJoin es =>
      (fix join (es : list goerror) : string :=
         match es with
         | [] => ""
         | [e] => error_text e
         | e :: es => error_text e +:+ String "010"%char (join es)
         end) es
  | ETyped _ e _ => error_text e
  end.

(** [errors.Is(err, target)] for a sentinel variable [target]. *)
Fixpoint errors_is (target : string) (e : goerror) : bool :=
  match e with
  | ENew id _ => negb (String.eqb target "") && String.eqb id target
  | EWrap _ e _ => errors_is target e
  | EJoin es =>
      (fix any (es : list goerror) : bool :=
         match es with [] => false | e :: es => errors_is target e || any es end) es
  | ETyped _ e unwraps => unwraps && errors_is target e
  end.

(** [errors.As(err, &v)] for a [v] of the named error type [ty]: the first
    match in pre-order, as the wrapped value. *)
Fixpoint errors_as (ty : string) (e : goerror) : option goerror :=
  match e with
  | ENew _ _ => None
  | EWrap _ e _ => errors_as ty e
  | EJoin es =>
      (fix first (es : list goerror) : option goerror :=
         match es with
         | [] => None
         | e :: es => match errors_as ty e with Some v => Some v | None => first es end
         end) es
  | ETyped ty' e unwraps =>
      if String.eqb ty ty' then Some e
      else if unwraps then errors_as ty e else None
  end.

(** [errors.Join(errs...)]: nil errors are dropped, and joining none is nil. *)
Definition errors_join (errs : list (option goerror)) : option goerror :=
  match omap id errs with [] => None | es => Some (EJoin es) end.

(** Sentinels of the standard library. *)
Definition err_canceled : goerror := ENew "context.Canceled" "context canceled".
Definition err_not_exist : goerror := ENew "os.ErrNotExist" "file does not exist".
Definition err_no_rows : goerror := ENew "sql.ErrNoRows" "sql: no rows in result set".

(** ** Results *)

Inductive result (A : Type) :=
| Ok (a : A)
| Err (e : goerror).
Arguments Ok {_} _.
Arguments Err {_} _.

Definition is_ok {A} (r : result A) : bool := match r with Ok _ => true | Err _ => false end.

Definition result_err {A} (r : result A) : option goerror :=
  match r with Ok _ => None | Err e => Some e end.

(** ** The state-and-error monad *)

Definition M (S A : Type) : Type := S → result A * S.

Section monad.
Context {S : Type}.

Definition ret {A} (a : A) : M S A := fun s => (Ok a, s).
Definition throw {A} (e : goerror) : M S A := fun s => (Err e, s).
Definition bind {A B} (c : M S A) (k : A → M S B) : M S B :=
  fun s => match c s with
           | (Ok a, s') => k a s'
           | (Err e, s') => (Err e, s')
           end.
(** [x, err := c()] with the error in the caller's hands. *)
Definition catch {A B} (c : M S A) (k : result A → M S B) : M S B :=
  fun s => let '(r, s') := c s in k r s'.
Definition get : M S S := fun s => (Ok s, s).
Definition gets {A} (f : S → A) : M S A := fun s => (Ok (f s), s).
Definition modify (f : S → S) : M S unit := fun s => (Ok tt, f s).
End monad.

Notation "'let!' x ':=' c 'in' k" := (bind c (fun x => k))
  (at level 10, x name, c at level 100, k at level 200) : go_scope.
Notation "'let!' ' p ':=' c 'in' k" := (bind c (fun x => match x with p => k end))
  (at level 10, p strict pattern, c at level 100, k at level 200) : go_scope.
Notation "'let?' x ':=' c 'in' k" := (catch c (fun x => k))
  (at level 10, x name, c at level 100, k at level 200) : go_scope.
Notation "c ';;;' k" := (bind c (fun _ => k))
  (at level 100, k at level 200, right associativity) : go_scope.

(** Unfold one layer of the monad. *)
Ltac unfold_m := unfold ret, throw, bind, catch, get, gets, modify in *; cbn beta iota zeta in *.

(** ** A weakest precondition

    [wp c Q s]: run from [s], [c] ends with a result and a state in [Q]. *)
Definition wp {S A} (c : M S A) (Q : result A → S → Prop) (s : S) : Prop :=
  Q (fst (c s)) (snd (c s)).

(** [preserves P c]: whatever [c] returns, a state satisfying [P] stays one. *)
Definition preserves {S A} (P : S → Prop) (c : M S A) : Prop :=
  ∀ s, P s → P (snd (c s)).

Section wp.
Context {S : Type}.

Lemma wp_ret {A} (a : A) Q (s : S) : Q (Ok a) s → wp (ret a) Q s.
Proof. done. Qed.

Lemma wp_throw {A} e (Q : result A → S → Prop) s : Q (Err e) s → wp (throw e) Q s.
Proof. done. Qed.

Lemma wp_gets {A} (f : S → A) Q s : Q (Ok (f s)) s → wp (gets f) Q s.
Proof. done. Qed.

Lemma wp_modify f (Q : result unit → S → Prop) s : Q (Ok tt) (f s) → wp (modify f) Q s.
Proof. done. Qed.

Lemma wp_mono {A} (c : M S A) (Q Q' : result A → S → Prop) s :
  wp c Q s → (∀ r s', Q r s' → Q' r s') → wp c Q' s.
Proof. intros H HQ. by apply HQ. Qed.

Lemma wp_bind {A B} (c : M S A) (k : A → M S B) Q s :
  wp c (λ r s', match r with Ok a => wp (k a) Q s' | Err e => Q (Err e) s' end) s →
  wp (bind c k) Q s.
Proof. unfold wp, bind. destruct (c s) as [[a|e] s']; done. Qed.

Lemma wp_catch {A B} (c : M S A) (k : result A → M S B) Q s :
  wp c (λ r s', wp (k r) Q s') s → wp (catch c k) Q s.
Proof. unfold wp, catch. destruct (c s) as [r s']; done. Qed.

Lemma preserves_wp {A} (P : S → Prop) (c : M S A) :
  (∀ s, P s → wp c (λ _ s', P s') s) → preserves P c.
Proof. intros H s Hs. by apply H. Qed.

Lemma wp_preserves {A} (P : S → Prop) (c : M S A) s :
  preserves P c → P s → wp c (λ _ s', P s') s.
Proof. intros H Hs. by apply H. Qed.

Lemma preserves_ret {A} P (a : A) : preserves (S := S) P (ret a).
Proof. by intros s Hs. Qed.

Lemma preserves_throw {A} P e : preserves (S := S) P (throw (A := A) e).
Proof. by intros s Hs. Qed.

Lemma preserves_bind {A B} P (c : M S A) (k : A → M S B) :
  preserves P c → (∀ a, preserves P (k a)) → preserves P (bind c k).
Proof.
  intros Hc Hk s Hs. specialize (Hc s Hs). unfold bind.
  destruct (c s) as [[a|e] s']; simpl in *; [by apply Hk | done].
Qed.

Lemma preserves_catch {A B} P (c : M S A) (k : result A → M S B) :
  preserves P c → (∀ r, preserves P (k r)) → preserves P (catch c k).
Proof.
  intros Hc Hk s Hs. specialize (Hc s Hs). unfold catch.
  destruct (c s) as [r s']; simpl in *. by apply Hk.
Qed.
End wp.

#[export] Hint Resolve preserves_ret preserves_throw preserves_bind preserves_catch : gohints.

(** ** Lemmas on errors *)

Lemma errors_is_wrap t pre e post : errors_is t (EWrap pre e post) = errors_is t e.
Proof. done. Qed.

Lemma errors_is_join t es : errors_is t (EJoin es) = existsb (errors_is t) es.
Proof. induction es as [|e es IH]; [done|]. simpl in *. by rewrite IH. Qed.

Lemma errors_join_None errs : errors_join errs = None ↔ Forall (.= None) errs.
Proof.
  unfold errors_join. rewrite Forall_forall. split.
  - intros H [e|] Hx; [|done]. exfalso.
    assert (e ∈ omap id errs) as He by (apply list_elem_of_omap; eauto).
    destruct (omap id errs); [by apply elem_of_nil in He | done].
  - intros H. destruct (omap id errs) as [|e es] eqn:E; [done|].
    assert (e ∈ omap id errs) as He by (rewrite E; left).
    apply list_elem_of_omap in He as (x & Hx & Hid). apply H in Hx. by subst.
Qed.

(** ** Checks

    A Go [error] return: [None] is nil.  A check that returns at its first
    failure is a sequence of these. *)

(** [if err := a; err != nil { return err }; b]. *)
Definition and_then (a b : option goerror) : option goerror :=
  match a with Some e => Some e | None => b end.
Notation "a ';?' b" := (and_then a b) (at level 69, right associativity) : go_scope.

(** [if b { return e }]. *)
Definition fail_if (b : bool) (e : goerror) : option goerror := if b then Some e else None.

(** [for _, x := range l { if err := f(x); err != nil { return err } }]. *)
Fixpoint each {A} (f : A → option goerror) (l : list A) : option goerror :=
  match l with
  | [] => None
  | x :: l => match f x with Some e => Some e | None => each f l end
  end.

(** The same loop threading a value. *)
Fixpoint each_with {A S} (f : S → A → result S) (s : S) (l : list A) : result S :=
  match l with
  | [] => Ok s
  | x :: l => match f s x with Ok s => each_with f s l | Err e => Err e end
  end.

(** The same loop with a map of the keys seen: [f x dup], where [dup] says
    whether the key of [x] was there before. *)
Fixpoint each_new {A K} `{EqDecision K} (key : A → K) (f : A → bool → option goerror)
    (seen : list K) (l : list A) : option goerror :=
  match l with
  | [] => None
  | x :: l =>
      match f x (bool_decide (key x ∈ seen)) with
      | Some e => Some e
      | None => each_new key f (key x :: seen) l
      end
  end.

Lemma and_then_None a b : and_then a b = None ↔ a = None ∧ b = None.
Proof. destruct a; naive_solver. Qed.

Lemma fail_if_None b e : fail_if b e = None ↔ b = false.
Proof. by destruct b. Qed.

Lemma each_None {A} (f : A → option goerror) l : each f l = None ↔ ∀ x, x ∈ l → f x = None.
Proof.
  induction l as [|x l IH]; simpl.
  - split; [by intros _ ? ?%elem_of_nil|done].
  - destruct (f x) eqn:E; setoid_rewrite elem_of_cons; [|rewrite IH]; naive_solver.
Qed.

Lemma each_new_None {A K} `{EqDecision K} (key : A → K) f seen l :
  (∀ x, f x true ≠ None) →
  each_new key f seen l = None ↔
    (∀ x, x ∈ l → f x false = None) ∧ NoDup (key <$> l) ∧ (∀ x, x ∈ l → key x ∉ seen).
Proof.
  intros Hdup. revert seen. induction l as [|x l IH]; intros seen; simpl.
  { split; [|done]. intros _. split_and!; [by intros ? ?%elem_of_nil|constructor|by intros ? ?%elem_of_nil]. }
  rewrite NoDup_cons, list_elem_of_fmap. setoid_rewrite elem_of_cons. case_bool_decide as Hs.
  { destruct (f x true) eqn:E; [|by destruct (Hdup x)]. naive_solver. }
  destruct (f x false) eqn:E; [naive_solver|]. rewrite IH. setoid_rewrite not_elem_of_cons.
  split.
  - intros (Hf & Hnd & Hk). split_and!; [naive_solver | | done | naive_solver].
    intros (y & Hy & Hin). by destruct (Hk y Hin) as [? ?].
  - intros (Hf & [Hx Hnd] & Hk). split_and!; [naive_solver | done |]. intros y Hy. split; [|naive_solver].
    intros Hxy. apply Hx. by exists y.
Qed.

Lemma each_new_start {A K} `{EqDecision K} (key : A → K) f l :
  (∀ x, f x true ≠ None) →
  each_new key f [] l = None ↔ (∀ x, x ∈ l → f x false = None) ∧ NoDup (key <$> l).
Proof.
  intros Hdup. rewrite each_new_None by done. split; [tauto|]. intros [? ?].
  split_and!; [done..|]. intros y _. apply not_elem_of_nil.
Qed.

Lemma each_with_app {A S} (f : S → A → result S) s l1 l2 :
  each_with f s (l1 ++ l2) =
  match each_with f s l1 with Ok s => each_with f s l2 | Err e => Err e end.
Proof. revert s; induction l1 as [|x l1 IH]; intros s; simpl; [done|]. destruct (f s x); auto. Qed.

#[export] Hint Rewrite and_then_None fail_if_None @each_None : gorw.
