(* ===== verification/GoStr.v ===== *)
(** * Go strings and numbers

    The functions of Go's [strings] and [strconv] packages the program calls,
    on byte strings.  Case mapping and folding are those of ASCII; a byte
    above 127 maps to itself.  A separator argument is always one character
    in the sources, and so it is here. *)

From S2P Require Import Prelude.
From Stdlib Require Import Ascii.

Local Open Scope Z_scope.

(** ** Characters *)

Definition Z_of_ascii (c : ascii) : Z := Z.of_N (N_of_ascii c).
Definition ascii_of_Z (z : Z) : ascii := ascii_of_N (Z.to_N z).

Definition is_digit (c : ascii) : bool := (48 <=? Z_of_ascii c) && (Z_of_ascii c <=? 57).

Definition lower_ascii (c : ascii) : ascii :=
  let z := Z_of_ascii c in if (65 <=? z) && (z <=? 90) then ascii_of_Z (z + 32) else c.
Definition upper_ascii (c : ascii) : ascii :=
  let z := Z_of_ascii c in if (97 <=? z) && (z <=? 122) then ascii_of_Z (z - 32) else c.

(** The characters [unicode.IsSpace] accepts below 128. *)
Definition is_space (c : ascii) : bool :=
  let z := Z_of_ascii c in ((9 <=? z) && (z <=? 13)) || (z =? 32).

(** ** strings *)

Fixpoint str_map (f : ascii → ascii) (s : string) : string :=
  match s with "" => "" | String c s => String (f c) (str_map f s) end.

(** [strings.ToLower], [strings.ToUpper], [strings.EqualFold]. *)
Definition to_lower : string → string := str_map lower_ascii.
Definition to_upper : string → string := str_map upper_ascii.
Definition equal_fold (a b : string) : bool := String.eqb (to_lower a) (to_lower b).

(** [s[n:]] for [n <= len(s)]. *)
Fixpoint str_drop (n : nat) (s : string) : string :=
  match n, s with
  | O, _ => s
  | S n, String _ s => str_drop n s
  | S _, "" => ""
  end.

(** [s[:n]] for [n <= len(s)]. *)
Fixpoint str_take (n : nat) (s : string) : string :=
  match n, s with
  | S n, String c s => String c (str_take n s)
  | _, _ => ""
  end.

Fixpoint has_prefix (p s : string) : bool :=
  match p, s with
  | "", _ => true
  | String a p, String b s => Ascii.eqb a b && has_prefix p s
  | String _ _, "" => false
  end.

Definition has_suffix (suf s : string) : bool :=
  (String.length suf <=? String.length s)%nat &&
  String.eqb (str_drop (String.length s - String.length suf) s) suf.

Definition trim_prefix (p s : string) : string :=
  if has_prefix p s then str_drop (String.length p) s else s.
Definition trim_suffix (suf s : string) : string :=
  if has_suffix suf s then str_take (String.length s - String.length suf) s else s.

(** [s == ""]. *)
Definition is_empty (s : string) : bool := String.eqb s "".

(** Membership in a slice or a set of strings. *)
Definition bool_mem (x : string) (l : list string) : bool := bool_decide (x ∈ l).

(** [strings.Contains(s, sub)]. *)
Fixpoint contains (s sub : string) : bool :=
  has_prefix sub s || match s with "" => false | String _ s => contains s sub end.

Fixpoint str_mem (c : ascii) (s : string) : bool :=
  match s with "" => false | String d s => Ascii.eqb c d || str_mem c s end.

(** [strings.ContainsAny(s, chars)]. *)
Fixpoint contains_any (s chars : string) : bool :=
  match s with "" => false | String c s => str_mem c chars || contains_any s chars end.

(** [strings.TrimRight(s, cutset)] and [TrimSpace], by predicate. *)
Fixpoint trim_right_by (p : ascii → bool) (s : string) : string :=
  match s with
  | "" => ""
  | String c s =>
      match trim_right_by p s with
      | "" => if p c then "" else String c ""
      | r => String c r
      end
  end.
Fixpoint trim_left_by (p : ascii → bool) (s : string) : string :=
  match s with "" => "" | String c r => if p c then trim_left_by p r else s end.
Definition trim_right (s cutset : string) : string := trim_right_by (fun c => str_mem c cutset) s.
Definition trim_space (s : string) : string := trim_right_by is_space (trim_left_by is_space s).

(** [strings.Split(s, sep)] for a one-character separator. *)
Fixpoint split (c : ascii) (s : string) : list string :=
  match s with
  | "" => [""]
  | String d s =>
      if Ascii.eqb c d then "" :: split c s
      else match split c s with
           | [] => [String d ""]
           | w :: ws => String d w :: ws
           end
  end.

(** [strings.Cut(s, sep)] for a one-character separator. *)
Fixpoint cut (c : ascii) (s : string) : string * string * bool :=
  match s with
  | "" => ("", "", false)
  | String d s =>
      if Ascii.eqb c d then ("", s, true)
      else let '(a, b, ok) := cut c s in (String d a, b, ok)
  end.

(** [strings.Join(ws, sep)]. *)
Fixpoint join (sep : string) (ws : list string) : string :=
  match ws with
  | [] => ""
  | [w] => w
  | w :: ws => w +:+ sep +:+ join sep ws
  end.

(** [strings.Fields(s)]: the maximal runs of non-space characters. *)
Fixpoint fields_go (s acc : string) : list string :=
  match s with
  | "" => if String.eqb acc "" then [] else [acc]
  | String c s =>
      if is_space c then (if String.eqb acc "" then fields_go s "" else acc :: fields_go s "")
      else fields_go s (acc +:+ String c "")
  end.
Definition fields (s : string) : list string := fields_go s "".

(** ** Machine integers *)

Definition int64_min : Z := - 2 ^ 63.
Definition int64_max : Z := 2 ^ 63 - 1.

(** Two's-complement wrap-around of a 64-bit signed integer. *)
Definition wrap64 (z : Z) : Z := (z + 2 ^ 63) mod 2 ^ 64 - 2 ^ 63.

(** ** strconv *)

Definition digit_char (d : Z) : ascii := ascii_of_Z (48 + d).
Definition digit_val (c : ascii) : Z := Z_of_ascii c - 48.

(** The decimal digits of [n], in front of [acc]. *)
Fixpoint dec_digits (fuel : nat) (n : Z) (acc : string) : string :=
  match fuel with
  | O => acc
  | S fuel =>
      let acc := String (digit_char (n mod 10)) acc in
      if n / 10 =? 0 then acc else dec_digits fuel (n / 10) acc
  end.

(** [strconv.FormatInt(n, 10)] and [strconv.Itoa(n)]. *)
Definition format_int (n : Z) : string :=
  if n <? 0 then String "-"%char (dec_digits (S (Z.to_nat (Z.log2 (- n)))) (- n) "")
  else dec_digits (S (Z.to_nat (Z.log2 n))) n "".

(** The value of a run of digits read after [acc]; [None] on another character. *)
Fixpoint digits_val (acc : Z) (s : string) : option Z :=
  match s with
  | "" => Some acc
  | String c s => if is_digit c then digits_val (acc * 10 + digit_val c) s else None
  end.

Definition parse_sign (s : string) : Z * string :=
  match s with
  | String c r => if Ascii.eqb c "-" then (-1, r) else if Ascii.eqb c "+" then (1, r) else (1, s)
  | "" => (1, "")
  end.

(** [strconv.ParseInt(s, 10, 64)] and [strconv.Atoi(s)]; [None] is the error. *)
Definition parse_int (s : string) : option Z :=
  let '(sign, ds) := parse_sign s in
  if String.eqb ds "" then None
  else match digits_val 0 ds with
       | Some v => let z := sign * v in
                   if (int64_min <=? z) && (z <=? int64_max) then Some z else None
       | None => None
       end.

(** [strconv.Quote], the [%q] verb: bytes from 128 on are kept, as printable
    UTF-8 is. *)
Definition hex_digit (k : Z) : ascii := ascii_of_Z (if k <? 10 then 48 + k else 87 + k).
Definition quote_char (c : ascii) : string :=
  let z := Z_of_ascii c in
  if (z =? 34) || (z =? 92) then String "\" (String c "")
  else if z =? 7 then "\a" else if z =? 8 then "\b" else if z =? 9 then "\t"
  else if z =? 10 then "\n" else if z =? 11 then "\v" else if z =? 12 then "\f"
  else if z =? 13 then "\r"
  else if (z <? 32) || (z =? 127)
  then "\x" +:+ String (hex_digit (z / 16)) (String (hex_digit (z mod 16)) "")
  else String c "".
Fixpoint quote_chars (s : string) : string :=
  match s with "" => "" | String c s => quote_char c +:+ quote_chars s end.
Definition quote (s : string) : string :=
  String "034" (quote_chars s +:+ String "034" "").

(** [strconv.FormatInt(n, 16)] of a non-negative [n]. *)
Fixpoint hex_digits (fuel : nat) (n : Z) (acc : string) : string :=
  match fuel with
  | O => acc
  | S fuel =>
      let acc := String (hex_digit (n mod 16)) acc in
      if n <? 16 then acc else hex_digits fuel (n / 16) acc
  end.
Definition format_hex (n : Z) : string := hex_digits (S (Z.to_nat (Z.log2 n))) n "".

(** [sort.Strings]. *)
Definition sort_strings : list string → list string := merge_sort String.le.

(** ** Lemmas *)

Lemma Z_of_ascii_range c : 0 ≤ Z_of_ascii c < 256.
Proof. unfold Z_of_ascii. pose proof (N_ascii_bounded c). lia. Qed.

Lemma Z_of_ascii_of_Z z : 0 ≤ z < 256 → Z_of_ascii (ascii_of_Z z) = z.
Proof.
  intros Hz. unfold Z_of_ascii, ascii_of_Z.
  rewrite N_ascii_embedding by lia. lia.
Qed.

Lemma ascii_of_Z_of_ascii c : ascii_of_Z (Z_of_ascii c) = c.
Proof. unfold Z_of_ascii, ascii_of_Z. by rewrite N2Z.id, ascii_N_embedding. Qed.

Lemma lower_ascii_idemp c : lower_ascii (lower_ascii c) = lower_ascii c.
Proof. destruct c as [[] [] [] [] [] [] [] []]; reflexivity. Qed.

Lemma wrap64_id z : int64_min ≤ z ≤ int64_max → wrap64 z = z.
Proof. unfold int64_min, int64_max, wrap64. intros Hz. rewrite Z.mod_small; lia. Qed.

Lemma wrap64_range z : int64_min ≤ wrap64 z ≤ int64_max.
Proof.
  unfold int64_min, int64_max, wrap64.
  pose proof (Z.mod_pos_bound (z + 2 ^ 63) (2 ^ 64)). lia.
Qed.

#[export] Hint Rewrite ascii_of_Z_of_ascii : gorw.

(** *** Concatenation *)

Lemma str_app_nil_r s : s +:+ "" = s.
Proof. induction s; simpl; congruence. Qed.

Lemma str_app_assoc a b c : (a +:+ b) +:+ c = a +:+ b +:+ c.
Proof. induction a; simpl; congruence. Qed.

Lemma str_length_app a b : String.length (a +:+ b) = (String.length a + String.length b)%nat.
Proof. induction a; simpl; congruence. Qed.

Lemma str_drop_app a b : str_drop (String.length a) (a +:+ b) = b.
Proof. induction a; simpl; [by destruct b | done]. Qed.

Lemma str_take_app a b : str_take (String.length a) (a +:+ b) = a.
Proof. induction a; simpl; [by destruct b | congruence]. Qed.

Lemma str_take_drop n s : str_take n s +:+ str_drop n s = s.
Proof. revert s; induction n; intros [|c s]; simpl; try done. by rewrite IHn. Qed.

Lemma str_length_drop n s : String.length (str_drop n s) = (String.length s - n)%nat.
Proof. revert s; induction n; intros [|c s]; simpl; auto. Qed.

Lemma str_mem_app c a b : str_mem c (a +:+ b) = str_mem c a || str_mem c b.
Proof. induction a; simpl; [done|]. by rewrite IHa, orb_assoc. Qed.

#[export] Hint Rewrite str_app_nil_r str_app_assoc str_length_app str_drop_app str_take_app
  str_mem_app : gorw.

(** *** Prefixes and suffixes *)

Lemma has_prefix_spec p s : has_prefix p s = true ↔ ∃ r, s = p +:+ r.
Proof.
  revert s; induction p as [|a p IH]; intros s; simpl.
  { split; [by exists s | done]. }
  destruct s as [|b s]; [split; [done | by intros (r & ?)]|].
  rewrite andb_true_iff, IH, Ascii.eqb_eq. split.
  - intros (-> & r & ->). by exists r.
  - intros (r & [= -> ->]). eauto.
Qed.

Lemma has_prefix_app p r : has_prefix p (p +:+ r) = true.
Proof. apply has_prefix_spec; eauto. Qed.

Lemma trim_prefix_app p r : trim_prefix p (p +:+ r) = r.
Proof. unfold trim_prefix. by rewrite has_prefix_app, str_drop_app. Qed.

Lemma has_suffix_spec suf s : has_suffix suf s = true ↔ ∃ r, s = r +:+ suf.
Proof.
  unfold has_suffix. rewrite andb_true_iff, Nat.leb_le, String.eqb_eq. split.
  - intros (Hl & Hd). exists (str_take (String.length s - String.length suf) s).
    rewrite <-Hd at 2. by rewrite str_take_drop.
  - intros (r & ->). rewrite str_length_app. split; [lia|].
    replace (_ + _ - _)%nat with (String.length r) by lia. apply str_drop_app.
Qed.

Lemma trim_suffix_app suf r : trim_suffix suf (r +:+ suf) = r.
Proof.
  unfold trim_suffix. rewrite (proj2 (has_suffix_spec suf (r +:+ suf))) by eauto.
  rewrite str_length_app.
  replace (_ + _ - _)%nat with (String.length r) by lia. apply str_take_app.
Qed.

#[export] Hint Rewrite has_prefix_app trim_prefix_app trim_suffix_app : gorw.

(** *** Split, cut and join *)

Lemma split_nonnil c s : split c s ≠ [].
Proof. destruct s; simpl; [done|]. case_match; [done|]. by case_match. Qed.

Lemma split_free c s : str_mem c s = false → split c s = [s].
Proof.
  induction s as [|d s IH]; simpl; [done|]. intros [Hd Hs]%orb_false_iff.
  by rewrite Hd, IH.
Qed.

Lemma split_app c a s : str_mem c a = false → split c (a +:+ String c s) = a :: split c s.
Proof.
  induction a as [|d a IH]; simpl; [by rewrite Ascii.eqb_refl|].
  intros [Hd Ha]%orb_false_iff. by rewrite Hd, IH.
Qed.

Lemma join_cons sep w ws : ws ≠ [] → join sep (w :: ws) = w +:+ sep +:+ join sep ws.
Proof. by destruct ws. Qed.

Lemma join_split c s : join (String c "") (split c s) = s.
Proof.
  induction s as [|d s IH]; [done|]. cbn [split].
  destruct (Ascii.eqb_spec c d) as [->|Hne].
  - rewrite join_cons by apply split_nonnil. simpl. by rewrite IH.
  - pose proof (split_nonnil c s) as Hn. destruct (split c s) as [|w ws]; [done|].
    destruct ws as [|w' ws]; simpl in *; congruence.
Qed.

Lemma split_mem c s w : w ∈ split c s → str_mem c w = false.
Proof.
  revert w. induction s as [|d s IH]; simpl; intros w Hw.
  { apply list_elem_of_singleton in Hw. by subst. }
  destruct (Ascii.eqb c d) eqn:E.
  - apply elem_of_cons in Hw as [->|Hw]; [done | auto].
  - pose proof (split_nonnil c s) as Hn. destruct (split c s) as [|w' ws]; [done|].
    apply elem_of_cons in Hw as [->|Hw].
    + simpl. rewrite E. apply IH. left.
    + apply IH. by right.
Qed.

Lemma cut_app c a b : str_mem c a = false → cut c (a +:+ String c b) = (a, b, true).
Proof.
  induction a as [|d a IH]; simpl; [by rewrite Ascii.eqb_refl|].
  intros [Hd Ha]%orb_false_iff. by rewrite Hd, IH.
Qed.

Lemma cut_spec c s a b : cut c s = (a, b, true) → s = a +:+ String c b ∧ str_mem c a = false.
Proof.
  revert a b. induction s as [|d s IH]; intros a b; simpl; [done|].
  destruct (Ascii.eqb c d) eqn:E.
  - intros [= <- <-]. apply Ascii.eqb_eq in E as ->. done.
  - destruct (cut c s) as [[a' b'] ok]. intros [= <- <- ->].
    destruct (IH a' b') as [-> Hm]; [done|]. simpl. by rewrite E.
Qed.

(** *** Case folding *)

Lemma equal_fold_iff a b : equal_fold a b = true ↔ to_lower a = to_lower b.
Proof. unfold equal_fold. apply String.eqb_eq. Qed.

(** Equality up to ASCII case, as an equivalence for rewriting. *)
Definition fold_eq (a b : string) : Prop := equal_fold a b = true.

#[export] Instance fold_eq_equivalence : Equivalence fold_eq.
Proof.
  unfold fold_eq. split.
  - intros a. by apply equal_fold_iff.
  - intros a b. rewrite !equal_fold_iff. congruence.
  - intros a b c. rewrite !equal_fold_iff. congruence.
Qed.

#[export] Instance equal_fold_proper : Proper (fold_eq ==> fold_eq ==> eq) equal_fold.
Proof.
  intros a a' Ha b b' Hb. unfold fold_eq in *. rewrite equal_fold_iff in Ha, Hb.
  unfold equal_fold. by rewrite Ha, Hb.
Qed.

#[export] Instance to_lower_proper : Proper (fold_eq ==> eq) to_lower.
Proof. intros a b Hab. by apply equal_fold_iff. Qed.

Lemma equal_fold_refl a : equal_fold a a = true.
Proof. by apply equal_fold_iff. Qed.

Lemma equal_fold_sym a b : equal_fold a b = equal_fold b a.
Proof. unfold equal_fold. apply String.eqb_sym. Qed.

#[export] Hint Rewrite equal_fold_refl : gorw.

(** *** Decimal printing and parsing *)

Lemma digit_char_val d : 0 ≤ d < 10 → is_digit (digit_char d) = true ∧ digit_val (digit_char d) = d.
Proof.
  intros Hd. unfold is_digit, digit_val, digit_char. rewrite Z_of_ascii_of_Z by lia.
  split; [rewrite andb_true_iff, !Z.leb_le; lia | lia].
Qed.

Lemma digits_val_dec fuel n acc :
  0 ≤ n < 10 ^ Z.of_nat fuel → (0 < fuel)%nat →
  digits_val 0 (dec_digits fuel n acc) = digits_val n acc.
Proof.
  revert n acc. induction fuel as [|fuel IH]; intros n acc Hn Hf; [lia|].
  cbn [dec_digits]. pose proof (Z.mod_pos_bound n 10 ltac:(lia)) as Hm.
  destruct (digit_char_val (n mod 10)) as [Hd Hv]; [lia|].
  destruct (Z.eqb_spec (n / 10) 0) as [E|E].
  - cbn [digits_val]. rewrite Hd, Hv. f_equal. dlia.
  - assert (0 < fuel)%nat by (destruct fuel; [exfalso; change (10 ^ Z.of_nat 1) with 10 in Hn; dlia | lia]).
    rewrite IH; [| |done].
    + cbn [digits_val]. rewrite Hd, Hv. f_equal. dlia.
    + rewrite Nat2Z.inj_succ, Z.pow_succ_r in Hn by lia. dlia.
Qed.

Lemma dec_fuel n : 0 ≤ n → n < 10 ^ Z.of_nat (S (Z.to_nat (Z.log2 n))).
Proof.
  intros Hn. destruct (decide (n = 0)) as [->|Hne]; [vm_compute; done|].
  pose proof (Z.log2_spec n ltac:(lia)) as [_ Hs]. pose proof (Z.log2_nonneg n).
  rewrite Nat2Z.inj_succ, Z2Nat.id by lia.
  eapply Z.lt_le_trans; [exact Hs|]. apply Z.pow_le_mono_l. lia.
Qed.

(** Every printed character comes from the digits or from the accumulator. *)
Lemma dec_digits_mem c fuel n acc :
  is_digit c = false → str_mem c (dec_digits fuel n acc) = str_mem c acc.
Proof.
  intros Hc. revert n acc. induction fuel as [|fuel IH]; intros n acc; [done|].
  cbn [dec_digits]. assert (Ascii.eqb c (digit_char (n mod 10)) = false) as Hne.
  { apply Ascii.eqb_neq. intros ->. pose proof (Z.mod_pos_bound n 10 ltac:(lia)).
    destruct (digit_char_val (n mod 10)); [lia | congruence]. }
  case_match; [| rewrite IH]; simpl; by rewrite Hne.
Qed.

Lemma format_int_mem c n :
  is_digit c = false → c ≠ "-"%char → str_mem c (format_int n) = false.
Proof.
  intros Hc Hm. unfold format_int. case_match; cbn [str_mem];
    rewrite dec_digits_mem by done; [|done].
  rewrite (proj2 (Ascii.eqb_neq c "-")); done.
Qed.

Lemma dec_digits_nonempty fuel n : dec_digits (S fuel) n "" ≠ "".
Proof.
  assert (∀ f m acc, acc ≠ "" → dec_digits f m acc ≠ "") as H.
  { induction f as [|f IH]; intros m acc Ha; [done|]. cbn [dec_digits].
    case_match; [done | by apply IH]. }
  cbn [dec_digits]. case_match; [done | by apply H].
Qed.

Lemma dec_digits_head fuel n acc :
  ∃ c r, dec_digits (S fuel) n acc = String c r ∧ is_digit c = true.
Proof.
  revert n acc. induction fuel as [|fuel IH]; intros n acc;
    pose proof (Z.mod_pos_bound n 10 ltac:(lia)) as Hm;
    pose proof (proj1 (digit_char_val (n mod 10) Hm)) as Hd.
  - cbn [dec_digits]. case_match; eauto.
  - cbn [dec_digits]. case_match; [eauto|]. apply IH.
Qed.

Lemma parse_sign_digits fuel n :
  parse_sign (dec_digits (S fuel) n "") = (1, dec_digits (S fuel) n "").
Proof.
  destruct (dec_digits_head fuel n "") as (c & r & -> & Hc). unfold parse_sign.
  destruct (Ascii.eqb_spec c "-") as [->|]; [done|].
  by destruct (Ascii.eqb_spec c "+") as [->|].
Qed.

(** Printing an int64 and parsing it back is the identity. *)
Lemma parse_format_int n : int64_min ≤ n ≤ int64_max → parse_int (format_int n) = Some n.
Proof.
  intros Hn. unfold format_int, parse_int.
  destruct (Z.ltb_spec n 0) as [Hneg|Hpos].
  - cbn [parse_sign]. rewrite Ascii.eqb_refl.
    destruct (String.eqb_spec (dec_digits (S (Z.to_nat (Z.log2 (- n)))) (- n) "") "") as [E|_];
      [by apply dec_digits_nonempty in E|].
    rewrite digits_val_dec by (pose proof (dec_fuel (- n)); lia). cbn [digits_val].
    replace (-1 * - n) with n by lia. rewrite (proj2 (Z.leb_le _ _)), (proj2 (Z.leb_le _ _)) by lia.
    done.
  - rewrite parse_sign_digits.
    destruct (String.eqb_spec (dec_digits (S (Z.to_nat (Z.log2 n))) n "") "") as [E|_];
      [by apply dec_digits_nonempty in E|].
    rewrite digits_val_dec by (pose proof (dec_fuel n); lia). cbn [digits_val].
    rewrite Z.mul_1_l, (proj2 (Z.leb_le _ _)), (proj2 (Z.leb_le _ _)) by lia. done.
Qed.

Lemma parse_int_range s z : parse_int s = Some z → int64_min ≤ z ≤ int64_max.
Proof.
  unfold parse_int. destruct (parse_sign s) as [sg ds]. do 2 (case_match; [|done]) || idtac.
  all: repeat (case_match; try done); intros; simplify_eq;
    match goal with H : _ && _ = true |- _ => apply andb_true_iff in H as [?%Z.leb_le ?%Z.leb_le] end;
    lia.
Qed.

Lemma format_int_inj a b :
  int64_min ≤ a ≤ int64_max → int64_min ≤ b ≤ int64_max → format_int a = format_int b → a = b.
Proof. intros Ha Hb E. apply (f_equal parse_int) in E. rewrite !parse_format_int in E; congruence. Qed.

Lemma sort_strings_perm l : sort_strings l ≡ₚ l.
Proof. apply merge_sort_Permutation. Qed.

Lemma sort_strings_sorted l : StronglySorted String.le (sort_strings l).
Proof. apply StronglySorted_merge_sort; apply _. Qed.

Lemma elem_of_sort_strings x l : x ∈ sort_strings l ↔ x ∈ l.
Proof. by rewrite sort_strings_perm. Qed.


Lemma contains_spec s sub : contains s sub = true ↔ ∃ a b, s = a +:+ sub +:+ b.
Proof.
  split.
  - induction s as [|c s IH]; simpl; rewrite orb_true_iff.
    + intros [Hp|?]; [|done]. apply has_prefix_spec in Hp as (r & E). exists "", r. done.
    + intros [Hp|Hc].
      * apply has_prefix_spec in Hp as (r & E). exists "", r. done.
      * destruct (IH Hc) as (a & b & ->). exists (String c a), b. done.
  - intros (a & b & ->). induction a as [|c a IH]; simpl.
    + destruct (sub +:+ b) as [|d u] eqn:E; simpl; rewrite <-?E, has_prefix_app; done.
    + simpl in IH. rewrite IH. apply orb_true_r.
Qed.

Lemma contains_any_false s chars c :
  contains_any s chars = false → str_mem c chars = true → str_mem c s = false.
Proof.
  induction s as [|d s IH]; simpl; [done|]. rewrite !orb_false_iff. intros [Hd Hs] Hc. split; [|auto].
  apply Ascii.eqb_neq. intros ->. congruence.
Qed.

Lemma is_empty_false s : is_empty s = false ↔ s ≠ "".
Proof. unfold is_empty. rewrite String.eqb_neq. done. Qed.

Lemma is_empty_true s : is_empty s = true ↔ s = "".
Proof. unfold is_empty. by rewrite String.eqb_eq. Qed.

Lemma bool_mem_true x l : bool_mem x l = true ↔ x ∈ l.
Proof. unfold bool_mem. by rewrite bool_decide_eq_true. Qed.
