(* ===== verification/Codec.v ===== *)
(** * Base64 and hexadecimal

    The decoders and encoders of Go's [encoding/base64] and [encoding/hex]
    the program uses, on byte strings. *)

From S2P Require Import Prelude GoStr.
From Stdlib Require Import Ascii.

Local Open Scope Z_scope.

(** ** encoding/base64 *)

(** An encoding: its last two symbols, and whether it pads with [=]. *)
Record b64_encoding := B64 { b64_c62 : ascii; b64_c63 : ascii; b64_pad : bool }.

Definition StdEncoding : b64_encoding := B64 "+" "/" true.
Definition RawStdEncoding : b64_encoding := B64 "+" "/" false.
Definition URLEncoding : b64_encoding := B64 "-" "_" true.
Definition RawURLEncoding : b64_encoding := B64 "-" "_" false.

Definition b64_char (e : b64_encoding) (k : Z) : ascii :=
  if k <? 26 then ascii_of_Z (65 + k)
  else if k <? 52 then ascii_of_Z (97 + (k - 26))
  else if k <? 62 then ascii_of_Z (48 + (k - 52))
  else if k =? 62 then b64_c62 e else b64_c63 e.

Definition b64_val (e : b64_encoding) (c : ascii) : option Z :=
  let z := Z_of_ascii c in
  if (65 <=? z) && (z <=? 90) then Some (z - 65)
  else if (97 <=? z) && (z <=? 122) then Some (z - 97 + 26)
  else if (48 <=? z) && (z <=? 57) then Some (z - 48 + 52)
  else if Ascii.eqb c (b64_c62 e) then Some 62
  else if Ascii.eqb c (b64_c63 e) then Some 63
  else None.

Definition byte1 (x y : Z) : ascii := ascii_of_Z (x * 4 + y / 16).
Definition byte2 (y z : Z) : ascii := ascii_of_Z (y mod 16 * 16 + z / 4).
Definition byte3 (z w : Z) : ascii := ascii_of_Z (z mod 4 * 64 + w).

Definition is_pad (e : b64_encoding) (c : ascii) : bool := b64_pad e && Ascii.eqb c "=".

(** Decoding once line breaks are gone; quanta of four symbols, the last one
    possibly short or padded.  Trailing bits are not checked (not [Strict]). *)
Fixpoint b64_decode_quanta (e : b64_encoding) (s : string) : option string :=
  match s with
  | "" => Some ""
  | String a (String b r) =>
      match b64_val e a, b64_val e b with
      | Some x, Some y =>
          match r with
          | "" => if b64_pad e then None else Some (String (byte1 x y) "")
          | String c r =>
              match b64_val e c with
              | Some z =>
                  match r with
                  | "" => if b64_pad e then None
                          else Some (String (byte1 x y) (String (byte2 y z) ""))
                  | String d r =>
                      match b64_val e d with
                      | Some w =>
                          match b64_decode_quanta e r with
                          | Some t => Some (String (byte1 x y) (String (byte2 y z)
                                                                 (String (byte3 z w) t)))
                          | None => None
                          end
                      | None => if is_pad e d && String.eqb r ""
                                then Some (String (byte1 x y) (String (byte2 y z) "")) else None
                      end
                  end
              | None =>
                  match r with
                  | String d "" => if is_pad e c && is_pad e d
                                   then Some (String (byte1 x y) "") else None
                  | _ => None
                  end
              end
          end
      | _, _ => None
      end
  | String _ "" => None
  end.

Fixpoint drop_newlines (s : string) : string :=
  match s with
  | "" => ""
  | String c s => if Ascii.eqb c "010" || Ascii.eqb c "013" then drop_newlines s
                  else String c (drop_newlines s)
  end.

(** [enc.DecodeString(s)]; [None] is the error. *)
Definition b64_decode (e : b64_encoding) (s : string) : option string :=
  b64_decode_quanta e (drop_newlines s).

Definition sext1 (b0 : Z) : Z := b0 / 4.
Definition sext2 (b0 b1 : Z) : Z := b0 mod 4 * 16 + b1 / 16.
Definition sext3 (b1 b2 : Z) : Z := b1 mod 16 * 4 + b2 / 64.
Definition sext4 (b2 : Z) : Z := b2 mod 64.

(** [enc.EncodeToString(s)]. *)
Fixpoint b64_encode (e : b64_encoding) (s : string) : string :=
  match s with
  | "" => ""
  | String p "" =>
      let b := Z_of_ascii p in
      String (b64_char e (sext1 b)) (String (b64_char e (sext2 b 0))
        (if b64_pad e then "==" else ""))
  | String p (String q "") =>
      let b := Z_of_ascii p in let c := Z_of_ascii q in
      String (b64_char e (sext1 b)) (String (b64_char e (sext2 b c))
        (String (b64_char e (sext3 c 0)) (if b64_pad e then "=" else "")))
  | String p (String q (String r s)) =>
      let b := Z_of_ascii p in let c := Z_of_ascii q in let d := Z_of_ascii r in
      String (b64_char e (sext1 b)) (String (b64_char e (sext2 b c))
        (String (b64_char e (sext3 c d)) (String (b64_char e (sext4 d)) (b64_encode e s))))
  end.

(** ** encoding/hex *)

Definition hex_char (k : Z) : ascii :=
  if k <? 10 then ascii_of_Z (48 + k) else ascii_of_Z (97 + (k - 10)).

Definition hex_val (c : ascii) : option Z :=
  let z := Z_of_ascii c in
  if (48 <=? z) && (z <=? 57) then Some (z - 48)
  else if (97 <=? z) && (z <=? 102) then Some (z - 97 + 10)
  else if (65 <=? z) && (z <=? 70) then Some (z - 65 + 10)
  else None.

(** [hex.EncodeToString], [hex.DecodeString]. *)
Fixpoint hex_encode (s : string) : string :=
  match s with
  | "" => ""
  | String c s => let z := Z_of_ascii c in
                  String (hex_char (z / 16)) (String (hex_char (z mod 16)) (hex_encode s))
  end.

Fixpoint hex_decode (s : string) : option string :=
  match s with
  | "" => Some ""
  | String _ "" => None
  | String a (String b s) =>
      match hex_val a, hex_val b, hex_decode s with
      | Some x, Some y, Some t => Some (String (ascii_of_Z (x * 16 + y)) t)
      | _, _, _ => None
      end
  end.

(** ** Lemmas *)

(** The two alphabets in use: their last symbols are no letter, digit or [=]. *)
Definition known_encoding (e : b64_encoding) : Prop :=
  (b64_c62 e, b64_c63 e) = ("+"%char, "/"%char) ∨ (b64_c62 e, b64_c63 e) = ("-"%char, "_"%char).

Lemma all_below (n : nat) (P : Z → bool) :
  forallb P (upto n) = true → ∀ k, 0 ≤ k < Z.of_nat n → P k = true.
Proof. intros H k Hk. rewrite forallb_forall in H. apply H, list_elem_of_In, elem_of_upto. done. Qed.

Lemma b64_val_char e k : known_encoding e → 0 ≤ k < 64 →
  b64_val e (b64_char e k) = Some k ∧ Ascii.eqb (b64_char e k) "010" = false ∧
  Ascii.eqb (b64_char e k) "013" = false.
Proof.
  intros He Hk.
  set (P := fun e k => bool_decide (b64_val e (b64_char e k) = Some k) &&
              negb (Ascii.eqb (b64_char e k) "010") && negb (Ascii.eqb (b64_char e k) "013")).
  assert (P e k = true) as HP.
  { destruct e as [c62 c63 pad]. destruct He as [He|He]; simpl in He; injection He as -> ->;
      apply (all_below 64); try done; destruct pad; vm_compute; reflexivity. }
  unfold P in HP. rewrite !andb_true_iff, bool_decide_eq_true, !negb_true_iff in HP. tauto.
Qed.

Lemma hex_val_char k : 0 ≤ k < 16 → hex_val (hex_char k) = Some k.
Proof.
  intros Hk. apply (all_below 16 (fun k => bool_decide (hex_val (hex_char k) = Some k))) in Hk;
    [by apply bool_decide_eq_true in Hk | vm_compute; reflexivity].
Qed.

Lemma hex_decode_encode s : hex_decode (hex_encode s) = Some s.
Proof.
  induction s as [|c s IH]; [done|]. cbn [hex_encode hex_decode].
  pose proof (Z_of_ascii_range c).
  rewrite !hex_val_char, IH by dlia.
  rewrite <-(ascii_of_Z_of_ascii c) at 3. do 3 f_equal. dlia.
Qed.

Lemma hex_encode_mem c s : hex_val c = None → str_mem c (hex_encode s) = false.
Proof.
  intros Hc. induction s as [|d s IH]; [done|]. cbn [hex_encode str_mem].
  pose proof (Z_of_ascii_range d).
  assert (∀ k, 0 ≤ k < 16 → Ascii.eqb c (hex_char k) = false) as H'.
  { intros k Hk. apply Ascii.eqb_neq. intros ->. by rewrite hex_val_char in Hc. }
  by rewrite !H', IH by dlia.
Qed.

Lemma byte_sext b0 b1 : 0 ≤ b0 < 256 → 0 ≤ b1 < 256 →
  byte1 (sext1 b0) (sext2 b0 b1) = ascii_of_Z b0.
Proof. intros. unfold byte1, sext1, sext2. f_equal. dlia. Qed.
Lemma byte_sext2 b0 b1 b2 : 0 ≤ b0 < 256 → 0 ≤ b1 < 256 → 0 ≤ b2 < 256 →
  byte2 (sext2 b0 b1) (sext3 b1 b2) = ascii_of_Z b1.
Proof. intros. unfold byte2, sext2, sext3. f_equal. dlia. Qed.
Lemma byte_sext3 b1 b2 : 0 ≤ b1 < 256 → 0 ≤ b2 < 256 →
  byte3 (sext3 b1 b2) (sext4 b2) = ascii_of_Z b2.
Proof. intros. unfold byte3, sext3, sext4. f_equal. dlia. Qed.

Lemma sext_range b0 b1 b2 : 0 ≤ b0 < 256 → 0 ≤ b1 < 256 → 0 ≤ b2 < 256 →
  0 ≤ sext1 b0 < 64 ∧ 0 ≤ sext2 b0 b1 < 64 ∧ 0 ≤ sext3 b1 b2 < 64 ∧ 0 ≤ sext4 b2 < 64.
Proof. intros. unfold sext1, sext2, sext3, sext4. dlia. Qed.

(** Induction three characters at a time. *)
Lemma string_ind3 (P : string → Prop) :
  P "" → (∀ a, P (String a "")) → (∀ a b, P (String a (String b ""))) →
  (∀ a b c s, P s → P (String a (String b (String c s)))) → ∀ s, P s.
Proof.
  intros H0 H1 H2 H3 s.
  enough (P s ∧ (∀ a, P (String a s)) ∧ (∀ a b, P (String a (String b s)))) by tauto.
  induction s as [|c s (IH0 & IH1 & IH2)]; eauto 7.
Qed.

Lemma b64_val_pad e : known_encoding e → b64_val e "=" = None.
Proof.
  destruct e as [c62 c63 pad]. intros [He|He]; simpl in He; injection He as -> ->; reflexivity.
Qed.

Ltac b64_ranges :=
  repeat match goal with
         | c : ascii |- _ =>
             lazymatch goal with
             | _ : 0 ≤ Z_of_ascii c < 256 |- _ => fail
             | _ => pose proof (Z_of_ascii_range c)
             end
         end.
Ltac b64_sext := first [ unfold sext1, sext2, sext3, sext4; dlia ].

Lemma b64_encode_no_newlines e s : known_encoding e →
  drop_newlines (b64_encode e s) = b64_encode e s.
Proof.
  intros He. assert (∀ k, 0 ≤ k < 64 → ∀ t, drop_newlines (String (b64_char e k) t) =
    String (b64_char e k) (drop_newlines t)) as H.
  { intros k Hk t. cbn [drop_newlines]. destruct (b64_val_char e k He Hk) as (_ & -> & ->). done. }
  induction s as [|a|a b|a b c s IH] using string_ind3; b64_ranges; [done| | |];
    cbn [b64_encode]; rewrite !H by b64_sext; [by destruct (b64_pad e) ..|].
  by rewrite IH.
Qed.

(** Decoding what was encoded gives the bytes back, in all four encodings. *)
Lemma b64_decode_encode e s : known_encoding e → b64_decode e (b64_encode e s) = Some s.
Proof.
  intros He. unfold b64_decode. rewrite b64_encode_no_newlines by done.
  assert (∀ k, 0 ≤ k < 64 → b64_val e (b64_char e k) = Some k) as Hv
    by (intros k Hk; apply (b64_val_char e k He Hk)).
  pose proof (b64_val_pad e He) as Hp.
  induction s as [|a|a b|a b c s IH] using string_ind3; b64_ranges; [done| | |];
    cbn [b64_encode].
  - destruct (b64_pad e) eqn:E; cbn [b64_decode_quanta];
      rewrite !Hv, ?Hp, ?E by b64_sext; unfold is_pad; rewrite ?E;
      cbn [andb Ascii.eqb]; rewrite ?Ascii.eqb_refl; cbn [andb];
      by rewrite byte_sext, ascii_of_Z_of_ascii by lia.
  - destruct (b64_pad e) eqn:E; cbn [b64_decode_quanta];
      rewrite !Hv, ?Hp, ?E by b64_sext; unfold is_pad; rewrite ?E, ?Ascii.eqb_refl; cbn [andb String.eqb];
      by rewrite byte_sext, byte_sext2, !ascii_of_Z_of_ascii by lia.
  - cbn [b64_decode_quanta]. rewrite !Hv, IH by b64_sext.
    by rewrite byte_sext, byte_sext2, byte_sext3, !ascii_of_Z_of_ascii by lia.
Qed.

Lemma known_std : known_encoding StdEncoding. Proof. by left. Qed.
Lemma known_raw_std : known_encoding RawStdEncoding. Proof. by left. Qed.
Lemma known_url : known_encoding URLEncoding. Proof. by right. Qed.
Lemma known_raw_url : known_encoding RawURLEncoding. Proof. by right. Qed.
#[export] Hint Resolve known_std known_raw_std known_url known_raw_url : gohints.
