(* ===== verification/BlockId.v ===== *)
(** * Cache block ids

    [internal/cache/blockid.go]: the chunk index a cache client encodes in the
    Azure block id of each chunk PUT. *)

From S2P Require Import Prelude GoStr Codec.
From Stdlib Require Import Ascii.

Local Open Scope Z_scope.

(** [binary.BigEndian.Uint32(b)] of the first four bytes of [b]. *)
Fixpoint big_endian (n : nat) (acc : Z) (b : string) : Z :=
  match n, b with
  | S n, String c b => big_endian n (acc * 256 + Z_of_ascii c) b
  | _, _ => acc
  end.
Definition Uint32 (b : string) : Z := big_endian 4 0 b.

(** [decodeBase64]: the first of the four variants that accepts; a failure of
    all is a nil slice, of length 0. *)
Definition decodeBase64 (s : string) : string :=
  match list_find (λ enc, is_Some (b64_decode enc s))
          [StdEncoding; RawStdEncoding; URLEncoding; RawURLEncoding] with
  | Some (_, enc) => default "" (b64_decode enc s)
  | None => ""
  end.

(** The loop of [parseLeadingInt]: [n] and [count] at the first non-digit,
    with Go's 64-bit [int] arithmetic. *)
Fixpoint parse_leading (n : Z) (count : nat) (s : string) : Z * nat :=
  match s with
  | "" => (n, count)
  | String c s =>
      if is_digit c then parse_leading (wrap64 (wrap64 (n * 10) + digit_val c)) (S count) s
      else (n, count)
  end.

Definition parseLeadingInt (s : string) : option Z :=
  let '(n, count) := parse_leading 0 0 s in
  if (count =? 0)%nat then None else Some n.

Definition chunkIndexFromBlockID (blockIDBase64 : string) : option Z :=
  let decoded := decodeBase64 blockIDBase64 in
  match String.length decoded with
  | 64%nat => Some (Uint32 (str_take 4 (str_drop 16 decoded)))
  | 48%nat =>
      if (String.length decoded <? 36)%nat then None
      else parseLeadingInt (str_drop 36 decoded)
  | _ => None
  end.

(** ** Lemmas *)

Lemma big_endian_range n acc b k : 0 ≤ acc < 256 ^ Z.of_nat k →
  0 ≤ big_endian n acc b < 256 ^ Z.of_nat (k + n).
Proof.
  revert acc b k. induction n as [|n IH]; intros acc b k Ha; cbn [big_endian].
  { by rewrite Nat.add_0_r. }
  destruct b as [|c b].
  - split; [lia|]. eapply Z.lt_le_trans; [apply Ha|]. apply Z.pow_le_mono_r; lia.
  - replace (k + S n)%nat with (S k + n)%nat by lia. apply IH.
    rewrite Nat2Z.inj_succ, Z.pow_succ_r by lia. pose proof (Z_of_ascii_range c). lia.
Qed.

Lemma Uint32_range b : 0 ≤ Uint32 b < 2 ^ 32.
Proof. pose proof (big_endian_range 4 0 b 0 ltac:(simpl; lia)) as H. exact H. Qed.

Lemma is_digit_val c : is_digit c = true → 0 ≤ digit_val c < 10.
Proof. unfold is_digit, digit_val. rewrite andb_true_iff, !Z.leb_le. lia. Qed.

(** Within the digits an [int] holds, the loop never wraps. *)
Lemma parse_leading_range s : ∀ n count k,
  0 ≤ n < 10 ^ Z.of_nat k → (k + String.length s <= 18)%nat →
  0 ≤ fst (parse_leading n count s) < 10 ^ Z.of_nat (k + String.length s).
Proof.
  induction s as [|c s IH]; intros n count k Hn Hk; cbn [parse_leading String.length] in *.
  { by rewrite Nat.add_0_r. }
  assert (10 ^ Z.of_nat k ≤ 10 ^ 17) by (apply Z.pow_le_mono_r; lia).
  destruct (is_digit c) eqn:Hc; cbn [fst].
  - apply is_digit_val in Hc.
    rewrite (wrap64_id (n * 10)), wrap64_id by (unfold int64_min, int64_max; lia).
    replace (k + S (String.length s))%nat with (S k + String.length s)%nat by lia.
    apply IH; [|lia]. rewrite Nat2Z.inj_succ, Z.pow_succ_r by lia. lia.
  - split; [lia|]. eapply Z.lt_le_trans; [apply Hn|]. apply Z.pow_le_mono_r; lia.
Qed.

Lemma decodeBase64_encode s : decodeBase64 (b64_encode StdEncoding s) = s.
Proof.
  unfold decodeBase64. pose proof (b64_decode_encode StdEncoding s known_std) as E.
  cbn [list_find]. rewrite decide_True by (rewrite E; eauto). by rewrite E.
Qed.

(** The first character of [s] is no digit. *)
Definition stops (s : string) : bool :=
  match s with "" => true | String c _ => negb (is_digit c) end.

Lemma parse_leading_digits ds rest : ∀ n count k v,
  0 ≤ n < 10 ^ Z.of_nat k → (k + String.length ds <= 18)%nat →
  digits_val n ds = Some v → stops rest = true →
  parse_leading n count (ds +:+ rest) = (v, (count + String.length ds)%nat).
Proof.
  induction ds as [|c ds IH]; intros n count k v Hn Hk Hv Hr; simpl in *.
  - injection Hv as ->. rewrite Nat.add_0_r. destruct rest as [|c r]; [done|].
    simpl in *. apply negb_true_iff in Hr. by rewrite Hr.
  - destruct (is_digit c) eqn:Hc; [|done]. apply is_digit_val in Hc.
    assert (10 ^ Z.of_nat k ≤ 10 ^ 17) by (apply Z.pow_le_mono_r; lia).
    rewrite (wrap64_id (n * 10)), wrap64_id by (unfold int64_min, int64_max; lia).
    rewrite (IH _ _ (S k) v); [f_equal; lia| |lia|done|done].
    rewrite Nat2Z.inj_succ, Z.pow_succ_r by lia. lia.
Qed.

Lemma b64_four_spec b0 b1 b2 b3 r : Uint32 (String b0 (String b1 (String b2 (String b3 r)))) =
  Z_of_ascii b0 * 2 ^ 24 + Z_of_ascii b1 * 2 ^ 16 + Z_of_ascii b2 * 2 ^ 8 + Z_of_ascii b3.
Proof. unfold Uint32. cbn [big_endian]. lia. Qed.

(** ** Properties *)

(** Whatever block id a client sends, a chunk index the server accepts is
    a non-negative integer below 10^12: the parse never wraps around a 64-bit
    [int], and never gives a negative part number. *)
Theorem chunk_index_bounds id i :
  chunkIndexFromBlockID id = Some i → 0 ≤ i < 10 ^ 12.
Proof.
  unfold chunkIndexFromBlockID. set (d := decodeBase64 id).
  pose proof (Uint32_range (str_take 4 (str_drop 16 d))) as Hu.
  destruct (decide (String.length d = 48%nat)) as [E|E].
  - rewrite E. cbn [Nat.ltb Nat.leb]. unfold parseLeadingInt.
    pose proof (parse_leading_range (str_drop 36 d) 0 0 0 ltac:(simpl; lia)) as H.
    rewrite str_length_drop, E in H. specialize (H ltac:(lia)).
    destruct (parse_leading 0 0 (str_drop 36 d)) as [n c]. simpl in H.
    destruct c; [done|]. intros [= <-]. simpl. lia.
  - destruct (decide (String.length d = 64%nat)) as [->|E']; [intros H; injection H as H; rewrite <-H; split; [apply Hu | eapply Z.lt_trans; [apply Hu | done]]|].
    intros H. exfalso. revert H E E'. clear. generalize (String.length d). intros n.
    do 65 (destruct n as [|n]; [done|]). done.
Qed.

Lemma chunk_index_bounds_witness :
  0 ≤ 42 < 10 ^ 12.
Proof.
  apply (chunk_index_bounds
           (b64_encode StdEncoding ("0a1b2c3d-0000-4000-8000-000000000000" +:+ "000000000042"))).
  vm_compute. reflexivity.
Defined.

(** The two block-id formats of the clients decode to the index they
    carry.  A 48-byte id (36 characters of UUID, then the decimal index and
    anything that is no digit) gives that decimal index; a 64-byte id gives
    the big-endian integer at offset 16. *)
Theorem chunk_index_formats uuid ds rest v pre b0 b1 b2 b3 post :
  String.length uuid = 36%nat → String.length (ds +:+ rest) = 12%nat → ds ≠ "" →
  digits_val 0 ds = Some v → stops rest = true →
  String.length pre = 16%nat → String.length post = 44%nat →
  chunkIndexFromBlockID (b64_encode StdEncoding (uuid +:+ ds +:+ rest)) = Some v ∧
  chunkIndexFromBlockID
    (b64_encode StdEncoding (pre +:+ String b0 (String b1 (String b2 (String b3 post))))) =
  Some (Z_of_ascii b0 * 2 ^ 24 + Z_of_ascii b1 * 2 ^ 16 + Z_of_ascii b2 * 2 ^ 8 + Z_of_ascii b3).
Proof.
  intros Hu Hl Hne Hv Hr Hp Hq. unfold chunkIndexFromBlockID. rewrite !decodeBase64_encode. split.
  - rewrite str_length_app, Hu, Hl. cbn [Nat.add Nat.ltb Nat.leb]. rewrite <-Hu, str_drop_app.
    unfold parseLeadingInt. rewrite str_length_app in Hl.
    rewrite (parse_leading_digits ds rest 0 0 0 v); [|simpl; lia|lia|done|done].
    destruct ds; done.
  - rewrite str_length_app. cbn [String.length]. rewrite Hp, Hq. cbn [Nat.add].
    rewrite <-Hp, str_drop_app. cbn [str_take]. by rewrite b64_four_spec.
Qed.

Lemma chunk_index_formats_witness :
  chunkIndexFromBlockID
    (b64_encode StdEncoding ("0a1b2c3d-0000-4000-8000-000000000000" +:+ "7" +:+ "-----------")) = Some 7
  ∧ chunkIndexFromBlockID
      (b64_encode StdEncoding ("0123456789abcdef" +:+ String "000" (String "000" (String "001" (String "002"
         "01234567890123456789012345678901234567890123"))))) = Some 258.
Proof.
  exact (chunk_index_formats "0a1b2c3d-0000-4000-8000-000000000000" "7" "-----------" 7
    "0123456789abcdef" "000" "000" "001" "002" "01234567890123456789012345678901234567890123"
    eq_refl eq_refl ltac:(discriminate) eq_refl eq_refl eq_refl eq_refl).
Defined.
