(* ===== verification/ImageVersions.v ===== *)
(** * The image manifest

    [images/versions.go]: the embedded manifest of runner-image dependencies
    and the checks that every release passes.  A loop over a Go map visits it
    in an unspecified order; [MapRange] stands for one such order. *)

From S2P Require Import Prelude GoErr GoStr Codec.

Local Open Scope Z_scope.
Local Open Scope go_scope.

(** ** Ranging over a map *)

Class MapRange := {
  shuffle {A} : list A → list A;
  shuffle_perm {A} (l : list A) : shuffle l ≡ₚ l
}.

(** The order of the keys, one of the possible orders. *)
#[export] Instance map_range_ref : MapRange := {| shuffle A l := l; shuffle_perm A l := reflexivity l |}.

Section range.
Context `{MapRange}.

Definition range {A} (m : gmap string A) : list (string * A) := shuffle (map_to_list m).

Lemma elem_of_range {A} (m : gmap string A) k v : (k, v) ∈ range m ↔ m !! k = Some v.
Proof. unfold range. by rewrite shuffle_perm, elem_of_map_to_list. Qed.
End range.

(** ** The manifest *)

Record BaseImage := { Repository : string; Tag : string; Digest : string }.

Definition BaseImage_Reference (b : BaseImage) : string :=
  Repository b +:+ ":" +:+ Tag b +:+ "@" +:+ Digest b.

Record Runner := {
  runner_Version : string;
  runner_LinuxX64SHA256 : string;
  runner_LinuxARM64SHA256 : string;
  runner_WindowsX64SHA256 : string
}.

Record MinGit := { mingit_Version : string; mingit_URL : string; mingit_SHA256 : string }.

Record PowerShell := { ps_Version : string; ps_WindowsX64SHA256 : string }.

Record Minimal := {
  LinuxBase : BaseImage;
  WindowsBase : BaseImage;
  min_Runner : Runner;
  min_MinGit : MinGit;
  min_PowerShell : PowerShell
}.

Record NativeBuild := { PackageSource : string; nb_Strategy : string }.

Definition NodeTrackSupportedLTS : string := "supported-lts".

Record Corepack := { cp_Version : string; cp_URL : string; cp_SHA512 : string }.

Record NodeRelease := {
  nr_Version : string;
  nr_EOL : string;
  nr_LinuxX64SHA256 : string;
  nr_LinuxARM64SHA256 : string;
  nr_WindowsX64SHA256 : string
}.

Record Node := {
  Track : string;
  DefaultMajor : Z;
  node_Corepack : Corepack;
  Releases : gmap string NodeRelease
}.

Definition Node_DefaultRelease (n : Node) : option NodeRelease :=
  Releases n !! format_int (DefaultMajor n).

Record DotNetChannel := {
  Targets : list string;
  ch_ReleaseType : string;
  ch_Version : string;
  ch_EOL : string;
  ch_SupportPhase : string;
  ch_LinuxX64SHA512 : string;
  ch_LinuxARM64SHA512 : string;
  ch_WindowsX64SHA512 : string
}.

Record DotNetDiscovery := {
  dd_Channel : string;
  dd_ReleaseType : string;
  dd_SupportPhase : string;
  dd_EOL : string;
  dd_LatestSDK : string
}.

Record DotNet := {
  TrackReleaseTypes : list string;
  UnassignedSupportedChannels : list DotNetDiscovery;
  Channels : gmap string DotNetChannel
}.

Definition DotNetTargetLinux : string := "linux".
Definition DotNetTargetWindowsContainer : string := "windows-container".
Definition DotNetTargetQEMUWindows : string := "qemu-windows".

Record GoTool := {
  go_Strategy : string;
  go_Version : string;
  go_LinuxAMD64SHA256 : string;
  go_LinuxARM64SHA256 : string;
  go_WindowsAMD64SHA256 : string
}.

Record Rust := {
  rust_Channel : string;
  rust_Version : string;
  RustupVersion : string;
  RustupX64SHA256 : string;
  RustupARM64SHA256 : string
}.

Record BuildToolsLine := {
  bt_Channel : string;
  bt_ReleaseLine : string;
  bt_Version : string;
  BootstrapperURL : string;
  BootstrapperSHA256 : string;
  ChannelURL : string;
  ChannelSHA256 : string
}.

Record BuildTools := { DefaultLine : string; Lines : gmap string BuildToolsLine }.

Definition BuildTools_DefaultRelease (b : BuildTools) : option BuildToolsLine :=
  Lines b !! DefaultLine b.

Record Manifest := {
  Schema : Z;
  m_Minimal : Minimal;
  m_NativeBuild : NativeBuild;
  m_Node : Node;
  m_DotNet : DotNet;
  m_Go : GoTool;
  m_Rust : Rust;
  m_BuildTools : BuildTools
}.

(** [value[:len(prefix)] != prefix], then the length and the digits. *)
Definition digest (value prefix : string) (hexLen : nat) : option goerror :=
  fail_if (negb (has_prefix prefix value)) (errorf ("must start with " +:+ quote prefix)) ;?
  let value := str_drop (String.length prefix) value in
  fail_if (negb (String.length value =? hexLen)%nat)
    (errorf ("must contain " +:+ format_int (Z.of_nat hexLen) +:+ " hexadecimal characters")) ;?
  match hex_decode value with
  | Some _ => None
  | None => Some (errorf_w "must be hexadecimal: " (errorf "encoding/hex: invalid byte"))
  end.

(** [if err := digest(...); err != nil { return fmt.Errorf("<what> digest: %w", err) }]. *)
Definition check_digest (what value prefix : string) (hexLen : nat) : option goerror :=
  match digest value prefix hexLen with
  | Some e => Some (errorf_w (what +:+ " digest: ") e)
  | None => None
  end.

(** [strconv.Itoa(value) == part] of a number that parses. *)
Definition canonical_int (ok : Z → bool) (s : string) : bool :=
  match parse_int s with
  | Some v => ok v && String.eqb (format_int v) s
  | None => false
  end.

Definition validDotNetChannel (channel : string) : bool :=
  match split "." channel with
  | [a; b] => canonical_int (Z.leb 0) a && canonical_int (Z.leb 0) b
  | _ => false
  end.

Section validate.
Context `{MapRange}.

(** The channels of a target, sorted. *)
Definition ChannelsForTarget (d : DotNet) (target : string) : list string :=
  sort_strings (fst <$> filter (λ '(_, r), target ∈ Targets r) (range (Channels d))).

(** [BuildTools.ReleaseLines] *)
Definition ReleaseLines (b : BuildTools) : list string := sort_strings (fst <$> range (Lines b)).

Definition track_type (t : string) (dup : bool) : option goerror :=
  fail_if (negb (String.eqb t "lts" || String.eqb t "sts"))
    (errorf ("unsupported .NET release type " +:+ quote t)) ;?
  fail_if dup (errorf ("duplicate .NET release type " +:+ quote t)).

Definition allowedTargets : list string :=
  [DotNetTargetLinux; DotNetTargetWindowsContainer; DotNetTargetQEMUWindows].

Definition channel_target (channel target : string) (dup : bool) : option goerror :=
  fail_if (negb (bool_mem target allowedTargets))
    (errorf (".NET channel " +:+ quote channel +:+ " has unknown target " +:+ quote target)) ;?
  fail_if dup (errorf (".NET channel " +:+ quote channel +:+ " repeats target " +:+ quote target)).

Definition policy_channel (d : DotNet) (cr : string * DotNetChannel) : option goerror :=
  let '(channel, release) := cr in
  fail_if (negb (validDotNetChannel channel)) (errorf ("invalid .NET channel key " +:+ quote channel)) ;?
  fail_if (negb (is_empty (ch_ReleaseType release)) &&
           negb (bool_mem (ch_ReleaseType release) (TrackReleaseTypes d)))
    (errorf (".NET channel " +:+ quote channel +:+ " has untracked release type " +:+
             quote (ch_ReleaseType release))) ;?
  fail_if (bool_decide (Targets release = []))
    (errorf (".NET channel " +:+ quote channel +:+ " requires at least one target")) ;?
  each_new id (channel_target channel) [] (Targets release).

(** [targetCounts[target] == 0]: no channel that passed carries it. *)
Definition target_used (d : DotNet) (target : string) : bool :=
  existsb (λ '(_, r), bool_mem target (Targets r)) (range (Channels d)).

Definition policy_discovery (d : DotNet) (x : DotNetDiscovery) (dup : bool) : option goerror :=
  fail_if (negb (validDotNetChannel (dd_Channel x)))
    (errorf ("invalid unassigned .NET channel " +:+ quote (dd_Channel x))) ;?
  fail_if dup (errorf ("duplicate unassigned .NET channel " +:+ quote (dd_Channel x))) ;?
  fail_if (negb (bool_mem (dd_ReleaseType x) (TrackReleaseTypes d)))
    (errorf ("unassigned .NET channel " +:+ quote (dd_Channel x) +:+
             " has untracked release type " +:+ quote (dd_ReleaseType x))) ;?
  fail_if (negb (String.eqb (dd_SupportPhase x) "active" ||
                 String.eqb (dd_SupportPhase x) "maintenance"))
    (errorf ("unassigned .NET channel " +:+ quote (dd_Channel x) +:+
             " has unsupported phase " +:+ quote (dd_SupportPhase x))) ;?
  fail_if (is_empty (dd_EOL x) || is_empty (dd_LatestSDK x))
    (errorf ("unassigned .NET channel " +:+ quote (dd_Channel x) +:+
             " has incomplete discovery metadata")).

Definition policy_line (lr : string * BuildToolsLine) : option goerror :=
  let '(line, release) := lr in
  fail_if (negb (canonical_int (Z.ltb 0) line))
    (errorf ("invalid Build Tools release line " +:+ quote line)) ;?
  fail_if (is_empty (bt_Channel release) || negb (has_prefix (line +:+ "/") (bt_Channel release)))
    (errorf ("Build Tools " +:+ line +:+ " channel must start with " +:+ quote (line +:+ "/"))).

Definition bases (m : Manifest) : list (string * BaseImage) :=
  shuffle [("linux", LinuxBase (m_Minimal m)); ("windows", WindowsBase (m_Minimal m))].

(** [Manifest.ValidatePolicy] *)
Definition ValidatePolicy (m : Manifest) : option goerror :=
  let node := m_Node m in let dotnet := m_DotNet m in
  fail_if (negb (Schema m =? 1)) (errorf ("unsupported schema " +:+ format_int (Schema m))) ;?
  each (λ '(name, base), fail_if (is_empty (Repository base) || is_empty (Tag base))
          (errorf (name +:+ " base repository and tag are required"))) (bases m) ;?
  fail_if (bool_decide (Releases node = ∅)) (errorf "at least one Node major is required") ;?
  fail_if (negb (String.eqb (Track node) NodeTrackSupportedLTS))
    (errorf ("unsupported Node tracking policy " +:+ quote (Track node))) ;?
  fail_if (bool_decide (Node_DefaultRelease node = None))
    (errorf ("Node default major " +:+ format_int (DefaultMajor node) +:+ " is not declared")) ;?
  each (λ '(major, _), fail_if (negb (canonical_int (Z.ltb 0) major))
          (errorf ("invalid Node major key " +:+ quote major))) (range (Releases node)) ;?
  fail_if (bool_decide (TrackReleaseTypes dotnet = []))
    (errorf "at least one .NET release type must be tracked") ;?
  each_new id track_type [] (TrackReleaseTypes dotnet) ;?
  fail_if (bool_decide (Channels dotnet = ∅)) (errorf "at least one .NET channel is required") ;?
  each (policy_channel dotnet) (range (Channels dotnet)) ;?
  each (λ target, fail_if (negb (target_used dotnet target))
          (errorf ("no .NET channel targets " +:+ quote target))) (shuffle allowedTargets) ;?
  each_new dd_Channel (policy_discovery dotnet) [] (UnassignedSupportedChannels dotnet) ;?
  fail_if (is_empty (rust_Channel (m_Rust m))) (errorf "Rust channel is required") ;?
  fail_if (bool_decide (Lines (m_BuildTools m) = ∅))
    (errorf "at least one Build Tools release line is required") ;?
  fail_if (bool_decide (BuildTools_DefaultRelease (m_BuildTools m) = None))
    (errorf ("Build Tools default line " +:+ quote (DefaultLine (m_BuildTools m)) +:+ " is not declared")) ;?
  each policy_line (range (Lines (m_BuildTools m))).

Definition check_node (mr : string * NodeRelease) : option goerror :=
  let '(major, r) := mr in
  fail_if (is_empty (nr_Version r) || is_empty (nr_EOL r))
    (errorf ("Node major " +:+ major +:+ " has no resolved release")) ;?
  each (λ '(name, value), check_digest ("Node " +:+ major +:+ " " +:+ name) value "" 64)
    (shuffle [("linux x64", nr_LinuxX64SHA256 r); ("linux arm64", nr_LinuxARM64SHA256 r);
              ("windows x64", nr_WindowsX64SHA256 r)]).

Definition check_channel (cr : string * DotNetChannel) : option goerror :=
  let '(channel, r) := cr in
  fail_if (is_empty (ch_Version r) || is_empty (ch_EOL r) || is_empty (ch_ReleaseType r) ||
           is_empty (ch_SupportPhase r))
    (errorf (".NET channel " +:+ quote channel +:+ " has no resolved release")) ;?
  each (λ '(name, value),
          if is_empty value then None
          else check_digest (".NET " +:+ channel +:+ " " +:+ name) value "" 128)
    (shuffle [("linux x64", ch_LinuxX64SHA512 r); ("linux arm64", ch_LinuxARM64SHA512 r);
              ("windows x64", ch_WindowsX64SHA512 r)]).

Definition check_line (lr : string * BuildToolsLine) : option goerror :=
  let '(line, release) := lr in
  fail_if (negb (String.eqb (bt_ReleaseLine release) line) || is_empty (bt_Version release) ||
           is_empty (BootstrapperURL release) || is_empty (ChannelURL release))
    (errorf ("Visual Studio Build Tools " +:+ line +:+ " release identity is incomplete")) ;?
  fail_if (negb (has_prefix (line +:+ ".") (bt_Version release)))
    (errorf ("Visual Studio Build Tools " +:+ line +:+ " resolved unexpected version " +:+
             quote (bt_Version release))) ;?
  each (λ '(name, value),
          check_digest ("Visual Studio Build Tools " +:+ line +:+ " " +:+ name) value "" 64)
    (shuffle [("bootstrapper", BootstrapperSHA256 release); ("channel", ChannelSHA256 release)]).

(** The digests that need not belong to a map entry. *)
Definition fixed_digests (m : Manifest) : list (string * string) :=
  let r := min_Runner (m_Minimal m) in
  [("runner linux x64", runner_LinuxX64SHA256 r);
   ("runner linux arm64", runner_LinuxARM64SHA256 r);
   ("runner windows x64", runner_WindowsX64SHA256 r);
   ("MinGit", mingit_SHA256 (min_MinGit (m_Minimal m)));
   ("PowerShell", ps_WindowsX64SHA256 (min_PowerShell (m_Minimal m)));
   ("Go linux amd64", go_LinuxAMD64SHA256 (m_Go m));
   ("Go linux arm64", go_LinuxARM64SHA256 (m_Go m));
   ("Go windows amd64", go_WindowsAMD64SHA256 (m_Go m));
   ("rustup x64", RustupX64SHA256 (m_Rust m));
   ("rustup arm64", RustupARM64SHA256 (m_Rust m))].

Definition lacks_archive (d : DotNet) (channel : string) (f : DotNetChannel → bool) : bool :=
  match Channels d !! channel with Some r => f r | None => true end.

(** [Manifest.Validate] *)
Definition Validate (m : Manifest) : option goerror :=
  let mn := m_Minimal m in let dotnet := m_DotNet m in let corepack := node_Corepack (m_Node m) in
  ValidatePolicy m ;?
  each (λ '(name, base), check_digest (name +:+ " base") (Digest base) "sha256:" 64) (bases m) ;?
  each (λ '(name, value), check_digest name value "" 64) (shuffle (fixed_digests m)) ;?
  fail_if (is_empty (runner_Version (min_Runner mn)) || is_empty (mingit_Version (min_MinGit mn)) ||
           is_empty (mingit_URL (min_MinGit mn)) || is_empty (ps_Version (min_PowerShell mn)) ||
           is_empty (go_Version (m_Go m)) || is_empty (rust_Channel (m_Rust m)) ||
           is_empty (rust_Version (m_Rust m)) || is_empty (RustupVersion (m_Rust m)))
    (errorf "resolved tool versions and URLs are required") ;?
  each check_node (range (Releases (m_Node m))) ;?
  fail_if (is_empty (cp_Version corepack) || is_empty (cp_URL corepack))
    (errorf "Corepack version and URL are required") ;?
  check_digest "Corepack" (cp_SHA512 corepack) "" 128 ;?
  each check_channel (range (Channels dotnet)) ;?
  each (λ channel,
          fail_if (lacks_archive dotnet channel
                     (λ r, is_empty (ch_LinuxX64SHA512 r) || is_empty (ch_LinuxARM64SHA512 r)))
            (errorf (".NET Linux channel " +:+ quote channel +:+ " lacks Linux archives")))
    (ChannelsForTarget dotnet DotNetTargetLinux) ;?
  each (λ channel,
          fail_if (lacks_archive dotnet channel (λ r, is_empty (ch_WindowsX64SHA512 r)))
            (errorf (".NET Windows channel " +:+ quote channel +:+ " lacks a Windows archive")))
    (ChannelsForTarget dotnet DotNetTargetWindowsContainer ++
     ChannelsForTarget dotnet DotNetTargetQEMUWindows) ;?
  each check_line (range (Lines (m_BuildTools m))).
End validate.

(** ** What a valid manifest is *)

(** [n] hexadecimal digits. *)
Definition hex_text (n : nat) (s : string) : Prop :=
  String.length s = n ∧ ∀ c, str_mem c s = true → hex_val c ≠ None.

(** A canonical decimal number satisfying [P]. *)
Definition number_text (P : Z → Prop) (s : string) : Prop :=
  ∃ v, P v ∧ int64_min ≤ v ≤ int64_max ∧ s = format_int v.

Definition channel_text (s : string) : Prop :=
  ∃ a b, s = a +:+ "." +:+ b ∧ number_text (Z.le 0) a ∧ number_text (Z.le 0) b.

Definition base_ok (b : BaseImage) : Prop :=
  Repository b ≠ "" ∧ Tag b ≠ "" ∧ ∃ h, Digest b = "sha256:" +:+ h ∧ hex_text 64 h.

Record node_ok (n : Node) : Prop := {
  node_track : Track n = NodeTrackSupportedLTS;
  node_default : is_Some (Node_DefaultRelease n);
  node_releases : ∀ major r, Releases n !! major = Some r →
    number_text (Z.lt 0) major ∧ nr_Version r ≠ "" ∧ nr_EOL r ≠ "" ∧
    hex_text 64 (nr_LinuxX64SHA256 r) ∧ hex_text 64 (nr_LinuxARM64SHA256 r) ∧
    hex_text 64 (nr_WindowsX64SHA256 r);
  node_corepack : cp_Version (node_Corepack n) ≠ "" ∧ cp_URL (node_Corepack n) ≠ "" ∧
    hex_text 128 (cp_SHA512 (node_Corepack n))
}.

Record dotnet_ok (d : DotNet) : Prop := {
  dn_types : TrackReleaseTypes d ≠ [] ∧ NoDup (TrackReleaseTypes d) ∧ TrackReleaseTypes d ⊆ ["lts"; "sts"];
  dn_targets : ∀ t, t ∈ allowedTargets → ∃ c r, Channels d !! c = Some r ∧ t ∈ Targets r;
  dn_channels : ∀ c r, Channels d !! c = Some r →
    channel_text c ∧ Targets r ≠ [] ∧ NoDup (Targets r) ∧ Targets r ⊆ allowedTargets ∧
    ch_Version r ≠ "" ∧ ch_EOL r ≠ "" ∧ ch_SupportPhase r ≠ "" ∧
    ch_ReleaseType r ∈ TrackReleaseTypes d ∧ ch_ReleaseType r ≠ "" ∧
    Forall (λ h, h = "" ∨ hex_text 128 h) [ch_LinuxX64SHA512 r; ch_LinuxARM64SHA512 r; ch_WindowsX64SHA512 r] ∧
    (DotNetTargetLinux ∈ Targets r → ch_LinuxX64SHA512 r ≠ "" ∧ ch_LinuxARM64SHA512 r ≠ "") ∧
    (DotNetTargetWindowsContainer ∈ Targets r ∨ DotNetTargetQEMUWindows ∈ Targets r →
     ch_WindowsX64SHA512 r ≠ "");
  dn_discoveries : NoDup (dd_Channel <$> UnassignedSupportedChannels d) ∧
    ∀ x, x ∈ UnassignedSupportedChannels d →
      channel_text (dd_Channel x) ∧ dd_ReleaseType x ∈ TrackReleaseTypes d ∧
      dd_SupportPhase x ∈ ["active"; "maintenance"] ∧ dd_EOL x ≠ "" ∧ dd_LatestSDK x ≠ ""
}.

Record buildtools_ok (b : BuildTools) : Prop := {
  bto_default : is_Some (BuildTools_DefaultRelease b);
  bto_lines : ∀ line r, Lines b !! line = Some r →
    number_text (Z.lt 0) line ∧ bt_ReleaseLine r = line ∧
    (∃ rest, bt_Channel r = line +:+ "/" +:+ rest) ∧ (∃ rest, bt_Version r = line +:+ "." +:+ rest) ∧
    BootstrapperURL r ≠ "" ∧ ChannelURL r ≠ "" ∧
    hex_text 64 (BootstrapperSHA256 r) ∧ hex_text 64 (ChannelSHA256 r)
}.

Record manifest_ok (m : Manifest) : Prop := {
  mo_schema : Schema m = 1;
  mo_bases : base_ok (LinuxBase (m_Minimal m)) ∧ base_ok (WindowsBase (m_Minimal m));
  mo_fixed : Forall (λ nv, hex_text 64 nv.2) (fixed_digests m);
  mo_versions : Forall (λ v, v ≠ "")
    [runner_Version (min_Runner (m_Minimal m)); mingit_Version (min_MinGit (m_Minimal m));
     mingit_URL (min_MinGit (m_Minimal m)); ps_Version (min_PowerShell (m_Minimal m));
     go_Version (m_Go m); rust_Channel (m_Rust m); rust_Version (m_Rust m); RustupVersion (m_Rust m)];
  mo_node : node_ok (m_Node m);
  mo_dotnet : dotnet_ok (m_DotNet m);
  mo_buildtools : buildtools_ok (m_BuildTools m)
}.

Lemma manifest_ok_iff m : manifest_ok m ↔
  Schema m = 1 ∧ (base_ok (LinuxBase (m_Minimal m)) ∧ base_ok (WindowsBase (m_Minimal m))) ∧
  Forall (λ nv, hex_text 64 nv.2) (fixed_digests m) ∧
  Forall (λ v, v ≠ "")
    [runner_Version (min_Runner (m_Minimal m)); mingit_Version (min_MinGit (m_Minimal m));
     mingit_URL (min_MinGit (m_Minimal m)); ps_Version (min_PowerShell (m_Minimal m));
     go_Version (m_Go m); rust_Channel (m_Rust m); rust_Version (m_Rust m); RustupVersion (m_Rust m)] ∧
  node_ok (m_Node m) ∧ dotnet_ok (m_DotNet m) ∧ buildtools_ok (m_BuildTools m).
Proof. split; [by intros []|]. intros (?&?&?&?&?&?&?). by constructor. Qed.

(** ** Lemmas *)

Lemma hex_decode_some s : hex_decode s ≠ None ↔
  Nat.even (String.length s) = true ∧ ∀ c, str_mem c s = true → hex_val c ≠ None.
Proof.
  assert (∀ n s, (String.length s ≤ n)%nat → hex_decode s ≠ None ↔
    Nat.even (String.length s) = true ∧ ∀ c, str_mem c s = true → hex_val c ≠ None) as H; [|by eapply H].
  clear s. induction n as [|n IH]; intros [|a [|b s]] Hn; simpl in Hn; try lia;
    try (by split; [intros _; split; [done|by intros c]|]); try (by split; [|intros [? _]]).
  cbn [hex_decode String.length str_mem Nat.even]. assert (String.length s ≤ n)%nat as Hs by lia.
  specialize (IH s Hs). split.
  - intros Hd. destruct (hex_val a) eqn:Ea, (hex_val b) eqn:Eb; try done.
    destruct (hex_decode s); [|done]. destruct (proj1 IH) as [He Hc]; [done|]. split; [done|].
    intros c. rewrite !orb_true_iff, !Ascii.eqb_eq. naive_solver.
  - intros [He Hc]. assert (hex_val a ≠ None) as Ha by (apply Hc; by rewrite Ascii.eqb_refl).
    assert (hex_val b ≠ None) as Hb by (apply Hc; by rewrite Ascii.eqb_refl, orb_true_r).
    assert (hex_decode s ≠ None) as Hd.
    { apply IH. split; [done|]. intros c Hm. apply Hc. by rewrite Hm, !orb_true_r. }
    by destruct (hex_val a), (hex_val b), (hex_decode s).
Qed.

Lemma digest_None value prefix n : Nat.even n = true →
  digest value prefix n = None ↔ ∃ h, value = prefix +:+ h ∧ hex_text n h.
Proof.
  intros Hn. unfold digest, hex_text. autorewrite with gorw. rewrite negb_false_iff, has_prefix_spec. split.
  - intros [[h ->] [Hl Hd]]. rewrite str_drop_app in *. exists h. split; [done|].
    apply negb_false_iff, Nat.eqb_eq in Hl. split; [done|].
    apply hex_decode_some. by destruct (hex_decode h).
  - intros (h & -> & Hl & Hc). rewrite str_drop_app. split; [by exists h|].
    rewrite Hl, Nat.eqb_refl. split; [done|].
    assert (hex_decode h ≠ None) by (apply hex_decode_some; by rewrite Hl). by destruct (hex_decode h).
Qed.

Lemma check_digest_None what value n : Nat.even n = true →
  check_digest what value "" n = None ↔ hex_text n value.
Proof.
  intros Hn. unfold check_digest. pose proof (digest_None value "" n Hn) as H.
  destruct (digest value "" n); simpl in H; naive_solver.
Qed.

Lemma check_base_None what value :
  check_digest what value "sha256:" 64 = None ↔ ∃ h, value = "sha256:" +:+ h ∧ hex_text 64 h.
Proof.
  rewrite <-digest_None by done. unfold check_digest. by destruct (digest value "sha256:" 64).
Qed.

Lemma canonical_int_iff ok s : canonical_int ok s = true ↔ number_text (λ v, ok v = true) s.
Proof.
  unfold canonical_int, number_text. split.
  - destruct (parse_int s) as [v|] eqn:E; [|done]. rewrite andb_true_iff, String.eqb_eq.
    intros [Hok <-]. exists v. split_and!; try done; by eapply parse_int_range.
  - intros (v & Hok & Hr & ->). rewrite parse_format_int by done. by rewrite Hok, String.eqb_refl.
Qed.

Lemma positive_int_iff s : canonical_int (Z.ltb 0) s = true ↔ number_text (Z.lt 0) s.
Proof. rewrite canonical_int_iff. unfold number_text. by setoid_rewrite Z.ltb_lt. Qed.

Lemma natural_int_iff s : canonical_int (Z.leb 0) s = true ↔ number_text (Z.le 0) s.
Proof. rewrite canonical_int_iff. unfold number_text. by setoid_rewrite Z.leb_le. Qed.

Lemma number_text_dot P s : number_text P s → str_mem "." s = false.
Proof. intros (v & _ & _ & ->). by apply format_int_mem. Qed.

Lemma validDotNetChannel_iff s : validDotNetChannel s = true ↔ channel_text s.
Proof.
  unfold validDotNetChannel, channel_text. split.
  - pose proof (join_split "." s) as E.
    destruct (split "." s) as [|a [|b [|? ?]]]; try done. rewrite andb_true_iff, !natural_int_iff.
    intros [Ha Hb]. exists a, b. by rewrite <-E.
  - intros (a & b & -> & Ha & Hb). cbn [String.append].
    rewrite split_app, split_free by (by eapply number_text_dot).
    by rewrite andb_true_iff, !natural_int_iff.
Qed.

#[local] Hint Rewrite andb_true_iff orb_true_iff andb_false_iff orb_false_iff negb_false_iff negb_true_iff
  String.eqb_eq is_empty_false bool_mem_true validDotNetChannel_iff positive_int_iff has_prefix_spec
  bool_decide_eq_false : gorw.

Section validate_facts.
Context `{MapRange}.

Lemma each_shuffle {A} (f : A → option goerror) l : each f (shuffle l) = None ↔ each f l = None.
Proof. rewrite !each_None. by setoid_rewrite shuffle_perm. Qed.

Lemma each_range {A} (f : string * A → option goerror) (m : gmap string A) :
  each f (range m) = None ↔ ∀ k v, m !! k = Some v → f (k, v) = None.
Proof.
  rewrite each_None. setoid_rewrite <-elem_of_range. split; [eauto|]. intros Hf [k v]. apply Hf.
Qed.

Lemma each_cons {A} (f : A → option goerror) x l : each f (x :: l) = None ↔ f x = None ∧ each f l = None.
Proof. simpl. destruct (f x); naive_solver. Qed.

Lemma each_nil {A} (f : A → option goerror) : each f [] = None ↔ True.
Proof. done. Qed.

Lemma elem_of_ChannelsForTarget d t c :
  c ∈ ChannelsForTarget d t ↔ ∃ r, Channels d !! c = Some r ∧ t ∈ Targets r.
Proof.
  unfold ChannelsForTarget. rewrite elem_of_sort_strings, list_elem_of_fmap. split.
  - intros ([c' r] & -> & [Ht Hr]%list_elem_of_filter). exists r. by rewrite elem_of_range in Hr.
  - intros (r & Hr & Ht). exists (c, r). rewrite list_elem_of_filter, elem_of_range. done.
Qed.

Lemma check_node_None major r : check_node (major, r) = None ↔
  nr_Version r ≠ "" ∧ nr_EOL r ≠ "" ∧ hex_text 64 (nr_LinuxX64SHA256 r) ∧
  hex_text 64 (nr_LinuxARM64SHA256 r) ∧ hex_text 64 (nr_WindowsX64SHA256 r).
Proof.
  unfold check_node. rewrite and_then_None, each_shuffle, !each_cons, each_nil, !check_digest_None by done.
  autorewrite with gorw. simpl. tauto.
Qed.

Lemma node_checks n : node_ok n ↔
  Releases n ≠ ∅ ∧ Track n = NodeTrackSupportedLTS ∧ Node_DefaultRelease n ≠ None ∧
  (∀ major r, Releases n !! major = Some r → number_text (Z.lt 0) major) ∧
  (∀ major r, Releases n !! major = Some r → check_node (major, r) = None) ∧
  (cp_Version (node_Corepack n) ≠ "" ∧ cp_URL (node_Corepack n) ≠ "") ∧
  check_digest "Corepack" (cp_SHA512 (node_Corepack n)) "" 128 = None.
Proof.
  setoid_rewrite check_node_None. rewrite check_digest_None by done.
  split.
  - intros [Ht Hd Hr Hc]. apply not_eq_None_Some in Hd as Hd'.
    split_and!; try tauto; try (intros major r Hl%Hr; tauto). intros He. destruct Hd as [r Hd]. unfold Node_DefaultRelease in Hd. by rewrite He, lookup_empty in Hd.
  - intros (_ & Ht & Hd & Hm & Hr & Hc & Hs). constructor; [done|by apply not_eq_None_Some| |tauto].
    intros major r Hl. specialize (Hm major r Hl). specialize (Hr major r Hl). tauto.
Qed.

Lemma policy_channel_None d c r : policy_channel d (c, r) = None ↔
  channel_text c ∧ (ch_ReleaseType r = "" ∨ ch_ReleaseType r ∈ TrackReleaseTypes d) ∧
  Targets r ≠ [] ∧ Targets r ⊆ allowedTargets ∧ NoDup (Targets r).
Proof.
  unfold policy_channel. autorewrite with gorw. rewrite each_new_start; last first.
  { intros t. unfold channel_target. by destruct (bool_mem t allowedTargets). }
  unfold channel_target. setoid_rewrite and_then_None. setoid_rewrite fail_if_None.
  setoid_rewrite negb_false_iff. setoid_rewrite bool_mem_true. rewrite list_fmap_id.
  unfold is_empty. rewrite String.eqb_eq.
  split; intros (? & ? & ? & Hs & ?); split_and!; try done.
  - intros x Hx. by apply Hs.
  - intros x Hx. split; [by apply Hs|done].
Qed.

Lemma check_channel_None c r : check_channel (c, r) = None ↔
  ch_Version r ≠ "" ∧ ch_EOL r ≠ "" ∧ ch_ReleaseType r ≠ "" ∧ ch_SupportPhase r ≠ "" ∧
  Forall (λ h, h = "" ∨ hex_text 128 h) [ch_LinuxX64SHA512 r; ch_LinuxARM64SHA512 r; ch_WindowsX64SHA512 r].
Proof.
  assert (∀ what h, (if is_empty h then None else check_digest what h "" 128) = None ↔
    h = "" ∨ hex_text 128 h) as Hd.
  { intros what h. unfold is_empty. destruct (String.eqb_spec h "") as [->|Hne]; [naive_solver|].
    rewrite check_digest_None by done. naive_solver. }
  unfold check_channel. rewrite and_then_None, each_shuffle, !each_cons, each_nil, !Hd, !Forall_cons, Forall_nil.
  autorewrite with gorw. simpl. tauto.
Qed.

Lemma policy_discovery_None d x : policy_discovery d x false = None ↔
  channel_text (dd_Channel x) ∧ dd_ReleaseType x ∈ TrackReleaseTypes d ∧
  dd_SupportPhase x ∈ ["active"; "maintenance"] ∧ dd_EOL x ≠ "" ∧ dd_LatestSDK x ≠ "".
Proof.
  unfold policy_discovery. autorewrite with gorw. rewrite !elem_of_cons, elem_of_nil. tauto.
Qed.

Lemma policy_discovery_dup d x : policy_discovery d x true ≠ None.
Proof. unfold policy_discovery. rewrite !and_then_None. intros (_ & Hd & _). done. Qed.

Lemma target_used_iff d t : target_used d t = true ↔ ∃ c r, Channels d !! c = Some r ∧ t ∈ Targets r.
Proof.
  unfold target_used. rewrite existsb_exists. setoid_rewrite <-list_elem_of_In. split.
  - intros ([c r] & Hr & Ht%bool_mem_true). exists c, r. by rewrite elem_of_range in Hr.
  - intros (c & r & Hr & Ht). exists (c, r). by rewrite elem_of_range, bool_mem_true.
Qed.

Lemma archives_None d t f :
  (∀ c, c ∈ ChannelsForTarget d t → lacks_archive d c f = false) ↔
  ∀ c r, Channels d !! c = Some r → t ∈ Targets r → f r = false.
Proof.
  setoid_rewrite elem_of_ChannelsForTarget. unfold lacks_archive. split.
  - intros Ha c r Hr Ht. specialize (Ha c (ex_intro _ r (conj Hr Ht))). by rewrite Hr in Ha.
  - intros Ha c (r & Hr & Ht). rewrite Hr. eauto.
Qed.

(** The checks on .NET, as [Validate] runs them. *)
Definition dotnet_checks (d : DotNet) : Prop :=
  TrackReleaseTypes d ≠ [] ∧ each_new id track_type [] (TrackReleaseTypes d) = None ∧
  Channels d ≠ ∅ ∧
  (∀ c r, Channels d !! c = Some r → policy_channel d (c, r) = None) ∧
  (∀ t, t ∈ allowedTargets → target_used d t = true) ∧
  each_new dd_Channel (policy_discovery d) [] (UnassignedSupportedChannels d) = None ∧
  (∀ c r, Channels d !! c = Some r → check_channel (c, r) = None) ∧
  (∀ c r, Channels d !! c = Some r → DotNetTargetLinux ∈ Targets r →
     is_empty (ch_LinuxX64SHA512 r) || is_empty (ch_LinuxARM64SHA512 r) = false) ∧
  (∀ t c r, t ∈ [DotNetTargetWindowsContainer; DotNetTargetQEMUWindows] →
     Channels d !! c = Some r → t ∈ Targets r → is_empty (ch_WindowsX64SHA512 r) = false).

Lemma track_types_None l : each_new id track_type [] l = None ↔ NoDup l ∧ l ⊆ ["lts"; "sts"].
Proof.
  rewrite each_new_start; last first.
  { intros t. unfold track_type. by destruct (negb _). }
  rewrite list_fmap_id. unfold track_type. setoid_rewrite and_then_None. setoid_rewrite fail_if_None.
  setoid_rewrite negb_false_iff. setoid_rewrite orb_true_iff. setoid_rewrite String.eqb_eq.
  split; intros [Ht Hd]; split; try done; intros x Hx.
  - rewrite !elem_of_cons. destruct (Ht x Hx) as [[?|?] _]; auto.
  - split; [|done]. apply Hd in Hx. rewrite !elem_of_cons, elem_of_nil in Hx. tauto.
Qed.

Lemma dotnet_checks_iff d : dotnet_checks d ↔ dotnet_ok d.
Proof.
  unfold dotnet_checks. rewrite track_types_None, (each_new_start dd_Channel) by apply policy_discovery_dup.
  setoid_rewrite policy_channel_None. setoid_rewrite check_channel_None.
  setoid_rewrite policy_discovery_None. setoid_rewrite target_used_iff.
  setoid_rewrite orb_false_iff. setoid_rewrite is_empty_false.
  split.
  - intros (Ht & [Hnd Hs] & _ & Hp & Hu & [Hx Hxd] & Hc & Hl & Hw). constructor; try done.
    intros c r Hr. destruct (Hp c r Hr) as (? & ? & ? & ? & ?).
    destruct (Hc c r Hr) as (? & ? & ? & ? & ?). split_and!; try done; [tauto|by eapply Hl|].
    intros [Hin|Hin]; [eapply (Hw DotNetTargetWindowsContainer c r)|eapply (Hw DotNetTargetQEMUWindows c r)];
      rewrite ?elem_of_cons; auto.
  - intros [(Ht & Hnd & Hs) Hu Hc [Hxd Hx]].
    split_and!; try done; try (intros c r Hr; destruct (Hc c r Hr) as (?&?&?&?&?&?&?&?&?&?&?&?); tauto).
    { intros He. destruct (Hu DotNetTargetLinux) as (c & r & Hr & _); [left|]. by rewrite He, lookup_empty in Hr. }
    intros t c r Hin Hr Htr. destruct (Hc c r Hr) as (_&_&_&_&_&_&_&_&_&_&_&Hw). apply Hw.
    rewrite !elem_of_cons, elem_of_nil in Hin. destruct Hin as [->|[->|[]]]; auto.
Qed.

Lemma line_None line r :
  (policy_line (line, r) = None ∧ check_line (line, r) = None) ↔
  number_text (Z.lt 0) line ∧ bt_ReleaseLine r = line ∧
  (∃ rest, bt_Channel r = line +:+ "/" +:+ rest) ∧ (∃ rest, bt_Version r = line +:+ "." +:+ rest) ∧
  BootstrapperURL r ≠ "" ∧ ChannelURL r ≠ "" ∧
  hex_text 64 (BootstrapperSHA256 r) ∧ hex_text 64 (ChannelSHA256 r).
Proof.
  unfold policy_line, check_line. rewrite !and_then_None, each_shuffle, !each_cons, each_nil,
    !check_digest_None by done.
  autorewrite with gorw. setoid_rewrite str_app_assoc.
  assert (∀ sep s, (∃ rest, s = line +:+ String sep "" +:+ rest) → s ≠ "") as Hne.
  { intros sep s (rest & ->). by destruct line. }
  pose proof (Hne "/"%char (bt_Channel r)). pose proof (Hne "."%char (bt_Version r)). tauto.
Qed.

Lemma buildtools_checks b : buildtools_ok b ↔
  Lines b ≠ ∅ ∧ BuildTools_DefaultRelease b ≠ None ∧
  (∀ line r, Lines b !! line = Some r → policy_line (line, r) = None) ∧
  (∀ line r, Lines b !! line = Some r → check_line (line, r) = None).
Proof.
  split.
  - intros [Hd Hl]. split_and!.
    + intros He. destruct Hd as [r Hd]. unfold BuildTools_DefaultRelease in Hd.
      by rewrite He, lookup_empty in Hd.
    + by apply not_eq_None_Some.
    + intros line r Hr. by apply (proj2 (line_None line r)), Hl.
    + intros line r Hr. by apply (proj2 (line_None line r)), Hl.
  - intros (_ & Hd & Hp & Hc). constructor; [by apply not_eq_None_Some|].
    intros line r Hr. apply line_None. eauto.
Qed.

Lemma bases_iff m :
  base_ok (LinuxBase (m_Minimal m)) ∧ base_ok (WindowsBase (m_Minimal m)) ↔
  each (λ '(name, base), fail_if (is_empty (Repository base) || is_empty (Tag base))
          (errorf (name +:+ " base repository and tag are required"))) (bases m) = None ∧
  each (λ '(name, base), check_digest (name +:+ " base") (Digest base) "sha256:" 64) (bases m) = None.
Proof.
  unfold bases. rewrite !each_shuffle, !each_cons, !each_nil, !check_base_None, !fail_if_None.
  rewrite !orb_false_iff, !is_empty_false. unfold base_ok. tauto.
Qed.

Lemma fixed_iff m : Forall (λ nv, hex_text 64 nv.2) (fixed_digests m) ↔
  each (λ '(name, value), check_digest name value "" 64) (shuffle (fixed_digests m)) = None.
Proof.
  rewrite each_shuffle, each_None, Forall_forall. split; intros Hd.
  - intros [name value] Hin. rewrite check_digest_None by done. exact (Hd _ Hin).
  - intros [name value] Hin. specialize (Hd _ Hin). simpl in Hd. by rewrite check_digest_None in Hd by done.
Qed.

Lemma majors_iff m :
  (∀ k v, Releases (m_Node m) !! k = Some v →
     fail_if (negb (canonical_int (Z.ltb 0) k)) (errorf ("invalid Node major key " +:+ quote k)) = None) ↔
  (∀ k v, Releases (m_Node m) !! k = Some v → number_text (Z.lt 0) k).
Proof. setoid_rewrite fail_if_None. setoid_rewrite negb_false_iff. by setoid_rewrite positive_int_iff. Qed.

Lemma targets_iff d (msg : string → goerror) :
  each (λ t, fail_if (negb (target_used d t)) (msg t)) allowedTargets = None ↔
  (∀ t, t ∈ allowedTargets → target_used d t = true).
Proof. rewrite each_None. setoid_rewrite fail_if_None. by setoid_rewrite negb_false_iff. Qed.

Lemma archives_iff d f (msg : string → goerror) ts :
  each (λ c, fail_if (lacks_archive d c f) (msg c)) (ts ≫= ChannelsForTarget d) = None ↔
  (∀ t c r, t ∈ ts → Channels d !! c = Some r → t ∈ Targets r → f r = false).
Proof.
  rewrite each_None. setoid_rewrite fail_if_None. setoid_rewrite list_elem_of_bind. split.
  - intros Ha t c r Ht Hr Htr. eapply (proj1 (archives_None d t f)); [|done..].
    intros c' Hc'. apply Ha. by exists t.
  - intros Ha c (t & Hc & Ht). eapply (proj2 (archives_None d t f)); eauto.
Qed.

(** C40: the manifest check accepts exactly the well-formed manifests, in
    whatever order Go visits the maps: digests of the right length and
    alphabet, canonical version keys, only known and distinct targets each
    carried by some channel, an archive for every platform a channel targets,
    a default that exists for Node and for Build Tools, and release lines
    whose channel and version belong to the line. *)
Theorem validate_exact m : Validate m = None ↔ manifest_ok m.
Proof.
  unfold Validate, ValidatePolicy. rewrite !and_then_None, !fail_if_None, !each_range, !each_shuffle.
  rewrite majors_iff, targets_iff.
  pose proof (archives_iff (m_DotNet m) (λ r, is_empty (ch_LinuxX64SHA512 r) || is_empty (ch_LinuxARM64SHA512 r))
    (λ c, errorf (".NET Linux channel " +:+ quote c +:+ " lacks Linux archives")) [DotNetTargetLinux]) as Hl.
  pose proof (archives_iff (m_DotNet m) (λ r, is_empty (ch_WindowsX64SHA512 r))
    (λ c, errorf (".NET Windows channel " +:+ quote c +:+ " lacks a Windows archive"))
    [DotNetTargetWindowsContainer; DotNetTargetQEMUWindows]) as Hw.
  cbn [mbind list_bind] in Hl, Hw. rewrite !app_nil_r in Hl, Hw. rewrite Hl, Hw. clear Hl Hw.
  rewrite !negb_false_iff, !bool_decide_eq_false, Z.eqb_eq, String.eqb_eq, !orb_false_iff, !is_empty_false.
  rewrite manifest_ok_iff, bases_iff, fixed_iff, each_shuffle, node_checks, <-dotnet_checks_iff, buildtools_checks.
  unfold dotnet_checks. rewrite !Forall_cons, Forall_nil.
  assert ((∀ t c r, t ∈ [DotNetTargetLinux] → Channels (m_DotNet m) !! c = Some r → t ∈ Targets r →
      is_empty (ch_LinuxX64SHA512 r) || is_empty (ch_LinuxARM64SHA512 r) = false) ↔
    (∀ c r, Channels (m_DotNet m) !! c = Some r → DotNetTargetLinux ∈ Targets r →
      is_empty (ch_LinuxX64SHA512 r) || is_empty (ch_LinuxARM64SHA512 r) = false)) as ->.
  { setoid_rewrite list_elem_of_singleton. split; [eauto|]. intros Ha t c r ->. apply Ha. }
  tauto.
Qed.
End validate_facts.

(** ** A valid manifest *)

Definition repeat_char (n : nat) (c : ascii) : string := Nat.iter n (String c) "".
Definition hex64 : string := repeat_char 64 "a".
Definition hex128 : string := repeat_char 128 "0".

Definition sample_channel (targets : list string) (version : string) : DotNetChannel :=
  {| Targets := targets; ch_ReleaseType := "lts"; ch_Version := version; ch_EOL := "2028-11-14";
     ch_SupportPhase := "active"; ch_LinuxX64SHA512 := hex128; ch_LinuxARM64SHA512 := hex128;
     ch_WindowsX64SHA512 := hex128 |}.

Definition sample_manifest : Manifest :=
  {| Schema := 1;
     m_Minimal := {|
       LinuxBase := {| Repository := "runtime-deps"; Tag := "8.0-noble"; Digest := "sha256:" +:+ hex64 |};
       WindowsBase := {| Repository := "servercore"; Tag := "ltsc2025"; Digest := "sha256:" +:+ hex64 |};
       min_Runner := {| runner_Version := "2.337.0"; runner_LinuxX64SHA256 := hex64;
                        runner_LinuxARM64SHA256 := hex64; runner_WindowsX64SHA256 := hex64 |};
       min_MinGit := {| mingit_Version := "2.56.0"; mingit_URL := "https://git"; mingit_SHA256 := hex64 |};
       min_PowerShell := {| ps_Version := "7.6.6"; ps_WindowsX64SHA256 := hex64 |} |};
     m_NativeBuild := {| PackageSource := "noble"; nb_Strategy := "rolling" |};
     m_Node := {| Track := "supported-lts"; DefaultMajor := 22;
                  node_Corepack := {| cp_Version := "0.36.0"; cp_URL := "https://corepack"; cp_SHA512 := hex128 |};
                  Releases := {["22" := {| nr_Version := "22.23.3"; nr_EOL := "2027-04-30";
                                           nr_LinuxX64SHA256 := hex64; nr_LinuxARM64SHA256 := hex64;
                                           nr_WindowsX64SHA256 := hex64 |}]} |};
     m_DotNet := {| TrackReleaseTypes := ["lts"; "sts"]; UnassignedSupportedChannels := [];
                    Channels := {["8.0" := sample_channel ["linux"; "windows-container"; "qemu-windows"] "8.0.4";
                                  "10.0" := sample_channel ["windows-container"] "10.0.401"]} |};
     m_Go := {| go_Strategy := "latest"; go_Version := "1.25"; go_LinuxAMD64SHA256 := hex64;
                go_LinuxARM64SHA256 := hex64; go_WindowsAMD64SHA256 := hex64 |};
     m_Rust := {| rust_Channel := "stable"; rust_Version := "1.90"; RustupVersion := "1.28";
                  RustupX64SHA256 := hex64; RustupARM64SHA256 := hex64 |};
     m_BuildTools := {| DefaultLine := "17";
                        Lines := {["17" := {| bt_Channel := "17/release"; bt_ReleaseLine := "17";
                                              bt_Version := "17.14.1"; BootstrapperURL := "https://vs";
                                              BootstrapperSHA256 := hex64; ChannelURL := "https://ch";
                                              ChannelSHA256 := hex64 |}]} |} |}.

Example sample_manifest_valid : Validate sample_manifest = None.
Proof. vm_compute. reflexivity. Qed.
