(* ===== verification/BakePlan.v ===== *)
(** * Golden image tool selectors

    [internal/winvm/bake.go]: the resolution of a pool's [qemu.tools] against
    the image manifest.  The embedded manifest is an argument. *)

From S2P Require Import Prelude GoErr GoStr ImageVersions.

Local Open Scope Z_scope.
Local Open Scope go_scope.

(** [normalizeTools] *)
Fixpoint dedup_tools (seen : list string) (tools : list string) : list string :=
  match tools with
  | [] => []
  | t :: tools =>
      let t := to_lower (trim_space t) in
      if is_empty t || bool_mem t seen then dedup_tools seen tools
      else t :: dedup_tools (t :: seen) tools
  end.
Definition normalizeTools (tools : list string) : list string := sort_strings (dedup_tools [] tools).

(** [strings.SplitN(channel, ".", 2)]. *)
Definition dotNetChannelMajor (channel : string) : string := (cut "." channel).1.1.

Definition channel_minor (channel : string) : Z :=
  match cut "." channel with
  | (_, rest, true) => default 0 (parse_int rest)
  | _ => 0
  end.

Definition bakeableDotNetChannel (release : DotNetChannel) : bool :=
  negb (is_empty (ch_WindowsX64SHA512 release)) &&
  (String.eqb (ch_SupportPhase release) "active" || String.eqb (ch_SupportPhase release) "maintenance").

Definition sortedKeys (values : gset string) : list string := sort_strings (elements values).

(** The [less] of [sortedVersionKeys], turned into the order it sorts by. *)
Definition version_le (a b : string) : Prop :=
  match parse_int (dotNetChannelMajor a), parse_int (dotNetChannelMajor b) with
  | Some x, Some y => x ≤ y
  | _, _ => String.le a b
  end.
#[export] Instance version_le_dec a b : Decision (version_le a b).
Proof. unfold version_le. repeat case_match; apply _. Defined.
Definition sortedVersionKeys (values : gset string) : list string :=
  merge_sort version_le (sortedKeys values).

Record bakeToolPlan := {
  Canonical : list string;
  Kinds : list string;
  plan_Node : list string;
  plan_DotNet : list string;
  plan_BuildTools : list string
}.

(** The sets the resolution fills. *)
Record plan_sets := Sets {
  s_canonical : gset string;
  s_kinds : gset string;
  s_node : gset string;
  s_dotnet : gset string;
  s_buildtools : gset string
}.

Definition with_kind (kind : string) (p : plan_sets) : plan_sets :=
  Sets (s_canonical p) ({[kind]} ∪ s_kinds p) (s_node p) (s_dotnet p) (s_buildtools p).
Definition add_node (major : string) (p : plan_sets) : plan_sets :=
  Sets ({["node:" +:+ major]} ∪ s_canonical p) (s_kinds p) ({[major]} ∪ s_node p) (s_dotnet p) (s_buildtools p).
Definition add_dotnet (channel : string) (p : plan_sets) : plan_sets :=
  Sets ({["dotnet:" +:+ dotNetChannelMajor channel]} ∪ s_canonical p) (s_kinds p) (s_node p)
    ({[channel]} ∪ s_dotnet p) (s_buildtools p).
Definition add_buildtools (line : string) (p : plan_sets) : plan_sets :=
  Sets ({["buildtools:" +:+ line]} ∪ s_canonical p) (s_kinds p) (s_node p) (s_dotnet p)
    ({[line]} ∪ s_buildtools p).
Definition add_go (p : plan_sets) : plan_sets :=
  Sets ({["go"]} ∪ s_canonical p) (s_kinds p) (s_node p) (s_dotnet p) (s_buildtools p).

Section resolve.
Context `{MapRange} (m : Manifest).

(** The loop of [dotNetChannelForMajor]. *)
Definition best_channel (want : Z) : string * Z :=
  foldl (λ '(best, bestMinor) '(channel, _),
    match parse_int (dotNetChannelMajor channel) with
    | Some got =>
        if got =? want then
          if bestMinor <? channel_minor channel then (channel, channel_minor channel) else (best, bestMinor)
        else (best, bestMinor)
    | None => (best, bestMinor)
    end) ("", -1) (range (Channels (m_DotNet m))).

Definition dotNetChannelForMajor (major : string) : option string :=
  match parse_int major with
  | None => None
  | Some want => let best := (best_channel want).1 in if is_empty best then None else Some best
  end.

Definition bakeable (channel : string) : bool :=
  match Channels (m_DotNet m) !! channel with Some r => bakeableDotNetChannel r | None => false end.

Definition add_majors (majors : list string) (p : plan_sets) : result plan_sets :=
  each_with (λ p major,
    match Releases (m_Node m) !! major with
    | None => Err (errorf ("unsupported Node major " +:+ quote major))
    | Some _ => Ok (add_node major p)
    end) p majors.

(** One selector of the loop of [resolveToolPlan]. *)
Definition resolve_selector (p : plan_sets) (selector : string) : result plan_sets :=
  let parts := split ":" selector in
  let kind := default "" (parts !! 0%nat) in
  let version := default "" (parts !! 1%nat) in
  if (2 <? length parts)%nat then Err (errorf ("invalid tool selector " +:+ quote selector))
  else if (length parts =? 2)%nat && is_empty version then
    Err (errorf ("tool selector " +:+ quote selector +:+
                 " has an empty version; drop the colon to use the default"))
  else if String.eqb kind "node" then
    match add_majors (if is_empty version then fst <$> range (Releases (m_Node m)) else [version]) p with
    | Ok p => Ok (with_kind kind p)
    | Err e => Err e
    end
  else if String.eqb kind "go" then
    if is_empty version then Ok (with_kind kind (add_go p))
    else Err (errorf "go does not support a version selector")
  else if String.eqb kind "dotnet" then
    if is_empty version then
      match filter bakeable (ChannelsForTarget (m_DotNet m) DotNetTargetQEMUWindows) with
      | [] => Err (errorf "no supported .NET channel is assigned to the golden image; select an exact major")
      | channels => Ok (with_kind kind (foldl (λ p c, add_dotnet c p) p channels))
      end
    else match dotNetChannelForMajor version with
         | Some channel =>
             if bakeable channel then Ok (with_kind kind (add_dotnet channel p))
             else Err (errorf ("unsupported stable .NET major " +:+ quote version))
         | None => Err (errorf ("unsupported stable .NET major " +:+ quote version))
         end
  else if String.eqb kind "buildtools" then
    let line := if is_empty version then DefaultLine (m_BuildTools m) else version in
    match Lines (m_BuildTools m) !! line with
    | None => Err (errorf ("unsupported Build Tools release line " +:+ quote line))
    | Some _ => Ok (with_kind kind (add_buildtools line p))
    end
  else Err (errorf ("unknown tool selector " +:+ quote selector)).

Definition resolveToolPlan (tools : list string) : result bakeToolPlan :=
  match each_with resolve_selector (Sets ∅ ∅ ∅ ∅ ∅) (normalizeTools tools) with
  | Err e => Err e
  | Ok p => Ok {| Canonical := sortedKeys (s_canonical p);
                  Kinds := sortedKeys (s_kinds p);
                  plan_Node := sortedVersionKeys (s_node p);
                  plan_DotNet := sortedVersionKeys (s_dotnet p);
                  plan_BuildTools := sortedVersionKeys (s_buildtools p) |}
  end.

Definition ValidateToolSelectors (tools : list string) : option goerror :=
  result_err (resolveToolPlan tools).
End resolve.
