(* ===== verification/NetIP.v ===== *)
(** * IP addresses

    What the program uses of [net]: [net.ParseIP], [IP.String] and
    [IP.IsLoopback].  An address is its 16 bytes, an IPv4 one in the mapped
    form [::ffff:a.b.c.d]. *)

From S2P Require Import Prelude GoStr Codec.

Local Open Scope Z_scope.

Definition IP : Type := list Z.

Definition v4_prefix : IP := replicate 10 0 ++ [255; 255].

(** A decimal field: digits, no leading zero, at most 255. *)
Definition v4_field (s : string) : option Z :=
  match s with
  | "" => None
  | "0" => Some 0
  | String "0" _ => None
  | _ => match digits_val 0 s with
         | Some n => if (String.length s <=? 3)%nat && (n <=? 255) then Some n else None
         | None => None
         end
  end.

Definition parse_v4 (s : string) : option IP :=
  match v4_field <$> split "." s with
  | [Some a; Some b; Some c; Some d] => Some [a; b; c; d]
  | _ => None
  end.

(** A leading run of hexadecimal digits: its value, its length and the rest. *)
Fixpoint hex_run (acc : Z) (off : nat) (s : string) : Z * nat * string :=
  match s with
  | String c s' => match hex_val c with
                   | Some d => hex_run (acc * 16 + d) (S off) s'
                   | None => (acc, off, s)
                   end
  | "" => (acc, off, s)
  end.

(** The loop over the groups: the bytes so far, where the ellipsis stands, and
    the text left; [None] for a malformed address. *)
Fixpoint v6_groups (fuel : nat) (ip : IP) (ellipsis : option nat) (s : string)
    : option (IP * option nat * string) :=
  match fuel with
  | O => Some (ip, ellipsis, s)
  | S fuel =>
      if (16 <=? length ip)%nat then Some (ip, ellipsis, s) else
      let '(acc, off, rest) := hex_run 0 0 s in
      if (off =? 0)%nat || (4 <? off)%nat then None else
      match rest with
      | String "." _ =>
          let misplaced := match ellipsis with None => negb (length ip =? 12)%nat | Some _ => false end in
          if misplaced || (16 <? length ip + 4)%nat then None
          else match parse_v4 s with
               | Some v4 => Some (ip ++ v4, ellipsis, "")
               | None => None
               end
      | _ =>
          let ip := ip ++ [acc / 256; acc mod 256] in
          match rest with
          | "" => Some (ip, ellipsis, "")
          | String ":" "" => None
          | String ":" (String ":" rest) =>
              match ellipsis with
              | Some _ => None
              | None => match rest with
                        | "" => Some (ip, Some (length ip), "")
                        | _ => v6_groups fuel ip (Some (length ip)) rest
                        end
              end
          | String ":" rest => v6_groups fuel ip ellipsis rest
          | _ => None
          end
      end
  end.

Definition parse_v6 (s : string) : option IP :=
  let start := match s with
               | "::" => Some ([], Some 0%nat, "")
               | String ":" (String ":" rest) => v6_groups 8 [] (Some 0%nat) rest
               | _ => v6_groups 8 [] None s
               end in
  match start with
  | Some (ip, ellipsis, "") =>
      match ellipsis with
      | None => if (length ip =? 16)%nat then Some ip else None
      | Some e => if (length ip <? 16)%nat
                  then Some (take e ip ++ replicate (16 - length ip) 0 ++ drop e ip)
                  else None
      end
  | _ => None
  end.

(** The first of ['.'], [':'], ['%'] decides the family. *)
Fixpoint ip_family (s : string) : option ascii :=
  match s with
  | "" => None
  | String c s => if Ascii.eqb c "." || Ascii.eqb c ":" || Ascii.eqb c "%" then Some c else ip_family s
  end.

(** [net.ParseIP]; an address with a zone is rejected. *)
Definition ParseIP (s : string) : option IP :=
  match ip_family s with
  | Some "."%char => match parse_v4 s with Some v4 => Some (v4_prefix ++ v4) | None => None end
  | Some ":"%char => if str_mem "%" s then None else parse_v6 s
  | _ => None
  end.

(** [IP.To4] *)
Definition To4 (ip : IP) : option IP :=
  if bool_decide (take 12 ip = v4_prefix) then Some (drop 12 ip) else None.

(** [IP.IsLoopback] *)
Definition IsLoopback (ip : IP) : bool :=
  match To4 ip with
  | Some v4 => bool_decide (head v4 = Some 127)
  | None => bool_decide (ip = replicate 15 0 ++ [1])
  end.

Fixpoint groups (ip : IP) : list Z :=
  match ip with a :: b :: ip => a * 256 + b :: groups ip | _ => [] end.

Fixpoint zero_run (l : list Z) : nat :=
  match l with 0 :: l => S (zero_run l) | _ => O end.

(** The first longest run of zero groups, as its start and length. *)
Fixpoint best_run (i : nat) (l : list Z) (best : nat * nat) : nat * nat :=
  match l with
  | [] => best
  | _ :: l' => best_run (S i) l' (if (best.2 <? zero_run l)%nat then (i, zero_run l) else best)
  end.

Definition format_v6 (ip : IP) : string :=
  let gs := groups ip in
  let '(start, len) := best_run 0 gs (0, 0)%nat in
  let text l := join ":" (format_hex <$> l) in
  if (len <? 2)%nat then text gs
  else text (take start gs) +:+ "::" +:+ text (drop (start + len) gs).

(** [IP.String] of a 16-byte address. *)
Definition IP_String (ip : IP) : string :=
  match To4 ip with
  | Some v4 => join "." (format_int <$> v4)
  | None => format_v6 ip
  end.

Example parse_ip_samples :
  ((IP_String <$> ParseIP "010.0.0.1"), (IP_String <$> ParseIP "8.8.4.4"),
   (IP_String <$> ParseIP "2001:DB8:0:0:1:0:0:1"), (IP_String <$> ParseIP "::ffff:1.2.3.4"),
   (IP_String <$> ParseIP "::1"), (IP_String <$> ParseIP "1::"), ParseIP "fe80::1%eth0", ParseIP "1.2.3") =
  (None, Some "8.8.4.4", Some "2001:db8::1:0:0:1", Some "1.2.3.4", Some "::1", Some "1::", None, None).
Proof. vm_compute. reflexivity. Qed.
