(* ===== verification/Config.v ===== *)
(** * Configuration

    [internal/config/config.go]: the configuration, its defaults and its
    validation.  The YAML decoder is third-party, so a configuration starts
    as the decoded record; the environment is a map, and the embedded image
    manifest an argument. *)

From S2P Require Import Prelude GoErr GoStr NetIP ImageVersions BakePlan.

Local Open Scope Z_scope.
Local Open Scope go_scope.

(** ** Data *)

(** [Scope] and [Provisioning] are strings, of which these are known. *)
Definition ScopeRepo : string := "repo".
Definition ScopeRepos : string := "repos".
Definition ScopeOrg : string := "org".
Definition ScopeEnterprise : string := "enterprise".

Definition ProvisioningPool : string := "pool".
Definition ProvisioningAutoscale : string := "autoscale".
Definition ProvisioningWebhook : string := "webhook".
Definition ProvisioningScaleset : string := "scaleset".

Definition IsAutoscale (p : string) : bool :=
  String.eqb p ProvisioningAutoscale || String.eqb p ProvisioningWebhook.
Definition IsScaleset (p : string) : bool := String.eqb p ProvisioningScaleset.

Record Webhook := {
  wh_Listen : string;
  wh_Path : string;
  wh_Secret : string;
  PollIntervalSec : Z
}.

Record Metrics := { metrics_Listen : string }.

Record GitCache := { gc_Mode : string; gc_Path : string; gc_MaxAgeDays : Z }.

Definition GitCache_Enabled (g : GitCache) : bool :=
  (String.eqb (gc_Mode g) "mirror" || String.eqb (gc_Mode g) "dotgit-cache") && negb (is_empty (gc_Path g)).
Definition DotGit (g : GitCache) : bool :=
  String.eqb (gc_Mode g) "dotgit-cache" && negb (is_empty (gc_Path g)).

Record GitHub := {
  gh_URL : string;
  gh_Scope : string;
  gh_Owner : string;
  gh_Repo : string;
  gh_Repos : list string
}.

Record RepoRef := MkRepoRef { ref_Owner : string; ref_Repo : string }.

Record Auth := {
  PAT : string;
  AppID : Z;
  InstallationID : Z;
  PrivateKeyPath : string;
  ClientID : string;
  TokenPath : string
}.

Definition IsApp (a : Auth) : bool := is_empty (PAT a) && negb (AppID a =? 0).
Definition IsDeviceApp (a : Auth) : bool :=
  is_empty (PAT a) && (AppID a =? 0) && negb (is_empty (TokenPath a)).

Record Cache := {
  cache_Enabled : bool;
  cache_Mode : string;
  cache_Storage : string;
  cache_Path : string;
  cache_Listen : string;
  cache_AdvertiseURL : string;
  cache_ExternalURL : string;
  cache_AccessToken : string;
  SkipTokenValidation : bool;
  cache_Upstream : string;
  cache_MaxAgeDays : Z;
  MaxSizeGB : Z;
  GCIntervalSec : Z
}.

Record ContainerConfig := {
  cc_CPUs : Z;
  MemoryMB : Z;
  MemorySwapMB : Z;
  DNS : list string
}.

Record QEMU := {
  Golden : string;
  WorkDir : string;
  MemMB : Z;
  qemu_CPUs : Z;
  Accel : string;
  BakeISO : string;
  BakeISOSHA256 : string;
  RunnerVersion : string;
  RunnerSHA256 : string;
  Licensed : bool;
  Tools : list string
}.

Record Containerd := {
  Address : string;
  Nerdctl : string;
  Namespace : string;
  cd_Isolation : string
}.

Record DockerTLS := { CAFile : string; CertFile : string; KeyFile : string }.

Definition tls_configured (t : DockerTLS) : bool :=
  negb (is_empty (CAFile t)) || negb (is_empty (CertFile t)) || negb (is_empty (KeyFile t)).

Record Docker := {
  Host : string;
  TLS : DockerTLS;
  EnableDinD : bool;
  ShareWorkspace : bool;
  docker_Isolation : string;
  WindowsDinD : string
}.

Record ToolCache := { tc_Mode : string; Volume : string; ReadOnly : bool }.

Record Log := { Level : string; Format : string }.

Record Pool := {
  Name : string;
  OS : string;
  Backend : string;
  Size : Z;
  ImageTier : string;
  Image : string;
  Container : ContainerConfig;
  pool_QEMU : QEMU;
  pool_Containerd : Containerd;
  RunnerGroupID : Z;
  Labels : list string;
  pool_Repository : string;
  Workflows : list string;
  WorkflowEvent : string;
  WorkflowActor : string;
  WorkflowRef : string;
  WorkFolder : string;
  NamePrefix : string;
  pool_Docker : Docker;
  pool_ToolCache : ToolCache;
  MaxConsecutiveFailures : Z;
  ScaleSet : string;
  RunnerGroup : string
}.

Record Config := {
  cfg_GitHub : GitHub;
  cfg_Auth : Auth;
  cfg_Provisioning : string;
  cfg_Cache : Cache;
  cfg_GitCache : GitCache;
  cfg_Webhook : Webhook;
  cfg_Metrics : Metrics;
  Pools : list Pool;
  cfg_Log : Log
}.

(** ** Repositories *)

(** [ParseRepoRef]: split at the first slash, unless it is at either end. *)
Definition ParseRepoRef (entry defaultOwner : string) : RepoRef :=
  match cut "/" entry with
  | (owner, repo, true) =>
      if negb (is_empty owner) && negb (is_empty repo) then MkRepoRef owner repo
      else MkRepoRef defaultOwner entry
  | _ => MkRepoRef defaultOwner entry
  end.

Definition ResolvedRepos (gh : GitHub) : list RepoRef :=
  (λ entry, ParseRepoRef entry (gh_Owner gh)) <$> gh_Repos gh.

Definition RepoTargets (gh : GitHub) : list RepoRef :=
  if String.eqb (gh_Scope gh) ScopeRepo then [MkRepoRef (gh_Owner gh) (gh_Repo gh)]
  else if String.eqb (gh_Scope gh) ScopeRepos then ResolvedRepos gh
  else [].

Definition slug (r : RepoRef) : string := ref_Owner r +:+ "/" +:+ ref_Repo r.

(** ** Pools *)

Definition CanServeRepository (p : Pool) (target : string) : bool :=
  is_empty (pool_Repository p) || equal_fold (pool_Repository p) target.

Definition CanServeJob (p : Pool) (target workflow event actor ref : string) : bool :=
  if negb (CanServeRepository p target) then false
  else if bool_decide (Workflows p = []) then true
  else if negb (equal_fold (WorkflowEvent p) event) || negb (equal_fold (WorkflowActor p) actor) ||
          negb (equal_fold (WorkflowRef p) ref) then false
  else existsb (String.eqb workflow) (Workflows p).

Definition bytesPerMiB : Z := 1024 * 1024.
Definition nanosPerCPU : Z := 1000000000.
Definition maxMemoryMiB : Z := int64_max / bytesPerMiB.
Definition maxCPUCount : Z := int64_max / nanosPerCPU.

(** The accessors multiply 64-bit integers. *)
Definition NanoCPUs (c : ContainerConfig) : Z := wrap64 (cc_CPUs c * nanosPerCPU).
Definition MemoryBytes (c : ContainerConfig) : Z := wrap64 (MemoryMB c * bytesPerMiB).
Definition MemorySwapBytes (c : ContainerConfig) : Z := wrap64 (MemorySwapMB c * bytesPerMiB).

Definition configured (c : ContainerConfig) : bool :=
  negb (cc_CPUs c =? 0) || negb (MemoryMB c =? 0) || negb (MemorySwapMB c =? 0) ||
  negb (bool_decide (DNS c = [])).

(** [yaml.Node] as [UnmarshalYAML] sees it: its tag and its value as [int64]. *)
Definition unmarshal_int (what decode_what : string) (tag : string) (value : result Z) : result Z :=
  if negb (String.eqb tag "!!int") then Err (errorf what)
  else match value with
       | Err e => Err (errorf_w ("decode " +:+ decode_what +:+ ": ") e)
       | Ok v => Ok v
       end.
Definition CPUCount_UnmarshalYAML : string → result Z → result Z :=
  unmarshal_int "CPU count must be an integer" "CPU count".
Definition Mebibytes_UnmarshalYAML : string → result Z → result Z :=
  unmarshal_int "memory must be an integer number of MiB" "memory".

(** ** Images *)

(** The tag a published tier resolves to, [""] for none. *)
Definition linux_flavors : gmap string string :=
  list_to_map [("native-build", "native-build"); ("node", "node"); ("dotnet", "dotnet");
               ("rust", "rust"); ("go", "go")].
Definition windows_flavors (lines : list string) : gmap string string :=
  foldl (λ m line, <["buildtools:" +:+ line := "buildtools-" +:+ line]> m)
    (list_to_map [("node", "node"); ("dotnet", "dotnet"); ("buildtools", "buildtools")]) lines.

(** [^[a-z0-9]+(?:(?:[._]|__|-+)[a-z0-9]+)*$], as its automaton. *)
Inductive tier_state := TStart | TWord | TUnderscore | TDash.

Definition tier_word (c : ascii) : bool :=
  let z := Z_of_ascii c in ((97 <=? z) && (z <=? 122)) || is_digit c.

Definition tier_step (st : tier_state) (c : ascii) : option tier_state :=
  if tier_word c then Some TWord
  else match st with
       | TStart => None
       | TWord => if Ascii.eqb c "." then Some TStart
                  else if Ascii.eqb c "_" then Some TUnderscore
                  else if Ascii.eqb c "-" then Some TDash else None
       | TUnderscore => if Ascii.eqb c "_" then Some TStart else None
       | TDash => if Ascii.eqb c "-" then Some TDash else None
       end.

Fixpoint tier_match (st : tier_state) (s : string) : bool :=
  match s with
  | "" => match st with TWord => true | _ => false end
  | String c s => match tier_step st c with Some st => tier_match st s | None => false end
  end.

Definition localImageTierPattern (tier : string) : bool := tier_match TStart tier.
Definition maxLocalImageTierLength : nat := 64.

Section images.
Context `{MapRange} (manifest : Manifest).

Definition publishedFlavors (os : string) : gmap string string :=
  if String.eqb os "linux" then linux_flavors
  else if String.eqb os "windows" then windows_flavors (ReleaseLines (m_BuildTools manifest))
  else ∅.

(** [publishedFlavors[os][tier]], [""] when there is none. *)
Definition published_tag (os tier : string) : string := default "" (publishedFlavors os !! tier).

Definition validImageTiers (os : string) : list string :=
  "minimal" :: sort_strings (fst <$> range (publishedFlavors os)).

Definition ImageRef (p : Pool) : string :=
  if negb (is_empty (Image p)) then Image p
  else
    let tier := ImageTier p in
    if is_empty tier || String.eqb tier "minimal" then
      "gerardsmit/multirunner-runner-" +:+ OS p +:+ ":latest"
    else
      let tag := published_tag (OS p) tier in
      if negb (is_empty tag) then "gerardsmit/multirunner-runner-" +:+ OS p +:+ ":" +:+ tag
      else "multirunner/runner-" +:+ OS p +:+ "-" +:+ tier +:+ ":dev".

Definition validateImageTier (p : Pool) : option goerror :=
  if negb (is_empty (Image p)) || String.eqb (Backend p) "qemu" then None
  else
    let tier := ImageTier p in
    if is_empty tier || String.eqb tier "minimal" || negb (is_empty (published_tag (OS p) tier)) then None
    else if (String.length tier <=? maxLocalImageTierLength)%nat && localImageTierPattern tier then None
    else Some (errorf ("pools[" +:+ quote (Name p) +:+ "].image_tier " +:+ quote tier +:+
      " is not published for os=" +:+ OS p +:+ " and cannot be built locally " +:+
      "(a local tier must be lowercase letters and digits separated by '.', '_' or '-', at most " +:+
      format_int (Z.of_nat maxLocalImageTierLength) +:+ " characters); valid tiers: " +:+
      join ", " (validImageTiers (OS p)))).
End images.

Definition ToolCachePath (p : Pool) : string :=
  if String.eqb (OS p) "windows" then "C:\hostedtoolcache\windows" else "/opt/hostedtoolcache".
Definition DockerSocketPath (p : Pool) : string := "/var/run/docker.sock".
Definition SharedWorkspacePath (p : Pool) : string := "/home/runner/" +:+ WorkFolder p.

(** ** Secrets and defaults *)

Definition expandEnvRef (env : gmap string string) (v : string) : string :=
  if negb (has_prefix "$" v) then v
  else default "" (env !! trim_suffix "}" (trim_prefix "{" (trim_prefix "$" v))).

Definition resolveSecrets (env : gmap string string) (c : Config) : Config :=
  let a := cfg_Auth c in let w := cfg_Webhook c in let k := cfg_Cache c in
  {| cfg_GitHub := cfg_GitHub c;
     cfg_Auth := {| PAT := expandEnvRef env (PAT a); AppID := AppID a; InstallationID := InstallationID a;
                    PrivateKeyPath := expandEnvRef env (PrivateKeyPath a); ClientID := ClientID a;
                    TokenPath := expandEnvRef env (TokenPath a) |};
     cfg_Provisioning := cfg_Provisioning c;
     cfg_Cache := {| cache_Enabled := cache_Enabled k; cache_Mode := cache_Mode k;
                     cache_Storage := cache_Storage k; cache_Path := cache_Path k;
                     cache_Listen := cache_Listen k; cache_AdvertiseURL := cache_AdvertiseURL k;
                     cache_ExternalURL := cache_ExternalURL k;
                     cache_AccessToken := expandEnvRef env (cache_AccessToken k);
                     SkipTokenValidation := SkipTokenValidation k; cache_Upstream := cache_Upstream k;
                     cache_MaxAgeDays := cache_MaxAgeDays k; MaxSizeGB := MaxSizeGB k;
                     GCIntervalSec := GCIntervalSec k |};
     cfg_GitCache := cfg_GitCache c;
     cfg_Webhook := {| wh_Listen := wh_Listen w; wh_Path := wh_Path w;
                       wh_Secret := expandEnvRef env (wh_Secret w);
                       PollIntervalSec := PollIntervalSec w |};
     cfg_Metrics := cfg_Metrics c;
     Pools := Pools c;
     cfg_Log := cfg_Log c |}.

(** [if v == "" { v = d }], [if v == 0 { v = d }]. *)
Definition or_string (v d : string) : string := if is_empty v then d else v.
Definition or_int (v d : Z) : Z := if v =? 0 then d else v.

Definition github_defaults (gh : GitHub) : GitHub :=
  {| gh_URL := or_string (gh_URL gh) "https://github.com"; gh_Scope := gh_Scope gh;
     gh_Owner := trim_space (gh_Owner gh); gh_Repo := gh_Repo gh;
     gh_Repos := trim_space <$> gh_Repos gh |}.

Definition cache_defaults (k : Cache) : Cache :=
  if cache_Enabled k then
    {| cache_Enabled := true; cache_Mode := or_string (cache_Mode k) "local-server";
       cache_Storage := or_string (cache_Storage k) "filesystem"; cache_Path := cache_Path k;
       cache_Listen := or_string (cache_Listen k) "0.0.0.0:3000";
       cache_AdvertiseURL := cache_AdvertiseURL k; cache_ExternalURL := cache_ExternalURL k;
       cache_AccessToken := cache_AccessToken k; SkipTokenValidation := SkipTokenValidation k;
       cache_Upstream := or_string (cache_Upstream k)
         "https://results-receiver.actions.githubusercontent.com";
       cache_MaxAgeDays := or_int (cache_MaxAgeDays k) 7; MaxSizeGB := MaxSizeGB k;
       GCIntervalSec := or_int (GCIntervalSec k) 3600 |}
  else k.

Definition canonical_dns (server : string) : string :=
  match ParseIP server with Some ip => IP_String ip | None => server end.

(** The defaults of a pool; [scaleset] fills its scale set in first. *)
Definition pool_defaults (scaleset : bool) (p : Pool) : Pool :=
  let cc := Container p in
  {| Name := Name p; OS := OS p; Backend := Backend p; Size := or_int (Size p) 1;
     ImageTier := or_string (ImageTier p) "minimal"; Image := Image p;
     Container := {| cc_CPUs := cc_CPUs cc; MemoryMB := MemoryMB cc; MemorySwapMB := MemorySwapMB cc;
                     DNS := canonical_dns <$> DNS cc |};
     pool_QEMU := pool_QEMU p; pool_Containerd := pool_Containerd p;
     RunnerGroupID := or_int (RunnerGroupID p) 1; Labels := Labels p;
     pool_Repository := pool_Repository p; Workflows := Workflows p;
     WorkflowEvent := WorkflowEvent p; WorkflowActor := WorkflowActor p; WorkflowRef := WorkflowRef p;
     WorkFolder := or_string (WorkFolder p) "_work";
     NamePrefix := or_string (NamePrefix p) "multirunner";
     pool_Docker := pool_Docker p; pool_ToolCache := pool_ToolCache p;
     MaxConsecutiveFailures := or_int (MaxConsecutiveFailures p) 5;
     ScaleSet := if scaleset then or_string (ScaleSet p) (Name p) else ScaleSet p;
     RunnerGroup := RunnerGroup p |}.

Definition applyDefaults (c : Config) : Config :=
  let gh := github_defaults (cfg_GitHub c) in
  let prov := or_string (cfg_Provisioning c)
                (if String.eqb (gh_Scope gh) ScopeRepos then ProvisioningPool else ProvisioningScaleset) in
  let w := cfg_Webhook c in
  let g := cfg_GitCache c in
  {| cfg_GitHub := gh;
     cfg_Auth := cfg_Auth c;
     cfg_Provisioning := prov;
     cfg_Cache := cache_defaults (cfg_Cache c);
     cfg_GitCache := if GitCache_Enabled g
                     then {| gc_Mode := gc_Mode g; gc_Path := gc_Path g;
                             gc_MaxAgeDays := or_int (gc_MaxAgeDays g) 30 |}
                     else g;
     cfg_Webhook := if IsAutoscale prov
                    then {| wh_Listen := wh_Listen w; wh_Path := or_string (wh_Path w) "/webhook";
                            wh_Secret := wh_Secret w;
                            PollIntervalSec := or_int (PollIntervalSec w) 300 |}
                    else w;
     cfg_Metrics := cfg_Metrics c;
     Pools := pool_defaults (IsScaleset prov) <$> Pools c;
     cfg_Log := {| Level := or_string (Level (cfg_Log c)) "info";
                   Format := or_string (Format (cfg_Log c)) "text" |} |}.

Definition Warnings (c : Config) : list string :=
  (if String.eqb (gh_Scope (cfg_GitHub c)) ScopeRepos && negb (is_empty (gh_Repo (cfg_GitHub c)))
   then ["github.repo is ignored when scope=repos; use github.repos instead"] else []) ++
  ((λ p, "pool " +:+ quote (Name p) +:+
         ": backend=qemu ignores image/image_tier (it boots the baked golden image); " +:+
         "bake toolchains into the golden instead (multirunner bake --tools ...)") <$>
     filter (λ p, String.eqb (Backend p) "qemu" &&
                  (negb (is_empty (Image p)) ||
                   (negb (is_empty (ImageTier p)) && negb (String.eqb (ImageTier p) "minimal"))))
       (Pools c)).

(** ** Validation *)

Definition blank_chars : string := " " +:+ String "009" (String "013" (String "010" "")).

Definition ExamplePoolYAML : string :=
  let nl := String "010" "" in let q := String "034" "" in
  "pools:" +:+ nl +:+ "  - name: linux-pool" +:+ nl +:+ "    os: linux" +:+ nl +:+
  "    size: 2" +:+ nl +:+ "    labels: [self-hosted, linux, x64]" +:+ nl +:+ "    docker:" +:+ nl +:+
  "      host: " +:+ q +:+ "tcp://127.0.0.1:2375" +:+ q +:+ nl.

(** One entry of [github.repos]; the state is the keys seen and the account
    the App installation belongs to. *)
Definition check_repo (owner : string) (app : bool) (st : list string * string) (entry : string)
    : result (list string * string) :=
  let '(seenRepos, appOwner) := st in
  let parts := split "/" entry in
  let ref := ParseRepoRef entry owner in
  let key := to_lower (slug ref) in
  match
    fail_if ((2 <? length parts)%nat || is_empty entry)
      (errorf ("invalid github.repos entry " +:+ quote entry +:+ ": expected repo or owner/repo")) ;?
    each (λ part, fail_if (is_empty part || negb (String.eqb (trim_space part) part) ||
                           contains_any part blank_chars)
            (errorf ("invalid github.repos entry " +:+ quote entry +:+
                     ": owner and repo must be non-empty and contain no whitespace"))) parts ;?
    fail_if (is_empty (ref_Owner ref) || is_empty (ref_Repo ref))
      (errorf ("github.owner is required (or use owner/repo format) for repos entry " +:+ quote entry)) ;?
    fail_if (bool_mem key seenRepos) (errorf ("duplicate github.repos entry " +:+ quote entry)) ;?
    fail_if (app && negb (is_empty appOwner) && negb (equal_fold appOwner (ref_Owner ref)))
      (errorf ("scope=repos with GitHub App auth requires every repo to belong to one installation account; " +:+
               quote appOwner +:+ " and " +:+ quote (ref_Owner ref) +:+ " differ"))
  with
  | Some e => Err e
  | None => Ok (key :: seenRepos,
                if app && is_empty appOwner then ref_Owner ref else appOwner)
  end.

Definition check_scope (c : Config) : option goerror :=
  let gh := cfg_GitHub c in
  if String.eqb (gh_Scope gh) ScopeRepo then
    fail_if (is_empty (gh_Owner gh) || is_empty (gh_Repo gh))
      (errorf "github.owner and github.repo are required for scope=repo")
  else if String.eqb (gh_Scope gh) ScopeRepos then
    fail_if (bool_decide (gh_Repos gh = []))
      (errorf "github.repos must list at least one repo for scope=repos") ;?
    result_err (each_with (check_repo (gh_Owner gh) (IsApp (cfg_Auth c))) ([], "") (gh_Repos gh))
  else if String.eqb (gh_Scope gh) ScopeOrg || String.eqb (gh_Scope gh) ScopeEnterprise then
    fail_if (is_empty (gh_Owner gh)) (errorf ("github.owner is required for scope=" +:+ gh_Scope gh))
  else Some (errorf ("github.scope must be one of repo|repos|org|enterprise, got " +:+ quote (gh_Scope gh))).

Definition check_auth (c : Config) : option goerror :=
  let a := cfg_Auth c in let gh := cfg_GitHub c in
  fail_if (is_empty (PAT a) && negb (IsDeviceApp a) &&
           ((AppID a =? 0) || (InstallationID a =? 0) || is_empty (PrivateKeyPath a)))
    (errorf "auth requires one of: pat, (app_id + installation_id + private_key_path), or token_path (device-flow user token)") ;?
  fail_if (IsScaleset (cfg_Provisioning c) && String.eqb (gh_Scope gh) ScopeRepos)
    (errorf "provisioning: scaleset cannot serve scope=repos; use scope=repo, org or enterprise, or provisioning: pool") ;?
  fail_if (String.eqb (gh_Scope gh) ScopeEnterprise && (IsApp a || IsDeviceApp a))
    (errorf ("scope=enterprise cannot use GitHub App authentication; " +:+
             "GitHub does not accept App installation or device-flow user tokens for enterprise runner endpoints. " +:+
             "Use auth.pat with a classic PAT carrying the manage_runners:enterprise scope")) ;?
  fail_if (String.eqb (gh_Scope gh) ScopeRepos && IsDeviceApp a)
    (errorf "device authentication supports a single repo or org target; scope=repos requires a PAT or installation App credentials") ;?
  fail_if (negb (String.eqb (cfg_Provisioning c) ProvisioningPool) && negb (IsAutoscale (cfg_Provisioning c)) &&
           negb (IsScaleset (cfg_Provisioning c)))
    (errorf ("provisioning must be pool|autoscale|webhook|scaleset, got " +:+ quote (cfg_Provisioning c))).

(** [pools[<name>]<what>]. *)
Definition pool_error (p : Pool) (what : string) : goerror :=
  errorf ("pools[" +:+ quote (Name p) +:+ "]" +:+ what).

(** The guards of [validateContainerConfig], in order, then the DNS servers. *)
Definition validateContainerConfig (p : Pool) : option goerror :=
  let cfg := Container p in
  fail_if (cc_CPUs cfg <? 0) (pool_error p ".container.cpus must be >= 0") ;?
  fail_if (maxCPUCount <? cc_CPUs cfg)
    (pool_error p ".container.cpus overflows the backend CPU representation") ;?
  fail_if (MemoryMB cfg <? 0) (pool_error p ".container.memory_mb must be >= 0") ;?
  fail_if (maxMemoryMiB <? MemoryMB cfg) (pool_error p ".container.memory_mb overflows bytes") ;?
  fail_if (MemorySwapMB cfg <? 0) (pool_error p ".container.memory_swap_mb must be >= 0") ;?
  fail_if (maxMemoryMiB <? MemorySwapMB cfg) (pool_error p ".container.memory_swap_mb overflows bytes") ;?
  fail_if (negb (MemorySwapMB cfg =? 0) && (MemoryMB cfg =? 0))
    (pool_error p ".container.memory_swap_mb requires memory_mb") ;?
  fail_if (negb (MemorySwapMB cfg =? 0) && (MemorySwapMB cfg <? MemoryMB cfg))
    (pool_error p ".container.memory_swap_mb must be >= memory_mb") ;?
  fail_if (String.eqb (Backend p) "qemu" && configured cfg)
    (pool_error p ".container settings are unsupported for backend=qemu; use qemu.cpus and qemu.mem_mb") ;?
  fail_if (String.eqb (OS p) "windows" && negb (MemorySwapMB cfg =? 0))
    (pool_error p ".container.memory_swap_mb is unsupported for Windows containers") ;?
  fail_if (String.eqb (Backend p) "containerd" && negb (bool_decide (DNS cfg = [])))
    (pool_error p ".container.dns is unsupported by nerdctl on Windows") ;?
  each (λ server, fail_if (bool_decide (ParseIP server = None))
          (pool_error p (".container.dns entry " +:+ quote server +:+ " must be an IP address")))
    (DNS cfg).

Definition docker_backend (p : Pool) : bool := is_empty (Backend p) || String.eqb (Backend p) "docker".

Definition check_docker (p : Pool) : option goerror :=
  let d := pool_Docker p in
  (if tls_configured (TLS d) then
     fail_if (negb (docker_backend p)) (pool_error p ".docker.tls requires the Docker backend") ;?
     fail_if (is_empty (CAFile (TLS d)) || is_empty (CertFile (TLS d)) || is_empty (KeyFile (TLS d)))
       (pool_error p ".docker.tls requires ca, cert, and key") ;?
     fail_if (negb (has_prefix "tcp://" (to_lower (Host d))))
       (pool_error p ".docker.tls requires a tcp:// docker.host")
   else None) ;?
  (if ShareWorkspace d then
     fail_if (negb (EnableDinD d)) (pool_error p ".docker.share_workspace requires enable_dind") ;?
     fail_if (negb (String.eqb (OS p) "linux") || negb (docker_backend p))
       (pool_error p ".docker.share_workspace requires the Linux Docker backend") ;?
     fail_if (String.eqb (WorkFolder p) "." || String.eqb (WorkFolder p) ".." ||
              negb (String.eqb (trim_space (WorkFolder p)) (WorkFolder p)) ||
              contains_any (WorkFolder p) "/\")
       (pool_error p ".work_folder must be one relative directory name when docker.share_workspace is enabled") ;?
     fail_if (negb (Size p =? 1)) (pool_error p ".docker.share_workspace requires size: 1")
   else None).

Definition check_repository (c : Config) (p : Pool) : option goerror :=
  let parts := split "/" (pool_Repository p) in
  let targets := RepoTargets (cfg_GitHub c) in
  if is_empty (pool_Repository p) then None
  else
    fail_if (negb (length parts =? 2)%nat || existsb is_empty (take 2 parts) ||
             negb (String.eqb (trim_space (pool_Repository p)) (pool_Repository p)) ||
             contains_any (pool_Repository p) blank_chars)
      (pool_error p ".repository must be owner/repo without whitespace") ;?
    fail_if (negb (IsAutoscale (cfg_Provisioning c)))
      (pool_error p ".repository requires provisioning: autoscale") ;?
    (if bool_decide (targets = []) then
       fail_if (String.eqb (gh_Scope (cfg_GitHub c)) ScopeOrg &&
                negb (equal_fold (default "" (head parts)) (gh_Owner (cfg_GitHub c))))
         (pool_error p (".repository " +:+ quote (pool_Repository p) +:+
            " is outside github organization " +:+ quote (gh_Owner (cfg_GitHub c))))
     else
       fail_if (negb (existsb (λ ref, equal_fold (pool_Repository p) (slug ref)) targets))
         (pool_error p (".repository " +:+ quote (pool_Repository p) +:+
            " is not managed by github scope"))).

Definition check_workflow (p : Pool) (workflow : string) (dup : bool) : option goerror :=
  fail_if (negb (has_prefix ".github/workflows/" workflow) ||
           (negb (has_suffix ".yml" workflow) && negb (has_suffix ".yaml" workflow)) ||
           contains workflow ".." || contains_any workflow (blank_chars +:+ "@"))
    (pool_error p (".workflows contains invalid workflow path " +:+ quote workflow)) ;?
  fail_if dup (pool_error p (".workflows repeats " +:+ quote workflow)).

Definition check_workflows (p : Pool) : option goerror :=
  let none := bool_decide (Workflows p = []) in
  if negb none || negb (is_empty (WorkflowEvent p)) || negb (is_empty (WorkflowActor p)) ||
     negb (is_empty (WorkflowRef p)) then
    fail_if (is_empty (pool_Repository p)) (pool_error p ".workflows requires repository") ;?
    fail_if (none || is_empty (WorkflowEvent p) || is_empty (WorkflowActor p) || is_empty (WorkflowRef p))
      (pool_error p " workflow authorization requires workflows, workflow_event, workflow_actor, and workflow_ref") ;?
    each_new id (check_workflow p) [] (Workflows p) ;?
    fail_if (contains_any (WorkflowEvent p) blank_chars)
      (pool_error p ".workflow_event must not contain whitespace") ;?
    fail_if (contains_any (WorkflowActor p) (blank_chars +:+ "/"))
      (pool_error p ".workflow_actor must be one GitHub login") ;?
    fail_if (contains_any (WorkflowRef p) blank_chars)
      (pool_error p ".workflow_ref must not contain whitespace")
  else None.

Section validate.
Context `{MapRange} (manifest : Manifest).

(** One pool; [dup] says its name was seen before. *)
Definition check_pool (c : Config) (ip : nat * Pool) (dup : bool) : option goerror :=
  let '(i, p) := ip in
  fail_if (is_empty (Name p)) (errorf ("pools[" +:+ format_int (Z.of_nat i) +:+ "].name is required")) ;?
  fail_if dup (errorf ("duplicate pool name " +:+ quote (Name p))) ;?
  fail_if (negb (String.eqb (OS p) "linux") && negb (String.eqb (OS p) "windows"))
    (pool_error p (".os must be linux|windows, got " +:+ quote (OS p))) ;?
  (if String.eqb (Backend p) "qemu" then
     fail_if (is_empty (Golden (pool_QEMU p)))
       (pool_error p ".qemu.golden is required for backend: qemu") ;?
     match ValidateToolSelectors manifest (Tools (pool_QEMU p)) with
     | Some e => Some (errorf_w ("pools[" +:+ quote (Name p) +:+ "].qemu.tools: ") e)
     | None => None
     end
   else fail_if (is_empty (Host (pool_Docker p))) (pool_error p ".docker.host is required")) ;?
  check_docker p ;?
  fail_if (Size p <? 1) (pool_error p ".size must be >= 1") ;?
  check_repository c p ;?
  check_workflows p ;?
  validateContainerConfig p ;?
  fail_if (IsScaleset (cfg_Provisioning c) && is_empty (ScaleSet p))
    (pool_error p ".scale_set is required for provisioning: scaleset") ;?
  validateImageTier manifest p.

(** The pools with their indices. *)
Definition indexed (ps : list Pool) : list (nat * Pool) := imap pair ps.

(** [key] of the shared workspaces; the zero byte separates its parts. *)
Definition workspace_key (p : Pool) : string :=
  to_lower (Host (pool_Docker p)) +:+ String "000" (to_lower (WorkFolder p)).

(** A loop over the pools that reports the pool seen before with the same key. *)
Fixpoint check_shared (key : Pool → string) (msg : string → Pool → goerror)
    (seen : list (string * string)) (ps : list Pool) : option goerror :=
  match ps with
  | [] => None
  | p :: ps =>
      match list_find (λ kn, kn.1 = key p) seen with
      | Some (_, (_, previous)) => Some (msg previous p)
      | None => check_shared key msg ((key p, Name p) :: seen) ps
      end
  end.

Definition Validate (c : Config) : option goerror :=
  check_scope c ;?
  check_auth c ;?
  fail_if (bool_decide (Pools c = []))
    (errorf ("at least one pool is required; `connect` writes credentials only. Add one, for example:" +:+
             String "010" (String "010" ExamplePoolYAML))) ;?
  each_new (λ ip, Name ip.2) (check_pool c) [] (indexed (Pools c)) ;?
  check_shared workspace_key (λ previous p,
      errorf ("pools[" +:+ quote previous +:+ "] and pools[" +:+ quote (Name p) +:+
        "] share docker.host " +:+ quote (Host (pool_Docker p)) +:+ " and work_folder " +:+
        quote (WorkFolder p) +:+ " with docker.share_workspace enabled"))
    [] (filter (λ p, ShareWorkspace (pool_Docker p)) (Pools c)) ;?
  (if IsScaleset (cfg_Provisioning c) then
     check_shared ScaleSet (λ prev p,
         errorf ("pools[" +:+ quote prev +:+ "] and pools[" +:+ quote (Name p) +:+ "] share scale_set " +:+
           quote (ScaleSet p) +:+ "; each pool needs its own"))
       [] (Pools c)
   else None).

(** [Load], from the decoded file on. *)
Definition Load (env : gmap string string) (decoded : Config) : result Config :=
  let c := applyDefaults (resolveSecrets env decoded) in
  match Validate c with Some e => Err e | None => Ok c end.
End validate.
