(* ===== verification/ConfigSpec.v ===== *)
(** * What a loaded configuration guarantees

    Properties of [Config.Load]: resource limits, identities, repository
    lists, job authorisation and image references. *)

From S2P Require Import Prelude GoErr GoStr NetIP ImageVersions BakePlan Config.

Local Open Scope Z_scope.
Local Open Scope go_scope.

(** ** The grammar of a local image tier *)

(** One or more lower-case letters and digits. *)
Definition tier_run (w : string) : Prop := w ≠ "" ∧ ∀ c, str_mem c w = true → tier_word c = true.

(** ['.'], ['_'], two underscores, or one or more dashes. *)
Inductive tier_sep : string → Prop :=
| sep_dot : tier_sep "."
| sep_underscore : tier_sep "_"
| sep_underscores : tier_sep "__"
| sep_dash : tier_sep "-"
| sep_dashes s : tier_sep (String "-" s) → tier_sep (String "-" (String "-" s)).

Inductive tier_grammar : string → Prop :=
| tier_one w : tier_run w → tier_grammar w
| tier_more w sep t : tier_run w → tier_sep sep → tier_grammar t → tier_grammar (w +:+ sep +:+ t).

(** What the automaton still accepts from each state. *)
Definition tier_rest (st : tier_state) (s : string) : Prop :=
  match st with
  | TStart => tier_grammar s
  | TWord => (∀ c, str_mem c s = true → tier_word c = true) ∨
             ∃ w sep t, s = w +:+ sep +:+ t ∧ (∀ c, str_mem c w = true → tier_word c = true) ∧
               tier_sep sep ∧ tier_grammar t
  | TUnderscore => tier_grammar s ∨ ∃ t, s = String "_" t ∧ tier_grammar t
  | TDash => ∃ ds t, s = ds +:+ t ∧ (ds = "" ∨ tier_sep ds ∧ has_prefix "-" ds = true) ∧ tier_grammar t
  end.

Lemma tier_word_cases c : tier_word c = true → c ≠ "."%char ∧ c ≠ "_"%char ∧ c ≠ "-"%char.
Proof. by destruct c as [[] [] [] [] [] [] [] []]. Qed.

Lemma tier_start_word c s : tier_word c = true →
  tier_grammar (String c s) ↔ tier_rest TWord s.
Proof.
  intros Hc. split.
  - intros Hg. inversion Hg as [w Hrun Heq|w sep t Hrun Hsep Ht Heq].
    + subst w. left. intros d Hd. apply Hrun. simpl. by rewrite Hd, orb_true_r.
    + right. destruct Hrun as [Hne Hw]. destruct w as [|d w]; [done|]. injection Heq as -> <-.
      exists w, sep, t. split_and!; try done. intros e He. apply Hw. simpl. by rewrite He, orb_true_r.
  - assert (∀ w, (∀ d, str_mem d w = true → tier_word d = true) → tier_run (String c w)) as Hrun.
    { intros w Hw. split; [done|]. intros d. simpl. rewrite orb_true_iff, Ascii.eqb_eq. naive_solver. }
    intros [Hw|(w & sep & t & -> & Hw & Hsep & Ht)]; [by apply tier_one, Hrun|].
    apply (tier_more (String c w)); auto.
Qed.

Lemma tier_head s : tier_grammar s → ∃ c s', s = String c s' ∧ tier_word c = true.
Proof.
  assert (∀ w r, tier_run w → ∃ c s', w +:+ r = String c s' ∧ tier_word c = true) as Hrun.
  { intros [|c w] r [? Hw]; [done|]. exists c, (w +:+ r). split; [done|]. apply Hw. simpl.
    by rewrite Ascii.eqb_refl. }
  intros [w Hw|w sep t Hw _ _]; [rewrite <-(str_app_nil_r w)|]; by apply Hrun.
Qed.

(** A run of dashes. *)
Definition dashes (ds : string) : Prop := ds = "" ∨ tier_sep ds ∧ has_prefix "-" ds = true.

Lemma tier_sep_cases sep : tier_sep sep ↔
  sep = "." ∨ sep = "_" ∨ sep = "__" ∨ ∃ ds, sep = String "-" ds ∧ dashes ds.
Proof.
  split.
  - intros Hs. destruct Hs as [| | | |s' Hs']; [auto..| |].
    + do 3 right. exists "". split; [done|by left].
    + do 3 right. exists (String "-" s'). split; [done|by right].
  - intros [->|[->|[->|(ds & -> & [->|[Hs Hp]])]]]; try constructor.
    destruct ds as [|c ds]; [done|]. cbn [has_prefix] in Hp. rewrite andb_true_r in Hp.
    apply Ascii.eqb_eq in Hp as <-. by constructor.
Qed.

Lemma dashes_cons ds c s t : dashes ds → String c s = ds +:+ t → c ≠ "-"%char → ds = "".
Proof.
  intros [->|[_ Hp]]; [done|]. destruct ds as [|d ds]; [done|]. cbn [has_prefix] in Hp.
  rewrite andb_true_r in Hp. apply Ascii.eqb_eq in Hp as <-. intros [= -> _] ?. done.
Qed.

Lemma not_tier_grammar c s : tier_word c = false → ¬ tier_grammar (String c s).
Proof. intros Hc (d & s' & [= -> ->] & Hd)%tier_head. congruence. Qed.

Lemma words_cons c w : tier_word c = true →
  (∀ d, str_mem d w = true → tier_word d = true) →
  ∀ d, str_mem d (String c w) = true → tier_word d = true.
Proof. intros Hc Hw d. simpl. rewrite orb_true_iff, Ascii.eqb_eq. naive_solver. Qed.

(** A word character keeps the automaton inside a word. *)
Lemma tier_word_cons c s : tier_word c = true → tier_rest TWord (String c s) ↔ tier_rest TWord s.
Proof.
  intros Hc. destruct (tier_word_cases c Hc) as (Hdot & Hus & Hda). cbn [tier_rest]. split.
  - intros [Hw|(w & sep & t & E & Hw & Hsep & Ht)].
    + left. intros d Hd. apply Hw. simpl. by rewrite Hd, orb_true_r.
    + right. destruct w as [|e w]; simpl in E.
      * exfalso. apply tier_sep_cases in Hsep as [->|[->|[->|(ds & -> & _)]]]; simpl in E; congruence.
      * injection E as <- ->. exists w, sep, t. split_and!; try done.
        intros d Hd. apply Hw. simpl. by rewrite Hd, orb_true_r.
  - intros [Hw|(w & sep & t & -> & Hw & Hsep & Ht)]; [left; by apply words_cons|right].
    exists (String c w), sep, t. split_and!; try done. by apply words_cons.
Qed.

(** The end of a word: a separator and the rest. *)
Lemma tier_word_end c s : tier_word c = false →
  tier_rest TWord (String c s) ↔ ∃ sep t, String c s = sep +:+ t ∧ tier_sep sep ∧ tier_grammar t.
Proof.
  intros Hc. cbn [tier_rest]. split.
  - intros [Hw|(w & sep & t & E & Hw & Hsep & Ht)].
    + specialize (Hw c). simpl in Hw. rewrite Ascii.eqb_refl in Hw. by rewrite Hw in Hc.
    + destruct w as [|e w]; [by exists sep, t|]. injection E as <- _. specialize (Hw c). simpl in Hw.
      rewrite Ascii.eqb_refl in Hw. by rewrite Hw in Hc.
  - intros (sep & t & -> & ? & ?). right. by exists "", sep, t.
Qed.

(** After a word: the step a separator takes. *)
Lemma tier_word_step c s : tier_word c = false →
  tier_rest TWord (String c s) ↔ ∃ st', tier_step TWord c = Some st' ∧ tier_rest st' s.
Proof.
  intros Hc. unfold tier_step. rewrite Hc.
  rewrite tier_word_end by done. setoid_rewrite tier_sep_cases.
  destruct (Ascii.eqb_spec c ".") as [->|Hdot]; [|destruct (Ascii.eqb_spec c "_") as [->|Hus];
    [|destruct (Ascii.eqb_spec c "-") as [->|Hda]]]; cbn [tier_rest].
  - split.
    + intros (sep & t & E & [->|[->|[->|(ds & -> & _)]]] & Ht); simplify_eq/=. eauto.
    + intros (st' & [= <-] & Ht). exists ".", s. auto.
  - split.
    + intros (sep & t & E & [->|[->|[->|(ds & -> & _)]]] & Ht); simplify_eq/=;
         exists TUnderscore; split; try done; simpl; eauto.
    + intros (st' & [= <-] & [Ht|(t & -> & Ht)]); [exists "_", s|exists "__", t]; split_and!; auto.
  - split.
    + intros (sep & t & E & [->|[->|[->|(ds & -> & Hds)]]] & Ht); simplify_eq/=.
       exists TDash. split; [done|]. by exists ds, t.
    + intros (st' & [= <-] & (ds & t & -> & Hds & Ht)). exists (String "-" ds), t. eauto 10.
  - split; [|by intros (? & ? & ?)].
    intros (sep & t & E & [->|[->|[->|(ds & -> & _)]]] & Ht); simplify_eq/=.
Qed.

(** The automaton accepts what its states promise, character by character. *)
Lemma tier_rest_cons st c s :
  tier_rest st (String c s) ↔ ∃ st', tier_step st c = Some st' ∧ tier_rest st' s.
Proof.
  unfold tier_step. destruct (tier_word c) eqn:Hc.
  - assert (tier_rest st (String c s) ↔ tier_rest TWord s) as ->; [|naive_solver].
    destruct (tier_word_cases c Hc) as (Hdot & Hus & Hda). rewrite <-(tier_start_word c s Hc).
    destruct st; cbn [tier_rest]; [done|rewrite tier_start_word by done; by apply tier_word_cons| |].
    + split; [intros [?|(t & [=] & _)]; congruence|auto].
    + split; [|intros; exists "", (String c s); split_and!; [done|by left|done]].
      intros (ds & t & E & Hds & Ht). rewrite (dashes_cons ds c s t Hds E Hda) in E. simpl in E. by subst t.
  - pose proof (not_tier_grammar c s Hc) as Hn. destruct st.
    + cbn [tier_rest]. split; [done|by intros (? & ? & ?)].
    + pose proof (tier_word_step c s Hc) as Hs. unfold tier_step in Hs. by rewrite Hc in Hs.
    + destruct (Ascii.eqb_spec c "_") as [->|Hus]; cbn [tier_rest].
      * split; [intros [?|(t & [= <-] & Ht)]; [done|eauto]|].
        intros (st' & [= <-] & Ht). right. eauto.
      * split; [intros [?|(t & [=] & _)]; congruence|by intros (? & ? & ?)].
    + destruct (Ascii.eqb_spec c "-") as [->|Hda]; cbn [tier_rest].
      * split.
        -- intros (ds & t & E & [->|[Hs Hp]] & Ht); [simpl in E; by subst t|].
           apply tier_sep_cases in Hs as [->|[->|[->|(ds' & -> & Hds)]]]; simplify_eq/=.
           exists TDash. split; [done|]. by exists ds', t.
        -- intros (st' & [= <-] & (ds & t & -> & Hds & Ht)). exists (String "-" ds), t.
           split_and!; [done| |done]. right. rewrite tier_sep_cases. eauto 8.
      * split; [|by intros (? & ? & ?)]. intros (ds & t & E & Hds & Ht).
        rewrite (dashes_cons ds c s t Hds E Hda) in E. simpl in E. by subst t.
Qed.

Lemma tier_match_rest s : ∀ st, tier_match st s = true ↔ tier_rest st s.
Proof.
  induction s as [|c s IH]; intros st.
  - assert (¬ tier_grammar "") as Hn by (by intros (?&?&[=]&_)%tier_head).
    destruct st; cbn [tier_match tier_rest]; split; try done; try (by intros; left).
    + intros [?|(?&[=]&_)]. done.
    + intros (ds & t & E & _ & Ht). destruct ds; [simpl in E; by subst t|done].
  - rewrite tier_rest_cons. cbn [tier_match]. destruct (tier_step st c) as [st'|].
    + rewrite IH. naive_solver.
    + naive_solver.
Qed.

Lemma localImageTierPattern_iff s : localImageTierPattern s = true ↔ tier_grammar s.
Proof. apply (tier_match_rest s TStart). Qed.

(** ** Inversion of the checks *)

Section load.
Context `{MapRange} (manifest : Manifest).

Lemma load_inv env d c : Load manifest env d = Ok c →
  c = applyDefaults (resolveSecrets env d) ∧ Validate manifest c = None.
Proof. unfold Load. case_match; [done|]. by intros [= <-]. Qed.

Lemma check_pool_dup c ip : check_pool manifest c ip true ≠ None.
Proof. destruct ip as [i p]. unfold check_pool. rewrite !and_then_None. intros (_ & Hd & _). done. Qed.

Lemma validate_inv c : Validate manifest c = None →
  check_scope c = None ∧ check_auth c = None ∧ Pools c ≠ [] ∧ NoDup (Name <$> Pools c) ∧
  (∀ p, p ∈ Pools c → ∃ i, check_pool manifest c (i, p) false = None).
Proof.
  unfold Validate. autorewrite with gorw. intros (Hs & Ha & Hp & Hn & _).
  apply each_new_start in Hn as [Hc Hnd]; [|apply check_pool_dup].
  unfold indexed in *. rewrite fmap_imap in Hnd. split_and!; try done.
  - by intros E; rewrite E in Hp.
  - change (NoDup (imap (const Name) (Pools c))) in Hnd. by rewrite imap_const in Hnd.
  - intros p [i Hi]%list_elem_of_lookup. exists i. apply (Hc (i, p)). by apply (elem_of_lookup_imap_2 pair).
Qed.

Lemma load_pool env d c p : Load manifest env d = Ok c → p ∈ Pools c →
  ∃ i, check_pool manifest c (i, p) false = None.
Proof. intros [_ (_&_&_&_&Hp)%validate_inv]%load_inv. apply Hp. Qed.
End load.

(** ** Resources *)

Lemma mul_bound n u m : 0 < u → 0 ≤ n ≤ m / u → 0 ≤ n * u ≤ m.
Proof. intros Hu Hn. split; [nia|]. pose proof (Z.mul_div_le m u Hu). nia. Qed.

Lemma wrap64_mul n u : 0 < u → 0 ≤ n ≤ int64_max / u → wrap64 (n * u) = n * u ∧ 0 ≤ n * u ≤ int64_max.
Proof.
  intros Hu Hn. pose proof (mul_bound n u int64_max Hu Hn). split; [|done]. apply wrap64_id.
  unfold int64_min in *. lia.
Qed.

Section load_facts.
Context `{MapRange} (manifest : Manifest).

(** In a loaded configuration the backend representations of a pool's
    limits do not overflow: they are the configured quantities scaled, within
    64 bits and never negative.  A total memory-plus-swap limit comes with a
    memory limit it does not undercut, and only off Windows; a QEMU pool has
    no container limits. *)
Theorem load_resource_bounds env d c p (Hload : Load manifest env d = Ok c) (Hp : p ∈ Pools c) :
  let k := Container p in
  NanoCPUs k = cc_CPUs k * 1000000000 ∧ MemoryBytes k = MemoryMB k * 1048576 ∧
  MemorySwapBytes k = MemorySwapMB k * 1048576 ∧
  0 ≤ NanoCPUs k ≤ int64_max ∧ 0 ≤ MemoryBytes k ≤ int64_max ∧ 0 ≤ MemorySwapBytes k ≤ int64_max ∧
  (MemorySwapBytes k ≠ 0 → 0 < MemoryBytes k ≤ MemorySwapBytes k ∧ OS p = "linux") ∧
  (Backend p = "qemu" → NanoCPUs k = 0 ∧ MemoryBytes k = 0 ∧ DNS k = []) ∧
  (∀ server, server ∈ DNS k → ParseIP server ≠ None).
Proof.
  destruct (load_pool manifest env d c p Hload Hp) as [i Hc].
  unfold check_pool in Hc. rewrite !and_then_None in Hc. destruct Hc as (_&_&Hos&_&_&_&_&_&Hc&_).
  unfold validateContainerConfig in Hc. rewrite !and_then_None, !fail_if_None, each_None in Hc.
  apply fail_if_None in Hos. destruct Hc as (H1&H2&H3&H4&H5&H6&H7&H8&H9&H10&_&H12).
  apply Z.ltb_ge in H1, H2, H3, H4, H5, H6. set (k := Container p) in *.
  destruct (wrap64_mul (cc_CPUs k) nanosPerCPU) as [Ec Bc]; [done|by split|].
  destruct (wrap64_mul (MemoryMB k) bytesPerMiB) as [Em Bm]; [done|by split|].
  destruct (wrap64_mul (MemorySwapMB k) bytesPerMiB) as [Es Bs]; [done|by split|].
  cbv zeta. unfold NanoCPUs, MemoryBytes, MemorySwapBytes. rewrite Ec, Em, Es.
  unfold nanosPerCPU, bytesPerMiB in *. split_and!; try lia.
  - intros Hne. assert ((MemorySwapMB k =? 0) = false) as Hz by (apply Z.eqb_neq; lia).
    rewrite Hz in H7, H8, H10. cbn [negb andb] in H7, H8, H10.
    apply Z.eqb_neq in H7. apply Z.ltb_ge in H8. split; [lia|].
    rewrite andb_true_r in H10. rewrite H10, andb_true_r in Hos. by apply negb_false_iff, String.eqb_eq in Hos.
  - intros Hb. rewrite Hb in H9. unfold configured in H9. simpl in H9.
    rewrite !orb_false_iff, !negb_false_iff, !Z.eqb_eq, bool_decide_eq_true in H9.
    destruct H9 as [[[-> ->] _] ->]. done.
  - intros server Hs. specialize (H12 server Hs). apply fail_if_None, bool_decide_eq_false in H12. done.
Qed.

(** ** Identities *)

Lemma check_shared_None key msg seen ps :
  check_shared key msg seen ps = None → NoDup (key <$> ps) ∧ ∀ p, p ∈ ps → key p ∉ seen.*1.
Proof.
  revert seen. induction ps as [|p ps IH]; intros seen; cbn [check_shared].
  { intros _. split; [constructor|by intros ? ?%elem_of_nil]. }
  destruct (list_find _ seen) as [[? [? ?]]|] eqn:E; [done|]. intros Hn.
  destruct (IH _ Hn) as [Hnd Hk]. apply list_find_None in E. rewrite Forall_forall in E. split.
  - rewrite fmap_cons. apply NoDup_cons. split; [|done]. intros (q & Hq & Hin)%list_elem_of_fmap.
    apply (Hk q Hin). rewrite fmap_cons, <-Hq. left.
  - intros q [->|Hq]%elem_of_cons.
    + intros (kn & Hkn & Hin)%list_elem_of_fmap. by apply (E kn Hin).
    + intros Hin. apply (Hk q Hq). rewrite fmap_cons. by right.
Qed.

Lemma NoDup_fmap_through {A B C} (f : A → B) (g : B → C) l : NoDup ((g ∘ f) <$> l) → NoDup (f <$> l).
Proof. rewrite list_fmap_compose. apply NoDup_fmap_1. Qed.

(** The pools of a loaded configuration can be told apart: at least one
    pool, names non-empty and distinct; under scale-set provisioning every
    pool has a scale set of its own, and no repository list; and no two pools
    that share their workspace with a Docker daemon use the same daemon and
    folder, each of them being a single Linux slot. *)
Theorem load_identities env d c (Hload : Load manifest env d = Ok c) :
  Pools c ≠ [] ∧ NoDup (Name <$> Pools c) ∧ "" ∉ Name <$> Pools c ∧
  (IsScaleset (cfg_Provisioning c) = true →
     NoDup (ScaleSet <$> Pools c) ∧ "" ∉ ScaleSet <$> Pools c ∧ gh_Scope (cfg_GitHub c) ≠ ScopeRepos) ∧
  let shared := filter (λ p, ShareWorkspace (pool_Docker p)) (Pools c) in
  NoDup ((λ p, (to_lower (Host (pool_Docker p)), to_lower (WorkFolder p))) <$> shared) ∧
  (∀ p, p ∈ shared → Size p = 1 ∧ OS p = "linux" ∧ str_mem "/" (WorkFolder p) = false).
Proof.
  destruct (load_inv _ _ _ _ Hload) as [_ Hv]. pose proof (validate_inv _ _ Hv) as (_ & Ha & Hne & Hnd & Hp).
  unfold Validate in Hv. rewrite !and_then_None in Hv. destruct Hv as (_&_&_&_&Hw&Hss).
  split_and!; [done|done| | |].
  - intros (p & Hn & Hin)%list_elem_of_fmap. destruct (Hp p Hin) as [i Hc].
    unfold check_pool in Hc. rewrite !and_then_None, !fail_if_None in Hc. destruct Hc as (Hc&_).
    apply is_empty_false in Hc. congruence.
  - intros Hs. rewrite Hs in Hss. apply check_shared_None in Hss as [Hss _]. split_and!; [done| |].
    + intros (p & Hn & Hin)%list_elem_of_fmap. destruct (Hp p Hin) as [i Hc].
      unfold check_pool in Hc. rewrite !and_then_None, !fail_if_None in Hc.
      destruct Hc as (_&_&_&_&_&_&_&_&_&Hc&_). rewrite Hs in Hc. cbn [andb] in Hc.
      apply is_empty_false in Hc. congruence.
    + intros E. unfold check_auth in Ha. rewrite !and_then_None, !fail_if_None in Ha.
      destruct Ha as (_&Ha&_). by rewrite Hs, E in Ha.
  - cbv zeta. apply check_shared_None in Hw as [Hw _]. split.
    + eapply (NoDup_fmap_through _ (λ hf, hf.1 +:+ String "000" hf.2)). exact Hw.
    + intros p [Hsh Hin]%list_elem_of_filter. apply Is_true_true in Hsh. destruct (Hp p Hin) as [i Hc].
      unfold check_pool, check_docker in Hc. rewrite !and_then_None in Hc.
      destruct Hc as (_&_&_&_&(_&Hc)&_). rewrite Hsh, !and_then_None, !fail_if_None in Hc.
      destruct Hc as (_&Hos&Hwf&Hsz). rewrite orb_false_iff, !negb_false_iff, String.eqb_eq in Hos.
      apply negb_false_iff, Z.eqb_eq in Hsz. rewrite orb_false_iff in Hwf. split_and!; [done|tauto|].
      apply (contains_any_false _ "/\"); [tauto|done].
Qed.

(** ** Repositories *)

(** No blank and not empty. *)
Definition plain (s : string) : Prop := s ≠ "" ∧ ∀ c, str_mem c blank_chars = true → str_mem c s = false.

(** An entry of [github.repos]: [repo] or [owner/repo]. *)
Definition repo_entry (entry : string) : Prop :=
  (str_mem "/" entry = false ∧ plain entry) ∨
  ∃ owner repo, entry = owner +:+ "/" +:+ repo ∧ plain owner ∧ plain repo ∧
    str_mem "/" owner = false ∧ str_mem "/" repo = false.

Lemma check_repo_ok owner app seen ao entry seen' ao' :
  check_repo owner app (seen, ao) entry = Ok (seen', ao') →
  let ref := ParseRepoRef entry owner in let key := to_lower (slug ref) in
  repo_entry entry ∧ ref_Owner ref ≠ "" ∧ ref_Repo ref ≠ "" ∧ key ∉ seen ∧ seen' = key :: seen ∧
  (app = true → fold_eq ao' (ref_Owner ref) ∧ (ao = "" ∨ ao' = ao) ∧ ao' ≠ "").
Proof.
  unfold check_repo. cbv zeta. case_match eqn:E; [done|]. intros [= <- <-].
  rewrite !and_then_None, !fail_if_None, each_None in E. destruct E as (E1 & E2 & E3 & E4 & E5).
  rewrite orb_false_iff in E1, E3. rewrite !is_empty_false in *. destruct E1 as [El Ene], E3 as [Eo Er].
  apply Nat.ltb_ge in El. split_and!; [|done|done| |done|].
  - assert (∀ part, part ∈ split "/" entry → plain part) as Hpart.
    { intros part Hin. specialize (E2 part Hin). apply fail_if_None in E2. rewrite !orb_false_iff in E2.
      destruct E2 as [[Hp _] Hb]. split; [by apply is_empty_false|]. intros c Hc. by eapply contains_any_false. }
    pose proof (join_split "/" entry) as Hj. pose proof (split_mem "/" entry) as Hm.
    destruct (split "/" entry) as [|a [|b [|? ?]]] eqn:Es; simpl in El; try lia.
    + exfalso. by eapply split_nonnil.
    + left. simpl in Hj. subst a. split; [apply Hm; left|apply Hpart; left].
    + right. exists a, b. split_and!; [by rewrite <-Hj| | | |];
        [apply Hpart; left|apply Hpart; right; left|apply Hm; left|apply Hm; right; left].
  - by unfold bool_mem in E4; apply bool_decide_eq_false in E4.
  - intros ->. simpl in *. unfold is_empty in *. destruct (String.eqb_spec ao "") as [->|Hao].
    + split_and!; [reflexivity|by left|done].
    + simpl in E5. apply negb_false_iff in E5. split_and!; [done|by right|done].
Qed.

Lemma check_repos_ok owner app entries : ∀ seen ao seen' ao',
  each_with (check_repo owner app) (seen, ao) entries = Ok (seen', ao') →
  let refs := (λ e, ParseRepoRef e owner) <$> entries in
  Forall repo_entry entries ∧ Forall (λ r, ref_Owner r ≠ "" ∧ ref_Repo r ≠ "") refs ∧
  NoDup ((λ r, to_lower (slug r)) <$> refs) ∧
  (∀ r, r ∈ refs → to_lower (slug r) ∉ seen) ∧
  (app = true → ∃ o, (ao = "" ∨ o = ao) ∧ ∀ r, r ∈ refs → fold_eq o (ref_Owner r)).
Proof.
  induction entries as [|e entries IH]; intros seen ao seen' ao'; cbn [each_with fmap list_fmap]; cbv zeta.
  { intros _. split_and!; try constructor; [by intros ? ?%elem_of_nil|].
    exists ao. split; [by right|by intros ? ?%elem_of_nil]. }
  destruct (check_repo owner app (seen, ao) e) as [[seen1 ao1]|] eqn:E; [|done]. intros Hr.
  apply check_repo_ok in E as (He & Ho & Hrr & Hk & -> & Happ).
  destruct (IH _ _ _ _ Hr) as (Hes & Hrs & Hnd & Hseen & Hown). rewrite !Forall_cons.
  setoid_rewrite elem_of_cons. split_and!; try done.
  - apply NoDup_cons. split; [|done]. intros (r & Hr' & Hin)%list_elem_of_fmap.
    apply (Hseen r Hin). rewrite <-Hr'. left.
  - intros r [->|Hin]; [done|]. specialize (Hseen r Hin). rewrite not_elem_of_cons in Hseen. tauto.
  - intros Ha. destruct (Happ Ha) as (Hf & Hao & Hne). destruct (Hown Ha) as (o & Ho1 & Hall).
    assert (o = ao1) as -> by (by destruct Ho1). exists ao1. split; [by destruct Hao as [?| ->]; auto|].
    intros r [->|Hin]; [done|by apply Hall].
Qed.

(** C37: under [scope: repos] a loaded configuration names real, distinct
    repositories: every entry is [repo] or [owner/repo] without blanks,
    resolves to a non-empty owner and name, no two of them are the same
    repository up to case, and with GitHub App authentication all belong to
    one account. *)
Theorem load_repositories env d c (Hload : Load manifest env d = Ok c)
    (Hscope : gh_Scope (cfg_GitHub c) = ScopeRepos) :
  let refs := RepoTargets (cfg_GitHub c) in
  refs ≠ [] ∧ Forall repo_entry (gh_Repos (cfg_GitHub c)) ∧
  Forall (λ r, ref_Owner r ≠ "" ∧ ref_Repo r ≠ "") refs ∧
  NoDup ((λ r, to_lower (slug r)) <$> refs) ∧
  (IsApp (cfg_Auth c) = true → ∀ r r', r ∈ refs → r' ∈ refs → fold_eq (ref_Owner r) (ref_Owner r')).
Proof.
  destruct (load_inv _ _ _ _ Hload) as [_ (Hs&_)%validate_inv].
  unfold check_scope, RepoTargets in *. rewrite Hscope in *. simpl in *.
  rewrite and_then_None, fail_if_None, bool_decide_eq_false in Hs. destruct Hs as [Hne Hs].
  destruct (each_with _ _ _) as [[seen ao]|] eqn:E; [|done]. clear Hs.
  destruct (check_repos_ok _ _ _ _ _ _ _ E) as (He & Hr & Hnd & _ & Happ).
  unfold ResolvedRepos. split_and!; try done.
  - by destruct (gh_Repos (cfg_GitHub c)).
  - intros Ha r r' Hin Hin'. destruct (Happ Ha) as (o & _ & Hall).
    transitivity o; [symmetry|]; by apply Hall.
Qed.

(** ** Job authorisation *)

Lemma CanServeJob_iff p target workflow event actor ref :
  CanServeJob p target workflow event actor ref = true ↔
  (pool_Repository p = "" ∨ fold_eq (pool_Repository p) target) ∧
  (Workflows p = [] ∨ fold_eq (WorkflowEvent p) event ∧ fold_eq (WorkflowActor p) actor ∧
     fold_eq (WorkflowRef p) ref ∧ workflow ∈ Workflows p).
Proof.
  assert (CanServeRepository p target = true ↔ pool_Repository p = "" ∨ fold_eq (pool_Repository p) target)
    as Hr by (unfold CanServeRepository, fold_eq, is_empty; by rewrite orb_true_iff, String.eqb_eq).
  unfold CanServeJob. rewrite <-Hr. clear Hr.
  destruct (CanServeRepository p target); cbn [negb]; [|split; [done|by intros [? _]]].
  case_bool_decide as Hw; [split; auto|].
  assert (∀ a b c d, (if negb a || negb b || negb c then false else d) = a && b && c && d) as ->
    by (by intros [] [] [] []).
  rewrite !andb_true_iff, existsb_exists. setoid_rewrite <-list_elem_of_In. setoid_rewrite String.eqb_eq.
  assert ((∃ x, x ∈ Workflows p ∧ workflow = x) ↔ workflow ∈ Workflows p) as -> by naive_solver.
  unfold fold_eq. tauto.
Qed.


(** ** Images *)

(** The image a loaded container pool starts from is the configured one,
    a published tag, or a local build whose tier is a Docker path component
    of at most 64 characters: words of lower-case letters and digits between
    single separators. *)
Theorem load_image_reference env d c p (Hload : Load manifest env d = Ok c) (Hp : p ∈ Pools c)
    (Hb : Backend p ≠ "qemu") :
  let base := "gerardsmit/multirunner-runner-" +:+ OS p in
  (Image p ≠ "" ∧ ImageRef manifest p = Image p) ∨
  (Image p = "" ∧ ImageTier p = "minimal" ∧ ImageRef manifest p = base +:+ ":latest") ∨
  (Image p = "" ∧ ∃ tag, publishedFlavors manifest (OS p) !! ImageTier p = Some tag ∧ tag ≠ "" ∧
     ImageRef manifest p = base +:+ ":" +:+ tag) ∨
  (Image p = "" ∧ tier_grammar (ImageTier p) ∧ (String.length (ImageTier p) ≤ 64)%nat ∧
     ImageRef manifest p = "multirunner/runner-" +:+ OS p +:+ "-" +:+ ImageTier p +:+ ":dev").
Proof.
  destruct (load_pool manifest env d c p Hload Hp) as [i Hc].
  unfold check_pool in Hc. rewrite !and_then_None in Hc. destruct Hc as (_&_&_&_&_&_&_&_&_&_&Hi).
  destruct (load_inv _ _ _ _ Hload) as [-> _]. cbn [applyDefaults Pools] in Hp.
  apply list_elem_of_fmap in Hp as (p0 & Hp0 & _).
  assert (ImageTier p ≠ "") as Hne.
  { rewrite Hp0. simpl. unfold or_string, is_empty. by destruct (String.eqb_spec (ImageTier p0) ""). }
  clear Hp0 p0. cbv zeta. unfold validateImageTier, ImageRef in *. apply String.eqb_neq in Hb. rewrite Hb in Hi.
  apply is_empty_false in Hne. rewrite Hne in *.
  destruct (is_empty (Image p)) eqn:Him; cbn [negb orb] in *; [|apply is_empty_false in Him; by left].
  apply String.eqb_eq in Him. right.
  destruct (String.eqb_spec (ImageTier p) "minimal") as [Hm|Hm]; cbn [orb] in *; [left|right].
  { by rewrite str_app_assoc. }
  assert ((if (String.length (ImageTier p) <=? 64)%nat && localImageTierPattern (ImageTier p) then True
    else False) → tier_grammar (ImageTier p) ∧ (String.length (ImageTier p) ≤ 64)%nat) as Hlocal.
  { destruct ((_ <=? 64)%nat && localImageTierPattern _) eqn:E; [|done]. apply andb_true_iff in E as [El Eg].
    by apply Nat.leb_le in El; apply localImageTierPattern_iff in Eg. }
  unfold published_tag, maxLocalImageTierLength in *.
  destruct (publishedFlavors manifest (OS p) !! ImageTier p) as [tag|] eqn:Et; cbn [from_option id] in *.
  - destruct (is_empty tag) eqn:Htag; cbn [negb] in *.
    + right. destruct ((_ <=? _)%nat && localImageTierPattern _); [|done]. split_and!; [done|by apply Hlocal..|done].
    + apply is_empty_false in Htag. left. split; [done|]. exists tag. by rewrite str_app_assoc.
  - right. change (is_empty "") with true in *. cbn [negb] in *.
    destruct ((_ <=? _)%nat && localImageTierPattern _); [|done]. split_and!; [done|by apply Hlocal..|done].
Qed.
End load_facts.

(** ** A configuration that loads *)

Definition sample_pool (name : string) (folder : string) (share : bool) (repo : string)
    (workflows : list string) (tier : string) : Pool :=
  {| Name := name; OS := "linux"; Backend := ""; Size := 1; ImageTier := tier; Image := "";
     Container := {| cc_CPUs := 4; MemoryMB := 2048; MemorySwapMB := 4096; DNS := ["8.8.8.8"] |};
     pool_QEMU := {| Golden := ""; WorkDir := ""; MemMB := 0; qemu_CPUs := 0; Accel := ""; BakeISO := "";
                     BakeISOSHA256 := ""; RunnerVersion := ""; RunnerSHA256 := ""; Licensed := false; Tools := [] |};
     pool_Containerd := {| Address := ""; Nerdctl := ""; Namespace := ""; cd_Isolation := "" |};
     RunnerGroupID := 0; Labels := ["self-hosted"]; pool_Repository := repo; Workflows := workflows;
     WorkflowEvent := if bool_decide (workflows = []) then "" else "push";
     WorkflowActor := if bool_decide (workflows = []) then "" else "octocat";
     WorkflowRef := if bool_decide (workflows = []) then "" else "refs/heads/main";
     WorkFolder := folder; NamePrefix := "";
     pool_Docker := {| Host := "tcp://127.0.0.1:2375"; TLS := {| CAFile := ""; CertFile := ""; KeyFile := "" |};
                       EnableDinD := share; ShareWorkspace := share; docker_Isolation := ""; WindowsDinD := "" |};
     pool_ToolCache := {| tc_Mode := ""; Volume := ""; ReadOnly := false |};
     MaxConsecutiveFailures := 0; ScaleSet := ""; RunnerGroup := "" |}.

Definition sample_config (scope prov : string) (repos : list string) (pools : list Pool) : Config :=
  {| cfg_GitHub := {| gh_URL := ""; gh_Scope := scope; gh_Owner := " acme "; gh_Repo := "app"; gh_Repos := repos |};
     cfg_Auth := {| PAT := "$TOKEN"; AppID := 0; InstallationID := 0; PrivateKeyPath := ""; ClientID := "";
                    TokenPath := "" |};
     cfg_Provisioning := prov;
     cfg_Cache := {| cache_Enabled := true; cache_Mode := ""; cache_Storage := ""; cache_Path := "/c";
                     cache_Listen := ""; cache_AdvertiseURL := ""; cache_ExternalURL := "";
                     cache_AccessToken := ""; SkipTokenValidation := false; cache_Upstream := "";
                     cache_MaxAgeDays := 0; MaxSizeGB := 0; GCIntervalSec := 0 |};
     cfg_GitCache := {| gc_Mode := "mirror"; gc_Path := "/g"; gc_MaxAgeDays := 0 |};
     cfg_Webhook := {| wh_Listen := ""; wh_Path := ""; wh_Secret := ""; PollIntervalSec := 0 |};
     cfg_Metrics := {| metrics_Listen := "" |};
     Pools := pools;
     cfg_Log := {| Level := ""; Format := "" |} |}.

Definition sample_env : gmap string string := {["TOKEN" := "ghp_x"]}.

Definition load_sample (scope prov : string) (repos : list string) (pools : list Pool) : result Config :=
  Load sample_manifest sample_env (sample_config scope prov repos pools).

(** The configuration [load_sample] ends with. *)
Definition loaded (scope prov : string) (repos : list string) (pools : list Pool) : Config :=
  applyDefaults (resolveSecrets sample_env (sample_config scope prov repos pools)).

Definition pool_a : Pool := sample_pool "a" "" true "" [] "go".
Definition pool_b : Pool := sample_pool "b" "work2" true "" [] "my-tier.2".
Definition pool_w : Pool := sample_pool "w" "" false "acme/app" [".github/workflows/ci.yml"] "".

Lemma load_resource_bounds_witness :
  let p := pool_defaults true pool_a in NanoCPUs (Container p) = 4 * 1000000000.
Proof.
  destruct (load_resource_bounds sample_manifest sample_env (sample_config "org" "" [] [pool_a; pool_b])
    (loaded "org" "" [] [pool_a; pool_b]) (pool_defaults true pool_a)) as [H _].
  - vm_compute. reflexivity.
  - vm_compute. left.
  - exact H.
Defined.

Lemma load_identities_witness : NoDup (Name <$> Pools (loaded "org" "" [] [pool_a; pool_b])).
Proof.
  destruct (load_identities sample_manifest sample_env (sample_config "org" "" [] [pool_a; pool_b])
    (loaded "org" "" [] [pool_a; pool_b])) as (_ & H & _).
  - vm_compute. reflexivity.
  - exact H.
Defined.

Lemma load_repositories_witness :
  RepoTargets (cfg_GitHub (loaded "repos" "" ["app"; "other/lib "] [pool_a])) ≠ [].
Proof.
  destruct (load_repositories sample_manifest sample_env (sample_config "repos" "" ["app"; "other/lib "] [pool_a])
    (loaded "repos" "" ["app"; "other/lib "] [pool_a])) as (H & _).
  - vm_compute. reflexivity.
  - reflexivity.
  - exact H.
Defined.


Lemma load_image_reference_witness :
  ImageRef sample_manifest (pool_defaults true pool_b) = "multirunner/runner-linux-my-tier.2:dev" ∧
  tier_grammar "my-tier.2".
Proof.
  destruct (load_image_reference sample_manifest sample_env (sample_config "org" "" [] [pool_a; pool_b])
    (loaded "org" "" [] [pool_a; pool_b]) (pool_defaults true pool_b))
    as [[H _]|[(_ & H & _)|[(_ & tag & H & _)|(_ & H & _ & E)]]].
  - vm_compute. reflexivity.
  - vm_compute. right. left.
  - vm_compute. discriminate.
  - exfalso. apply H. reflexivity.
  - exfalso. vm_compute in H. discriminate H.
  - exfalso. vm_compute in H. discriminate H.
  - split; [exact E | exact H].
Defined.
