(* ===== verification/Sha256.v ===== *)
(** * SHA-256 and HMAC

    [crypto/sha256] and [crypto/hmac] as the program uses them: the digest of
    FIPS 180-4 and the keyed digest of RFC 2104, on 32-bit words held in [Z]. *)

From S2P Require Import Prelude GoStr Codec.

Local Open Scope Z_scope.

Definition w32 (z : Z) : Z := z mod 2 ^ 32.
Definition rotr (n x : Z) : Z := Z.lor (Z.shiftr x n) (w32 (Z.shiftl x (32 - n))).
Definition xor3 (a b c : Z) : Z := Z.lxor a (Z.lxor b c).

Definition sha_k : list Z :=
  [1116352408; 1899447441; 3049323471; 3921009573; 961987163; 1508970993; 2453635748; 2870763221;
   3624381080; 310598401; 607225278; 1426881987; 1925078388; 2162078206; 2614888103; 3248222580;
   3835390401; 4022224774; 264347078; 604807628; 770255983; 1249150122; 1555081692; 1996064986;
   2554220882; 2821834349; 2952996808; 3210313671; 3336571891; 3584528711; 113926993; 338241895;
   666307205; 773529912; 1294757372; 1396182291; 1695183700; 1986661051; 2177026350; 2456956037;
   2730485921; 2820302411; 3259730800; 3345764771; 3516065817; 3600352804; 4094571909; 275423344;
   430227734; 506948616; 659060556; 883997877; 958139571; 1322822218; 1537002063; 1747873779;
   1955562222; 2024104815; 2227730452; 2361852424; 2428436474; 2756734187; 3204031479; 3329325298].

Definition sha_h : list Z :=
  [1779033703; 3144134277; 1013904242; 2773480762; 1359893119; 2600822924; 528734635; 1541459225].

(** Bytes of a string, and back. *)
Fixpoint bytes_of (s : string) : list Z :=
  match s with "" => [] | String c s => Z_of_ascii c :: bytes_of s end.
Definition string_of (l : list Z) : string := foldr (λ b, String (ascii_of_Z b)) "" l.

(** [n] bytes, most significant first. *)
Fixpoint be_bytes (n : nat) (z : Z) : list Z :=
  match n with O => [] | S n => z / 256 ^ Z.of_nat n mod 256 :: be_bytes n z end.

(** The message, a one bit, zeros, and its length in bits. *)
Definition sha_pad (m : list Z) : list Z :=
  let l := Z.of_nat (length m) in
  m ++ [128] ++ replicate (Z.to_nat ((55 - l) mod 64)) 0 ++ be_bytes 8 (8 * l).

Fixpoint words (l : list Z) : list Z :=
  match l with
  | a :: b :: c :: d :: l => ((a * 256 + b) * 256 + c) * 256 + d :: words l
  | _ => []
  end.

(** The message schedule, newest word first. *)
Fixpoint schedule (n : nat) (w : list Z) : list Z :=
  match n with
  | O => w
  | S n =>
      let at_ i := nth i w 0 in
      let s0 := xor3 (rotr 7 (at_ 14%nat)) (rotr 18 (at_ 14%nat)) (Z.shiftr (at_ 14%nat) 3) in
      let s1 := xor3 (rotr 17 (at_ 1%nat)) (rotr 19 (at_ 1%nat)) (Z.shiftr (at_ 1%nat) 10) in
      schedule n (w32 (at_ 15%nat + s0 + at_ 6%nat + s1) :: w)
  end.

(** One round. *)
Definition sha_round (st : list Z) (kw : Z * Z) : list Z :=
  match st with
  | [a; b; c; d; e; f; g; h] =>
      let s1 := xor3 (rotr 6 e) (rotr 11 e) (rotr 25 e) in
      let ch := Z.lxor (Z.land e f) (Z.land (Z.lxor e (2 ^ 32 - 1)) g) in
      let t1 := h + s1 + ch + kw.1 + kw.2 in
      let s0 := xor3 (rotr 2 a) (rotr 13 a) (rotr 22 a) in
      let maj := xor3 (Z.land a b) (Z.land a c) (Z.land b c) in
      [w32 (t1 + s0 + maj); a; b; c; w32 (d + t1); e; f; g]
  | _ => st
  end.

Definition sha_block (h block : list Z) : list Z :=
  let w := rev (schedule 48 (rev block)) in
  zip_with (λ x y, w32 (x + y)) h (foldl sha_round h (zip sha_k w)).

Fixpoint sha_blocks (n : nat) (h w : list Z) : list Z :=
  match n with
  | O => h
  | S n => sha_blocks n (sha_block h (take 16 w)) (drop 16 w)
  end.

(** [sha256.Sum256] on bytes. *)
Definition sha256_bytes (m : list Z) : list Z :=
  let w := words (sha_pad m) in
  sha_blocks (length w / 16) sha_h w ≫= be_bytes 4.

Definition sha256 (s : string) : string := string_of (sha256_bytes (bytes_of s)).

(** [hmac.New(sha256.New, key)] fed [msg]. *)
Definition hmac_sha256 (key msg : string) : string :=
  let k := bytes_of key in
  let k := if (64 <? length k)%nat then sha256_bytes k else k in
  let k := k ++ replicate (64 - length k) 0 in
  string_of (sha256_bytes ((Z.lxor 92 <$> k) ++ sha256_bytes ((Z.lxor 54 <$> k) ++ bytes_of msg))).

(** Test vectors of FIPS 180-4 and RFC 4231. *)
Example sha256_abc : hex_encode (sha256 "abc") =
  "ba7816bf8f01cfea414140de5dae2223b00361a396177a9cb410ff61f20015ad".
Proof. vm_compute. reflexivity. Qed.

Example hmac_jefe : hex_encode (hmac_sha256 "Jefe" "what do ya want for nothing?") =
  "5bdcc146bf60754e6a042426089575c75a003f089d2739839dec58b964ec3843".
Proof. vm_compute. reflexivity. Qed.
