(* ===== verification/Json.v ===== *)
(** * JSON

    What the program uses of [encoding/json]: a value's text, the checked
    parse of [json.Unmarshal] and of one value of a [json.Decoder], and the
    decoding of the parsed value into Go strings, integers, slices and
    structs, which skips a member of the wrong type, goes on, and reports the
    mismatch at the end.  Texts are taken as valid UTF-8, folding of member
    names as ASCII. *)

From S2P Require Import Prelude GoStr Codec.

Local Open Scope Z_scope.
#[local] Set Warnings "-register-all".

(** A parsed value; a number keeps its literal. *)
Inductive json :=
| JNull
| JBool (b : bool)
| JNum (lit : string)
| JStr (s : string)
| JArr (vs : list json)
| JObj (ms : list (string * json)).

(** ** Text *)

Definition dquote : ascii := "034".

Definition is_ws (c : ascii) : bool :=
  Ascii.eqb c " " || Ascii.eqb c "009" || Ascii.eqb c "010" || Ascii.eqb c "013".
Definition skip_ws (s : string) : string := trim_left_by is_ws s.

(** UTF-8 of a code point below 2^21. *)
Definition utf8 (k : Z) : string :=
  let cont z := ascii_of_Z (128 + z mod 64) in
  if k <? 128 then String (ascii_of_Z k) ""
  else if k <? 2048 then String (ascii_of_Z (192 + k / 64)) (String (cont k) "")
  else if k <? 65536 then
    String (ascii_of_Z (224 + k / 4096)) (String (cont (k / 64)) (String (cont k) ""))
  else
    String (ascii_of_Z (240 + k / 262144))
      (String (cont (k / 4096)) (String (cont (k / 64)) (String (cont k) ""))).

(** Four hexadecimal digits. *)
Definition hex4 (s : string) : option (Z * string) :=
  match s with
  | String a (String b (String c (String d s))) =>
      match hex_val a, hex_val b, hex_val c, hex_val d with
      | Some a, Some b, Some c, Some d => Some (((a * 16 + b) * 16 + c) * 16 + d, s)
      | _, _, _, _ => None
      end
  | _ => None
  end.

(** The text of [\uXXXX], a surrogate pair being one code point and a lone
    surrogate U+FFFD. *)
Definition unicode_escape (s : string) : option (string * string) :=
  match hex4 s with
  | None => None
  | Some (k, s) =>
      if (55296 <=? k) && (k <? 56320) then
        match s with
        | String "\" (String "u" s') =>
            match hex4 s' with
            | Some (l, s'') =>
                if (56320 <=? l) && (l <? 57344)
                then Some (utf8 (65536 + (k - 55296) * 1024 + (l - 56320)), s'')
                else Some (utf8 65533, s)
            | None => None
            end
        | _ => Some (utf8 65533, s)
        end
      else if (56320 <=? k) && (k <? 57344) then Some (utf8 65533, s)
      else Some (utf8 k, s)
  end.

Definition simple_escape (c : ascii) : option ascii :=
  if Ascii.eqb c dquote then Some dquote
  else match c with
       | "\" => Some "\" | "/" => Some "/" | "b" => Some "008" | "f" => Some "012"
       | "n" => Some "010" | "r" => Some "013" | "t" => Some "009" | _ => None
       end%char.

(** The string literal whose opening quote is read. *)
Fixpoint parse_str (fuel : nat) (s : string) : option (string * string) :=
  match fuel, s with
  | S fuel, String c s =>
      if Ascii.eqb c dquote then Some ("", s)
      else if Ascii.eqb c "\" then
        match s with
        | String "u" s =>
            match unicode_escape s with
            | Some (t, s) => match parse_str fuel s with
                             | Some (u, s) => Some (t +:+ u, s)
                             | None => None
                             end
            | None => None
            end
        | String d s =>
            match simple_escape d with
            | Some e => match parse_str fuel s with
                        | Some (u, s) => Some (String e u, s)
                        | None => None
                        end
            | None => None
            end
        | "" => None
        end
      else if Z_of_ascii c <? 32 then None
      else match parse_str fuel s with
           | Some (u, s) => Some (String c u, s)
           | None => None
           end
  | _, _ => None
  end.

(** The longest run of digits. *)
Fixpoint digits (s : string) : string * string :=
  match s with
  | String c s' => if is_digit c then let '(d, r) := digits s' in (String c d, r) else ("", s)
  | "" => ("", "")
  end.

(** A number literal: [-? int frac? exp?]. *)
Definition parse_num (s : string) : option (string * string) :=
  let '(sign, s) := match s with String "-" s => ("-", s) | _ => ("", s) end in
  match digits s with
  | ("", _) => None
  | (String "0" (String _ _), _) => None
  | (int, s) =>
      let frac := match s with
                  | String "." s' => match digits s' with
                                     | ("", _) => None
                                     | (d, r) => Some (String "." d, r)
                                     end
                  | _ => Some ("", s)
                  end in
      match frac with
      | None => None
      | Some (frac, s) =>
          match s with
          | String c s' =>
              if Ascii.eqb (lower_ascii c) "e" then
                let '(sg, s'') := match s' with
                                  | String "+" r => ("+", r)
                                  | String "-" r => ("-", r)
                                  | _ => ("", s')
                                  end in
                match digits s'' with
                | ("", _) => None
                | (d, r) => Some (sign +:+ int +:+ frac +:+ String c (sg +:+ d), r)
                end
              else Some (sign +:+ int +:+ frac, s)
          | "" => Some (sign +:+ int +:+ frac, s)
          end
      end
  end.

(** The elements of an array, [pv] parsing a value, up to its bracket. *)
Fixpoint parse_elems (pv : string → option (json * string)) (n : nat) (s : string)
    : option (list json * string) :=
  match n, pv s with
  | S n, Some (v, s) =>
      match skip_ws s with
      | String "," s => match parse_elems pv n s with
                        | Some (vs, s) => Some (v :: vs, s)
                        | None => None
                        end
      | String "]" s => Some ([v], s)
      | _ => None
      end
  | _, _ => None
  end.

(** A member of an object. *)
Definition parse_member (pv : string → option (json * string)) (fuel : nat) (s : string)
    : option (string * json * string) :=
  match skip_ws s with
  | String q s =>
      if Ascii.eqb q dquote then
        match parse_str fuel s with
        | Some (k, s) =>
            match skip_ws s with
            | String ":" s => match pv s with Some (v, s) => Some (k, v, s) | None => None end
            | _ => None
            end
        | None => None
        end
      else None
  | "" => None
  end.

Fixpoint parse_members (pv : string → option (json * string)) (fuel n : nat) (s : string)
    : option (list (string * json) * string) :=
  match n, parse_member pv fuel s with
  | S n, Some (m, s) =>
      match skip_ws s with
      | String "," s => match parse_members pv fuel n s with
                        | Some (ms, s) => Some (m :: ms, s)
                        | None => None
                        end
      | String "}" s => Some ([m], s)
      | _ => None
      end
  | _, _ => None
  end.

(** A value at the front of [s], after white space. *)
Fixpoint parse_value (fuel : nat) (s : string) : option (json * string) :=
  match fuel with
  | O => None
  | S fuel =>
      match skip_ws s with
      | String "{" s =>
          match skip_ws s with
          | String "}" s => Some (JObj [], s)
          | _ => match parse_members (parse_value fuel) fuel fuel s with
                 | Some (ms, s) => Some (JObj ms, s)
                 | None => None
                 end
          end
      | String "[" s =>
          match skip_ws s with
          | String "]" s => Some (JArr [], s)
          | _ => match parse_elems (parse_value fuel) fuel s with
                 | Some (vs, s) => Some (JArr vs, s)
                 | None => None
                 end
          end
      | String c s' =>
          if Ascii.eqb c dquote then
            match parse_str fuel s' with Some (t, s) => Some (JStr t, s) | None => None end
          else if has_prefix "true" (String c s') then Some (JBool true, str_drop 3 s')
          else if has_prefix "false" (String c s') then Some (JBool false, str_drop 4 s')
          else if has_prefix "null" (String c s') then Some (JNull, str_drop 3 s')
          else match parse_num (String c s') with
               | Some (lit, s) => Some (JNum lit, s)
               | None => None
               end
      | "" => None
      end
  end.

(** One value of a [json.Decoder]; what follows it is left unread. *)
Definition decode_json (s : string) : option json :=
  match parse_value (S (String.length s)) s with Some (v, _) => Some v | None => None end.

(** The check [json.Unmarshal] makes first: one value and nothing else. *)
Definition parse_json (s : string) : option json :=
  match parse_value (S (String.length s)) s with
  | Some (v, r) => match skip_ws r with "" => Some v | _ => None end
  | None => None
  end.

(** ** Decoding into Go values *)

(** What decoding leaves in the variable, and whether all types fitted. *)
Definition decoded (A : Type) : Type := A * bool.

Definition as_string (old : string) (v : json) : decoded string :=
  match v with JStr s => (s, true) | JNull => (old, true) | _ => (old, false) end.
Definition as_int (old : Z) (v : json) : decoded Z :=
  match v with
  | JNum lit => match parse_int lit with Some n => (n, true) | None => (old, false) end
  | JNull => (old, true)
  | _ => (old, false)
  end.
Definition as_bool (old : bool) (v : json) : decoded bool :=
  match v with JBool b => (b, true) | JNull => (old, true) | _ => (old, false) end.

(** A slice, the elements decoded by [f]. *)
Definition as_list {A} (f : json → decoded A) (old : list A) (v : json) : decoded (list A) :=
  match v with
  | JArr vs => (fst ∘ f <$> vs, forallb (snd ∘ f) vs)
  | JNull => ([], true)
  | _ => (old, false)
  end.

(** Member [name] of a struct: each member of that name is decoded in turn;
    a value that is no object decodes to nothing. *)
Definition field {A} (name : string) (f : A → json → decoded A) (zero : A) (v : json) : decoded A :=
  match v with
  | JObj ms =>
      foldl (λ '(a, ok) '(k, v),
        if equal_fold k name then let '(a, ok') := f a v in (a, ok && ok') else (a, ok))
        (zero, true) ms
  | JNull => (zero, true)
  | _ => (zero, false)
  end.

(** ** Encoding *)

(** [json.Encoder] writes [<], [>], [&] and control characters as escapes. *)
Definition escape_char (c : ascii) : string :=
  if Ascii.eqb c dquote then String "\" (String dquote "")
  else if Ascii.eqb c "\" then "\\"
  else if Ascii.eqb c "008" then "\b"
  else if Ascii.eqb c "009" then "\t"
  else if Ascii.eqb c "010" then "\n"
  else if Ascii.eqb c "012" then "\f"
  else if Ascii.eqb c "013" then "\r"
  else if (Z_of_ascii c <? 32) || Ascii.eqb c "<" || Ascii.eqb c ">" || Ascii.eqb c "&"
  then "\u00" +:+ hex_encode (String c "") else String c "".
Fixpoint escape_str (s : string) : string :=
  match s with "" => "" | String c s => escape_char c +:+ escape_str s end.
Definition quote_str (s : string) : string :=
  String dquote (escape_str s +:+ String dquote "").

Fixpoint encode_json (v : json) : string :=
  match v with
  | JNull => "null"
  | JBool b => if b then "true" else "false"
  | JNum lit => lit
  | JStr s => quote_str s
  | JArr vs => "[" +:+ join "," (encode_json <$> vs) +:+ "]"
  | JObj ms =>
      "{" +:+ join "," ((λ '(k, v), quote_str k +:+ ":" +:+ encode_json v) <$> ms) +:+ "}"
  end.

(** ** Round trip *)

(** One escaped character, or one that stands for itself. *)
Lemma parse_str_escape fuel c s :
  parse_str (S fuel) (escape_char c +:+ s) =
  match parse_str fuel s with Some (u, s) => Some (String c u, s) | None => None end.
Proof. destruct c as [[] [] [] [] [] [] [] []]; reflexivity. Qed.

Lemma escape_length c : (1 ≤ String.length (escape_char c))%nat.
Proof. unfold escape_char. repeat case_match; simpl; lia. Qed.

Lemma parse_quoted t : ∀ fuel s, (String.length (escape_str t) < fuel)%nat →
  parse_str fuel (escape_str t +:+ String dquote s) = Some (t, s).
Proof.
  induction t as [|c t IH]; intros [|fuel] s Hf; cbn [escape_str String.append String.length] in *;
    try lia; [done|].
  rewrite str_length_app in Hf. pose proof (escape_length c).
  rewrite str_app_assoc, parse_str_escape, IH by lia. done.
Qed.

(** What may follow a value inside a text. *)
Definition delim (s : string) : Prop :=
  match s with "" => True | String c _ => c = ","%char ∨ c = "]"%char ∨ c = "}"%char end.

(** The number literals of a value are JSON numbers. *)
Definition lit_ok (lit : string) : Prop := ∀ s, delim s →
  parse_num (lit +:+ s) = Some (lit, s) ∧
  match lit with String c _ => is_digit c = true ∨ c = "-"%char | "" => False end.
Fixpoint json_ok (v : json) : Prop :=
  match v with
  | JNum lit => lit_ok lit
  | JArr vs => (fix all vs := match vs with [] => True | v :: vs => json_ok v ∧ all vs end) vs
  | JObj ms => (fix all ms := match ms with [] => True | (_, v) :: ms => json_ok v ∧ all ms end) ms
  | _ => True
  end.

Lemma json_ok_arr vs : json_ok (JArr vs) ↔ Forall json_ok vs.
Proof. simpl. induction vs as [|v vs IH]; [done|]. rewrite Forall_cons. by rewrite IH. Qed.

Lemma json_ok_obj ms : json_ok (JObj ms) ↔ Forall (λ m, json_ok m.2) ms.
Proof. simpl. induction ms as [|[k v] ms IH]; [done|]. rewrite Forall_cons. by rewrite IH. Qed.

Lemma elems_encode pv vs : vs ≠ [] →
  (∀ v, v ∈ vs → ∀ s, delim s → pv (encode_json v +:+ s) = Some (v, s)) →
  ∀ n s, (length vs ≤ n)%nat →
  parse_elems pv n (join "," (encode_json <$> vs) +:+ String "]" s) = Some (vs, s).
Proof.
  induction vs as [|v vs IH]; [done|]. intros _ Hpv [|n] s Hn; simpl in Hn; [lia|].
  destruct vs as [|w vs].
  { simpl. rewrite Hpv; [done | left | simpl; auto]. }
  rewrite !fmap_cons, join_cons by done. rewrite !str_app_assoc. cbn [parse_elems].
  rewrite Hpv; [|left|simpl; auto]. cbn -[parse_elems join].
  rewrite <-fmap_cons, IH; [done|done| |simpl in *; lia]. intros u Hu. apply Hpv. by right.
Qed.

Definition encode_member (m : string * json) : string :=
  quote_str m.1 +:+ ":" +:+ encode_json m.2.

Lemma encode_obj ms : encode_json (JObj ms) = "{" +:+ join "," (encode_member <$> ms) +:+ "}".
Proof. simpl. do 2 f_equal. f_equal. apply list_fmap_ext. by intros ? [k v] _. Qed.

Lemma member_encode pv fuel k v s :
  (String.length (escape_str k) < fuel)%nat → pv (encode_json v +:+ s) = Some (v, s) →
  parse_member pv fuel (encode_member (k, v) +:+ s) = Some (k, v, s).
Proof.
  intros Hk Hpv. unfold parse_member, encode_member, quote_str. cbn -[parse_str].
  rewrite !str_app_assoc. cbn -[parse_str]. rewrite parse_quoted by done. simpl. by rewrite Hpv.
Qed.

Lemma members_encode pv fuel ms : ms ≠ [] →
  (∀ k v, (k, v) ∈ ms → (String.length (escape_str k) < fuel)%nat ∧
     ∀ s, delim s → pv (encode_json v +:+ s) = Some (v, s)) →
  ∀ n s, (length ms ≤ n)%nat →
  parse_members pv fuel n (join "," (encode_member <$> ms) +:+ String "}" s) = Some (ms, s).
Proof.
  induction ms as [|[k v] ms IH]; [done|]. intros _ Hpv [|n] s Hn; simpl in Hn; [lia|].
  destruct (Hpv k v) as [Hk Hv]; [left|].
  destruct ms as [|w ms].
  { cbn [fmap list_fmap join parse_members]. rewrite member_encode; [done|done|apply Hv; simpl; auto]. }
  rewrite !fmap_cons, join_cons by done. rewrite !str_app_assoc. cbn [parse_members].
  rewrite member_encode; [|done|apply Hv; simpl; auto]. cbn -[parse_members join encode_member].
  rewrite <-fmap_cons, IH; [done|done| |simpl in *; lia]. intros k' v' Hin. apply Hpv. by right.
Qed.

(** Parts of a joined text are no longer than it, nor more. *)
Lemma join_length sep ws w : w ∈ ws → (String.length w ≤ String.length (join sep ws))%nat.
Proof.
  induction ws as [|x ws IH]; [by intros ?%elem_of_nil|]. intros [->|Hw]%elem_of_cons.
  - destruct ws; [done|]. rewrite join_cons, str_length_app by done. lia.
  - destruct ws as [|y ws]; [by apply elem_of_nil in Hw|].
    rewrite join_cons, !str_length_app by done. specialize (IH Hw). lia.
Qed.

Lemma join_count c ws : (length ws ≤ S (String.length (join (String c "") ws)))%nat.
Proof.
  induction ws as [|x ws IH]; [simpl; lia|]. destruct ws as [|y ws]; [simpl; lia|].
  rewrite join_cons, !str_length_app by done. simpl in *. lia.
Qed.

(** The text starts with neither white space nor a closing bracket. *)
Definition value_head (s : string) : Prop :=
  skip_ws s = s ∧ match s with String c _ => c ≠ "]"%char ∧ c ≠ "}"%char | "" => False end.

Lemma encode_head v s : json_ok v → value_head (encode_json v +:+ s).
Proof.
  unfold value_head.
  destruct v as [|[]|lit|t|vs|ms]; cbn -[skip_ws]; try done; intros Hl.
  destruct (Hl "") as [_ Hh]; [done|]. destruct lit as [|c lit]; [done|].
  destruct c as [[] [] [] [] [] [] [] []]; simpl in *; destruct Hh; done.
Qed.

Lemma join_head sep ws s (P : string → Prop) w :
  head ws = Some w → (∀ r, P (w +:+ r)) → P (join sep ws +:+ s).
Proof.
  destruct ws as [|x ws]; [done|]. intros [= ->] HP. destruct ws; [apply HP|].
  rewrite join_cons, str_app_assoc by done. apply HP.
Qed.

Lemma parse_value_arr fuel s :
  value_head s →
  parse_value (S fuel) (String "[" s) =
  match parse_elems (parse_value fuel) fuel s with Some (vs, s) => Some (JArr vs, s) | None => None end.
Proof.
  intros [Hws Hh]. cbn [parse_value]. change (skip_ws (String "[" s)) with (String "[" s). cbv iota.
  rewrite Hws. destruct s as [|[[] [] [] [] [] [] [] []] s]; try done; by destruct Hh.
Qed.

Lemma parse_value_obj fuel s :
  value_head s →
  parse_value (S fuel) (String "{" s) =
  match parse_members (parse_value fuel) fuel fuel s with
  | Some (ms, s) => Some (JObj ms, s)
  | None => None
  end.
Proof.
  intros [Hws Hh]. cbn [parse_value]. change (skip_ws (String "{" s)) with (String "{" s). cbv iota.
  rewrite Hws. destruct s as [|[[] [] [] [] [] [] [] []] s]; try done; by destruct Hh.
Qed.

Lemma parse_value_num fuel lit s : lit_ok lit → delim s →
  parse_value (S fuel) (lit +:+ s) = Some (JNum lit, s).
Proof.
  intros Hl Hs. destruct (encode_head (JNum lit) s Hl) as [Hws _]. simpl in Hws.
  destruct (Hl s Hs) as [Hp Hh]. cbn [parse_value]. rewrite Hws. destruct lit as [|c lit]; [done|].
  cbn [String.append] in *. destruct c as [[] [] [] [] [] [] [] []]; destruct Hh as [Hh|Hh];
    try discriminate Hh; cbv -[parse_num String.append]; by rewrite Hp.
Qed.

Lemma parse_value_encode fuel : ∀ v s, json_ok v → (String.length (encode_json v) < fuel)%nat →
  delim s → parse_value fuel (encode_json v +:+ s) = Some (v, s).
Proof.
  induction fuel as [|fuel IH]; [lia|]. intros v s Hok Hlen Hs.
  destruct v as [|[]|lit|t|vs|ms]; try done.
  - by apply parse_value_num.
  - cbn -[parse_str]. rewrite str_app_assoc. cbn -[parse_str]. unfold quote_str in Hlen.
    simpl in Hlen. rewrite str_length_app in Hlen. simpl in Hlen. by rewrite parse_quoted by lia.
  - rewrite json_ok_arr in Hok. destruct vs as [|w vs]; [done|].
    cbn [encode_json] in *. rewrite !str_length_app in Hlen. simpl in Hlen.
    rewrite !str_app_assoc. pose proof (join_count "," (encode_json <$> w :: vs)) as Hc.
    rewrite length_fmap in Hc. cbn [String.append].
    rewrite parse_value_arr; [|apply (join_head _ _ _ value_head (encode_json w)); [done|];
      intros r; apply encode_head; by inversion Hok].
    rewrite elems_encode; [done|done| |simpl in *; lia].
    intros v Hv s' Hs'. apply IH; [by eapply Forall_forall in Hok| |done].
    pose proof (join_length "," _ _ (list_elem_of_fmap_2 encode_json _ _ Hv)). simpl in *. lia.
  - rewrite json_ok_obj in Hok. rewrite encode_obj in *. destruct ms as [|w ms]; [done|].
    rewrite !str_length_app in Hlen. simpl in Hlen. rewrite !str_app_assoc. cbn [String.append].
    pose proof (join_count "," (encode_member <$> w :: ms)) as Hc. rewrite length_fmap in Hc.
    rewrite parse_value_obj; [|by apply (join_head _ _ _ value_head (encode_member w))].
    rewrite members_encode; [done|done| |simpl in *; lia].
    intros k v Hv. pose proof (join_length "," _ _ (list_elem_of_fmap_2 encode_member _ _ Hv)) as Hl.
    unfold encode_member at 1, quote_str in Hl. cbn [fst snd] in Hl.
    rewrite !str_length_app in Hl. simpl in Hl. rewrite !str_length_app in Hl. simpl in *. split; [lia|].
    intros s' Hs'. apply IH; [by eapply Forall_forall in Hok as ?; [|exact Hv] | lia | done].
Qed.

(** What is encoded parses back. *)
Lemma parse_encode_json v : json_ok v → parse_json (encode_json v) = Some v.
Proof.
  intros Hok. unfold parse_json. pose proof (parse_value_encode (S (String.length (encode_json v))) v "" Hok) as H.
  rewrite str_app_nil_r in H. by rewrite H by (simpl; auto; lia).
Qed.
