(* ===== verification/CacheStore.v ===== *)
(** * The cache store

    [internal/cache/store.go]: metadata in two SQLite tables and blob parts in
    one directory per upload.  A fault may strike at every database statement
    and file operation; the model draws it from a list, so the theorems cover
    any pattern of failures. *)

From S2P Require Import Prelude GoErr GoStr.

Local Open Scope Z_scope.
Local Open Scope go_scope.

(** ** SQLite

    What the queries rely on: [ORDER BY] permutes the rows and sorts them by
    the key, in no specified order among equals; [LIKE ... ESCAPE '\'] is the
    documented pattern match, case-insensitive on ASCII letters. *)

Record entry_row := EntryRow {
  ce_id : string;
  ce_key : string;
  ce_version : string;
  ce_scope : string;
  ce_repo : string;
  ce_part_count : Z;
  ce_updated_at : Z;
  ce_last_used_at : Z
}.

Record upload_row := UploadRow {
  up_id : Z;
  up_key : string;
  up_version : string;
  up_scope : string;
  up_repo : string;
  up_started : Z;
  up_finished : Z
}.

Class Sqlite := {
  order_by : (entry_row → Z) → list entry_row → list entry_row;
  order_by_perm f l : order_by f l ≡ₚ l;
  order_by_sorted f l : StronglySorted (λ a b, f a ≤ f b) (order_by f l);
  like : string → string → bool;
  like_nil s : like "" s = String.eqb s "";
  like_any p s : like (String "%" p) s = true ↔ ∃ a b, s = a +:+ b ∧ like p b = true;
  like_escaped c p s : like (String "\" (String c p)) s =
    match s with
    | String d s => Ascii.eqb (lower_ascii c) (lower_ascii d) && like p s
    | "" => false
    end;
  like_char c p s : c ≠ "%"%char → c ≠ "_"%char → c ≠ "\"%char → like (String c p) s =
    match s with
    | String d s => Ascii.eqb (lower_ascii c) (lower_ascii d) && like p s
    | "" => false
    end
}.

(** ** The store's world

    [blobs]: folder name, then part index, then content.  [faults]: the
    outcome of the coming operations, [None] for success; past the end of the
    list every operation succeeds.  [ticks]: how much the wall clock moves at
    each reading.  [rands]: the coming random numbers, [None] for a failing
    entropy source. *)

Record fault := Fault {
  f_err : goerror;
  f_done : nat  (** bytes written, parts removed or rows read before failing *)
}.

Record store := Store {
  uploads : list upload_row;
  entries : list entry_row;
  blobs : gmap string (gmap Z string);
  now : Z;
  ticks : list Z;
  rands : list (option Z);
  faults : list (option fault)
}.

Definition set_uploads (f : list upload_row → list upload_row) (s : store) : store :=
  Store (f (uploads s)) (entries s) (blobs s) (now s) (ticks s) (rands s) (faults s).
Definition set_entries (f : list entry_row → list entry_row) (s : store) : store :=
  Store (uploads s) (f (entries s)) (blobs s) (now s) (ticks s) (rands s) (faults s).
Definition set_blobs (f : gmap string (gmap Z string) → gmap string (gmap Z string))
    (s : store) : store :=
  Store (uploads s) (entries s) (f (blobs s)) (now s) (ticks s) (rands s) (faults s).

(** The outcome of the next fallible operation. *)
Definition next_fault : M store (option fault) := fun s =>
  match faults s with
  | [] => (Ok None, s)
  | f :: fs => (Ok f, Store (uploads s) (entries s) (blobs s) (now s) (ticks s) (rands s) fs)
  end.

(** An operation that fails without effect or runs [c]. *)
Definition fallible {A} (c : M store A) : M store A :=
  let! f := next_fault in
  match f with Some f => throw (f_err f) | None => c end.

(** [nowMillis()]. *)
Definition nowMillis : M store Z := fun s =>
  match ticks s with
  | [] => (Ok (now s), s)
  | d :: ds => (Ok (now s + d),
                Store (uploads s) (entries s) (blobs s) (now s + d) ds (rands s) (faults s))
  end.

(** [randomID()]: [rand.Int] below 2^62, plus one. *)
Definition randomID : M store Z := fun s =>
  let s' rs := Store (uploads s) (entries s) (blobs s) (now s) (ticks s) rs (faults s) in
  match rands s with
  | [] => (Ok 1, s)
  | None :: rs => (Err (errorf "entropy source failed"), s' rs)
  | Some r :: rs => (Ok (r mod 2 ^ 62 + 1), s' rs)
  end.

(** ** Errors *)

Definition errNoParts : goerror := ENew "errNoParts" "no parts uploaded".
Definition errPartMismatch : goerror := ENew "errPartMismatch" "uploaded part count mismatch".
Definition isNoRows (e : goerror) : bool := errors_is "sql.ErrNoRows" e.
Definition constraint_failed : goerror := errorf "constraint failed: UNIQUE constraint failed".

(** ** Statements *)

Definition up_match (key version scope repoID : string) (u : upload_row) : bool :=
  String.eqb (up_key u) key && String.eqb (up_version u) version &&
  String.eqb (up_scope u) scope && String.eqb (up_repo u) repoID.

Definition ce_match (key version scope repoID : string) (e : entry_row) : bool :=
  String.eqb (ce_key e) key && String.eqb (ce_version e) version &&
  String.eqb (ce_scope e) scope && String.eqb (ce_repo e) repoID.

(** [QueryRow(...).Scan(...)]: the first row, or [sql.ErrNoRows]. *)
Definition scan_row {A} (rows : store → list A) : M store A :=
  fallible (fun s => match rows s with
                     | r :: _ => (Ok r, s)
                     | [] => (Err err_no_rows, s)
                     end).

Definition select_upload (key version scope repoID : string) : M store upload_row :=
  scan_row (fun s => filter (up_match key version scope repoID) (uploads s)).
Definition select_upload_by_id (id : Z) : M store upload_row :=
  scan_row (fun s => filter (λ u, up_id u = id) (uploads s)).
Definition select_entry (key version scope repoID : string) : M store entry_row :=
  scan_row (fun s => filter (ce_match key version scope repoID) (entries s)).
Definition select_entry_by_id (id : string) : M store entry_row :=
  scan_row (fun s => filter (λ e, ce_id e = id) (entries s)).

Definition insert_upload (id : Z) (key version scope repoID : string) : M store unit :=
  fallible (fun s =>
    if bool_decide (id ∈ up_id <$> uploads s) then (Err constraint_failed, s)
    else (Ok tt, set_uploads (.++ [UploadRow id key version scope repoID 0 0]) s)).

Definition map_upload (id : Z) (f : upload_row → upload_row) : M store unit :=
  fallible (modify (set_uploads (fmap (λ u, if decide (up_id u = id) then f u else u)))).
Definition start_part (u : upload_row) : upload_row :=
  UploadRow (up_id u) (up_key u) (up_version u) (up_scope u) (up_repo u)
    (up_started u + 1) (up_finished u).
Definition finish_part (u : upload_row) : upload_row :=
  UploadRow (up_id u) (up_key u) (up_version u) (up_scope u) (up_repo u)
    (up_started u) (up_finished u + 1).

Definition delete_upload (id : Z) : M store unit :=
  fallible (modify (set_uploads (filter (λ u, up_id u ≠ id)))).

Definition insert_entry (e : entry_row) : M store unit :=
  fallible (fun s =>
    if bool_decide (ce_id e ∈ ce_id <$> entries s) then (Err constraint_failed, s)
    else (Ok tt, set_entries (.++ [e]) s)).

(** [UPDATE cache_entries SET id, part_count, updated_at, last_used_at WHERE
    key, version, scope, repo_id]; [id] is the primary key. *)
Definition update_entry (key version scope repoID folder : string) (parts t1 t2 : Z)
    : M store unit :=
  fallible (fun s =>
    let new := (λ e, if ce_match key version scope repoID e
                     then EntryRow folder (ce_key e) (ce_version e) (ce_scope e) (ce_repo e)
                            parts t1 t2
                     else e) <$> entries s in
    if bool_decide (NoDup (ce_id <$> new)) then (Ok tt, set_entries (λ _, new) s)
    else (Err constraint_failed, s)).

Definition delete_entry_row (id : string) : M store unit :=
  fallible (modify (set_entries (filter (λ e, ce_id e ≠ id)))).

(** ** Files *)

Definition folder_parts (folder : string) (s : store) : gmap Z string :=
  default ∅ (blobs s !! folder).

(** [os.MkdirAll(<root>/<folder>/parts)]. *)
Definition mkdir_parts (folder : string) : M store unit :=
  fallible (modify (set_blobs (λ b, <[folder := default ∅ (b !! folder)]> b))).

(** [os.Create(partPath(folder, index))]: an empty file, truncated if there. *)
Definition create_part (folder : string) (index : Z) : M store unit :=
  fallible (modify (set_blobs (λ b, <[folder := <[index := ""]> (default ∅ (b !! folder))]> b))).

(** The body of a request: the bytes delivered, then EOF or an error. *)
Record body := Body { b_data : string; b_err : option goerror }.

(** [io.Copy(f, r)] into a part just created: a write error leaves a prefix,
    a read error what was delivered. *)
Definition copy_part (folder : string) (index : Z) (r : body) : M store unit :=
  let! f := next_fault in
  let data := match f with Some f => str_take (f_done f) (b_data r) | None => b_data r end in
  modify (set_blobs (λ b, <[folder := <[index := data]> (default ∅ (b !! folder))]> b)) ;;;
  match f, b_err r with
  | Some f, _ => throw (f_err f)
  | None, Some e => throw e
  | None, None => ret tt
  end.

(** [os.RemoveAll(<root>/<folder>)]; a failure may leave some parts removed. *)
Definition remove_all (folder : string) : M store unit :=
  let! f := next_fault in
  match f with
  | None => modify (set_blobs (delete folder))
  | Some f =>
      modify (set_blobs (alter (λ m, list_to_map (drop (f_done f) (map_to_list m))) folder)) ;;;
      throw (f_err f)
  end.

Definition map_size_sum (m : gmap Z string) : Z :=
  map_fold (λ _ c n, Z.of_nat (String.length c) + n) 0 m.

(** [folderSize], [totalBlobSize]: the sum so far, with the error if any. *)
Definition folderSize (id : string) : M store (Z * option goerror) :=
  let! f := next_fault in
  match f with
  | Some f => ret (Z.of_nat (f_done f), Some (f_err f))
  | None => gets (fun s => (map_size_sum (folder_parts id s), None))
  end.

Definition blobs_size (b : gmap string (gmap Z string)) : Z :=
  map_fold (λ _ m n, map_size_sum m + n) 0 b.

Definition totalBlobSize : M store Z := fallible (gets (λ s, blobs_size (blobs s))).

(** [countParts]: a missing directory has no parts. *)
Definition countParts (folder : string) : M store Z :=
  let! f := next_fault in
  match f with
  | Some f => if errors_is "os.ErrNotExist" (f_err f) then ret 0 else throw (f_err f)
  | None => gets (λ s, Z.of_nat (size (folder_parts folder s)))
  end.

(** [os.Stat(partPath(folder, i))], as a test. *)
Definition stat_part (folder : string) (i : Z) : M store unit :=
  fallible (fun s => match folder_parts folder s !! i with
                     | Some _ => (Ok tt, s)
                     | None => (Err err_not_exist, s)
                     end).

(** [requireContiguousParts]: the loop from part [i], [n] parts to go. *)
Fixpoint require_parts (folder : string) (n : nat) (i : Z) : M store unit :=
  match n with
  | O => ret tt
  | S n =>
      let? r := stat_part folder i in
      match r with
      | Err e => throw (if errors_is "os.ErrNotExist" e
                        then EWrap "" errPartMismatch (": missing part " +:+ format_int i) else e)
      | Ok _ => require_parts folder n (i + 1)
      end
  end.
Definition requireContiguousParts (folder : string) (count : Z) : M store unit :=
  require_parts folder (Z.to_nat count) 0.

(** ** Uploads *)

(** [createUpload]: the upload id, and whether one was reserved. *)
Definition createUpload (key version scope repoID : string) : M store (Z * bool) :=
  let? existing := select_upload key version scope repoID in
  match existing with
  | Ok _ => ret (0, false)
  | Err e =>
      if negb (isNoRows e) then throw e
      else
        let! id := randomID in
        insert_upload id key version scope repoID ;;;
        ret (id, true)
  end.

(** [uploadPart]: one chunk, into part [partIndex]. *)
Definition uploadPart (uploadID partIndex : Z) (r : body) : M store unit :=
  let? exists_ := select_upload_by_id uploadID in
  match exists_ with
  | Err e => if isNoRows e then ret tt else throw e
  | Ok _ =>
      map_upload uploadID start_part ;;;
      let folder := format_int uploadID in
      mkdir_parts folder ;;;
      create_part folder partIndex ;;;
      copy_part folder partIndex r ;;;
      fallible (ret tt) (* f.Close() *) ;;;
      map_upload uploadID finish_part
  end.

(** Drop the upload row, whatever comes of it, and fail with [e]. *)
Definition abandon_upload {A} (id : Z) (e : goerror) : M store A :=
  let? _ := delete_upload id in throw e.

(** The entry row of a finished upload replaces the one it supersedes, whose
    folder goes with it, or is added. *)
Definition promote (key version scope repoID folder : string) (actual : Z) : M store unit :=
  let? old := select_entry key version scope repoID in
  match old with
  | Ok old =>
      let! t1 := nowMillis in
      let! t2 := nowMillis in
      update_entry key version scope repoID folder actual t1 t2 ;;;
      if negb (String.eqb (ce_id old) "") && negb (String.eqb (ce_id old) folder)
      then (let? _ := remove_all (ce_id old) in ret tt)
      else ret tt
  | Err e =>
      if isNoRows e then
        let! t1 := nowMillis in
        let! t2 := nowMillis in
        insert_entry (EntryRow folder key version scope repoID actual t1 t2)
      else throw e
  end.

(** [completeUpload]: validate the parts and promote the upload to an entry. *)
Definition completeUpload (key version scope repoID : string) : M store string :=
  let? q := select_upload key version scope repoID in
  match q with
  | Err e => throw (if isNoRows e then err_no_rows else e)
  | Ok up =>
      let folder := format_int (up_id up) in
      if up_finished up =? 0 then abandon_upload (up_id up) errNoParts
      else if negb (up_started up =? up_finished up) then
        abandon_upload (up_id up)
          (EWrap "" errPartMismatch
             (": " +:+ format_int (up_finished up) +:+ " of " +:+ format_int (up_started up)))
      else
        let! actual := countParts folder in
        if negb (actual =? up_finished up) then
          abandon_upload (up_id up)
            (EWrap "" errPartMismatch
               (": expected " +:+ format_int (up_finished up) +:+ " found " +:+ format_int actual))
        else
          let? c := requireContiguousParts folder (up_finished up) in
          match c with
          | Err e => abandon_upload (up_id up) e
          | Ok _ =>
              promote key version scope repoID folder actual ;;;
              delete_upload (up_id up) ;;;
              ret folder
          end
  end.

(** ** Lookup *)

(** [cacheEntry] *)
Record cacheEntry := CacheEntry { ID : string; Key : string; PartCount : Z }.

Definition to_entry (e : entry_row) : cacheEntry :=
  CacheEntry (ce_id e) (ce_key e) (ce_part_count e).

(** [scanEntry]: a missing row is no error. *)
Definition scanEntry (q : M store entry_row) : M store (option cacheEntry) :=
  let? r := q in
  match r with
  | Ok e => ret (Some (to_entry e))
  | Err e => if isNoRows e then ret None else throw e
  end.

(** [escapeLike] *)
Fixpoint escapeLike (v : string) : string :=
  match v with
  | "" => ""
  | String c v =>
      if Ascii.eqb c "\" || Ascii.eqb c "%" || Ascii.eqb c "_"
      then String "\" (String c (escapeLike v)) else String c (escapeLike v)
  end.

Section lookup.
Context `{Sqlite}.

(** The newest row first, [ORDER BY updated_at DESC]. *)
Definition newest (l : list entry_row) : list entry_row := order_by (λ e, - ce_updated_at e) l.

Definition queryExact (key version scope repoID : string) : M store (option cacheEntry) :=
  scanEntry (scan_row (fun s => newest (filter (ce_match key version scope repoID) (entries s)))).

Definition prefix_match (key version scope repoID : string) (e : entry_row) : bool :=
  like (escapeLike key +:+ "%") (ce_key e) && String.eqb (ce_version e) version &&
  String.eqb (ce_scope e) scope && String.eqb (ce_repo e) repoID.

Definition queryPrefix (key version scope repoID : string) : M store (option cacheEntry) :=
  scanEntry (scan_row (fun s => newest (filter (prefix_match key version scope repoID) (entries s)))).

(** [getEntry] *)
Definition getEntry (id : string) : M store (option cacheEntry) :=
  scanEntry (select_entry_by_id id).

(** [touchEntry]: the time is read first, and a failure ignored. *)
Definition set_last_used (id : string) (t : Z) (e : entry_row) : entry_row :=
  if String.eqb (ce_id e) id
  then EntryRow (ce_id e) (ce_key e) (ce_version e) (ce_scope e) (ce_repo e)
         (ce_part_count e) (ce_updated_at e) t
  else e.
Definition touchEntry (id : string) : M store unit :=
  let! t := nowMillis in
  let? _ := fallible (modify (set_entries (fmap (set_last_used id t)))) in
  ret tt.

(** [if e, ok, err := q(); err != nil || ok { return s.touched(e, ok, err) }],
    else [next]. *)
Definition or_touched (q next : M store (option cacheEntry)) : M store (option cacheEntry) :=
  let? r := q in
  match r with
  | Err e => throw e
  | Ok (Some e) => touchEntry (ID e) ;;; ret (Some e)
  | Ok None => next
  end.

(** The restore keys of one scope, exact then prefix, in order. *)
Fixpoint match_restore (restore : list string) (version scope repoID : string)
    (next : M store (option cacheEntry)) : M store (option cacheEntry) :=
  match restore with
  | [] => next
  | rk :: restore =>
      or_touched (queryExact rk version scope repoID)
        (or_touched (queryPrefix rk version scope repoID)
           (match_restore restore version scope repoID next))
  end.

Fixpoint match_scopes (primary : string) (restore : list string) (version : string)
    (scopes : list string) (repoID : string) : M store (option cacheEntry) :=
  match scopes with
  | [] => ret None
  | scope :: scopes =>
      or_touched (queryExact primary version scope repoID)
        (or_touched (queryPrefix primary version scope repoID)
           (match_restore restore version scope repoID
              (match_scopes primary restore version scopes repoID)))
  end.

(** [matchEntry] *)
Definition matchEntry (keys : list string) (version : string) (scopes : list string)
    (repoID : string) : M store (option cacheEntry) :=
  match keys with
  | [] => ret None
  | primary :: restore => match_scopes primary restore version scopes repoID
  end.
End lookup.

(** ** Eviction *)

(** [deleteEntry] *)
Definition deleteEntry (id : string) : M store unit :=
  delete_entry_row id ;;; remove_all id.

(** A query for ids: it fails to start, a row fails to scan, or the iteration
    ends early, which nobody notices since [rows.Err] is not consulted. *)
Definition query_ids (ids : store → list string) : M store (list string) :=
  fallible (
    let! scan := next_fault in
    match scan with
    | Some f => throw (f_err f)
    | None =>
        let! early := next_fault in
        gets (fun s => match early with Some f => take (f_done f) (ids s) | None => ids s end)
    end).

(** Delete the entries of [ids], counting them in [removed]. *)
Fixpoint delete_ids (ids : list string) (removed : Z) : M store (Z * option goerror) :=
  match ids with
  | [] => ret (removed, None)
  | id :: ids =>
      let? r := deleteEntry id in
      match r with
      | Err e => ret (removed, Some e)
      | Ok _ => delete_ids ids (removed + 1)
      end
  end.

(** Delete in the order of [ids] until [total] fits. *)
Fixpoint delete_until (maxBytes : Z) (ids : list string) (total removed : Z)
    : M store (Z * option goerror) :=
  match ids with
  | [] => ret (removed, None)
  | id :: ids =>
      if total <=? maxBytes then ret (removed, None)
      else
        let! '(sz, _) := folderSize id in
        let? r := deleteEntry id in
        match r with
        | Err e => ret (removed, Some e)
        | Ok _ => delete_until maxBytes ids (total - sz) (removed + 1)
        end
  end.

Section evict.
Context `{Sqlite}.

(** Least recently used first, [ORDER BY last_used_at ASC]. *)
Definition lru_ids (s : store) : list string := ce_id <$> order_by ce_last_used_at (entries s).

Definition stale_ids (olderThan : Z) (s : store) : list string :=
  ce_id <$> filter (λ e, ce_last_used_at e < olderThan) (entries s).

(** The age pass of [evict]. *)
Definition evict_stale (olderThan : Z) : M store (Z * option goerror) :=
  if 0 <? olderThan then
    let? q := query_ids (stale_ids olderThan) in
    match q with
    | Err e => ret (0, Some e)
    | Ok ids => delete_ids ids 0
    end
  else ret (0, None).

(** The size pass of [evict]. *)
Definition evict_oversize (maxBytes removed : Z) : M store (Z * option goerror) :=
  if 0 <? maxBytes then
    let? t := totalBlobSize in
    match t with
    | Err e => ret (removed, Some e)
    | Ok total =>
        if maxBytes <? total then
          let? q := query_ids lru_ids in
          match q with
          | Err e => ret (removed, Some e)
          | Ok ids => delete_until maxBytes ids total removed
          end
        else ret (removed, None)
    end
  else ret (removed, None).

(** [evict]: the number of entries removed and the error, if any. *)
Definition evict (olderThan maxBytes : Z) : M store (Z * option goerror) :=
  let! '(removed, err) := evict_stale olderThan in
  match err with
  | Some e => ret (removed, Some e)
  | None => evict_oversize maxBytes removed
  end.
End evict.

(** ** Download *)

(** [partsReader]: [cur] is the unread rest of the open part. *)
Record partsReader := PartsReader {
  pr_folder : string;
  pr_partCount : Z;
  pr_idx : Z;
  pr_cur : option string
}.

(** What a [Read] gives: bytes, [io.EOF], or an error. *)
Inductive read_result :=
| RData (bs : string)
| REOF
| RErr (e : goerror).

(** [openDownload] *)
Definition openDownload (id : string) : M store partsReader :=
  let? r := getEntry id in
  match r with
  | Err e => throw e
  | Ok None => throw err_not_exist
  | Ok (Some e) => ret (PartsReader id (PartCount e) 0 None)
  end.

(** [os.Open] of the part at [pr_idx]. *)
Definition open_part (p : partsReader) : M store string :=
  fallible (fun s => match folder_parts (pr_folder p) s !! pr_idx p with
                     | Some c => (Ok c, s)
                     | None => (Err err_not_exist, s)
                     end).

(** Read at most [k] bytes of the open part: [k] bytes or fewer, [io.EOF] at
    its end; [n] is the number of parts the reader may still pass over. *)
Fixpoint read_parts (n : nat) (k : nat) (p : partsReader) : M store (read_result * partsReader) :=
  let step (cur : string) :=
    let! f := next_fault in
    match f with
    | Some f => ret (RErr (f_err f), PartsReader (pr_folder p) (pr_partCount p) (pr_idx p) (Some cur))
    | None =>
        match cur with
        | "" =>
            let p' := PartsReader (pr_folder p) (pr_partCount p) (pr_idx p + 1) None in
            match n with
            | O => ret (REOF, p')
            | S n => read_parts n k p'
            end
        | _ => ret (RData (str_take k cur),
                    PartsReader (pr_folder p) (pr_partCount p) (pr_idx p) (Some (str_drop k cur)))
        end
    end in
  match pr_cur p with
  | Some cur => step cur
  | None =>
      if pr_partCount p <=? pr_idx p then ret (REOF, p)
      else
        let? o := open_part p in
        match o with
        | Err e => ret (RErr e, p)
        | Ok cur => step cur
        end
  end.

(** [partsReader.Read] into a buffer of [k] bytes. *)
Definition pr_read (k : nat) (p : partsReader) : M store (read_result * partsReader) :=
  read_parts (Z.to_nat (pr_partCount p - pr_idx p)) k p.

(** [io.Copy(w, rc)]: what reaches [w], and the error if any; [None] when
    [fuel] reads were not enough. *)
Fixpoint copy_out (fuel k : nat) (p : partsReader) : M store (option (string * option goerror)) :=
  match fuel with
  | O => ret None
  | S fuel =>
      let! '(r, p) := pr_read k p in
      match r with
      | REOF => ret (Some ("", None))
      | RErr e => ret (Some ("", Some e))
      | RData bs =>
          let! rest := copy_out fuel k p in
          ret (match rest with Some (t, e) => Some (bs +:+ t, e) | None => None end)
      end
  end.
