(* ===== verification/Sqlite.v ===== *)
(** * A reference SQLite

    An executable instance of the [Sqlite] interface, for evaluating the store
    on concrete inputs: a stable sort, and [LIKE ... ESCAPE '\'] by recursion
    on the pattern. *)

From S2P Require Import Prelude GoErr GoStr CacheStore.

Local Open Scope Z_scope.

(** [%] takes any run of characters, [_] one, the escape the next literally. *)
Fixpoint like_ref (p s : string) : bool :=
  match p with
  | "" => String.eqb s ""
  | String c p' =>
      if Ascii.eqb c "%" then
        (fix any (s : string) : bool :=
           like_ref p' s || match s with "" => false | String _ s' => any s' end) s
      else if Ascii.eqb c "\" then
        match p' with
        | "" => false
        | String c' p'' =>
            match s with
            | "" => false
            | String d s' => Ascii.eqb (lower_ascii c') (lower_ascii d) && like_ref p'' s'
            end
        end
      else
        match s with
        | "" => false
        | String d s' =>
            (Ascii.eqb c "_" || Ascii.eqb (lower_ascii c) (lower_ascii d)) && like_ref p' s'
        end
  end.

Definition by_key (f : entry_row → Z) (a b : entry_row) : Prop := f a ≤ f b.

#[export] Instance by_key_dec f a b : Decision (by_key f a b).
Proof. unfold by_key. apply _. Defined.

#[export] Instance by_key_total f : Total (by_key f).
Proof. intros a b. unfold by_key. lia. Qed.

#[export] Instance by_key_trans f : Transitive (by_key f).
Proof. intros a b c. unfold by_key. lia. Qed.

Lemma like_ref_any p s : like_ref (String "%" p) s = true ↔ ∃ a b, s = a +:+ b ∧ like_ref p b = true.
Proof.
  cbn [like_ref]. rewrite Ascii.eqb_refl. split.
  - induction s as [|c s IH]; rewrite orb_true_iff; intros [Hp|Hs]; try done.
    + by exists "", "".
    + by exists "", (String c s).
    + destruct (IH Hs) as (a & b & -> & Hb). by exists (String c a), b.
  - intros (a & b & -> & Hb). induction a as [|c a IH]; simpl.
    + destruct b; by rewrite Hb.
    + by rewrite IH, orb_true_r.
Qed.

Definition sqlite_ref : Sqlite.
Proof.
  refine {| order_by f l := merge_sort (by_key f) l; like := like_ref |}.
  - intros f l. apply merge_sort_Permutation.
  - intros f l. apply (StronglySorted_merge_sort (by_key f)).
  - done.
  - apply like_ref_any.
  - intros c p s. destruct s; done.
  - intros c p s H1 H2 H3. cbn [like_ref].
    rewrite (proj2 (Ascii.eqb_neq _ _) H1), (proj2 (Ascii.eqb_neq _ _) H2),
      (proj2 (Ascii.eqb_neq _ _) H3). done.
Defined.

Example like_ref_prefix : like_ref "ab\%c%" "aB%cde" = true ∧ like_ref "ab\%c%" "abXcde" = false.
Proof. done. Qed.
