(* ===== verification/CacheStoreInv.v ===== *)
(** * Invariants of the cache store

    What every operation of [CacheStore] preserves, whatever fails. *)

From S2P Require Import Prelude GoErr GoStr CacheStore Sqlite.

Local Open Scope Z_scope.
Local Open Scope go_scope.

(** A failing statement does not report [sql.ErrNoRows], which [database/sql]
    reserves for a query that succeeds without a row. *)
Definition faults_ok (s : store) : Prop :=
  Forall (λ o, ∀ f, o = Some f → isNoRows (f_err f) = false) (faults s).

Definition upload_tuple (u : upload_row) : string * string * string * string :=
  (up_key u, up_version u, up_scope u, up_repo u).
Definition entry_tuple (e : entry_row) : string * string * string * string :=
  (ce_key e, ce_version e, ce_scope e, ce_repo e).

(** The parts [0 .. part_count - 1] of an entry are all on disk. *)
Definition complete (b : gmap string (gmap Z string)) (e : entry_row) : Prop :=
  0 < ce_part_count e ∧
  ∀ i, 0 ≤ i < ce_part_count e → is_Some (default ∅ (b !! ce_id e) !! i).

Record store_ok (s : store) : Prop := {
  ok_entry_ids : NoDup (ce_id <$> entries s);
  ok_entry_keys : NoDup (entry_tuple <$> entries s);
  ok_upload_ids : NoDup (up_id <$> uploads s);
  ok_upload_keys : NoDup (upload_tuple <$> uploads s);
  ok_counts : ∀ u, u ∈ uploads s → 0 ≤ up_finished u ≤ up_started u;
  ok_complete : ∀ e, e ∈ entries s → complete (blobs s) e;
  ok_faults : faults_ok s
}.

(** [s'] differs from [s] in the clock, the randomness and the faults ahead. *)
Definition same_db (s s' : store) : Prop :=
  uploads s' = uploads s ∧ entries s' = entries s ∧ blobs s' = blobs s ∧
  (faults_ok s → faults_ok s').

#[export] Instance same_db_preorder : PreOrder same_db.
Proof. split; [by intros s | intros a b c (?&?&?&?) (?&?&?&?)]. unfold same_db. split_and!; try congruence. auto. Qed.

Lemma store_ok_same s s' : same_db s s' → store_ok s → store_ok s'.
Proof.
  intros (Hu & He & Hb & Hf) [].
  constructor; rewrite ?Hu, ?He, ?Hb; auto.
Qed.

(** ** Rules for the environment *)

Lemma wp_next_fault Q s :
  (∀ f s', same_db s s' → (∀ g, f = Some g → faults_ok s → isNoRows (f_err g) = false) →
           Q (Ok f) s') →
  wp next_fault Q s.
Proof.
  intros H. unfold wp, next_fault. destruct (faults s) as [|f fs] eqn:E; simpl; apply H.
  - done.
  - done.
  - split_and!; try done. unfold faults_ok. rewrite E. simpl. apply Forall_inv_tail.
  - intros g -> Hok. unfold faults_ok in Hok. rewrite E in Hok. by apply Forall_inv in Hok; apply Hok.
Qed.

Lemma wp_fallible {A} (c : M store A) Q s :
  (∀ f s', same_db s s' → (faults_ok s → isNoRows (f_err f) = false) → Q (Err (f_err f)) s') →
  (∀ s', same_db s s' → wp c Q s') →
  wp (fallible c) Q s.
Proof.
  intros He Hc. unfold fallible. apply wp_bind, wp_next_fault. intros [f|] s' Hs Hf.
  - apply wp_throw, He; auto.
  - by apply Hc.
Qed.

Lemma wp_nowMillis Q s : (∀ t s', same_db s s' → Q (Ok t) s') → wp nowMillis Q s.
Proof. intros H. unfold wp, nowMillis. destruct (ticks s); simpl; by apply H. Qed.

Lemma wp_randomID Q s :
  (∀ e s', same_db s s' → Q (Err e) s') → (∀ id s', 0 < id ≤ 2 ^ 62 → same_db s s' → Q (Ok id) s') →
  wp randomID Q s.
Proof.
  intros He Hi. unfold wp, randomID. destruct (rands s) as [|[r|] rs]; simpl; [by apply Hi| |by apply He].
  apply Hi; [|done]. pose proof (Z.mod_pos_bound r (2 ^ 62) ltac:(lia)). lia.
Qed.

(** A query: a row in the table, no row, or a failure. *)
Lemma wp_scan_row {A} (rows : store → list A) Q s :
  (∀ s', same_db s s' → rows s' = rows s) →
  (∀ e s', same_db s s' → (faults_ok s → isNoRows e = false) → Q (Err e) s') →
  (∀ s', same_db s s' → rows s = [] → Q (Err err_no_rows) s') →
  (∀ r s', same_db s s' → head (rows s) = Some r → Q (Ok r) s') →
  wp (scan_row rows) Q s.
Proof.
  intros Hrows He Hn Hr. apply wp_fallible; [intros; by apply He|].
  intros s' Hs. specialize (Hrows s' Hs). unfold wp. rewrite Hrows.
  destruct (rows s) as [|r l]; simpl; [by apply Hn | by apply Hr].
Qed.

(** Operations that never touch the tables or the disk. *)
Definition quiet {A} (c : M store A) : Prop := ∀ s, same_db s (snd (c s)).

Lemma quiet_preserves {A} (c : M store A) : quiet c → preserves store_ok c.
Proof. intros H s Hs. eapply store_ok_same; eauto. Qed.

Lemma quiet_wp {A} (c : M store A) Q s : quiet c → (∀ r s', same_db s s' → Q r s') → wp c Q s.
Proof. intros H HQ. apply HQ, H. Qed.

Lemma quiet_bind {A B} (c : M store A) (k : A → M store B) :
  quiet c → (∀ a, quiet (k a)) → quiet (bind c k).
Proof.
  intros Hc Hk s. specialize (Hc s). unfold bind. destruct (c s) as [[a|e] s']; simpl in *; [|done].
  by etrans; [|apply Hk].
Qed.

Lemma quiet_catch {A B} (c : M store A) (k : result A → M store B) :
  quiet c → (∀ r, quiet (k r)) → quiet (catch c k).
Proof.
  intros Hc Hk s. specialize (Hc s). unfold catch. destruct (c s) as [r s']; simpl in *.
  by etrans; [|apply Hk].
Qed.

Lemma quiet_next_fault : quiet next_fault.
Proof. intros s. apply (wp_next_fault (λ _ s', same_db s s')). auto. Qed.
Lemma quiet_nowMillis : quiet nowMillis.
Proof. intros s. apply (wp_nowMillis (λ _ s', same_db s s')). auto. Qed.
Lemma quiet_ret {A} (a : A) : quiet (ret a).
Proof. by intros s. Qed.
Lemma quiet_throw {A} e : quiet (throw (A := A) e).
Proof. by intros s. Qed.
Lemma quiet_gets {A} (f : store → A) : quiet (gets f).
Proof. by intros s. Qed.
Lemma quiet_fallible {A} (c : M store A) : quiet c → quiet (fallible c).
Proof. intros H. apply quiet_bind; [apply quiet_next_fault|]. intros [f|]; [apply quiet_throw | done]. Qed.
Lemma quiet_read {A} (f : store → result A) : quiet (λ s, (f s, s)).
Proof. by intros s. Qed.

#[export] Hint Resolve quiet_bind quiet_catch quiet_next_fault quiet_nowMillis quiet_ret
  quiet_throw quiet_gets quiet_fallible : gohints.

Lemma quiet_countParts f : quiet (countParts f).
Proof. apply quiet_bind; [apply quiet_next_fault|]. intros [g|]; [case_match|]; auto with gohints. Qed.

Lemma quiet_scan_row {A} (rows : store → list A) : quiet (scan_row rows).
Proof. apply quiet_fallible. intros s. by case_match. Qed.

Lemma quiet_stat_part folder i : quiet (stat_part folder i).
Proof. apply quiet_fallible. intros s. by case_match. Qed.

Lemma quiet_require_parts folder n : ∀ i, quiet (require_parts folder n i).
Proof.
  induction n as [|n IH]; intros i; cbn [require_parts]; [apply quiet_ret|].
  apply quiet_catch; [apply quiet_stat_part|]. intros [[]|e]; [done | apply quiet_throw].
Qed.

Lemma quiet_folderSize id : quiet (folderSize id).
Proof. apply quiet_bind; [apply quiet_next_fault|]. intros [f|]; auto with gohints. Qed.

Lemma quiet_query_ids ids : quiet (query_ids ids).
Proof.
  apply quiet_fallible, quiet_bind; [apply quiet_next_fault|]. intros [f|]; [apply quiet_throw|].
  apply quiet_bind; [apply quiet_next_fault|]. intros [f|]; apply quiet_gets.
Qed.

(** ** Rows *)

Lemma up_match_iff k v sc r u : up_match k v sc r u = true ↔ upload_tuple u = (k, v, sc, r).
Proof. unfold up_match, upload_tuple. rewrite !andb_true_iff, !String.eqb_eq. split; [by intros (((-> & ->) & ->) & ->) | by intros [= -> -> -> ->]]. Qed.

Lemma ce_match_iff k v sc r e : ce_match k v sc r e = true ↔ entry_tuple e = (k, v, sc, r).
Proof. unfold ce_match, entry_tuple. rewrite !andb_true_iff, !String.eqb_eq. split; [by intros (((-> & ->) & ->) & ->) | by intros [= -> -> -> ->]]. Qed.

Lemma filter_nil_not {A} (P : A → bool) (l : list A) x : filter P l = [] → x ∈ l → P x = false.
Proof.
  intros H Hx. destruct (P x) eqn:E; [|done].
  assert (x ∈ filter P l) as Hf by (apply list_elem_of_filter; rewrite E; done).
  rewrite H in Hf. by apply elem_of_nil in Hf.
Qed.

Lemma filter_head {A} (P : A → Prop) `{∀ x, Decision (P x)} (l : list A) x :
  head (filter P l) = Some x → x ∈ l ∧ P x.
Proof.
  intros Hh. destruct (filter P l) as [|y m] eqn:E; simplify_eq/=.
  assert (x ∈ filter P l) as Hf by (rewrite E; left). apply list_elem_of_filter in Hf. tauto.
Qed.

Lemma NoDup_fmap_snoc {A B} (f : A → B) l x :
  NoDup (f <$> l) → f x ∉ f <$> l → NoDup (f <$> (l ++ [x])).
Proof.
  intros Hl Hx. rewrite fmap_app. apply NoDup_app. split_and!; [done| |apply NoDup_singleton].
  intros y Hy Hy'. apply list_elem_of_singleton in Hy'. by subst.
Qed.

Lemma NoDup_fmap_filter {A B} (f : A → B) (P : A → Prop) `{∀ x, Decision (P x)} l :
  NoDup (f <$> l) → NoDup (f <$> filter P l).
Proof.
  induction l as [|x l IH]; [done|]. rewrite fmap_cons, NoDup_cons. intros [Hx Hl].
  rewrite filter_cons. case_decide; [|auto]. rewrite fmap_cons, NoDup_cons. split; [|auto].
  intros (y & E & Hy)%list_elem_of_fmap. apply Hx. rewrite E. apply list_elem_of_fmap_2.
  apply list_elem_of_filter in Hy. tauto.
Qed.

(** Distinct values of an injective-on-[l] key pick out one row. *)
Lemma NoDup_fmap_eq {A B} (f : A → B) l x y :
  NoDup (f <$> l) → x ∈ l → y ∈ l → f x = f y → x = y.
Proof.
  induction l as [|z l IH]; [by intros _ ?%elem_of_nil|].
  rewrite fmap_cons, NoDup_cons, !elem_of_cons, list_elem_of_fmap. intros [Hz Hl].
  intros [->|Hx] [->|Hy] E; auto; exfalso; apply Hz; eauto.
Qed.

(** ** Tables *)

Lemma store_ok_uploads f s :
  store_ok s → NoDup (up_id <$> f (uploads s)) → NoDup (upload_tuple <$> f (uploads s)) →
  (∀ u, u ∈ f (uploads s) → 0 ≤ up_finished u ≤ up_started u) →
  store_ok (set_uploads f s).
Proof. intros []. by constructor. Qed.

Lemma store_ok_blobs f s :
  store_ok s → (∀ e, e ∈ entries s → complete (f (blobs s)) e) → store_ok (set_blobs f s).
Proof. intros []. by constructor. Qed.

Lemma complete_mono b b' e :
  (∀ i, is_Some (default ∅ (b !! ce_id e) !! i) → is_Some (default ∅ (b' !! ce_id e) !! i)) →
  complete b e → complete b' e.
Proof. intros H [Hp Hc]. split; auto. Qed.

(** Writing a part never takes one away. *)
Lemma complete_write b folder index data e :
  complete b e → complete (<[folder := <[index := data]> (default ∅ (b !! folder))]> b) e.
Proof.
  apply complete_mono. intros i Hi. destruct (decide (folder = ce_id e)) as [->|Hne].
  - rewrite lookup_insert_eq. simpl. destruct (decide (index = i)) as [->|];
      [rewrite lookup_insert_eq | rewrite lookup_insert_ne]; eauto.
  - by rewrite lookup_insert_ne.
Qed.

Lemma map_upload_keys {B} (key : upload_row → B) id f (l : list upload_row) :
  (∀ u, key (f u) = key u) →
  key <$> ((λ u, if decide (up_id u = id) then f u else u) <$> l) = key <$> l.
Proof.
  intros H. rewrite <-list_fmap_compose. apply list_fmap_ext. intros i u _. simpl. by case_decide.
Qed.

Lemma delete_upload_ok id : preserves store_ok (delete_upload id).
Proof.
  apply preserves_wp. intros s Hs. apply wp_fallible.
  { intros f s' Hs' _. by eapply store_ok_same. }
  intros s' Hs'. apply wp_modify. eapply store_ok_same in Hs; [|done].
  apply store_ok_uploads; [done| | |].
  - apply NoDup_fmap_filter, Hs.
  - apply NoDup_fmap_filter, Hs.
  - intros u Hu%list_elem_of_filter. apply Hs. tauto.
Qed.

Lemma abandon_upload_ok {A} id e : preserves store_ok (abandon_upload (A := A) id e).
Proof.
  apply preserves_catch; [apply delete_upload_ok | intros; apply preserves_throw].
Qed.

Lemma createUpload_ok k v sc r : preserves store_ok (createUpload k v sc r).
Proof.
  apply preserves_wp. intros s Hs. unfold createUpload, select_upload.
  apply wp_catch, wp_scan_row.
  - by intros s' (-> & _).
  - intros e s' Hs' He. rewrite He by apply Hs. simpl. apply wp_throw.
    by eapply store_ok_same.
  - intros s' Hs' Hnil. simpl. eapply store_ok_same in Hs as Hok; [|done].
    apply wp_bind, wp_randomID; [intros; by eapply store_ok_same|].
    intros id s2 Hid Hs2. eapply store_ok_same in Hok; [|done].
    apply wp_bind, wp_fallible; [intros; by eapply store_ok_same|].
    intros s3 Hs3. eapply store_ok_same in Hok; [|done].
    unfold wp. case_bool_decide as Hin; simpl; [done|].
    destruct Hs3 as (Hu3 & _), Hs2 as (Hu2 & _), Hs' as (Hu1 & _).
    rewrite <-Hu1, <-Hu2, <-Hu3 in Hnil. apply store_ok_uploads; [done| | |].
    + apply NoDup_fmap_snoc; [apply Hok | done].
    + apply NoDup_fmap_snoc; [apply Hok|]. rewrite list_elem_of_fmap. intros (u & Hu & Hin').
      apply (filter_nil_not _ _ u) in Hnil; [|done].
      assert (up_match k v sc r u = true) as E by (by apply up_match_iff). congruence.
    + intros u [Hu| ->%list_elem_of_singleton]%elem_of_app; [by apply Hok | simpl; lia].
  - intros u s' Hs' _. simpl. by eapply store_ok_same.
Qed.

(** ** Uploading a part *)

(** Every row with [id] has a part under way. *)
Definition part_open (id : Z) (s : store) : Prop :=
  store_ok s ∧ ∀ u, u ∈ uploads s → up_id u = id → up_finished u < up_started u.

Lemma part_open_same id s s' : same_db s s' → part_open id s → part_open id s'.
Proof. intros Hs [Hok Hp]. split; [by eapply store_ok_same|]. destruct Hs as (-> & _). done. Qed.

Lemma part_open_blobs id f s :
  (∀ e, e ∈ entries s → complete (f (blobs s)) e) → part_open id s → part_open id (set_blobs f s).
Proof. intros Hf [Hok Hp]. split; [by apply store_ok_blobs | done]. Qed.

Lemma mkdir_parts_open id folder : preserves (part_open id) (mkdir_parts folder).
Proof.
  apply preserves_wp. intros s Hs. apply wp_fallible.
  { intros f s' Hs' _. by eapply part_open_same. }
  intros s' Hs'. apply wp_modify. eapply part_open_same in Hs; [|done].
  apply part_open_blobs; [|done]. intros e He. eapply complete_mono; [|by apply Hs].
  intros i Hi. destruct (decide (folder = ce_id e)) as [->|];
    [rewrite lookup_insert_eq | rewrite lookup_insert_ne]; done.
Qed.

Lemma create_part_open id folder i : preserves (part_open id) (create_part folder i).
Proof.
  apply preserves_wp. intros s Hs. apply wp_fallible.
  { intros f s' Hs' _. by eapply part_open_same. }
  intros s' Hs'. apply wp_modify. eapply part_open_same in Hs; [|done].
  apply part_open_blobs; [|done]. intros e He. by apply complete_write, Hs.
Qed.

Lemma copy_part_open id folder i r : preserves (part_open id) (copy_part folder i r).
Proof.
  apply preserves_wp. intros s Hs. unfold copy_part. apply wp_bind, wp_next_fault.
  intros f s' Hs' _. eapply part_open_same in Hs; [|done]. apply wp_bind, wp_modify.
  assert (∀ data, part_open id
    (set_blobs (λ b, <[folder := <[i := data]> (default ∅ (b !! folder))]> b) s')) as H.
  { intros data. apply part_open_blobs; [|done]. intros e He. by apply complete_write, Hs. }
  destruct f as [f|]; [by apply wp_throw|]. case_match; first [by apply wp_throw | by apply wp_ret].
Qed.

Lemma start_part_open id s : store_ok s → wp (map_upload id start_part)
  (λ r s', store_ok s' ∧ (r = Ok tt → part_open id s')) s.
Proof.
  intros Hs. apply wp_fallible.
  { intros f s' Hs' _. split; [by eapply store_ok_same | done]. }
  intros s' Hs'. eapply store_ok_same in Hs; [|done]. apply wp_modify.
  assert (store_ok (set_uploads (fmap (λ u, if decide (up_id u = id) then start_part u else u)) s'))
    as Hok.
  { apply store_ok_uploads; [done| | |]; rewrite ?map_upload_keys by done; try apply Hs.
    intros u (v & -> & Hv)%list_elem_of_fmap. apply Hs in Hv. case_decide; simpl; lia. }
  split; [done|]. intros _. split; [done|]. simpl.
  intros u (v & -> & Hv)%list_elem_of_fmap. apply Hs in Hv. case_decide; simpl; [lia|done].
Qed.

Lemma finish_part_ok id s : part_open id s → wp (map_upload id finish_part) (λ _ s', store_ok s') s.
Proof.
  intros Hs. apply wp_fallible.
  { intros f s' Hs' _. eapply store_ok_same; [done | apply Hs]. }
  intros s' Hs'. eapply part_open_same in Hs as [Hok Ho]; [|done]. apply wp_modify.
  apply store_ok_uploads; [done| | |]; rewrite ?map_upload_keys by done; try apply Hok.
  intros u (v & -> & Hv)%list_elem_of_fmap. pose proof (ok_counts _ Hok v Hv).
  case_decide; simpl; [specialize (Ho v Hv ltac:(done)); lia | done].
Qed.

(** Run [c] under an invariant the continuation needs. *)
Lemma wp_bind_preserves {A B} (P : store → Prop) (c : M store A) (k : A → M store B) s :
  preserves P c → P s → (∀ s, P s → store_ok s) →
  (∀ a s', P s' → wp (k a) (λ _ s', store_ok s') s') → wp (bind c k) (λ _ s', store_ok s') s.
Proof.
  intros Hc Hs HP Hk. apply wp_bind. eapply wp_mono; [by apply wp_preserves|].
  intros [a|e] s' Hs'; auto.
Qed.

Lemma uploadPart_ok id i r : preserves store_ok (uploadPart id i r).
Proof.
  apply preserves_wp. intros s Hs. unfold uploadPart. apply wp_catch.
  apply quiet_wp; [apply quiet_scan_row|]. intros q s' Hs'. eapply store_ok_same in Hs; [|done].
  destruct q as [u|e]; [|case_match; first [by apply wp_ret | by apply wp_throw]].
  apply wp_bind. eapply wp_mono; [by apply start_part_open|]. intros [[]|e] s1 [Hok Ho]; [|done].
  specialize (Ho eq_refl). assert (∀ s, part_open id s → store_ok s) as Hp by (by intros ? []).
  eapply wp_bind_preserves; [apply (mkdir_parts_open id) | done | done |]. intros _ s2 Ho2.
  eapply wp_bind_preserves; [apply (create_part_open id) | done | done |]. intros _ s3 Ho3.
  eapply wp_bind_preserves; [apply (copy_part_open id) | done | done |]. intros _ s4 Ho4.
  apply wp_bind, wp_fallible; [intros f s5 Hs5 _; eapply store_ok_same; [done | by apply Hp]|].
  intros s5 Hs5. apply wp_ret. simpl. apply finish_part_ok. by eapply part_open_same.
Qed.

(** ** Removing entries *)

Lemma remove_all_ok folder : preserves (λ s, store_ok s ∧ folder ∉ ce_id <$> entries s)
  (remove_all folder).
Proof.
  apply preserves_wp. intros s [Hs Hn]. unfold remove_all. apply wp_bind, wp_next_fault.
  intros f s' Hs' _. eapply store_ok_same in Hs; [|done]. destruct Hs' as (_ & He & _ & _).
  rewrite <-He in Hn.
  assert (∀ e, e ∈ entries s' → ce_id e ≠ folder) as Hne.
  { intros e Hin <-. apply Hn. by apply list_elem_of_fmap_2. }
  destruct f as [f|].
  - apply wp_bind, wp_modify, wp_throw. split; [|done]. apply store_ok_blobs; [done|].
    intros e Hin. eapply complete_mono; [|by apply Hs]. intros i.
    rewrite lookup_alter_ne; [done|]. by apply not_eq_sym, Hne.
  - apply wp_modify. split; [|done]. apply store_ok_blobs; [done|].
    intros e Hin. eapply complete_mono; [|by apply Hs]. intros i.
    rewrite lookup_delete_ne; [done|]. by apply not_eq_sym, Hne.
Qed.

Lemma store_ok_sub f s :
  store_ok s → NoDup (ce_id <$> f (entries s)) → NoDup (entry_tuple <$> f (entries s)) →
  (∀ e, e ∈ f (entries s) → complete (blobs s) e) → store_ok (set_entries f s).
Proof. intros []. by constructor. Qed.

Lemma deleteEntry_ok id : preserves store_ok (deleteEntry id).
Proof.
  apply preserves_wp. intros s Hs. unfold deleteEntry. apply wp_bind, wp_fallible.
  { intros f s' Hs' _. by eapply store_ok_same. }
  intros s' Hs'. eapply store_ok_same in Hs; [|done]. apply wp_modify. simpl.
  eapply wp_mono; [apply (wp_preserves _ _ _ (remove_all_ok id))|by intros ? ? []]. split.
  - apply store_ok_sub; [done| | |]; [apply NoDup_fmap_filter, Hs ..|].
    intros e He%list_elem_of_filter. apply Hs. tauto.
  - simpl. intros (e & He & Hin)%list_elem_of_fmap. apply list_elem_of_filter in Hin as [? _]. congruence.
Qed.

Lemma delete_ids_ok ids : ∀ n, preserves store_ok (delete_ids ids n).
Proof.
  induction ids as [|id ids IH]; intros n; cbn [delete_ids]; [apply preserves_ret|].
  apply preserves_catch; [apply deleteEntry_ok|]. intros [[]|e]; [done | apply preserves_ret].
Qed.

Lemma delete_until_ok m ids : ∀ t n, preserves store_ok (delete_until m ids t n).
Proof.
  induction ids as [|id ids IH]; intros t n; cbn [delete_until]; [apply preserves_ret|].
  case_match; [apply preserves_ret|].
  apply preserves_bind; [apply quiet_preserves, quiet_folderSize|]. intros [sz err].
  apply preserves_catch; [apply deleteEntry_ok|]. intros [[]|e]; [done | apply preserves_ret].
Qed.

Lemma evict_ok `{Sqlite} olderThan maxBytes : preserves store_ok (evict olderThan maxBytes).
Proof.
  unfold evict. apply preserves_bind.
  - unfold evict_stale. case_match; [|apply preserves_ret].
    apply preserves_catch; [apply quiet_preserves, quiet_query_ids|].
    intros [ids|e]; [apply delete_ids_ok | apply preserves_ret].
  - intros [n [e|]]; [apply preserves_ret|]. unfold evict_oversize.
    case_match; [|apply preserves_ret].
    apply preserves_catch; [apply quiet_preserves, quiet_fallible, quiet_gets|].
    intros [t|e]; [|apply preserves_ret]. case_match; [|apply preserves_ret].
    apply preserves_catch; [apply quiet_preserves, quiet_query_ids|].
    intros [ids|e]; [apply delete_until_ok | apply preserves_ret].
Qed.

(** ** Completing an upload *)

Lemma stat_part_spec folder i Q s :
  (∀ e s', same_db s s' → Q (Err e) s') →
  (∀ s', same_db s s' → is_Some (folder_parts folder s !! i) → Q (Ok tt) s') →
  wp (stat_part folder i) Q s.
Proof.
  intros He Ho. apply wp_fallible; [intros; by apply He|].
  intros s' Hs. unfold wp. assert (folder_parts folder s' = folder_parts folder s) as E
    by (unfold folder_parts; by destruct Hs as (_ & _ & -> & _)).
  rewrite E. case_match; simpl; [apply Ho; eauto | by apply He].
Qed.

(** [requireContiguousParts] succeeds only when every part is there. *)
Lemma require_parts_spec folder n : ∀ i s,
  wp (require_parts folder n i)
     (λ r s', same_db s s' ∧
        (r = Ok tt → ∀ j, i ≤ j < i + Z.of_nat n → is_Some (folder_parts folder s !! j))) s.
Proof.
  induction n as [|n IH]; intros i s; cbn [require_parts].
  { apply wp_ret. split; [done | intros; lia]. }
  apply wp_catch, stat_part_spec.
  - intros e s' Hs. apply wp_throw. by split.
  - intros s' Hs Hi. eapply wp_mono; [apply IH|]. simpl. intros r s2 [Hs2 Hr].
    split; [by transitivity s'|]. intros -> j Hj. destruct (decide (j = i)) as [->|]; [done|].
    assert (folder_parts folder s' = folder_parts folder s) as <-
      by (unfold folder_parts; by destruct Hs as (_ & _ & -> & _)).
    apply Hr; [done | lia].
Qed.

Lemma promote_ok k v sc r folder n s :
  store_ok s → 0 < n → (∀ i, 0 ≤ i < n → is_Some (folder_parts folder s !! i)) →
  wp (promote k v sc r folder n) (λ _ s', store_ok s') s.
Proof.
  intros Hs Hn Hparts. unfold promote. apply wp_catch, wp_scan_row.
  - by intros s' (_ & -> & _).
  - intros e s' Hs' He. rewrite He by apply Hs. apply wp_throw. by eapply store_ok_same.
  - intros s' Hs' Hnil. simpl. eapply store_ok_same in Hs as Hok; [|done].
    apply wp_bind, wp_nowMillis. intros t1 s1 Hs1. apply wp_bind, wp_nowMillis. intros t2 s2 Hs2.
    assert (same_db s s2) as Hss2 by (transitivity s'; [done|]; by transitivity s1).
    apply wp_fallible; [intros f s3 Hs3 _; apply (store_ok_same s); [by transitivity s2|done]|].
    intros s3 Hs3. assert (same_db s s3) as Hss by by transitivity s2.
    clear s' s1 s2 Hs' Hs1 Hs2 Hss2 Hs3 Hok. eapply store_ok_same in Hs as Hok; [|done].
    destruct Hss as (_ & He & Hb & _). unfold wp. case_bool_decide as Hin; simpl; [done|].
    apply store_ok_sub; [done| | |].
    + apply NoDup_fmap_snoc; [apply Hok | done].
    + apply NoDup_fmap_snoc; [apply Hok|]. intros (e & Het & Hine)%list_elem_of_fmap.
      rewrite He in Hine. apply (filter_nil_not _ _ e) in Hnil; [|done].
      assert (ce_match k v sc r e = true) by (by apply ce_match_iff). congruence.
    + intros e [Hine| ->%list_elem_of_singleton]%elem_of_app; [by apply Hok|].
      split; simpl; [done|]. rewrite Hb. done.
  - intros old s' Hs' [Hold Hm%Is_true_true]%filter_head. simpl.
    apply wp_bind, wp_nowMillis. intros t1 s1 Hs1. apply wp_bind, wp_nowMillis. intros t2 s2 Hs2.
    assert (same_db s s2) as Hss2 by (transitivity s'; [done|]; by transitivity s1).
    apply wp_bind, wp_fallible; [intros f s3 Hs3 _; apply (store_ok_same s); [by transitivity s2|done]|].
    intros s3 Hs3. assert (same_db s s3) as Hss by by transitivity s2.
    clear s' s1 s2 Hs' Hs1 Hs2 Hss2 Hs3. eapply store_ok_same in Hs as Hok; [|done].
    destruct Hss as (_ & He & Hb & _). unfold wp at 1. case_bool_decide as Hnd; simpl; [|done].
    apply ce_match_iff in Hm.
    set (new := (λ e, if ce_match k v sc r e
                      then EntryRow folder (ce_key e) (ce_version e) (ce_scope e) (ce_repo e) n t1 t2
                      else e) <$> entries s3) in *.
    assert (store_ok (set_entries (λ _, new) s3)) as Hnew.
    { apply store_ok_sub; [done|done| |].
      - unfold new. rewrite <-list_fmap_compose.
        rewrite (list_fmap_ext _ entry_tuple); [apply Hok|].
        intros i e _. simpl. by case_match.
      - unfold new. intros e (e' & -> & Hin')%list_elem_of_fmap. apply Hok in Hin'.
        case_match; [|done]. split; simpl; [done|]. rewrite Hb. done. }
    case_match eqn:Hne; [|by apply wp_ret].
    apply wp_catch. eapply wp_mono; [apply (wp_preserves _ _ _ (remove_all_ok (ce_id old)))|].
    + split; [done|]. simpl. unfold new. rewrite <-list_fmap_compose.
      intros (e & Heq & Hin)%list_elem_of_fmap. simpl in Heq.
      destruct (ce_match k v sc r e) eqn:Ee; simpl in Heq.
      * rewrite Heq, String.eqb_refl, andb_false_r in Hne. done.
      * rewrite He in Hin. assert (e = old) as -> by (eapply (NoDup_fmap_eq ce_id); [apply Hs| | |]; done).
        assert (ce_match k v sc r old = true) by (by apply ce_match_iff). congruence.
    + intros rr s4 [Hok4 _]. by apply wp_ret.
Qed.

Lemma completeUpload_ok k v sc r : preserves store_ok (completeUpload k v sc r).
Proof.
  apply preserves_wp. intros s Hs. unfold completeUpload. apply wp_catch, wp_scan_row.
  { by intros s' (-> & _). }
  { intros e s' Hs' He. apply wp_throw. by eapply store_ok_same. }
  { intros s' Hs' _. apply wp_throw. by eapply store_ok_same. }
  intros u s' Hs' [Hu _]%filter_head. eapply store_ok_same in Hs as Hok; [|done].
  assert (∀ e s, store_ok s → wp (abandon_upload (A := string) (up_id u) e) (λ _ s', store_ok s') s)
    as Hab by (intros; by apply wp_preserves, H; apply abandon_upload_ok).
  case_match eqn:Hf; [by apply Hab|]. case_match; [by apply Hab|].
  apply wp_bind, quiet_wp; [apply quiet_countParts|]. intros [n|e] s1 Hs1; [|by eapply store_ok_same].
  assert (store_ok s1) as Hok1 by by eapply store_ok_same.
  case_match eqn:Hn; [by apply Hab|]. apply negb_false_iff, Z.eqb_eq in Hn as ->.
  apply Z.eqb_neq in Hf. assert (0 < up_finished u) as Hpos by (pose proof (ok_counts _ Hs u Hu); lia).
  apply wp_catch. eapply wp_mono; [apply require_parts_spec|]. intros c s2 [Hs2 Hc].
  assert (store_ok s2) as Hok2 by by eapply store_ok_same.
  destruct c as [[]|e]; [|by apply Hab].
  apply wp_bind. eapply wp_mono; [apply promote_ok; [done|done|]|].
  - intros i Hi. specialize (Hc eq_refl i). destruct Hs2 as (_ & _ & Hb & _).
    unfold folder_parts in *. rewrite Hb. apply Hc. lia.
  - intros [[]|e] s3 Hok3; [|done].
    apply wp_bind. eapply wp_mono; [apply wp_preserves; [apply delete_upload_ok|done]|].
    intros [[]|e] s4 Hok4; [by apply wp_ret | done].
Qed.

(** ** Lookup and whole runs *)

Lemma touchEntry_ok id : preserves store_ok (touchEntry id).
Proof.
  apply preserves_wp. intros s Hs. unfold touchEntry. apply wp_bind, wp_nowMillis.
  intros t s1 Hs1. apply wp_catch, wp_fallible.
  { intros f s2 Hs2 _. apply wp_ret. apply (store_ok_same s); [by transitivity s1 | done]. }
  intros s2 Hs2. apply wp_modify, wp_ret.
  assert (store_ok s2) as Hok by (apply (store_ok_same s); [by transitivity s1 | done]).
  assert (∀ {B} (f : entry_row → B), (∀ e, f (set_last_used id t e) = f e) →
    f <$> (set_last_used id t <$> entries s2) = f <$> entries s2) as Hf.
  { intros B f Hf. rewrite <-list_fmap_compose. apply list_fmap_ext. intros i e _. apply Hf. }
  apply store_ok_sub; [done| | |].
  - rewrite Hf; [apply Hok|]. intros e. unfold set_last_used. by case_match.
  - rewrite Hf; [apply Hok|]. intros e. unfold set_last_used. by case_match.
  - intros e (e' & -> & He)%list_elem_of_fmap. apply Hok in He.
    unfold set_last_used. by case_match.
Qed.

Section ops.
Context `{Sqlite}.

Lemma quiet_scanEntry q : quiet q → quiet (scanEntry q).
Proof. intros Hq. apply quiet_catch; [done|]. intros [e|e]; [|case_match]; auto with gohints. Qed.

Lemma or_touched_ok q next :
  quiet q → preserves store_ok next → preserves store_ok (or_touched q next).
Proof.
  intros Hq Hn. apply preserves_catch; [by apply quiet_preserves|].
  intros [[e|]|e]; [|done|apply preserves_throw].
  apply preserves_bind; [apply touchEntry_ok | intros; apply preserves_ret].
Qed.

Lemma quiet_queries k v sc r : quiet (queryExact k v sc r) ∧ quiet (queryPrefix k v sc r).
Proof. split; apply quiet_scanEntry, quiet_scan_row. Qed.

Lemma match_restore_ok restore v sc r next :
  preserves store_ok next → preserves store_ok (match_restore restore v sc r next).
Proof.
  intros Hn. induction restore as [|rk restore IH]; cbn [match_restore]; [done|].
  do 2 (apply or_touched_ok; [apply quiet_queries|]). done.
Qed.

Lemma matchEntry_ok keys v scopes r : preserves store_ok (matchEntry keys v scopes r).
Proof.
  destruct keys as [|k restore]; [apply preserves_ret|]. simpl.
  induction scopes as [|sc scopes IH]; cbn [match_scopes]; [apply preserves_ret|].
  do 2 (apply or_touched_ok; [apply quiet_queries|]). by apply match_restore_ok.
Qed.

(** What the server asks of its store. *)
Inductive store_op :=
| OpCreate (key version scope repoID : string)
| OpUpload (id index : Z) (r : body)
| OpComplete (key version scope repoID : string)
| OpMatch (keys : list string) (version : string) (scopes : list string) (repoID : string)
| OpEvict (olderThan maxBytes : Z).

Definition run_op (o : store_op) (s : store) : store :=
  match o with
  | OpCreate k v sc r => snd (createUpload k v sc r s)
  | OpUpload id i b => snd (uploadPart id i b s)
  | OpComplete k v sc r => snd (completeUpload k v sc r s)
  | OpMatch ks v scs r => snd (matchEntry ks v scs r s)
  | OpEvict a m => snd (evict a m s)
  end.

Definition run_ops (ops : list store_op) (s : store) : store := foldl (λ s o, run_op o s) s ops.

Lemma run_op_ok o s : store_ok s → store_ok (run_op o s).
Proof.
  destruct o; simpl; [apply createUpload_ok | apply uploadPart_ok | apply completeUpload_ok
                     | apply matchEntry_ok | apply evict_ok].
Qed.

Lemma run_ops_ok ops s : store_ok s → store_ok (run_ops ops s).
Proof. revert s; induction ops as [|o ops IH]; intros s Hs; [done|]. by apply IH, run_op_ok. Qed.

(** A store just opened on an empty directory. *)
Definition empty_store (t : Z) (tk : list Z) (rs : list (option Z)) (fs : list (option fault)) : store :=
  Store [] [] ∅ t tk rs fs.

Lemma empty_store_ok t tk rs fs : faults_ok (empty_store t tk rs fs) → store_ok (empty_store t tk rs fs).
Proof. intros Hf. constructor; simpl; try apply NoDup_nil_2; try done; by intros ? ?%elem_of_nil. Qed.

(** C3: after any sequence of store operations on an empty store, with any
    pattern of database, disk, network and entropy failures, every finalized
    cache entry has all of its parts on disk, no two entries share a key,
    version, scope and repository (nor an id), at most one upload is open per
    key, version, scope and repository, and no upload has finished more parts
    than it started. *)
Theorem store_runs_ok ops t tk rs fs :
  faults_ok (empty_store t tk rs fs) →
  let s := run_ops ops (empty_store t tk rs fs) in
  (∀ e, e ∈ entries s → 0 < ce_part_count e ∧
     ∀ i, 0 ≤ i < ce_part_count e → is_Some (folder_parts (ce_id e) s !! i)) ∧
  NoDup (ce_id <$> entries s) ∧ NoDup (entry_tuple <$> entries s) ∧
  NoDup (upload_tuple <$> uploads s) ∧
  (∀ u, u ∈ uploads s → 0 ≤ up_finished u ≤ up_started u).
Proof.
  intros Hf s. destruct (run_ops_ok ops _ (empty_store_ok _ _ _ _ Hf)) as [].
  split_and!; auto.
Qed.
End ops.

(** A run with a dropped connection in the middle of a part. *)
Definition sample_ops : list store_op :=
  [OpCreate "k" "v" "main" "7"; OpUpload 6 0 (Body "abc" None);
   OpUpload 6 1 (Body "d" (Some (errorf "unexpected EOF"))); OpUpload 6 1 (Body "def" None);
   OpComplete "k" "v" "main" "7"; OpMatch ["k"] "v" ["main"] "7"; OpEvict 0 3].

Lemma store_runs_ok_witness :
  let s := run_ops (H := sqlite_ref) sample_ops
             (empty_store 1000 [1; 2] [Some 5] [None; None; Some (Fault (errorf "database is locked") 0)]) in
  (∀ e, e ∈ entries s → 0 < ce_part_count e ∧
     ∀ i, 0 ≤ i < ce_part_count e → is_Some (folder_parts (ce_id e) s !! i)) ∧
  NoDup (ce_id <$> entries s) ∧ NoDup (entry_tuple <$> entries s) ∧
  NoDup (upload_tuple <$> uploads s) ∧
  (∀ u, u ∈ uploads s → 0 ≤ up_finished u ≤ up_started u).
Proof.
  apply (store_runs_ok (H := sqlite_ref)).
  repeat constructor; intros f [= <-]; reflexivity.
Defined.
