(* ===== verification/CacheStoreSpec.v ===== *)
(** * What the cache store does

    Functional correctness of [CacheStore] when nothing fails: the upload,
    finalize and download round trip, lookup, and eviction. *)

From S2P Require Import Prelude GoErr GoStr CacheStore Sqlite CacheStoreInv.

Local Open Scope Z_scope.
Local Open Scope go_scope.

(** ** Streaming a finalized entry *)

(** The contents of parts [i .. i+n-1], in order. *)
Fixpoint cat_parts (m : gmap Z string) (i : Z) (n : nat) : string :=
  match n with
  | O => ""
  | S n => default "" (m !! i) +:+ cat_parts m (i + 1) n
  end.

(** What a reader has still to give. *)
Definition pending (m : gmap Z string) (p : partsReader) : string :=
  match pr_cur p with
  | Some c => c +:+ cat_parts m (pr_idx p + 1) (Z.to_nat (pr_partCount p - pr_idx p - 1))
  | None => cat_parts m (pr_idx p) (Z.to_nat (pr_partCount p - pr_idx p))
  end.

(** The parts ahead exist, and an open part is one of them. *)
Definition reader_ok (m : gmap Z string) (p : partsReader) : Prop :=
  (∀ i, pr_idx p ≤ i < pr_partCount p → is_Some (m !! i)) ∧
  (is_Some (pr_cur p) → pr_idx p < pr_partCount p).

(** An upload that got its first [n] parts and no others, in a store where
    nothing fails. *)
Record uploading (id : Z) (k v sc r : string) (n : Z) (parts : gmap Z string) (s : store) : Prop := {
  ul_faults : faults s = [];
  ul_ok : store_ok s;
  ul_row : UploadRow id k v sc r n n ∈ uploads s;
  ul_parts : folder_parts (format_int id) s = parts;
  ul_fresh : format_int id ∉ ce_id <$> entries s
}.

(** A client's chunk PUTs, in the order they arrive. *)
Fixpoint put_chunks (id : Z) (chunks : list (Z * string)) : M store unit :=
  match chunks with
  | [] => ret tt
  | (i, c) :: chunks => uploadPart id i (Body c None) ;;; put_chunks id chunks
  end.

(** A whole cache save: reserve, put the chunks, finalize. *)
Definition save (key version scope repoID : string) (chunks : list (Z * string)) : M store string :=
  let! '(id, created) := createUpload key version scope repoID in
  if created then put_chunks id chunks ;;; completeUpload key version scope repoID
  else throw (errorf "already exists").

(** A download, read in pieces of [k] bytes. *)
Definition fetch (fuel k : nat) (id : string) : M store (option (string * option goerror)) :=
  let! p := openDownload id in copy_out fuel k p.

(** ** Rules for a world without faults *)

Section no_faults.
Context {A : Type} (Q : result A → store → Prop) (s : store) (Hs : faults s = []).

Lemma wp_fallible_nf (c : M store A) : wp c Q s → wp (fallible c) Q s.
Proof using Hs. unfold wp, fallible, bind, next_fault. by rewrite Hs. Qed.
End no_faults.

Lemma wp_next_fault_nf (Q : result (option fault) → store → Prop) s :
  faults s = [] → Q (Ok None) s → wp next_fault Q s.
Proof. intros Hs. unfold wp, next_fault. by rewrite Hs. Qed.

Lemma next_fault_nf s : faults s = [] → next_fault s = (Ok None, s).
Proof. intros Hs. unfold next_fault. by rewrite Hs. Qed.

Lemma fallible_nf {A} (c : M store A) s : faults s = [] → fallible c s = c s.
Proof. intros Hs. unfold fallible, bind. by rewrite next_fault_nf. Qed.

Lemma wp_eq {A} (c : M store A) Q s r s' : c s = (r, s') → Q r s' → wp c Q s.
Proof. unfold wp. by intros ->. Qed.

(** ** Reading *)

Lemma open_part_nf m p s c :
  faults s = [] → folder_parts (pr_folder p) s = m → m !! pr_idx p = Some c →
  open_part p s = (Ok c, s).
Proof. intros Hs Hm Hc. unfold open_part. by rewrite fallible_nf, Hm, Hc. Qed.

Lemma str_take_nonempty k s : (0 < k)%nat → s ≠ "" → str_take k s ≠ "".
Proof. destruct k; [lia|]. by destruct s. Qed.

Lemma read_parts_spec m k s : faults s = [] → (0 < k)%nat → ∀ n p,
  n = Z.to_nat (pr_partCount p - pr_idx p) → folder_parts (pr_folder p) s = m → reader_ok m p →
  (pending m p = "" ∧ ∃ p', read_parts n k p s = (Ok (REOF, p'), s)) ∨
  (∃ bs p', read_parts n k p s = (Ok (RData bs, p'), s) ∧ bs ≠ "" ∧
     pending m p = bs +:+ pending m p' ∧ reader_ok m p' ∧ pr_folder p' = pr_folder p).
Proof.
  intros Hs Hk n. induction n as [|n IH]; intros [f pc idx cur] Hn Hm [Hp Hc]; simpl in *.
  - destruct cur as [c|]; [specialize (Hc ltac:(eauto)); lia|].
    rewrite (proj2 (Z.leb_le _ _)) by lia. left. split; [|by eexists].
    unfold pending; simpl. by rewrite <-Hn.
  - assert (idx < pc) as Hlt by lia.
    assert (∀ c, pending m (PartsReader f pc idx (Some c)) =
                 c +:+ pending m (PartsReader f pc (idx + 1) None)) as Hpend.
    { intros c. unfold pending; simpl. do 2 f_equal. lia. }
    assert (∃ c, pending m (PartsReader f pc idx cur) = pending m (PartsReader f pc idx (Some c)) ∧
      read_parts (S n) k (PartsReader f pc idx cur) s =
      read_parts (S n) k (PartsReader f pc idx (Some c)) s) as (c & Hpc & Hrc).
    { destruct cur as [c|]; [by exists c|]. destruct (Hp idx) as [c Hci]; [lia|]. exists c. split.
      - rewrite Hpend. unfold pending; simpl. rewrite <-Hn. cbn [cat_parts]. rewrite Hci. simpl.
        do 2 f_equal. lia.
      - cbn [read_parts pr_cur pr_partCount pr_idx pr_folder].
        rewrite (proj2 (Z.leb_gt _ _)) by lia. unfold catch.
        by rewrite (open_part_nf m _ _ c). }
    change (let step := _ in _) with (read_parts (S n) k (PartsReader f pc idx cur)) in *.
    cbn [read_parts pr_cur pr_partCount pr_idx pr_folder] in Hrc |- *.
    rewrite Hpc, Hpend. cbn [pr_cur] in Hrc. setoid_rewrite Hrc. unfold bind.
    rewrite next_fault_nf by done. destruct c as [|a c].
    + apply (IH (PartsReader f pc (idx + 1) None)); simpl; [lia|done|].
      split; simpl; [intros; apply Hp; lia | intros [? ?]; done].
    + right. eexists _, _. split; [reflexivity|]. split; [by apply str_take_nonempty|].
      rewrite Hpend, <-str_app_assoc, str_take_drop. split; [done|]. split; [|done].
      split; simpl; [done | intros; lia].
Qed.

Lemma copy_out_spec m k s : faults s = [] → (0 < k)%nat → ∀ fuel p,
  folder_parts (pr_folder p) s = m → reader_ok m p → (String.length (pending m p) < fuel)%nat →
  copy_out fuel k p s = (Ok (Some (pending m p, None)), s).
Proof.
  intros Hs Hk fuel. induction fuel as [|fuel IH]; intros p Hm Hok Hlen; [lia|].
  cbn [copy_out]. unfold bind, pr_read.
  destruct (read_parts_spec m k s Hs Hk (Z.to_nat (pr_partCount p - pr_idx p)) p)
    as [(E & p' & ->)|(bs & p' & -> & Hbs & Hp & Hok' & Hf)]; [done..| |].
  - by rewrite E.
  - rewrite Hp, str_length_app in Hlen. destruct bs as [|c bs]; [done|]. simpl in Hlen.
    rewrite IH; [|by rewrite Hf|done|lia]. simpl. by rewrite Hp.
Qed.

(** ** Uploading *)

Lemma in_filter_head {A} (P : A → Prop) `{∀ x, Decision (P x)} (l : list A) x :
  x ∈ l → P x → ∃ y, filter P l = y :: tail (filter P l) ∧ y ∈ l ∧ P y.
Proof.
  intros Hx HP. assert (x ∈ filter P l) as Hf by by apply list_elem_of_filter.
  destruct (filter P l) as [|y m] eqn:E; [by apply elem_of_nil in Hf|].
  exists y. split; [done|]. assert (y ∈ filter P l) as Hy by (rewrite E; left).
  apply list_elem_of_filter in Hy. tauto.
Qed.

(** The only row with the value of [x] under a key without duplicates. *)
Lemma filter_unique {A B} (f : A → B) (P : A → Prop) `{∀ x, Decision (P x)} (l : list A) x :
  NoDup (f <$> l) → x ∈ l → P x → (∀ y, y ∈ l → P y → f y = f x) → head (filter P l) = Some x.
Proof.
  intros Hnd Hx HP Hf. destruct (in_filter_head P l x Hx HP) as (y & E & Hy & HPy).
  rewrite E. simpl. f_equal. eapply NoDup_fmap_eq; eauto.
Qed.

Lemma scan_row_nf {A} (rows : store → list A) s r :
  faults s = [] → head (rows s) = Some r → scan_row rows s = (Ok r, s).
Proof. intros Hs Hr. unfold scan_row. rewrite fallible_nf by done. by destruct (rows s); simplify_eq/=. Qed.

Lemma scan_row_none {A} (rows : store → list A) s :
  faults s = [] → rows s = [] → scan_row rows s = (Err err_no_rows, s).
Proof. intros Hs Hr. unfold scan_row. by rewrite fallible_nf, Hr. Qed.

(** What [uploadPart] does to the tables and the disk. *)
Definition with_part (id i : Z) (data : string) (s : store) : store :=
  set_uploads (fmap (λ u, if decide (up_id u = id) then finish_part u else u))
  (set_blobs (λ b, <[format_int id := <[i := data]> (default ∅ (b !! format_int id))]> b)
  (set_blobs (λ b, <[format_int id := <[i := ""]> (default ∅ (b !! format_int id))]> b)
  (set_blobs (λ b, <[format_int id := default ∅ (b !! format_int id)]> b)
  (set_uploads (fmap (λ u, if decide (up_id u = id) then start_part u else u)) s)))).

Lemma uploadPart_run id i data s u :
  faults s = [] → u ∈ uploads s → up_id u = id →
  uploadPart id i (Body data None) s = (Ok tt, with_part id i data s).
Proof.
  intros Hs Hu Hid. unfold uploadPart, catch, bind, select_upload_by_id.
  destruct (in_filter_head (λ u, up_id u = id) (uploads s) u Hu Hid) as (y & E & _ & _).
  rewrite (scan_row_nf _ s y) by (try done; by rewrite E).
  unfold map_upload, mkdir_parts, create_part, copy_part, modify, bind.
  do 3 (rewrite fallible_nf by done; simpl).
  rewrite next_fault_nf by done. simpl. do 2 (rewrite fallible_nf by done; simpl). done.
Qed.

Lemma with_part_parts id i data s :
  folder_parts (format_int id) (with_part id i data s) =
  <[i := data]> (folder_parts (format_int id) s).
Proof.
  unfold folder_parts, with_part; simpl. rewrite !lookup_insert_eq. simpl.
  by rewrite insert_insert_eq.
Qed.

Lemma uploadPart_uploading id k v sc r n parts i data s :
  uploading id k v sc r n parts s →
  ∃ s', uploadPart id i (Body data None) s = (Ok tt, s') ∧ entries s' = entries s ∧
    uploading id k v sc r (n + 1) (<[i := data]> parts) s'.
Proof.
  intros [Hs Hok Hrow Hparts Hfresh]. eexists. split_and!.
  - eapply uploadPart_run; [done | exact Hrow | done].
  - done.
  - constructor; try done.
    + pose proof (uploadPart_ok id i (Body data None) s Hok) as Hok'.
      by erewrite uploadPart_run in Hok' by done.
    + simpl. apply list_elem_of_fmap. exists (UploadRow id k v sc r (n + 1) n).
      split; [simpl; by rewrite decide_True|]. apply list_elem_of_fmap.
      exists (UploadRow id k v sc r n n). split; [simpl; by rewrite decide_True | done].
    + by rewrite with_part_parts, Hparts.
Qed.

Lemma put_chunks_uploading id k v sc r chunks : ∀ n parts s,
  uploading id k v sc r n parts s →
  ∃ s', put_chunks id chunks s = (Ok tt, s') ∧ entries s' = entries s ∧
    uploading id k v sc r (n + Z.of_nat (length chunks))
      (foldl (λ m '(i, c), <[i := c]> m) parts chunks) s'.
Proof.
  induction chunks as [|[i c] chunks IH]; intros n parts s Hul; cbn [put_chunks foldl length].
  - exists s. rewrite Z.add_0_r. done.
  - destruct (uploadPart_uploading id k v sc r n parts i c s Hul) as (s1 & E1 & He1 & Hul1).
    destruct (IH _ _ _ Hul1) as (s2 & E2 & He2 & Hul2). exists s2. unfold bind.
    rewrite E1, E2. split; [done|]. split; [congruence|].
    by replace (n + Z.of_nat (S (length chunks))) with (n + 1 + Z.of_nat (length chunks)) by lia.
Qed.

(** ** Finalizing *)

Lemma NoDup_replace {A B} (f : A → B) (P : A → bool) (g : A → A) x (l : list A) :
  NoDup (f <$> l) → x ∉ f <$> l → (∀ a, f (g a) = x) →
  (∀ a b, a ∈ l → b ∈ l → P a = true → P b = true → a = b) →
  NoDup (f <$> ((λ a, if P a then g a else a) <$> l)).
Proof.
  induction l as [|a l IH]; [intros; apply NoDup_nil_2|].
  rewrite !fmap_cons, !NoDup_cons, not_elem_of_cons. intros [Ha Hl] [Hxa Hxl] Hg Huniq.
  assert (NoDup (f <$> ((λ a, if P a then g a else a) <$> l))) as Hrest.
  { apply IH; auto. intros b c Hb Hc. apply Huniq; by right. }
  split; [|done]. intros (b & Eb & Hb)%list_elem_of_fmap.
  apply list_elem_of_fmap in Hb as (c & -> & Hc).
  destruct (P a) eqn:Pa, (P c) eqn:Pc.
  - assert (a = c) as -> by (apply Huniq; [left | by right | done..]).
    apply Ha. by apply list_elem_of_fmap_2.
  - rewrite Hg in Eb. apply Hxl. rewrite Eb. by apply list_elem_of_fmap_2.
  - rewrite Hg in Eb. congruence.
  - apply Ha. rewrite Eb. by apply list_elem_of_fmap_2.
Qed.

Lemma nowMillis_run s : ∃ t s', nowMillis s = (Ok t, s') ∧ uploads s' = uploads s ∧
  entries s' = entries s ∧ blobs s' = blobs s ∧ faults s' = faults s.
Proof. unfold nowMillis. destruct (ticks s); eauto 10. Qed.

(** The clock readings of [promote], leaving the rest of the store alone. *)
Lemma two_readings {A} (c : Z → Z → M store A) (Q : result A → store → Prop) s :
  (∀ t1 t2 s', uploads s' = uploads s → entries s' = entries s → blobs s' = blobs s →
     faults s' = faults s → wp (c t1 t2) Q s') →
  wp (let! t1 := nowMillis in let! t2 := nowMillis in c t1 t2) Q s.
Proof.
  intros H. destruct (nowMillis_run s) as (t1 & s1 & E1 & ? & ? & ? & ?).
  destruct (nowMillis_run s1) as (t2 & s2 & E2 & ? & ? & ? & ?).
  apply wp_bind. eapply wp_eq; [done|]. simpl. apply wp_bind. eapply wp_eq; [done|].
  apply H; congruence.
Qed.

(** What a successful [promote] leaves: the new entry, alone with its key, and
    its parts untouched. *)
Definition promoted (k v sc r folder : string) (n : Z) (s : store) (s' : store) : Prop :=
  faults s' = [] ∧ uploads s' = uploads s ∧
  folder_parts folder s' = folder_parts folder s ∧
  ∃ e, e ∈ entries s' ∧ ce_id e = folder ∧ entry_tuple e = (k, v, sc, r) ∧ ce_part_count e = n.

Lemma promote_run k v sc r folder n s :
  faults s = [] → store_ok s → folder ∉ ce_id <$> entries s →
  wp (promote k v sc r folder n) (λ res s', res = Ok tt ∧ promoted k v sc r folder n s s') s.
Proof.
  intros Hf Hok Hfresh. unfold promote. apply wp_catch.
  destruct (filter (ce_match k v sc r) (entries s)) as [|old rest] eqn:E.
  - eapply wp_eq; [apply scan_row_none; done|]. simpl.
    apply two_readings. intros t1 t2 s' Hu He Hb Hf'. apply wp_fallible_nf; [congruence|].
    unfold wp. rewrite bool_decide_false by (simpl; by rewrite He). simpl. split; [done|].
    unfold promoted, folder_parts; simpl. rewrite Hf', Hu, Hb. split_and!; try done.
    eexists. split; [apply elem_of_app; right; left|]. done.
  - assert (old ∈ entries s ∧ ce_match k v sc r old = true) as [Hold Hm].
    { assert (old ∈ filter (ce_match k v sc r) (entries s)) as Hin by (rewrite E; left).
      apply list_elem_of_filter in Hin as [HP Hin]. split; [done|]. by apply Is_true_true. }
    eapply wp_eq; [eapply scan_row_nf; [done|]; by rewrite E|]. simpl.
    apply two_readings. intros t1 t2 s' Hu He Hb Hf'. apply wp_bind, wp_fallible_nf; [congruence|].
    unfold wp at 1. rewrite He.
    set (g := λ e, EntryRow folder (ce_key e) (ce_version e) (ce_scope e) (ce_repo e) n t1 t2).
    rewrite bool_decide_true; [|apply (NoDup_replace ce_id (ce_match k v sc r) g folder)]; cycle 1.
    { apply Hok. } { done. } { done. }
    { intros a b Ha Hb' Pa%ce_match_iff Pb%ce_match_iff.
      eapply NoDup_fmap_eq; [apply (ok_entry_keys _ Hok)|done|done|congruence]. }
    simpl.
    assert (∃ e, e ∈ (λ a, if ce_match k v sc r a then g a else a) <$> entries s ∧
      ce_id e = folder ∧ entry_tuple e = (k, v, sc, r) ∧ ce_part_count e = n) as Hnew.
    { exists (g old). split_and!; try done; [|by apply ce_match_iff in Hm].
      apply list_elem_of_fmap. exists old. by rewrite Hm. }
    assert (ce_id old ≠ folder) as Hne.
    { intros <-. by apply Hfresh, list_elem_of_fmap_2. }
    rewrite (proj2 (String.eqb_neq _ _) Hne), andb_true_r. case_match.
    + apply wp_catch. unfold remove_all. apply wp_bind, wp_next_fault_nf; [simpl; congruence|].
      apply wp_modify, wp_ret. split; [done|]. unfold promoted, folder_parts; simpl.
      rewrite Hf', Hu, Hb, lookup_delete_ne by done. split_and!; done.
    + apply wp_ret. split; [done|]. unfold promoted, folder_parts; simpl.
      rewrite Hf', Hu, Hb. split_and!; done.
Qed.

Lemma require_parts_run folder n : ∀ i s, faults s = [] →
  (∀ j, i ≤ j < i + Z.of_nat n → is_Some (folder_parts folder s !! j)) →
  require_parts folder n i s = (Ok tt, s).
Proof.
  induction n as [|n IH]; intros i s Hs Hp; cbn [require_parts]; [done|].
  unfold catch, stat_part. rewrite fallible_nf by done. destruct (Hp i) as [c ->]; [lia|].
  apply IH; [done|]. intros j Hj. apply Hp. lia.
Qed.

(** The state a complete save leaves behind, for the key it saved. *)
Definition saved (k v sc r folder : string) (parts : gmap Z string) (n : Z) (s : store) : Prop :=
  faults s = [] ∧ store_ok s ∧ folder_parts folder s = parts ∧
  (∀ u, u ∈ uploads s → upload_tuple u ≠ (k, v, sc, r)) ∧
  ∃ e, e ∈ entries s ∧ ce_id e = folder ∧ entry_tuple e = (k, v, sc, r) ∧ ce_part_count e = n.

Lemma completeUpload_run id k v sc r n parts s :
  uploading id k v sc r n parts s → 0 < n → Z.of_nat (size parts) = n →
  (∀ i, 0 ≤ i < n → is_Some (parts !! i)) →
  ∃ s', completeUpload k v sc r s = (Ok (format_int id), s') ∧
    saved k v sc r (format_int id) parts n s'.
Proof.
  intros [Hf Hok Hrow Hparts Hfresh] Hn Hsize Hall.
  enough (wp (completeUpload k v sc r) (λ res s',
    res = Ok (format_int id) ∧ saved k v sc r (format_int id) parts n s') s) as H.
  { unfold wp in H. destruct (completeUpload k v sc r s) as [res s'] eqn:E. simpl in H.
    destruct H as [-> H]. by exists s'. }
  pose proof (completeUpload_ok k v sc r s Hok) as Hfin. revert Hfin.
  unfold wp, completeUpload at 1, catch, select_upload.
  assert (head (filter (up_match k v sc r) (uploads s)) = Some (UploadRow id k v sc r n n)) as Hhead.
  { apply (filter_unique upload_tuple); [apply Hok | done | |].
    - by apply Is_true_true, up_match_iff.
    - intros y _ Hy%Is_true_true%up_match_iff. done. }
  unfold completeUpload, catch, select_upload.
  rewrite (scan_row_nf _ s _ Hf Hhead). simpl.
  rewrite (proj2 (Z.eqb_neq n 0)), Z.eqb_refl by lia. simpl.
  unfold countParts, bind, gets. rewrite next_fault_nf by done. cbn [fst snd].
  rewrite Hparts, Hsize, Z.eqb_refl. simpl.
  unfold requireContiguousParts. rewrite require_parts_run by
    (try done; intros j Hj; rewrite Hparts; apply Hall; lia).
  pose proof (promote_run k v sc r (format_int id) n s Hf Hok Hfresh) as Hp. unfold wp in Hp.
  destruct (promote k v sc r (format_int id) n s) as [res s1]. simpl in Hp.
  destruct Hp as (-> & Hf1 & Hu1 & Hp1 & Hent). unfold delete_upload. rewrite fallible_nf by done.
  simpl. intros Hok'. split; [done|]. split_and!; try done.
  - unfold folder_parts in *. simpl. congruence.
  - simpl. rewrite Hu1. intros u [Hu Hin]%list_elem_of_filter Ht. apply Hu.
    assert (u = UploadRow id k v sc r n n) as ->; [|done].
    eapply NoDup_fmap_eq; [apply (ok_upload_keys _ Hok) | done | done | done].
Qed.

(** ** The round trip *)

Definition concat_all (contents : list string) : string := foldr String.append "" contents.

(** The numbered chunks of a blob. *)
Definition numbered (contents : list string) : list (Z * string) :=
  imap (λ i c, (Z.of_nat i, c)) contents.

Lemma numbered_keys contents : (numbered contents).*1 = upto (length contents).
Proof. unfold numbered, upto. rewrite fmap_imap. by rewrite <-imap_seq_0. Qed.

Lemma NoDup_upto n : NoDup (upto n).
Proof. unfold upto. apply NoDup_fmap; [|apply NoDup_seq]. intros a b. lia. Qed.

Lemma foldl_insert (l : list (Z * string)) : ∀ m : gmap Z string,
  NoDup l.*1 → (∀ i, i ∈ l.*1 → m !! i = None) →
  foldl (λ m '(i, c), <[i := c]> m) m l = list_to_map l ∪ m.
Proof.
  induction l as [|[i c] l IH]; intros m Hnd Hm; cbn [foldl].
  { by rewrite list_to_map_nil, (left_id_L ∅ (∪)). }
  apply NoDup_cons in Hnd as [Hi Hnd]. rewrite IH; [|done|].
  - rewrite list_to_map_cons, <-insert_union_l, insert_union_r; [done|].
    by apply not_elem_of_list_to_map_1.
  - intros j Hj. rewrite lookup_insert_ne; [apply Hm; by right|]. intros ->. done.
Qed.

Lemma chunk_map puts contents :
  puts ≡ₚ numbered contents →
  foldl (λ (m : gmap Z string) '(i, c), <[i := c]> m) ∅ puts = list_to_map (numbered contents).
Proof.
  intros Hp. assert (NoDup puts.*1) as Hnd
    by (rewrite Hp, numbered_keys; apply NoDup_upto).
  rewrite foldl_insert by done. rewrite (right_id_L ∅ (∪)). by apply list_to_map_proper.
Qed.

Lemma numbered_lookup contents i c :
  contents !! i = Some c → (list_to_map (numbered contents) : gmap Z string) !! Z.of_nat i = Some c.
Proof.
  intros Hc. apply elem_of_list_to_map_1; [rewrite numbered_keys; apply NoDup_upto|].
  apply elem_of_lookup_imap. eauto.
Qed.

Lemma cat_parts_contents m contents : ∀ j,
  (∀ i c, contents !! i = Some c → m !! (j + Z.of_nat i) = Some c) →
  cat_parts m j (length contents) = concat_all contents.
Proof.
  induction contents as [|c contents IH]; intros j Hm; [done|]. cbn [cat_parts length].
  specialize (Hm 0%nat c eq_refl) as Hc. rewrite Z.add_0_r in Hc. rewrite Hc. simpl.
  f_equal. apply IH. intros i d Hd. specialize (Hm (S i) d Hd). rewrite <-Hm. f_equal. lia.
Qed.

Lemma createUpload_fresh k v sc r s x rs :
  faults s = [] → rands s = Some x :: rs → filter (up_match k v sc r) (uploads s) = [] →
  (x mod 2 ^ 62 + 1) ∉ up_id <$> uploads s →
  ∃ s', createUpload k v sc r s = (Ok (x mod 2 ^ 62 + 1, true), s') ∧ faults s' = [] ∧
    uploads s' = uploads s ++ [UploadRow (x mod 2 ^ 62 + 1) k v sc r 0 0] ∧
    entries s' = entries s ∧ blobs s' = blobs s.
Proof.
  intros Hf Hr Hu Hid. unfold createUpload, catch, select_upload.
  rewrite scan_row_none by done. simpl. unfold bind, randomID. rewrite Hr.
  unfold insert_upload. rewrite fallible_nf by done. simpl.
  rewrite bool_decide_false by done. simpl. eauto 10.
Qed.

Lemma getEntry_run s e : faults s = [] → store_ok s → e ∈ entries s →
  getEntry (ce_id e) s = (Ok (Some (to_entry e)), s).
Proof.
  intros Hf Hok He. unfold getEntry, scanEntry, catch, select_entry_by_id.
  rewrite (scan_row_nf _ s e); [done..|].
  apply (filter_unique ce_id); [apply Hok | done | done | done].
Qed.

(** C4: a blob saved in chunks comes back byte for byte.  Reserve an upload,
    put its chunks in any order, finalize it, then stream the entry in
    pieces of any size: the download is the concatenation of the chunks in
    index order and ends without error, in a bounded number of reads. *)
Theorem save_fetch_roundtrip k v sc r puts contents x rs s kbuf fuel :
  store_ok s → faults s = [] → rands s = Some x :: rs →
  (∀ u, u ∈ uploads s → upload_tuple u ≠ (k, v, sc, r)) →
  let id := x mod 2 ^ 62 + 1 in
  id ∉ up_id <$> uploads s → format_int id ∉ ce_id <$> entries s → blobs s !! format_int id = None →
  contents ≠ [] → puts ≡ₚ numbered contents →
  (0 < kbuf)%nat → (String.length (concat_all contents) < fuel)%nat →
  ∃ s', save k v sc r puts s = (Ok (format_int id), s') ∧
    fetch fuel kbuf (format_int id) s' = (Ok (Some (concat_all contents, None)), s').
Proof.
  intros Hok Hf Hr Hnone id Hid Hfold Hblob Hne Hp Hk Hfuel. subst id.
  assert (filter (up_match k v sc r) (uploads s) = []) as Hnil.
  { destruct (filter _ (uploads s)) as [|u l] eqn:E; [done|]. exfalso.
    assert (u ∈ filter (up_match k v sc r) (uploads s)) as Hu by (rewrite E; left).
    apply list_elem_of_filter in Hu as [Hm%Is_true_true%up_match_iff Hu]. by eapply Hnone. }
  destruct (createUpload_fresh k v sc r s x rs) as (s1 & E1 & Hf1 & Hu1 & He1 & Hb1); try done.
  pose proof (createUpload_ok k v sc r s Hok) as Hok1. rewrite E1 in Hok1. simpl in Hok1.
  assert (uploading (x mod 2 ^ 62 + 1) k v sc r 0 ∅ s1) as Hul.
  { constructor; try done.
    - rewrite Hu1. apply elem_of_app. right. left.
    - unfold folder_parts. by rewrite Hb1, Hblob.
    - by rewrite He1. }
  destruct (put_chunks_uploading _ _ _ _ _ puts _ _ _ Hul) as (s2 & E2 & He2 & Hul2).
  rewrite (chunk_map _ _ Hp), Z.add_0_l in Hul2. apply Permutation_length in Hp as Hlen.
  unfold numbered in Hlen. rewrite length_imap in Hlen.
  assert (0 < length contents)%nat by (destruct contents; simpl; [done | lia]).
  destruct (completeUpload_run _ _ _ _ _ _ _ _ Hul2) as (s3 & E3 & Hf3 & Hok3 & Hp3 & _ & e & He & Hid3 & _ & Hn).
  { lia. }
  { rewrite map_size_list_to_map; [unfold numbered; rewrite length_imap; lia|].
    rewrite numbered_keys. apply NoDup_upto. }
  { intros i Hi. destruct (lookup_lt_is_Some_2 contents (Z.to_nat i)) as [c Hc]; [lia|].
    apply numbered_lookup in Hc. rewrite Z2Nat.id in Hc by lia. eauto. }
  exists s3. unfold save, bind. rewrite E1. rewrite E2, E3. split; [done|].
  unfold fetch, openDownload, bind, catch. rewrite <-Hid3, getEntry_run by done. rewrite Hid3. simpl.
  set (p := PartsReader _ _ _ _).
  assert (pending (list_to_map (numbered contents)) p = concat_all contents) as Hpend.
  { unfold pending, p; simpl. rewrite Hn, Z.sub_0_r, Hlen, Nat2Z.id. apply cat_parts_contents.
    intros i c Hc. by apply numbered_lookup. }
  rewrite (copy_out_spec (list_to_map (numbered contents)) kbuf s3); rewrite ?Hpend; try done.
  split; simpl; [|by intros []].
  intros i Hi. destruct (lookup_lt_is_Some_2 contents (Z.to_nat i)) as [c Hc]; [lia|].
  apply numbered_lookup in Hc. rewrite Z2Nat.id in Hc by lia. eauto.
Qed.

Definition sample_puts : list (Z * string) := [(2, "world"); (0, "hello "); (1, "")].

Lemma save_fetch_roundtrip_witness :
  ∃ s', save "k" "v" "refs/heads/main" "7" sample_puts (empty_store 0 [] [Some 41] [])
        = (Ok "42", s') ∧
    fetch 12 3 "42" s' = (Ok (Some ("hello world", None)), s').
Proof.
  apply (save_fetch_roundtrip "k" "v" "refs/heads/main" "7" sample_puts ["hello "; ""; "world"] 41 []).
  - apply empty_store_ok. constructor.
  - reflexivity.
  - reflexivity.
  - intros u Hu. apply elem_of_nil in Hu. done.
  - vm_compute. intros Hu. inversion Hu.
  - vm_compute. intros Hu. inversion Hu.
  - reflexivity.
  - discriminate.
  - exact (Permutation_cons_append [(0, "hello "); (1, "")] (2, "world")).
  - lia.
  - vm_compute. lia.
Defined.

(** ** Rejected uploads *)

(** The uploads [completeUpload] refuses: nothing finished, a part started and
    not finished, or not exactly the parts [0 .. finished - 1] on disk. *)
Definition bad_upload (u : upload_row) (parts : gmap Z string) : Prop :=
  up_finished u = 0 ∨ up_started u ≠ up_finished u ∨ Z.of_nat (size parts) ≠ up_finished u ∨
  ∃ i, 0 ≤ i < up_finished u ∧ parts !! i = None.

Lemma require_parts_gap folder n : ∀ i j s, faults s = [] →
  i ≤ j < i + Z.of_nat n → folder_parts folder s !! j = None →
  ∃ e, require_parts folder n i s = (Err e, s) ∧ errors_is "errPartMismatch" e = true.
Proof.
  induction n as [|n IH]; intros i j s Hs Hj Hp; [lia|]. cbn [require_parts].
  unfold catch, stat_part. rewrite fallible_nf by done.
  destruct (folder_parts folder s !! i) as [c|] eqn:Ei; [|by eexists].
  apply (IH _ j); [done| |done]. destruct (decide (j = i)) as [->|]; [congruence | lia].
Qed.

Lemma abandon_upload_run {A} id e s : faults s = [] →
  abandon_upload (A := A) id e s = (Err e, set_uploads (filter (λ u, up_id u ≠ id)) s).
Proof. intros Hs. unfold abandon_upload, catch, delete_upload. by rewrite fallible_nf. Qed.

(** Finalizing an upload that is not whole fails with "no parts uploaded"
    or a part count mismatch, drops the upload, and leaves every entry and
    every file alone; finalizing a key nobody uploads fails with
    [sql.ErrNoRows] and changes nothing. *)
Theorem completeUpload_rejects k v sc r s u :
  store_ok s → faults s = [] →
  ((∀ u, u ∈ uploads s → upload_tuple u ≠ (k, v, sc, r)) →
     completeUpload k v sc r s = (Err err_no_rows, s)) ∧
  (u ∈ uploads s → upload_tuple u = (k, v, sc, r) →
   bad_upload u (folder_parts (format_int (up_id u)) s) →
   ∃ e, completeUpload k v sc r s = (Err e, set_uploads (filter (λ w, up_id w ≠ up_id u)) s) ∧
     (errors_is "errNoParts" e || errors_is "errPartMismatch" e) = true).
Proof.
  intros Hok Hf. unfold completeUpload, catch, select_upload. split.
  { intros Hnone. rewrite scan_row_none; [done..|].
    destruct (filter _ (uploads s)) as [|w l] eqn:E; [done|]. exfalso.
    assert (w ∈ filter (up_match k v sc r) (uploads s)) as Hw by (rewrite E; left).
    apply list_elem_of_filter in Hw as [Hm%Is_true_true%up_match_iff Hw]. by eapply Hnone. }
  intros Hu Ht Hbad. rewrite (scan_row_nf _ s u); [|done|].
  2: { apply (filter_unique upload_tuple); [apply Hok | done | |].
       - by apply Is_true_true, up_match_iff.
       - intros y _ Hy%Is_true_true%up_match_iff. congruence. }
  cbv beta iota. pose proof (ok_counts _ Hok u Hu) as Hc.
  destruct (Z.eqb_spec (up_finished u) 0) as [E0|E0].
  { rewrite abandon_upload_run by done. by eexists. }
  destruct (Z.eqb_spec (up_started u) (up_finished u)) as [E1|E1]; cbn [negb].
  2: { rewrite abandon_upload_run by done. by eexists. }
  unfold bind, countParts, gets. unfold bind. rewrite next_fault_nf by done. cbv beta iota.
  destruct (Z.eqb_spec (Z.of_nat (size (folder_parts (format_int (up_id u)) s))) (up_finished u))
    as [E2|E2]; cbn [negb].
  2: { rewrite abandon_upload_run by done. by eexists. }
  destruct Hbad as [?|[?|[?|(i & Hi & Hp)]]]; [done..|].
  unfold requireContiguousParts.
  destruct (require_parts_gap (format_int (up_id u)) (Z.to_nat (up_finished u)) 0 i s Hf)
    as (e & -> & He); [lia|done|].
  rewrite abandon_upload_run by done. eexists. split; [done|]. by rewrite He, orb_true_r.
Qed.

Definition half_uploaded : store :=
  Store [UploadRow 9 "k" "v" "main" "7" 2 2] [] {["9" := {[0 := "a"; 2 := "c"]}]} 0 [] [] [].

Lemma half_uploaded_ok : store_ok half_uploaded.
Proof.
  constructor; simpl; try (by intros ? ?%elem_of_nil); try apply NoDup_singleton; try apply NoDup_nil_2.
  - intros u ->%list_elem_of_singleton. simpl. lia.
  - constructor.
Qed.

Lemma completeUpload_rejects_witness :
  ∃ e, completeUpload "k" "v" "main" "7" half_uploaded =
       (Err e, set_uploads (filter (λ w, up_id w ≠ 9)) half_uploaded) ∧
     (errors_is "errNoParts" e || errors_is "errPartMismatch" e) = true.
Proof.
  apply (completeUpload_rejects "k" "v" "main" "7" half_uploaded (UploadRow 9 "k" "v" "main" "7" 2 2)).
  - apply half_uploaded_ok.
  - reflexivity.
  - left.
  - reflexivity.
  - right. right. right. exists 1. split; [simpl; lia | reflexivity].
Defined.
