(* ===== verification/CacheStoreLookup.v ===== *)
(** * Lookup and eviction in the cache store

    Which entry [matchEntry] restores, and what [evict] removes. *)

From S2P Require Import Prelude GoErr GoStr CacheStore Sqlite CacheStoreInv CacheStoreSpec.

Local Open Scope Z_scope.
Local Open Scope go_scope.

(** ** Definitions *)

Section reference.
Context `{Sqlite}.

(** The (scope, key) pairs in order of preference. *)
Definition candidates (scopes keys : list string) : list (string * string) :=
  scopes ≫= λ sc, (λ k, (sc, k)) <$> keys.

(** The reference lookup: the first pair with a row, an exact match before a
    prefix match, the newest row first. *)
Fixpoint first_hit (cs : list (string * string)) (version repoID : string)
    (es : list entry_row) : option entry_row :=
  match cs with
  | [] => None
  | (sc, k) :: cs =>
      match head (newest (filter (ce_match k version sc repoID) es)) with
      | Some e => Some e
      | None =>
          match head (newest (filter (prefix_match k version sc repoID) es)) with
          | Some e => Some e
          | None => first_hit cs version repoID es
          end
      end
  end.
End reference.

(** Entry [id] gone, row and folder. *)
Definition drop_entry (s : store) (id : string) : store :=
  set_blobs (delete id) (set_entries (filter (λ e, ce_id e ≠ id)) s).

(** ** Prefix search *)

Lemma like_prefix `{Sqlite} k s :
  like (escapeLike k +:+ "%") s = has_prefix (to_lower k) (to_lower s).
Proof.
  revert s. induction k as [|c k IH]; intros s.
  - simpl. apply (like_any "" s). exists s, "". by rewrite str_app_nil_r, like_nil.
  - assert (like (escapeLike (String c k) +:+ "%") s =
      match s with String d s => Ascii.eqb (lower_ascii c) (lower_ascii d) && like (escapeLike k +:+ "%") s
              | "" => false end) as ->.
    { cbn [escapeLike]. destruct (Ascii.eqb_spec c "\"); [apply like_escaped|].
      destruct (Ascii.eqb_spec c "%"); [apply like_escaped|].
      destruct (Ascii.eqb_spec c "_"); [apply like_escaped|]. simpl. by apply like_char. }
    destruct s as [|d s]; [done|]. simpl. by rewrite IH.
Qed.

Lemma has_prefix_fold k s :
  has_prefix (to_lower k) (to_lower s) = true ↔ ∃ k' rest, s = k' +:+ rest ∧ equal_fold k' k = true.
Proof.
  revert s. induction k as [|c k IH]; intros s; simpl.
  - split; [intros _; by exists "", s | done].
  - destruct s as [|d s]; simpl.
    { split; [done|]. intros (k' & rest & E & Hk). destruct k'; [|done]. by apply String.eqb_eq in Hk. }
    rewrite andb_true_iff, Ascii.eqb_eq, IH. split.
    + intros (Hcd & k' & rest & -> & Hk). exists (String d k'), rest. split; [done|].
      unfold equal_fold in *. simpl. rewrite Hcd, Ascii.eqb_refl. done.
    + intros (k' & rest & E & Hk). unfold equal_fold in Hk. destruct k' as [|d' k']; [done|].
      simpl in *. injection E as -> ->. destruct (Ascii.eqb_spec (lower_ascii d') (lower_ascii c)); [|done].
      split; [done|]. exists k', rest. done.
Qed.

(** A restore-key search is a literal prefix test: whatever wildcard or
    escape characters a client puts in its key, an entry matches exactly when
    its key starts with the requested one, letters compared without case, and
    its version, scope and repository are the requested ones. *)
Theorem prefix_search_exact `{Sqlite} key version scope repoID e :
  prefix_match key version scope repoID e = true ↔
  (∃ k rest, ce_key e = k +:+ rest ∧ equal_fold k key = true) ∧
  ce_version e = version ∧ ce_scope e = scope ∧ ce_repo e = repoID.
Proof.
  unfold prefix_match. rewrite !andb_true_iff, !String.eqb_eq, like_prefix, has_prefix_fold. tauto.
Qed.

(** ** Lookup *)

Section lookup_facts.
Context `{Sqlite}.

Lemma newest_elem l e : head (newest l) = Some e → e ∈ l.
Proof.
  intros Hh. unfold newest in Hh. destruct (order_by _ l) as [|x m] eqn:E; simplify_eq/=.
  rewrite <-(order_by_perm (λ e, - ce_updated_at e) l), E. left.
Qed.

Lemma newest_nil l : head (newest l) = None ↔ l = [].
Proof.
  unfold newest. pose proof (order_by_perm (λ e, - ce_updated_at e) l) as Hp.
  destruct (order_by _ l) as [|x m]; split; try done.
  - intros _. by apply Permutation_nil_l in Hp.
  - intros ->. by apply Permutation_nil_r in Hp.
Qed.

(** The head of [newest] was updated no earlier than any other row. *)
Lemma newest_max l e e' : head (newest l) = Some e → e' ∈ l → ce_updated_at e' ≤ ce_updated_at e.
Proof.
  unfold newest. intros Hh He. pose proof (order_by_sorted (λ e, - ce_updated_at e) l) as Hs.
  rewrite <-(order_by_perm (λ e, - ce_updated_at e) l) in He.
  destruct (order_by _ l) as [|x m]; simplify_eq/=.
  apply StronglySorted_inv in Hs as [_ Hall]. rewrite Forall_forall in Hall.
  apply elem_of_cons in He as [->|He]; [lia | specialize (Hall _ He); lia].
Qed.

Lemma scanEntry_run (q : M store entry_row) rows s :
  q = scan_row rows → faults s = [] → scanEntry q s = (Ok (to_entry <$> head (rows s)), s).
Proof.
  intros -> Hs. unfold scanEntry, catch. destruct (rows s) as [|e l] eqn:E.
  - rewrite scan_row_none by done. done.
  - rewrite (scan_row_nf _ s e); [done|done|]. by rewrite E.
Qed.

(** A row that is not there makes no difference to where the search goes. *)
Definition after_hit (o : option entry_row) (s : store) : store :=
  match o with Some e => snd (touchEntry (ce_id e) s) | None => s end.

Lemma or_touched_run q next rows (rest : option entry_row) s :
  q = scanEntry (scan_row rows) → faults s = [] →
  next s = (Ok (to_entry <$> rest), after_hit rest s) →
  or_touched q next s =
    (let o := match head (rows s) with Some e => Some e | None => rest end in
     (Ok (to_entry <$> o), after_hit o s)).
Proof.
  intros -> Hs Hn. unfold or_touched, catch. rewrite (scanEntry_run _ rows s eq_refl Hs).
  destruct (head (rows s)) as [e|]; simpl; [|done]. unfold bind.
  destruct (touchEntry (ce_id e) s) as [[[]|err] s'] eqn:E; [done|]. exfalso.
  unfold touchEntry, bind, catch in E.
  destruct (nowMillis_run s) as (t & s1 & Et & _). rewrite Et in E.
  destruct (fallible _ s1) as [r s2]. done.
Qed.

Lemma match_restore_run v sc r s restore next cs : faults s = [] →
  (let o := first_hit cs v r (entries s) in next s = (Ok (to_entry <$> o), after_hit o s)) →
  let o := first_hit (((λ k, (sc, k)) <$> restore) ++ cs) v r (entries s) in
  match_restore restore v sc r next s = (Ok (to_entry <$> o), after_hit o s).
Proof.
  intros Hs Hn. induction restore as [|rk restore IH]; [done|]. cbn [match_restore].
  erewrite or_touched_run; [|reflexivity|done|].
  2: { erewrite or_touched_run; [reflexivity|reflexivity|done|exact IH]. }
  cbn [first_hit fmap list_fmap app]. by destruct (head _).
Qed.

(** C33: when nothing fails, [matchEntry] is the reference lookup: the scopes
    in the order given, in each scope the keys in the order given, for each
    key an exact match before a prefix match, the newest match first; a hit
    becomes the most recent use of its entry, and a miss changes nothing. *)
Theorem matchEntry_reference keys v scopes r s :
  faults s = [] →
  let o := first_hit (candidates scopes keys) v r (entries s) in
  matchEntry keys v scopes r s = (Ok (to_entry <$> o), after_hit o s).
Proof.
  intros Hs. destruct keys as [|k restore]; simpl.
  { assert (candidates scopes [] = []) as -> by (by induction scopes). done. }
  induction scopes as [|sc scopes IH]; [done|]. cbn [match_scopes].
  erewrite or_touched_run; [|reflexivity|done|].
  2: { erewrite or_touched_run; [reflexivity|reflexivity|done|].
       by apply (match_restore_run v sc r s restore _ (candidates scopes (k :: restore))). }
  unfold candidates. cbn [mbind list_bind fmap list_fmap app first_hit]. by destruct (head _).
Qed.

Lemma first_hit_elem cs v r es e : first_hit cs v r es = Some e →
  ∃ sc k, (sc, k) ∈ cs ∧ e ∈ es ∧ (ce_match k v sc r e || prefix_match k v sc r e) = true.
Proof.
  induction cs as [|[sc k] cs IH]; cbn [first_hit]; [done|].
  destruct (head (newest (filter (ce_match k v sc r) es))) as [e1|] eqn:E1.
  { intros [= ->]. apply newest_elem, list_elem_of_filter in E1 as [Hm%Is_true_true He].
    exists sc, k. split; [left|]. by rewrite Hm. }
  destruct (head (newest (filter (prefix_match k v sc r) es))) as [e2|] eqn:E2.
  { intros [= ->]. apply newest_elem, list_elem_of_filter in E2 as [Hm%Is_true_true He].
    exists sc, k. split; [left|]. by rewrite Hm, orb_true_r. }
  intros Hh. destruct (IH Hh) as (sc' & k' & Hin & Hrest). exists sc', k'. split; [by right | done].
Qed.

(** A hit is a row in [P]. *)
Definition hits (P : entry_row → Prop) (res : result (option cacheEntry)) (_ : store) : Prop :=
  ∀ ce, res = Ok (Some ce) → ∃ e, P e ∧ to_entry e = ce.

Lemma or_touched_hit P rows next s :
  (∀ s', entries s' = entries s → ∀ e, head (rows s') = Some e → P e) →
  (∀ s', entries s' = entries s → wp next (hits P) s') →
  wp (or_touched (scanEntry (scan_row rows)) next) (hits P) s.
Proof.
  intros Hrows Hnext. unfold or_touched, scanEntry. do 2 apply wp_catch.
  unfold scan_row. apply wp_fallible.
  - intros f s' (_ & He & _) _. case_match; [apply wp_ret, Hnext; done | apply wp_throw, wp_throw; by intros ce].
  - intros s' (_ & He & _). unfold wp at 1. destruct (rows s') as [|e l] eqn:E; simpl.
    + apply Hnext. done.
    + unfold wp, bind. simpl. destruct (touchEntry (ce_id e) s') as [[|] s2]; simpl; [|by intros ce].
      intros ce [= <-]. exists e. split; [|done]. apply (Hrows s' He). by rewrite E.
Qed.

(** The row may be returned for scope [sc] and key [k]. *)
Definition allows (v r sc k : string) (e : entry_row) : bool :=
  ce_match k v sc r e || prefix_match k v sc r e.

Lemma key_hit P k v sc r next s :
  (∀ e, e ∈ entries s → allows v r sc k e = true → P e) →
  (∀ s', entries s' = entries s → wp next (hits P) s') →
  wp (or_touched (queryExact k v sc r) (or_touched (queryPrefix k v sc r) next)) (hits P) s.
Proof.
  intros HP Hnext. unfold allows in HP. apply or_touched_hit.
  - intros s' Hs' e He%newest_elem. apply list_elem_of_filter in He as [He%Is_true_true Hin].
    apply HP; [by rewrite <-Hs' | by rewrite He].
  - intros s' Hs'. apply or_touched_hit; [|intros; apply Hnext; congruence].
    intros s2 Hs2 e He%newest_elem. apply list_elem_of_filter in He as [He%Is_true_true Hin].
    apply HP; [by rewrite <-Hs', <-Hs2 | by rewrite He, orb_true_r].
Qed.

Lemma match_restore_hit P restore v sc r next s :
  (∀ k e, k ∈ restore → e ∈ entries s → allows v r sc k e = true → P e) →
  (∀ s', entries s' = entries s → wp next (hits P) s') →
  wp (match_restore restore v sc r next) (hits P) s.
Proof.
  revert s. induction restore as [|k restore IH]; intros s HP Hnext; cbn [match_restore]; [by apply Hnext|].
  apply key_hit; [intros e; apply HP; left|]. intros s' Hs'. apply IH.
  - intros k' e Hk He. apply (HP k'); [by right | by rewrite <-Hs'].
  - intros s2 Hs2. apply Hnext. congruence.
Qed.

Lemma match_scopes_hit P k restore v scopes r s :
  (∀ sc k' e, sc ∈ scopes → k' ∈ k :: restore → e ∈ entries s → allows v r sc k' e = true → P e) →
  wp (match_scopes k restore v scopes r) (hits P) s.
Proof.
  revert s. induction scopes as [|sc scopes IH]; intros s HP; cbn [match_scopes]; [apply wp_ret; by intros ce|].
  apply key_hit; [intros e; apply HP; left|]. intros s' Hs'. apply match_restore_hit.
  - intros k' e Hk He. apply (HP sc k'); [left | by right | by rewrite <-Hs'].
  - intros s2 Hs2. apply IH. intros sc' k' e Hsc Hk He. apply HP; [by right | done | congruence].
Qed.

(** A restore is confined to the caller: whatever fails, an entry
    [matchEntry] returns has the requested version, the caller's repository,
    one of the caller's scopes, and a key that a requested key equals or is a
    prefix of (up to letter case). *)
Theorem matchEntry_isolated keys v scopes r s ce s' :
  matchEntry keys v scopes r s = (Ok (Some ce), s') →
  ∃ e, e ∈ entries s ∧ to_entry e = ce ∧ ce_version e = v ∧ ce_repo e = r ∧ ce_scope e ∈ scopes ∧
    ∃ k k' rest, k ∈ keys ∧ ce_key e = k' +:+ rest ∧ equal_fold k' k = true.
Proof.
  intros Hm. destruct keys as [|k restore]; [done|]. simpl in Hm.
  pose proof (match_scopes_hit
    (λ e, e ∈ entries s ∧ ∃ sc k', sc ∈ scopes ∧ k' ∈ k :: restore ∧ allows v r sc k' e = true)
    k restore v scopes r s) as Hw.
  unfold wp, hits in Hw. rewrite Hm in Hw.
  destruct (Hw ltac:(eauto 10) ce eq_refl) as (e & (He & sc & k' & Hsc & Hk & Hmatch) & <-).
  exists e. unfold allows in Hmatch. rewrite orb_true_iff, ce_match_iff in Hmatch. unfold prefix_match in Hmatch.
  rewrite !andb_true_iff, !String.eqb_eq, like_prefix, has_prefix_fold in Hmatch.
  destruct Hmatch as [[= <- <- <- <-]|((((k2 & rest & Hk' & Hf) & <-) & <-) & <-)].
  - split_and!; try done. exists (ce_key e), (ce_key e), "". by rewrite str_app_nil_r, equal_fold_refl.
  - split_and!; try done. by exists k', k2, rest.
Qed.
End lookup_facts.

Definition sample_entries : list entry_row :=
  [EntryRow "1" "go-linux-a" "v" "main" "7" 1 10 50; EntryRow "2" "go-linux-b" "v" "main" "7" 2 20 40;
   EntryRow "3" "go-linux-c" "v" "dev" "7" 1 30 60; EntryRow "4" "go-linux-d" "v" "main" "8" 1 40 45].
Definition sample_store : store :=
  Store [] sample_entries
    {["1" := {[0 := "aaaa"]}; "2" := {[0 := "bb"; 1 := "b"]}; "3" := {[0 := "cc"]}; "4" := {[0 := "d"]}]}
    100 [] [] [].

Lemma matchEntry_reference_witness :
  fst (matchEntry (H := sqlite_ref) ["npm"; "GO-LINUX"] "v" ["main"; "dev"] "7" sample_store) =
  Ok (Some (CacheEntry "2" "go-linux-b" 2)).
Proof.
  rewrite (matchEntry_reference (H := sqlite_ref) ["npm"; "GO-LINUX"] "v" ["main"; "dev"] "7" sample_store).
  - vm_compute. reflexivity.
  - reflexivity.
Defined.

Lemma matchEntry_isolated_witness :
  ∃ e, e ∈ sample_entries ∧ to_entry e = CacheEntry "2" "go-linux-b" 2 ∧ ce_version e = "v" ∧
    ce_repo e = "7" ∧ ce_scope e ∈ ["main"] ∧
    ∃ k k' rest, k ∈ ["go-"] ∧ ce_key e = k' +:+ rest ∧ equal_fold k' k = true.
Proof.
  eapply (matchEntry_isolated (H := sqlite_ref) ["go-"] "v" ["main"] "7" sample_store).
  vm_compute. reflexivity.
Defined.

(** ** Eviction *)

Lemma deleteEntry_run id s : faults s = [] → deleteEntry id s = (Ok tt, drop_entry s id).
Proof.
  intros Hs. unfold deleteEntry, bind, delete_entry_row. rewrite fallible_nf by done. simpl.
  unfold remove_all, bind. rewrite next_fault_nf by done. done.
Qed.

Lemma drop_faults ids s : faults (foldl drop_entry s ids) = faults s.
Proof. revert s; induction ids as [|id ids IH]; intros s; [done|]. cbn [foldl]. by rewrite IH. Qed.

Lemma delete_ids_run ids n s : faults s = [] →
  delete_ids ids n s = (Ok (n + Z.of_nat (length ids), None), foldl drop_entry s ids).
Proof.
  revert n s. induction ids as [|id ids IH]; intros n s Hs; cbn [delete_ids foldl length].
  { by rewrite Z.add_0_r. }
  unfold catch. rewrite deleteEntry_run, IH by done. do 3 f_equal. lia.
Qed.

Lemma drop_entries ids s :
  entries (foldl drop_entry s ids) = filter (λ e, ce_id e ∉ ids) (entries s).
Proof.
  revert s. induction ids as [|id ids IH]; intros s; cbn [foldl].
  - symmetry. apply filter_all. intros e _. apply not_elem_of_nil.
  - rewrite IH. simpl. rewrite list_filter_filter. apply list_filter_iff. intros e.
    rewrite not_elem_of_cons. tauto.
Qed.

Lemma drop_blobs ids s folder :
  blobs (foldl drop_entry s ids) !! folder = if decide (folder ∈ ids) then None else blobs s !! folder.
Proof.
  revert s. induction ids as [|id ids IH]; intros s; cbn [foldl].
  - rewrite decide_False; [done | apply not_elem_of_nil].
  - rewrite IH. simpl. destruct (decide (folder = id)) as [->|Hne].
    + rewrite (decide_True (P := id ∈ id :: ids)) by left. rewrite lookup_delete_eq. by case_decide.
    + rewrite lookup_delete_ne by done.
      destruct (decide (folder ∈ ids)) as [Hin|Hin].
      * rewrite decide_True; [done|by right].
      * rewrite decide_False; [done|]. rewrite not_elem_of_cons. done.
Qed.

Lemma blobs_size_delete b id :
  blobs_size (delete id b) = blobs_size b - map_size_sum (default ∅ (b !! id)).
Proof.
  unfold blobs_size. destruct (b !! id) as [m|] eqn:E; simpl.
  - rewrite (map_fold_delete_L _ 0 id m b); [lia| |done]. intros; lia.
  - rewrite delete_id by done. unfold map_size_sum. rewrite map_fold_empty. lia.
Qed.

Lemma map_size_sum_nonneg m : 0 ≤ map_size_sum m.
Proof. unfold map_size_sum. apply (map_fold_weak_ind (λ r _, 0 ≤ r)); intros; lia. Qed.

Lemma drop_size_le ids s : blobs_size (blobs (foldl drop_entry s ids)) ≤ blobs_size (blobs s).
Proof.
  revert s. induction ids as [|id ids IH]; intros s; cbn [foldl]; [done|].
  etrans; [apply IH|]. simpl. rewrite blobs_size_delete.
  pose proof (map_size_sum_nonneg (default ∅ (blobs s !! id))). lia.
Qed.

(** The size pass takes a prefix of its list, as short as fits. *)
Lemma delete_until_run m ids : ∀ n s, faults s = [] →
  ∃ pre suf, ids = pre ++ suf ∧
    delete_until m ids (blobs_size (blobs s)) n s =
      (Ok (n + Z.of_nat (length pre), None), foldl drop_entry s pre) ∧
    (blobs_size (blobs (foldl drop_entry s pre)) ≤ m ∨ suf = []) ∧
    (∀ p1 id p2, pre = p1 ++ id :: p2 → m < blobs_size (blobs (foldl drop_entry s p1))).
Proof.
  induction ids as [|id ids IH]; intros n s Hs; cbn [delete_until].
  { exists [], []. rewrite Z.add_0_r. split_and!; auto. by intros []. }
  destruct (Z.leb_spec (blobs_size (blobs s)) m) as [Hle|Hgt].
  { exists [], (id :: ids). rewrite Z.add_0_r. split_and!; auto. by intros []. }
  unfold bind, folderSize. unfold bind. rewrite next_fault_nf by done. unfold gets, catch.
  rewrite deleteEntry_run by done.
  replace (blobs_size (blobs s) - map_size_sum (folder_parts id s))
    with (blobs_size (blobs (drop_entry s id))) by (simpl; apply blobs_size_delete).
  destruct (IH (n + 1) (drop_entry s id) Hs) as (pre & suf & -> & E & Hfit & Hmin).
  exists (id :: pre), suf. split_and!; [done| |done|].
  - rewrite E. cbn [foldl length]. do 3 f_equal. lia.
  - intros [|q p1] id' p2 Hp; injection Hp as <- Hp; [done|]. cbn [foldl]. by apply (Hmin p1 id' p2).
Qed.

Section evict_facts.
Context `{Sqlite}.

(** The ids the age pass removes. *)
Definition stale_of (olderThan : Z) (s : store) : list string :=
  if 0 <? olderThan then stale_ids olderThan s else [].

Lemma query_ids_run ids s : faults s = [] → query_ids ids s = (Ok (ids s), s).
Proof.
  intros Hs. unfold query_ids. rewrite fallible_nf by done. unfold bind.
  rewrite next_fault_nf by done. rewrite next_fault_nf by done. done.
Qed.

Lemma evict_stale_run olderThan s : faults s = [] →
  evict_stale olderThan s =
  (Ok (Z.of_nat (length (stale_of olderThan s)), None), foldl drop_entry s (stale_of olderThan s)).
Proof.
  intros Hs. unfold evict_stale, stale_of. case_match; [|done]. unfold catch.
  by rewrite query_ids_run, delete_ids_run.
Qed.

Lemma evict_oversize_run maxBytes n s : faults s = [] →
  ∃ pre suf, lru_ids s = pre ++ suf ∧
    evict_oversize maxBytes n s = (Ok (n + Z.of_nat (length pre), None), foldl drop_entry s pre) ∧
    (0 < maxBytes → blobs_size (blobs (foldl drop_entry s pre)) ≤ maxBytes ∨ suf = []) ∧
    (∀ p1 id p2, pre = p1 ++ id :: p2 → 0 < maxBytes < blobs_size (blobs (foldl drop_entry s p1))).
Proof.
  intros Hs. unfold evict_oversize.
  assert (∀ P : Prop, (P → blobs_size (blobs s) ≤ maxBytes) → ∃ pre suf, lru_ids s = pre ++ suf ∧
    ret (S := store) (n, None (A := goerror)) s = (Ok (n + Z.of_nat (length pre), None), foldl drop_entry s pre) ∧
    (P → blobs_size (blobs (foldl drop_entry s pre)) ≤ maxBytes ∨ suf = []) ∧
    (∀ p1 id p2, pre = p1 ++ id :: p2 → 0 < maxBytes < blobs_size (blobs (foldl drop_entry s p1))))
    as Hnop.
  { intros P HP. exists [], (lru_ids s). rewrite Z.add_0_r. split_and!; auto. by intros []. }
  destruct (Z.ltb_spec 0 maxBytes) as [Hm|Hm]; [|apply Hnop; lia].
  unfold catch, totalBlobSize. rewrite fallible_nf by done. cbv beta iota delta [gets].
  destruct (Z.ltb_spec maxBytes (blobs_size (blobs s))) as [Hlt|Hge]; [|by apply Hnop].
  rewrite query_ids_run by done.
  destruct (delete_until_run maxBytes (lru_ids s) n s Hs) as (pre & suf & E & Hr & Hfit & Hmin).
  exists pre, suf. split_and!; eauto.
Qed.

Lemma evict_run olderThan maxBytes s : faults s = [] →
  let stale := stale_of olderThan s in let s1 := foldl drop_entry s stale in
  ∃ pre suf, lru_ids s1 = pre ++ suf ∧
    evict olderThan maxBytes s =
      (Ok (Z.of_nat (length (stale ++ pre)), None), foldl drop_entry s (stale ++ pre)) ∧
    (0 < maxBytes → blobs_size (blobs (foldl drop_entry s (stale ++ pre))) ≤ maxBytes ∨ suf = []) ∧
    (∀ p1 id p2, pre = p1 ++ id :: p2 →
       0 < maxBytes < blobs_size (blobs (foldl drop_entry s (stale ++ p1)))).
Proof.
  intros Hs stale s1. unfold evict, bind. rewrite evict_stale_run by done. cbv beta iota.
  destruct (evict_oversize_run maxBytes (Z.of_nat (length stale)) s1) as (pre & suf & E & Hr & Hfit & Hmin).
  { by unfold s1; rewrite drop_faults. }
  exists pre, suf. setoid_rewrite foldl_app. fold stale s1. rewrite Hr, length_app.
  split_and!; [done| |done|done]. do 3 f_equal. lia.
Qed.

(** Dropping distinct ids of a table without duplicate ids. *)
Lemma length_dropped (ids : list string) (es : list entry_row) :
  NoDup ids → NoDup (ce_id <$> es) → ids ⊆ ce_id <$> es →
  (length (filter (λ e, ce_id e ∉ ids) es) + length ids = length es)%nat.
Proof.
  intros Hnd Hes Hsub.
  assert (ids ≡ₚ ce_id <$> filter (λ e, ce_id e ∈ ids) es) as Hp.
  { apply NoDup_Permutation; [done | by apply NoDup_fmap_filter|]. intros id.
    rewrite list_elem_of_fmap. setoid_rewrite list_elem_of_filter. split.
    - intros Hid. apply Hsub in Hid as Hin. apply list_elem_of_fmap in Hin as (e & -> & He). eauto.
    - by intros (e & -> & Hid & _). }
  rewrite Hp, length_fmap. clear. induction es as [|e es IH]; [done|].
  destruct (decide (ce_id e ∈ ids)) as [Hin|Hin].
  - rewrite filter_cons_False by naive_solver. rewrite filter_cons_True by done. simpl. lia.
  - rewrite filter_cons_True by done. rewrite filter_cons_False by done. simpl. lia.
Qed.

Lemma lru_ids_perm s : lru_ids s ≡ₚ ce_id <$> entries s.
Proof. unfold lru_ids. by rewrite order_by_perm. Qed.

Lemma lru_sorted pre suf s e e' :
  lru_ids s = pre ++ suf → NoDup (ce_id <$> entries s) → e ∈ entries s → e' ∈ entries s →
  ce_id e ∈ pre → ce_id e' ∈ suf → ce_last_used_at e ≤ ce_last_used_at e'.
Proof.
  unfold lru_ids. intros E Hnd He He' Hpre Hsuf.
  pose proof (order_by_sorted ce_last_used_at (entries s)) as Hs.
  pose proof (order_by_perm ce_last_used_at (entries s)) as Hp.
  apply fmap_app_inv in E as (l1 & l2 & -> & -> & El). rewrite El in Hs, Hp.
  apply list_elem_of_fmap in Hpre as (a & Ea & Ha). apply list_elem_of_fmap in Hsuf as (b & Eb & Hb).
  assert (a = e) as -> by (eapply (NoDup_fmap_eq ce_id); [apply Hnd| | done| done];
    rewrite <-Hp; apply elem_of_app; by left).
  assert (b = e') as -> by (eapply (NoDup_fmap_eq ce_id); [apply Hnd| | done| done];
    rewrite <-Hp; apply elem_of_app; by right).
  clear -Hs Ha Hb. induction l1 as [|x l1 IH]; [by apply elem_of_nil in Ha|].
  apply StronglySorted_inv in Hs as [Hs Hall]. apply elem_of_cons in Ha as [->|Ha]; [|by apply IH].
  rewrite Forall_forall in Hall. apply Hall, elem_of_app. by right.
Qed.

Lemma stale_of_spec olderThan s e : NoDup (ce_id <$> entries s) → e ∈ entries s →
  ce_id e ∈ stale_of olderThan s ↔ 0 < olderThan ∧ ce_last_used_at e < olderThan.
Proof.
  intros Hnd He. unfold stale_of, stale_ids. destruct (Z.ltb_spec 0 olderThan).
  - rewrite list_elem_of_fmap. setoid_rewrite list_elem_of_filter. split.
    + intros (e' & Hid & Hlt & He'). by rewrite (NoDup_fmap_eq ce_id _ e e' Hnd He He' Hid).
    + intros [_ Hlt]. by exists e.
  - rewrite elem_of_nil. lia.
Qed.

Lemma stale_of_ids olderThan s :
  NoDup (ce_id <$> entries s) → NoDup (stale_of olderThan s) ∧ stale_of olderThan s ⊆ ce_id <$> entries s.
Proof.
  intros Hnd. unfold stale_of, stale_ids. case_match; [split|split; [constructor|by intros ? ?%elem_of_nil]].
  - by apply NoDup_fmap_filter.
  - intros id. rewrite !list_elem_of_fmap. setoid_rewrite list_elem_of_filter. naive_solver.
Qed.

(** What [evict] removes, as one list of distinct ids of the table. *)
Lemma evict_removed olderThan pre suf s :
  NoDup (ce_id <$> entries s) →
  let stale := stale_of olderThan s in
  lru_ids (foldl drop_entry s stale) = pre ++ suf →
  NoDup (stale ++ pre) ∧ stale ++ pre ⊆ ce_id <$> entries s.
Proof.
  intros Hnd stale E. destruct (stale_of_ids olderThan s Hnd) as [Hst Hsub].
  assert (pre ++ suf ≡ₚ ce_id <$> filter (λ e, ce_id e ∉ stale) (entries s)) as Hp.
  { by rewrite <-E, lru_ids_perm, drop_entries. }
  assert (∀ id, id ∈ pre → id ∉ stale ∧ id ∈ ce_id <$> entries s) as Hpre.
  { intros id Hid. assert (id ∈ pre ++ suf) as Hin by (apply elem_of_app; auto).
    rewrite Hp in Hin. apply list_elem_of_fmap in Hin as (e & -> & [? ?]%list_elem_of_filter).
    split; [done|]. by apply list_elem_of_fmap_2. }
  assert (NoDup (pre ++ suf)) as Hnd2 by (rewrite Hp; by apply NoDup_fmap_filter).
  split.
  - apply NoDup_app. apply NoDup_app in Hnd2 as [? _]. split_and!; [done| |done]. intros id ? ?%Hpre. tauto.
  - intros id [?|?%Hpre]%elem_of_app; [by apply Hsub | tauto].
Qed.

(** The blobs without some of the folders. *)
Definition without (ids : list string) (b : gmap string (gmap Z string)) : gmap string (gmap Z string) :=
  filter (λ folder_parts, folder_parts.1 ∉ ids) b.

Lemma without_blobs ids s : blobs (foldl drop_entry s ids) = without ids (blobs s).
Proof.
  apply map_eq. intros folder. rewrite drop_blobs. unfold without. symmetry. destruct (decide (folder ∈ ids)) as [Hin|Hin].
  - apply map_lookup_filter_None_2. right. by intros parts _ Hn.
  - destruct (blobs s !! folder) as [parts|] eqn:Hb; [by apply map_lookup_filter_Some_2|]. apply map_lookup_filter_None_2. by left.
Qed.

(** An entry is removed when it is over the age limit, or while the blobs that
    are left are over the size limit. *)
Lemma removed_needed olderThan maxBytes pre s p1 e p2 :
  NoDup (ce_id <$> entries s) → e ∈ entries s → stale_of olderThan s ++ pre = p1 ++ ce_id e :: p2 →
  (∀ p1 id p2, pre = p1 ++ id :: p2 → 0 < maxBytes < blobs_size (blobs (foldl drop_entry s (stale_of olderThan s ++ p1)))) →
  (0 < olderThan ∧ ce_last_used_at e < olderThan) ∨ 0 < maxBytes < blobs_size (without p1 (blobs s)).
Proof using Type.
  intros Hnd He Heq Hmin. destruct (decide (ce_id e ∈ stale_of olderThan s)) as [Hst|Hst]; [left; by apply (stale_of_spec olderThan s e)|].
  right. rewrite <- without_blobs. apply app_eq_inv in Heq as [(k & Hk & Hp)|(k & -> & Hk)]; [|by apply (Hmin k (ce_id e) p2)].
  destruct k as [|x k]; [|injection Hp as <- Hp; rewrite Hk in Hst; set_solver]. cbn in Hp. rewrite app_nil_r in Hk.
  specialize (Hmin [] (ce_id e) p2). rewrite app_nil_r, Hk in Hmin. by apply Hmin.
Qed.

(** C34: [evict] without failures removes whole entries, row and folder, and
    reports how many.  No entry idle for longer than the age limit is left,
    and the blobs then fit the size limit unless no entry is left.  An entry is
    removed only when it is over the age limit, or when it was used no later
    than every entry that is kept and, as it is removed, the blobs that are
    left are still over the size limit. *)
Theorem evict_lru olderThan maxBytes s s' r :
  faults s = [] → NoDup (ce_id <$> entries s) → evict olderThan maxBytes s = (r, s') →
  ∃ removed,
    r = Ok (Z.of_nat (length removed), None) ∧ NoDup removed ∧
    removed ⊆ ce_id <$> entries s ∧
    entries s' = filter (λ e, ce_id e ∉ removed) (entries s) ∧
    (∀ folder, blobs s' !! folder = if decide (folder ∈ removed) then None else blobs s !! folder) ∧
    (0 < olderThan → (∀ e, e ∈ entries s' → olderThan ≤ ce_last_used_at e)) ∧
    (0 < maxBytes → blobs_size (blobs s') ≤ maxBytes ∨ entries s' = []) ∧
    (∀ e e', e ∈ entries s → ce_id e ∈ removed → e' ∈ entries s' →
       (0 < olderThan ∧ ce_last_used_at e < olderThan) ∨
       (0 < maxBytes < blobs_size (blobs s) ∧ ce_last_used_at e ≤ ce_last_used_at e')) ∧
    (∀ e before after, e ∈ entries s → removed = before ++ ce_id e :: after →
       (0 < olderThan ∧ ce_last_used_at e < olderThan) ∨ 0 < maxBytes < blobs_size (without before (blobs s))).
Proof.
  intros Hs Hnd E. destruct (evict_run olderThan maxBytes s Hs) as (pre & suf & El & Er & Hfit & Hmin).
  rewrite Er in E. injection E as <- <-. set (stale := stale_of olderThan s) in *.
  destruct (evict_removed olderThan pre suf s Hnd El) as [Hnd' Hsub]. fold stale in Hnd', Hsub.
  exists (stale ++ pre). rewrite drop_entries in *. split_and!; try done.
  - apply drop_blobs.
  - intros Hold e [Hn He]%list_elem_of_filter. destruct (decide (ce_last_used_at e < olderThan)); [|lia].
    exfalso. apply Hn, elem_of_app. left. by apply stale_of_spec.
  - intros Hm. destruct (Hfit Hm) as [?| ->]; [by left|right]. rewrite app_nil_r in El.
    apply elem_of_nil_inv. intros e [Hn He]%list_elem_of_filter. apply Hn, elem_of_app.
    destruct (decide (ce_id e ∈ stale)); [by left|right]. rewrite <-El, lru_ids_perm, drop_entries.
    apply list_elem_of_fmap_2, list_elem_of_filter. done.
  - intros e e' He Hin [Hn He']%list_elem_of_filter. rewrite not_elem_of_app in Hn. destruct Hn as [Hn1 Hn2].
    destruct (decide (ce_id e ∈ stale)) as [Hst|Hst]; [left; by apply (stale_of_spec olderThan s e)|right].
    apply elem_of_app in Hin as [Hin|Hin]; [done|]. split.
    + apply list_elem_of_split in Hin as (p1 & p2 & Hp). pose proof (Hmin _ _ _ Hp) as Hm.
      pose proof (drop_size_le (stale ++ p1) s). lia.
    + apply (lru_sorted pre suf (foldl drop_entry s stale) e e' El); rewrite ?drop_entries; try done.
      1: by apply NoDup_fmap_filter. 1,2: by apply list_elem_of_filter.
      assert (ce_id e' ∈ pre ++ suf) as [?|?]%elem_of_app; [|done..].
      rewrite <-El, lru_ids_perm, drop_entries. by apply list_elem_of_fmap_2, list_elem_of_filter.
  - intros e p1 p2 He Hp. by eapply removed_needed.
Qed.
End evict_facts.

Lemma evict_lru_witness :
  ∃ removed : list string, fst (evict (H := sqlite_ref) 42 6 sample_store) = Ok (Z.of_nat (length removed), None) ∧
    NoDup removed ∧ blobs_size (blobs (snd (evict (H := sqlite_ref) 42 6 sample_store))) ≤ 6.
Proof.
  destruct (evict_lru (H := sqlite_ref) 42 6 sample_store (snd (evict (H := sqlite_ref) 42 6 sample_store))
    (fst (evict (H := sqlite_ref) 42 6 sample_store))) as (removed & Hr & Hnd & _).
  - reflexivity.
  - vm_compute. repeat constructor; rewrite ?elem_of_cons, elem_of_nil; naive_solver.
  - by destruct (evict 42 6 sample_store).
  - exists removed. split_and!; [done|done|]. vm_compute. discriminate.
Defined.
