(* ===== verification/CacheServer.v ===== *)
(** * The cache server

    [internal/cache/server.go] and [env.go]: construction, routing, the two
    authentication layers, the CacheService handlers, the block upload data
    plane and the garbage collector.  A handler maps a request to a response
    over the store of [CacheStore].  The upstream service answers validation
    requests and proxied requests; it and the protobuf encoder are
    parameters.  Request paths are clean and free of percent escapes. *)

From S2P Require Import Prelude GoErr GoStr Codec Sha256 Json NetIP Config BlockId CacheStore.

Local Open Scope Z_scope.
Local Open Scope go_scope.

(** ** Requests and responses *)

Record request := Request {
  r_Method : string;
  r_Path : string;
  r_Authorization : string;
  r_Host : string;
  r_TLS : bool;
  r_ForwardedProto : string;
  r_comp : string;     (** query parameter [comp] *)
  r_blockid : string;  (** query parameter [blockid] *)
  r_Body : body
}.

Record response := Response {
  status : Z;
  header : list (string * string);
  content : string
}.

Definition newline : string := String "010" "".

(** [http.Error], [http.NotFound]. *)
Definition httpError (code : Z) (msg : string) : response :=
  Response code [("Content-Type", "text/plain; charset=utf-8")] (msg +:+ newline).
Definition NotFound : response := httpError 404 "404 page not found".

Definition writeJSON (v : json) : response :=
  Response 200 [("Content-Type", "application/json")] (encode_json v +:+ newline).

Definition serverError : response := httpError 500 "internal error".

(** ** Outside the program *)

(** The encoder of [protowire], for a field of bytes. *)
Class Protowire := { AppendTag : string → Z → string; AppendString : string → string → string }.

(** What the server sends to validate a token, and what comes back: the
    status and the media type of the answer, if it parses. *)
Record out_request := OutRequest {
  o_URL : string;
  o_Authorization : string;
  o_ContentType : string;
  o_Accept : string;
  o_Body : string
}.

Class Upstream := {
  Do : out_request → result (Z * result string);
  Proxy : request → response;
  (** the text of a JSON decoding error *)
  decode_error : string → string
}.

(** A parsed URL, its path clean and without a trailing slash. *)
Record url := Url { u_Scheme : string; u_Host : string; u_Hostname : string; u_Path : string }.

Record Server := MkServer {
  advertiseURL : string;
  accessToken : string;
  upstream : option url;
  gitBundlerRepo : string;
  gitBundler : option (string → string);  (** what it streams for a slug *)
  gcInterval : Z;
  gcMaxAge : Z;
  gcMaxBytes : Z
}.

(** ** Construction *)

Definition SetGitBundler (repoSlug : string) (f : string → string) (s : Server) : Server :=
  MkServer (advertiseURL s) (accessToken s) (upstream s) (trim_suffix ".git" repoSlug) (Some f)
    (gcInterval s) (gcMaxAge s) (gcMaxBytes s).

Definition isLoopbackHost (host : string) : bool :=
  equal_fold host "localhost" || match ParseIP host with Some ip => IsLoopback ip | None => false end.

(** [url.PathEscape(t) == t]: the characters a path segment keeps. *)
Definition path_safe_char (c : ascii) : bool :=
  let z := Z_of_ascii c in
  is_digit c || ((65 <=? z) && (z <=? 90)) || ((97 <=? z) && (z <=? 122)) || str_mem c "-_.~$&+:=@".
Fixpoint path_safe (t : string) : bool :=
  match t with "" => true | String c t => path_safe_char c && path_safe t end.

Definition second : Z := 1000000000.

(** [randomToken], from the 32 bytes [rand.Read] gives. *)
Definition randomToken (entropy : result string) : result string :=
  match entropy with Err e => Err e | Ok b => Ok (b64_encode RawURLEncoding b) end.

(** [New]; opening the store, reading entropy and parsing a URL are given by
    their outcome. *)
Definition New (cfg : Cache) (openStore : result unit) (entropy : result string)
    (parse_url : string → result url) : result Server :=
  if negb (is_empty (cache_Storage cfg)) && negb (String.eqb (cache_Storage cfg) "filesystem") then
    Err (errorf ("cache storage " +:+ quote (cache_Storage cfg) +:+ " not implemented (filesystem only)"))
  else
    match openStore with
    | Err e => Err e
    | Ok _ =>
        let token :=
          if is_empty (cache_AccessToken cfg) then
            match randomToken entropy with
            | Err e => Err (errorf_w "cache access token: " e)
            | Ok t => Ok t
            end
          else if contains_any (cache_AccessToken cfg) "/?#" || negb (path_safe (cache_AccessToken cfg))
          then Err (errorf "cache access token must be URL path safe")
          else Ok (cache_AccessToken cfg) in
        match token with
        | Err e => Err e
        | Ok token =>
            let s up :=
              MkServer (trim_right (cache_AdvertiseURL cfg) "/") token up "" None
                (if 0 <? GCIntervalSec cfg then wrap64 (GCIntervalSec cfg * second) else 0)
                (if 0 <? cache_MaxAgeDays cfg then wrap64 (cache_MaxAgeDays cfg * (24 * 3600 * second)) else 0)
                (if 0 <? MaxSizeGB cfg then wrap64 (Z.shiftl (MaxSizeGB cfg) 30) else 0) in
            if is_empty (cache_Upstream cfg) then Ok (s None)
            else
              match parse_url (cache_Upstream cfg) with
              | Err e => Err (errorf_w "cache upstream url: " e)
              | Ok up =>
                  if is_empty (u_Host up) ||
                     (negb (String.eqb (u_Scheme up) "https") &&
                      negb (String.eqb (u_Scheme up) "http" && isLoopbackHost (u_Hostname up)))
                  then Err (errorf "cache upstream must use https, except for loopback test endpoints")
                  else Ok (s (Some up))
              end
        end
    end.

Definition accessPrefix (s : Server) : string :=
  if is_empty (accessToken s) then "" else "/_mr/" +:+ accessToken s.

Definition AdvertiseURL (s : Server) : string :=
  if is_empty (advertiseURL s) then "" else advertiseURL s +:+ accessPrefix s.

Definition RedactedAdvertiseURL (s : Server) : string :=
  if is_empty (advertiseURL s) then "" else advertiseURL s +:+ "/_mr/<redacted>".

(** [RunnerEnv] *)
Definition RunnerEnv (advertise : string) : gmap string string :=
  let base := trim_right advertise "/" +:+ "/" in
  {["ACTIONS_RESULTS_URL" := base; "ACTIONS_CACHE_URL" := base; "ACTIONS_CACHE_SERVICE_V2" := "true"]}.

Definition redactPath (s : Server) (path : string) : string :=
  if has_prefix (accessPrefix s) path
  then "/_mr/<redacted>" +:+ trim_prefix (accessPrefix s) path else path.

(** ** Tokens *)

Record scopeEntry := ScopeEntry { Scope : string; Permission : Z }.
Record scopeInfo := ScopeInfo { scopes : list scopeEntry; repoID : string }.

Definition no_scopes : scopeInfo := ScopeInfo [] "".

(** The claims of a token: the JSON of its second part. *)
Definition token_claims (token : string) : option json :=
  match split "." token with
  | _ :: part :: _ =>
      match b64_decode RawURLEncoding part with
      | Some payload => parse_json payload
      | None => None
      end
  | _ => None
  end.

Definition decode_scope (v : json) : decoded scopeEntry :=
  let '(sc, ok1) := field "Scope" as_string "" v in
  let '(perm, ok2) := field "Permission" as_int 0 v in
  (ScopeEntry sc perm, ok1 && ok2).

(** [parseScopes] *)
Definition parseScopes (token : string) : scopeInfo :=
  match token_claims token with
  | None => no_scopes
  | Some v =>
      let '(ac, ok1) := field "ac" as_string "" v in
      let '(repo, ok2) := field "repository_id" as_string "" v in
      if negb (ok1 && ok2) then no_scopes
      else
        match parse_json ac with
        | Some l => ScopeInfo (as_list decode_scope [] l).1 repo
        | None => ScopeInfo [] repo
        end
  end.

(** [parseResultsBackendIDs] *)
Fixpoint results_ids (scps : list string) : option (string * string) :=
  match scps with
  | [] => None
  | sc :: scps =>
      match split ":" sc with
      | ["Actions.Results"; run; job] =>
          if is_empty run || is_empty job then results_ids scps else Some (run, job)
      | _ => results_ids scps
      end
  end.
Definition parseResultsBackendIDs (token : string) : option (string * string) :=
  match token_claims token with
  | None => None
  | Some v =>
      let '(scp, ok) := field "scp" as_string "" v in
      if ok then results_ids (fields scp) else None
  end.

(** [writeScope]: the first scope with permission to write. *)
Fixpoint writeScope (l : list scopeEntry) : string :=
  match l with
  | [] => ""
  | sc :: l => if 2 <=? Permission sc then Scope sc else writeScope l
  end.

(** [sort.SliceStable] by descending permission. *)
Fixpoint insert_scope (x : scopeEntry) (l : list scopeEntry) : list scopeEntry :=
  match l with
  | [] => [x]
  | y :: l' => if Permission y <=? Permission x then x :: l else y :: insert_scope x l'
  end.
Definition scopeStringsByPermission (l : list scopeEntry) : list string :=
  Scope <$> foldr insert_scope [] l.

Section validate.
Context `{Protowire} `{Upstream}.

(** [validateRuntimeToken] *)
Definition validateRuntimeToken (s : Server) (token : string) : bool :=
  match upstream s with
  | None => false
  | Some up =>
      match parseResultsBackendIDs token with
      | None => false
      | Some (runID, jobID) =>
          let target := u_Scheme up +:+ "://" +:+ u_Host up +:+ u_Path up +:+
            "/twirp/github.actions.results.api.v1.ArtifactService/ListArtifacts" in
          let body := AppendString (AppendTag (AppendString (AppendTag "" 1) runID) 2) jobID in
          match Do (OutRequest target ("Bearer " +:+ token) "application/protobuf" "application/protobuf" body) with
          | Err _ => false
          | Ok (code, mediaType) =>
              if negb (code =? 200) then false
              else match mediaType with
                   | Err _ => false
                   | Ok t => String.eqb t "application/protobuf"
                   end
          end
      end
  end.

(** [requireCacheBearer]: the scopes of an accepted token. *)
Definition requireCacheBearer (s : Server) (r : request) : response + scopeInfo :=
  let auth := r_Authorization r in
  let token := trim_prefix "Bearer " auth in
  let info := parseScopes token in
  if is_empty token || String.eqb token auth || bool_decide (scopes info = []) || is_empty (repoID info)
  then inl (httpError 401 "missing or invalid cache token")
  else if negb (validateRuntimeToken s token) then inl (httpError 401 "cache token authentication failed")
  else inr info.
End validate.

(** ** Signed ids *)

(** [time.Now().Unix()]. *)
Definition unix_now : M store Z := let! t := nowMillis in ret (t / 1000).

Definition mac_text (kind id exp : string) : string := kind +:+ newline +:+ id +:+ newline +:+ exp.

(** [signID]: the id, its expiry two hours from now, and their MAC. *)
Definition signID (s : Server) (kind id : string) : M store string :=
  let! now := nowMillis in
  let exp := format_int ((now + 2 * 3600 * 1000) / 1000) in
  ret (id +:+ "." +:+ exp +:+ "." +:+ hex_encode (hmac_sha256 (accessToken s) (mac_text kind id exp))).

(** [verifySignedID] *)
Definition verifySignedID (s : Server) (kind signed : string) : M store (option string) :=
  match split "." signed with
  | [id; exp; gotHex] =>
      match parse_int exp with
      | None => ret None
      | Some until =>
          let! now := unix_now in
          if until <? now then ret None
          else match hex_decode gotHex with
               | None => ret None
               | Some got =>
                   ret (if String.eqb got (hmac_sha256 (accessToken s) (mac_text kind id exp))
                        then Some id else None)
               end
      end
  | _ => ret None
  end.

(** [newRequestID] *)
Definition newRequestID : M store string :=
  let? r := randomID in
  match r with
  | Err _ => ret "00000000"
  | Ok id => ret (format_hex id)
  end.

(** ** Handlers *)

(** [baseURL] *)
Definition baseURL (s : Server) (r : request) : string :=
  if is_empty (r_Host r) then AdvertiseURL s
  else
    let scheme := if r_TLS r then "https" else "http" in
    let scheme := if is_empty (r_ForwardedProto r) then scheme else r_ForwardedProto r in
    scheme +:+ "://" +:+ r_Host r +:+ accessPrefix s.

(** [scopeOrError]: the scopes [requireCacheBearer] put in the context. *)
Definition scopeOrError (ctx : option scopeInfo) : response + scopeInfo :=
  match ctx with
  | None => inl (httpError 401 "cache token was not authenticated")
  | Some info => inr info
  end.

(** The request bodies. *)
Definition key_version (v : json) : decoded (string * string) :=
  let '(key, ok1) := field "key" as_string "" v in
  let '(version, ok2) := field "version" as_string "" v in
  ((key, version), ok1 && ok2).

Definition key_version_restore (v : json) : decoded (string * string * list string) :=
  let '(kv, ok1) := key_version v in
  let '(restore, ok2) := field "restore_keys" (as_list (as_string "")) [] v in
  ((kv, restore), ok1 && ok2).

Section handlers.
Context `{Protowire} `{Upstream} `{Sqlite}.

(** [decodeJSON] *)
Definition decodeJSON {A} (f : json → decoded A) (r : request) : response + A :=
  let bad := httpError 400 ("invalid body: " +:+ decode_error (b_data (r_Body r))) in
  match decode_json (b_data (r_Body r)) with
  | None => inl bad
  | Some v => let '(a, ok) := f v in if ok then inr a else inl bad
  end.

Definition handleCreateCacheEntry (s : Server) (ctx : option scopeInfo) (r : request) : M store response :=
  match scopeOrError ctx with
  | inl e => ret e
  | inr sc =>
      match decodeJSON key_version r with
      | inl e => ret e
      | inr (key, version) =>
          let write := writeScope (scopes sc) in
          if is_empty write then ret (httpError 403 "no scope with write permission")
          else
            let? c := createUpload key version write (repoID sc) in
            match c with
            | Err _ => ret serverError
            | Ok (_, false) => ret (writeJSON (JObj [("ok", JBool false)]))
            | Ok (id, true) =>
                let! signed := signID s "upload" (format_int id) in
                ret (writeJSON (JObj [("ok", JBool true);
                  ("signed_upload_url", JStr (baseURL s r +:+ "/devstoreaccount1/upload/" +:+ signed))]))
            end
      end
  end.

Definition handleGetDownloadURL (s : Server) (ctx : option scopeInfo) (r : request) : M store response :=
  match scopeOrError ctx with
  | inl e => ret e
  | inr sc =>
      match decodeJSON key_version_restore r with
      | inl e => ret e
      | inr (key, version, restore) =>
          let? m := matchEntry (key :: restore) version (scopeStringsByPermission (scopes sc)) (repoID sc) in
          match m with
          | Err _ => ret serverError
          | Ok None => ret (writeJSON (JObj [("ok", JBool false)]))
          | Ok (Some entry) =>
              let! signed := signID s "download" (ID entry) in
              ret (writeJSON (JObj [("matched_key", JStr (Key entry)); ("ok", JBool true);
                ("signed_download_url", JStr (baseURL s r +:+ "/download/" +:+ signed))]))
          end
      end
  end.

Definition handleFinalize (s : Server) (ctx : option scopeInfo) (r : request) : M store response :=
  match scopeOrError ctx with
  | inl e => ret e
  | inr sc =>
      match decodeJSON key_version r with
      | inl e => ret e
      | inr (key, version) =>
          let write := writeScope (scopes sc) in
          if is_empty write then ret (httpError 403 "no scope with write permission")
          else
            let? c := completeUpload key version write (repoID sc) in
            match c with
            | Ok id => ret (writeJSON (JObj [("entry_id", JStr id); ("ok", JBool true)]))
            | Err e =>
                if errors_is "errNoParts" e || errors_is "errPartMismatch" e
                then ret (httpError 400 (error_text e))
                else if isNoRows e then ret (httpError 404 "upload not found")
                else ret serverError
            end
      end
  end.

(** Answer 201 with a fresh request id. *)
Definition created : M store response :=
  let! rid := newRequestID in ret (Response 201 [("x-ms-request-id", rid)] "").

Definition handleUploadPut (s : Server) (signed : string) (r : request) : M store response :=
  let! v := verifySignedID s "upload" signed in
  match v with
  | None => ret (httpError 403 "invalid upload signature")
  | Some idStr =>
      match parse_int idStr with
      | None => ret (httpError 400 "invalid upload id")
      | Some id =>
          if String.eqb (r_comp r) "blocklist" then created
          else
            match (if is_empty (r_blockid r) then Some 0 else chunkIndexFromBlockID (r_blockid r)) with
            | None => ret (httpError 400 "invalid block id")
            | Some chunkIndex =>
                let? u := uploadPart id chunkIndex (r_Body r) in
                match u with
                | Err _ => ret serverError
                | Ok _ => created
                end
            end
      end
  end.

(** [io.Copy] reads pieces of 32 KiB; every read but the last gives a byte. *)
Definition copy_fuel (id : string) : M store nat :=
  gets (λ st, S (Z.to_nat (map_size_sum (folder_parts id st)))).

Definition handleDownload (s : Server) (signed : string) : M store response :=
  let! v := verifySignedID s "download" signed in
  match v with
  | None => ret (httpError 403 "invalid download signature")
  | Some id =>
      let? rc := openDownload id in
      match rc with
      | Err e => if errors_is "os.ErrNotExist" e then ret (httpError 404 "cache entry not found")
                 else ret serverError
      | Ok rc =>
          let! fuel := copy_fuel id in
          let! out := copy_out fuel (32 * 1024) rc in
          ret (Response 200 [("Content-Type", "application/octet-stream")]
                 match out with Some (sent, _) => sent | None => "" end)
      end
  end.

Definition handleGitBundle (s : Server) (owner repo : string) : response :=
  match gitBundler s with
  | None => httpError 404 "git cache not enabled"
  | Some f =>
      let slug := owner +:+ "/" +:+ trim_suffix ".git" repo in
      if negb (String.eqb slug (gitBundlerRepo s)) then NotFound
      else Response 200 [("Content-Type", "application/octet-stream")] (f slug)
  end.

Definition with_path (path : string) (r : request) : request :=
  Request (r_Method r) path (r_Authorization r) (r_Host r) (r_TLS r) (r_ForwardedProto r) (r_comp r)
    (r_blockid r) (r_Body r).

Definition handleCatchAll (s : Server) (r : request) : response :=
  match upstream s with
  | None => httpError 404 "not found"
  | Some _ =>
      if has_prefix (accessPrefix s +:+ "/") (r_Path r) then
        let path := trim_prefix (accessPrefix s) (r_Path r) in
        Proxy (with_path (if is_empty path then "/" else path) r)
      else Proxy r
  end.

(** ** Routing *)

(** A pattern segment: a literal, a wildcard, or the trailing slash that
    matches any rest. *)
Inductive seg := Lit (s : string) | Wild (name : string) | Rest.

Inductive handler :=
| HCreate | HGet | HFinalize | HUnsupported | HUploadPut | HDownload | HGitBundle | HCatchAll
| HHealth | HNotFound.

Record route := Route {
  rt_method : string;  (** [""] for any *)
  rt_path : list seg;
  rt_protected : bool; (** under [s.protect] *)
  rt_bearer : bool;    (** under [s.requireCacheBearer] *)
  rt_handler : handler
}.

Definition svc : list seg := [Lit "twirp"; Lit "github.actions.results.api.v1.CacheService"].
Definition protected : list seg := [Lit "_mr"; Wild "token"].

(** The registrations of [routes], in order. *)
Definition routes : list route :=
  [Route "POST" (svc ++ [Lit "CreateCacheEntry"]) false true HCreate;
   Route "POST" (svc ++ [Lit "GetCacheEntryDownloadURL"]) false true HGet;
   Route "POST" (svc ++ [Lit "FinalizeCacheEntryUpload"]) false true HFinalize;
   Route "" (svc ++ [Rest]) false true HUnsupported;
   Route "POST" (protected ++ svc ++ [Lit "CreateCacheEntry"]) true true HCreate;
   Route "POST" (protected ++ svc ++ [Lit "GetCacheEntryDownloadURL"]) true true HGet;
   Route "POST" (protected ++ svc ++ [Lit "FinalizeCacheEntryUpload"]) true true HFinalize;
   Route "" (protected ++ svc ++ [Rest]) true true HUnsupported;
   Route "PUT" (protected ++ [Lit "devstoreaccount1"; Lit "upload"; Wild "id"]) true false HUploadPut;
   Route "PUT" (protected ++ [Lit "upload"; Wild "id"]) true false HUploadPut;
   Route "GET" (protected ++ [Lit "download"; Wild "id"]) true false HDownload;
   Route "GET" (protected ++ [Lit "gitmirror"; Wild "owner"; Wild "repo"]) true false HGitBundle;
   Route "" (protected ++ [Rest]) true false HCatchAll;
   Route "" [Lit "twirp"; Rest] false false HCatchAll;
   Route "GET" [Lit "health"] false false HHealth;
   Route "" [Rest] false false HNotFound].

(** The wildcards of a pattern that matches the segments of a path. *)
Fixpoint match_path (p : list seg) (segs : list string) : option (list (string * string)) :=
  match p, segs with
  | [], [] => Some []
  | [Rest], _ :: _ => Some []
  | Lit a :: p, b :: segs => if String.eqb a b then match_path p segs else None
  | Wild name :: p, b :: segs =>
      if is_empty b then None
      else match match_path p segs with Some vs => Some ((name, b) :: vs) | None => None end
  | _, _ => None
  end.

(** [ServeMux] prefers, segment by segment, a literal to a wildcard and a
    wildcard to a trailing slash. *)
Definition seg_rank (x : seg) : nat := match x with Lit _ => 0 | Wild _ => 1 | Rest => 2 end.
Fixpoint more_specific (p q : list seg) : bool :=
  match p, q with
  | x :: p, y :: q =>
      if (seg_rank x =? seg_rank y)%nat then more_specific p q else (seg_rank x <? seg_rank y)%nat
  | _, _ => false
  end.

Definition path_segments (path : string) : list string := tail (split "/" path).

(** The best of the routes registered for [method]. *)
Definition find_method (method : string) (segs : list string) : option (route * list (string * string)) :=
  foldl (λ best rt,
    if negb (String.eqb (rt_method rt) method) then best
    else match match_path (rt_path rt) segs with
         | None => best
         | Some vs =>
             match best with
             | Some (b, _) => if more_specific (rt_path rt) (rt_path b) then Some (rt, vs) else best
             | None => Some (rt, vs)
             end
         end) None routes.

(** The routes of the method, of GET for HEAD, then those of any method. *)
Definition find_route (method path : string) : option (route * list (string * string)) :=
  let segs := path_segments path in
  match find_method method segs with
  | Some r => Some r
  | None =>
      match (if String.eqb method "HEAD" then find_method "GET" segs else None) with
      | Some r => Some r
      | None => find_method "" segs
      end
  end.

(** [r.PathValue(name)]. *)
Definition PathValue (vs : list (string * string)) (name : string) : string :=
  match list_find (λ kv, kv.1 = name) vs with Some (_, kv) => kv.2 | None => "" end.

Definition run_handler (s : Server) (h : handler) (ctx : option scopeInfo) (vs : list (string * string))
    (r : request) : M store response :=
  match h with
  | HCreate => handleCreateCacheEntry s ctx r
  | HGet => handleGetDownloadURL s ctx r
  | HFinalize => handleFinalize s ctx r
  | HUnsupported => ret (httpError 404 "unsupported cache operation")
  | HUploadPut => handleUploadPut s (PathValue vs "id") r
  | HDownload => handleDownload s (PathValue vs "id")
  | HGitBundle => ret (handleGitBundle s (PathValue vs "owner") (PathValue vs "repo"))
  | HCatchAll => ret (handleCatchAll s r)
  | HHealth => ret (Response 200 [] "ok")
  | HNotFound => ret NotFound
  end.

(** [s.protect(s.requireCacheBearer(h))], as far as the route asks. *)
Definition serve_route (s : Server) (rt : route) (vs : list (string * string)) (r : request)
    : M store response :=
  if rt_protected rt && negb (String.eqb (PathValue vs "token") (accessToken s)) then ret NotFound
  else if rt_bearer rt then
    match requireCacheBearer s r with
    | inl e => ret e
    | inr info => run_handler s (rt_handler rt) (Some info) vs r
    end
  else run_handler s (rt_handler rt) None vs r.

(** The server's handler; every request is logged, its access token redacted. *)
Definition serve (s : Server) (r : request) : M store response :=
  match find_route (r_Method r) (r_Path r) with
  | Some (rt, vs) => serve_route s rt vs r
  | None => ret NotFound
  end.

(** ** Garbage collection *)

(** What one tick of [runGC] does; its outcome is only logged. *)
Definition gc_tick (s : Server) : M store unit :=
  let! olderThan :=
    (if 0 <? gcMaxAge s then let! now := nowMillis in ret (now - gcMaxAge s / 1000000) else ret 0) in
  let? _ := evict olderThan (gcMaxBytes s) in
  ret tt.

Definition gc_enabled (s : Server) : bool :=
  negb (gcInterval s =? 0) && negb ((gcMaxAge s =? 0) && (gcMaxBytes s =? 0)).

(** [runGC] until its context ends after [n] ticks. *)
Fixpoint runGC (n : nat) (s : Server) : M store unit :=
  match n with
  | O => ret tt
  | S n => if gc_enabled s then gc_tick s ;;; runGC n s else ret tt
  end.
End handlers.
