(* ===== verification/CacheServerSpec.v ===== *)
(** * Properties of the cache server

    Signed ids, the URLs the server hands out, and what a request may change. *)

From S2P Require Import Prelude GoErr GoStr Codec Sha256 Json NetIP Config BlockId CacheStore Sqlite.
From S2P Require Import CacheStoreInv CacheStoreSpec CacheServer.

Local Open Scope Z_scope.
Local Open Scope go_scope.

(** ** Path-safe tokens *)

Lemma path_safe_mem t c : path_safe t = true → path_safe_char c = false → str_mem c t = false.
Proof.
  intros Ht Hc. induction t as [|d t IH]; [done|]. simpl in *. apply andb_true_iff in Ht as [Hd Ht].
  apply orb_false_iff. split; [|auto]. apply Ascii.eqb_neq. intros ->. congruence.
Qed.

Lemma path_safe_app a b : path_safe (a +:+ b) = path_safe a && path_safe b.
Proof. induction a as [|c a IH]; simpl; [done|]. by rewrite IH, andb_assoc. Qed.

Lemma b64_url_char_safe k : 0 ≤ k < 64 → path_safe_char (b64_char RawURLEncoding k) = true.
Proof.
  intros Hk. apply (all_below 64 (λ k, path_safe_char (b64_char RawURLEncoding k))); [|lia].
  vm_compute. reflexivity.
Qed.

Lemma b64_url_safe s : path_safe (b64_encode RawURLEncoding s) = true.
Proof.
  induction s as [|a|a b|a b c s IH] using string_ind3; cbn [b64_encode path_safe b64_pad]; [done|..].
  - destruct (sext_range (Z_of_ascii a) 0 0) as (? & ? & _); try apply Z_of_ascii_range; [lia..|].
    by rewrite !b64_url_char_safe.
  - destruct (sext_range (Z_of_ascii a) (Z_of_ascii b) 0) as (? & ? & ? & _);
      try apply Z_of_ascii_range; [lia|].
    by rewrite !b64_url_char_safe.
  - destruct (sext_range (Z_of_ascii a) (Z_of_ascii b) (Z_of_ascii c)) as (? & ? & ? & ?);
      try apply Z_of_ascii_range.
    by rewrite !b64_url_char_safe, IH.
Qed.

Lemma hex_encode_safe s : path_safe (hex_encode s) = true.
Proof.
  assert (∀ k, 0 ≤ k < 16 → path_safe_char (hex_char k) = true) as Hk.
  { intros k Hk. apply (all_below 16 (λ k, path_safe_char (hex_char k))); [|lia]. vm_compute. reflexivity. }
  induction s as [|c s IH]; [done|]. cbn [hex_encode path_safe]. pose proof (Z_of_ascii_range c).
  rewrite IH, !Hk by dlia. done.
Qed.

(** Whatever [New] accepts or draws is a path segment. *)
Lemma New_token cfg opened entropy parse s :
  New cfg opened entropy parse = Ok s → (∀ b, entropy = Ok b → b ≠ "") →
  path_safe (accessToken s) = true ∧ accessToken s ≠ "".
Proof.
  intros E He. unfold New in E. destruct (_ && _); [done|]. destruct opened; [|done].
  assert (∀ t, (if is_empty (cache_AccessToken cfg) then
      match randomToken entropy with Err e => Err (errorf_w "cache access token: " e) | Ok t => Ok t end
      else if contains_any (cache_AccessToken cfg) "/?#" || negb (path_safe (cache_AccessToken cfg))
      then Err (errorf "cache access token must be URL path safe") else Ok (cache_AccessToken cfg)) = Ok t →
      path_safe t = true ∧ t ≠ "") as Ht.
  { intros t. unfold randomToken. destruct (is_empty (cache_AccessToken cfg)) eqn:Hc.
    - destruct entropy as [b|]; [|done]. intros [= <-]. split; [apply b64_url_safe|].
      specialize (He b eq_refl). by destruct b as [|? [|? [|? ?]]].
    - apply is_empty_false in Hc. destruct (contains_any _ _ || negb (path_safe _)) eqn:Hs; [done|]. intros [= <-].
      apply orb_false_iff in Hs as [_ Hs]. by apply negb_false_iff in Hs. }
  cbv zeta in E. revert E Ht. generalize (if is_empty (cache_AccessToken cfg) then
      match randomToken entropy with Err e => Err (errorf_w "cache access token: " e) | Ok t => Ok t end
      else if contains_any (cache_AccessToken cfg) "/?#" || negb (path_safe (cache_AccessToken cfg))
      then Err (errorf "cache access token must be URL path safe") else Ok (cache_AccessToken cfg)).
  intros [t|e] E Ht; [|done]. specialize (Ht t eq_refl). destruct (is_empty (cache_Upstream cfg)); [by injection E as <-|].
  destruct (parse _); [|done]. case_match; [done|]. by injection E as <-.
Qed.

(** ** Signed ids *)

(** The wall clock as the next reading gives it. *)
Definition clock (st : store) : Z := match ticks st with [] => now st | d :: _ => now st + d end.

Lemma nowMillis_clock st : ∃ st', nowMillis st = (Ok (clock st), st') ∧ same_db st st'.
Proof.
  unfold nowMillis, clock. destruct (ticks st) as [|d ds]; eexists; (split; [done|]); [done|].
  by unfold same_db, faults_ok.
Qed.

(** A request to verify reads the clock at most once and changes nothing. *)
Lemma verify_run s kind signed st : ∃ st', same_db st st' ∧
  verifySignedID s kind signed st =
    (Ok match split "." signed with
        | [id; exp; gotHex] =>
            match parse_int exp, hex_decode gotHex with
            | Some until, Some got =>
                if (clock st / 1000 <=? until) && String.eqb got (hmac_sha256 (accessToken s) (mac_text kind id exp))
                then Some id else None
            | _, _ => None
            end
        | _ => None
        end, st').
Proof.
  unfold verifySignedID. destruct (split "." signed) as [|id [|exp [|gotHex [|? ?]]]];
    try (exists st; split; [done|reflexivity]).
  destruct (parse_int exp) as [until|]; [|exists st; split; [done|reflexivity]].
  destruct (nowMillis_clock st) as (st' & E & Hsame). exists st'. split; [done|].
  unfold bind, unix_now, bind. rewrite E. cbn [ret]. rewrite Z.ltb_antisym.
  destruct (clock st / 1000 <=? until); cbn [negb]; [|by destruct (hex_decode gotHex)].
  by destruct (hex_decode gotHex).
Qed.

Lemma signID_run s kind id st : ∃ st', same_db st st' ∧
  let exp := format_int ((clock st + 7200000) / 1000) in
  signID s kind id st =
    (Ok (id +:+ "." +:+ exp +:+ "." +:+ hex_encode (hmac_sha256 (accessToken s) (mac_text kind id exp))), st').
Proof.
  destruct (nowMillis_clock st) as (st' & E & Hsame). exists st'. split; [done|].
  cbv zeta. unfold signID, bind. by rewrite E.
Qed.

Lemma signed_parts id exp mac : str_mem "." id = false → str_mem "." exp = false →
  split "." (id +:+ "." +:+ exp +:+ "." +:+ hex_encode mac) = [id; exp; hex_encode mac].
Proof.
  intros Hi He. cbn [String.append]. rewrite split_app by done. rewrite split_app by done.
  by rewrite split_free by (by apply hex_encode_mem).
Qed.

(** ** Routes *)

Lemma split_segment (seg rest : string) : str_mem "/" seg = false →
  split "/" (seg +:+ "/" +:+ rest) = seg :: split "/" rest.
Proof. intros Hs. cbn [String.append]. by apply split_app. Qed.

Lemma find_download token signed :
  str_mem "/" token = false → str_mem "/" signed = false → token ≠ "" → signed ≠ "" →
  find_route "GET" ("/_mr/" +:+ token +:+ "/download/" +:+ signed) =
  Some (Route "GET" (protected ++ [Lit "download"; Wild "id"]) true false HDownload,
        [("token", token); ("id", signed)]).
Proof.
  intros Ht Hs Hnt Hns. unfold find_route, path_segments.
  assert (split "/" ("/_mr/" +:+ token +:+ "/download/" +:+ signed) = [""; "_mr"; token; "download"; signed]) as ->.
  { change (split _ _) with (split "/" ("" +:+ "/" +:+ "_mr" +:+ "/" +:+ token +:+ "/" +:+
      "download" +:+ "/" +:+ signed)).
    rewrite !split_segment by done. by rewrite split_free. }
  apply is_empty_false in Hnt, Hns. cbv -[is_empty]. by rewrite Hnt, Hns.
Qed.

Lemma find_upload token signed :
  str_mem "/" token = false → str_mem "/" signed = false → token ≠ "" → signed ≠ "" →
  find_route "PUT" ("/_mr/" +:+ token +:+ "/devstoreaccount1/upload/" +:+ signed) =
  Some (Route "PUT" (protected ++ [Lit "devstoreaccount1"; Lit "upload"; Wild "id"]) true false HUploadPut,
        [("token", token); ("id", signed)]).
Proof.
  intros Ht Hs Hnt Hns. unfold find_route, path_segments.
  assert (split "/" ("/_mr/" +:+ token +:+ "/devstoreaccount1/upload/" +:+ signed) =
    [""; "_mr"; token; "devstoreaccount1"; "upload"; signed]) as ->.
  { change (split _ _) with (split "/" ("" +:+ "/" +:+ "_mr" +:+ "/" +:+ token +:+ "/" +:+
      "devstoreaccount1" +:+ "/" +:+ "upload" +:+ "/" +:+ signed)).
    rewrite !split_segment by done. by rewrite split_free. }
  apply is_empty_false in Hnt, Hns. cbv -[is_empty]. by rewrite Hnt, Hns.
Qed.

(** ** What a signature covers *)

Lemma cut_first c a1 b1 a2 b2 : a1 +:+ String c b1 = a2 +:+ String c b2 →
  str_mem c a1 = false → str_mem c a2 = false → a1 = a2 ∧ b1 = b2.
Proof.
  intros E H1 H2. pose proof (cut_app c a1 b1 H1) as C1. rewrite E, (cut_app c a2 b2 H2) in C1.
  by injection C1 as -> ->.
Qed.

Lemma cut_last c a1 : ∀ b1 a2 b2, a1 +:+ String c b1 = a2 +:+ String c b2 →
  str_mem c b1 = false → str_mem c b2 = false → a1 = a2 ∧ b1 = b2.
Proof.
  induction a1 as [|d a1 IH]; intros b1 [|e a2] b2 E H1 H2; simpl in E.
  - by injection E.
  - injection E as -> ->. by rewrite str_mem_app in H1; simpl in H1; rewrite Ascii.eqb_refl, orb_true_r in H1.
  - injection E as -> <-. by rewrite str_mem_app in H2; simpl in H2; rewrite Ascii.eqb_refl, orb_true_r in H2.
  - injection E as -> E. by destruct (IH _ _ _ E H1 H2) as [-> ->].
Qed.

Lemma digits_val_free acc s z : digits_val acc s = Some z → str_mem "010" s = false.
Proof.
  revert acc. induction s as [|c s IH]; intros acc; cbn [digits_val str_mem]; [done|].
  destruct (is_digit c) eqn:Hc; [|done]. intros Hd. rewrite (IH _ Hd), orb_false_r.
  apply Ascii.eqb_neq. by intros <-.
Qed.

Lemma parse_int_free s z : parse_int s = Some z → str_mem "010" s = false.
Proof.
  unfold parse_int. destruct s as [|c s]; [done|]. unfold parse_sign.
  assert (∀ t w, digits_val 0 t = Some w → str_mem "010" t = false) as Ht by (intros; by eapply digits_val_free).
  intros E. destruct (Ascii.eqb_spec c "-") as [->|Hm]; [|destruct (Ascii.eqb_spec c "+") as [->|Hp]];
    cbn [str_mem]; (case_match; [done|]).
  - destruct (digits_val 0 s) eqn:Ed; [|done]. by rewrite (Ht _ _ Ed).
  - destruct (digits_val 0 s) eqn:Ed; [|done]. by rewrite (Ht _ _ Ed).
  - destruct (digits_val 0 (String c s)) eqn:Ed; [|done]. exact (Ht _ _ Ed).
Qed.

Definition kinds : list string := ["upload"; "download"].

Lemma mac_text_inj kind id exp kind' id' exp' :
  kind ∈ kinds → kind' ∈ kinds → parse_int exp ≠ None → parse_int exp' ≠ None →
  mac_text kind id exp = mac_text kind' id' exp' → kind = kind' ∧ id = id' ∧ exp = exp'.
Proof.
  intros Hk Hk' He He' E.
  assert (∀ k, k ∈ kinds → str_mem "010" k = false) as Hfree.
  { intros k. unfold kinds. rewrite !elem_of_cons, elem_of_nil. by intros [->|[->|[]]]. }
  assert (∀ e, parse_int e ≠ None → str_mem "010" e = false) as Hexp.
  { intros e Hn. destruct (parse_int e) eqn:Ep; [|done]. by eapply parse_int_free. }
  unfold mac_text, newline in E. cbn [String.append] in E.
  apply cut_first in E as [-> E]; [|by apply Hfree..].
  apply cut_last in E as [-> ->]; [done|by apply Hexp..].
Qed.

(** ** Theorems on signed ids *)

(** An id is accepted only with a MAC under the server's token over this
    very operation, this id and an expiry not passed.  The MAC's text
    determines all three, so a signature for a download, another id or an
    earlier expiry signs a different text. *)
Theorem signature_binds s kind signed id st st'
    (Hkind : kind ∈ kinds) (Hv : verifySignedID s kind signed st = (Ok (Some id), st')) :
  same_db st st' ∧ ∃ exp until sig,
    signed = id +:+ "." +:+ exp +:+ "." +:+ sig ∧
    hex_decode sig = Some (hmac_sha256 (accessToken s) (mac_text kind id exp)) ∧
    parse_int exp = Some until ∧ clock st / 1000 ≤ until ∧
    ∀ kind' id' exp', kind' ∈ kinds → parse_int exp' ≠ None →
      mac_text kind' id' exp' = mac_text kind id exp → kind' = kind ∧ id' = id ∧ exp' = exp.
Proof.
  destruct (verify_run s kind signed st) as (st1 & Hsame & E). rewrite E in Hv. clear E.
  injection Hv as Hv <-. split; [done|]. pose proof (join_split "." signed) as Hj.
  destruct (split "." signed) as [|i [|exp [|sig [|? ?]]]]; try done.
  destruct (parse_int exp) as [until|] eqn:Ep; [|done].
  destruct (hex_decode sig) as [got|] eqn:Eh; [|done].
  destruct (_ && _) eqn:Eb; [|done]. injection Hv as ->.
  apply andb_true_iff in Eb as [Eu ->%String.eqb_eq]. apply Z.leb_le in Eu.
  exists exp, until, sig. split_and!; try done.
  intros kind' id' exp' Hk' He' Em. eapply mac_text_inj; eauto. congruence.
Qed.

(** The operations whose URLs the server signs: kind, path and handler. *)
Definition signed_ops : list (string * string * string * handler) :=
  [("upload", "/devstoreaccount1/upload/", "PUT", HUploadPut); ("download", "/download/", "GET", HDownload)].

(** A URL the server hands out works for two hours.  Its path under the
    access token reaches the handler of its operation, past the token check,
    with the signed id as [{id}]; and the signature verifies at any time up
    to the expiry and at no time after. *)
Theorem issued_url_works cfg opened entropy parse s kind path method h id st st1 signed
    (Hnew : New cfg opened entropy parse = Ok s) (Hentropy : ∀ b, entropy = Ok b → b ≠ "")
    (Hop : (kind, path, method, h) ∈ signed_ops)
    (Hid : path_safe id = true ∧ str_mem "." id = false)
    (Hclock : 0 ≤ clock st ≤ int64_max - 7200000)
    (Hsign : signID s kind id st = (Ok signed, st1)) :
  (∃ rt vs, find_route method (accessPrefix s +:+ path +:+ signed) = Some (rt, vs) ∧
     rt_handler rt = h ∧ rt_protected rt = true ∧ rt_bearer rt = false ∧
     PathValue vs "token" = accessToken s ∧ PathValue vs "id" = signed) ∧
  ∀ st2, (verifySignedID s kind signed st2).1 =
    Ok (if clock st2 / 1000 <=? (clock st + 7200000) / 1000 then Some id else None).
Proof.
  destruct (New_token _ _ _ _ _ Hnew Hentropy) as [Htok Hne]. destruct Hid as [Hid Hdot].
  destruct (signID_run s kind id st) as (st' & _ & E). rewrite E in Hsign. injection Hsign as <- <-.
  set (exp := format_int ((clock st + 7200000) / 1000)).
  assert (int64_min ≤ (clock st + 7200000) / 1000 ≤ int64_max) as Hr by (unfold int64_min, int64_max in *; dlia).
  split.
  - assert (str_mem "/" (accessToken s) = false) as Ht by (by apply path_safe_mem).
    assert (str_mem "/" (id +:+ "." +:+ exp +:+ "." +:+ hex_encode (hmac_sha256 (accessToken s) (mac_text kind id exp)))
      = false) as Hs.
    { rewrite !str_mem_app. unfold exp. rewrite format_int_mem by done.
      rewrite (path_safe_mem id) by done. by rewrite (path_safe_mem (hex_encode _)) by (done || apply hex_encode_safe). }
    set (signed := id +:+ _) in *. assert (signed ≠ "") as Hsn by (unfold signed; by destruct id).
    unfold accessPrefix. apply is_empty_false in Hne as Hne'. rewrite Hne'.
    unfold signed_ops in Hop. rewrite !elem_of_cons, elem_of_nil in Hop.
    destruct Hop as [[= -> -> -> ->]|[[= -> -> -> ->]|[]]]; rewrite str_app_assoc;
      [rewrite find_upload by done|rewrite find_download by done]; by do 2 eexists.
  - intros st2. match goal with |- context [verifySignedID _ _ ?x _] =>
      destruct (verify_run s kind x st2) as (st3 & _ & ->) end.
    change (split _ _) with (split "." (id +:+ "." +:+ exp +:+ "." +:+
      hex_encode (hmac_sha256 (accessToken s) (mac_text kind id exp)))).
    rewrite signed_parts by (done || unfold exp; by apply format_int_mem).
    unfold exp at 1. rewrite parse_format_int by done. rewrite hex_decode_encode, String.eqb_refl, andb_true_r.
    done.
Qed.

(** ** What a request may change *)

Lemma find_method_in m segs rt vs : find_method m segs = Some (rt, vs) → rt ∈ routes ∧ rt_method rt = m.
Proof.
  unfold find_method. assert (∀ l best, (∀ x, best = Some x → x.1 ∈ routes ∧ rt_method x.1 = m) → l ⊆ routes →
    ∀ x, foldl (λ best rt,
      if negb (String.eqb (rt_method rt) m) then best
      else match match_path (rt_path rt) segs with
           | None => best
           | Some vs => match best with
                        | Some (b, _) => if more_specific (rt_path rt) (rt_path b) then Some (rt, vs) else best
                        | None => Some (rt, vs)
                        end
           end) best l = Some x → x.1 ∈ routes ∧ rt_method x.1 = m) as Hl.
  { induction l as [|y l IH]; intros best Hb Hsub x; cbn [foldl]; [apply Hb|].
    apply IH; [|by intros z Hz; apply Hsub; right].
    intros z. destruct (String.eqb_spec (rt_method y) m) as [Hm|]; cbn [negb]; [|apply Hb].
    assert (y ∈ routes) by (apply Hsub; left).
    destruct (match_path _ _); [|apply Hb]. destruct best as [[b ?]|]; [|by intros [= <-]].
    destruct (more_specific _ _); [by intros [= <-]|apply Hb]. }
  intros E. by apply (Hl routes None) in E.
Qed.

Lemma find_route_in m path rt vs : find_route m path = Some (rt, vs) →
  rt ∈ routes ∧ (rt_method rt ≠ "" → rt_method rt ≠ "GET" → rt_method rt = m).
Proof.
  unfold find_route. intros E.
  destruct (find_method m (path_segments path)) as [[? ?]|] eqn:E1.
  { injection E as -> ->. apply find_method_in in E1 as [? ?]. auto. }
  destruct (if String.eqb m "HEAD" then _ else _) as [[? ?]|] eqn:E2.
  { injection E as -> ->. case_match; [|done]. apply find_method_in in E2 as [? ?]. split; [done|congruence]. }
  apply find_method_in in E as [? ?]. split; [done|congruence].
Qed.

(** Which guards the handlers that write stand behind. *)
Definition guarded (rt : route) : bool :=
  match rt_handler rt with
  | HCreate | HGet | HFinalize => rt_bearer rt && String.eqb (rt_method rt) "POST"
  | HUploadPut => rt_protected rt && String.eqb (rt_method rt) "PUT"
  | _ => true
  end.

Lemma routes_guarded rt : rt ∈ routes → guarded rt = true.
Proof.
  intros Hin. assert (forallb guarded routes = true) as H by reflexivity.
  rewrite forallb_forall in H. by apply H, list_elem_of_In.
Qed.

Lemma quiet_open_part p : quiet (open_part p).
Proof. apply quiet_fallible. intros s. by destruct (_ !! _). Qed.

(** Split a program into parts known to be quiet. *)
Ltac quiet_parts := repeat first
  [ progress intros | solve [auto using quiet_open_part, quiet_scan_row with gohints]
  | apply quiet_bind | apply quiet_catch | case_match ].

Lemma quiet_read_parts n k : ∀ p, quiet (read_parts n k p).
Proof. induction n as [|n IH]; intros p; cbn [read_parts]; quiet_parts. Qed.

Lemma quiet_copy_out fuel k : ∀ p, quiet (copy_out fuel k p).
Proof.
  induction fuel as [|fuel IH]; intros p; cbn [copy_out]; [apply quiet_ret|].
  apply quiet_bind; [apply quiet_read_parts|]. quiet_parts.
Qed.

Lemma quiet_verify s kind signed : quiet (verifySignedID s kind signed).
Proof. intros st. destruct (verify_run s kind signed st) as (st' & Hsame & ->). done. Qed.

Lemma quiet_randomID : quiet randomID.
Proof. intros st. apply (wp_randomID (λ _ s', same_db st s')); auto. Qed.

Section guards.
Context `{Protowire} `{Upstream} `{Sqlite}.

Lemma quiet_created : quiet created.
Proof. unfold created, newRequestID. repeat first [apply quiet_randomID | progress quiet_parts]. Qed.

Lemma quiet_handleDownload s signed : quiet (handleDownload s signed).
Proof.
  unfold handleDownload. apply quiet_bind; [apply quiet_verify|]. intros [id|]; [|apply quiet_ret].
  apply quiet_catch.
  { apply quiet_catch; [apply quiet_scanEntry, quiet_scan_row|]. quiet_parts. }
  intros [rc|e]; [|quiet_parts]. apply quiet_bind; [apply quiet_gets|]. intros fuel.
  apply quiet_bind; [apply quiet_copy_out|]. quiet_parts.
Qed.

(** Without an accepted upload signature a PUT only reads. *)
Lemma handleUploadPut_guard s signed r st :
  (∀ id, (verifySignedID s "upload" signed st).1 ≠ Ok (Some id)) →
  same_db st (handleUploadPut s signed r st).2.
Proof.
  intros Hn. unfold handleUploadPut, bind. pose proof (quiet_verify s "upload" signed st) as Hq.
  destruct (verifySignedID s "upload" signed st) as [[[id|]|e] st']; [|done|done].
  by destruct (Hn id).
Qed.

(** A validated bearer token, as the upstream confirmed it. *)
Definition bearer_validated (s : Server) (r : request) (info : scopeInfo) : Prop :=
  ∃ token up run job, r_Authorization r = "Bearer " +:+ token ∧ info = parseScopes token ∧
    scopes info ≠ [] ∧ repoID info ≠ "" ∧ upstream s = Some up ∧
    parseResultsBackendIDs token = Some (run, job) ∧
    Do (OutRequest (u_Scheme up +:+ "://" +:+ u_Host up +:+ u_Path up +:+
          "/twirp/github.actions.results.api.v1.ArtifactService/ListArtifacts")
        ("Bearer " +:+ token) "application/protobuf" "application/protobuf"
        (AppendString (AppendTag (AppendString (AppendTag "" 1) run) 2) job)) =
      Ok (200, Ok "application/protobuf").

Lemma requireCacheBearer_inr s r info : requireCacheBearer s r = inr info → bearer_validated s r info.
Proof.
  unfold requireCacheBearer. cbv zeta. set (token := trim_prefix "Bearer " (r_Authorization r)).
  destruct (_ || _) eqn:E1; [done|]. rewrite !orb_false_iff in E1. destruct E1 as [[[_ Hne] Hsc] Hrepo].
  destruct (validateRuntimeToken s token) eqn:Ev; [|done]. intros [= <-].
  unfold validateRuntimeToken in Ev. destruct (upstream s) as [up|] eqn:Eu; [|done].
  destruct (parseResultsBackendIDs token) as [[run job]|] eqn:Er; [|done]. cbv zeta in Ev.
  destruct (Do _) as [[code media]|] eqn:Ed; [|done].
  destruct (Z.eqb_spec code 200) as [->|]; [|done]. destruct media as [t|]; [|done].
  apply String.eqb_eq in Ev as ->. exists token, up, run, job.
  apply bool_decide_eq_false in Hsc. apply is_empty_false in Hrepo. split_and!; try done.
  unfold token, trim_prefix in *. destruct (has_prefix "Bearer " (r_Authorization r)) eqn:Ep.
  - apply has_prefix_spec in Ep as [rest Ep]. by rewrite Ep, str_drop_app.
  - by rewrite String.eqb_refl in Hne.
Qed.

(** What the guards of a route leave of a request. *)
Lemma serve_route_cases (P : store → Prop) s rt vs r st :
  P st →
  (∀ info, rt_bearer rt = true → requireCacheBearer s r = inr info →
     P (run_handler s (rt_handler rt) (Some info) vs r st).2) →
  (rt_bearer rt = false → P (run_handler s (rt_handler rt) None vs r st).2) →
  P (serve_route s rt vs r st).2.
Proof.
  intros Hst Hb Hn. unfold serve_route. destruct (rt_protected rt && _); [done|].
  destruct (rt_bearer rt); [|by apply Hn]. destruct (requireCacheBearer s r) as [e|info]; [done|].
  by apply Hb.
Qed.

(** The handlers that write. *)
Definition writes (h : handler) : bool :=
  match h with HCreate | HGet | HFinalize | HUploadPut => true | _ => false end.

Lemma quiet_run_handler s h ctx vs r : writes h = false → quiet (run_handler s h ctx vs r).
Proof. destruct h; try done; intros _; cbn [run_handler]; apply quiet_ret || apply quiet_handleDownload. Qed.

Lemma serve_route_quiet s rt vs r st : writes (rt_handler rt) = false →
  same_db st (serve_route s rt vs r st).2.
Proof.
  intros Hw. apply (serve_route_cases (same_db st)); [done|..]; intros; by apply quiet_run_handler.
Qed.

Lemma serve_route_bearer s rt vs r st : rt_bearer rt = true →
  (∃ info, bearer_validated s r info) ∨ same_db st (serve_route s rt vs r st).2.
Proof.
  intros Hb. unfold serve_route. rewrite Hb. destruct (rt_protected rt && _); [by right|].
  destruct (requireCacheBearer s r) as [e|info] eqn:Er; [by right|]. left. exists info.
  by apply requireCacheBearer_inr.
Qed.

Lemma serve_route_put s rt vs r st : rt_handler rt = HUploadPut → rt_protected rt = true →
  (PathValue vs "token" = accessToken s ∧
   ∃ id st', verifySignedID s "upload" (PathValue vs "id") st = (Ok (Some id), st')) ∨
  same_db st (serve_route s rt vs r st).2.
Proof.
  intros Hh Hp. destruct (decide (PathValue vs "token" = accessToken s)) as [Ht|Ht]; last first.
  { right. unfold serve_route. apply String.eqb_neq in Ht. by rewrite Hp, Ht. }
  destruct (verifySignedID s "upload" (PathValue vs "id") st) as [v st'] eqn:Ev.
  assert ((∃ id, v = Ok (Some id)) ∨ ∀ id, v ≠ Ok (Some id)) as [[id ->]|Hv]
    by (destruct v as [[id|]|]; [by left; exists id|by right|by right]).
  { left. eauto. }
  right. apply (serve_route_cases (same_db st)); [done|..]; intros; rewrite Hh; cbn [run_handler];
    apply handleUploadPut_guard; by rewrite Ev.
Qed.

(** Unfold the server before the route table. *)
#[local] Opaque find_route.

(** C6: only two kinds of request change the cache.  Whatever else is sent,
    to whatever path, the tables and the blobs stay as they are: a change
    takes a POST with a bearer token whose scopes name a repository and which
    the upstream service confirmed, or a PUT under the server's own access
    token with a valid, unexpired upload signature. *)
Theorem serve_guarded s r st (Hchange : ¬ same_db st (serve s r st).2) :
  (r_Method r = "POST" ∧ ∃ info, bearer_validated s r info) ∨
  (r_Method r = "PUT" ∧ ∃ rt vs id st',
     find_route (r_Method r) (r_Path r) = Some (rt, vs) ∧ PathValue vs "token" = accessToken s ∧
     verifySignedID s "upload" (PathValue vs "id") st = (Ok (Some id), st')).
Proof.
  unfold serve in Hchange. destruct (find_route _ _) as [[rt vs]|] eqn:Ef; [|by destruct Hchange].
  destruct (find_route_in _ _ _ _ Ef) as [Hin Hm]. apply routes_guarded in Hin as Hg. unfold guarded in Hg.
  destruct (writes (rt_handler rt)) eqn:Hw; [|by destruct Hchange; apply serve_route_quiet].
  assert (∀ m, rt_method rt = m → m ≠ "" → m ≠ "GET" → r_Method r = m) as Hmethod.
  { intros m <- ? ?. symmetry. by apply Hm. }
  assert (rt_bearer rt = true → ∃ info, bearer_validated s r info) as Hb.
  { intros Hb. destruct (serve_route_bearer s rt vs r st Hb) as [?|?]; [done|by destruct Hchange]. }
  destruct (rt_handler rt) eqn:Eh; try discriminate Hw;
    apply andb_true_iff in Hg as [Hg Hg'%String.eqb_eq%Hmethod]; try done; auto.
  right. split; [done|]. destruct (serve_route_put s rt vs r st Eh Hg) as [(Ht & id & st' & Hv)|?];
    [|by destruct Hchange]. exists rt, vs, id, st'. auto.
Qed.
End guards.

(** ** A running server *)

(** The protobuf wire format: varints, little end first. *)
Fixpoint varint (fuel : nat) (n : Z) : string :=
  match fuel with
  | O => ""
  | S fuel => if n <? 128 then String (ascii_of_Z n) ""
              else String (ascii_of_Z (128 + n mod 128)) (varint fuel (n / 128))
  end.
#[export] Instance protowire_ref : Protowire := {|
  AppendTag b num := b +:+ varint 10 (num * 8 + 2);
  AppendString b v := b +:+ varint 10 (Z.of_nat (String.length v)) +:+ v |}.

(** An upstream that confirms every token. *)
Definition trusting : Upstream := {|
  Do _ := Ok (200, Ok "application/protobuf");
  Proxy _ := Response 200 [] "proxied";
  decode_error _ := "unexpected EOF" |}.

Definition sample_server : Server :=
  MkServer "http://host:3000" "secret" (Some (Url "https" "upstream" "upstream" "")) "" None 0 0 0.

(** An upload in progress, and an entry of another repository. *)
Definition sample_state : store :=
  Store [UploadRow 7 "k" "v" "main" "42" 0 0] [EntryRow "5" "k" "v" "main" "9" 1 10 10]
    {["5" := {[0 := "blob"]}]} 1000 [] [Some 11; Some 12] [].

Definition signed7 : string :=
  "7.7201." +:+ hex_encode (hmac_sha256 "secret" (mac_text "upload" "7" "7201")).

Definition sample_put : request :=
  Request "PUT" ("/_mr/secret/upload/" +:+ signed7) "" "host:3000" false "" "" "" (Body "data" None).

Definition b64_json (s : string) : string := b64_encode RawURLEncoding s.
Definition q (s : string) : string := String dquote (s +:+ String dquote "").
Definition sample_token : string :=
  "h." +:+ b64_json ("{" +:+ q "repository_id" +:+ ":" +:+ q "42" +:+ "," +:+ q "scp" +:+ ":" +:+
    q "a Actions.Results:run:job" +:+ "," +:+ q "ac" +:+ ":" +:+
    q (escape_str ("[{" +:+ q "Scope" +:+ ":" +:+ q "main" +:+ "," +:+ q "Permission" +:+ ":3}]")) +:+ "}").

Definition sample_post (op key : string) : request :=
  Request "POST" ("/twirp/github.actions.results.api.v1.CacheService/" +:+ op) ("Bearer " +:+ sample_token)
    "host:3000" false "" "" ""
    (Body ("{" +:+ q "key" +:+ ":" +:+ q key +:+ "," +:+ q "version" +:+ ":" +:+ q "v" +:+ "}") None).

Example sample_scopes : parseScopes sample_token = ScopeInfo [ScopeEntry "main" 3] "42".
Proof. vm_compute. reflexivity. Qed.

Example sample_create : (serve (H0 := trusting) (H1 := sqlite_ref) sample_server (sample_post "CreateCacheEntry" "k2") sample_state).1 =
  Ok (writeJSON (JObj [("ok", JBool true);
    ("signed_upload_url", JStr ("http://host:3000/_mr/secret/devstoreaccount1/upload/12.7201." +:+
       hex_encode (hmac_sha256 "secret" (mac_text "upload" "12" "7201"))))])).
Proof. vm_compute. reflexivity. Qed.

Lemma signature_binds_witness :
  ∃ exp until sig, signed7 = "7" +:+ "." +:+ exp +:+ "." +:+ sig ∧ parse_int exp = Some until ∧ 1 ≤ until.
Proof.
  destruct (signature_binds sample_server "upload" signed7 "7" sample_state sample_state)
    as (_ & exp & until & sig & Hs & _ & Hp & Hu & _).
  - left.
  - vm_compute. reflexivity.
  - exists exp, until, sig. split_and!; [exact Hs|exact Hp|]. vm_compute in Hu. exact Hu.
Defined.

Definition sample_cache : Cache :=
  {| cache_Enabled := true; cache_Mode := ""; cache_Storage := "filesystem"; cache_Path := "/c";
     cache_Listen := ""; cache_AdvertiseURL := "http://host:3000/"; cache_ExternalURL := "";
     cache_AccessToken := "secret"; SkipTokenValidation := false; cache_Upstream := "";
     cache_MaxAgeDays := 7; MaxSizeGB := 0; GCIntervalSec := 60 |}.

Lemma issued_url_works_witness :
  ∃ s st1 signed, New sample_cache (Ok tt) (Err (errorf "none")) (λ _, Err (errorf "none")) = Ok s ∧
    signID s "upload" "7" sample_state = (Ok signed, st1) ∧
    (verifySignedID s "upload" signed sample_state).1 = Ok (Some "7").
Proof.
  eexists _, _, _. split; [reflexivity|]. split; [reflexivity|].
  match goal with |- (verifySignedID ?s _ ?g ?st).1 = _ =>
    destruct (issued_url_works sample_cache (Ok tt) (Err (errorf "none")) (λ _, Err (errorf "none"))
      s "upload" "/devstoreaccount1/upload/" "PUT" HUploadPut "7" st st g) as [_ Hv] end.
  - reflexivity.
  - discriminate.
  - left.
  - split; reflexivity.
  - vm_compute. split; discriminate.
  - reflexivity.
  - rewrite (Hv sample_state). reflexivity.
Defined.

Lemma serve_guarded_witness :
  (r_Method sample_put = "POST" ∧ ∃ info, bearer_validated (H0 := trusting) sample_server sample_put info) ∨
  (r_Method sample_put = "PUT" ∧ ∃ rt vs id st',
     find_route (r_Method sample_put) (r_Path sample_put) = Some (rt, vs) ∧
     PathValue vs "token" = "secret" ∧
     verifySignedID sample_server "upload" (PathValue vs "id") sample_state = (Ok (Some id), st')).
Proof.
  apply (serve_guarded (H0 := trusting) (H1 := sqlite_ref) sample_server sample_put sample_state).
  intros (Hu & _). vm_compute in Hu. discriminate Hu.
Defined.
