(* ===== verification/CacheIsolation.v ===== *)
(** * Isolation of the cache

    A request with a bearer token reaches only the entries and the pending
    uploads of the token's repository and scopes: every other one keeps its row
    and its data, whatever fails. *)

From S2P Require Import Prelude GoErr GoStr Codec Sha256 Json NetIP Config BlockId CacheStore Sqlite.
From S2P Require Import CacheStoreInv CacheStoreSpec CacheStoreLookup CacheServer CacheServerSpec.

Local Open Scope Z_scope.
Local Open Scope go_scope.

(** The entry [e] is in the table, with its blob's parts. *)
Definition kept (e : entry_row) (parts : gmap Z string) (st : store) : Prop :=
  store_ok st ∧ e ∈ entries st ∧ folder_parts (ce_id e) st = parts.

Lemma kept_same e parts st st' : same_db st st' → kept e parts st → kept e parts st'.
Proof.
  intros Hs (Hok & He & Hp). split_and!; [by eapply store_ok_same|..]; destruct Hs as (_ & E & B & _).
  - by rewrite E.
  - unfold folder_parts in *. by rewrite B.
Qed.

Lemma kept_quiet {A} e parts (c : M store A) : quiet c → preserves (kept e parts) c.
Proof. intros Hq st Hk. by apply (kept_same _ _ _ _ (Hq st)). Qed.

(** A program that leaves the entries and the blobs alone. *)
Definition only_uploads {A} (c : M store A) : Prop :=
  ∀ s, entries (c s).2 = entries s ∧ blobs (c s).2 = blobs s.

Lemma kept_only_uploads {A} e parts (c : M store A) :
  only_uploads c → preserves store_ok c → preserves (kept e parts) c.
Proof.
  intros Hu Hok st (Hst & He & Hp). destruct (Hu st) as [E B]. split_and!; [by apply Hok|by rewrite E|].
  unfold folder_parts in *. by rewrite B.
Qed.

Lemma only_uploads_quiet {A} (c : M store A) : quiet c → only_uploads c.
Proof. intros Hq s. by destruct (Hq s) as (_ & ? & ? & _). Qed.

Lemma only_uploads_bind {A B} (c : M store A) (k : A → M store B) :
  only_uploads c → (∀ a, only_uploads (k a)) → only_uploads (bind c k).
Proof.
  intros Hc Hk s. destruct (Hc s) as [E1 B1]. unfold bind. destruct (c s) as [[a|e] s']; [|done].
  simpl in *. destruct (Hk a s') as [E2 B2]. by rewrite E2, B2.
Qed.

Lemma only_uploads_catch {A B} (c : M store A) (k : result A → M store B) :
  only_uploads c → (∀ r, only_uploads (k r)) → only_uploads (catch c k).
Proof.
  intros Hc Hk s. destruct (Hc s) as [E1 B1]. unfold catch. destruct (c s) as [r s'].
  simpl in *. destruct (Hk r s') as [E2 B2]. by rewrite E2, B2.
Qed.

Lemma only_uploads_fallible {A} (c : M store A) : only_uploads c → only_uploads (fallible c).
Proof.
  intros Hc. apply only_uploads_bind; [apply only_uploads_quiet, quiet_next_fault|].
  intros [f|]; [by apply only_uploads_quiet, quiet_throw|done].
Qed.

Lemma createUpload_only k v sc r : only_uploads (createUpload k v sc r).
Proof.
  apply only_uploads_catch; [apply only_uploads_quiet, quiet_scan_row|].
  intros [u|e]; [by apply only_uploads_quiet, quiet_ret|]. case_match; [by apply only_uploads_quiet, quiet_throw|].
  apply only_uploads_bind; [apply only_uploads_quiet, quiet_randomID|]. intros id.
  apply only_uploads_bind; [|intros; by apply only_uploads_quiet, quiet_ret].
  apply only_uploads_fallible. intros s. by case_match.
Qed.

Lemma delete_upload_only id : only_uploads (delete_upload id).
Proof. by apply only_uploads_fallible. Qed.

Lemma abandon_upload_only {A} id e : only_uploads (abandon_upload (A := A) id e).
Proof.
  apply only_uploads_catch; [apply delete_upload_only|]. intros; by apply only_uploads_quiet, quiet_throw.
Qed.

(** ** Finalizing *)

Lemma remove_all_kept e parts folder : ce_id e ≠ folder →
  preserves (λ st, kept e parts st ∧ folder ∉ ce_id <$> entries st) (remove_all folder).
Proof.
  intros Hne st [(Hok & He & Hp) Hn].
  pose proof (remove_all_ok folder st (conj Hok Hn)) as [Hok' Hn'].
  assert (entries (remove_all folder st).2 = entries st ∧
    blobs (remove_all folder st).2 !! ce_id e = blobs st !! ce_id e) as [E B].
  { apply (wp_bind _ _ (λ _ st', entries st' = entries st ∧ blobs st' !! ce_id e = blobs st !! ce_id e)).
    apply wp_next_fault. intros f st' (_ & E & B & _) _. rewrite <-E, <-B.
    destruct f as [f|]; [apply wp_bind, wp_modify, wp_throw|apply wp_modify]; (split; [done|]); simpl;
      by rewrite ?lookup_alter_ne, ?lookup_delete_ne. }
  split; [|done]. split_and!; [done|by rewrite E|]. unfold folder_parts in *. by rewrite B.
Qed.

(** Only the entry of the tuple finalized is replaced. *)
Lemma promote_kept e parts k v sc r folder n st :
  kept e parts st → (ce_repo e ≠ r ∨ ce_scope e ≠ sc) → 0 < n →
  (∀ i, 0 ≤ i < n → is_Some (folder_parts folder st !! i)) →
  wp (promote k v sc r folder n) (λ _ st', kept e parts st') st.
Proof.
  intros Hk Hout Hn Hparts. assert (ce_match k v sc r e = false) as Hne.
  { destruct (ce_match k v sc r e) eqn:Em; [|done]. apply ce_match_iff in Em. injection Em as _ _ Hs Hr.
    by destruct Hout. }
  destruct Hk as (Hok & He & Hp).
  enough (wp (promote k v sc r folder n)
    (λ _ st', e ∈ entries st' ∧ folder_parts (ce_id e) st' = parts) st) as Hrest.
  { split; [by apply promote_ok|]. exact Hrest. }
  assert (∀ st', same_db st st' → e ∈ entries st' ∧ folder_parts (ce_id e) st' = parts) as Hsame.
  { intros st' Hs. by destruct (kept_same e parts st st' Hs) as (? & ?). }
  unfold promote. apply wp_catch, wp_scan_row.
  - by intros s' (_ & -> & _).
  - intros err s' Hs' Herr. rewrite Herr by apply Hok. by apply wp_throw, Hsame.
  - intros s' Hs' _. simpl. apply wp_bind, wp_nowMillis. intros t1 s1 Hs1.
    apply wp_bind, wp_nowMillis. intros t2 s2 Hs2. assert (same_db st s2) as H2 by (by do 2 (etrans; [done|])).
    apply wp_fallible; [intros f s3 Hs3 _; apply Hsame; by etrans|]. intros s3 Hs3.
    destruct (Hsame s3) as [He3 Hp3]; [by etrans|]. unfold wp. case_bool_decide; simpl; [done|].
    split; [apply elem_of_app; by left|done].
  - intros old s' Hs' [Hold Hm%Is_true_true]%filter_head. simpl.
    apply wp_bind, wp_nowMillis. intros t1 s1 Hs1. apply wp_bind, wp_nowMillis. intros t2 s2 Hs2.
    assert (same_db st s2) as H2 by (by do 2 (etrans; [done|])).
    apply wp_bind, wp_fallible; [intros f s3 Hs3 _; apply Hsame; by etrans|]. intros s3 Hs3.
    assert (same_db st s3) as H3 by by etrans. destruct (Hsame s3 H3) as [He3 Hp3].
    unfold wp at 1. case_bool_decide as Hnd; simpl; [|done].
    set (new := (λ e, if ce_match k v sc r e then _ else e) <$> entries s3) in *.
    assert (e ∈ new) as Hin by (unfold new; apply list_elem_of_fmap; exists e; by rewrite Hne).
    case_match; [|by apply wp_ret]. apply wp_catch.
    assert (ce_id e ≠ ce_id old) as Hid.
    { intros Hid. rewrite (NoDup_fmap_eq ce_id (entries st) e old) in Hne by (done || apply Hok). congruence. }
    apply (wp_bind _ _ (λ _ st', wp (ret tt) (λ _ st', e ∈ entries st' ∧ folder_parts (ce_id e) st' = parts) st')).
    apply wp_next_fault. intros f s4 (_ & E & B & _) _. simpl in E, B. unfold folder_parts in *.
    destruct f as [f|]; [apply wp_bind, wp_modify, wp_throw|apply wp_modify]; apply wp_ret; simpl;
      rewrite E, B, ?lookup_alter_ne, ?lookup_delete_ne by done; done.
Qed.

Lemma completeUpload_kept e parts k v sc r : (ce_repo e ≠ r ∨ ce_scope e ≠ sc) →
  preserves (kept e parts) (completeUpload k v sc r).
Proof.
  intros Hout. apply preserves_wp. intros st Hk. unfold completeUpload. apply wp_catch, wp_scan_row.
  { by intros s' (-> & _). }
  { intros err s' Hs' He. apply wp_throw. by eapply kept_same. }
  { intros s' Hs' _. apply wp_throw. by eapply kept_same. }
  intros u s' Hs' [Hu _]%filter_head. eapply kept_same in Hk as Hk'; [|done].
  assert (∀ err s, kept e parts s → wp (abandon_upload (A := string) (up_id u) err) (λ _ s', kept e parts s') s)
    as Hab by (intros; by apply wp_preserves; [apply kept_only_uploads; [apply abandon_upload_only|apply abandon_upload_ok]|]).
  case_match eqn:Hf; [by apply Hab|]. case_match; [by apply Hab|].
  apply wp_bind, quiet_wp; [apply quiet_countParts|]. intros [n|err] s1 Hs1; [|by eapply kept_same].
  assert (kept e parts s1) as Hk1 by by eapply kept_same.
  case_match eqn:Hn; [by apply Hab|]. apply negb_false_iff, Z.eqb_eq in Hn as ->. apply Z.eqb_neq in Hf.
  assert (0 < up_finished u) as Hpos by (destruct Hk as [Hok _]; pose proof (ok_counts _ Hok u Hu); lia).
  apply wp_catch. eapply wp_mono; [apply require_parts_spec|]. intros c s2 [Hs2 Hc].
  assert (kept e parts s2) as Hk2 by by eapply kept_same. destruct c as [[]|err]; [|by apply Hab].
  apply wp_bind. eapply wp_mono; [apply promote_kept; [done|done|done|]|].
  - intros i Hi. specialize (Hc eq_refl i). destruct Hs2 as (_ & _ & Hb & _).
    unfold folder_parts in *. rewrite Hb. apply Hc. lia.
  - intros [[]|err] s3 Hk3; [|done]. apply wp_bind. eapply wp_mono;
      [apply wp_preserves; [apply kept_only_uploads; [apply delete_upload_only|apply delete_upload_ok]|done]|].
    intros [[]|err] s4 Hk4; [by apply wp_ret | done].
Qed.

(** ** Pending uploads *)

(** The upload [u] is pending, with the blobs [p] in the folder [f]; [F] says
    that no entry owned that folder when the request came. *)
Definition pending (u : upload_row) (F : Prop) (f : string) (p : option (gmap Z string)) (st : store) : Prop :=
  NoDup (up_id <$> uploads st) ∧ u ∈ uploads st ∧ (F → blobs st !! f = p).

Lemma pending_same u F f p st st' : same_db st st' → pending u F f p st → pending u F f p st'.
Proof. intros (E & _ & B & _). unfold pending. by rewrite E, B. Qed.

Lemma pending_quiet {A} u F f p (c : M store A) : quiet c → preserves (pending u F f p) c.
Proof. intros Hq st H. by apply (pending_same _ _ _ _ _ _ (Hq st)). Qed.

(** A statement whose effect is [g]. *)
Lemma pending_statement u F f p g : (∀ s, pending u F f p s → pending u F f p (g s)) →
  preserves (pending u F f p) (fallible (modify g)).
Proof.
  intros Hg. apply preserves_wp. intros s Hs. apply wp_fallible; [intros; by eapply pending_same|].
  intros s' Hs'. apply wp_modify, Hg. by eapply pending_same.
Qed.

Lemma delete_upload_pending u F f p id : up_id u ≠ id → preserves (pending u F f p) (delete_upload id).
Proof.
  intros Hne. apply pending_statement. intros s (Hn & Hu & Hb). split_and!; simpl; [by apply NoDup_fmap_filter| |done].
  by apply list_elem_of_filter.
Qed.

Lemma abandon_upload_pending {A} u F f p id e : up_id u ≠ id →
  preserves (pending u F f p) (abandon_upload (A := A) id e).
Proof. intros. apply preserves_catch; [by apply delete_upload_pending|intros; apply preserves_throw]. Qed.

Lemma createUpload_pending u F f p k v sc r : preserves (pending u F f p) (createUpload k v sc r).
Proof.
  apply preserves_catch; [apply pending_quiet, quiet_scan_row|].
  intros [x|e]; [apply preserves_ret|]. case_match; [apply preserves_throw|].
  apply preserves_bind; [apply pending_quiet, quiet_randomID|]. intros id.
  apply preserves_bind; [|intros; apply preserves_ret]. apply preserves_wp. intros s Hs.
  apply wp_fallible; [intros; by eapply pending_same|]. intros s' Hs'. eapply pending_same in Hs as (Hn & Hu & Hb); [|done].
  unfold wp. case_bool_decide; simpl; split_and!; try done; simpl.
  - by apply NoDup_fmap_snoc.
  - apply elem_of_app. by left.
Qed.

Lemma touchEntry_pending u F f p id : preserves (pending u F f p) (touchEntry id).
Proof.
  apply preserves_bind; [apply pending_quiet, quiet_nowMillis|]. intros t.
  apply preserves_catch; [by apply pending_statement|intros; apply preserves_ret].
Qed.

Lemma remove_all_pending u F f p folder : (F → f ≠ folder) → preserves (pending u F f p) (remove_all folder).
Proof.
  intros Hne. apply preserves_bind; [apply pending_quiet, quiet_next_fault|].
  assert (∀ g, (F → ∀ b : gmap string (gmap Z string), g b !! f = b !! f) →
    preserves (pending u F f p) (modify (set_blobs g))) as Hg.
  { intros g Hg s (Hn & Hu & Hb). split_and!; [done..|]. intros HF. simpl. by rewrite Hg, Hb. }
  intros [x|]; [apply preserves_bind; [|intros; apply preserves_throw]|]; apply Hg; intros HF b.
  - by rewrite lookup_alter_ne by (by apply not_eq_sym, Hne).
  - by rewrite lookup_delete_ne by (by apply not_eq_sym, Hne).
Qed.

Lemma promote_pending u F f p k v sc r folder n st :
  pending u F f p st → (F → f ∉ ce_id <$> entries st) →
  wp (promote k v sc r folder n) (λ _ st', pending u F f p st') st.
Proof.
  intros Hp HF. unfold promote. apply wp_catch, wp_scan_row.
  - by intros s' (_ & -> & _).
  - intros err s' Hs' _. eapply pending_same in Hp; [|done]. case_match; [|by apply wp_throw].
    apply wp_preserves; [|done]. do 2 (apply preserves_bind; [apply pending_quiet, quiet_nowMillis|intros ?]).
    apply preserves_wp. intros s Hs. apply wp_fallible; [intros; by eapply pending_same|].
    intros s2 Hs2. eapply pending_same in Hs; [|done]. unfold wp. by case_bool_decide.
  - intros s' Hs' _. simpl. eapply pending_same in Hp; [|done]. apply wp_preserves; [|done].
    do 2 (apply preserves_bind; [apply pending_quiet, quiet_nowMillis|intros ?]).
    apply preserves_wp. intros s Hs. apply wp_fallible; [intros; by eapply pending_same|].
    intros s2 Hs2. eapply pending_same in Hs; [|done]. unfold wp. by case_bool_decide.
  - intros old s' Hs' [Hold _]%filter_head. simpl. eapply pending_same in Hp; [|done].
    apply wp_preserves; [|done]. do 2 (apply preserves_bind; [apply pending_quiet, quiet_nowMillis|intros ?]).
    apply preserves_bind.
    + apply preserves_wp. intros s Hs. apply wp_fallible; [intros; by eapply pending_same|].
      intros s2 Hs2. eapply pending_same in Hs; [|done]. unfold wp. by case_bool_decide.
    + intros _. case_match; [|apply preserves_ret]. apply preserves_catch; [|intros; apply preserves_ret].
      apply remove_all_pending. intros HFF ->. by apply HF, list_elem_of_fmap_2.
Qed.

(** Finalizing consumes the upload of its own tuple, and no other. *)
Lemma completeUpload_pending u F f p k v sc r st : (up_repo u ≠ r ∨ up_scope u ≠ sc) →
  pending u F f p st → (F → f ∉ ce_id <$> entries st) →
  wp (completeUpload k v sc r) (λ _ st', pending u F f p st') st.
Proof.
  intros Hout Hp HF. unfold completeUpload. apply wp_catch, wp_scan_row.
  { by intros s' (-> & _). }
  { intros err s' Hs' _. apply wp_throw. by eapply pending_same. }
  { intros s' Hs' _. apply wp_throw. by eapply pending_same. }
  intros x s' Hs' [Hx Hm%Is_true_true%up_match_iff]%filter_head. injection Hm as _ _ Hsc Hr.
  assert (up_id u ≠ up_id x) as Hid.
  { destruct Hp as (Hn & Hu & _). intros E. assert (u = x) as -> by by eapply (NoDup_fmap_eq up_id).
    by destruct Hout. }
  assert (F → f ∉ ce_id <$> entries s') as HF' by (by destruct Hs' as (_ & -> & _)).
  eapply pending_same in Hp; [|done].
  assert (∀ err s, pending u F f p s → wp (abandon_upload (A := string) (up_id x) err) (λ _ s', pending u F f p s') s)
    as Hab by (intros; by apply wp_preserves; [apply abandon_upload_pending|]).
  case_match; [by apply Hab|]. case_match; [by apply Hab|].
  apply wp_bind, quiet_wp; [apply quiet_countParts|]. intros [n|err] s1 Hs1; [|by eapply pending_same].
  eapply pending_same in Hp; [|done]. case_match; [by apply Hab|].
  apply wp_catch, quiet_wp; [apply quiet_require_parts|]. intros c s2 Hs2. eapply pending_same in Hp; [|done].
  destruct c as [[]|err]; [|by apply Hab].
  apply wp_bind. eapply wp_mono; [apply promote_pending; [done|]|].
  - destruct Hs1 as (_ & E1 & _), Hs2 as (_ & E2 & _). by rewrite E2, E1.
  - intros [[]|err] s3 Hp3; [|done]. apply wp_preserves; [|done].
    apply preserves_bind; [by apply delete_upload_pending|intros; apply preserves_ret].
Qed.

Lemma or_touched_pending `{Sqlite} u F f p c next : quiet c → preserves (pending u F f p) next →
  preserves (pending u F f p) (or_touched c next).
Proof.
  intros Hc Hn. apply preserves_catch; [by apply pending_quiet|]. intros [[e|]|err]; [|done|apply preserves_throw].
  apply preserves_bind; [apply touchEntry_pending|intros; apply preserves_ret].
Qed.

(** ** Lookup *)

Lemma touchEntry_kept e parts id : ce_id e ≠ id → preserves (kept e parts) (touchEntry id).
Proof.
  intros Hne st (Hok & He & Hp). split; [by apply touchEntry_ok|].
  apply (wp_bind _ _ (λ _ st', e ∈ entries st' ∧ folder_parts (ce_id e) st' = parts)).
  apply wp_nowMillis. intros t s1 Hs1. apply wp_catch.
  assert (∀ s', same_db st s' → e ∈ entries s' ∧ folder_parts (ce_id e) s' = parts) as Hsame.
  { intros s' Hs. by destruct (kept_same e parts st s' Hs) as (? & ?). }
  apply wp_fallible; [intros f s2 Hs2 _; apply wp_ret, Hsame; by etrans|].
  intros s2 Hs2. apply wp_modify, wp_ret. destruct (Hsame s2) as [He2 Hp2]; [by etrans|].
  split; [|done]. simpl. apply list_elem_of_fmap. exists e. split; [|done].
  unfold set_last_used. apply String.eqb_neq in Hne. by rewrite Hne.
Qed.

#[local] Opaque find_route.

Section isolation.
Context `{Protowire} `{Upstream} `{Sqlite}.

Lemma or_touched_kept e parts rows next :
  (∀ st h, kept e parts st → head (rows st) = Some h → h ∈ entries st ∧ h ≠ e) →
  preserves (kept e parts) next →
  preserves (kept e parts) (or_touched (scanEntry (scan_row rows)) next).
Proof.
  intros Hrows Hnext. apply preserves_wp. intros st Hk. unfold or_touched, scanEntry. do 2 apply wp_catch.
  unfold scan_row. apply wp_fallible.
  - intros f s' Hs' _. eapply kept_same in Hk; [|done].
    case_match; [apply wp_ret; by apply wp_preserves|by do 2 apply wp_throw].
  - intros s' Hs'. eapply kept_same in Hk; [|done]. unfold wp at 1.
    destruct (rows s') as [|h l] eqn:E; simpl; [by apply wp_preserves|].
    destruct (Hrows s' h) as [Hh Hne]; [done|by rewrite E|].
    apply (preserves_bind (kept e parts)); [apply touchEntry_kept|intros; apply preserves_ret|done].
    destruct Hk as (Hok & He & _). intros Hid. apply Hne. symmetry. by eapply (NoDup_fmap_eq ce_id); [apply Hok|..].
Qed.

Lemma key_kept e parts k v sc r next : (ce_repo e ≠ r ∨ ce_scope e ≠ sc) →
  preserves (kept e parts) next →
  preserves (kept e parts) (or_touched (queryExact k v sc r) (or_touched (queryPrefix k v sc r) next)).
Proof.
  intros Hout Hnext. apply or_touched_kept; [|apply or_touched_kept; [|done]].
  - intros st h _ Hh%newest_elem. apply list_elem_of_filter in Hh as [Hm%Is_true_true%ce_match_iff Hin].
    split; [done|]. intros ->. injection Hm as _ _ Hs Hr. by destruct Hout.
  - intros st h _ Hh%newest_elem. apply list_elem_of_filter in Hh as [Hm%Is_true_true Hin].
    split; [done|]. intros ->. unfold prefix_match in Hm. rewrite !andb_true_iff, !String.eqb_eq in Hm.
    destruct Hm as [[[_ _] Hs] Hr]. by destruct Hout.
Qed.

Lemma match_restore_kept e parts restore v sc r next : (ce_repo e ≠ r ∨ ce_scope e ≠ sc) →
  preserves (kept e parts) next → preserves (kept e parts) (match_restore restore v sc r next).
Proof. intros Hout Hn. induction restore as [|rk restore IH]; cbn [match_restore]; [done|]. by apply key_kept. Qed.

Lemma matchEntry_kept e parts keys v scs r : (ce_repo e ≠ r ∨ ce_scope e ∉ scs) →
  preserves (kept e parts) (matchEntry keys v scs r).
Proof.
  intros Hout. destruct keys as [|k restore]; [apply preserves_ret|]. simpl.
  induction scs as [|sc scs IH]; cbn [match_scopes]; [apply preserves_ret|].
  rewrite not_elem_of_cons in Hout. apply key_kept; [tauto|]. apply match_restore_kept; [tauto|]. apply IH. tauto.
Qed.

Lemma key_pending u F f p k v sc r next : preserves (pending u F f p) next →
  preserves (pending u F f p) (or_touched (queryExact k v sc r) (or_touched (queryPrefix k v sc r) next)).
Proof. intros Hn. do 2 (apply or_touched_pending; [apply quiet_scanEntry, quiet_scan_row|]). done. Qed.

Lemma match_restore_pending u F f p restore v sc r next : preserves (pending u F f p) next →
  preserves (pending u F f p) (match_restore restore v sc r next).
Proof. intros Hn. induction restore as [|rk restore IH]; cbn [match_restore]; [done|]. by apply key_pending. Qed.

Lemma matchEntry_pending u F f p keys v scs r : preserves (pending u F f p) (matchEntry keys v scs r).
Proof.
  destruct keys as [|k restore]; [apply preserves_ret|]. simpl.
  induction scs as [|sc scs IH]; cbn [match_scopes]; [apply preserves_ret|]. apply key_pending.
  by apply match_restore_pending.
Qed.

(** ** Handlers *)

Lemma writeScope_elem l : writeScope l ≠ "" → writeScope l ∈ Scope <$> l.
Proof.
  induction l as [|sc l IH]; cbn [writeScope]; [done|]. rewrite fmap_cons, elem_of_cons.
  case_match; auto.
Qed.

Lemma insert_scope_perm x l : insert_scope x l ≡ₚ x :: l.
Proof.
  induction l as [|y l IH]; cbn [insert_scope]; [done|]. case_match; [done|]. rewrite IH. apply perm_swap.
Qed.

Lemma scopeStrings_elem l sc : sc ∈ scopeStringsByPermission l ↔ sc ∈ Scope <$> l.
Proof.
  unfold scopeStringsByPermission. assert (foldr insert_scope [] l ≡ₚ l) as Hp.
  { induction l as [|x l IH]; [done|]. simpl. by rewrite insert_scope_perm, IH. }
  by rewrite Hp.
Qed.

(** The entry lies outside a token's reach. *)
Definition foreign (info : scopeInfo) (e : entry_row) : Prop :=
  ce_repo e ≠ repoID info ∨ ce_scope e ∉ Scope <$> scopes info.

Lemma quiet_signID s kind id : quiet (signID s kind id).
Proof. intros st. destruct (signID_run s kind id st) as (st' & Hs & E). by rewrite E. Qed.

Lemma foreign_write info e : foreign info e → writeScope (scopes info) ≠ "" →
  ce_repo e ≠ repoID info ∨ ce_scope e ≠ writeScope (scopes info).
Proof. intros [?|Hs] Hw; [by left|right]. intros E. apply Hs. rewrite E. by apply writeScope_elem. Qed.

Lemma handlers_kept e parts s h info vs r : h ≠ HUploadPut → foreign info e →
  preserves (kept e parts) (run_handler s h (Some info) vs r).
Proof.
  intros Hh Hout. destruct (writes h) eqn:Hw; [|apply kept_quiet; by apply quiet_run_handler].
  destruct h; try done; cbn [run_handler];
    unfold handleCreateCacheEntry, handleGetDownloadURL, handleFinalize; cbn [scopeOrError];
    (destruct (decodeJSON _ r) as [|[key version]]; [apply preserves_ret|]).
  - destruct (is_empty _) eqn:Hempty; [apply preserves_ret|].
    apply preserves_catch; [apply kept_only_uploads; [apply createUpload_only|apply createUpload_ok]|].
    intros [[id []]|err]; try apply preserves_ret.
    apply preserves_bind; [apply kept_quiet, quiet_signID|intros; apply preserves_ret].
  - destruct key as [key version']. apply preserves_catch.
    { apply matchEntry_kept. destruct Hout as [?|Hs]; [by left|right]. by rewrite scopeStrings_elem. }
    intros [[ce|]|err]; try apply preserves_ret.
    apply preserves_bind; [apply kept_quiet, quiet_signID|intros; apply preserves_ret].
  - destruct (is_empty _) eqn:Hempty; [apply preserves_ret|]. apply is_empty_false in Hempty.
    apply preserves_catch; [by apply completeUpload_kept, foreign_write|].
    intros [id|err]; repeat (case_match; try apply preserves_ret); apply preserves_ret.
Qed.

(** A pending upload outside a token's reach: its repository or its scope. *)
Definition foreign_upload (info : scopeInfo) (u : upload_row) : Prop :=
  up_repo u ≠ repoID info ∨ up_scope u ∉ Scope <$> scopes info.

Lemma handlers_pending u F f p s h info vs r st : h ≠ HUploadPut → foreign_upload info u →
  pending u F f p st → (F → f ∉ ce_id <$> entries st) →
  pending u F f p (run_handler s h (Some info) vs r st).2.
Proof.
  intros Hh Hout Hp HF. destruct (writes h) eqn:Hw; [|by apply (pending_quiet _ _ _ _ _ (quiet_run_handler s h (Some info) vs r Hw))].
  destruct h; try done; cbn [run_handler];
    unfold handleCreateCacheEntry, handleGetDownloadURL, handleFinalize; cbn [scopeOrError];
    (destruct (decodeJSON _ r) as [|[key version]]; [done|]).
  - destruct (is_empty _) eqn:Hempty; [done|]. apply wp_preserves; [|done].
    apply preserves_catch; [apply createUpload_pending|]. intros [[id []]|err]; try apply preserves_ret.
    apply preserves_bind; [apply pending_quiet, quiet_signID|intros; apply preserves_ret].
  - destruct key as [key version']. apply wp_preserves; [|done]. apply preserves_catch; [apply matchEntry_pending|].
    intros [[ce|]|err]; try apply preserves_ret.
    apply preserves_bind; [apply pending_quiet, quiet_signID|intros; apply preserves_ret].
  - destruct (is_empty _) eqn:Hempty; [done|]. apply is_empty_false in Hempty.
    apply (wp_catch _ _ (λ _ st', pending u F f p st')). eapply wp_mono; [apply completeUpload_pending; [|done..]|].
    + destruct Hout as [?|Hs]; [by left|right]. intros E. apply Hs. rewrite E. by apply writeScope_elem.
    + intros [id|err] s' Hs'; [by apply wp_ret|]. repeat (case_match; try by apply wp_ret).
Qed.

Lemma handlers_ok s h info vs r : h ≠ HUploadPut → preserves store_ok (run_handler s h info vs r).
Proof.
  intros Hh. destruct (writes h) eqn:Hw; [|by apply quiet_preserves, quiet_run_handler].
  destruct h; try done; cbn [run_handler];
    unfold handleCreateCacheEntry, handleGetDownloadURL, handleFinalize;
    (destruct info as [info|]; cbn [scopeOrError]; [|apply preserves_ret]);
    (destruct (decodeJSON _ r) as [|[key version]]; [apply preserves_ret|]);
    try (destruct (is_empty _); [apply preserves_ret|]).
  - apply preserves_catch; [apply createUpload_ok|]. intros [[id []]|err]; try apply preserves_ret.
    apply preserves_bind; [apply quiet_preserves, quiet_signID|intros; apply preserves_ret].
  - destruct key as [key version']. apply preserves_catch; [apply matchEntry_ok|].
    intros [[ce|]|err]; try apply preserves_ret.
    apply preserves_bind; [apply quiet_preserves, quiet_signID|intros; apply preserves_ret].
  - apply preserves_catch; [apply completeUpload_ok|]. intros [id|err]; repeat (case_match; try apply preserves_ret); apply preserves_ret.
Qed.

(** The route of a POST: no part is written, and what the token of the
    request covers is what the handler is given. *)
Lemma serve_post s r st (P : store → Prop) :
  r_Method r = "POST" → P st →
  (∀ h info vs, h ≠ HUploadPut →
     info = parseScopes (trim_prefix "Bearer " (r_Authorization r)) → P (run_handler s h (Some info) vs r st).2) →
  (∀ h vs, writes h = false → P (run_handler s h None vs r st).2) →
  P (serve s r st).2.
Proof.
  intros Hpost Hst Hsome Hnone.
  unfold serve. destruct (find_route _ _) as [[rt vs]|] eqn:Ef; [|done].
  destruct (find_route_in _ _ _ _ Ef) as [Hin Hm]. apply routes_guarded in Hin as Hg. unfold guarded in Hg.
  assert (rt_handler rt ≠ HUploadPut) as Hh.
  { intros Eh. rewrite Eh in Hg. apply andb_true_iff in Hg as [_ Hg%String.eqb_eq].
    rewrite Hg in Hm. by specialize (Hm ltac:(done) ltac:(done)); rewrite Hpost in Hm. }
  apply serve_route_cases; [done|..].
  - intros info _ Hinfo. apply Hsome; [done|].
    destruct (requireCacheBearer_inr _ _ _ Hinfo) as (token & up & run & job & Ha & -> & _).
    by rewrite Ha, trim_prefix_app.
  - intros Hb. apply Hnone. destruct (rt_handler rt); try done; by rewrite Hb in Hg.
Qed.

(** C5: a POST reaches only what its token covers.  Whatever route it takes
    and whatever fails on the way, an entry of another repository, or of a
    scope the token does not carry, keeps its row and its blob; a pending
    upload of another repository or scope keeps its row; and the parts
    uploaded so far, in a folder no entry owns, are all still there. *)
Theorem post_isolated s r st
    (Hpost : r_Method r = "POST") (Hok : store_ok st) :
  let info := parseScopes (trim_prefix "Bearer " (r_Authorization r)) in
  let st' := (serve s r st).2 in
  store_ok st' ∧
  (∀ e, e ∈ entries st → foreign info e →
     e ∈ entries st' ∧ folder_parts (ce_id e) st' = folder_parts (ce_id e) st) ∧
  (∀ u, u ∈ uploads st → foreign_upload info u →
     u ∈ uploads st' ∧
     (format_int (up_id u) ∉ ce_id <$> entries st →
      blobs st' !! format_int (up_id u) = blobs st !! format_int (up_id u))).
Proof.
  cbv zeta. split_and!.
  - apply serve_post; [done..| |]; intros h; [intros info vs Hh ->|intros vs Hw]; apply handlers_ok; by destruct h.
  - intros e He Hout.
    enough (kept e (folder_parts (ce_id e) st) (serve s r st).2) as (_ & ? & ?) by done.
    apply serve_post; [done..| |]; intros h; [intros info vs Hh ->; by apply handlers_kept|].
    intros vs Hw. by apply (kept_quiet _ _ _ (quiet_run_handler s h None vs r Hw)).
  - intros u Hu Hout. set (f := format_int (up_id u)).
    enough (pending u (f ∉ ce_id <$> entries st) f (blobs st !! f) (serve s r st).2) as (_ & ? & ?) by done.
    assert (pending u (f ∉ ce_id <$> entries st) f (blobs st !! f) st) as Hp by (split_and!; [apply Hok|done..]).
    apply serve_post; [done..| |]; intros h; [intros info vs Hh ->; by apply handlers_pending|].
    intros vs Hw. by apply (pending_quiet _ _ _ _ _ (quiet_run_handler s h None vs r Hw)).
Qed.
End isolation.

(** Finalizing key [k] under repository 42 consumes upload 7, and leaves
    upload 8 of repository 9, the same key, pending with its part. *)
Definition sample_uploads : store :=
  Store [UploadRow 8 "k" "v" "main" "9" 1 1; UploadRow 7 "k" "v" "main" "42" 1 1]
    [EntryRow "5" "k" "v" "main" "9" 1 10 10]
    {["5" := {[0 := "blob"]}; "8" := {[0 := "theirs"]}; "7" := {[0 := "ours"]}]} 1000 [] [Some 11; Some 12] [].

Lemma sample_uploads_ok : store_ok sample_uploads.
Proof.
  constructor; simpl; try (repeat constructor; rewrite ?elem_of_cons, ?elem_of_nil; naive_solver).
  - intros u [->| ->%list_elem_of_singleton]%elem_of_cons; simpl; lia.
  - intros e ->%list_elem_of_singleton. split; simpl; [lia|]. intros i Hi. assert (i = 0) as -> by lia.
    vm_compute. by eexists.
Qed.

Lemma post_isolated_witness :
  let st' := (serve (H0 := trusting) (H1 := sqlite_ref) sample_server
    (sample_post "FinalizeCacheEntryUpload" "k") sample_uploads).2 in
  EntryRow "5" "k" "v" "main" "9" 1 10 10 ∈ entries st' ∧
  UploadRow 8 "k" "v" "main" "9" 1 1 ∈ uploads st' ∧
  blobs st' !! "8" = Some {[0 := "theirs"]} ∧
  ce_id <$> entries st' = ["5"; "7"] ∧ up_id <$> uploads st' = [8].
Proof.
  destruct (post_isolated (H0 := trusting) (H1 := sqlite_ref) sample_server
    (sample_post "FinalizeCacheEntryUpload" "k") sample_uploads) as (_ & He & Hu).
  - reflexivity.
  - apply sample_uploads_ok.
  - destruct (He (EntryRow "5" "k" "v" "main" "9" 1 10 10)) as [He' _];
      [left|left; vm_compute; discriminate|].
    destruct (Hu (UploadRow 8 "k" "v" "main" "9" 1 1)) as [Hu' Hb];
      [left|left; vm_compute; discriminate|].
    split; [exact He'|]. split; [exact Hu'|]. change (format_int _) with "8" in Hb.
    split; [rewrite Hb|]; [reflexivity| |split; vm_compute; reflexivity].
    apply (bool_decide_unpack _). vm_compute. exact I.
Defined.
