(* ===== verification/Backend.v ===== *)
(** * Backends

    [internal/backend/backend.go]: the request to launch a runner, the
    ownership metadata that lets a restarted process reclaim its own resources,
    and the rewriting of cache URLs.  [net/url] is seen through the parts of a
    parsed URL. *)

From S2P Require Import Prelude GoErr GoStr NetIP ImageVersions.

Local Open Scope Z_scope.
Local Open Scope go_scope.

Definition labelManaged : string := "multirunner".
Definition labelName : string := "multirunner.name".
Definition labelIndex : string := "multirunner.index".
Definition labelInstance : string := "multirunner.instance".
Definition labelTarget : string := "multirunner.target".
Definition labelPool : string := "multirunner.pool".
Definition labelScaleSetID : string := "multirunner.scaleset-id".
Definition labelRunnerID : string := "multirunner.runner-id".

Record Mount := MkMount {
  mnt_Source : string;
  mnt_Target : string;
  mnt_ReadOnly : bool;
  mnt_Volume : bool
}.

Record ContainerSettings := {
  CPUCount : Z;
  cs_MemoryBytes : Z;
  cs_MemorySwapBytes : Z;
  cs_DNS : list string
}.

Record RunnerOwnership := Ownership {
  own_Instance : string;
  own_Target : string;
  own_Pool : string;
  own_ScaleSetID : Z;
  own_RunnerID : Z
}.

Definition no_ownership : RunnerOwnership := Ownership "" "" "" 0 0.

Record LaunchRequest := {
  req_Name : string;
  req_Image : string;
  EncodedJITConfig : string;
  req_WorkFolder : string;
  req_Labels : list string;
  req_Env : gmap string string;
  req_Mounts : list Mount;
  req_Container : ContainerSettings;
  req_Index : Z;
  req_Ownership : RunnerOwnership
}.

Definition IsZero (o : RunnerOwnership) : bool :=
  is_empty (own_Instance o) && is_empty (own_Target o) && is_empty (own_Pool o) &&
  (own_ScaleSetID o =? 0) && (own_RunnerID o =? 0).

Definition ownership_Validate (o : RunnerOwnership) : option goerror :=
  if IsZero o then None
  else fail_if (is_empty (own_Instance o) || is_empty (own_Target o) || is_empty (own_Pool o) ||
                (own_ScaleSetID o =? 0))
         (errorf "complete runner ownership is required").

Record OwnedRunner := MkOwnedRunner { ResourceID : string; owned_Name : string; owned_RunnerID : Z }.

Definition ownershipLabels (o : RunnerOwnership) : gmap string string :=
  if IsZero o then ∅
  else list_to_map
    [(labelManaged, "true"); (labelInstance, own_Instance o); (labelTarget, own_Target o);
     (labelPool, own_Pool o); (labelScaleSetID, format_int (own_ScaleSetID o));
     (labelRunnerID, format_int (own_RunnerID o))].

Definition reconciliationLabels (o : RunnerOwnership) : gmap string string :=
  delete labelRunnerID (delete labelScaleSetID (ownershipLabels o)).

Definition ownedRunner (resourceID : string) (labels : gmap string string) : option OwnedRunner :=
  match parse_int (default "" (labels !! labelRunnerID)) with
  | Some runnerID =>
      if runnerID =? 0 then None
      else Some (MkOwnedRunner resourceID (default "" (labels !! labelName)) runnerID)
  | None => None
  end.

Definition nanoCPUsPerCPU : Z := 1000000000.

Definition validateContainerSettings (r : LaunchRequest) : option goerror :=
  let c := req_Container r in
  fail_if (CPUCount c <? 0) (errorf "cpu count must be >= 0") ;?
  fail_if (int64_max / nanoCPUsPerCPU <? CPUCount c) (errorf "cpu count overflows Docker NanoCPUs") ;?
  fail_if (cs_MemoryBytes c <? 0) (errorf "memory must be >= 0 bytes") ;?
  fail_if (cs_MemorySwapBytes c <? 0) (errorf "memory swap must be >= 0 bytes") ;?
  fail_if (negb (cs_MemorySwapBytes c =? 0) && (cs_MemoryBytes c =? 0))
    (errorf "memory swap requires a memory limit") ;?
  fail_if (negb (cs_MemorySwapBytes c =? 0) && (cs_MemorySwapBytes c <? cs_MemoryBytes c))
    (errorf "memory swap must be greater than or equal to memory") ;?
  each (λ server, fail_if (bool_decide (ParseIP server = None))
          (errorf ("DNS server " +:+ quote server +:+ " must be an IP address"))) (cs_DNS c).

(** ** Cache URLs *)

(** [url.Parse]: the host name, the port, and the text of the URL with another
    host put in. *)
Record parsed_url := ParsedUrl { p_Hostname : string; p_Port : string; p_with_host : string → string }.

Section cache_urls.
Variable url_parse : string → option parsed_url.

Definition CacheHost (env : gmap string string) : string :=
  let u := default "" (env !! "ACTIONS_RESULTS_URL") in
  if is_empty u then ""
  else match url_parse u with
       | None => ""
       | Some p => if bool_decide (ParseIP (p_Hostname p) = None) then p_Hostname p else ""
       end.

Definition rewrite_url (host : string) (u : string) : string :=
  match url_parse u with
  | None => u
  | Some p =>
      if is_empty (p_Hostname p) || negb (bool_decide (ParseIP (p_Hostname p) = None)) then u
      else p_with_host p (if is_empty (p_Port p) then host else host +:+ ":" +:+ p_Port p)
  end.

Definition RewriteCacheHost (env : gmap string string) (host : string) : gmap string string :=
  foldl (λ out key, alter (rewrite_url host) key out) env
    ["ACTIONS_RESULTS_URL"; "ACTIONS_CACHE_URL"; "MR_GIT_BUNDLE_URL"].
End cache_urls.
