(* ===== verification/Session.v ===== *)
(** * Scale set sessions and their supervisor

    [internal/scaleset/session.go], [supervisor.go] and [client.go]: what a
    pool registers, how its session is opened, how its failures are classified
    and how failed sessions are restarted.  The scaleset library is
    third-party: its client is an interface, its constructors and error values
    parameters.  Contexts are cancelled and time passes as the environment
    says; durations are in nanoseconds. *)

From S2P Require Import Prelude GoErr GoStr ImageVersions Backend.

Local Open Scope Z_scope.
Local Open Scope go_scope.

(** ** Target and client *)

Definition TargetURL (baseURL scope owner repo : string) : result string :=
  let base := trim_suffix "/" baseURL in
  let base := if is_empty base then "https://github.com" else base in
  if String.eqb scope "repo" then
    if is_empty owner || is_empty repo then Err (errorf "scope=repo needs github.owner and github.repo")
    else Ok (base +:+ "/" +:+ owner +:+ "/" +:+ repo)
  else if String.eqb scope "org" then
    if is_empty owner then Err (errorf "scope=org needs github.owner") else Ok (base +:+ "/" +:+ owner)
  else if String.eqb scope "enterprise" then
    if is_empty owner then Err (errorf "scope=enterprise needs github.owner")
    else Ok (base +:+ "/enterprises/" +:+ owner)
  else Err (errorf ("provisioning: scaleset supports scope repo|org|enterprise, got " +:+ quote scope)).

Record ClientOptions := {
  co_TargetURL : string;
  co_PAT : string;
  co_AppID : Z;
  co_InstallationID : Z;
  co_PrivateKeyPath : string;
  co_ClientID : string;
  co_TokenPath : string
}.

(** The constructors of the scaleset library, and the device client. *)
Record client_builders (C : Type) := {
  WithGitHubApp : string → string → Z → string → result C;  (** URL, client id, installation, PEM *)
  WithPersonalAccessToken : string → string → result C;     (** URL, token *)
  DeviceClient : ClientOptions → result C
}.
Arguments WithGitHubApp {_} _.
Arguments WithPersonalAccessToken {_} _.
Arguments DeviceClient {_} _.

Definition NewClient {C} (b : client_builders C) (ReadFile : string → result string)
    (opts : ClientOptions) : result C :=
  if is_empty (co_PAT opts) && (co_AppID opts =? 0) && is_empty (co_TokenPath opts) then
    Err (errorf "provisioning: scaleset needs auth.pat, GitHub App credentials, or a device-flow token_path")
  else if is_empty (co_PAT opts) && (co_AppID opts =? 0) then DeviceClient b opts
  else if is_empty (co_PAT opts) then
    if is_empty (co_PrivateKeyPath opts) then
      Err (errorf "provisioning: scaleset with a GitHub App needs auth.private_key_path")
    else match ReadFile (co_PrivateKeyPath opts) with
         | Err e => Err (errorf_w "read GitHub App private key: " e)
         | Ok pem => WithGitHubApp b (co_TargetURL opts) (format_int (co_AppID opts))
                       (co_InstallationID opts) pem
         end
  else WithPersonalAccessToken b (co_TargetURL opts) (co_PAT opts).

(** ** Error classes *)

(** The library quotes a status line after [status=]. *)
Definition isHTTPStatusMessage (message code : string) : bool :=
  contains message ("status=" +:+ String "034" (code +:+ " ")) ||
  contains message ("status code: " +:+ code) ||
  contains message ("status code " +:+ code).

Definition isHTTPStatus (err : option goerror) (code : string) : bool :=
  match err with Some e => isHTTPStatusMessage (error_text e) code | None => false end.

(** [permanentSessionError] embeds an error and has no [Unwrap]. *)
Definition permanentSessionError (e : goerror) : goerror := ETyped "permanentSessionError" e false.

Definition isPermanentSessionError (err : option goerror) : bool :=
  match err with
  | None => false
  | Some e =>
      match errors_as "permanentSessionError" e with
      | Some _ => true
      | None =>
          errors_is "scaleset.ErrInvalidGitHubConfigURL" e ||
          existsb (isHTTPStatusMessage (error_text e)) ["400"; "422"]
      end
  end.

Definition classifySessionError (e : goerror) : goerror :=
  if isPermanentSessionError (Some e) then permanentSessionError e else e.

Definition isSessionConflict (e : goerror) : bool :=
  contains (error_text e) "409 Conflict" &&
  contains (error_text e) "RunnerScaleSetSessionConflictException".

(** ** The scale set of a pool *)

Record SessionOptions := {
  so_Name : string;
  so_RunnerGroup : string;
  so_Labels : list string;
  so_Target : string;
  so_Pool : string;
  so_Instance : string
}.

(** The library's label and scale set, as far as the program uses them. *)
Record Label := MkLabel { label_Name : string; label_Type : string }.
Record RunnerScaleSet := MkScaleSet {
  set_ID : Z;
  set_Name : string;
  set_RunnerGroupID : Z;
  set_Labels : list Label;
  set_DisableUpdate : bool
}.

Record scaleSetManager := {
  GetRunnerGroupByName : string → result Z;
  GetRunnerScaleSet : Z → string → result (option RunnerScaleSet);
  CreateRunnerScaleSet : RunnerScaleSet → result RunnerScaleSet;
  UpdateRunnerScaleSet : Z → RunnerScaleSet → result RunnerScaleSet
}.

Definition DefaultRunnerGroup : string := "default".

Definition runnerGroupID (client : scaleSetManager) (name : string) : result Z :=
  if is_empty name || String.eqb name DefaultRunnerGroup then Ok 1
  else match GetRunnerGroupByName client name with
       | Err e => Err (errorf_w ("resolve runner group " +:+ quote name +:+ ": ") e)
       | Ok id => Ok id
       end.

Definition desiredScaleSet (opts : SessionOptions) (groupID : Z) : RunnerScaleSet :=
  let labels := (λ name, MkLabel name "System") <$> so_Labels opts in
  MkScaleSet 0 (so_Name opts) groupID
    (match labels with [] => [MkLabel (so_Name opts) "System"] | _ => labels end) true.

(** The multiset of names counted up and down in [scaleSetMatches]. *)
Definition count_labels (f : Z → Z) (labels : gmap string Z) (l : list Label) : gmap string Z :=
  foldl (λ m x, <[label_Name x := f (default 0 (m !! label_Name x))]> m) labels l.

Definition scaleSetMatches (existing desired : RunnerScaleSet) : bool :=
  if negb (String.eqb (set_Name existing) (set_Name desired)) ||
     negb (set_RunnerGroupID existing =? set_RunnerGroupID desired) ||
     negb (eqb (set_DisableUpdate existing) (set_DisableUpdate desired)) ||
     negb (length (set_Labels existing) =? length (set_Labels desired))%nat then false
  else
    let labels := count_labels Z.pred (count_labels Z.succ ∅ (set_Labels existing)) (set_Labels desired) in
    forallb (λ '(_, count), count =? 0) (map_to_list labels).

Definition ensureScaleSet (client : scaleSetManager) (opts : SessionOptions) (groupID : Z)
    : result RunnerScaleSet :=
  match GetRunnerScaleSet client groupID (so_Name opts) with
  | Ok (Some existing) =>
      let desired := desiredScaleSet opts groupID in
      if scaleSetMatches existing desired then Ok existing
      else match UpdateRunnerScaleSet client (set_ID existing) desired with
           | Err e => Err (errorf_w ("update scale set " +:+ quote (so_Name opts) +:+ ": ") e)
           | Ok updated => Ok updated
           end
  | Err e => Err (errorf_w ("lookup scale set " +:+ quote (so_Name opts) +:+ ": ") e)
  | Ok None =>
      match CreateRunnerScaleSet client (desiredScaleSet opts groupID) with
      | Err e => Err (errorf_w ("create scale set " +:+ quote (so_Name opts) +:+ ": ") e)
      | Ok created => Ok created
      end
  end.

(** What [Run] settles before it opens a session: the scale set, and the
    ownership under which its runners are reconciled. *)
Definition prepare_session (client : scaleSetManager) (supported : bool) (backend_name : string)
    (EnsureImage : option goerror) (Hostname : result string) (opts : SessionOptions)
    : result (RunnerScaleSet * RunnerOwnership * string) :=
  if negb supported then
    Err (permanentSessionError (errorf ("backend " +:+ quote backend_name +:+
           " does not support scale-set ownership reconciliation")))
  else
    match EnsureImage with
    | Some e => Err (errorf_w ("ensure image for " +:+ quote (so_Name opts) +:+ ": ") e)
    | None =>
        match runnerGroupID client (so_RunnerGroup opts) with
        | Err e => Err (classifySessionError e)
        | Ok groupID =>
            match ensureScaleSet client opts groupID with
            | Err e => Err (classifySessionError e)
            | Ok set =>
                let instance :=
                  if is_empty (so_Instance opts) then
                    match Hostname with
                    | Ok h => if is_empty h then "multirunner" else h
                    | Err _ => "multirunner"
                    end
                  else so_Instance opts in
                let pool := if is_empty (so_Pool opts) then so_Name opts else so_Pool opts in
                Ok (set, Ownership instance (so_Target opts) pool (set_ID set) 0,
                    instance +:+ "-" +:+ so_Name opts)
            end
        end
    end.

(** ** Opening a session *)

Definition second : Z := 1000000000.
Definition sessionConflictWait : Z := 180 * second.
Definition sessionRetryInterval : Z := 10 * second.

(** One pass of the loop of [openSession]: the library's answer, the clock
    when a conflict is examined, and whether the wait ran to its end. *)
Record open_try (S : Type) := OpenTry { ot_result : result S; ot_now : Z; ot_waited : bool }.
Arguments OpenTry {_} _ _ _.
Arguments ot_result {_} _.
Arguments ot_now {_} _.
Arguments ot_waited {_} _.

(** [openSession] started at [start]; [None] when the tries run out first. *)
Fixpoint open_loop {S} (deadline : Z) (name : string) (tries : list (open_try S)) : option (result S) :=
  match tries with
  | [] => None
  | t :: tries =>
      match ot_result t with
      | Ok session => Some (Ok session)
      | Err e =>
          if negb (isSessionConflict e) then
            Some (Err (errorf_w ("open message session for " +:+ quote name +:+ ": ") e))
          else if deadline <? ot_now t then
            Some (Err (errorf_w ("scale set " +:+ quote name +:+ " still has an active session after 3m0s; " +:+
              "another multirunner process is running against it, or a previous one has not been released yet: ") e))
          else if ot_waited t then open_loop deadline name tries
          else Some (Err err_canceled)
      end
  end.
Definition openSession {S} (start : Z) (name : string) (tries : list (open_try S)) : option (result S) :=
  open_loop (start + sessionConflictWait) name tries.

(** What [listenerSession.run] returns once the session is open: the outcome
    of creating the listener, then of running it. *)
Definition listener_result (name : string) (open : result unit) (create : option goerror)
    (run : option goerror) : option goerror * bool :=
  match open with
  | Err e => (Some (classifySessionError (errorf_w ("open message session for " +:+ quote name +:+ ": ") e)), false)
  | Ok _ =>
      match create with
      | Some e => (Some (classifySessionError (errorf_w ("create listener for " +:+ quote name +:+ ": ") e)), false)
      | None =>
          (match run with
           | Some e => if errors_is "context.Canceled" e then None
                       else Some (classifySessionError
                              (EWrap ("listener for " +:+ quote name +:+ " stopped: ") e ""))
           | None => None
           end, true)
      end
  end.

(** ** Supervision *)

Definition supervisorInitialBackoff : Z := 2 * second.
Definition supervisorMaxBackoff : Z := 60 * second.
Definition supervisorHealthyAfter : Z := 60 * second.

Inductive SessionAvailability := SessionBackingOff | SessionAvailable | SessionPermanentlyUnavailable.

Record supervisorConfig := {
  initialBackoff : Z;
  maxBackoff : Z;
  healthyAfter : Z
}.
Definition defaultSupervisorConfig : supervisorConfig :=
  {| initialBackoff := supervisorInitialBackoff; maxBackoff := supervisorMaxBackoff;
     healthyAfter := supervisorHealthyAfter |}.

(** The loop of [supervisorBackoff], [n] passes to go. *)
Fixpoint backoff_loop (n : nat) (delay maximum : Z) : Z :=
  match n with
  | O => if maximum <? delay then maximum else delay
  | S n =>
      if delay <? maximum then
        if Z.quot maximum 2 <? delay then maximum
        else backoff_loop n (wrap64 (delay * 2)) maximum
      else if maximum <? delay then maximum else delay
  end.
Definition supervisorBackoff (failures initial maximum : Z) : Z :=
  backoff_loop (Z.to_nat (failures - 1)) initial maximum.

(** One pass of the loop of [superviseSession]: whether the context is live at
    its head, whether the session became available, its outcome, how long it
    lived, whether the context was cancelled by then, and whether the delay
    ran to its end. *)
Record attempt := Attempt {
  at_live : bool;
  at_available : bool;
  at_err : option goerror;
  at_lived : Z;
  at_cancelled : bool;
  at_slept : bool
}.

Inductive sup_event :=
| Report (st : SessionAvailability)
| Delay (failures d : Z).

Section supervise.
Variable cfg : supervisorConfig.

(** The events and, unless the attempts run out, the value returned. *)
Fixpoint supervise_loop (name : string) (failures : Z) (attempts : list attempt)
    : list sup_event * option (option goerror) :=
  match attempts with
  | [] => ([], None)
  | a :: attempts =>
      if negb (at_live a) then ([], Some None)
      else
        let pre := if at_available a then [Report SessionAvailable] else [] in
        if isPermanentSessionError (at_err a) then
          (pre ++ [Report SessionPermanentlyUnavailable],
           Some (match at_err a with
                 | Some e => Some (errorf_w ("scale set " +:+ quote name +:+ " failed permanently: ") e)
                 | None => None
                 end))
        else if at_cancelled a then (pre, Some None)
        else
          let failures := (if healthyAfter cfg <=? at_lived a then 0 else failures) + 1 in
          let delay := supervisorBackoff failures (initialBackoff cfg) (maxBackoff cfg) in
          let evs := pre ++ [Report SessionBackingOff; Delay failures delay] in
          if negb (at_slept a) then (evs, Some None)
          else let '(rest, r) := supervise_loop name failures attempts in (evs ++ rest, r)
  end.

Definition superviseSession (name : string) (attempts : list attempt)
    : list sup_event * option (option goerror) :=
  let '(evs, r) := supervise_loop name 0 attempts in (Report SessionBackingOff :: evs, r).

(** A session to supervise: its name, and the run function if there is one. *)
Record SupervisedSession := MkSession { ss_Name : string; ss_Run : option (list attempt) }.

(** [runSupervised], every session having returned. *)
Definition runSupervised (sessions : list SupervisedSession) : option goerror :=
  match each (λ s,
          fail_if (is_empty (ss_Name s)) (errorf "scale set session name is required") ;?
          fail_if (negb (bool_decide (is_Some (ss_Run s))))
            (errorf ("scale set " +:+ quote (ss_Name s) +:+ " session function is required"))) sessions with
  | Some e => Some e
  | None =>
      errors_join ((λ s, default None (superviseSession (ss_Name s) (default [] (ss_Run s))).2) <$> sessions)
  end.
End supervise.
