(* ===== verification/SessionSpec.v ===== *)
(** * Scale set sessions: what they promise

    The backoff is the capped doubling, and never overflows; a supervised
    session ends only on cancellation or on a permanent failure, and waits
    after a failure by the length of the streak it ends; a scale set matches
    when its labels are a permutation of the desired ones; a session that
    cannot be opened is given up within the conflict window. *)

From S2P Require Import Prelude GoErr GoStr Backend Session.

Local Open Scope Z_scope.
Local Open Scope go_scope.

(** ** Statements *)

(** An attempt after which the supervisor goes on. *)
Definition retried (a : attempt) : Prop :=
  at_live a = true ∧ isPermanentSessionError (at_err a) = false ∧
  at_cancelled a = false ∧ at_slept a = true.

(** An attempt at which the supervisor stops because of its context. *)
Definition interrupted (a : attempt) : Prop :=
  at_live a = false ∨ at_cancelled a = true ∨ at_slept a = false.

Definition delays (evs : list sup_event) : list (Z * Z) :=
  omap (λ ev, match ev with Delay f d => Some (f, d) | _ => None end) evs.

Definition label_names (s : RunnerScaleSet) : list string := label_Name <$> set_Labels s.

(** Tries at least the retry interval apart, the first not before [start]. *)
Fixpoint spaced {S} (start : Z) (tries : list (open_try S)) : Prop :=
  match tries with
  | [] => True
  | t :: tries => start ≤ ot_now t ∧ spaced (ot_now t + sessionRetryInterval) tries
  end.

(** ** Backoff *)

Lemma backoff_loop_min n delay maximum :
  0 < delay → delay ≤ maximum → maximum ≤ int64_max →
  backoff_loop n delay maximum = Z.min (delay * 2 ^ Z.of_nat n) maximum.
Proof.
  revert delay. induction n as [|n IH]; intros delay Hd Hm Hx; cbn [backoff_loop].
  - change (2 ^ Z.of_nat 0) with 1. destruct (Z.ltb_spec maximum delay); lia.
  - rewrite Nat2Z.inj_succ, Z.pow_succ_r by lia.
    pose proof (Z.pow_pos_nonneg 2 (Z.of_nat n) ltac:(lia) ltac:(lia)).
    destruct (Z.ltb_spec delay maximum); [|destruct (Z.ltb_spec maximum delay); nia].
    rewrite Z.quot_div_nonneg by lia.
    destruct (Z.ltb_spec (maximum / 2) delay).
    + assert (maximum < delay * 2) by dlia. nia.
    + assert (delay * 2 ≤ maximum) by dlia.
      rewrite wrap64_id by (unfold int64_min; lia). rewrite IH by lia. f_equal. lia.
Qed.

(** [supervisorBackoff] is the capped doubling: the delay after [failures]
    consecutive failures is the initial delay doubled [failures - 1] times, or
    the maximum when that is less, whatever the 64-bit durations, so the
    doubling never overflows. *)
Theorem supervisorBackoff_capped (failures initial maximum : Z) :
  1 ≤ failures → 0 < initial → 0 < maximum ≤ int64_max →
  supervisorBackoff failures initial maximum = Z.min (initial * 2 ^ (failures - 1)) maximum.
Proof.
  intros Hf Hi [Hm Hx]. unfold supervisorBackoff.
  pose proof (Z.pow_pos_nonneg 2 (failures - 1) ltac:(lia) ltac:(lia)).
  destruct (decide (initial ≤ maximum)).
  - rewrite backoff_loop_min by lia. by rewrite Z2Nat.id by lia.
  - assert (initial <? maximum = false) as H1 by (apply Z.ltb_ge; lia).
    assert (maximum <? initial = true) as H2 by (apply Z.ltb_lt; lia).
    rewrite Z.min_r by nia. by destruct (Z.to_nat (failures - 1)); cbn [backoff_loop]; rewrite ?H1, H2.
Qed.

Lemma supervisorBackoff_capped_witness :
  1 ≤ 40 ∧ supervisorBackoff 40 (2 * second) (60 * second) = 60 * second
  ∧ supervisorBackoff 3 (2 * second) (60 * second) = 8 * second.
Proof.
  split; [lia|split].
  - rewrite supervisorBackoff_capped by (unfold second, int64_max; lia). vm_compute. reflexivity.
  - rewrite supervisorBackoff_capped by (unfold second, int64_max; lia). vm_compute. reflexivity.
Defined.

(** ** Supervision *)

Lemma delays_app a b : delays (a ++ b) = delays a ++ delays b.
Proof. apply omap_app. Qed.

(** A pass that is retried leaves one delay and goes on. *)
Lemma supervise_loop_retry cfg name failures a rest :
  retried a →
  let f := (if healthyAfter cfg <=? at_lived a then 0 else failures) + 1 in
  let d := supervisorBackoff f (initialBackoff cfg) (maxBackoff cfg) in
  delays (supervise_loop cfg name failures (a :: rest)).1 =
    (f, d) :: delays (supervise_loop cfg name f rest).1 ∧
  (supervise_loop cfg name failures (a :: rest)).2 = (supervise_loop cfg name f rest).2.
Proof.
  intros (Hl & Hp & Hc & Hs) f d. cbn [supervise_loop]. rewrite Hl, Hp, Hc, Hs. cbn [negb].
  fold f. fold d. destruct (supervise_loop cfg name f rest) as [evs r]. cbn [fst snd].
  by rewrite !delays_app; destruct (at_available a).
Qed.

Lemma supervise_loop_app cfg name failures l rest :
  Forall retried l → ∃ f,
    (supervise_loop cfg name failures (l ++ rest)).2 = (supervise_loop cfg name f rest).2 ∧
    delays (supervise_loop cfg name failures (l ++ rest)).1 =
      delays (supervise_loop cfg name failures l).1 ++ delays (supervise_loop cfg name f rest).1.
Proof.
  intros Hl. revert failures. induction Hl as [|a l Ha _ IH]; intros failures; [by exists failures|].
  destruct (supervise_loop_retry cfg name failures a (l ++ rest) Ha) as [H1 H2].
  destruct (supervise_loop_retry cfg name failures a l Ha) as [H3 _].
  rewrite <- app_comm_cons, H1, H2, H3.
  destruct (IH ((if healthyAfter cfg <=? at_lived a then 0 else failures) + 1)) as (f & E1 & E2).
  exists f. by rewrite E1, E2.
Qed.

Lemma supervise_loop_short cfg name failures l :
  Forall (λ a, retried a ∧ at_lived a < healthyAfter cfg) l →
  delays (supervise_loop cfg name failures l).1 =
    (λ i, (failures + i, supervisorBackoff (failures + i) (initialBackoff cfg) (maxBackoff cfg)))
      <$> (Z.succ <$> upto (length l)).
Proof.
  intros Hl. revert failures. induction Hl as [|a l [Ha Hs] _ IH]; intros failures; [done|].
  destruct (supervise_loop_retry cfg name failures a l Ha) as [H1 _]. rewrite H1.
  replace (healthyAfter cfg <=? at_lived a) with false by (symmetry; apply Z.leb_gt; lia).
  rewrite IH. cbn [length]. unfold upto. cbn [seq fmap list_fmap]. f_equal.
  rewrite <- seq_shift, <- !list_fmap_compose. apply list_fmap_ext. intros i x _. unfold compose.
  by replace (failures + 1 + Z.succ (Z.of_nat x)) with (failures + Z.succ (Z.of_nat (S x))) by lia.
Qed.

(** When a session fails without a permanent error and without
    cancellation, the supervisor restarts it, and the streak of failures that
    starts with a session that was healthy for long enough is waited out by the
    capped doubling from 2 s to 60 s, whatever failures came before it. *)
Theorem superviseSession_delays name (before streak : list attempt) (healthy : attempt) :
  Forall retried before → retried healthy →
  healthyAfter defaultSupervisorConfig ≤ at_lived healthy →
  Forall (λ a, retried a ∧ at_lived a < healthyAfter defaultSupervisorConfig) streak →
  (superviseSession defaultSupervisorConfig name (before ++ healthy :: streak)).2 = None ∧
  ∃ earlier,
    delays (superviseSession defaultSupervisorConfig name (before ++ healthy :: streak)).1 =
      earlier ++ ((λ i, (i + 1, Z.min (2 * second * 2 ^ i) (60 * second))) <$> upto (S (length streak))) ∧
    length earlier = length before.
Proof.
  intros Hb Hh Hl Hs. set (cfg := defaultSupervisorConfig) in *.
  assert (Forall retried streak) as Hs' by (eapply Forall_impl; [exact Hs|]; by intros ? []).
  destruct (supervise_loop_app cfg name 0 before (healthy :: streak) Hb) as (f & E1 & E2).
  destruct (supervise_loop_retry cfg name f healthy streak Hh) as [H1 H2].
  replace (healthyAfter cfg <=? at_lived healthy) with true in * by (symmetry; apply Z.leb_le; lia).
  unfold superviseSession. destruct (supervise_loop cfg name 0 (before ++ healthy :: streak)) as [evs r].
  cbn [fst snd] in *. split.
  - rewrite E1, H2. destruct (supervise_loop_app cfg name (0 + 1) streak [] Hs') as (f' & E3 & _).
    rewrite app_nil_r in E3. by rewrite E3.
  - exists (delays (supervise_loop cfg name 0 before).1). split.
    + change (delays (Report SessionBackingOff :: evs)) with (delays evs).
      rewrite E2, H1, (supervise_loop_short cfg name (0 + 1) streak Hs). f_equal. unfold upto. cbn [seq fmap list_fmap].
      f_equal. rewrite <- seq_shift, <- !list_fmap_compose. apply list_fmap_ext. intros i x _.
      unfold compose. rewrite supervisorBackoff_capped by (unfold cfg; cbn -[Z.mul]; unfold supervisorInitialBackoff, supervisorMaxBackoff, second, int64_max; lia).
      replace (0 + 1 + Z.succ (Z.of_nat x)) with (Z.of_nat (S x) + 1) by lia.
      by replace (Z.of_nat (S x) + 1 - 1) with (Z.of_nat (S x)) by lia.
    + clear E1 E2 H1 H2. generalize 0. induction Hb as [|a before Ha _ IH]; intros g; [done|].
      destruct (supervise_loop_retry cfg name g a before Ha) as [-> _]. cbn [length]. by rewrite IH.
Qed.

(** A failed attempt that lived [lived]. *)
Definition failed_after (lived : Z) : attempt :=
  Attempt true true (Some (errorf "stream closed")) lived false true.

Lemma superviseSession_delays_witness :
  (superviseSession defaultSupervisorConfig "linux"
     ([failed_after 5] ++ failed_after (70 * second) :: [failed_after 1; failed_after 0])).2 = None.
Proof.
  apply (superviseSession_delays "linux" [failed_after 5] [failed_after 1; failed_after 0]
           (failed_after (70 * second))).
  - constructor; [by repeat split|constructor].
  - by repeat split.
  - vm_compute. discriminate.
  - repeat constructor.
Defined.

(** How [superviseSession] ends, read off its loop. *)
Lemma supervise_loop_end cfg name failures l r :
  (supervise_loop cfg name failures l).2 = Some r →
  ∃ l1 a l2, l = l1 ++ a :: l2 ∧ Forall retried l1 ∧
    ((r = None ∧ interrupted a) ∨
     (∃ e, at_live a = true ∧ at_err a = Some e ∧ isPermanentSessionError (Some e) = true ∧
           r = Some (errorf_w ("scale set " +:+ quote name +:+ " failed permanently: ") e))).
Proof.
  revert failures. induction l as [|a l IH]; intros failures H; [done|]. cbn [supervise_loop] in H.
  destruct (at_live a) eqn:El; cbn [negb] in H;
    [|exists [], a, l; split; [done|split; [done|left; split; [by injection H|by left]]]].
  destruct (isPermanentSessionError (at_err a)) eqn:Ep.
  { exists [], a, l. split; [done|split; [done|right]]. destruct (at_err a) as [e|]; [|done].
    exists e. cbn [snd] in H. split_and!; try done. by injection H. }
  destruct (at_cancelled a) eqn:Ec;
    [exists [], a, l; split; [done|split; [done|left; split; [by injection H|by right; left]]]|].
  destruct (at_slept a) eqn:Es; cbn [negb] in H;
    [|exists [], a, l; split; [done|split; [done|left; split; [by injection H|by right; right]]]].
  destruct (supervise_loop cfg name _ l) as [evs r'] eqn:E in H. cbn [snd] in H. subst r'.
  destruct (IH _ (f_equal snd E)) as (l1 & b & l2 & -> & Hl & Hr).
  exists (a :: l1), b, l2. split; [done|split; [by constructor|done]].
Qed.

(** A session reports itself permanently unavailable exactly when it stops
    with an error. *)
Lemma supervise_loop_reports cfg name failures l :
  Report SessionPermanentlyUnavailable ∈ (supervise_loop cfg name failures l).1 ↔
  ∃ e, (supervise_loop cfg name failures l).2 = Some (Some e).
Proof.
  revert failures. induction l as [|a l IH]; intros failures; cbn [supervise_loop fst snd].
  { split; [by intros ?%not_elem_of_nil|by intros []]. }
  destruct (at_live a); cbn [negb fst snd]; [|split; [by intros ?%not_elem_of_nil|by intros []]].
  destruct (isPermanentSessionError (at_err a)) eqn:Ep; cbn [fst snd].
  { destruct (at_err a) as [e|]; [|done]. split; [by eexists|]. intros _. apply elem_of_app. right. by left. }
  assert (Report SessionPermanentlyUnavailable ∉ if at_available a then [Report SessionAvailable] else []) as Hn.
  { destruct (at_available a); rewrite ?list_elem_of_singleton; [done|apply not_elem_of_nil]. }
  destruct (at_cancelled a); cbn [fst snd]; [by split; [|intros []]|].
  destruct (at_slept a); cbn [negb fst snd].
  - destruct (supervise_loop cfg name _ l) as [evs r] eqn:E. cbn [fst snd].
    rewrite <- (f_equal snd E : _ = r), <- IH, (f_equal fst E : _ = evs), !elem_of_app, !elem_of_cons.
    cbn [fst]. split; [intros [[?|[[=]|[[=]|?%not_elem_of_nil]]]|?]; done|by right].
  - rewrite elem_of_app, !elem_of_cons. split; [|by intros []].
    by intros [?|[[=]|[[=]|?%not_elem_of_nil]]].
Qed.

(** A supervised session returns only at the first attempt that is
    interrupted by its context, and then without an error, or at the first one
    that fails permanently, and then with that error wrapped and the session
    reported permanently unavailable; every attempt before it was restarted. *)
Theorem superviseSession_outcome cfg name (attempts : list attempt) r :
  (superviseSession cfg name attempts).2 = Some r →
  (∃ l1 a l2, attempts = l1 ++ a :: l2 ∧ Forall retried l1 ∧
    ((r = None ∧ interrupted a) ∨
     ∃ e, at_err a = Some e ∧ isPermanentSessionError (Some e) = true ∧
          r = Some (errorf_w ("scale set " +:+ quote name +:+ " failed permanently: ") e))) ∧
  (r ≠ None ↔ Report SessionPermanentlyUnavailable ∈ (superviseSession cfg name attempts).1).
Proof.
  unfold superviseSession. destruct (supervise_loop cfg name 0 attempts) as [evs r'] eqn:E.
  cbn [fst snd]. intros ->. split.
  - destruct (supervise_loop_end cfg name 0 attempts r (f_equal snd E)) as (l1 & a & l2 & ? & ? & Hr).
    exists l1, a, l2. split; [done|split; [done|]]. destruct Hr as [?|(e & ? & ?)]; [by left|right; by exists e].
  - rewrite elem_of_cons, <- (f_equal fst E : _ = evs), supervise_loop_reports, E. cbn [snd].
    destruct r as [e|]; split; try done; [intros _; right; by exists e|by intros [[=]|[]]].
Qed.

Lemma superviseSession_outcome_witness :
  let bad := Attempt true false (Some (errorf "status code: 422")) 3 false true in
  (superviseSession defaultSupervisorConfig "linux" [failed_after 5; bad; bad]).2 ≠ None ∧
  (∃ l1 a l2, [failed_after 5; bad; bad] = l1 ++ a :: l2 ∧ Forall retried l1 ∧ a = bad).
Proof.
  intros bad. split; [by vm_compute|].
  destruct (superviseSession_outcome defaultSupervisorConfig "linux" [failed_after 5; bad; bad]
              (Some (errorf_w ("scale set " +:+ quote "linux" +:+ " failed permanently: ")
                       (errorf "status code: 422"))) eq_refl) as [(l1 & a & l2 & E & Hl & Hr) _].
  exists l1, a, l2. split; [done|split; [done|]].
  destruct Hr as [[[=] _]|(e & He & Hp & _)]. destruct l1 as [|b l1]; [by simplify_eq/=|].
  destruct l1 as [|c l1]; [by simplify_eq/=|].
  simplify_eq/=. inversion Hl as [|? ? _ Hl']. inversion Hl' as [|? ? (_ & Hb & _) _]. by vm_compute in Hb.
Defined.

(** ** Scale sets *)

(** How often a name occurs. *)
Definition occurs (x : string) (l : list string) : Z := Z.of_nat (length (filter (x =.) l)).

Lemma occurs_cons x y l : occurs x (y :: l) = (if decide (x = y) then 1 else 0) + occurs x l.
Proof. unfold occurs. rewrite filter_cons. case_decide; cbn [length]; lia. Qed.

Lemma occurs_perm l k : l ≡ₚ k ↔ ∀ x, occurs x l = occurs x k.
Proof.
  split; [intros H x; unfold occurs; by rewrite H|].
  revert k. induction l as [|x l IH]; intros k H.
  - destruct k as [|y k]; [done|]. specialize (H y). rewrite occurs_cons, decide_True in H by done.
    unfold occurs in H. cbn in H. lia.
  - assert (x ∈ k) as Hx.
    { apply dec_stable. intros Hn. specialize (H x). rewrite occurs_cons, decide_True in H by done.
      assert (occurs x k = 0) as E0; [|pose proof (Nat2Z.is_nonneg (length (filter (x =.) l)));
        unfold occurs in H at 1; lia].
      unfold occurs. destruct (filter (x =.) k) as [|y f] eqn:Ef; [done|].
      assert (y ∈ filter (x =.) k) as [-> ?]%list_elem_of_filter by (rewrite Ef; left). done. }
    apply list_elem_of_split in Hx as (k1 & k2 & ->). rewrite <- Permutation_middle. apply perm_skip.
    apply IH. intros y. specialize (H y).
    assert (occurs y (k1 ++ x :: k2) = occurs y (x :: k1 ++ k2)) as E
      by (unfold occurs; by rewrite <- Permutation_middle).
    rewrite E, !occurs_cons in H. lia.
Qed.

Lemma count_labels_lookup (step : Z) f m l x :
  (∀ z, f z = z + step) →
  default 0 (count_labels f m l !! x) = default 0 (m !! x) + step * occurs x (label_Name <$> l).
Proof.
  intros Hf. unfold count_labels. revert m. induction l as [|y l IH]; intros m; cbn [foldl fmap list_fmap].
  - change (occurs x []) with 0. lia.
  - rewrite IH, occurs_cons. destruct (decide (x = label_Name y)) as [->|Hn].
    + rewrite lookup_insert_eq. cbn [default from_option id]. rewrite Hf. lia.
    + rewrite lookup_insert_ne by done. lia.
Qed.

(** [scaleSetMatches] compares the name, the runner group, the update
    setting and the labels by name: it holds exactly when the first three are
    equal and the label names are a permutation of each other. *)
Theorem scaleSetMatches_permutation (existing desired : RunnerScaleSet) :
  scaleSetMatches existing desired = true ↔
  set_Name existing = set_Name desired ∧
  set_RunnerGroupID existing = set_RunnerGroupID desired ∧
  set_DisableUpdate existing = set_DisableUpdate desired ∧
  label_names existing ≡ₚ label_names desired.
Proof.
  unfold scaleSetMatches, label_names.
  destruct (String.eqb_spec (set_Name existing) (set_Name desired)); cbn [negb orb]; [|naive_solver].
  destruct (Z.eqb_spec (set_RunnerGroupID existing) (set_RunnerGroupID desired)); cbn [negb orb]; [|naive_solver].
  destruct (eqb_spec (set_DisableUpdate existing) (set_DisableUpdate desired)); cbn [negb orb]; [|naive_solver].
  destruct (Nat.eqb_spec (length (set_Labels existing)) (length (set_Labels desired))) as [|Hl]; cbn [negb orb].
  2:{ split; [done|]. intros (_ & _ & _ & Hp%Permutation_length). by rewrite !length_fmap in Hp. }
  rewrite occurs_perm.
  assert (∀ x, default 0 (count_labels Z.pred (count_labels Z.succ ∅ (set_Labels existing)) (set_Labels desired) !! x)
    = occurs x (label_Name <$> set_Labels existing) - occurs x (label_Name <$> set_Labels desired)) as E.
  { intros x. rewrite (count_labels_lookup (-1)) by lia. rewrite (count_labels_lookup 1) by lia.
    rewrite lookup_empty. cbn [default from_option]. lia. }
  rewrite forallb_forall. split.
  - intros H. split_and!; try done. intros x. specialize (E x).
    destruct (_ !! x) as [z|] eqn:Hz in E; cbn [default from_option id] in E; [|lia].
    specialize (H (x, z)). cbn beta iota in H. rewrite Z.eqb_eq in H. rewrite H in E; [lia|].
    apply list_elem_of_In. by apply elem_of_map_to_list.
  - intros (_ & _ & _ & H) [x z] Hin%list_elem_of_In%elem_of_map_to_list. apply Z.eqb_eq.
    specialize (E x). rewrite Hin, H in E. cbn [default from_option id] in E. lia.
Qed.

(** ** Opening a session *)

(** The try at which [openSession] ends. *)
Definition conflict_try {S} (t : open_try S) : Prop :=
  ∃ e, ot_result t = Err e ∧ isSessionConflict e = true.

Lemma open_loop_end {S} start deadline name (tries : list (open_try S)) :
  spaced start tries → start ≤ deadline + sessionRetryInterval →
  deadline - start < sessionRetryInterval * (Z.of_nat (length tries) - 1) →
  ∃ l1 t l2 r, tries = l1 ++ t :: l2 ∧ Forall conflict_try l1 ∧ open_loop deadline name tries = Some r ∧
    match r with
    | Ok s => ot_result t = Ok s
    | Err _ => ∃ e, ot_result t = Err e ∧
        (isSessionConflict e = true → deadline < ot_now t ∨ ot_waited t = false)
    end.
Proof.
  revert start. induction tries as [|t tries IH]; intros start Hs H1 Hd; [cbn in Hd; lia|].
  destruct Hs as [Hn Hs]. cbn [open_loop]. destruct (ot_result t) as [s|e] eqn:Et.
  { by exists [], t, tries, (Ok s). }
  destruct (isSessionConflict e) eqn:Ec; cbn [negb].
  2:{ eexists [], t, tries, _. split_and!; [done|done|done|]. exists e. by rewrite Ec. }
  destruct (Z.ltb_spec deadline (ot_now t)).
  { eexists [], t, tries, _. split_and!; [done|done|done|]. exists e. split; [done|by left]. }
  destruct (ot_waited t) eqn:Ew.
  2:{ eexists [], t, tries, _. split_and!; [done|done|done|]. exists e. split; [done|by right]. }
  cbn [length] in Hd. destruct (IH _ Hs) as (l1 & u & l2 & r & -> & Hl & Hr & Ho); [lia|lia|].
  exists (t :: l1), u, l2, r. split_and!; [done| |done|done]. constructor; [by exists e|done].
Qed.

(** [openSession] waits out only the one-active-session conflict, and
    never for long: whatever the library answers, within twenty tries it
    returns, the session of the first try that is not a conflict, or an error
    because that try failed otherwise, the three minutes are over or the
    context was cancelled. *)
Theorem openSession_terminates {S} start name (tries : list (open_try S)) :
  spaced start tries → (20 ≤ length tries)%nat →
  ∃ l1 t l2 r, tries = l1 ++ t :: l2 ∧ Forall conflict_try l1 ∧ openSession start name tries = Some r ∧
    match r with
    | Ok s => ot_result t = Ok s
    | Err _ => ∃ e, ot_result t = Err e ∧
        (isSessionConflict e = true → start + sessionConflictWait < ot_now t ∨ ot_waited t = false)
    end.
Proof.
  intros Hs Hl. apply (open_loop_end start); [done| |]; unfold sessionConflictWait, sessionRetryInterval, second; lia.
Qed.

(** Twenty conflicts, ten seconds apart. *)
Definition conflicts : list (open_try unit) :=
  (λ i, OpenTry (Err (errorf "409 Conflict: RunnerScaleSetSessionConflictException"))
          (i * sessionRetryInterval) true) <$> upto 20.

Lemma openSession_terminates_witness :
  (∃ e, openSession 0 "linux" conflicts = Some (Err e)) ∧
  ∃ t r, openSession 0 "linux" conflicts = Some r ∧ t ∈ conflicts ∧ conflict_try t.
Proof.
  split; [eexists; vm_compute; reflexivity|].
  destruct (openSession_terminates 0 "linux" conflicts) as (l1 & t & l2 & r & E & _ & Hr & _).
  - cbn. unfold sessionRetryInterval, second. repeat split; lia.
  - vm_compute. lia.
  - assert (t ∈ conflicts) as Ht by (rewrite E; apply elem_of_app; right; left).
    exists t, r. split_and!; [done|done|].
    unfold conflicts in Ht. apply list_elem_of_fmap in Ht as (i & -> & _). eexists. by split.
Defined.

(** ** Error classes *)

Lemma isPermanent_typed e : isPermanentSessionError (Some (permanentSessionError e)) = true.
Proof. reflexivity. Qed.

(** A permanent failure stays one on its way to the supervisor: classifying
    an error keeps its text and whether it is permanent, and however often it
    is wrapped with [%w] after that, a permanent error is still recognised. *)
Theorem classifySessionError_keeps (e : goerror) (wraps : list string) :
  error_text (classifySessionError e) = error_text e ∧
  isPermanentSessionError (Some (classifySessionError e)) = isPermanentSessionError (Some e) ∧
  (isPermanentSessionError (Some e) = true →
   isPermanentSessionError (Some (foldr errorf_w (classifySessionError e) wraps)) = true).
Proof.
  unfold classifySessionError. split_and!.
  - by destruct (isPermanentSessionError (Some e)).
  - destruct (isPermanentSessionError (Some e)) eqn:E; [apply isPermanent_typed|done].
  - intros ->. assert (∃ w, errors_as "permanentSessionError" (foldr errorf_w (permanentSessionError e) wraps) = Some w)
      as [w Hw]; [|unfold isPermanentSessionError; by rewrite Hw].
    induction wraps as [|p wraps [w IH]]; [by eexists|]. exists w. exact IH.
Qed.
