(* ===== verification/Threads.v ===== *)
(** * Threads over a shared state

    Go's goroutines, as programs of atomic actions on a shared state: an
    action reads the environment's answer and the state, may be blocked (a
    lock that is held), and returns a value, the next state and the threads it
    starts.  A step runs the next action of any thread, or an outside call
    starts a thread; the answers the environment can give may depend on the
    state.  Invariants of all interleavings are proved with a stable
    "history" order [R], which every action follows: [ok s p Q] says that from
    any later state the actions of [p] keep the invariant and follow [R], and
    that [p] returns with [Q]. *)

From S2P Require Import Prelude.

Section threads.
Context {St Env Th : Type}.

Definition action (R : Type) : Type := Env → St → option (R * St * list Th).

Inductive prog (A : Type) : Type :=
| Ret (a : A)
| Do {R : Type} (f : action R) (k : R → prog A).
Arguments Ret {A} a.
Arguments Do {A R} f k.

Fixpoint pbind {A B} (p : prog A) (g : A → prog B) : prog B :=
  match p with
  | Ret a => g a
  | Do f k => Do f (λ r, pbind (k r) g)
  end.

Definition atomically {R} (f : action R) : prog R := Do f Ret.

(** [for _, x := range l], each pass extending the accumulator. *)
Fixpoint pfold {A B} (f : B → A → prog (bool * B)) (b : B) (l : list A) : prog B :=
  match l with
  | [] => Ret b
  | x :: l => pbind (f b x) (λ '(stop, b), if stop : bool then Ret b else pfold f b l)
  end.

(** One thread alone, with the environment's answers. *)
Fixpoint exec {A} (p : prog A) (envs : list Env) (s : St) : option (A * St * list Th * list Env) :=
  match p with
  | Ret a => Some (a, s, [], envs)
  | Do f k =>
      match envs with
      | [] => None
      | env :: envs =>
          match f env s with
          | None => None
          | Some (r, s', sp) =>
              match exec (k r) envs s' with
              | None => None
              | Some (a, s'', sp', rest) => Some (a, s'', sp ++ sp', rest)
              end
          end
      end
  end.

(** One thread alone, the environment always answering [env]. *)
Fixpoint exec_with {A} (env : Env) (p : prog A) (s : St) : option (A * St) :=
  match p with
  | Ret a => Some (a, s)
  | Do f k =>
      match f env s with
      | None => None
      | Some (r, s', _) => exec_with env (k r) s'
      end
  end.

Lemma exec_with_bind {A B} env (p : prog A) (g : A → prog B) s :
  exec_with env (pbind p g) s =
    match exec_with env p s with Some (a, s') => exec_with env (g a) s' | None => None end.
Proof.
  revert s. induction p as [a|R f k IH]; intros s; [done|]. cbn [pbind exec_with].
  destruct (f env s) as [[[r s'] sp]|]; [apply IH|done].
Qed.

(** ** Interleavings *)

Variable body : Th → prog unit.
Variable call : Th → Prop.
(** The answers the environment can give in a state. *)
Variable adm : Env → St → Prop.

Record config := Config { mem : St; pool : list (prog unit) }.

Inductive step : config → config → Prop :=
| step_run {R} i (f : action R) k env s ts r s' sp :
    ts !! i = Some (Do f k) → adm env s → f env s = Some (r, s', sp) →
    step (Config s ts) (Config s' (<[i := k r]> ts ++ (body <$> sp)))
| step_call t s ts : call t → step (Config s ts) (Config s (ts ++ [body t])).

Inductive reachable (s0 : St) : config → Prop :=
| reach_init : reachable s0 (Config s0 [])
| reach_step c c' : reachable s0 c → step c c' → reachable s0 c'.

(** A schedule: calls from outside, and steps of the threads with the
    environment's answers; [None] when a step is not possible. *)
Definition run_step (x : Th + nat * Env) (c : config) : option config :=
  match x with
  | inl t => Some (Config (mem c) (pool c ++ [body t]))
  | inr (i, env) =>
      match pool c !! i with
      | Some (Do f k) =>
          match f env (mem c) with
          | Some (r, s', sp) => Some (Config s' (<[i := k r]> (pool c) ++ (body <$> sp)))
          | None => None
          end
      | _ => None
      end
  end.

Fixpoint run (sched : list (Th + nat * Env)) (c : config) : option config :=
  match sched with
  | [] => Some c
  | x :: sched => match run_step x c with Some c => run sched c | None => None end
  end.

(** The answers of a schedule are possible when they are given. *)
Fixpoint admitted (sched : list (Th + nat * Env)) (c : config) : Prop :=
  match sched with
  | [] => True
  | x :: sched =>
      match x with inl t => call t | inr (_, env) => adm env (mem c) end ∧
      match run_step x c with Some c => admitted sched c | None => True end
  end.

Lemma run_app a b c : run (a ++ b) c = match run a c with Some c => run b c | None => None end.
Proof.
  revert c. induction a as [|x a IH]; intros c; [done|]. cbn. destruct (run_step x c); [apply IH|done].
Qed.

Lemma admitted_app a b c :
  admitted a c → (∀ c', run a c = Some c' → admitted b c') → admitted (a ++ b) c.
Proof.
  revert c. induction a as [|x a IH]; intros c; cbn; [intros _ H; by apply H|].
  intros [Hx Ha] Hb. split; [done|]. destruct (run_step x c) as [c1|]; [|done]. by apply IH.
Qed.

(** Answers that are always possible. *)
Lemma admitted_always sched c :
  Forall (λ x, match x with inl t => call t | inr (_, env) => ∀ s, adm env s end) sched → admitted sched c.
Proof.
  intros Hs. revert c. induction Hs as [|x sched Hx _ IH]; intros c; cbn; [done|].
  split; [by destruct x as [t|[i env]]|]. destruct (run_step x c); [apply IH|done].
Qed.

(** Answers that a check accepts when they are given. *)
Fixpoint checked (calls : Th → bool) (chk : Env → St → bool) (sched : list (Th + nat * Env)) (c : config) : bool :=
  match sched with
  | [] => true
  | x :: sched =>
      match x with inl t => calls t | inr (_, env) => chk env (mem c) end &&
      match run_step x c with Some c => checked calls chk sched c | None => true end
  end.

Lemma admitted_checked calls chk sched c : (∀ t, calls t = true → call t) → (∀ env s, chk env s = true → adm env s) →
  checked calls chk sched c = true → admitted sched c.
Proof.
  intros Hc Ha. revert c. induction sched as [|x sched IH]; intros c; cbn; [done|].
  intros [Hx Hs]%andb_prop. split; [destruct x as [t|[i env]]; auto|]. destruct (run_step x c); auto.
Qed.

Lemma run_reachable s0 sched c c' :
  reachable s0 c → admitted sched c → run sched c = Some c' → reachable s0 c'.
Proof.
  revert c. induction sched as [|x sched IH]; intros c Hc Ha Hr; cbn in *; [by injection Hr as <-|].
  destruct Ha as [Hx Ha]. destruct (run_step x c) as [c1|] eqn:E; [|done].
  apply (IH c1); [|done|done]. apply (reach_step _ c); [done|]. destruct c as [s ts].
  destruct x as [t|[i env]]; cbn in E; [injection E as <-; by apply step_call|].
  destruct (ts !! i) as [[|X f k]|] eqn:Ei; [done| |done].
  destruct (f env s) as [[[r s'] sp]|] eqn:Ef; [|done]. injection E as <-. by eapply step_run.
Qed.

(** ** Rely and guarantee *)

Variable Inv : St → Prop.
Variable R : St → St → Prop.
Variable pre : Th → St → Prop.
Hypothesis R_preorder : PreOrder R.
Hypothesis pre_stable : ∀ t s s', pre t s → R s s' → pre t s'.

Fixpoint ok {A} (s0 : St) (p : prog A) (Q : A → St → Prop) : Prop :=
  match p with
  | Ret a => ∀ s, R s0 s → Inv s → Q a s
  | Do f k => ∀ env s r s' sp, R s0 s → Inv s → adm env s → f env s = Some (r, s', sp) →
      Inv s' ∧ R s s' ∧ Forall (λ t, pre t s') sp ∧ ok s' (k r) Q
  end.

Lemma ok_later {A} s0 s1 (p : prog A) Q : R s0 s1 → ok s0 p Q → ok s1 p Q.
Proof using R_preorder.
  destruct p as [a|X f k]; cbn [ok].
  - intros H01 H s Hs. apply H. by transitivity s1.
  - intros H01 H env s r s' sp Hs. apply H. by transitivity s1.
Qed.

Lemma ok_weaken {A} s0 (p : prog A) (Q Q' : A → St → Prop) :
  (∀ a s, R s0 s → Inv s → Q a s → Q' a s) → ok s0 p Q → ok s0 p Q'.
Proof using R_preorder.
  revert s0. induction p as [a|X f k IH]; intros s0 HQ; cbn [ok].
  - intros H s Hs Hi. by apply HQ, H.
  - intros H env s r s' sp Hs Hi Ha Hf. destruct (H env s r s' sp Hs Hi Ha Hf) as (H1 & H2 & H3 & H4).
    split_and!; [done..|]. apply IH; [|done]. intros a u Hu. apply HQ.
    transitivity s'; [|done]. by transitivity s.
Qed.

Lemma ok_seq {A B} s0 (p : prog A) (g : A → prog B) Q :
  ok s0 p (λ a s, ok s (g a) Q) → ok s0 (pbind p g) Q.
Proof using R_preorder.
  revert s0. induction p as [a|X f k IH]; intros s0; cbn [ok pbind].
  - intros H. destruct (g a) as [b|X f k] eqn:E; cbn [ok] in *.
    + intros s Hs Hi. apply (H s Hs Hi s); [reflexivity|done].
    + intros env s r s' sp Hs Hi. apply (H s Hs Hi); [reflexivity|done].
  - intros H env s r s' sp Hs Hi Ha Hf. destruct (H env s r s' sp Hs Hi Ha Hf) as (H1 & H2 & H3 & H4).
    split_and!; [done..|]. by apply IH.
Qed.

Lemma ok_ret {A} s0 (a : A) Q : (∀ s, R s0 s → Inv s → Q a s) → ok s0 (Ret a) Q.
Proof. done. Qed.

(** A loop whose passes keep a stable assertion. *)
Lemma ok_fold {A B} (I : St → Prop) (f : B → A → prog (bool * B)) b l s0 :
  I s0 → (∀ s s', I s → R s s' → I s') →
  (∀ b x s, I s → x ∈ l → ok s (f b x) (λ _ _, True)) →
  ok s0 (pfold f b l) (λ _ _, True).
Proof using R_preorder.
  intros HI Hst. revert b s0 HI. induction l as [|x l IH]; intros b s0 HI Hf; cbn [pfold]; [done|].
  apply ok_seq. eapply ok_weaken; [|apply Hf; [exact HI|left]].
  intros [stop b'] s Hs _ _. cbn beta iota. destruct stop; [done|]. apply IH; [by eapply Hst|].
  intros b'' y u Hu Hy. apply Hf; [done|by right].
Qed.

(** Every reachable state satisfies the invariant, and each of its threads is
    ready to go on. *)
Lemma reachable_inv s0 c :
  Inv s0 → (∀ t s, pre t s → ok s (body t) (λ _ _, True)) → (∀ t s, call t → pre t s) →
  reachable s0 c → Inv (mem c) ∧ Forall (λ p, ok (mem c) p (λ _ _, True)) (pool c).
Proof using R_preorder pre_stable.
  intros H0 Hb Hc Hr. induction Hr as [|c c' _ [Hi Ht] Hs]; [split; [done|constructor]|].
  destruct Hs as [X i f k env s ts r s' sp Hl Ha Hf|t s ts Hcall]; cbn [mem pool] in *.
  - pose proof (proj1 (Forall_lookup _ _) Ht i _ Hl) as Hok. cbn [ok] in Hok.
    destruct (Hok env s r s' sp) as (H1 & H2 & H3 & H4); [reflexivity|done..|]. split; [done|].
    apply Forall_app. split.
    + apply Forall_insert; [|done]. eapply Forall_impl; [exact Ht|]. intros p. by apply ok_later.
    + apply Forall_fmap. eapply Forall_impl; [exact H3|]. intros t. apply Hb.
  - split; [done|]. apply Forall_app. split; [done|]. constructor; [by apply Hb, Hc|constructor].
Qed.
End threads.

Arguments prog : clear implicits.
Arguments action : clear implicits.
Arguments config : clear implicits.
Arguments Ret {_ _ _ _} _.
Arguments Do {_ _ _ _ _} _ _.
Arguments Config {_ _ _} _ _.
Arguments mem {_ _ _} _.
Arguments pool {_ _ _} _.

Notation "'let*' x ':=' p 'in' k" := (pbind p (λ x, k))
  (at level 200, x name, p at level 100, k at level 200, only parsing) : go_scope.
