(* ===== verification/ScaleSet.v ===== *)
(** * The scale set launcher

    [internal/scaleset/launcher.go], [launcher_cleanup.go] and
    [reconciler.go]: a launcher that turns the count of runners GitHub asks for
    into backend launches, cleans up after runners that exit, and reclaims the
    resources of a previous process.  Its methods are called by the listener,
    by the session and by its own goroutines at the same time.

    The runner states are a heap of records, shared by the map of running
    runners and by the goroutines that wait for them.  A critical section under
    [l.mu] is one atomic action, with the calls it makes to GitHub and the
    backend answered by the environment; outside [l.mu] every external call is
    an action of its own.  [state.cleanupMu] is a lock that blocks: the fields
    it alone protects are read and written in the action of the call they
    guard.  The contexts and timeouts are in the answers: a call that times out
    is one that fails.  Each call to a hook, to GitHub or to the backend leaves
    an observation in the trace, latest first. *)

From S2P Require Import Prelude GoErr GoStr Codec ImageVersions Backend Session Threads.

Local Open Scope Z_scope.
Local Open Scope go_scope.

(** ** Data *)

Record Options := {
  opt_ScaleSetID : Z;
  opt_Image : string;
  opt_WorkFolder : string;
  opt_Labels : list string;
  opt_Env : gmap string string;
  opt_Mounts : list Mount;
  opt_Container : ContainerSettings;
  MaxRunners : Z;
  opt_Ownership : RunnerOwnership
}.

(** A handle is known by its resource ID. *)
Record runnerState := {
  handle : string;
  runnerID : Z;
  busy : bool;
  completionAccounted : bool;
  occupiesCapacity : bool;
  cleanupStarted : bool;
  needsDeregistration : bool;
  registrationRemoved : bool;
  cleanupMu : bool;
  terminated : bool;
  cleaned : bool;
  stopReported : bool;
  exitCode : Z;
  waitErr : option goerror
}.

(** An address. *)
Notation ptr := nat (only parsing).

(** What the launcher does to the world, and what it hears from it.  The
    runner concerned is given by the address of its state. *)
Inductive obs :=
| OStart
| OStop (who : option ptr) (code : Z) (err : option goerror)
| OLaunch (req : LaunchRequest) (tracked : option (ptr * string))
| OWait (p : ptr) (code : Z) (err : option goerror)
| OBusy (p : ptr)
| OCleanup (p : ptr) (needs : bool)
| OKill (p : ptr) (done : bool)
| ODeregister (who : option ptr) (id : Z) (done : bool)
| ORemove (p : ptr) (done : bool)
| OSnapshot (owned : list OwnedRunner) (active : list string)
| OReclaim (resource : string) (id : Z) (done : bool)
| ORemoveOwned (resource : string) (id : Z) (done : bool)
| OShutdown.

(** [l_groups] holds, for each call of [Shutdown], the count of its wait group
    and the errors in its channel. *)
Record Launcher := {
  l_heap : gmap ptr runnerState;
  l_next : ptr;
  running : gmap string ptr;
  pendingRegistrations : gmap Z string;
  pendingExits : gmap string Z;
  completions : gset string;
  l_seq : Z;
  desired : Z;
  stopped : bool;
  l_groups : gmap nat (nat * list goerror);
  l_trace : list obs
}.

Definition New_Ownership (opts : Options) : Options :=
  if own_ScaleSetID (opt_Ownership opts) =? 0 then
    let o := opt_Ownership opts in
    {| opt_ScaleSetID := opt_ScaleSetID opts; opt_Image := opt_Image opts;
       opt_WorkFolder := opt_WorkFolder opts; opt_Labels := opt_Labels opts; opt_Env := opt_Env opts;
       opt_Mounts := opt_Mounts opts; opt_Container := opt_Container opts; MaxRunners := MaxRunners opts;
       opt_Ownership := Ownership (own_Instance o) (own_Target o) (own_Pool o) (opt_ScaleSetID opts)
                          (own_RunnerID o) |}
  else opts.

Definition New : Launcher :=
  {| l_heap := ∅; l_next := 0%nat; running := ∅; pendingRegistrations := ∅; pendingExits := ∅;
     completions := ∅; l_seq := 0; desired := 0; stopped := false; l_groups := ∅; l_trace := [] |}.

(** *** Updates *)

Definition emit (ev : obs) (l : Launcher) : Launcher :=
  {| l_heap := l_heap l; l_next := l_next l; running := running l;
     pendingRegistrations := pendingRegistrations l; pendingExits := pendingExits l;
     completions := completions l; l_seq := l_seq l; desired := desired l; stopped := stopped l;
     l_groups := l_groups l; l_trace := ev :: l_trace l |}.

Definition set_heap (h : gmap ptr runnerState) (l : Launcher) : Launcher :=
  {| l_heap := h; l_next := l_next l; running := running l;
     pendingRegistrations := pendingRegistrations l; pendingExits := pendingExits l;
     completions := completions l; l_seq := l_seq l; desired := desired l; stopped := stopped l;
     l_groups := l_groups l; l_trace := l_trace l |}.

(** The maps and counters under [l.mu], the heap and the trace left alone. *)
Definition set_maps (run : gmap string ptr) (regs : gmap Z string) (exits : gmap string Z)
    (comp : gset string) (seq want : Z) (stop : bool) (l : Launcher) : Launcher :=
  {| l_heap := l_heap l; l_next := l_next l; running := run;
     pendingRegistrations := regs; pendingExits := exits;
     completions := comp; l_seq := seq; desired := want; stopped := stop;
     l_groups := l_groups l; l_trace := l_trace l |}.

Definition set_running r l := set_maps r (pendingRegistrations l) (pendingExits l) (completions l)
  (l_seq l) (desired l) (stopped l) l.
Definition set_registrations r l := set_maps (running l) r (pendingExits l) (completions l)
  (l_seq l) (desired l) (stopped l) l.
Definition set_exits e l := set_maps (running l) (pendingRegistrations l) e (completions l)
  (l_seq l) (desired l) (stopped l) l.
Definition set_completions c l := set_maps (running l) (pendingRegistrations l) (pendingExits l) c
  (l_seq l) (desired l) (stopped l) l.
Definition set_seq n l := set_maps (running l) (pendingRegistrations l) (pendingExits l) (completions l)
  n (desired l) (stopped l) l.
Definition set_desired n l := set_maps (running l) (pendingRegistrations l) (pendingExits l) (completions l)
  (l_seq l) n (stopped l) l.
Definition set_stopped b l := set_maps (running l) (pendingRegistrations l) (pendingExits l) (completions l)
  (l_seq l) (desired l) b l.

Definition set_groups (g : gmap nat (nat * list goerror)) (l : Launcher) : Launcher :=
  {| l_heap := l_heap l; l_next := l_next l; running := running l;
     pendingRegistrations := pendingRegistrations l; pendingExits := pendingExits l;
     completions := completions l; l_seq := l_seq l; desired := desired l; stopped := stopped l;
     l_groups := g; l_trace := l_trace l |}.

(** A new runner state, at the next address. *)
Definition new_state (h : string) (id : Z) (reported : bool) : runnerState :=
  {| handle := h; runnerID := id; busy := false; completionAccounted := false; occupiesCapacity := true;
     cleanupStarted := false; needsDeregistration := false; registrationRemoved := false;
     cleanupMu := false; terminated := false; cleaned := false; stopReported := reported;
     exitCode := 0; waitErr := None |}.

Definition alloc (name : string) (st : runnerState) (l : Launcher) : Launcher :=
  {| l_heap := <[l_next l := st]> (l_heap l); l_next := S (l_next l);
     running := <[name := l_next l]> (running l);
     pendingRegistrations := pendingRegistrations l; pendingExits := pendingExits l;
     completions := completions l; l_seq := l_seq l; desired := desired l; stopped := stopped l;
     l_groups := l_groups l; l_trace := l_trace l |}.

Definition set_busy (st : runnerState) : runnerState :=
  {| handle := handle st; runnerID := runnerID st; busy := true;
     completionAccounted := completionAccounted st; occupiesCapacity := occupiesCapacity st;
     cleanupStarted := cleanupStarted st; needsDeregistration := needsDeregistration st;
     registrationRemoved := registrationRemoved st; cleanupMu := cleanupMu st; terminated := terminated st;
     cleaned := cleaned st; stopReported := stopReported st; exitCode := exitCode st; waitErr := waitErr st |}.

Definition set_accounted (st : runnerState) : runnerState :=
  {| handle := handle st; runnerID := runnerID st; busy := busy st;
     completionAccounted := true; occupiesCapacity := occupiesCapacity st;
     cleanupStarted := cleanupStarted st; needsDeregistration := needsDeregistration st;
     registrationRemoved := registrationRemoved st; cleanupMu := cleanupMu st; terminated := terminated st;
     cleaned := cleaned st; stopReported := stopReported st; exitCode := exitCode st; waitErr := waitErr st |}.

Definition set_cleanup (needs : bool) (code : Z) (err : option goerror) (st : runnerState) : runnerState :=
  {| handle := handle st; runnerID := runnerID st; busy := busy st;
     completionAccounted := completionAccounted st; occupiesCapacity := occupiesCapacity st;
     cleanupStarted := true; needsDeregistration := needs;
     registrationRemoved := registrationRemoved st; cleanupMu := cleanupMu st; terminated := terminated st;
     cleaned := cleaned st; stopReported := stopReported st; exitCode := code; waitErr := err |}.

Definition set_lock (b : bool) (st : runnerState) : runnerState :=
  {| handle := handle st; runnerID := runnerID st; busy := busy st;
     completionAccounted := completionAccounted st; occupiesCapacity := occupiesCapacity st;
     cleanupStarted := cleanupStarted st; needsDeregistration := needsDeregistration st;
     registrationRemoved := registrationRemoved st; cleanupMu := b; terminated := terminated st;
     cleaned := cleaned st; stopReported := stopReported st; exitCode := exitCode st; waitErr := waitErr st |}.

Definition set_terminated (st : runnerState) : runnerState :=
  {| handle := handle st; runnerID := runnerID st; busy := busy st;
     completionAccounted := completionAccounted st; occupiesCapacity := false;
     cleanupStarted := cleanupStarted st; needsDeregistration := needsDeregistration st;
     registrationRemoved := registrationRemoved st; cleanupMu := cleanupMu st; terminated := true;
     cleaned := cleaned st; stopReported := true; exitCode := exitCode st; waitErr := waitErr st |}.

Definition set_removed (st : runnerState) : runnerState :=
  {| handle := handle st; runnerID := runnerID st; busy := busy st;
     completionAccounted := completionAccounted st; occupiesCapacity := occupiesCapacity st;
     cleanupStarted := cleanupStarted st; needsDeregistration := needsDeregistration st;
     registrationRemoved := true; cleanupMu := cleanupMu st; terminated := terminated st;
     cleaned := cleaned st; stopReported := stopReported st; exitCode := exitCode st; waitErr := waitErr st |}.

Definition set_cleaned (st : runnerState) : runnerState :=
  {| handle := handle st; runnerID := runnerID st; busy := busy st;
     completionAccounted := completionAccounted st; occupiesCapacity := occupiesCapacity st;
     cleanupStarted := cleanupStarted st; needsDeregistration := needsDeregistration st;
     registrationRemoved := registrationRemoved st; cleanupMu := cleanupMu st; terminated := terminated st;
     cleaned := true; stopReported := stopReported st; exitCode := exitCode st; waitErr := waitErr st |}.

(** ** The environment *)

(** [jit.Runner] may be nil. *)
Record jitConfig := { jit_RunnerID : option Z; jit_Encoded : string }.

(** A backend may fail and still return a handle. *)
Inductive launch_result :=
| Launched (h : string)
| LaunchFailed (h : option string) (e : goerror).

(** The answers to one call of [launchLocked]: eight random bytes, the JIT
    configuration, the backend, and the removal of an unused registration. *)
Record launch_answers := {
  la_rand : result string;
  la_jit : result (option jitConfig);
  la_launch : launch_result;
  la_remove : option goerror
}.

(** The answers to one action; each uses the ones it needs. *)
Record answers := {
  an_launches : nat → launch_answers;
  an_wait : Z * option goerror;
  an_kill : option goerror;
  an_remove : option goerror;
  an_removeOwned : option goerror;
  an_list : result (list OwnedRunner);
  an_cancelled : bool
}.

Record JobEvent := { job_RunnerID : Z; job_RunnerName : string }.

(** The launcher's goroutines, and the calls it serves. *)
Inductive thread :=
| TAwaitExit (name : string) (p : ptr)
| TPartial (name : string) (p : ptr)
| TShutdownOne (group : nat) (name : string) (p : ptr)
| THandleDesired (count : Z)
| TJobStarted (job : option JobEvent)
| TJobCompleted (job : option JobEvent)
| TRunning
| TShutdown
| TReconcile.

Definition act (R : Type) : Type := action Launcher answers thread R.
Definition proc (A : Type) : Type := prog Launcher answers thread A.

(** An action that starts no thread and is never blocked. *)
Definition section {R} (f : Launcher → R * Launcher) : proc R :=
  atomically (λ _ l, let '(r, l) := f l in Some (r, l, [])).
Definition section_env {R} (f : answers → Launcher → R * Launcher) : proc R :=
  atomically (λ env l, let '(r, l) := f env l in Some (r, l, [])).

Definition state_of (p : ptr) (l : Launcher) : option runnerState := l_heap l !! p.
Definition field {X} (d : X) (f : runnerState → X) (p : ptr) (l : Launcher) : X :=
  match state_of p l with Some st => f st | None => d end.
Definition update (f : runnerState → runnerState) (p : ptr) (l : Launcher) : Launcher :=
  set_heap (alter f p (l_heap l)) l.

Section launcher.
Context `{MapRange}.
Variable opts : Options.
(** [backend.OwnedRunnerStoreFor] finds a store, and the backend's name. *)
Variable supported : bool.
Variable backend_name : string.

(** ** Counting *)

Definition runningLocked (l : Launcher) : Z :=
  Z.of_nat (length (filter (λ '(_, p), field false occupiesCapacity p l = true) (map_to_list (running l)))).

Definition allowedLocked (want : Z) (l : Launcher) : Z :=
  let want := want - Z.of_nat (size (pendingExits l)) in
  let have := runningLocked l in
  if want <=? have then 0
  else
    let start := want - have in
    if 0 <? MaxRunners opts then
      let free := MaxRunners opts - have in
      if free <=? 0 then 0 else if free <? start then free else start
    else start.

Definition Running : proc Z := section (λ l, (runningLocked l, l)).

(** ** Removing a registration *)

(** [removeRunner], [observe] recording the call. *)
Definition removeRunner (an : option goerror) (id : Z) (observe : bool → obs) (l : Launcher)
    : option goerror * Launcher :=
  if id =? 0 then (None, l)
  else
    let err :=
      match an with
      | Some e => if errors_is "scaleset.RunnerNotFoundError" e || isHTTPStatus (Some e) "404"
                  then None else Some e
      | None => None
      end in
    (err, emit (observe (bool_decide (err = None))) l).

(** ** Launching *)

Definition shortID (rand : result string) : result string :=
  match rand with Ok b => Ok (hex_encode b) | Err e => Err e end.

Definition runner_name (id : string) : string :=
  "mr-scaleset-" +:+ format_int (opt_ScaleSetID opts) +:+ "-" +:+ id.

Definition launch_request (name jit : string) (index id : Z) : LaunchRequest :=
  let o := opt_Ownership opts in
  {| req_Name := name; req_Image := opt_Image opts; EncodedJITConfig := jit;
     req_WorkFolder := opt_WorkFolder opts; req_Labels := opt_Labels opts; req_Env := opt_Env opts;
     req_Mounts := opt_Mounts opts; req_Container := opt_Container opts; req_Index := index;
     req_Ownership := Ownership (own_Instance o) (own_Target o) (own_Pool o) (own_ScaleSetID o) id |}.

(** The deferred [OnStop] of a launch that failed. *)
Definition launch_failed (e : goerror) (l : Launcher) (sp : list thread)
    : option goerror * Launcher * list thread :=
  (Some e, emit (OStop None (-1) (Some e)) l, sp).

Definition launchLocked (an : launch_answers) (l : Launcher) : option goerror * Launcher * list thread :=
  let l := set_seq (l_seq l + 1) (emit OStart l) in
  match shortID (la_rand an) with
  | Err e => launch_failed (errorf_w "scaleset: generate runner name: " e) l []
  | Ok id =>
      let name := runner_name id in
      let generate := "scaleset: generate JIT config for " +:+ name in
      match la_jit an with
      | Err e => launch_failed (errorf_w (generate +:+ ": ") e) l []
      | Ok None => launch_failed (errorf (generate +:+ " returned nil")) l []
      | Ok (Some jit) =>
          let runnerID := default 0 (jit_RunnerID jit) in
          if runnerID =? 0 then launch_failed (errorf (generate +:+ " returned no runner identity")) l []
          else
            let req := launch_request name (jit_Encoded jit) (l_seq l) runnerID in
            match la_launch an with
            | LaunchFailed (Some h) e =>
                let p := l_next l in
                let l := alloc name (new_state h runnerID true) (emit (OLaunch req (Some (p, h))) l) in
                launch_failed (errorf_w ("scaleset: launch " +:+ name +:+ ": ") e) l [TPartial name p]
            | LaunchFailed None e =>
                let launchErr := errorf_w ("scaleset: launch " +:+ name +:+ ": ") e in
                match removeRunner (la_remove an) runnerID (ODeregister None runnerID)
                        (emit (OLaunch req None) l) with
                | (Some removeErr, l) =>
                    launch_failed
                      (EJoin [launchErr; errorf_w ("scaleset: remove unused runner " +:+ name +:+ ": ") removeErr])
                      (set_registrations (<[runnerID := name]> (pendingRegistrations l)) l) []
                | (None, l) => launch_failed launchErr l []
                end
            | Launched h =>
                let p := l_next l in
                (None, alloc name (new_state h runnerID false) (emit (OLaunch req (Some (p, h))) l),
                 [TAwaitExit name p])
            end
      end
  end.

(** [for n := ...; n > 0; n--]: the launches of one critical section. *)
Fixpoint launch_loop (an : nat → launch_answers) (i n : nat) (l : Launcher)
    : option goerror * Launcher * list thread :=
  match n with
  | O => (None, l, [])
  | S n =>
      match launchLocked (an i) l with
      | (Some e, l, sp) => (Some e, l, sp)
      | (None, l, sp) => let '(r, l, sp') := launch_loop an (S i) n l in (r, l, sp ++ sp')
      end
  end.

(** ** Cleanup *)

Definition lock_cleanup (p : ptr) : proc bool :=
  atomically (λ _ l, if field false cleanupMu p l then None
                     else Some (field false cleaned p l, update (set_lock true) p l, [])).
Definition unlock_cleanup (p : ptr) : proc unit := section (λ l, (tt, update (set_lock false) p l)).

(** The first critical section of [finishRunner]. *)
Definition start_cleanup (p : ptr) (code : Z) (err : option goerror) (terminate : bool) (l : Launcher)
    : Launcher :=
  if negb (field false cleanupStarted p l) then
    let needs := terminate || negb (field false busy p l) in
    emit (OCleanup p needs) (update (set_cleanup needs code err) p l)
  else if negb terminate then
    update (set_cleanup (field false needsDeregistration p l) code err) p l
  else l.

(** [state.handle.Kill]. *)
Definition kill (p : ptr) (an : answers) (l : Launcher) : option goerror * Launcher :=
  (an_kill an, emit (OKill p (bool_decide (an_kill an = None))) l).

(** The runner is gone: its slot is free, and [OnStop] hears of it once. *)
Definition mark_terminated (p : ptr) (l : Launcher) : Launcher :=
  let report := negb (field false stopReported p l) in
  let l := update set_terminated p l in
  if report then emit (OStop (Some p) (field 0 exitCode p l) (field None waitErr p l)) l else l.

Definition deregister (p : ptr) (an : answers) (l : Launcher) : option goerror * Launcher :=
  let id := field 0 runnerID p l in
  if negb (id =? 0) && field false needsDeregistration p l && negb (field false registrationRemoved p l) then
    match removeRunner (an_remove an) id (ODeregister (Some p) id) l with
    | (Some e, l) => (Some e, l)
    | (None, l) => (None, update set_removed p l)
    end
  else (None, l).

(** [store.RemoveOwnedRunner] for the runner's own resource. *)
Definition remove_resource (p : ptr) (an : answers) (l : Launcher) : option goerror * Launcher :=
  let l := emit (ORemove p (bool_decide (an_removeOwned an = None))) l in
  match an_removeOwned an with
  | Some e => (Some e, l)
  | None => (None, update set_cleaned p l)
  end.

Definition forget (name : string) (p : ptr) (l : Launcher) : option goerror * Launcher :=
  (field None waitErr p l,
   if bool_decide (running l !! name = Some p) then set_running (delete name (running l)) l else l).

(** [finishRunner] between its [Lock] and its deferred [Unlock]. *)
Definition finish_body (name : string) (p : ptr) (code : Z) (err : option goerror) (terminate : bool)
    : proc (option goerror) :=
  let* _ := section (λ l, (tt, start_cleanup p code err terminate l)) in
  let* dead := section (λ l, (field false terminated p l, l)) in
  let* kerr :=
    (if dead : bool then Ret None
     else
       let* kerr := (if terminate then section_env (kill p) else Ret None) in
       match kerr with
       | Some e => Ret (Some (errorf_w ("kill " +:+ name +:+ ": ") e))
       | None => let* _ := section (λ l, (tt, mark_terminated p l)) in Ret None
       end) in
  match kerr with
  | Some e => Ret (Some e)
  | None =>
      let* derr := section_env (deregister p) in
      match derr with
      | Some e => Ret (Some (errorf_w ("remove runner " +:+ name +:+ ": ") e))
      | None =>
          if negb supported then
            Ret (Some (errorf ("backend " +:+ quote backend_name +:+
                   " does not support scale-set ownership cleanup")))
          else
            let* rerr := section_env (remove_resource p) in
            match rerr with
            | Some e => Ret (Some (errorf_w ("remove backend runner " +:+ name +:+ ": ") e))
            | None => section (forget name p)
            end
      end
  end.

Definition finishRunner (name : string) (p : ptr) (code : Z) (err : option goerror) (terminate : bool)
    : proc (option goerror) :=
  let* done := lock_cleanup p in
  if done : bool then let* _ := unlock_cleanup p in Ret None
  else
    let* r := finish_body name p code err terminate in
    let* _ := unlock_cleanup p in
    Ret r.

Definition retryPendingCleanup : proc (option goerror) :=
  let* pending := section (λ l, (filter (λ '(_, p), field false cleanupStarted p l = true)
                                   (range (running l)), l)) in
  let* errs := pfold (λ errs '(name, p),
      let* s := section (λ l, ((field 0 exitCode p l, field None waitErr p l), l)) in
      let* e := finishRunner name p s.1 s.2 true in
      let* cancelled := section_env (λ an l, (an_cancelled an, l)) in
      Ret (cancelled, errs ++ [e])) [] pending in
  Ret (errors_join errs).

Definition retryPendingRegistrations : proc (option goerror) :=
  let* pending := section (λ l, (shuffle (map_to_list (pendingRegistrations l)), l)) in
  let* errs := pfold (λ errs '(id, name),
      let* e := section_env (λ an, removeRunner (an_remove an) id (ODeregister None id)) in
      match e with
      | Some e => Ret (false, errs ++ [Some (errorf_w ("remove unused runner " +:+ name +:+ ": ") e)])
      | None =>
          let* _ := section (λ l, (tt, set_registrations (delete id (pendingRegistrations l)) l)) in
          Ret (false, errs)
      end) [] pending in
  Ret (errors_join errs).

(** ** The listener's calls *)

(** The exits that the completions account for are no longer subtracted. *)
Definition account (count : Z) (l : Launcher) : Launcher :=
  let names := elements (completions l) in
  let exits := foldr delete (pendingExits l) names in
  let l := foldr (λ name l, match running l !! name with
                            | Some p => update set_accounted p l
                            | None => l
                            end) l names in
  set_desired count (set_exits (if count =? 0 then ∅ else exits) (set_completions ∅ l)).

(** The last critical section of [HandleDesiredRunnerCount]. *)
Definition serve_count (count : Z) : act (Z * option goerror) := λ an l,
  if stopped l then Some ((runningLocked l, None), l, [])
  else
    let '(r, l, sp) := launch_loop (an_launches an) 0 (Z.to_nat (allowedLocked count l)) l in
    Some ((runningLocked l, if isPermanentSessionError r then r else None), l, sp).

Definition HandleDesiredRunnerCount (count : Z) : proc (Z * option goerror) :=
  let* refused := section (λ l, if stopped l then (Some (runningLocked l), l)
                                else (None, account count l)) in
  match refused with
  | Some n => Ret (n, None)
  | None =>
      let* err := retryPendingRegistrations in
      if isPermanentSessionError err then let* n := Running in Ret (n, err)
      else
        let* err := retryPendingCleanup in
        if isPermanentSessionError err then let* n := Running in Ret (n, err)
        else atomically (serve_count count)
  end.

(** The test both job callbacks make. *)
Definition names_job (job : JobEvent) (name : string) (id : Z) : bool :=
  (negb (job_RunnerID job =? 0) && (id =? job_RunnerID job)) ||
  (negb (is_empty (job_RunnerName job)) && String.eqb name (job_RunnerName job)).

Definition job_started (job : JobEvent) (l : Launcher) : Launcher :=
  match list_find (λ '(name, p), names_job job name (field 0 runnerID p l) = true) (range (running l)) with
  | Some (_, (_, p)) => emit (OBusy p) (update set_busy p l)
  | None => l
  end.
Definition HandleJobStarted (job : option JobEvent) : proc unit :=
  match job with
  | None => Ret tt
  | Some job => section (λ l, (tt, job_started job l))
  end.

Definition job_completed (job : JobEvent) (l : Launcher) : Launcher :=
  match list_find (λ '(name, p), names_job job name (field 0 runnerID p l) = true) (range (running l)) with
  | Some (_, (name, _)) => set_completions ({[name]} ∪ completions l) l
  | None =>
      match list_find (λ '(name, id), names_job job name id = true) (range (pendingExits l)) with
      | Some (_, (name, _)) => set_completions ({[name]} ∪ completions l) l
      | None => l
      end
  end.
Definition HandleJobCompleted (job : option JobEvent) : proc unit :=
  match job with
  | None => Ret tt
  | Some job => section (λ l, (tt, job_completed job l))
  end.

(** ** Exits *)

Definition refill : act unit := λ an l,
  if stopped l || an_cancelled an then Some (tt, l, [])
  else
    let '(_, l, sp) := launch_loop (an_launches an) 0 (Z.to_nat (allowedLocked (desired l) l)) l in
    Some (tt, l, sp).

(** A clean exit stays subtracted from the demand until GitHub accounts for it. *)
Definition pend_exit (name : string) (p : ptr) (l : Launcher) : Launcher :=
  if negb (field false completionAccounted p l) && (0 <? desired l) then
    set_exits (<[name := field 0 runnerID p l]> (pendingExits l)) l
  else l.

Definition awaitExit (name : string) (p : ptr) : proc unit :=
  let* w := section_env (λ an l, (an_wait an, emit (OWait p (an_wait an).1 (an_wait an).2) l)) in
  let clean := bool_decide (w.2 = None) && (w.1 =? 0) in
  let* _ := (if clean then section (λ l, (tt, pend_exit name p l)) else Ret tt) in
  let* _ := finishRunner name p w.1 w.2 (negb (bool_decide (w.2 = None))) in
  if clean then atomically refill else Ret tt.

(** ** Shutdown and reconciliation *)

(** The first critical section of [Shutdown], and the goroutines it starts. *)
Definition shutdown_start : act nat := λ _ l,
  let l := emit OShutdown (set_stopped true l) in
  let runners := range (running l) in
  let g := size (l_groups l) in
  Some (g, set_groups (<[g := (length runners, [])]> (l_groups l)) l,
        (λ '(name, p), TShutdownOne g name p) <$> runners).

(** [wg.Wait], then the errors of the channel. *)
Definition wait_group (g : nat) : act (list goerror) := λ _ l,
  match l_groups l !! g with
  | Some (O, errs) => Some (errs, l, [])
  | _ => None
  end.

(** What each goroutine leaves: its error, and [wg.Done]. *)
Definition group_done (g : nat) (err : option goerror) (l : Launcher) : Launcher :=
  set_groups (alter (λ '(n, errs), (pred n, errs ++ option_list err)) g (l_groups l)) l.

Definition Shutdown : proc (option goerror) :=
  let* g := atomically shutdown_start in
  let* errs := atomically (wait_group g) in
  let* err := retryPendingRegistrations in
  Ret (errors_join ((Some <$> errs) ++ [err])).

Definition snapshot (owned : list OwnedRunner) (l : Launcher) : list string * Launcher :=
  let active := (λ '(_, p), field "" handle p l) <$> range (running l) in
  (active, emit (OSnapshot owned active) l).

Definition reconcile : proc (Z * option goerror) :=
  if negb supported then
    Ret (0, Some (errorf ("backend " +:+ quote backend_name +:+
           " does not support scale-set ownership reconciliation")))
  else
    let* owned := section_env (λ an l, (an_list an, l)) in
    match owned with
    | Err e => Ret (0, Some (errorf_w "list owned runners: " e))
    | Ok owned =>
        let* active := section (snapshot owned) in
        let* r := pfold (λ '(reconciled, errs) r,
            if bool_mem (ResourceID r) active then Ret (false, (reconciled, errs))
            else
              let* e := section_env (λ an, removeRunner (an_remove an) (owned_RunnerID r)
                                       (OReclaim (ResourceID r) (owned_RunnerID r))) in
              match e with
              | Some e => Ret (false, (reconciled, errs ++
                            [Some (errorf_w ("remove registration for " +:+ owned_Name r +:+ ": ") e)]))
              | None =>
                  let* e := section_env (λ an l, (an_removeOwned an,
                              emit (ORemoveOwned (ResourceID r) (owned_RunnerID r) (bool_decide (an_removeOwned an = None))) l)) in
                  match e with
                  | Some e => Ret (false, (reconciled, errs ++
                                [Some (errorf_w ("remove backend runner " +:+ owned_Name r +:+ ": ") e)]))
                  | None => Ret (false, (reconciled + 1, errs))
                  end
              end) (0, []) owned in
        Ret (r.1, errors_join r.2)
    end.

(** ** Threads *)

(** What a call returns goes to its caller. *)
Definition discard {A} (p : proc A) : proc unit := let* _ := p in Ret tt.

Definition thread_body (t : thread) : proc unit :=
  match t with
  | TAwaitExit name p => awaitExit name p
  | TPartial name p => discard (finishRunner name p (-1) None true)
  | TShutdownOne g name p =>
      let* err := finishRunner name p (-1) None true in
      section (λ l, (tt, group_done g err l))
  | THandleDesired count => discard (HandleDesiredRunnerCount count)
  | TJobStarted job => HandleJobStarted job
  | TJobCompleted job => HandleJobCompleted job
  | TRunning => discard Running
  | TShutdown => discard Shutdown
  | TReconcile => discard reconcile
  end.

(** The calls made from outside the launcher. *)
Definition outside_call (t : thread) : Prop :=
  match t with TAwaitExit _ _ | TPartial _ _ | TShutdownOne _ _ _ => False | _ => True end.
End launcher.
