(* ===== verification/ScaleSetInv.v ===== *)
(** * The scale set launcher: the invariant of all interleavings

    What every interleaving of the launcher's goroutines and callers keeps: the
    specification of its trace ([legal]), and the relation of the runner
    states, the maps and the counters to that trace ([Inv]); each action
    preserves them. *)

From S2P Require Import Prelude GoErr GoStr Codec ImageVersions Backend Session Threads ScaleSet.

Local Open Scope Z_scope.
Local Open Scope go_scope.

(** ** The specification of a trace *)

(** The runner is known not to run any more. *)
Definition dead (p : ptr) (tr : list obs) : Prop :=
  OKill p true ∈ tr ∨ ∃ code, OWait p code None ∈ tr.

(** The resource belongs to no runner of this launcher that still needs it. *)
Definition unowned (resource : string) (tr : list obs) : Prop :=
  ∀ req p, OLaunch req (Some (p, resource)) ∈ tr → ORemove p true ∈ tr.

(** What must have happened, and what must not, before an event. *)
Definition guard (ev : obs) (tr : list obs) : Prop :=
  match ev with
  | OStart | OLaunch _ _ => OShutdown ∉ tr
  | OStop (Some p) _ _ => dead p tr ∧ ∀ code err, OStop (Some p) code err ∉ tr
  | OCleanup p needs =>
      (∀ b, OCleanup p b ∉ tr) ∧
      (needs = false → OBusy p ∈ tr ∧ ∃ code, OWait p code None ∈ tr)
  | ODeregister (Some p) _ _ =>
      dead p tr ∧ OCleanup p true ∈ tr ∧ ∀ id, ODeregister (Some p) id true ∉ tr
  | ORemove p _ =>
      dead p tr ∧ (OCleanup p false ∈ tr ∨ ∃ id, ODeregister (Some p) id true ∈ tr)
  | OReclaim resource _ _ => unowned resource tr
  | ORemoveOwned resource id _ =>
      unowned resource tr ∧ (id ≠ 0 → OReclaim resource id true ∈ tr)
  | _ => True
  end.

(** Every event of the trace, latest first, at its time. *)
Fixpoint legal (tr : list obs) : Prop :=
  match tr with
  | [] => True
  | ev :: tr => guard ev tr ∧ legal tr
  end.

(** The runner an event concerns. *)
Definition about (ev : obs) : option ptr :=
  match ev with
  | OStop who _ _ | ODeregister who _ _ => who
  | OLaunch _ t => fst <$> t
  | OWait p _ _ | OBusy p | OCleanup p _ | OKill p _ | ORemove p _ => Some p
  | _ => None
  end.

Definition is_start (ev : obs) : bool := match ev with OStart => true | _ => false end.
Definition is_stop (ev : obs) : bool := match ev with OStop _ _ _ => true | _ => false end.
Definition starts (tr : list obs) : nat := length (filter (λ ev, is_start ev = true) tr).
Definition stops (tr : list obs) : nat := length (filter (λ ev, is_stop ev = true) tr).

(** The runners that were launched and are not known to be gone, and those
    whose end [OnStop] has not heard of. *)
Definition live (l : Launcher) : gset ptr :=
  dom (filter (λ '(_, st), terminated st = false) (l_heap l)).
Definition unreported (l : Launcher) : gset ptr :=
  dom (filter (λ '(_, st), stopReported st = false) (l_heap l)).

(** ** The environment *)

Definition used_name (name : string) (tr : list obs) : Prop :=
  ∃ req p, OLaunch req (Some p) ∈ tr ∧ req_Name req = name.
Definition used_handle (h : string) (tr : list obs) : Prop :=
  (∃ req p, OLaunch req (Some (p, h)) ∈ tr) ∨
  (∃ owned active r, OSnapshot owned active ∈ tr ∧ r ∈ owned ∧ ResourceID r = h).

Definition launch_handle (an : launch_answers) : option string :=
  match la_launch an with Launched h => Some h | LaunchFailed h _ => h end.

Section inv.
Variable opts : Options.

Definition launch_name (an : launch_answers) : option string :=
  match shortID (la_rand an) with Ok id => Some (runner_name opts id) | Err _ => None end.

(** The random names do not collide, and the backend launches a resource that
    is none of those launched or listed before. *)
Definition unique_answers (an : answers) (l : Launcher) : Prop :=
  (∀ i name, launch_name (an_launches an i) = Some name → ¬ used_name name (l_trace l)) ∧
  (∀ i h, launch_handle (an_launches an i) = Some h → ¬ used_handle h (l_trace l)) ∧
  (∀ i j name, launch_name (an_launches an i) = Some name → launch_name (an_launches an j) = Some name → i = j) ∧
  (∀ i j h, launch_handle (an_launches an i) = Some h → launch_handle (an_launches an j) = Some h → i = j).

(** ** The invariant *)

(** A runner state and the trace. *)
Record state_inv (p : ptr) (st : runnerState) (l : Launcher) : Prop := {
  si_launch : ∃ req, OLaunch req (Some (p, handle st)) ∈ l_trace l ∧
    (cleaned st = false → running l !! req_Name req = Some p);
  si_id : runnerID st ≠ 0;
  si_occupies : occupiesCapacity st = negb (terminated st);
  si_dead : terminated st = true → dead p (l_trace l);
  si_busy : busy st = true → OBusy p ∈ l_trace l;
  si_started : cleanupStarted st = true ↔ ∃ b, OCleanup p b ∈ l_trace l;
  si_needs : cleanupStarted st = true → OCleanup p (needsDeregistration st) ∈ l_trace l;
  si_needs' : needsDeregistration st = true → cleanupStarted st = true;
  si_removed : registrationRemoved st = true ↔ ∃ id, ODeregister (Some p) id true ∈ l_trace l;
  si_cleaned : cleaned st = true ↔ ORemove p true ∈ l_trace l;
  si_cleaned_dead : cleaned st = true → terminated st = true;
  si_reported : stopReported st = false → terminated st = false;
  si_stop : (∃ code err, OStop (Some p) code err ∈ l_trace l) → stopReported st = true
}.

Record Inv (l : Launcher) : Prop := {
  inv_dom : ∀ p, is_Some (l_heap l !! p) ↔ (p < l_next l)%nat;
  inv_state : ∀ p st, l_heap l !! p = Some st → state_inv p st l;
  inv_running : ∀ name p, running l !! name = Some p →
    ∃ req h, OLaunch req (Some (p, h)) ∈ l_trace l ∧ req_Name req = name;
  inv_launch : ∀ req p h, OLaunch req (Some (p, h)) ∈ l_trace l →
    ∃ st, l_heap l !! p = Some st ∧ handle st = h;
  inv_snapshot : ∀ owned active r p st, OSnapshot owned active ∈ l_trace l → r ∈ owned →
    ResourceID r ∉ active → l_heap l !! p = Some st → handle st = ResourceID r → cleaned st = true;
  inv_capacity : 0 < MaxRunners opts → Z.of_nat (size (live l)) ≤ MaxRunners opts;
  inv_gauge : starts (l_trace l) = (stops (l_trace l) + size (unreported l))%nat;
  inv_stopped : stopped l = true ↔ OShutdown ∈ l_trace l;
  inv_events : ∀ ev p, ev ∈ l_trace l → about ev = Some p → (p < l_next l)%nat;
  inv_legal : legal (l_trace l)
}.

Lemma and3 (A B C : Prop) : (A ∧ B) ∧ C → A ∧ B ∧ C.
Proof. tauto. Qed.

(** ** The order of histories *)

Definition later (l l' : Launcher) : Prop :=
  (l_next l ≤ l_next l')%nat ∧ (∃ evs, l_trace l' = evs ++ l_trace l) ∧
  (∀ p, field false terminated p l = true → field false terminated p l' = true).

#[global] Instance later_preorder : PreOrder later.
Proof.
  split.
  - intros l. split; [done|split; [by exists []|done]].
  - intros a b c (H1 & [e1 E1] & T1) (H2 & [e2 E2] & T2). split; [lia|split].
    + exists (e2 ++ e1). by rewrite E2, E1, app_assoc.
    + intros p Hp. by apply T2, T1.
Qed.

Lemma later_trace l l' ev : later l l' → ev ∈ l_trace l → ev ∈ l_trace l'.
Proof. intros (_ & [evs ->] & _) H. apply elem_of_app. by right. Qed.

Lemma dead_mono p tr tr' : (∀ ev, ev ∈ tr → ev ∈ tr') → dead p tr → dead p tr'.
Proof. intros H [?|[c ?]]; [left; by apply H|right; exists c; by apply H]. Qed.

(** An event whose presence the flags of [p] do not record. *)
Definition flagged (p : ptr) (ev : obs) : Prop :=
  match ev with
  | OCleanup q _ => q = p
  | ODeregister (Some q) _ true => q = p
  | ORemove q true => q = p
  | OStop (Some q) _ _ => q = p
  | _ => False
  end.

Lemma state_inv_mono p st l l' :
  state_inv p st l → (∀ ev, ev ∈ l_trace l → ev ∈ l_trace l') →
  (∀ ev, ev ∈ l_trace l' → flagged p ev → ev ∈ l_trace l) →
  (∀ name, cleaned st = false → running l !! name = Some p → running l' !! name = Some p) →
  state_inv p st l'.
Proof.
  intros [[req [Hl Hr]] ? ? Hd Hb Hs Hn Hn' Hrm Hc Hcd Hrep Hst] Hm Hf Hk. constructor; try done.
  - exists req. split; [by apply Hm|]. intros Hcl. by apply Hk, Hr.
  - intros Ht. by eapply dead_mono, Hd.
  - intros E. by apply Hm, Hb.
  - rewrite Hs. split; intros [b E]; exists b; [by apply Hm|by apply Hf].
  - intros E. by apply Hm, Hn.
  - rewrite Hrm. split; intros [b E]; exists b; [by apply Hm|by apply Hf].
  - rewrite Hc. split; intros E; [by apply Hm|by apply Hf].
  - intros (c & e & E). apply Hst. exists c, e. by apply Hf.
Qed.

(** ** Actions that keep the maps *)

(** An event of runner [p], or of none, that tracks and lists nothing. *)
Definition plain (p : ptr) (ev : obs) : Prop :=
  match ev with
  | OLaunch _ (Some _) | OSnapshot _ _ | OShutdown => False
  | _ => match about ev with Some q => q = p | None => True end
  end.

Record frame (p : ptr) (f : runnerState → runnerState) (evs : list obs) (l l' : Launcher) : Prop := {
  fr_next : l_next l' = l_next l;
  fr_heap : l_heap l' = alter f p (l_heap l);
  fr_trace : l_trace l' = evs ++ l_trace l;
  fr_running : running l' = running l;
  fr_stopped : stopped l' = stopped l
}.

Definition keeps (st st' : runnerState) : Prop :=
  handle st' = handle st ∧ (cleaned st = true → cleaned st' = true) ∧
  (terminated st = true → terminated st' = true).

Lemma frame_lookup p f evs l l' q st' :
  frame p f evs l l' → l_heap l' !! q = Some st' →
  ∃ st, l_heap l !! q = Some st ∧ st' = (if decide (q = p) then f st else st).
Proof.
  intros Hf. rewrite (fr_heap _ _ _ _ _ Hf). destruct (decide (q = p)) as [->|Hn].
  - rewrite lookup_alter_eq. intros (st & ? & ?)%fmap_Some. by exists st.
  - rewrite lookup_alter_ne by done. intros ?. by exists st'.
Qed.

Lemma inv_frame p f evs l l' :
  Inv l → frame p f evs l l' → legal (l_trace l') →
  (∀ ev, ev ∈ evs → plain p ev) → (∀ ev, ev ∈ evs → about ev ≠ None → (p < l_next l)%nat) →
  (∀ st, l_heap l !! p = Some st → state_inv p st l → keeps st (f st) ∧ state_inv p (f st) l') →
  starts (l_trace l') = (stops (l_trace l') + size (unreported l'))%nat →
  Inv l' ∧ later l l'.
Proof.
  intros HI Hf Hleg Hev Hp Hst Hg.
  assert (∀ ev, ev ∈ l_trace l → ev ∈ l_trace l') as Hm.
  { intros ev ?. rewrite (fr_trace _ _ _ _ _ Hf). apply elem_of_app. by right. }
  assert (∀ ev, ev ∈ l_trace l' → ¬ plain p ev → ev ∈ l_trace l) as Hold.
  { intros ev. rewrite (fr_trace _ _ _ _ _ Hf). intros [?%Hev|?]%elem_of_app; done. }
  assert (∀ q st, l_heap l !! q = Some st → ∃ st', l_heap l' !! q = Some st' ∧ keeps st st') as Hk.
  { intros q st Hq. rewrite (fr_heap _ _ _ _ _ Hf). destruct (decide (q = p)) as [->|Hn].
    - rewrite lookup_alter_eq, Hq. exists (f st). split; [done|]. by apply Hst, HI.
    - rewrite lookup_alter_ne by done. exists st. by repeat split. }
  split.
  2:{ split; [by rewrite (fr_next _ _ _ _ _ Hf)|split; [by exists evs; apply Hf|]].
      intros q. unfold field, state_of. destruct (l_heap l !! q) as [st|] eqn:Eq; [|done].
      destruct (Hk q st Eq) as (st' & -> & _ & _ & ?). done. }
  constructor.
  - intros q. rewrite (fr_heap _ _ _ _ _ Hf), (fr_next _ _ _ _ _ Hf), <- (inv_dom _ HI).
    by rewrite lookup_alter_is_Some.
  - intros q st' Hq. destruct (frame_lookup _ _ _ _ _ _ _ Hf Hq) as (st & Hq' & ->).
    case_decide as Hqp; [subst q; by apply Hst, HI|].
    apply (state_inv_mono _ _ l); [by apply HI|done| |].
    + intros ev He Hfl. apply Hold; [done|]. intros Hpl.
      destruct ev as [|[]| | | | | |[] ? []|? []| | | |]; cbn in *; congruence.
    + intros name _. by rewrite (fr_running _ _ _ _ _ Hf).
  - intros name q. rewrite (fr_running _ _ _ _ _ Hf). intros Hq.
    destruct (inv_running _ HI _ _ Hq) as (req & h & ? & ?). exists req, h. split; [by apply Hm|done].
  - intros req q h Hl. assert (OLaunch req (Some (q, h)) ∈ l_trace l) as Hl' by (apply Hold; [done|intros []]).
    destruct (inv_launch _ HI _ _ _ Hl') as (st & Hq & <-). destruct (Hk q st Hq) as (st' & ? & ? & _). by exists st'.
  - intros owned active r q st' Hs Hr Ha Hq Hh.
    destruct (frame_lookup _ _ _ _ _ _ _ Hf Hq) as (st & Hq' & Est).
    destruct (Hk q st Hq') as (st'' & Hq'' & Hh' & Hc & _). assert (st'' = st') as -> by congruence.
    apply Hc. eapply (inv_snapshot _ HI owned active r); try done; [by apply Hold; [done|intros []]|congruence].
  - intros Hmax. etrans; [|by apply (inv_capacity _ HI)]. apply inj_le, subseteq_size.
    intros q. unfold live. rewrite !elem_of_dom. intros [st' [Hq Ht]%map_lookup_filter_Some].
    destruct (frame_lookup _ _ _ _ _ _ _ Hf Hq) as (st & Hq' & _).
    destruct (Hk q st Hq') as (st'' & Hq'' & _ & _ & Htt). assert (st'' = st') as -> by congruence.
    exists st. apply map_lookup_filter_Some. split; [done|]. by destruct (terminated st); [rewrite Htt in Ht|].
  - done.
  - rewrite (fr_stopped _ _ _ _ _ Hf), (inv_stopped _ HI). split; [by apply Hm|]. intros Hs.
    apply Hold; [done|intros []].
  - intros ev q. rewrite (fr_trace _ _ _ _ _ Hf), (fr_next _ _ _ _ _ Hf).
    intros [He|He]%elem_of_app Hq; [|by eapply (inv_events _ HI)].
    specialize (Hev ev He). specialize (Hp ev He ltac:(congruence)). unfold plain in Hev.
    rewrite Hq in Hev. destruct ev; subst; try done. all: case_match; subst; done.
  - done.
Qed.

(** An event that neither starts nor stops a runner for the hooks. *)
Definition silent (ev : obs) : Prop := is_start ev = false ∧ is_stop ev = false.

Lemma gauge_silent evs tr : (∀ ev, ev ∈ evs → silent ev) → starts (evs ++ tr) = starts tr ∧ stops (evs ++ tr) = stops tr.
Proof.
  unfold starts, stops. intros Hs. rewrite !filter_app.
  assert (filter (λ ev, is_start ev = true) evs = [] ∧ filter (λ ev, is_stop ev = true) evs = []) as [-> ->]; [|done].
  induction evs as [|ev evs IH]; [done|]. destruct (Hs ev) as [H1 H2]; [by left|].
  rewrite !filter_cons_False by congruence. apply IH. intros ? ?. apply Hs. by right.
Qed.

Lemma starts_cons ev tr : starts (ev :: tr) = ((if is_start ev then 1 else 0) + starts tr)%nat.
Proof. unfold starts. rewrite filter_cons. by destruct (is_start ev). Qed.

Lemma stops_cons ev tr : stops (ev :: tr) = ((if is_stop ev then 1 else 0) + stops tr)%nat.
Proof. unfold stops. rewrite filter_cons. by destruct (is_stop ev). Qed.

Lemma unreported_emit ev l : unreported (emit ev l) = unreported l.
Proof. reflexivity. Qed.

Lemma unreported_frame p f evs l l' :
  frame p f evs l l' → (∀ st, l_heap l !! p = Some st → stopReported (f st) = stopReported st) →
  unreported l' = unreported l.
Proof.
  intros Hf Hst. apply set_eq. intros q. unfold unreported. rewrite !elem_of_dom. split.
  - intros [st' [Hq Hs]%map_lookup_filter_Some].
    destruct (frame_lookup _ _ _ _ _ _ _ Hf Hq) as (st & Hq' & ->). exists st.
    apply map_lookup_filter_Some. split; [done|]. case_decide; [subst; by rewrite <- Hst|done].
  - intros [st [Hq Hs]%map_lookup_filter_Some]. exists (if decide (q = p) then f st else st).
    apply map_lookup_filter_Some. rewrite (fr_heap _ _ _ _ _ Hf). case_decide; [subst q|].
    + rewrite lookup_alter_eq, Hq. split; [done|]. by rewrite Hst.
    + by rewrite lookup_alter_ne.
Qed.

Lemma legal_app evs tr : legal tr → Forall (λ ev, guard ev tr) evs → (length evs ≤ 1)%nat → legal (evs ++ tr).
Proof. intros Ht He Hl. destruct evs as [|ev [|]]; [done| |cbn in Hl; lia]. by inversion He. Qed.

(** An action that changes at most one runner state and emits at most one
    silent event. *)
Lemma inv_update p f evs l l' :
  Inv l → frame p f evs l l' → (length evs ≤ 1)%nat →
  Forall (λ ev, guard ev (l_trace l) ∧ plain p ev ∧ silent ev ∧ (about ev ≠ None → (p < l_next l)%nat)) evs →
  (∀ st, l_heap l !! p = Some st → state_inv p st l →
     keeps st (f st) ∧ stopReported (f st) = stopReported st ∧ state_inv p (f st) l') →
  Inv l' ∧ later l l'.
Proof.
  intros HI Hf Hl He Hst. rewrite Forall_forall in He. eapply inv_frame; try done.
  - rewrite (fr_trace _ _ _ _ _ Hf). apply legal_app; [apply HI| |done]. apply Forall_forall. intros ev ?. by apply He.
  - intros ev ?. by apply He.
  - intros ev ?. by apply He.
  - intros st Hp Hs. by destruct (Hst st Hp Hs) as (? & _ & ?).
  - rewrite (unreported_frame _ _ _ _ _ Hf).
    + rewrite (fr_trace _ _ _ _ _ Hf). destruct (gauge_silent evs (l_trace l)) as [-> ->]; [|apply HI].
      intros ev ?. by apply He.
    + intros st Hp. by apply Hst, HI.
Qed.

(** The same, when the event leaves the flags of the runner alone. *)
Lemma inv_emit p ev l :
  Inv l → guard ev (l_trace l) → plain p ev → silent ev → (about ev ≠ None → (p < l_next l)%nat) →
  ¬ flagged p ev → Inv (emit ev l) ∧ later l (emit ev l).
Proof.
  intros HI Hg Hp Hs Ha Hf. apply (inv_update p id [ev]); [done| |done| |].
  - constructor; try done. cbn. symmetry. by apply alter_id.
  - by constructor.
  - intros st _ Hst. split_and!; [by repeat split|done|]. apply (state_inv_mono _ _ l); try done.
    + intros e ?. by right.
    + by intros e [->|?]%elem_of_cons ?.
Qed.

(** Actions on the other maps. *)
Lemma inv_maps l l' :
  l_heap l' = l_heap l → l_next l' = l_next l → running l' = running l → l_trace l' = l_trace l →
  stopped l' = stopped l → Inv l → Inv l' ∧ later l l'.
Proof.
  intros E1 E2 E3 E4 E5 HI. apply (inv_update 0%nat id []); [done| |cbn; lia|constructor|].
  - constructor; try done. rewrite E1. symmetry. by apply alter_id.
  - intros st _ Hst. split_and!; [by repeat split|done|].
    apply (state_inv_mono _ _ l); rewrite ?E3, ?E4; done.
Qed.

(** An update of one runner state. *)
Lemma inv_flags p f l :
  Inv l → (∀ st, state_inv p st l → keeps st (f st) ∧ stopReported (f st) = stopReported st ∧ state_inv p (f st) l) →
  Inv (update f p l) ∧ later l (update f p l).
Proof.
  intros HI Hf. apply (inv_update p f []); [done|by constructor|cbn; lia|constructor|].
  intros st _ Hst. destruct (Hf st Hst) as (? & ? & Hi). split_and!; [done..|].
  by apply (state_inv_mono _ _ l).
Qed.

Lemma heap_inj l (p : ptr) st st' : l_heap l !! p = Some st → l_heap l !! p = Some st' → st = st'.
Proof. by intros -> [= ->]. Qed.

(** ** The actions of a cleanup *)

Ltac keep_flags := intros st []; split_and!; [by repeat split|done|by constructor].

Lemma lock_inv b p l : Inv l → Inv (update (set_lock b) p l) ∧ later l (update (set_lock b) p l).
Proof. intros HI. apply inv_flags; [done|]. keep_flags. Qed.

Lemma accounted_inv p l : Inv l → Inv (update set_accounted p l) ∧ later l (update set_accounted p l).
Proof. intros HI. apply inv_flags; [done|]. keep_flags. Qed.

Lemma field_state {X} (d : X) f p l st : l_heap l !! p = Some st → field d f p l = f st.
Proof. unfold field, state_of. by intros ->. Qed.

Lemma in_heap p l : Inv l → (p < l_next l)%nat → ∃ st, l_heap l !! p = Some st ∧ state_inv p st l.
Proof. intros HI Hp%(inv_dom _ HI). destruct Hp as [st Hst]. exists st. split; [done|by apply HI]. Qed.

Lemma start_cleanup_inv p code err terminate l :
  Inv l → (p < l_next l)%nat → (terminate = false → ∃ code, OWait p code None ∈ l_trace l) →
  Inv (start_cleanup p code err terminate l) ∧ later l (start_cleanup p code err terminate l) ∧
  ∃ b, OCleanup p b ∈ l_trace (start_cleanup p code err terminate l).
Proof.
  intros HI Hp Hw. destruct (in_heap p l HI Hp) as (st & Hst & Hi). unfold start_cleanup.
  rewrite !(field_state _ _ _ _ _ Hst). destruct (cleanupStarted st) eqn:Es; cbn [negb].
  - destruct terminate; cbn [negb].
    + split; [done|split; [reflexivity|]]. by apply (si_started _ _ _ Hi).
    + apply and3; split; [|by apply (si_started _ _ _ Hi)].
      apply (inv_update p (set_cleanup (needsDeregistration st) code err) []);
        [done|by constructor|cbn; lia|constructor|].
      intros st' Hst' _. pose proof (heap_inj _ _ _ _ Hst' Hst) as ->. split_and!; [by repeat split|done|].
      apply (state_inv_mono _ _ l); [|done..]. destruct Hi. by constructor; cbn; try rewrite Es in *.
  - apply and3; split; [|eexists; left].
    set (needs := terminate || negb (busy st)).
    apply (inv_update p (set_cleanup needs code err) [OCleanup p needs]); [done|by constructor|done| |].
    + constructor; [|constructor]. split_and!; [|done|done|done].
      split.
      * intros b Hb. assert (cleanupStarted st = true) as E by (apply (si_started _ _ _ Hi); by exists b). congruence.
      * unfold needs. intros [Ht Hb%negb_false_iff]%orb_false_iff. split; [by apply (si_busy _ _ _ Hi)|by apply Hw].
    + intros st' Hst' _. pose proof (heap_inj _ _ _ _ Hst' Hst) as ->. split_and!; [by repeat split|done|].
      destruct Hi as [[req [? ?]] ? ? Hd Hb Hs Hn Hn' Hr Hc Hcd Hrep Hstop].
      constructor; cbn; try done.
      * exists req. split; [by right|done].
      * intros ?. eapply dead_mono; [|by apply Hd]. intros ? ?. by right.
      * intros ?. right. by apply Hb.
      * split; [intros _; eexists; by left|done].
      * intros _. by left.
      * rewrite Hr. split; intros [id Hid]; exists id; [by right|]. by apply elem_of_cons in Hid as [|].
      * rewrite Hc. split; [by right|]. by intros [|]%elem_of_cons.
      * intros (c & e & [|]%elem_of_cons); [done|]. apply Hstop. by exists c, e.
Qed.

Lemma kill_inv p an l :
  Inv l → (p < l_next l)%nat →
  Inv (kill p an l).2 ∧ later l (kill p an l).2 ∧
  ((kill p an l).1 = None → OKill p true ∈ l_trace (kill p an l).2).
Proof.
  intros HI Hp. unfold kill. cbn [fst snd]. apply and3. split.
  - apply (inv_emit p); try done. by intros [].
  - intros ->. left.
Qed.

(** An event about a runner that records none of the flags but one. *)
Ltac mono_dead Hd := intros ?; eapply dead_mono; [|by apply Hd]; intros ? ?; by right.
Ltac old_event Hid := by apply elem_of_cons in Hid as [|].

Lemma mark_state p st l l' ev :
  state_inv p st l → dead p (l_trace l) → running l' = running l →
  l_trace l' = (if stopReported st then [] else [OStop (Some p) (exitCode st) ev]) ++ l_trace l →
  state_inv p (set_terminated st) l'.
Proof.
  intros Hi Hd Hr Ht.
  assert (∀ e, e ∈ l_trace l → e ∈ l_trace l') as Hm by (rewrite Ht; intros ??; apply elem_of_app; by right).
  assert (∀ e, e ∈ l_trace l' → is_stop e = false → e ∈ l_trace l) as Ho.
  { intros e. rewrite Ht. destruct (stopReported st); [done|]. by intros [->|?]%elem_of_cons. }
  destruct Hi as [[req [? ?]] ? ? _ Hb Hs Hn Hn' Hrm Hc Hcd Hrep Hstop]. constructor; cbn; try done.
  - exists req. rewrite Hr. split; [by apply Hm|done].
  - intros _. by eapply dead_mono.
  - intros ?. by apply Hm, Hb.
  - rewrite Hs. split; intros [b Hid]; exists b; [by apply Hm|by apply Ho].
  - intros ?. by apply Hm, Hn.
  - rewrite Hrm. split; intros [b Hid]; exists b; [by apply Hm|by apply Ho].
  - rewrite Hc. split; [by apply Hm|]. intros ?. by apply Ho.
Qed.

Lemma unreported_mark p l st :
  l_heap l !! p = Some st → stopReported st = false →
  size (unreported l) = S (size (unreported (update set_terminated p l))).
Proof.
  intros Hp Hs. assert (unreported l = {[p]} ∪ unreported (update set_terminated p l)) as ->.
  { apply set_eq. intros q. rewrite elem_of_union, elem_of_singleton. unfold unreported.
    rewrite !elem_of_dom. cbn. destruct (decide (q = p)) as [->|Hn].
    - split; [by left|]. intros _. exists st. by apply map_lookup_filter_Some.
    - split.
      + intros [s' [Hq ?]%map_lookup_filter_Some]. right. exists s'. apply map_lookup_filter_Some.
        by rewrite lookup_alter_ne.
      + intros [?|[s' [Hq ?]%map_lookup_filter_Some]]; [done|]. rewrite lookup_alter_ne in Hq by done.
        exists s'. by apply map_lookup_filter_Some. }
  rewrite size_union, size_singleton; [done|]. apply disjoint_singleton_l. unfold unreported.
  rewrite elem_of_dom. intros [s' [Hq Hr]%map_lookup_filter_Some]. cbn in Hq.
  rewrite lookup_alter_eq, Hp in Hq. by injection Hq as <-.
Qed.

Lemma mark_terminated_inv p l :
  Inv l → (p < l_next l)%nat → dead p (l_trace l) →
  Inv (mark_terminated p l) ∧ later l (mark_terminated p l) ∧
  field false terminated p (mark_terminated p l) = true.
Proof.
  intros HI Hp Hd. destruct (in_heap p l HI Hp) as (st & Hst & Hi). unfold mark_terminated.
  assert (l_heap (update set_terminated p l) !! p = Some (set_terminated st)) as Hst'
    by (cbn; by rewrite lookup_alter_eq, Hst).
  rewrite (field_state _ _ _ _ _ Hst), !(field_state _ _ _ _ _ Hst').
  change (exitCode (set_terminated st)) with (exitCode st). apply and3. split.
  2:{ destruct (stopReported st); cbn [negb]; by rewrite (field_state _ _ _ _ (set_terminated st)). }
  set (evs := if stopReported st then [] else [OStop (Some p) (exitCode st) (waitErr st)]).
  match goal with |- Inv ?x ∧ _ => assert (frame p set_terminated evs l x) as Hf end.
  { unfold evs. by destruct (stopReported st); constructor. }
  apply (inv_frame p set_terminated evs); [done|exact Hf|..].
  - rewrite (fr_trace _ _ _ _ _ Hf). apply legal_app; [apply HI| |by unfold evs; destruct (stopReported st); cbn; lia].
    unfold evs. destruct (stopReported st) eqn:Er; constructor; [|done]. split; [done|].
    intros c e Hin. rewrite (si_stop _ _ _ Hi) in Er; [done|by exists c, e].
  - unfold evs. intros ev Hev. destruct (stopReported st); [by apply not_elem_of_nil in Hev|].
    by apply list_elem_of_singleton in Hev as ->.
  - done.
  - intros st2 Hst2 _. pose proof (heap_inj _ _ _ _ Hst2 Hst) as ->. split; [by repeat split|].
    eapply (mark_state _ _ l); [done|done|apply Hf|]. rewrite (fr_trace _ _ _ _ _ Hf). done.
  - pose proof (inv_gauge _ HI) as Hg. destruct (stopReported st) eqn:Er; cbn [negb].
    + rewrite (unreported_frame p set_terminated [] l); [done|by constructor|].
      intros st2 Hst2. pose proof (heap_inj _ _ _ _ Hst2 Hst) as ->. by rewrite Er.
    + rewrite (unreported_mark _ _ _ Hst Er) in Hg. rewrite unreported_emit.
      cbn [emit l_trace]. rewrite starts_cons, stops_cons. cbn [is_start is_stop update set_heap l_trace]. lia.
Qed.

Lemma removeRunner_call an id observe l :
  id ≠ 0 → ∃ err, removeRunner an id observe l = (err, emit (observe (bool_decide (err = None))) l).
Proof.
  intros Hid. unfold removeRunner. destruct (Z.eqb_spec id 0); [done|]. eexists. reflexivity.
Qed.

Lemma removed_state p id st l :
  state_inv p st l → state_inv p (set_removed st) (update set_removed p (emit (ODeregister (Some p) id true) l)).
Proof.
  intros [[req [? ?]] ? ? Hd Hb Hs Hn Hn' Hrm Hc Hcd Hrep Hstop]. constructor; cbn; try done.
  - exists req. split; [by right|done].
  - mono_dead Hd.
  - intros ?. right. by apply Hb.
  - rewrite Hs. split; intros [b Hid]; exists b; [by right|old_event Hid].
  - intros ?. right. by apply Hn.
  - split; [|done]. intros _. eexists. by left.
  - rewrite Hc. split; [by right|]. intros Hid. old_event Hid.
  - intros (c & e & Hid). apply Hstop. exists c, e. old_event Hid.
Qed.

Lemma deregister_inv p an l :
  Inv l → (p < l_next l)%nat → dead p (l_trace l) → (∃ b, OCleanup p b ∈ l_trace l) →
  Inv (deregister p an l).2 ∧ later l (deregister p an l).2 ∧
  ((deregister p an l).1 = None → OCleanup p false ∈ l_trace (deregister p an l).2 ∨
     ∃ id, ODeregister (Some p) id true ∈ l_trace (deregister p an l).2).
Proof.
  intros HI Hp Hd Hc. destruct (in_heap p l HI Hp) as (st & Hst & Hi). unfold deregister.
  rewrite !(field_state _ _ _ _ _ Hst).
  assert (cleanupStarted st = true) as Hcs by by apply (si_started _ _ _ Hi).
  pose proof (si_needs _ _ _ Hi Hcs) as Hn.
  destruct (Z.eqb_spec (runnerID st) 0) as [?|Hid]; [by destruct (si_id _ _ _ Hi)|]. cbn [negb andb].
  destruct (needsDeregistration st); cbn [andb]; [|by split; [|split; [reflexivity|left]]].
  destruct (registrationRemoved st) eqn:Er; cbn [negb andb].
  { split; [done|split; [reflexivity|right]]. by apply (si_removed _ _ _ Hi). }
  destruct (removeRunner_call (an_remove an) (runnerID st) (ODeregister (Some p) (runnerID st)) l Hid) as [err ->].
  assert (∀ b, guard (ODeregister (Some p) (runnerID st) b) (l_trace l)) as Hg.
  { intros b. split_and!; [done|done|]. intros id Hin. assert (registrationRemoved st = true); [|congruence].
    apply (si_removed _ _ _ Hi). by exists id. }
  destruct err as [e|]; cbn [fst snd].
  - apply and3. split; [|done]. rewrite bool_decide_false by done.
    apply (inv_emit p); try done. by intros ?.
  - rewrite bool_decide_true by done. apply and3. split; [|intros _; right; eexists; left].
    apply (inv_update p set_removed [ODeregister (Some p) (runnerID st) true]); [done|by constructor|done| |].
    + constructor; [|constructor]. by split_and!.
    + intros st2 Hst2 _. pose proof (heap_inj _ _ _ _ Hst2 Hst) as ->. split_and!; [by repeat split|done|].
      by apply removed_state.
Qed.

Lemma cleaned_state p st l :
  state_inv p st l → terminated st = true →
  state_inv p (set_cleaned st) (update set_cleaned p (emit (ORemove p true) l)).
Proof.
  intros [[req [? ?]] ? ? Hd Hb Hs Hn Hn' Hrm Hc Hcd Hrep Hstop] Ht. constructor; cbn; try done.
  - exists req. split; [by right|done].
  - mono_dead Hd.
  - intros ?. right. by apply Hb.
  - rewrite Hs. split; intros [b Hid]; exists b; [by right|old_event Hid].
  - intros ?. right. by apply Hn.
  - rewrite Hrm. split; intros [b Hid]; exists b; [by right|old_event Hid].
  - split; [|done]. intros _. by left.
  - intros (c & e & Hid). apply Hstop. exists c, e. old_event Hid.
Qed.

Lemma remove_resource_inv p an l :
  Inv l → (p < l_next l)%nat → dead p (l_trace l) → field false terminated p l = true →
  (OCleanup p false ∈ l_trace l ∨ ∃ id, ODeregister (Some p) id true ∈ l_trace l) →
  Inv (remove_resource p an l).2 ∧ later l (remove_resource p an l).2 ∧
  ((remove_resource p an l).1 = None → ORemove p true ∈ l_trace (remove_resource p an l).2).
Proof.
  intros HI Hp Hd Ht Hc. destruct (in_heap p l HI Hp) as (st & Hst & Hi).
  rewrite (field_state _ _ _ _ _ Hst) in Ht. unfold remove_resource.
  destruct (an_removeOwned an) as [e|]; cbn [fst snd].
  - apply and3. split; [|done]. rewrite bool_decide_false by done.
    apply (inv_emit p); try done. by intros ?.
  - rewrite bool_decide_true by done. apply and3. split; [|intros _; left].
    apply (inv_update p set_cleaned [ORemove p true]); [done|by constructor|done| |].
    + constructor; [|constructor]. by split_and!.
    + intros st2 Hst2 _. pose proof (heap_inj _ _ _ _ Hst2 Hst) as ->. split_and!; [by repeat split|done|].
      by apply cleaned_state.
Qed.

(** A runner that was cleaned up leaves the map. *)
Lemma set_running_inv name p l :
  Inv l → ORemove p true ∈ l_trace l → running l !! name = Some p →
  Inv (set_running (delete name (running l)) l) ∧ later l (set_running (delete name (running l)) l).
Proof.
  intros HI Hc Hr. split; [|by split; [|split; [exists []|]]].
  destruct HI as [Hdom Hst Hrun Hl Hsnap Hcap Hg Hstop Hev Hleg]. constructor; try done.
  - intros q st Hq. destruct (Hst q st Hq) as [[req [? Hk]] ? ? ? ? ? ? ? ? Hcl ? ?]. constructor; try done.
    exists req. split; [done|]. intros Hnc. cbn. rewrite lookup_delete_ne; [by apply Hk|].
    intros ->. rewrite Hk in Hr by done. injection Hr as ->. apply Hcl in Hc. congruence.
  - intros n q. cbn. intros [? ?]%lookup_delete_Some. by apply Hrun.
Qed.

Lemma forget_inv name p l :
  Inv l → ORemove p true ∈ l_trace l → Inv (forget name p l).2 ∧ later l (forget name p l).2.
Proof.
  intros HI Hc. unfold forget. cbn [snd]. case_bool_decide; [by apply (set_running_inv name p)|by split].
Qed.

(** ** Launching *)

Lemma flagged_about p ev : flagged p ev → about ev = Some p.
Proof. destruct ev as [|[]| | | | | |[] ? []|? []| | | |]; cbn; try done; by intros ->. Qed.

Lemma new_state_inv p name h id rep evs req l l' :
  Inv l → p = l_next l → id ≠ 0 → req_Name req = name →
  l_trace l' = evs ++ l_trace l → OLaunch req (Some (p, h)) ∈ evs →
  (∀ ev, ev ∈ evs → ¬ flagged p ev) → running l' !! name = Some p →
  state_inv p (new_state h id rep) l'.
Proof.
  intros HI Hp Hid Hn Ht Hl Hf Hr.
  assert (∀ ev, ev ∈ l_trace l' → flagged p ev → False) as Ho.
  { intros ev Hev Hfl. rewrite Ht in Hev. apply elem_of_app in Hev as [Hev|Hev]; [by eapply Hf|].
    pose proof (inv_events _ HI _ _ Hev (flagged_about _ _ Hfl)). lia. }
  constructor; cbn; try done.
  - exists req. rewrite Ht, elem_of_app, Hn. split; [by left|done].
  - split; [done|]. intros [b Hb]. destruct (Ho _ Hb). done.
  - split; [done|]. intros [b Hb]. destruct (Ho _ Hb). done.
  - split; [done|]. intros Hb. destruct (Ho _ Hb). done.
  - intros (c & e & Hb). destruct (Ho _ Hb). done.
Qed.

Section alloc.
Variables (l : Launcher) (name h : string) (id : Z) (rep : bool) (req : LaunchRequest)
  (evs : list obs) (l' : Launcher).
Hypothesis HI : Inv l.
Hypothesis Hheap : l_heap l' = <[l_next l := new_state h id rep]> (l_heap l).
Hypothesis Hnext : l_next l' = S (l_next l).
Hypothesis Hrun : running l' = <[name := l_next l]> (running l).
Hypothesis Hstopped : stopped l' = stopped l.
Hypothesis Htr : l_trace l' = evs ++ l_trace l.
Hypothesis Hevs : ∀ ev, ev ∈ evs →
  ev = OLaunch req (Some (l_next l, h)) ∨ ev = OStart ∨ ∃ e, ev = OStop None (-1) e.
Hypothesis Hin : OLaunch req (Some (l_next l, h)) ∈ evs.
Hypothesis Hname : req_Name req = name.
Hypothesis Hid : id ≠ 0.
Hypothesis Hun : ¬ used_name name (l_trace l).
Hypothesis Huh : ¬ used_handle h (l_trace l).

#[local] Set Default Proof Using "All".

Lemma alloc_old ev : ev ∈ l_trace l' →
  ev = OLaunch req (Some (l_next l, h)) ∨ ev = OStart ∨ (∃ e, ev = OStop None (-1) e) ∨ ev ∈ l_trace l.
Proof. rewrite Htr. intros [[?|[?|?]]%Hevs|?]%elem_of_app; tauto. Qed.

Lemma alloc_mono ev : ev ∈ l_trace l → ev ∈ l_trace l'.
Proof. rewrite Htr. intros ?. apply elem_of_app. by right. Qed.

Lemma alloc_heap q st : l_heap l' !! q = Some st →
  (q = l_next l ∧ st = new_state h id rep) ∨ (q ≠ l_next l ∧ l_heap l !! q = Some st).
Proof.
  rewrite Hheap. intros Hq. destruct (decide (q = l_next l)) as [->|Hn].
  - rewrite lookup_insert_eq in Hq. injection Hq as <-. by left.
  - rewrite lookup_insert_ne in Hq by done. by right.
Qed.

Lemma alloc_kept q st : l_heap l !! q = Some st → l_heap l' !! q = Some st.
Proof.
  intros Hq. assert (q < l_next l)%nat by (apply (inv_dom _ HI); by exists st).
  rewrite Hheap, lookup_insert_ne; [done|lia].
Qed.

Lemma alloc_state q st : l_heap l' !! q = Some st → state_inv q st l'.
Proof.
  intros [[-> ->]|[Hn Hq]]%alloc_heap.
  - apply (new_state_inv _ name _ _ _ evs req l); try done.
    + intros ev [->|[->|[e ->]]]%Hevs; by intros ?.
    + by rewrite Hrun, lookup_insert_eq.
  - apply (state_inv_mono _ _ l); [by apply HI|apply alloc_mono|..].
    + by intros ev [->|[->|[[e ->]|?]]]%alloc_old Hf.
    + intros n _ Hnq. rewrite Hrun, lookup_insert_ne; [done|]. intros <-.
      apply Hun. destruct (inv_running _ HI _ _ Hnq) as (r & h' & ? & ?). by exists r, (q, h').
Qed.

Lemma alloc_live : live l' = {[l_next l]} ∪ live l.
Proof.
  apply set_eq. intros q. rewrite elem_of_union, elem_of_singleton. unfold live. rewrite !elem_of_dom. split.
  - intros [st [[[-> ->]|[? Hq]]%alloc_heap Ht]%map_lookup_filter_Some]; [by left|right].
    exists st. by apply map_lookup_filter_Some.
  - intros [->|[st [Hq Ht]%map_lookup_filter_Some]].
    + exists (new_state h id rep). apply map_lookup_filter_Some. by rewrite Hheap, lookup_insert_eq.
    + exists st. apply map_lookup_filter_Some. by split; [apply alloc_kept|].
Qed.

Lemma alloc_unreported : size (unreported l') = ((if rep then 0 else 1) + size (unreported l))%nat.
Proof.
  assert (l_next l ∉ unreported l) as Hn.
  { unfold unreported. rewrite elem_of_dom. intros [st [Hq _]%map_lookup_filter_Some].
    assert (l_next l < l_next l)%nat; [|lia]. apply (inv_dom _ HI). by exists st. }
  assert (unreported l' = (if rep then ∅ else {[l_next l]}) ∪ unreported l) as ->.
  { apply set_eq. intros q. unfold unreported. rewrite elem_of_union, !elem_of_dom. split.
    - intros [st [[[-> ->]|[? Hq]]%alloc_heap Ht]%map_lookup_filter_Some].
      + cbn in Ht. left. rewrite Ht. by apply elem_of_singleton.
      + right. exists st. by apply map_lookup_filter_Some.
    - intros [Hq|[st [Hq Ht]%map_lookup_filter_Some]].
      + destruct rep eqn:Er; [by apply elem_of_empty in Hq|]. apply elem_of_singleton in Hq as ->.
        exists (new_state h id false). apply map_lookup_filter_Some. by rewrite Hheap, lookup_insert_eq.
      + exists st. apply map_lookup_filter_Some. by split; [apply alloc_kept|]. }
  destruct rep; [by rewrite union_empty_l_L|]. rewrite size_union, size_singleton; [done|].
  by apply disjoint_singleton_l.
Qed.

Lemma alloc_inv :
  legal (l_trace l') → (0 < MaxRunners opts → Z.of_nat (size (live l)) + 1 ≤ MaxRunners opts) →
  starts (l_trace l') = S (starts (l_trace l)) →
  stops (l_trace l') = ((if rep then 1 else 0) + stops (l_trace l))%nat → Inv l'.
Proof.
  intros Hleg Hcap Hst Hsp. constructor.
  - intros q. rewrite Hheap, Hnext, lookup_insert_is_Some', (inv_dom _ HI). lia.
  - apply alloc_state.
  - intros n q. rewrite Hrun. intros [[<- <-]|[_ Hq]]%lookup_insert_Some.
    + exists req, h. split; [|done]. rewrite Htr. apply elem_of_app. by left.
    + destruct (inv_running _ HI _ _ Hq) as (r & h' & ? & ?). exists r, h'. split; [by apply alloc_mono|done].
  - intros r q h' [[= -> -> ->]|[|[[]|Hl]]]%alloc_old; try done.
    + exists (new_state h id rep). by rewrite Hheap, lookup_insert_eq.
    + destruct (inv_launch _ HI _ _ _ Hl) as (st & ? & ?). exists st. by split; [apply alloc_kept|].
  - intros owned active r q st [|[|[[]|Hs]]]%alloc_old Hr Ha Hq Hh; try done.
    destruct (alloc_heap _ _ Hq) as [[-> ->]|[_ Hq']]; [|by eapply (inv_snapshot _ HI owned active r)].
    destruct Huh. right. by exists owned, active, r.
  - rewrite alloc_live, size_union_alt, size_singleton. intros Hm. specialize (Hcap Hm).
    pose proof (subseteq_size (live l ∖ {[l_next l]}) (live l) ltac:(set_solver)). lia.
  - rewrite Hst, Hsp, alloc_unreported, (inv_gauge _ HI). destruct rep; lia.
  - rewrite Hstopped, (inv_stopped _ HI). split; [apply alloc_mono|].
    by intros [|[|[[]|?]]]%alloc_old.
  - intros ev q [->|[->|[[e ->]|Hev]]]%alloc_old Ha; rewrite Hnext; [|done|done|].
    + cbn in Ha. injection Ha as <-. lia.
    + pose proof (inv_events _ HI _ _ Hev Ha). lia.
  - done.
Qed.

Lemma alloc_later : later l l'.
Proof.
  split; [rewrite Hnext; lia|split; [by exists evs|]]. intros q. unfold field, state_of.
  destruct (l_heap l !! q) as [st|] eqn:Eq; [|done]. by rewrite (alloc_kept _ _ Eq).
Qed.
End alloc.

(** A thread refers to a runner that exists. *)
Definition ready (t : thread) (l : Launcher) : Prop :=
  match t with
  | TAwaitExit _ p | TPartial _ p | TShutdownOne _ _ p => (p < l_next l)%nat
  | _ => True
  end.

Lemma ready_later t l l' : ready t l → later l l' → ready t l'.
Proof. destruct t; cbn; try done; intros Hp (? & _); lia. Qed.

(** The names and handles that answers would use are new to a trace. *)
Definition fresh_answers (an : launch_answers) (tr : list obs) : Prop :=
  (∀ name, launch_name an = Some name → ¬ used_name name tr) ∧
  (∀ h, launch_handle an = Some h → ¬ used_handle h tr).

(** What one launch leaves: the invariant, at most one more runner, and only
    its own name and handle used. *)
Definition launched (an : launch_answers) (l l' : Launcher) (sp : list thread) : Prop :=
  Inv l' ∧ later l l' ∧ (size (live l') ≤ S (size (live l)))%nat ∧ stopped l' = stopped l ∧
  Forall (λ t, ready t l') sp ∧
  ∀ an', (∀ name, launch_name an = Some name → launch_name an' ≠ Some name) →
    (∀ h, launch_handle an = Some h → launch_handle an' ≠ Some h) →
    fresh_answers an' (l_trace l) → fresh_answers an' (l_trace l').

Lemma not_launched evs l l' :
  Inv l → l_heap l' = l_heap l → l_next l' = l_next l → running l' = running l → stopped l' = stopped l →
  l_trace l' = evs ++ l_trace l → legal (l_trace l') →
  (∀ ev, ev ∈ evs → plain 0%nat ev ∧ about ev = None) →
  starts (l_trace l') = S (starts (l_trace l)) → stops (l_trace l') = S (stops (l_trace l)) →
  ∀ an, launched an l l' [].
Proof.
  intros HI E1 E2 E3 E4 Et Hleg Hev Hst Hsp an.
  assert (frame 0%nat id evs l l') as Hf.
  { constructor; try done. rewrite E1. symmetry. by apply alter_id. }
  assert (Inv l' ∧ later l l') as [HI' Hl].
  { eapply inv_frame; try done.
    - intros ev ?. by apply Hev.
    - intros ev He Ha. by destruct (Hev ev He).
    - intros st Hst' Hi. split; [by repeat split|]. apply (state_inv_mono _ _ l); [done| | |by rewrite E3].
      + intros ev ?. rewrite Et. apply elem_of_app. by right.
      + intros ev He Hfl. rewrite Et in He. apply elem_of_app in He as [He|?]; [|done].
        destruct (Hev ev He) as [_ Ha]. by rewrite (flagged_about _ _ Hfl) in Ha.
    - rewrite Hst, Hsp, (inv_gauge _ HI), (unreported_frame _ _ _ _ _ Hf); done. }
  split_and!; try done.
  - unfold live. rewrite E1. lia.
  - intros an' _ _ [Hn Hh]. split.
    + intros name Hnm (r & q & Hin & Hr). apply (Hn name Hnm). exists r, q. split; [|done].
      rewrite Et in Hin. apply elem_of_app in Hin as [Hin|?]; [|done]. by destruct (Hev _ Hin) as [[] _].
    + intros h Hhm Hu. apply (Hh h Hhm). destruct Hu as [(r & q & Hin)|(o & a & r & Hin & ? & ?)].
      * left. exists r, q. rewrite Et in Hin. apply elem_of_app in Hin as [Hin|?]; [|done].
        by destruct (Hev _ Hin) as [[] _].
      * right. exists o, a, r. split; [|done]. rewrite Et in Hin.
        apply elem_of_app in Hin as [Hin|?]; [|done]. by destruct (Hev _ Hin) as [[] _].
Qed.

Lemma did_launch an name h id rep req evs l l' sp :
  Inv l → l_heap l' = <[l_next l := new_state h id rep]> (l_heap l) → l_next l' = S (l_next l) →
  running l' = <[name := l_next l]> (running l) → stopped l' = stopped l → l_trace l' = evs ++ l_trace l →
  (∀ ev, ev ∈ evs → ev = OLaunch req (Some (l_next l, h)) ∨ ev = OStart ∨ ∃ e, ev = OStop None (-1) e) →
  OLaunch req (Some (l_next l, h)) ∈ evs → req_Name req = name → id ≠ 0 →
  launch_name an = Some name → launch_handle an = Some h → fresh_answers an (l_trace l) →
  (0 < MaxRunners opts → Z.of_nat (size (live l)) + 1 ≤ MaxRunners opts) →
  legal (l_trace l') → starts (l_trace l') = S (starts (l_trace l)) →
  stops (l_trace l') = ((if rep then 1 else 0) + stops (l_trace l))%nat →
  sp = [TAwaitExit name (l_next l)] ∨ sp = [TPartial name (l_next l)] →
  launched an l l' sp.
Proof.
  intros HI E1 E2 E3 E4 Et Hevs Hin Hnm Hid Han Hah [Hn Hh] Hcap Hleg Hst Hsp Hth.
  pose proof (Hn _ Han) as Hun. pose proof (Hh _ Hah) as Huh. split_and!.
  - by eapply (alloc_inv l name h id rep req evs l').
  - by eapply (alloc_later l name h id rep req evs l').
  - rewrite (alloc_live l name h id rep req evs l') by done.
    rewrite size_union_alt, size_singleton.
    pose proof (subseteq_size (live l ∖ {[l_next l]}) (live l) ltac:(set_solver)). lia.
  - done.
  - destruct Hth as [-> | ->]; (constructor; [cbn; rewrite E2; lia|constructor]).
  - intros an' Hn' Hh' [Hfn Hfh]. split.
    + intros n Hna (r & q & Hi & Hr). destruct (alloc_old l name h id rep req evs l' HI E1 E2 E3 E4 Et Hevs Hin
        Hnm Hid Hun Huh _ Hi) as [[= -> ->]|[|[[]|?]]]; try done.
      * apply (Hn' name); [done|congruence].
      * apply (Hfn n Hna). by exists r, q.
    + intros x Hxa Hu. apply (Hfh x Hxa). destruct Hu as [(r & q & Hi)|(o & a & r & Hi & ? & ?)].
      * destruct (alloc_old l name h id rep req evs l' HI E1 E2 E3 E4 Et Hevs Hin
          Hnm Hid Hun Huh _ Hi) as [[= -> -> ->]|[|[[]|?]]]; try done; [|left; by exists r, q].
        exfalso. by apply (Hh' h).
      * destruct (alloc_old l name h id rep req evs l' HI E1 E2 E3 E4 Et Hevs Hin
          Hnm Hid Hun Huh _ Hi) as [|[|[[]|?]]]; try done. right. by exists o, a, r.
Qed.

Lemma not_started l : Inv l → stopped l = false → OShutdown ∉ l_trace l.
Proof. intros HI Hs H%(inv_stopped _ HI). congruence. Qed.

Ltac plain_events :=
  intros ev Hev; rewrite ?elem_of_cons in Hev;
  repeat match type of Hev with _ ∨ _ => destruct Hev as [->|Hev]; [by split|] end;
  by apply not_elem_of_nil in Hev.

(** The guards of the events of a launch, on a launcher not shut down. *)
Ltac launch_guards HI Hno :=
  cbn [l_trace emit set_seq set_registrations set_maps alloc legal guard];
  repeat match goal with |- _ ∧ _ => split end;
  try first [exact I | exact (inv_legal _ HI) | exact Hno | by intros [|]%elem_of_cons].

Ltac launch_counts :=
  cbn [l_trace emit set_seq set_registrations set_maps alloc];
  rewrite ?starts_cons, ?stops_cons; reflexivity.

(** A failed launch that tracks no runner, by the events it leaves. *)
Ltac failed_launch HI Hno evs :=
  eapply (not_launched evs);
  [done|done|done|done|done|done|launch_guards HI Hno|plain_events|launch_counts|launch_counts].

Lemma launchLocked_inv an l r l' sp :
  Inv l → stopped l = false → fresh_answers an (l_trace l) →
  (0 < MaxRunners opts → Z.of_nat (size (live l)) + 1 ≤ MaxRunners opts) →
  launchLocked opts an l = (r, l', sp) → launched an l l' sp.
Proof.
  intros HI Hs Hf Hcap. pose proof (not_started _ HI Hs) as Hno. unfold launchLocked, launch_failed.
  destruct (shortID (la_rand an)) as [id|e] eqn:Eid.
  2:{ intros [= <- <- <-]. match goal with |- launched _ _ (emit ?o _) _ => failed_launch HI Hno [o; OStart] end. }
  assert (launch_name an = Some (runner_name opts id)) as Hname by (unfold launch_name; by rewrite Eid).
  destruct (la_jit an) as [[jit|]|e].
  2,3: intros [= <- <- <-]; match goal with |- launched _ _ (emit ?o _) _ => failed_launch HI Hno [o; OStart] end.
  destruct (Z.eqb_spec (default 0 (jit_RunnerID jit)) 0) as [|Hid].
  { intros [= <- <- <-]. match goal with |- launched _ _ (emit ?o _) _ => failed_launch HI Hno [o; OStart] end. }
  set (req := launch_request _ _ _ _ _).
  destruct (la_launch an) as [h|[h|] e] eqn:El.
  - intros [= <- <- <-].
    eapply (did_launch an _ h _ false req [OLaunch req (Some (l_next l, h)); OStart]); try done.
    + intros ev. rewrite !elem_of_cons, elem_of_nil. by intros [?|[?|[]]]; auto.
    + by left.
    + unfold launch_handle. by rewrite El.
    + launch_guards HI Hno.
    + by left.
  - intros [= <- <- <-].
    match goal with |- launched _ _ (alloc _ _ (emit ?o _)) _ => idtac | |- launched _ _ (emit ?o _) _ =>
    eapply (did_launch an _ h _ true req [o; OLaunch req (Some (l_next l, h)); OStart]) end; try done.
    + intros ev. rewrite !elem_of_cons, elem_of_nil. intros [?|[?|[?|[]]]]; auto. right. right. by eexists.
    + right. by left.
    + unfold launch_handle. by rewrite El.
    + launch_guards HI Hno.
    + by right.
  - set (l1 := emit (OLaunch req None) _).
    destruct (removeRunner_call (la_remove an) (default 0 (jit_RunnerID jit))
                (ODeregister None (default 0 (jit_RunnerID jit))) l1 Hid) as [err ->].
    subst l1. destruct err as [e'|]; intros [= <- <- <-].
    all: match goal with |- launched _ _ (emit ?o _) _ =>
      failed_launch HI Hno [o; ODeregister None (default 0 (jit_RunnerID jit)) false; OLaunch req None; OStart]
      || failed_launch HI Hno [o; ODeregister None (default 0 (jit_RunnerID jit)) true; OLaunch req None; OStart] end.
Qed.

Lemma launch_loop_inv ans i n l r l' sp :
  Inv l → stopped l = false →
  (∀ k, (i ≤ k)%nat → fresh_answers (ans k) (l_trace l)) →
  (∀ j k name, launch_name (ans j) = Some name → launch_name (ans k) = Some name → j = k) →
  (∀ j k h, launch_handle (ans j) = Some h → launch_handle (ans k) = Some h → j = k) →
  (0 < MaxRunners opts → (0 < n)%nat → Z.of_nat (size (live l)) + Z.of_nat n ≤ MaxRunners opts) →
  launch_loop opts ans i n l = (r, l', sp) →
  Inv l' ∧ later l l' ∧
  Forall (λ t, ready t l') sp.
Proof.
  intros HI Hs Hf Hn Hh Hcap. revert i l r l' sp HI Hs Hf Hcap.
  induction n as [|n IH]; intros i l r l' sp HI Hs Hf Hcap; cbn [launch_loop].
  { intros [= <- <- <-]. split; [done|split; [reflexivity|constructor]]. }
  destruct (launchLocked opts (ans i) l) as [[r1 l1] sp1] eqn:E1.
  destruct (launchLocked_inv (ans i) l r1 l1 sp1) as (H1 & H2 & H3 & H4 & H5 & H6); try done.
  { by apply Hf. }
  { intros Hm. specialize (Hcap Hm ltac:(lia)). lia. }
  destruct r1 as [e|]; [intros [= <- <- <-]; done|].
  destruct (launch_loop opts ans (S i) n l1) as [[r2 l2] sp2] eqn:E2. intros [= <- <- <-].
  destruct (IH (S i) l1 r2 l2 sp2) as (G1 & G2 & G3); try done.
  - congruence.
  - intros k Hk. apply H6; [| |apply Hf; lia].
    + intros name A B. pose proof (Hn _ _ _ A B). lia.
    + intros h A B. pose proof (Hh _ _ _ A B). lia.
  - intros Hm Hp. specialize (Hcap Hm ltac:(lia)). lia.
  - split; [done|split; [by transitivity l1|]]. apply Forall_app. split; [|done].
    eapply Forall_impl; [exact H5|]. intros t Ht. by apply (ready_later _ l1).
Qed.

(** ** Counting *)

Lemma size_list_to_set_le (k : list nat) : (size (list_to_set k : gset nat) ≤ length k)%nat.
Proof.
  induction k as [|x k IH]; [done|]. cbn. rewrite size_union_alt, size_singleton.
  pose proof (subseteq_size ((list_to_set k : gset nat) ∖ {[x]}) (list_to_set k) ltac:(set_solver)). lia.
Qed.

Lemma live_running l : Inv l → Z.of_nat (size (live l)) ≤ runningLocked l.
Proof.
  intros HI. unfold runningLocked. apply inj_le.
  set (k := filter _ (map_to_list (running l))).
  transitivity (size (list_to_set (snd <$> k) : gset nat)).
  2:{ etrans; [apply size_list_to_set_le|]. by rewrite length_fmap. }
  apply subseteq_size. intros p. unfold live. rewrite elem_of_dom. intros [st [Hp Ht]%map_lookup_filter_Some].
  apply elem_of_list_to_set, list_elem_of_fmap. pose proof (inv_state _ HI _ _ Hp) as Hi.
  destruct (si_launch _ _ _ Hi) as (req & _ & Hr).
  assert (cleaned st = false) as Hc.
  { destruct (cleaned st) eqn:E; [|done]. rewrite (si_cleaned_dead _ _ _ Hi E) in Ht. done. }
  exists (req_Name req, p). split; [done|]. apply list_elem_of_filter. split.
  - rewrite (field_state _ _ _ _ _ Hp), (si_occupies _ _ _ Hi). by rewrite Ht.
  - by apply elem_of_map_to_list, Hr.
Qed.

Lemma allowed_room want l :
  Inv l → 0 < MaxRunners opts → (0 < Z.to_nat (allowedLocked opts want l))%nat →
  Z.of_nat (size (live l)) + Z.of_nat (Z.to_nat (allowedLocked opts want l)) ≤ MaxRunners opts.
Proof.
  intros HI Hm. pose proof (live_running l HI). unfold allowedLocked.
  destruct (Z.leb_spec (want - Z.of_nat (size (pendingExits l))) (runningLocked l)); [lia|].
  destruct (Z.ltb_spec 0 (MaxRunners opts)); [|lia].
  destruct (Z.leb_spec (MaxRunners opts - runningLocked l) 0); [lia|].
  destruct (Z.ltb_spec (MaxRunners opts - runningLocked l) (want - Z.of_nat (size (pendingExits l)) - runningLocked l)); lia.
Qed.

Lemma launches_inv want an l r l' sp :
  Inv l → stopped l = false → unique_answers an l →
  launch_loop opts (an_launches an) 0 (Z.to_nat (allowedLocked opts want l)) l = (r, l', sp) →
  Inv l' ∧ later l l' ∧ Forall (λ t, ready t l') sp.
Proof.
  intros HI Hs (H1 & H2 & H3 & H4) E.
  eapply (launch_loop_inv (an_launches an) 0 _ l); try done.
  - intros k _. split; [apply H1|apply H2].
  - intros Hm Hp. by apply allowed_room.
Qed.

(** ** The other actions *)

(** An event that is about no runner, with what the launcher remembers of it. *)
Lemma inv_event ev l l' :
  Inv l → l_heap l' = l_heap l → l_next l' = l_next l → running l' = running l → l_trace l' = ev :: l_trace l →
  guard ev (l_trace l) → silent ev → about ev = None →
  (stopped l' = true ↔ OShutdown ∈ l_trace l') →
  (∀ owned active r p st, ev = OSnapshot owned active → r ∈ owned → ResourceID r ∉ active →
     l_heap l !! p = Some st → handle st = ResourceID r → cleaned st = true) →
  Inv l' ∧ later l l'.
Proof.
  intros HI E1 E2 E3 E4 Hg [Hs1 Hs2] Ha Hstop Hsnap.
  assert (∀ e, e ∈ l_trace l → e ∈ l_trace l') as Hm by (rewrite E4; by right).
  split.
  2:{ split; [by rewrite E2|split; [by exists [ev]|]]. intros p. unfold field, state_of. by rewrite E1. }
  constructor.
  - intros p. rewrite E1, E2. apply HI.
  - intros p st. rewrite E1. intros Hp. apply (state_inv_mono _ _ l); [by apply HI|done| |by rewrite E3].
    intros e He Hf. rewrite E4 in He. apply elem_of_cons in He as [->|?]; [|done].
    by rewrite (flagged_about _ _ Hf) in Ha.
  - intros name p. rewrite E3. intros Hp. destruct (inv_running _ HI _ _ Hp) as (r & h & ? & ?). eauto.
  - intros req p h Hin. rewrite E4 in Hin. rewrite E1. apply elem_of_cons in Hin as [<-|?]; [done|].
    by eapply (inv_launch _ HI).
  - intros owned active r p st Hin Hr Hn Hp Hh. rewrite E1 in Hp. rewrite E4 in Hin.
    apply elem_of_cons in Hin as [<-|?]; [by eapply Hsnap|by eapply (inv_snapshot _ HI owned active r)].
  - unfold live. rewrite E1. apply HI.
  - unfold unreported. rewrite E1, E4, starts_cons, stops_cons, Hs1, Hs2. apply HI.
  - done.
  - intros e p. rewrite E4, E2. intros [->|He]%elem_of_cons; [congruence|by apply (inv_events _ HI)].
  - rewrite E4. split; [done|apply HI].
Qed.

Lemma snapshot_inv `{MapRange} owned l :
  Inv l → Inv (snapshot owned l).2 ∧ later l (snapshot owned l).2.
Proof.
  intros HI. unfold snapshot. cbn [snd]. eapply inv_event; try done.
  - cbn. rewrite elem_of_cons. rewrite (inv_stopped _ HI). split; [by right|by intros [|]].
  - intros o a r p st [= -> <-] _ Hn Hp Hh. destruct (cleaned st) eqn:Hc; [done|]. destruct Hn.
    destruct (si_launch _ _ _ (inv_state _ HI _ _ Hp)) as (req & _ & Hr).
    apply list_elem_of_fmap. exists (req_Name req, p). rewrite (field_state _ _ _ _ _ Hp).
    split; [done|]. by apply elem_of_range, Hr.
Qed.

Lemma shutdown_start_inv `{MapRange} an l r l' sp :
  Inv l → shutdown_start an l = Some (r, l', sp) → Inv l' ∧ later l l' ∧ Forall (λ t, ready t l') sp.
Proof.
  intros HI. unfold shutdown_start. intros [= <- <- <-]. apply and3. split.
  - eapply (inv_event OShutdown); try done. cbn. rewrite elem_of_cons. split; [by left|done].
  - apply Forall_fmap, Forall_forall. intros [name p] Hin. cbn in Hin. apply elem_of_range in Hin. cbn.
    destruct (inv_running _ HI _ _ Hin) as (req & h & Hl & _). apply (inv_dom _ HI).
    destruct (inv_launch _ HI _ _ _ Hl) as (st & -> & _). by eexists.
Qed.

Lemma job_started_inv `{MapRange} job l : Inv l → Inv (job_started job l) ∧ later l (job_started job l).
Proof.
  intros HI. unfold job_started.
  destruct (list_find _ _) as [[i [name p]]|] eqn:E; [|by split].
  apply list_find_Some in E as (Hin%list_elem_of_lookup_2%elem_of_range & _ & _).
  destruct (inv_running _ HI _ _ Hin) as (req & h & Hl & _).
  destruct (inv_launch _ HI _ _ _ Hl) as (st & Hp & _).
  apply (inv_update p set_busy [OBusy p]); [done|by constructor|done| |].
  - constructor; [|constructor]. split_and!; [done|done|done|]. intros _. apply (inv_dom _ HI). by exists st.
  - intros st' _ Hi. split_and!; [by repeat split|done|].
    apply (state_inv_mono _ _ _ (emit (OBusy p) (update set_busy p l))) in Hi as []; try done.
    + constructor; try done. intros _. by left.
    + intros ev ?. by right.
    + by intros ev [->|?]%elem_of_cons.
Qed.

Lemma job_completed_inv `{MapRange} job l : Inv l → Inv (job_completed job l) ∧ later l (job_completed job l).
Proof.
  intros HI. unfold job_completed.
  repeat (case_match; try (split; [done|reflexivity])); by apply inv_maps.
Qed.

Lemma account_inv count l : Inv l → Inv (account count l) ∧ later l (account count l).
Proof.
  intros HI. unfold account. set (names := elements _). clearbody names.
  assert (∀ k, Inv (foldr (λ name l, match running l !! name with
      | Some p => update set_accounted p l | None => l end) l k) ∧
    later l (foldr (λ name l, match running l !! name with
      | Some p => update set_accounted p l | None => l end) l k)) as Hk.
  { induction k as [|name k [IH1 IH2]]; cbn [foldr]; [by split|].
    destruct (running _ !! name) as [p|]; [|done]. destruct (accounted_inv p _ IH1). split; [done|].
    by etrans. }
  destruct (Hk names) as [H1 H2].
  match goal with |- Inv ?x ∧ _ => destruct (inv_maps (foldr (λ name l, match running l !! name with
      | Some p => update set_accounted p l | None => l end) l names) x) as [G1 G2]; try done end.
Qed.
End inv.
