(* ===== verification/ScaleSetSpec.v ===== *)
(** * The scale set launcher: what it promises

    Whatever the listener, the session and the launcher's goroutines do at the
    same time, and whatever GitHub and the backend answer: the trace of the
    launcher is legal, its live runners fit its capacity, and the hooks hear of
    every end once.  Alone and with its calls succeeding, a cleanup ends with
    the runner removed. *)

From S2P Require Import Prelude GoErr GoStr Codec ImageVersions Backend Session Threads ScaleSet ScaleSetInv.

Local Open Scope Z_scope.
Local Open Scope go_scope.

Section spec.
Context `{MapRange}.
Variable opts : Options.
Variable supported : bool.
Variable backend_name : string.

(** The program keeps the invariant and follows the order of histories. *)
Definition keeps_inv {A} (s : Launcher) (p : proc A) (Q : A → Launcher → Prop) : Prop :=
  ok (unique_answers opts) (Inv opts) later ready s p Q.

(** The launcher, with any number of calls served and goroutines running. *)
Definition reaches (c : config Launcher answers thread) : Prop :=
  reachable (thread_body opts supported backend_name) outside_call (unique_answers opts) New c.

(** ** Sections *)

Lemma keeps_bind {A B} s (p : proc A) (g : A → proc B) Q :
  keeps_inv s p (λ a s', keeps_inv s' (g a) Q) → keeps_inv s (pbind p g) Q.
Proof. apply ok_seq, later_preorder. Qed.

Lemma keeps_weaken {A} s (p : proc A) (Q Q' : A → Launcher → Prop) :
  (∀ a u, later s u → Inv opts u → Q a u → Q' a u) → keeps_inv s p Q → keeps_inv s p Q'.
Proof. apply ok_weaken, later_preorder. Qed.

Lemma keeps_later {A} s s' (p : proc A) Q : later s s' → keeps_inv s p Q → keeps_inv s' p Q.
Proof. apply ok_later, later_preorder. Qed.

Lemma keeps_section {R A} s0 (f : Launcher → R * Launcher) (k : R → proc A) Q :
  (∀ s, later s0 s → Inv opts s →
     Inv opts (f s).2 ∧ later s (f s).2 ∧ keeps_inv (f s).2 (k (f s).1) Q) →
  keeps_inv s0 (pbind (section f) k) Q.
Proof.
  intros Hf env s r s' sp Hs Hi _ E. destruct (f s) as [r1 s1] eqn:Ef. injection E as <- <- <-.
  destruct (Hf s Hs Hi) as (H1 & H2 & H3). rewrite Ef in *. split_and!; [done|done|constructor|done].
Qed.

Lemma keeps_section_env {R A} s0 (f : answers → Launcher → R * Launcher) (k : R → proc A) Q :
  (∀ env s, later s0 s → Inv opts s →
     Inv opts (f env s).2 ∧ later s (f env s).2 ∧ keeps_inv (f env s).2 (k (f env s).1) Q) →
  keeps_inv s0 (pbind (section_env f) k) Q.
Proof.
  intros Hf env s r s' sp Hs Hi _ E. destruct (f env s) as [r1 s1] eqn:Ef. injection E as <- <- <-.
  destruct (Hf env s Hs Hi) as (H1 & H2 & H3). rewrite Ef in *. split_and!; [done|done|constructor|done].
Qed.

(** A section that only reads. *)
Lemma keeps_read {R A} s0 (f : Launcher → R) (k : R → proc A) Q :
  (∀ s, later s0 s → Inv opts s → keeps_inv s (k (f s)) Q) →
  keeps_inv s0 (pbind (section (λ l, (f l, l))) k) Q.
Proof. intros Hf. apply keeps_section. intros s Hs Hi. split; [done|split; [reflexivity|by apply Hf]]. Qed.

Lemma keeps_ret {A} s0 (a : A) Q : (∀ s, later s0 s → Inv opts s → Q a s) → keeps_inv s0 (Ret a) Q.
Proof. done. Qed.

Lemma keeps_last {R} s0 (f : Launcher → R * Launcher) :
  (∀ s, later s0 s → Inv opts s → Inv opts (f s).2 ∧ later s (f s).2) →
  keeps_inv s0 (section f) (λ _ _, True).
Proof.
  intros Hf env s r s' sp Hs Hi _ E. destruct (f s) as [r1 s1] eqn:Ef. injection E as <- <- <-.
  destruct (Hf s Hs Hi) as (H1 & H2). rewrite Ef in *. split_and!; [done|done|constructor|done].
Qed.

Lemma keeps_fold {A B} (I : Launcher → Prop) (f : B → A → proc (bool * B)) b l s0 :
  I s0 → (∀ s s', I s → later s s' → I s') →
  (∀ b x s, I s → x ∈ l → keeps_inv s (f b x) (λ _ _, True)) →
  keeps_inv s0 (pfold f b l) (λ _ _, True).
Proof. apply ok_fold, later_preorder. Qed.

Lemma later_dead p s s' : later s s' → dead p (l_trace s) → dead p (l_trace s').
Proof. intros Hl. apply dead_mono. intros ev. by apply later_trace. Qed.

(** ** Cleanup *)

Lemma kill_phase name p terminate s :
  (p < l_next s)%nat → (terminate = false → ∃ code, OWait p code None ∈ l_trace s) →
  keeps_inv s
    (let* kerr := (if terminate then section_env (kill p) else Ret None) in
     match kerr with
     | Some e => Ret (Some (errorf_w ("kill " +:+ name +:+ ": ") e))
     | None => let* _ := section (λ l, (tt, mark_terminated p l)) in Ret None
     end)
    (λ r s', r = None → dead p (l_trace s') ∧ field false terminated p s' = true).
Proof.
  intros Hp Hw. apply keeps_bind.
  assert (∀ u, later s u → dead p (l_trace u) →
    keeps_inv u (let* _ := section (λ l, (tt, mark_terminated p l)) in Ret (None : option goerror))
      (λ r s', r = None → dead p (l_trace s') ∧ field false terminated p s' = true)) as Hmark.
  { intros u Hu Hd. apply keeps_section. intros v Hv Hi. cbn [fst snd].
    destruct (mark_terminated_inv opts p v) as (H1 & H2 & H3); [done| |by eapply later_dead|].
    { destruct Hu as (? & _), Hv as (? & _). lia. }
    split_and!; [done|done|]. apply keeps_ret. intros w Hw' _ _. split.
    - eapply later_dead; [|exact Hd]. by transitivity v; [|transitivity (mark_terminated p v)].
    - by apply Hw'. }
  destruct terminate.
  - intros env u r u' sp Hu Hi _ E. destruct (kill_inv opts p env u) as (H1 & H2 & H3); [done|destruct Hu; lia|].
    destruct (kill p env u) as [r1 u1] eqn:Ek. injection E as <- <- <-. cbn [fst snd] in *.
    split_and!; [done|done|constructor|]. apply keeps_ret. intros v Hv _.
    destruct r1 as [e|]; [by apply keeps_ret|]. apply Hmark; [by transitivity u; [|transitivity u1]|].
    eapply later_dead; [exact Hv|]. left. by apply H3.
  - apply keeps_ret. intros u Hu _. apply Hmark; [done|]. destruct (Hw eq_refl) as [code ?].
    right. exists code. by eapply later_trace.
Qed.

Lemma finish_body_ok name p code err terminate s :
  (p < l_next s)%nat → (terminate = false → ∃ code, OWait p code None ∈ l_trace s) →
  keeps_inv s (finish_body supported backend_name name p code err terminate) (λ _ _, True).
Proof.
  intros Hp Hw. unfold finish_body. apply keeps_section. intros u Hu Hi. cbn [fst snd].
  destruct (start_cleanup_inv opts p code err terminate u) as (H1 & H2 & [b H3]); [done|destruct Hu; lia| |].
  { intros Ht. destruct (Hw Ht) as [c ?]. exists c. by eapply later_trace. }
  split_and!; [done|done|]. set (u1 := start_cleanup p code err terminate u) in *. clearbody u1.
  assert (later s u1) as Hs1 by (by transitivity u). clear Hu Hi H2 u.
  apply keeps_read. intros v Hv Hi. apply keeps_bind.
  apply (keeps_weaken _ _ (λ r s', r = None → dead p (l_trace s') ∧ field false terminated p s' = true)).
  2:{ destruct (field false terminated p v) eqn:Et.
      - apply keeps_ret. intros w Hw' Hiw _. split; [|by apply Hw'].
        eapply later_dead; [exact Hw'|]. unfold field, state_of in Et.
        destruct (l_heap v !! p) as [st|] eqn:Ep; [|done]. by apply (inv_state _ _ Hi _ _ Ep).
      - apply kill_phase; [destruct Hs1, Hv; lia|]. intros Ht. destruct (Hw Ht) as [c ?]. exists c.
        eapply later_trace; [|done]. by transitivity u1. }
  intros kerr w Hvw _ Hk. destruct kerr as [e|]; [by apply keeps_ret|]. destruct (Hk eq_refl) as [Hd Ht].
  assert (later u1 w) as Hw1 by (by transitivity v). clear Hv Hi Hvw Hk v.
  apply keeps_section_env. intros env x Hx Hi.
  destruct (deregister_inv opts p env x) as (G1 & G2 & G3);
    [done|destruct Hs1, Hw1, Hx; lia|by eapply later_dead|exists b; eapply later_trace; [by transitivity w|done]|].
  split_and!; [done|done|]. destruct (deregister p env x) as [derr y]. cbn [fst snd] in *.
  destruct derr as [e|]; [by apply keeps_ret|]. destruct supported; cbn [negb]; [|by apply keeps_ret].
  assert (later w y) as Hy by (by transitivity x). pose proof (G3 eq_refl) as Hc.
  clear Hx Hi G1 G2 G3 x. apply keeps_section_env. intros env' z Hz Hi.
  destruct (remove_resource_inv opts p env' z) as (F1 & F2 & F3); [done|destruct Hs1, Hw1, Hy, Hz; lia| | | |].
  - eapply later_dead; [|exact Hd]. by transitivity y.
  - apply (proj2 (proj2 Hz)), (proj2 (proj2 Hy)). done.
  - destruct Hc as [?|[i ?]]; [left|right; exists i]; by eapply later_trace.
  - split_and!; [done|done|]. destruct (remove_resource p env' z) as [rerr y']. cbn [fst snd] in *.
    destruct rerr as [e|]; [by apply keeps_ret|]. apply keeps_last. intros q Hq Hiq.
    apply forget_inv; [done|]. eapply later_trace; [exact Hq|]. by apply F3.
Qed.

Lemma finishRunner_ok name p code err terminate s :
  (p < l_next s)%nat → (terminate = false → ∃ code, OWait p code None ∈ l_trace s) →
  keeps_inv s (finishRunner supported backend_name name p code err terminate) (λ _ _, True).
Proof.
  intros Hp Hw. unfold finishRunner. intros env u done u' sp Hu Hi _ E.
  assert (u' = update (set_lock true) p u ∧ sp = []) as [-> ->] by (by destruct (field false cleanupMu p u); simplify_eq).
  destruct (lock_inv opts true p u Hi) as [H1 H2]. split_and!; [done|done|constructor|].
  set (v := update _ p u) in *. clearbody v. assert (later s v) as Hv by (by transitivity u). clear Hu Hi E H2 u.
  assert (∀ w r, keeps_inv w (let* _ := unlock_cleanup p in Ret r) (λ (_ : option goerror) _, True)) as Hul.
  { intros w r. apply keeps_section. intros x Hx Hix. destruct (lock_inv opts false p x Hix).
    split_and!; [done|done|by apply keeps_ret]. }
  cbn [pbind]. destruct done; [apply Hul|]. apply keeps_bind.
  eapply keeps_weaken; [|apply finish_body_ok].
  - intros r w _ _ _. apply Hul.
  - destruct Hv; lia.
  - intros Ht. destruct (Hw Ht) as [c ?]. exists c. by eapply later_trace.
Qed.

Lemma retryPendingCleanup_ok s :
  keeps_inv s (retryPendingCleanup supported backend_name) (λ _ _, True).
Proof.
  unfold retryPendingCleanup. apply keeps_read. intros u Hu Hi.
  apply keeps_bind. set (pending := filter _ _).
  apply (keeps_weaken _ _ (λ _ _, True)); [by intros ? ? ? ? _; apply keeps_ret|].
  apply (keeps_fold (λ l, ∀ name p, (name, p) ∈ pending → (p < l_next l)%nat)).
  - intros name p Hin. unfold pending in Hin. apply list_elem_of_filter in Hin as [_ Hin%elem_of_range].
    destruct (inv_running _ _ Hi _ _ Hin) as (req & h & Hl & _). apply (inv_dom _ _ Hi).
    destruct (inv_launch _ _ Hi _ _ _ Hl) as (st & -> & _). by eexists.
  - intros a b Ha [Hb _] name p Hin. specialize (Ha _ _ Hin). lia.
  - intros errs [name p] a Ha Hin. apply keeps_read. intros b Hb Hib. apply keeps_bind.
    eapply keeps_weaken; [|apply finishRunner_ok; [|done]].
    + intros e c Hc Hic _. apply keeps_section_env. intros env d Hd Hid.
      split; [done|split; [reflexivity|by apply keeps_ret]].
    + specialize (Ha _ _ Hin). destruct Hb; lia.
Qed.

(** A registration that no runner state records. *)
Lemma unused_ok (an : answers → option goerror) id (observe : bool → obs) s0 {A} (k : option goerror → proc A) Q :
  (∀ b, about (observe b) = None) → (∀ b, plain 0 (observe b)) → (∀ b, silent (observe b)) →
  (∀ s b, later s0 s → Inv opts s → guard (observe b) (l_trace s)) →
  (∀ s r, later s0 s → (r = None → id ≠ 0 → observe true ∈ l_trace s) → keeps_inv s (k r) Q) →
  keeps_inv s0 (pbind (section_env (λ env, removeRunner (an env) id observe)) k) Q.
Proof.
  intros Ha Hpl Hsi Hg Hk. apply keeps_section_env. intros env s Hs Hi.
  destruct (Z.eqb_spec id 0) as [->|Hid].
  { unfold removeRunner. cbn. split; [done|split; [reflexivity|]]. apply Hk; [done|]. by intros _ []. }
  destruct (removeRunner_call (an env) id observe s Hid) as [err ->]. cbn [fst snd].
  destruct (inv_emit opts 0 (observe (bool_decide (err = None))) s) as [H1 H2]; try done.
  - by apply Hg.
  - by rewrite Ha.
  - intros Hf%flagged_about. by rewrite Ha in Hf.
  - split_and!; [done|done|]. apply Hk; [by transitivity s|]. intros -> _. rewrite bool_decide_true by done. left.
Qed.

Lemma retryPendingRegistrations_ok s : keeps_inv s retryPendingRegistrations (λ _ _, True).
Proof.
  unfold retryPendingRegistrations. apply keeps_read. intros u Hu Hi. apply keeps_bind.
  apply (keeps_weaken _ _ (λ _ _, True)); [by intros ? ? ? ? _; apply keeps_ret|].
  apply (keeps_fold (λ _, True)); [done|done|]. intros errs [id name] a _ _.
  apply unused_ok; try done. intros b r Hb _. destruct r as [e|]; [by apply keeps_ret|].
  apply keeps_section. intros c Hc Hic. cbn [fst snd].
  destruct (inv_maps opts c (set_registrations (delete id (pendingRegistrations c)) c)); try done.
Qed.

(** ** Calls *)

Lemma Running_ok s : keeps_inv s Running (λ _ _, True).
Proof. apply keeps_last. intros u _ Hi. by split. Qed.

Lemma HandleDesired_ok count s :
  keeps_inv s (HandleDesiredRunnerCount opts supported backend_name count) (λ _ _, True).
Proof.
  unfold HandleDesiredRunnerCount. apply keeps_section. intros u Hu Hi.
  destruct (stopped u); cbn [fst snd]; [by split_and!; [|done|apply keeps_ret]|].
  destruct (account_inv opts count u Hi) as [H1 H2]. split_and!; [done|done|].
  assert (∀ v (e : option goerror), keeps_inv v (let* n := Running in Ret (n, e)) (λ _ _, True)) as Hrun.
  { intros v e. apply keeps_read. intros w _ _. by apply keeps_ret. }
  apply keeps_bind. eapply keeps_weaken; [|apply retryPendingRegistrations_ok].
  intros e1 v _ _ _. destruct (isPermanentSessionError e1); [apply Hrun|].
  apply keeps_bind. eapply keeps_weaken; [|apply retryPendingCleanup_ok].
  intros e2 w _ _ _. destruct (isPermanentSessionError e2); [apply Hrun|].
  intros env x r x' sp Hx Hix Hadm E. unfold serve_count in E. destruct (stopped x) eqn:Es.
  - injection E as <- <- <-. split_and!; [done|done|constructor|by apply keeps_ret].
  - destruct (launch_loop _ _ _ _ x) as [[r1 l1] sp1] eqn:El. injection E as <- <- <-.
    destruct (launches_inv opts _ _ _ _ _ _ Hix Es Hadm El) as (G1 & G2 & G3).
    split_and!; [done..|by apply keeps_ret].
Qed.

Lemma awaitExit_ok name p s :
  (p < l_next s)%nat → keeps_inv s (awaitExit opts supported backend_name name p) (λ _ _, True).
Proof.
  intros Hp. unfold awaitExit. apply keeps_section_env. intros env u Hu Hi. cbn [fst snd].
  destruct (an_wait env) as [code err]. cbn [fst snd].
  destruct (inv_emit opts p (OWait p code err) u) as [H1 H2]; try done.
  { intros _. destruct Hu; lia. }
  { by intros []. }
  split_and!; [done|done|]. set (v := emit _ u) in *.
  assert (negb (bool_decide (err = None)) = false → ∃ code, OWait p code None ∈ l_trace v) as Hw.
  { intros He%negb_false_iff%bool_decide_eq_true. subst err. exists code. left. }
  assert (p < l_next v)%nat as Hpv by (destruct Hu, H2; lia). clearbody v. clear Hu Hi H1 H2 u.
  set (clean := _ && _). clearbody clean. apply keeps_bind.
  apply (keeps_weaken _ _ (λ _ _, True)).
  2:{ destruct clean; [|by apply keeps_ret]. apply keeps_last. intros w _ Hiw. unfold pend_exit. cbn [snd].
      case_match; [by apply inv_maps|by split]. }
  intros _ w Hw' _ _. apply keeps_bind. eapply keeps_weaken; [|apply finishRunner_ok].
  - intros _ x _ _ _. destruct clean; [|by apply keeps_ret].
    intros an y r y' sp Hy Hiy Hadm E. unfold refill in E.
    destruct (stopped y) eqn:Es; cbn [orb] in E.
    { injection E as <- <- <-. split_and!; [done|done|constructor|by apply keeps_ret]. }
    destruct (an_cancelled an).
    { injection E as <- <- <-. split_and!; [done|done|constructor|by apply keeps_ret]. }
    destruct (launch_loop _ _ _ _ y) as [[r1 l1] sp1] eqn:El. injection E as <- <- <-.
    destruct (launches_inv opts _ _ _ _ _ _ Hiy Es Hadm El) as (G1 & G2 & G3).
    split_and!; [done..|by apply keeps_ret].
  - destruct Hw'; lia.
  - intros Ht. destruct (Hw Ht) as [c ?]. exists c. by eapply later_trace.
Qed.

Lemma Shutdown_ok s : keeps_inv s Shutdown (λ _ _, True).
Proof.
  unfold Shutdown. intros env u g u' sp Hu Hi _ E.
  destruct (shutdown_start_inv opts env u g u' sp Hi E) as (H1 & H2 & H3).
  split_and!; [done..|]. cbn [pbind]. intros env2 v r v' sp' Hv Hiv _ E'.
  assert (v' = v ∧ sp' = []) as [-> ->].
  { unfold wait_group in E'. repeat case_match; by simplify_eq. }
  split_and!; [done|done|constructor|]. cbn [pbind]. apply keeps_bind.
  eapply keeps_weaken; [|apply retryPendingRegistrations_ok]. intros. by apply keeps_ret.
Qed.

(** A listed resource that no runner of the snapshot had is not needed. *)
Lemma snapshot_unowned owned active r s :
  Inv opts s → OSnapshot owned active ∈ l_trace s → r ∈ owned → ResourceID r ∉ active →
  unowned (ResourceID r) (l_trace s).
Proof.
  intros Hi Hs Hr Ha req p Hl. destruct (inv_launch _ _ Hi _ _ _ Hl) as (st & Hp & Hh).
  apply (si_cleaned _ _ _ (inv_state _ _ Hi _ _ Hp)).
  by eapply (inv_snapshot _ _ Hi owned active r).
Qed.

Lemma reconcile_ok s : keeps_inv s (reconcile supported backend_name) (λ _ _, True).
Proof.
  unfold reconcile. destruct supported; cbn [negb]; [|by apply keeps_ret].
  apply keeps_section_env. intros env u Hu Hi. cbn [fst snd]. split; [done|split; [reflexivity|]].
  destruct (an_list env) as [owned|e]; [|by apply keeps_ret].
  apply keeps_section. intros v Hv Hiv. destruct (snapshot_inv opts owned v Hiv) as [H1 H2].
  split_and!; [done|done|]. unfold snapshot. cbn [fst snd].
  set (active := _ <$> range (running v)). clearbody active.
  apply keeps_bind. apply (keeps_weaken _ _ (λ _ _, True)); [intros; by apply keeps_ret|].
  apply (keeps_fold (λ l, OSnapshot owned active ∈ l_trace l)).
  - left.
  - intros a b Ha Hb. by eapply later_trace.
  - intros [n errs] r a Ha Hr. destruct (bool_mem (ResourceID r) active) eqn:Eb; [by apply keeps_ret|].
    assert (ResourceID r ∉ active) as Hn by (intros Hx%bool_mem_true; congruence).
    apply unused_ok; try done.
    { intros b bo Hb Hib. eapply snapshot_unowned; try done. by eapply later_trace. }
    intros b e Hb Hrec. destruct e as [e|]; [by apply keeps_ret|].
    apply keeps_section_env. intros env' c Hc Hic. cbn [fst snd]. apply and3. split.
    + apply (inv_emit opts 0); try done; [|by intros []]. split.
      * eapply snapshot_unowned; try done. eapply later_trace; [|done]. by transitivity b.
      * intros Hid. eapply later_trace; [exact Hc|]. by apply Hrec.
    + destruct (an_removeOwned env'); by apply keeps_ret.
Qed.

Lemma discard_ok {A} (p : proc A) s : keeps_inv s p (λ _ _, True) → keeps_inv s (discard p) (λ _ _, True).
Proof. intros Hp. apply keeps_bind. eapply keeps_weaken; [|exact Hp]. intros. by apply keeps_ret. Qed.

Lemma thread_ok t s : ready t s → keeps_inv s (thread_body opts supported backend_name t) (λ _ _, True).
Proof.
  destruct t as [name p|name p|g name p|count|job|job| | |]; cbn [thread_body ready]; intros Hp.
  - by apply awaitExit_ok.
  - by apply discard_ok, finishRunner_ok.
  - apply keeps_bind. eapply keeps_weaken; [|by apply finishRunner_ok].
    intros e u _ _ _. apply keeps_last. intros v _ Hv. by apply inv_maps.
  - apply discard_ok, HandleDesired_ok.
  - destruct job as [job|]; [|by apply keeps_ret]. apply keeps_last. intros u _ Hu. by apply job_started_inv.
  - destruct job as [job|]; [|by apply keeps_ret]. apply keeps_last. intros u _ Hu. by apply job_completed_inv.
  - apply discard_ok, Running_ok.
  - apply discard_ok, Shutdown_ok.
  - apply discard_ok, reconcile_ok.
Qed.

Lemma New_inv : Inv opts New.
Proof.
  constructor; cbn; try done.
  - intros p. rewrite lookup_empty. split; [by intros []|lia].
  - intros req p h Hin. by apply not_elem_of_nil in Hin.
  - intros Hm. unfold live. cbn. rewrite map_filter_empty, dom_empty_L, size_empty. lia.
  - split; [done|]. intros Hin. by apply not_elem_of_nil in Hin.
  - intros ev p Hin. by apply not_elem_of_nil in Hin.
Qed.

Lemma reaches_inv c : reaches c → Inv opts (mem c).
Proof.
  intros Hc. eapply (reachable_inv _ _ _ (Inv opts) later ready later_preorder ready_later New);
    [exact New_inv|exact thread_ok| |exact Hc].
  by intros [].
Qed.

(** ** The promises *)

(** C1: whatever the listener, the session and the launcher's goroutines do
    at the same time, every event of the trace is allowed when it happens.
    Nothing is launched once [Shutdown] has begun; a runner's registration and
    resource are only removed after the runner was killed or exited, the
    registration first and once, and not at all when the runner exited by
    itself while it was busy; [OnStop] hears of a runner once, after its end;
    and reconciliation never touches a resource that a runner of this launcher
    still needs. *)
Theorem launcher_trace_legal (c : config Launcher answers thread) (Hc : reaches c) :
  legal (l_trace (mem c)).
Proof. apply (inv_legal _ _ (reaches_inv c Hc)). Qed.

(** C2: with a cap on the runners, the runners that were launched and are not
    known to be gone are never more than the cap, however the demand, refills
    and shutdown interleave, also when launches fail half way. *)
Theorem launcher_capacity (c : config Launcher answers thread) (Hc : reaches c) :
  0 < MaxRunners opts → Z.of_nat (size (live (mem c))) ≤ MaxRunners opts.
Proof. apply (inv_capacity _ _ (reaches_inv c Hc)). Qed.

(** The hooks keep an exact count: the calls of [OnStart] are those of
    [OnStop] and one for each runner whose end was not reported yet, and such
    a runner is still live. *)
Theorem launcher_gauge (c : config Launcher answers thread) (Hc : reaches c) :
  starts (l_trace (mem c)) = (stops (l_trace (mem c)) + size (unreported (mem c)))%nat ∧
  unreported (mem c) ⊆ live (mem c).
Proof.
  pose proof (reaches_inv c Hc) as Hi. split; [apply (inv_gauge _ _ Hi)|].
  intros p. unfold unreported, live. rewrite !elem_of_dom. intros [st [Hp Hs]%map_lookup_filter_Some].
  exists st. apply map_lookup_filter_Some. split; [done|].
  by apply (si_reported _ _ _ (inv_state _ _ Hi _ _ Hp)).
Qed.
End spec.

(** ** A run *)

Definition demo_opts : Options :=
  {| opt_ScaleSetID := 7; opt_Image := "runner"; opt_WorkFolder := "_work"; opt_Labels := []; opt_Env := ∅;
     opt_Mounts := []; opt_Container := {| CPUCount := 0; cs_MemoryBytes := 0; cs_MemorySwapBytes := 0; cs_DNS := [] |};
     MaxRunners := 1; opt_Ownership := Ownership "host" "https://github.com/o/r" "linux" 7 0 |}.

Definition no_launch : launch_answers :=
  {| la_rand := Err (errorf "no entropy"); la_jit := Ok None; la_launch := LaunchFailed None (errorf "down");
     la_remove := None |}.

(** Calls succeed, and a launch fails. *)
Definition quiet : answers :=
  {| an_launches := λ _, no_launch; an_wait := (0, None); an_kill := None; an_remove := None;
     an_removeOwned := None; an_list := Ok []; an_cancelled := false |}.

(** One launch succeeds. *)
Definition one_launch : answers :=
  {| an_launches := λ i, match i with
       | O => {| la_rand := Ok "8bytes!!"; la_jit := Ok (Some {| jit_RunnerID := Some 41; jit_Encoded := "jit" |});
                 la_launch := Launched "c0ffee"; la_remove := None |}
       | _ => no_launch
       end;
     an_wait := (0, None); an_kill := None; an_remove := None; an_removeOwned := None; an_list := Ok [];
     an_cancelled := false |}.

Lemma quiet_unique opts l : unique_answers opts quiet l.
Proof. by split_and!. Qed.

Definition untouched (tr : list obs) : bool :=
  forallb (λ ev, match ev with OLaunch _ (Some _) | OSnapshot _ _ => false | _ => true end) tr.

Lemma one_launch_unique opts l : untouched (l_trace l) = true → unique_answers opts one_launch l.
Proof.
  unfold untouched. rewrite forallb_forall. intros Ht.
  assert (∀ ev, ev ∈ l_trace l → match ev with OLaunch _ (Some _) | OSnapshot _ _ => False | _ => True end) as Hno.
  { intros ev Hev%list_elem_of_In%Ht. by destruct ev as [| |? []| | | | | | | | | |]. }
  split_and!.
  - intros i name _ (r & q & Hin & _). by apply Hno in Hin.
  - intros i h _ [(r & q & Hin)|(o & a & r & Hin & _)]; by apply Hno in Hin.
  - by intros [|i] [|j] name.
  - by intros [|i] [|j] h.
Qed.

(** GitHub asks for one runner, and it starts; it runs a job, exits, and is
    cleaned up. *)
Definition demo_before : list (thread + nat * answers) :=
  inl (THandleDesired 1) :: replicate 3 (inr (0%nat, quiet)).
Definition demo_launch : list (thread + nat * answers) := [inr (0%nat, one_launch)].
Definition demo_after : list (thread + nat * answers) :=
  [inl (TJobStarted (Some {| job_RunnerID := 41; job_RunnerName := "" |})); inr (2%nat, quiet)] ++
  replicate 11 (inr (1%nat, quiet)).

Definition demo_run (sched : list (thread + nat * answers)) : config Launcher answers thread :=
  default (Config New []) (run (thread_body demo_opts true "docker") sched (Config New [])).

Definition quiet_step (x : thread + nat * answers) : Prop :=
  match x with inl t => outside_call t | inr (_, env) => env = quiet end.

Lemma quiet_schedule sched :
  Forall quiet_step sched →
  Forall (λ x : thread + nat * answers,
    match x with inl t => outside_call t | inr (_, env) => ∀ s, unique_answers demo_opts env s end) sched.
Proof.
  intros H. eapply Forall_impl; [exact H|]. intros [t|[i env]]; [done|]. intros -> s. apply quiet_unique.
Qed.

Lemma demo_reaches sched :
  run (thread_body demo_opts true "docker") (demo_before ++ demo_launch ++ sched) (Config New [])
    = Some (demo_run (demo_before ++ demo_launch ++ sched)) →
  Forall quiet_step sched →
  reaches demo_opts true "docker" (demo_run (demo_before ++ demo_launch ++ sched)).
Proof.
  intros Hr Hs. eapply (run_reachable _ _ _ _ _ (Config New [])); [apply reach_init| |exact Hr].
  apply admitted_app.
  { apply admitted_always, quiet_schedule. repeat constructor. }
  intros c1 H1. apply admitted_app; [|intros c2 _; by apply admitted_always, quiet_schedule].
  split; [|by destruct (run_step _ _ c1)]. apply one_launch_unique.
  assert (option_map (λ c, untouched (l_trace (mem c)))
            (run (thread_body demo_opts true "docker") demo_before (Config New [])) = Some true) as E
    by (vm_compute; reflexivity).
  rewrite H1 in E. by injection E.
Qed.

Lemma launcher_trace_legal_witness :
  legal (l_trace (mem (demo_run (demo_before ++ demo_launch ++ demo_after)))) ∧
  ORemove 0 true ∈ l_trace (mem (demo_run (demo_before ++ demo_launch ++ demo_after))).
Proof.
  split; [|vm_compute; repeat first [left; reflexivity | right]].
  apply (launcher_trace_legal demo_opts true "docker").
  apply demo_reaches; [vm_compute; reflexivity|repeat constructor].
Defined.

Lemma launcher_capacity_witness :
  size (live (mem (demo_run (demo_before ++ demo_launch ++ [])))) = 1%nat ∧
  Z.of_nat (size (live (mem (demo_run (demo_before ++ demo_launch ++ []))))) ≤ MaxRunners demo_opts.
Proof.
  split; [vm_compute; reflexivity|]. apply (launcher_capacity demo_opts true "docker").
  - apply demo_reaches; [vm_compute; reflexivity|constructor].
  - reflexivity.
Defined.

Lemma launcher_gauge_witness :
  starts (l_trace (mem (demo_run (demo_before ++ demo_launch ++ [])))) = 1%nat ∧
  starts (l_trace (mem (demo_run (demo_before ++ demo_launch ++ []))))
    = (stops (l_trace (mem (demo_run (demo_before ++ demo_launch ++ []))))
       + size (unreported (mem (demo_run (demo_before ++ demo_launch ++ [])))))%nat.
Proof.
  split; [vm_compute; reflexivity|]. apply (launcher_gauge demo_opts true "docker").
  apply demo_reaches; [vm_compute; reflexivity|constructor].
Defined.
