(* ===== verification/ScaleSetServe.v ===== *)
(** * The scale set launcher: cleanup converges, demand is served

    What the launcher achieves when its calls succeed: a cleanup ends with the
    runner gone, and a desired count is served up to the capacity. *)

From S2P Require Import Prelude GoErr GoStr Codec ImageVersions Backend Session Threads ScaleSet ScaleSetInv ScaleSetSpec.

Local Open Scope Z_scope.
Local Open Scope go_scope.

(** The calls of a cleanup succeed; a registration may be gone already. *)
Record good_cleanup (env : answers) : Prop := {
  gc_kill : an_kill env = None;
  gc_remove : an_remove env = None ∨
    ∃ e, an_remove env = Some e ∧
      (errors_is "scaleset.RunnerNotFoundError" e || isHTTPStatus (Some e) "404" = true);
  gc_owned : an_removeOwned env = None
}.

(** Only the state of [p] changes. *)
Definition changes (p : nat) (st' : runnerState) (l l' : Launcher) : Prop :=
  l_heap l' = <[p := st']> (l_heap l) ∧ running l' = running l.

Section converge.
Context `{MapRange}.

Lemma changes_trans p a b l l' l'' : changes p a l l' → changes p b l' l'' → changes p b l l''.
Proof. intros [H1 R1] [H2 R2]. split; [by rewrite H2, H1, insert_insert_eq|by rewrite R2]. Qed.

Lemma changes_lookup p st l l' : changes p st l l' → l_heap l' !! p = Some st.
Proof. intros [-> _]. by rewrite lookup_insert_eq. Qed.

Lemma changes_none p st l : l_heap l !! p = Some st → changes p st l l.
Proof. intros Hp. split; [by rewrite insert_id|done]. Qed.

Lemma changes_update p st f l : l_heap l !! p = Some st → changes p (f st) l (update f p l).
Proof. intros Hp. split; [|done]. cbn. by apply alter_insert_Some || (apply map_eq; intros q; destruct (decide (q = p)) as [->|]; rewrite ?lookup_alter_eq, ?lookup_insert_eq, ?lookup_alter_ne, ?lookup_insert_ne, ?Hp by done). Qed.

Lemma changes_emit p st l l' ev : changes p st l l' → changes p st l (emit ev l').
Proof. by intros []. Qed.

Lemma exec_section {R A} env (f : Launcher → R * Launcher) (k : R → proc A) l :
  exec_with env (pbind (section f) k) l = exec_with env (k (f l).1) (f l).2.
Proof. cbn. by destruct (f l). Qed.

Lemma exec_section_env {R A} env (f : answers → Launcher → R * Launcher) (k : R → proc A) l :
  exec_with env (pbind (section_env f) k) l = exec_with env (k (f env l).1) (f env l).2.
Proof. cbn. by destruct (f env l). Qed.

Lemma start_effect p code err terminate l st :
  l_heap l !! p = Some st →
  ∃ st', changes p st' l (start_cleanup p code err terminate l) ∧
    cleanupMu st' = cleanupMu st ∧ terminated st' = terminated st.
Proof.
  intros Hp. unfold start_cleanup. rewrite !(field_state _ _ _ _ _ Hp).
  destruct (cleanupStarted st); cbn [negb].
  - destruct terminate; cbn [negb]; [exists st; by split; [apply changes_none|]|].
    eexists. split; [by apply changes_update|done].
  - eexists. split; [by apply changes_emit, changes_update|done].
Qed.

Lemma mark_effect p l st :
  l_heap l !! p = Some st → changes p (set_terminated st) l (mark_terminated p l).
Proof.
  intros Hp. unfold mark_terminated. destruct (negb _); [by apply changes_emit, changes_update|by apply changes_update].
Qed.

Lemma deregister_effect env p l st :
  good_cleanup env → l_heap l !! p = Some st →
  ∃ st', (deregister p env l).1 = None ∧ changes p st' l (deregister p env l).2 ∧
    cleanupMu st' = cleanupMu st ∧ terminated st' = terminated st.
Proof.
  intros Hg Hp. unfold deregister. rewrite !(field_state _ _ _ _ _ Hp).
  destruct (_ && _); [|exists st; by split_and!; [|apply changes_none| |]].
  unfold removeRunner. destruct (runnerID st =? 0).
  { exists (set_removed st). split_and!; [done|by apply changes_update|done|done]. }
  assert (match an_remove env with
          | Some e => if errors_is "scaleset.RunnerNotFoundError" e || isHTTPStatus (Some e) "404" then None else Some e
          | None => None end = None) as ->.
  { destruct (gc_remove _ Hg) as [->|(e & -> & ->)]; done. }
  exists (set_removed st). split_and!; [done| |done|done]. cbn [snd].
  exact (changes_update p st set_removed (emit _ l) Hp).
Qed.

(** [finishRunner] alone, its calls succeeding, on a runner not cleaned up. *)
Lemma finish_body_effect env backend_name name p code err terminate l st :
  good_cleanup env → l_heap l !! p = Some st →
  ∃ st' l', exec_with env (finish_body true backend_name name p code err terminate) l = Some (waitErr st', l') ∧
    l_heap l' = <[p := st']> (l_heap l) ∧ cleaned st' = true ∧ cleanupMu st' = cleanupMu st ∧
    running l' = (if bool_decide (running l !! name = Some p) then delete name (running l) else running l).
Proof.
  intros Hg Hp. unfold finish_body. rewrite exec_section. cbn [fst snd].
  destruct (start_effect p code err terminate l st Hp) as (st1 & H1 & M1 & T1).
  set (l1 := start_cleanup _ _ _ _ l) in *. clearbody l1. pose proof (changes_lookup _ _ _ _ H1) as P1.
  rewrite exec_section. cbn [fst snd]. rewrite (field_state _ _ _ _ _ P1).
  rewrite exec_with_bind. 
  assert (∃ st2 l2, exec_with env
     (if terminated st1 then Ret None
     else
       let* kerr := (if terminate then section_env (kill p) else Ret None) in
       match kerr with
       | Some e => Ret (Some (errorf_w ("kill " +:+ name +:+ ": ") e))
       | None => let* _ := section (λ l, (tt, mark_terminated p l)) in Ret None
       end) l1 = Some (None, l2) ∧ changes p st2 l l2 ∧ cleanupMu st2 = cleanupMu st) as (st2 & l2 & -> & H2 & M2).
  { destruct (terminated st1); [by exists st1, l1|]. destruct terminate.
    - cbn. rewrite (gc_kill _ Hg). cbn. exists (set_terminated st1), (mark_terminated p (emit (OKill p true) l1)).
      split_and!; [done| |done]. eapply changes_trans; [exact H1|].
      change (changes p (set_terminated st1) (emit (OKill p true) l1) (mark_terminated p (emit (OKill p true) l1))).
      by apply mark_effect.
    - cbn. exists (set_terminated st1), (mark_terminated p l1). split_and!; [done| |done].
      eapply changes_trans; [exact H1|]. by apply mark_effect. }
  rewrite exec_section_env. pose proof (changes_lookup _ _ _ _ H2) as P2.
  destruct (deregister_effect env p l2 st2 Hg P2) as (st3 & -> & H3 & M3 & _).
  set (l3 := (deregister p env l2).2) in *. clearbody l3. pose proof (changes_trans _ _ _ _ _ _ H2 H3) as H3'.
  pose proof (changes_lookup _ _ _ _ H3') as P3. cbn [negb]. rewrite exec_section_env.
  unfold remove_resource. rewrite (gc_owned _ Hg). cbn [fst snd].
  rewrite bool_decide_true by done.
  assert (changes p (set_cleaned st3) l (update set_cleaned p (emit (ORemove p true) l3))) as H4.
  { eapply changes_trans; [exact H3'|]. exact (changes_update p st3 set_cleaned (emit _ l3) P3). }
  set (l4 := update set_cleaned p _) in *. clearbody l4.
  pose proof (changes_lookup _ _ _ _ H4) as P4. destruct H4 as [E4 R4].
  exists (set_cleaned st3), (forget name p l4).2. unfold section, atomically, forget. cbn [fst snd exec_with].
  rewrite !(field_state _ _ _ _ _ P4), R4. split_and!; [done| |done|cbn; congruence|].
  - case_bool_decide; exact E4.
  - case_bool_decide; [done|exact R4].
Qed.

(** C39: a cleanup converges: whatever earlier attempts got done, when the kill,
    the deregistration (or the news that the registration is gone) and the
    removal of the resource succeed, [finishRunner] returns, hands back the
    runner's own exit error, leaves the runner marked clean and its lock free,
    and the name no longer maps to it; every other runner is untouched. *)
Theorem finishRunner_converges env backend_name name (p : nat) code err terminate l st :
  good_cleanup env → l_heap l !! p = Some st → cleanupMu st = false → cleaned st = false →
  ∃ st' l', exec_with env (finishRunner true backend_name name p code err terminate) l = Some (waitErr st', l') ∧
    l_heap l' = <[p := st']> (l_heap l) ∧ cleaned st' = true ∧ cleanupMu st' = false ∧
    running l' !! name ≠ Some p ∧ ∀ n, n ≠ name → running l' !! n = running l !! n.
Proof.
  intros Hg Hp Hm Hc. unfold finishRunner, lock_cleanup. cbn [pbind atomically exec_with].
  rewrite !(field_state _ _ _ _ _ Hp), Hm, Hc.
  pose proof (changes_update p st (set_lock true) l Hp) as H1.
  set (l1 := update (set_lock true) p l) in *. clearbody l1. pose proof (changes_lookup _ _ _ _ H1) as P1.
  destruct (finish_body_effect env backend_name name p code err terminate l1 _ Hg P1)
    as (st2 & l2 & E2 & H2 & C2 & M2 & R2).
  rewrite exec_with_bind, E2. unfold unlock_cleanup. rewrite exec_section. cbn [fst snd exec_with].
  assert (l_heap l2 !! p = Some st2) as P2 by (by rewrite H2, lookup_insert_eq).
  exists (set_lock false st2), (update (set_lock false) p l2).
  assert (running (update (set_lock false) p l2) = running l2) as -> by done.
  rewrite R2, (proj2 H1). split_and!; try done.
  - rewrite (proj1 (changes_update p st2 (set_lock false) l2 P2)), H2, (proj1 H1). by rewrite !insert_insert_eq.
  - destruct (decide (running l !! name = Some p)) as [Hr|Hr].
    + by rewrite bool_decide_true, lookup_delete_eq by done.
    + by rewrite bool_decide_false.
  - intros n Hn. destruct (decide (running l !! name = Some p)) as [Hr|Hr].
    + by rewrite bool_decide_true, lookup_delete_ne by done.
    + by rewrite bool_decide_false.
Qed.
End converge.

Lemma finishRunner_converges_witness :
  let l := mem (demo_run (demo_before ++ demo_launch ++ [])) in
  ∃ st' l', exec_with quiet (finishRunner true "docker" "mr-scaleset-7-3862797465732121" 0 (-1) None true) l
      = Some (waitErr st', l') ∧ cleaned st' = true ∧ running l' !! "mr-scaleset-7-3862797465732121" ≠ Some 0%nat.
Proof.
  intros l. destruct (finishRunner_converges quiet "docker" "mr-scaleset-7-3862797465732121" 0 (-1) None true l
    {| handle := "c0ffee"; runnerID := 41; busy := false; completionAccounted := false; occupiesCapacity := true;
       cleanupStarted := false; needsDeregistration := false; registrationRemoved := false; cleanupMu := false;
       terminated := false; cleaned := false; stopReported := false; exitCode := 0; waitErr := None |})
    as (st' & l' & E & _ & Hc & _ & Hr & _).
  - constructor; [reflexivity|left; reflexivity|reflexivity].
  - vm_compute. reflexivity.
  - reflexivity.
  - reflexivity.
  - by exists st', l'.
Defined.

(** ** Serving a count *)

(** The calls of a launch succeed. *)
Definition successful (an : launch_answers) : Prop :=
  ∃ b jit id h, la_rand an = Ok b ∧ la_jit an = Ok (Some jit) ∧ jit_RunnerID jit = Some id ∧ id ≠ 0 ∧
    la_launch an = Launched h.

Section serve.
Context `{MapRange}.
Variable opts : Options.

(** The map of running runners refers to states that exist. *)
Definition well_mapped (l : Launcher) : Prop :=
  ∀ name q, running l !! name = Some q → (q < l_next l)%nat.

Lemma runningLocked_alloc name h id rep l l' :
  well_mapped l → running l !! name = None →
  l_heap l' = <[l_next l := new_state h id rep]> (l_heap l) → running l' = <[name := l_next l]> (running l) →
  runningLocked l' = runningLocked l + 1.
Proof.
  intros Hw Hn E1 E2. unfold runningLocked. rewrite E2.
  assert (∀ k : list (string * nat), (∀ x, x ∈ k → (x.2 < l_next l)%nat) →
    length (filter (λ '(_, p), field false occupiesCapacity p l' = true) k) =
    length (filter (λ '(_, p), field false occupiesCapacity p l = true) k)) as Hk.
  { induction k as [|[n q] k IH]; intros Hq; [done|].
    assert (field false occupiesCapacity q l' = field false occupiesCapacity q l) as E.
    { unfold field, state_of. rewrite E1, lookup_insert_ne; [done|].
      specialize (Hq (n, q) ltac:(left)). cbn in Hq. lia. }
    specialize (IH ltac:(intros x Hx; apply Hq; by right)).
    destruct (decide (field false occupiesCapacity q l = true)) as [Hd|Hd].
    - rewrite !filter_cons_True by (cbn; congruence). cbn [length]. by rewrite IH.
    - rewrite !filter_cons_False by (cbn; congruence). done. }
  assert (filter (λ '(_, p), field false occupiesCapacity p l' = true) (map_to_list (<[name:=l_next l]> (running l)))
    ≡ₚ filter (λ '(_, p), field false occupiesCapacity p l' = true) ((name, l_next l) :: map_to_list (running l))) as ->.
  { by rewrite map_to_list_insert. }
  rewrite filter_cons_True by (by unfold field, state_of; rewrite E1, lookup_insert_eq).
  cbn [length]. rewrite Hk; [lia|]. intros [n q] Hin%elem_of_map_to_list. by apply (Hw n).
Qed.

Lemma launch_success an l :
  successful an → well_mapped l → (∀ name, launch_name opts an = Some name → running l !! name = None) →
  ∃ l' t, launchLocked opts an l = (None, l', [t]) ∧ runningLocked l' = runningLocked l + 1 ∧
    well_mapped l' ∧ (∀ n, launch_name opts an ≠ Some n → running l !! n = None → running l' !! n = None).
Proof.
  intros (b & jit & id & h & Hr & Hj & Hi & Hid & Hl) Hw Hn. unfold launchLocked, launch_name, shortID in *.
  rewrite Hr, Hj, Hi, Hl in *. cbn [default from_option Datatypes.id] in *. destruct (Z.eqb_spec id 0); [done|].
  eexists _, _. split; [reflexivity|]. split; [|split].
  - eapply runningLocked_alloc; [exact Hw|by apply Hn|done|done].
  - intros n' q. cbn. intros [[<- <-]|[_ Hq]]%lookup_insert_Some; [lia|]. apply Hw in Hq. lia.
  - intros m Hm Hnone. cbn. rewrite lookup_insert_ne; [done|intros E; apply Hm; rewrite <- E; reflexivity].
Qed.

Lemma launches_success an i n l :
  (∀ k, successful (an k)) → well_mapped l →
  (∀ k name, (i ≤ k)%nat → launch_name opts (an k) = Some name → running l !! name = None) →
  (∀ j k name, launch_name opts (an j) = Some name → launch_name opts (an k) = Some name → j = k) →
  ∃ l' sp, launch_loop opts an i n l = (None, l', sp) ∧ runningLocked l' = runningLocked l + Z.of_nat n ∧
    length sp = n.
Proof.
  intros Hs Hw Hf Hu. revert i l Hw Hf. induction n as [|n IH]; intros i l Hw Hf; cbn [launch_loop].
  { exists l, []. split_and!; [done|lia|done]. }
  destruct (launch_success (an i) l (Hs i) Hw) as (l1 & t & E1 & R1 & W1 & F1).
  { intros name. by apply Hf. }
  rewrite E1. destruct (IH (S i) l1 W1) as (l2 & sp & E2 & R2 & L2).
  { intros k name Hk Hnm. apply F1; [|apply (Hf k); [lia|done]]. intros Hi.
    pose proof (Hu _ _ _ Hi Hnm). lia. }
  rewrite E2. exists l2, ([t] ++ sp). split_and!; [done|lia|]. cbn. by rewrite L2.
Qed.
End serve.

(** In any state a launcher that is not shut down can be in, when the
    launches succeed, the section that serves a desired count starts one
    goroutine per missing runner and reports as many runners as are asked for,
    the exits GitHub still counts left out, but no more than the cap, and never
    fewer than were running. *)
Theorem serve_count_exact `{MapRange} opts supported backend_name c count env :
  reaches opts supported backend_name c → stopped (mem c) = false →
  unique_answers opts env (mem c) → (∀ i, successful (an_launches env i)) →
  let have := runningLocked (mem c) in
  let want := count - Z.of_nat (size (pendingExits (mem c))) in
  let n := Z.max have (if 0 <? MaxRunners opts then Z.min want (MaxRunners opts) else want) in
  ∃ l' sp, serve_count opts count env (mem c) = Some ((n, None), l', sp) ∧
    runningLocked l' = n ∧ Z.of_nat (length sp) = n - have.
Proof.
  intros Hc Hs (Hu1 & _ & Hu2 & _) Hok have want n. pose proof (reaches_inv _ _ _ _ Hc) as Hi.
  set (l := mem c) in *. unfold serve_count. rewrite Hs.
  destruct (launches_success opts (an_launches env) 0 (Z.to_nat (allowedLocked opts count l)) l)
    as (l' & sp & E & R & L); try done.
  - intros name q Hq. apply (inv_dom _ _ Hi). destruct (inv_running _ _ Hi _ _ Hq) as (r & h & Hl & _).
    destruct (inv_launch _ _ Hi _ _ _ Hl) as (st & -> & _). by eexists.
  - intros k name _ Hnm. destruct (running l !! name) as [q|] eqn:Eq; [|done].
    destruct (Hu1 _ _ Hnm). destruct (inv_running _ _ Hi _ _ Eq) as (r & h & ? & ?). by exists r, (q, h).
  - assert (Z.of_nat (Z.to_nat (allowedLocked opts count l)) = n - have) as En.
    { unfold n, allowedLocked. fold have want. assert (0 ≤ have) by (unfold have, runningLocked; lia).
      destruct (Z.leb_spec want have); [destruct (Z.ltb_spec 0 (MaxRunners opts)); lia|].
      destruct (Z.ltb_spec 0 (MaxRunners opts)); [|lia].
      destruct (Z.leb_spec (MaxRunners opts - have) 0); [lia|].
      destruct (Z.ltb_spec (MaxRunners opts - have) (want - have)); lia. }
    rewrite E. exists l', sp. cbn. fold have in R. rewrite R, En, L, En.
    replace (have + (n - have)) with n by lia. done.
Qed.

(** Launches that all succeed. *)
Definition marks (i : nat) : string := Nat.iter i (String "x") "".

Definition all_launch : answers :=
  {| an_launches := λ i, {| la_rand := Ok (marks i);
                            la_jit := Ok (Some {| jit_RunnerID := Some (Z.of_nat i + 1); jit_Encoded := "jit" |});
                            la_launch := Launched (marks i); la_remove := None |};
     an_wait := (0, None); an_kill := None; an_remove := None; an_removeOwned := None; an_list := Ok [];
     an_cancelled := false |}.

Lemma marks_inj i j : marks i = marks j → i = j.
Proof.
  assert (∀ n, String.length (marks n) = n) as Hl by
    (induction n as [|n IH]; [done|]; change (S (String.length (marks n)) = S n); by rewrite IH).
  intros E. by rewrite <- (Hl i), E, Hl.
Qed.

Lemma runner_name_inj opts a b : runner_name opts a = runner_name opts b → a = b.
Proof.
  unfold runner_name. intros E. apply (f_equal (str_drop (String.length ("mr-scaleset-" +:+ format_int (opt_ScaleSetID opts) +:+ "-")))) in E.
  rewrite <- !str_app_assoc in E. rewrite !str_drop_app in E. done.
Qed.

Lemma all_launch_unique opts : unique_answers opts all_launch New.
Proof.
  split_and!.
  - intros i name _ (r & q & Hin & _). by apply not_elem_of_nil in Hin.
  - intros i h _ [(r & q & Hin)|(o & a & r & Hin & _)]; by apply not_elem_of_nil in Hin.
  - intros i j name Hi Hj.
    change (Some (runner_name opts (hex_encode (marks i))) = Some name) in Hi.
    change (Some (runner_name opts (hex_encode (marks j))) = Some name) in Hj. rewrite <- Hj in Hi.
    apply marks_inj, (inj Some). rewrite <- !hex_decode_encode. f_equal.
    apply (runner_name_inj opts). congruence.
  - intros i j h Hi Hj. change (Some (marks i) = Some h) in Hi. change (Some (marks j) = Some h) in Hj.
    apply marks_inj. congruence.
Qed.

Lemma serve_count_exact_witness :
  ∃ l' sp, serve_count demo_opts 5 all_launch New = Some ((1, None), l', sp) ∧ runningLocked l' = 1.
Proof.
  destruct (serve_count_exact demo_opts true "docker" (Config New []) 5 all_launch) as (l' & sp & E & R & _).
  - apply reach_init.
  - reflexivity.
  - apply all_launch_unique.
  - intros i. eexists _, _, _, _. split_and!; [reflexivity|reflexivity|reflexivity|lia|reflexivity].
  - exists l', sp. split; [exact E|exact R].
Defined.
