(* ===== verification/Runner.v ===== *)
(** * One ephemeral runner

    [internal/runner/instance.go]: [RunOnce] fetches a JIT configuration,
    launches a runner, waits for it and settles its registration.  GitHub, the
    backend and the context answer as the environment says; every call made is
    recorded, in order.  The log stream is left out: it only feeds the
    logger. *)

From S2P Require Import Prelude GoErr GoStr Backend.

Local Open Scope Z_scope.
Local Open Scope go_scope.

(** [github.JITConfigRequest] and [github.JITConfig]. *)
Record JITConfigRequest := {
  jreq_Name : string;
  jreq_RunnerGroupID : Z;
  jreq_Labels : list string;
  jreq_WorkFolder : string
}.
Record JITConfig := { EncodedJITConfig : string; Runner_ID : Z }.

Record Spec := {
  spec_Name : string;
  spec_Image : string;
  spec_RunnerGroupID : Z;
  spec_Labels : list string;
  spec_WorkFolder : string;
  spec_Env : gmap string string;
  spec_Mounts : list Mount;
  spec_Container : ContainerSettings;
  spec_Index : Z
}.

(** The answers to one run: the JIT configuration, the launch (the handle's
    ID, if there is one, and the error), what [Wait] returns, the error of the
    context then, the kill, and GitHub's view of the runner; that of a deletion
    is only logged. *)
Record run_answers := {
  ra_jit : result JITConfig;
  ra_launch : option string * option goerror;
  ra_wait : Z * option goerror;
  ra_ctx : option goerror;
  ra_kill : option goerror;
  ra_busy : result bool
}.

Inductive call :=
| CJit (req : JITConfigRequest)
| CLaunch (req : LaunchRequest)
| CWait
| CKill
| CBusy (id : Z)
| CDelete (id : Z).

Section run.
Variable ans : run_answers.

(** [deregister]: best effort, its outcome only logged. *)
Definition deregister (runnerID : Z) : list call :=
  if runnerID =? 0 then [] else [CDelete runnerID].

(** [reclaimAfterFailedKill]: GitHub decides. *)
Definition reclaimAfterFailedKill (runnerID : Z) : list call :=
  if runnerID =? 0 then []
  else
    CBusy runnerID ::
    match ra_busy ans with
    | Err _ => []
    | Ok true => []
    | Ok false => deregister runnerID
    end.

Definition terminate : option goerror := ra_kill ans.

(** Terminate, then settle the registration: the error to join when the kill
    failed. *)
Definition terminate_and_settle (runnerID : Z) : option goerror * list call :=
  match terminate with
  | Some killErr => (Some (errorf_w "kill runner: " killErr), CKill :: reclaimAfterFailedKill runnerID)
  | None => (None, CKill :: deregister runnerID)
  end.

Definition joined (e : goerror) (kill : option goerror) : goerror :=
  match kill with None => e | Some k => EJoin [e; k] end.

Definition RunOnce (spec : Spec) : Z * option goerror * list call :=
  let jit_call := CJit {| jreq_Name := spec_Name spec; jreq_RunnerGroupID := spec_RunnerGroupID spec;
                          jreq_Labels := spec_Labels spec; jreq_WorkFolder := spec_WorkFolder spec |} in
  match ra_jit ans with
  | Err e => (-1, Some (errorf_w "jit config: " e), [jit_call])
  | Ok jit =>
      let id := Runner_ID jit in
      let launch_call :=
        CLaunch {| req_Name := spec_Name spec; req_Image := spec_Image spec;
                   Backend.EncodedJITConfig := EncodedJITConfig jit; req_WorkFolder := spec_WorkFolder spec;
                   req_Labels := spec_Labels spec; req_Env := spec_Env spec; req_Mounts := spec_Mounts spec;
                   req_Container := spec_Container spec; req_Index := spec_Index spec;
                   req_Ownership := no_ownership |} in
      match ra_launch ans with
      | (handle, Some err) =>
          let launchErr := errorf_w "launch: " err in
          match handle with
          | None => (-1, Some launchErr, [jit_call; launch_call] ++ deregister id)
          | Some _ =>
              let '(kill, calls) := terminate_and_settle id in
              (-1, Some (joined launchErr kill), [jit_call; launch_call] ++ calls)
          end
      | (_, None) =>
          let '(code, waitErr) := ra_wait ans in
          let before := [jit_call; launch_call; CWait] in
          match ra_ctx ans with
          | Some ctxErr =>
              let '(kill, calls) := terminate_and_settle id in
              (code, Some (joined ctxErr kill), before ++ calls)
          | None =>
              match waitErr with
              | Some e =>
                  let '(kill, calls) := terminate_and_settle id in
                  (code, Some (joined (errorf_w "wait: " e) kill), before ++ calls)
              | None => (code, None, before ++ deregister id)
              end
          end
      end
  end.
End run.

Definition short (id : string) : string :=
  if (12 <? String.length id)%nat then str_take 12 id else id.

(** ** What a run promises *)

(** The runner exited by itself while the context was live. *)
Definition exited (ans : run_answers) : bool :=
  bool_decide (ra_ctx ans = None) && bool_decide ((ra_wait ans).2 = None).

(** The runner is known not to be on a job. *)
Definition over (ans : run_answers) : Prop :=
  match ra_launch ans with
  | (None, Some _) => True
  | (Some _, Some _) => ra_kill ans = None ∨ ra_busy ans = Ok false
  | (_, None) => exited ans = true ∨ ra_kill ans = None ∨ ra_busy ans = Ok false
  end.

Lemma elem_of_deregister id x : CDelete x ∈ deregister id ↔ x = id ∧ id ≠ 0.
Proof.
  unfold deregister. destruct (Z.eqb_spec id 0); [split; [by intros ?%not_elem_of_nil|by intros []]|].
  rewrite list_elem_of_singleton. split; [by intros [= ->]|by intros [-> _]].
Qed.

Lemma settled ans id x :
  CDelete x ∈ (terminate_and_settle ans id).2 ↔
  x = id ∧ id ≠ 0 ∧ (ra_kill ans = None ∨ ra_busy ans = Ok false).
Proof.
  unfold terminate_and_settle, terminate, reclaimAfterFailedKill.
  destruct (ra_kill ans) as [k|]; cbn [snd]; rewrite elem_of_cons.
  - destruct (Z.eqb_spec id 0).
    { split; [by intros [[=]|?%not_elem_of_nil]|by intros (_ & ? & _)]. }
    rewrite elem_of_cons. destruct (ra_busy ans) as [[]|].
    1,3: split; [by intros [[=]|[[=]|?%not_elem_of_nil]]|by intros (_ & _ & [?|?])].
    rewrite elem_of_deregister. split.
    + intros [[=]|[[=]|[-> ?]]]. by split_and!; [| |right].
    + intros (-> & ? & _). right. by right.
  - rewrite elem_of_deregister. split; [intros [[=]|[-> ?]]; split_and!; [done|done|by left]|].
    intros (-> & ? & _). by right.
Qed.

(** What is known of the runner right after a call. *)
Definition shows_over (ans : run_answers) (id : Z) (last : call) : Prop :=
  match last with
  | CLaunch _ => ∃ e, ra_launch ans = (None, Some e)
  | CWait => ra_ctx ans = None ∧ (ra_wait ans).2 = None
  | CKill => ra_kill ans = None
  | CBusy asked => asked = id ∧ ra_kill ans ≠ None ∧ ra_busy ans = Ok false
  | _ => False
  end.
(** Why a runner is killed: a launch that failed may have left it, or it has not
    exited by itself when the wait ends. *)
Definition may_run (ans : run_answers) (last : call) : Prop :=
  match last with
  | CLaunch _ => ∃ h e, ra_launch ans = (Some h, Some e)
  | CWait => ra_ctx ans ≠ None ∨ (ra_wait ans).2 ≠ None
  | _ => False
  end.

Lemma deletes_iff ans spec id :
  CDelete id ∈ (RunOnce ans spec).2 ↔ ∃ jit, ra_jit ans = Ok jit ∧ Runner_ID jit = id ∧ id ≠ 0 ∧ over ans.
Proof.
  unfold RunOnce. destruct (ra_jit ans) as [jit|e].
  2:{ cbn. rewrite list_elem_of_singleton. split; [done|by intros (? & [=] & _)]. }
  assert (∀ x P, (∃ j, Ok jit = Ok j ∧ Runner_ID j = x ∧ x ≠ 0 ∧ P) ↔ x = Runner_ID jit ∧ Runner_ID jit ≠ 0 ∧ P) as Hj.
  { intros x P. split; [by intros (? & [= <-] & <- & ? & ?)|]. intros (-> & ? & ?). by exists jit. }
  rewrite Hj. clear Hj. pose proof (settled ans (Runner_ID jit) id) as Hs.
  destruct (terminate_and_settle ans (Runner_ID jit)) as [kill calls]. cbn [snd] in Hs.
  unfold over, exited. destruct (ra_launch ans) as [[h|] [le|]]; cbn [snd app].
  1: rewrite !elem_of_cons, Hs; naive_solver.
  2: rewrite !elem_of_cons, elem_of_deregister; naive_solver.
  all: destruct (ra_wait ans) as [code [we|]]; destruct (ra_ctx ans) as [ce|]; cbn;
    rewrite !elem_of_cons, ?Hs, ?elem_of_deregister; naive_solver.
Qed.

(** What each call of a run follows. *)
Definition follows (ans : run_answers) (calls : list call) : Prop :=
  ∀ i c, calls !! i = Some c →
    match c with
    | CDelete id => ∃ j last, i = S j ∧ calls !! j = Some last ∧ shows_over ans id last ∧ length calls = S i
    | CKill => ∃ j last, i = S j ∧ calls !! j = Some last ∧ may_run ans last
    | _ => True
    end.

Lemma follows_calls ans spec : follows ans (RunOnce ans spec).2.
Proof.
  intros i c Hi. unfold RunOnce, terminate_and_settle, terminate, reclaimAfterFailedKill, deregister in *.
  destruct (ra_jit ans) as [jit|e] eqn:Hj; [|by destruct i as [|[|i]]; simplify_eq/=].
  destruct (ra_launch ans) as [h err] eqn:Hl; destruct (ra_wait ans) as [code we] eqn:Hw; destruct (Runner_ID jit =? 0);
    destruct err as [err|], h as [h|], (ra_ctx ans) as [ce|] eqn:Hc, we as [we|], (ra_kill ans) as [k|] eqn:Hk, (ra_busy ans) as [[]|] eqn:Hb;
    cbn [snd app] in Hi |- *; destruct i as [|[|[|[|[|[|i]]]]]]; cbn in Hi; simplify_eq; try done;
    (eexists _, _; split; [reflexivity|split; [reflexivity|]]); cbn; rewrite ?Hl, ?Hw, ?Hc, ?Hk, ?Hb; naive_solver.
Qed.

(** C32: A registration is removed exactly when the runner is over, and after it
    was seen to be: the last call of the run asks GitHub to delete it when, and
    only when, a JIT registration was handed out, and the launch left nothing,
    the runner exited while the context was live, the kill was confirmed, or,
    the kill having failed, GitHub says that the runner is idle; the call right
    before it is the one that showed this.  A runner is killed only when a
    launch that failed may have left it or the wait ended without its exit.  The
    deletion is asked for once and its answer is only logged. *)
Theorem RunOnce_settles ans spec :
  let calls := (RunOnce ans spec).2 in
  (∀ id, CDelete id ∈ calls ↔ ∃ jit, ra_jit ans = Ok jit ∧ Runner_ID jit = id ∧ id ≠ 0 ∧ over ans) ∧
  (∀ i id, calls !! i = Some (CDelete id) →
     ∃ j last, i = S j ∧ calls !! j = Some last ∧ shows_over ans id last ∧ length calls = S i) ∧
  (∀ i, calls !! i = Some CKill → ∃ j last, i = S j ∧ calls !! j = Some last ∧ may_run ans last).
Proof.
  cbv zeta. split; [apply deletes_iff|]. split; [intros i id Hi|intros i Hi]; exact (follows_calls ans spec i _ Hi).
Qed.

(** ** An example *)

Section demo.
(** The context ends, the kill fails, and GitHub says that the runner is idle. *)
Definition idle_answers : run_answers :=
  {| ra_jit := Ok {| EncodedJITConfig := "e30="; Runner_ID := 7 |}; ra_launch := (Some "c1", None);
     ra_wait := (-1, Some err_canceled); ra_ctx := Some err_canceled; ra_kill := Some (errorf "no daemon"); ra_busy := Ok false |}.
Definition idle_spec : Spec :=
  {| spec_Name := "mr-1"; spec_Image := "img"; spec_RunnerGroupID := 1; spec_Labels := ["linux"]; spec_WorkFolder := "_work";
     spec_Env := ∅; spec_Mounts := []; spec_Container := {| CPUCount := 0; cs_MemoryBytes := 0; cs_MemorySwapBytes := 0; cs_DNS := [] |}; spec_Index := 0 |}.

Lemma RunOnce_settles_witness :
  drop 2 (RunOnce idle_answers idle_spec).2 = [CWait; CKill; CBusy 7; CDelete 7] ∧ shows_over idle_answers 7 (CBusy 7).
Proof.
  split; [reflexivity|]. destruct (RunOnce_settles idle_answers idle_spec) as (_ & Hd & _).
  destruct (Hd 5%nat 7 eq_refl) as (j & last & [= <-] & Hl & Hs & _). by injection Hl as <-.
Defined.
End demo.
