(* ===== verification/GitHub.v ===== *)
(** * The GitHub client and its providers

    [internal/github/client.go] and [provider.go]: the paths and requests of
    the runner API, the transports that attach credentials, the listing of
    queued jobs and the set of per-repository clients.  The HTTP exchange, the
    go-github calls and [net/url] answer as the environment says. *)

From S2P Require Import Prelude GoErr GoStr ImageVersions Config Backend Runner.

Local Open Scope Z_scope.
Local Open Scope go_scope.

Record Client := MkClient { cl_scope : string; cl_owner : string; cl_repo : string }.

(** ** Paths *)

(** [url.PathEscape]: a segment keeps the unreserved characters and the
    delimiters a segment may hold. *)
Definition unescaped (c : ascii) : bool :=
  let z := Z_of_ascii c in
  is_digit c || ((65 <=? z) && (z <=? 90)) || ((97 <=? z) && (z <=? 122)) || str_mem c "-_.~$&+:=@".

Definition upper_hex (k : Z) : ascii := ascii_of_Z (if k <? 10 then 48 + k else 55 + k).

Fixpoint path_escape (s : string) : string :=
  match s with
  | "" => ""
  | String c s =>
      let z := Z_of_ascii c in
      if unescaped c then String c (path_escape s)
      else String "%" (String (upper_hex (z / 16)) (String (upper_hex (z mod 16)) (path_escape s)))
  end.

Definition runnersBasePath (c : Client) : result string :=
  if String.eqb (cl_scope c) ScopeRepo then
    Ok ("repos/" +:+ path_escape (cl_owner c) +:+ "/" +:+ path_escape (cl_repo c) +:+ "/actions/runners")
  else if String.eqb (cl_scope c) ScopeOrg then Ok ("orgs/" +:+ path_escape (cl_owner c) +:+ "/actions/runners")
  else if String.eqb (cl_scope c) ScopeEnterprise then
    Ok ("enterprises/" +:+ path_escape (cl_owner c) +:+ "/actions/runners")
  else Err (errorf ("unsupported scope " +:+ quote (cl_scope c))).

Definition runnersPath (c : Client) (action : string) : result string :=
  match runnersBasePath c with
  | Err e => Err e
  | Ok base => Ok (base +:+ "/" +:+ action)
  end.

(** ** Credentials *)

(** [url.Parse], as far as scheme and host. *)
Record url_parts := UrlParts { u_Scheme : string; u_Host : string }.

(** A request, by where it goes and its [Authorization] header. *)
Record request := Request { rq_Scheme : string; rq_Host : string; rq_Authorization : option string }.

Definition sameOrigin (req : request) (origin : string) : bool :=
  equal_fold (rq_Scheme req +:+ "://" +:+ rq_Host req) origin.

Definition with_auth (a : option string) (req : request) : request :=
  Request (rq_Scheme req) (rq_Host req) a.

Record patTransport := { pat_token : string; pat_origin : string }.
Definition patTransport_RoundTrip (t : patTransport) (req : request) : request :=
  if negb (sameOrigin req (pat_origin t)) then with_auth None req
  else with_auth (Some ("Bearer " +:+ pat_token t)) req.

(** [originTransport] hands the request to the transport it wraps, which adds
    its own credentials, or sends it without any. *)
Definition originTransport_RoundTrip (base : request → result request) (origin : string) (req : request)
    : result request :=
  if sameOrigin req origin then base req else Ok (with_auth None req).

(** The token of [deviceTransport] comes from its refresher. *)
Definition deviceTransport_RoundTrip (access : result string) (origin : string) (req : request)
    : result request :=
  if negb (sameOrigin req origin) then Ok (with_auth None req)
  else match access with
       | Err e => Err e
       | Ok access => Ok (with_auth (Some ("Bearer " +:+ access)) req)
       end.

Section auth.
Variable url_parse : string → option url_parts.

Definition isDotCom (rawURL : string) : bool :=
  if is_empty rawURL then true
  else match url_parse rawURL with
       | None => false
       | Some u => let host := to_lower (u_Host u) in
                   String.eqb host "github.com" || String.eqb host "www.github.com" || is_empty host
       end.

Definition apiOrigin (ghURL : string) : result string :=
  if isDotCom ghURL then Ok "https://api.github.com"
  else
    let invalid := Err (errorf ("github.url " +:+ quote ghURL +:+ " is not a valid URL")) in
    match url_parse (trim_right ghURL "/") with
    | None => invalid
    | Some u => if is_empty (u_Scheme u) || is_empty (u_Host u) then invalid
                else Ok (to_lower (u_Scheme u +:+ "://" +:+ u_Host u))
    end.

(** The transport [authHTTPClient] builds. *)
Inductive transport :=
| PatTransport (t : patTransport)
| DeviceTransport (origin : string)
| InstallationTransport (baseURL origin : string).

(** [newDevice] and [newKey] are the constructors of the token refresher and
    of the installation transport. *)
Definition authHTTPClient (newDevice newKey : option goerror) (gh : GitHub) (auth : Auth) : result transport :=
  match apiOrigin (gh_URL gh) with
  | Err e => Err e
  | Ok origin =>
      if negb (is_empty (PAT auth)) then Ok (PatTransport {| pat_token := PAT auth; pat_origin := origin |})
      else if IsDeviceApp auth then
        match newDevice with Some e => Err e | None => Ok (DeviceTransport origin) end
      else
        let apiBase := if isDotCom (gh_URL gh) then "https://api.github.com/"
                       else trim_right (gh_URL gh) "/" +:+ "/api/v3/" in
        match newKey with
        | Some e => Err (errorf_w "github app key: " e)
        | None => Ok (InstallationTransport (trim_right apiBase "/") origin)
        end
  end.

Definition New (newDevice newKey enterpriseURLs : option goerror) (gh : GitHub) (auth : Auth)
    : result (Client * transport) :=
  match authHTTPClient newDevice newKey gh auth with
  | Err e => Err e
  | Ok tr =>
      let c := MkClient (gh_Scope gh) (gh_Owner gh) (gh_Repo gh) in
      if isDotCom (gh_URL gh) then Ok (c, tr)
      else match enterpriseURLs with
           | Some e => Err (errorf_w "enterprise urls: " e)
           | None => Ok (c, tr)
           end
  end.
End auth.

(** ** The runner API *)

(** What [c.gh.Do] gives: the decoded body, or the status, when a response
    came, with an error. *)
Inductive do_answer (A : Type) :=
| DoOk (status : Z) (out : A)
| DoErr (status : option Z) (e : goerror).
Arguments DoOk {_} _ _.
Arguments DoErr {_} _ _.

(** The method and path of a request, and the error of building it. *)
Record api_request := ApiRequest { api_method : string; api_path : string }.

Definition api_call {A B} (c : Client) (path : result string) (method build_what : string)
    (build : option goerror) (answer : do_answer A) (k : do_answer A → result B) : option api_request * result B :=
  match path with
  | Err e => (None, Err e)
  | Ok path =>
      match build with
      | Some e => (None, Err (errorf_w ("build " +:+ build_what +:+ " request: ") e))
      | None => (Some (ApiRequest method path), k answer)
      end
  end.

Definition ErrRunnerNotFound : goerror := ENew "github.ErrRunnerNotFound" "runner registration not found".
Definition ErrContentsForbidden : goerror := ENew "github.ErrContentsForbidden" "contents permission missing".

Definition GenerateJITConfig (c : Client) (build : option goerror) (answer : do_answer JITConfig)
    : option api_request * result JITConfig :=
  api_call c (runnersPath c "generate-jitconfig") "POST" "jitconfig" build answer (λ answer,
    match answer with
    | DoErr _ e => Err (errorf_w ("generate-jitconfig (" +:+ cl_scope c +:+ "): ") e)
    | DoOk status out =>
        if is_empty (EncodedJITConfig out) then
          Err (errorf ("generate-jitconfig returned empty config (status " +:+ format_int status +:+ ")"))
        else Ok out
    end).

Definition CreateRegistrationToken (c : Client) (build : option goerror) (answer : do_answer string)
    : option api_request * result string :=
  api_call c (runnersPath c "registration-token") "POST" "registration-token" build answer (λ answer,
    match answer with
    | DoErr _ e => Err (errorf_w ("registration-token (" +:+ cl_scope c +:+ "): ") e)
    | DoOk _ token => Ok token
    end).

(** The error of a call about one runner. *)
Definition runner_error (c : Client) (what : string) (id : Z) (status : option Z) (e : goerror) : goerror :=
  let what := what +:+ " " +:+ format_int id in
  match status with
  | Some 404 => errorf_w (what +:+ ": ") ErrRunnerNotFound
  | _ => errorf_w (what +:+ " (" +:+ cl_scope c +:+ "): ") e
  end.

Definition DeleteRunner (c : Client) (id : Z) (build : option goerror) (answer : do_answer unit)
    : option api_request * result unit :=
  api_call c (runnersPath c (format_int id)) "DELETE" "delete-runner" build answer (λ answer,
    match answer with
    | DoErr status e => Err (runner_error c "delete-runner" id status e)
    | DoOk _ _ => Ok tt
    end).

Definition RunnerBusy (c : Client) (id : Z) (build : option goerror) (answer : do_answer bool)
    : option api_request * result bool :=
  api_call c (runnersPath c (format_int id)) "GET" "get-runner" build answer (λ answer,
    match answer with
    | DoErr status e => Err (runner_error c "get-runner" id status e)
    | DoOk _ busy => Ok busy
    end).

Definition CheckRunnerAccess (c : Client) (build : option goerror) (answer : do_answer unit)
    : option api_request * result unit :=
  let path := match runnersBasePath c with Ok p => Ok (p +:+ "?per_page=1") | Err e => Err e end in
  api_call c path "GET" "list-runners" build answer (λ answer,
    match answer with
    | DoOk _ _ => Ok tt
    | DoErr (Some status) e =>
        if (status =? 401) || (status =? 403) then
          Err (errorf_w ("credentials cannot manage " +:+ cl_scope c +:+ " runners for " +:+
                 quote (cl_owner c) +:+ ": ") e)
        else if status =? 404 then
          Err (errorf_w ("no " +:+ cl_scope c +:+ " " +:+ quote (cl_owner c) +:+
                 " visible to these credentials: ") e)
        else Err (errorf_w ("list-runners (" +:+ cl_scope c +:+ "): ") e)
    | DoErr None e => Err (errorf_w ("list-runners (" +:+ cl_scope c +:+ "): ") e)
    end).

Definition ActionsEnabled (c : Client) (answer : result bool) : result bool :=
  if is_empty (cl_repo c) then Err (errorf "ActionsEnabled requires a repo-scoped client")
  else match answer with
       | Err e => Err (errorf_w ("get actions permissions " +:+ cl_owner c +:+ "/" +:+ cl_repo c +:+ ": ") e)
       | Ok enabled => Ok enabled
       end.

(** A tree entry, and the tree: whether it was cut short. *)
Record TreeEntry := MkTreeEntry { entry_Type : string; entry_Path : string }.

(** [defaultBranch] and [tree] answer the two calls; a tree error says whether
    it is a 403 response. *)
Definition RepoFilePaths (c : Client) (defaultBranch : result string)
    (tree : (list TreeEntry * bool) + (goerror * bool)) : result (list string) :=
  if is_empty (cl_repo c) then Err (errorf "RepoFilePaths requires a repo-scoped client")
  else match defaultBranch with
       | Err e => Err (errorf_w ("get repo " +:+ cl_owner c +:+ "/" +:+ cl_repo c +:+ ": ") e)
       | Ok branch =>
           match tree with
           | inr (e, forbidden) =>
               let e := if forbidden : bool then EJoin [ErrContentsForbidden; e] else e in
               Err (errorf_w ("get tree (" +:+ branch +:+ "): ") e)
           | inl (_, true) => Err (errorf ("get tree (" +:+ branch +:+ "): recursive result was truncated"))
           | inl (entries, false) =>
               Ok (entry_Path <$> filter (λ e, entry_Type e = "blob") entries)
           end
       end.

(** The file of the API, if the path is one, and the error of decoding it. *)
Definition RepoFile (p : string) (contents : result (option (result string))) : result string :=
  match contents with
  | Err e => Err (errorf_w ("get contents " +:+ p +:+ ": ") e)
  | Ok None => Err (errorf (p +:+ " is not a file"))
  | Ok (Some (Err e)) => Err (errorf_w ("decode " +:+ p +:+ ": ") e)
  | Ok (Some (Ok s)) => Ok s
  end.

(** ** Queued jobs *)

Record QueuedJob := MkQueuedJob {
  qj_Client : option Client;
  qj_Repository : string;
  qj_Labels : list string;
  qj_WorkflowPath : string;
  qj_Event : string;
  qj_Actor : string;
  qj_Ref : string;
  qj_Status : string
}.

(** The library's runs and jobs; its accessors give [""] for a missing field. *)
Record WorkflowRun := MkRun {
  run_ID : Z;
  run_Path : string;
  run_Event : string;
  run_Actor : option string;
  run_HeadBranch : string;
  run_Status : string
}.
Record WorkflowJob := MkJob { job_Status : string; job_Labels : list string }.

Definition GetID (run : option WorkflowRun) : Z := match run with Some r => run_ID r | None => 0 end.

Definition queuedJobMetadata (run : WorkflowRun) : QueuedJob :=
  MkQueuedJob None "" [] (run_Path run) (run_Event run) (default "" (run_Actor run))
    (run_HeadBranch run) (run_Status run).

Definition with_labels (labels : list string) (j : QueuedJob) : QueuedJob :=
  MkQueuedJob (qj_Client j) (qj_Repository j) labels (qj_WorkflowPath j) (qj_Event j) (qj_Actor j)
    (qj_Ref j) (qj_Status j).
Definition with_source (c : Client) (repository : string) (j : QueuedJob) : QueuedJob :=
  MkQueuedJob (Some c) repository (qj_Labels j) (qj_WorkflowPath j) (qj_Event j) (qj_Actor j)
    (qj_Ref j) (qj_Status j).

Section listing.
(** [ListRepositoryWorkflowRuns] for a status and a page, and
    [ListWorkflowJobs] for a run and a page, with the next page, 0 for none. *)
Variable list_runs : string → Z → result (list (option WorkflowRun) * Z).
Variable list_jobs : Z → Z → result (list WorkflowJob * Z).

(** The pages of a listing, from [page] on; [None] when the fuel runs out. *)
Fixpoint pages {A B} (list_page : Z → result (list A * Z)) (what : string) (f : B → A → B)
    (fuel : nat) (page : Z) (acc : B) : option (result B) :=
  match fuel with
  | O => None
  | S fuel =>
      match list_page page with
      | Err e => Some (Err (errorf_w what e))
      | Ok (xs, next) =>
          let acc := foldl f acc xs in
          if next =? 0 then Some (Ok acc) else pages list_page what f fuel next acc
      end
  end.

(** [seen], [runIDs] and [runsByID]: the runs in the order they were first
    seen. *)
Definition add_run (runs : list (option WorkflowRun)) (run : option WorkflowRun) : list (option WorkflowRun) :=
  if existsb (λ r, GetID r =? GetID run) runs then runs else runs ++ [run].

Definition add_job (run : WorkflowRun) (queued : list QueuedJob) (job : WorkflowJob) : list QueuedJob :=
  if String.eqb (job_Status job) "queued" then
    queued ++ [with_labels (job_Labels job) (queuedJobMetadata run)]
  else queued.

Definition queuedJobsForRun (fuel : nat) (run : option WorkflowRun) : option (result (list QueuedJob)) :=
  match run with
  | None => Some (Err (errorf "queued workflow run is nil"))
  | Some run =>
      pages (list_jobs (run_ID run)) ("list workflow jobs for run " +:+ format_int (run_ID run) +:+ ": ")
        (add_job run) fuel 0 []
  end.

Fixpoint all_runs (fuel : nat) (statuses : list string) (runs : list (option WorkflowRun))
    : option (result (list (option WorkflowRun))) :=
  match statuses with
  | [] => Some (Ok runs)
  | status :: statuses =>
      match pages (list_runs status) ("list " +:+ status +:+ " workflow runs: ") add_run fuel 0 runs with
      | Some (Ok runs) => all_runs fuel statuses runs
      | r => r
      end
  end.

Fixpoint all_jobs (fuel : nat) (runs : list (option WorkflowRun)) (queued : list QueuedJob)
    : option (result (list QueuedJob)) :=
  match runs with
  | [] => Some (Ok queued)
  | run :: runs =>
      match queuedJobsForRun fuel run with
      | Some (Ok jobs) => all_jobs fuel runs (queued ++ jobs)
      | r => r
      end
  end.

Definition run_statuses : list string := ["queued"; "in_progress"; "pending"].

Definition QueuedWorkflowJobs (c : Client) (fuel : nat) : option (result (list QueuedJob)) :=
  if negb (String.eqb (cl_scope c) ScopeRepo) then Some (Ok [])
  else match all_runs fuel run_statuses [] with
       | Some (Ok runs) => all_jobs fuel runs []
       | Some (Err e) => Some (Err e)
       | None => None
       end.

Definition QueuedJobLabels (c : Client) (fuel : nat) : option (result (list (list string))) :=
  match QueuedWorkflowJobs c fuel with
  | Some (Ok jobs) => Some (Ok (qj_Labels <$> jobs))
  | Some (Err e) => Some (Err e)
  | None => None
  end.
End listing.

(** [ResolveQueuedJob], [get_run] answering for the run record. *)
Definition ResolveQueuedJob (c : Client) (get_run : result (option WorkflowRun)) (repository : string)
    (runID : Z) (labels : list string) : result QueuedJob :=
  if runID <=? 0 then Err (errorf "workflow run id must be positive")
  else
    let '(owner, repo, ok) := cut "/" repository in
    if negb ok || is_empty owner || is_empty repo then Err (errorf "repository must be owner/repo")
    else match get_run with
         | Err e => Err (errorf_w ("get workflow run " +:+ format_int runID +:+ ": ") e)
         | Ok None => Err (errorf ("get workflow run " +:+ format_int runID +:+ " returned no run"))
         | Ok (Some run) =>
             let job := queuedJobMetadata run in
             if is_empty (qj_Actor job) then
               Err (errorf ("workflow run " +:+ format_int runID +:+ " has no triggering actor"))
             else if negb (String.eqb (qj_Status job) "queued") && negb (String.eqb (qj_Status job) "in_progress") then
               Err (errorf ("workflow run " +:+ format_int runID +:+ " is not active: status " +:+
                      quote (qj_Status job)))
             else Ok (with_labels labels (with_source c repository job))
         end.

(** ** Providers *)

Definition Target (c : Client) : string :=
  if negb (is_empty (cl_repo c)) then cl_owner c +:+ "/" +:+ cl_repo c else cl_owner c.

Definition pairWith (c : Client) (jobs : list QueuedJob) : list QueuedJob :=
  (λ job, with_source c
            (if is_empty (qj_Repository job) && String.eqb (cl_scope c) ScopeRepo then Target c
             else qj_Repository job) job) <$> jobs.

Definition Client_ClientForSlot (c : Client) (slot : Z) : option Client := Some c.

Definition Client_ClientFor (c : Client) (repo : string) : option Client :=
  if String.eqb (cl_scope c) ScopeRepo && negb (equal_fold (Target c) repo) then None else Some c.

Definition Client_QueuedJobs (c : Client) (jobs : result (list QueuedJob)) : result (list QueuedJob) :=
  match jobs with
  | Err e => Err e
  | Ok jobs => Ok (pairWith c jobs)
  end.

(** [poll] counts the polls, in 64 bits without a sign. *)
Record RepoSet := MkRepoSet { rs_clients : list Client; rs_repos : list string; rs_poll : Z }.
Definition NewRepoSet (clients : list Client) (repos : list string) : RepoSet := MkRepoSet clients repos 0.

(** The truncated remainder of Go. *)
Definition RepoSet_ClientForSlot (rs : RepoSet) (slot : Z) : option Client :=
  if bool_decide (rs_clients rs = []) || (slot <? 0) then None
  else rs_clients rs !! Z.to_nat (Z.rem slot (Z.of_nat (length (rs_clients rs)))).

Fixpoint client_for (repo : string) (repos : list string) (clients : list Client) : option Client :=
  match repos, clients with
  | r :: repos, c :: clients => if equal_fold r repo then Some c else client_for repo repos clients
  | _, _ => None
  end.
Definition RepoSet_ClientFor (rs : RepoSet) (repo : string) : option Client :=
  client_for repo (rs_repos rs) (rs_clients rs).

(** The names are the repositories, the errors by name. *)
Record RepoPollError := MkPollError { Failures : gmap string goerror; Total : Z }.

Definition AllFailed (e : RepoPollError) : bool :=
  (0 <? Total e) && (Z.of_nat (size (Failures e)) =? Total e).

Definition RepoPollError_Error `{MapRange} (e : RepoPollError) : string :=
  let names := sort_strings (fst <$> range (Failures e)) in
  let details := (λ name, name +:+ ": " +:+ default "" (error_text <$> Failures e !! name)) <$> names in
  "queued-job polling failed for " +:+ format_int (Z.of_nat (size (Failures e))) +:+ " of " +:+
  format_int (Total e) +:+ " repos: " +:+ join "; " details.

(** The poll of one client; [jobs_of] is what each client lists. *)
Definition poll_client (jobs_of : Client → result (list QueuedJob)) (rs : RepoSet) (i : nat)
    (st : list QueuedJob * gmap string goerror) : list QueuedJob * gmap string goerror :=
  match rs_clients rs !! i with
  | None => st
  | Some c =>
      match jobs_of c with
      | Err e => (st.1, <[default "" (rs_repos rs !! i) := e]> st.2)
      | Ok jobs => (st.1 ++ pairWith c jobs, st.2)
      end
  end.

(** One poll: the jobs, the error if there is one, and the set after it. A
    count past the integers of [int] turns negative: the first index is then
    out of range and the poll panics, [None]. *)
Definition RepoSet_QueuedJobs (jobs_of : Client → result (list QueuedJob)) (rs : RepoSet)
    : option (list QueuedJob * option RepoPollError * RepoSet) :=
  let n := Z.of_nat (length (rs_clients rs)) in
  if n =? 0 then Some ([], Some (MkPollError ∅ 0), rs)
  else
    let poll := (rs_poll rs + 1) mod 2 ^ 64 in
    let start := Z.rem (wrap64 ((poll - 1) mod 2 ^ 64)) n in
    if start <? 0 then None
    else
      let '(all, failures) :=
        foldl (λ st offset, poll_client jobs_of rs (Z.to_nat (Z.rem (start + offset) n)) st)
          ([], ∅) (upto (length (rs_clients rs))) in
      Some (all, if (0 <? Z.of_nat (size failures)) then Some (MkPollError failures n) else None,
            MkRepoSet (rs_clients rs) (rs_repos rs) poll).
