(* ===== verification/GitHubSpec.v ===== *)
(** * The GitHub client: what it promises

    A name in the configuration cannot change which endpoint a request goes
    to; listing queued jobs asks each run once and keeps every queued job; a
    set of repositories is polled whole, from a rotating start. *)

From S2P Require Import Prelude GoErr GoStr ImageVersions Config Backend Runner GitHub.

Local Open Scope Z_scope.
Local Open Scope go_scope.

(** ** Statements *)

(** The pages of a listing from [page] on, up to the one without a next. *)
Inductive listing {A} (list_page : Z → result (list A * Z)) : Z → list (list A) → Prop :=
| listing_last page xs : list_page page = Ok (xs, 0) → listing list_page page [xs]
| listing_next page xs next rest :
    list_page page = Ok (xs, next) → next ≠ 0 → listing list_page next rest →
    listing list_page page (xs :: rest).

(** The runs of a list, each where its id occurs first. *)
Fixpoint distinct (seen : list Z) (runs : list WorkflowRun) : list WorkflowRun :=
  match runs with
  | [] => []
  | r :: runs =>
      if decide (run_ID r ∈ seen) then distinct seen runs else r :: distinct (run_ID r :: seen) runs
  end.

Definition queued_of (run : WorkflowRun) (jobs : list WorkflowJob) : list QueuedJob :=
  (λ j, with_labels (job_Labels j) (queuedJobMetadata run)) <$> filter (λ j, job_Status j = "queued") jobs.

(** ** Paths *)

Lemma upper_hex_not k c : 0 ≤ k < 16 → Z_of_ascii c < 48 → upper_hex k ≠ c.
Proof.
  intros Hk Hc E. subst c. unfold upper_hex in Hc.
  destruct (Z.ltb_spec k 10); rewrite Z_of_ascii_of_Z in Hc; lia.
Qed.

Lemma unescaped_not_slash c : unescaped c = true → c ≠ "/"%char ∧ c ≠ "%"%char.
Proof. intros H. split; intros ->; vm_compute in H; done. Qed.

Lemma path_escape_free s : str_mem "/" (path_escape s) = false.
Proof.
  induction s as [|c s IH]; [done|]. cbn [path_escape]. pose proof (Z_of_ascii_range c).
  destruct (unescaped c) eqn:E.
  - cbn [str_mem]. destruct (Ascii.eqb_spec "/" c) as [<-|_]; [by destruct (unescaped_not_slash _ E)|exact IH].
  - cbn [str_mem]. rewrite IH.
    destruct (Ascii.eqb_spec "/" (upper_hex (Z_of_ascii c / 16))) as [X|_].
    { exfalso. symmetry in X. by apply upper_hex_not in X; [|dlia|]. }
    destruct (Ascii.eqb_spec "/" (upper_hex (Z_of_ascii c mod 16))) as [X|_]; [|done].
    exfalso. symmetry in X. by apply upper_hex_not in X; [|dlia|].
Qed.

Lemma upper_hex_inj a b : 0 ≤ a < 16 → 0 ≤ b < 16 → upper_hex a = upper_hex b → a = b.
Proof.
  intros Ha Hb E. apply (f_equal Z_of_ascii) in E. unfold upper_hex in E.
  destruct (Z.ltb_spec a 10), (Z.ltb_spec b 10); rewrite !Z_of_ascii_of_Z in E; lia.
Qed.

Lemma path_escape_inj s t : path_escape s = path_escape t → s = t.
Proof.
  revert t. induction s as [|c s IH]; intros [|d t]; cbn [path_escape]; [done| | |].
  { by destruct (unescaped d). }
  { by destruct (unescaped c). }
  destruct (unescaped c) eqn:Ec, (unescaped d) eqn:Ed.
  - intros [= -> E]. by rewrite (IH _ E).
  - intros [= -> _]. by destruct (unescaped_not_slash _ Ec).
  - intros [= <- _]. by destruct (unescaped_not_slash _ Ed).
  - intros [= E1 E2 E3]. pose proof (Z_of_ascii_range c). pose proof (Z_of_ascii_range d).
    apply upper_hex_inj in E1; [|dlia|dlia]. apply upper_hex_inj in E2; [|dlia|dlia].
    assert (Z_of_ascii c = Z_of_ascii d) as E by dlia.
    rewrite <- (ascii_of_Z_of_ascii c), E, ascii_of_Z_of_ascii. by rewrite (IH _ E3).
Qed.

Lemma Ok_inj {A} (a b : A) : Ok a = Ok b → a = b.
Proof. by intros [=]. Qed.

(** The names of the configuration stay inside their path segments: for a
    valid scope the runner collection has exactly the segments of that scope,
    whatever slashes, dots or separators the owner and the repository contain,
    and two clients of one scope have the same collection only when they have
    the same owner and, in repository scope, the same repository. *)
Theorem runnersBasePath_segments (c : Client) path (Hp : runnersBasePath c = Ok path) :
  split "/" path =
    (if String.eqb (cl_scope c) ScopeRepo
     then ["repos"; path_escape (cl_owner c); path_escape (cl_repo c); "actions"; "runners"]
     else [if String.eqb (cl_scope c) ScopeOrg then "orgs" else "enterprises";
           path_escape (cl_owner c); "actions"; "runners"]) ∧
  ∀ c', cl_scope c' = cl_scope c → runnersBasePath c' = Ok path →
    cl_owner c' = cl_owner c ∧ (cl_scope c = ScopeRepo → cl_repo c' = cl_repo c).
Proof.
  assert (∀ o r, split "/" ("repos/" +:+ path_escape o +:+ "/" +:+ path_escape r +:+ "/actions/runners")
    = ["repos"; path_escape o; path_escape r; "actions"; "runners"]) as Hrepo.
  { intros o r. change ("repos/" +:+ ?x) with ("repos" +:+ String "/" x). rewrite split_app by done. f_equal.
    change ("/" +:+ path_escape r +:+ ?x) with (String "/" (path_escape r +:+ x)).
    rewrite split_app by apply path_escape_free. f_equal.
    change (path_escape r +:+ "/actions/runners") with (path_escape r +:+ String "/" "actions/runners").
    rewrite split_app by apply path_escape_free. reflexivity. }
  assert (∀ k o, str_mem "/" k = false → split "/" (k +:+ String "/" (path_escape o +:+ "/actions/runners"))
    = [k; path_escape o; "actions"; "runners"]) as Hone.
  { intros k o Hk. rewrite split_app by done. f_equal.
    change (path_escape o +:+ "/actions/runners") with (path_escape o +:+ String "/" "actions/runners").
    rewrite split_app by apply path_escape_free. reflexivity. }
  unfold runnersBasePath in *. destruct (String.eqb_spec (cl_scope c) ScopeRepo) as [Es|Es].
  { apply Ok_inj in Hp as <-. split; [apply Hrepo|]. intros c' E'. rewrite E', Es.
    intros E%Ok_inj%(f_equal (split "/")). rewrite !Hrepo in E. injection E as E1 E2.
    split; [by apply path_escape_inj|]. intros _. by apply path_escape_inj. }
  destruct (String.eqb_spec (cl_scope c) ScopeOrg) as [Eo|Eo].
  - apply Ok_inj in Hp as <-. split; [by apply (Hone "orgs")|]. intros c' E'. rewrite E', Eo.
    intros E%Ok_inj%(f_equal (split "/")).
    change ("orgs/" +:+ ?x) with ("orgs" +:+ String "/" x) in E. rewrite !Hone in E by done.
    injection E as E. split; [by apply path_escape_inj|done].
  - destruct (String.eqb_spec (cl_scope c) ScopeEnterprise) as [Ee|Ee]; [|done].
    apply Ok_inj in Hp as <-. split; [by apply (Hone "enterprises")|]. intros c' E'. rewrite E', Ee.
    intros E%Ok_inj%(f_equal (split "/")).
    change ("enterprises/" +:+ ?x) with ("enterprises" +:+ String "/" x) in E. rewrite !Hone in E by done.
    injection E as E. split; [by apply path_escape_inj|done].
Qed.

Lemma runnersBasePath_segments_witness :
  let c := MkClient ScopeRepo "../orgs/evil" "a b" in
  runnersBasePath c = Ok "repos/..%2Forgs%2Fevil/a%20b/actions/runners" ∧
  split "/" "repos/..%2Forgs%2Fevil/a%20b/actions/runners"
    = ["repos"; "..%2Forgs%2Fevil"; "a%20b"; "actions"; "runners"].
Proof.
  intros c. split; [reflexivity|].
  apply (runnersBasePath_segments c "repos/..%2Forgs%2Fevil/a%20b/actions/runners" eq_refl).
Defined.

(** ** Listing queued jobs *)

Lemma pages_listing {A B} (list_page : Z → result (list A * Z)) what (f : B → A → B) fuel page pgs acc :
  listing list_page page pgs → (length pgs ≤ fuel)%nat →
  pages list_page what f fuel page acc = Some (Ok (foldl f acc (concat pgs))).
Proof.
  intros Hl. revert fuel acc. induction Hl as [page xs E|page xs next rest E Hn _ IH]; intros fuel acc Hf;
    cbn [length] in Hf; (destruct fuel as [|fuel]; [lia|]); cbn [pages]; rewrite E.
  - cbn. by rewrite app_nil_r.
  - destruct (Z.eqb_spec next 0); [done|]. rewrite IH by lia. cbn [concat]. by rewrite foldl_app.
Qed.

Lemma elem_of_runs r (l : list WorkflowRun) :
  existsb (λ x, GetID x =? run_ID r) (Some <$> l) = true ↔ run_ID r ∈ run_ID <$> l.
Proof.
  rewrite existsb_exists. split.
  - intros (x & Hx%list_elem_of_In & E%Z.eqb_eq). apply list_elem_of_fmap in Hx as (y & -> & Hy).
    apply list_elem_of_fmap. by exists y.
  - intros (y & E & Hy)%list_elem_of_fmap. exists (Some y). split; [|by apply Z.eqb_eq].
    apply list_elem_of_In, list_elem_of_fmap. by exists y.
Qed.

Lemma distinct_seen seen seen' l : (∀ x, x ∈ seen ↔ x ∈ seen') → distinct seen l = distinct seen' l.
Proof.
  revert seen seen'. induction l as [|r l IH]; intros seen seen' H; cbn [distinct]; [done|].
  destruct (decide (run_ID r ∈ seen)) as [Hi|Hi], (decide (run_ID r ∈ seen')) as [Hi'|Hi'].
  - by apply IH.
  - by apply H in Hi.
  - by apply H in Hi'.
  - f_equal. apply IH. intros x. rewrite !elem_of_cons. by rewrite H.
Qed.

Lemma add_runs acc l :
  foldl add_run (Some <$> acc) (Some <$> l) = Some <$> (acc ++ distinct (run_ID <$> acc) l).
Proof.
  revert acc. induction l as [|r l IH]; intros acc; cbn [fmap list_fmap foldl distinct].
  { by rewrite app_nil_r. }
  unfold add_run at 2. change (GetID (Some r)) with (run_ID r).
  destruct (decide (run_ID r ∈ run_ID <$> acc)) as [Hi|Hi].
  - by rewrite (proj2 (elem_of_runs r acc) Hi), IH.
  - destruct (existsb _ _) eqn:E; [by apply elem_of_runs in E|].
    change [Some r] with (Some <$> [r]). rewrite <- fmap_app, IH, <- app_assoc. cbn [app]. do 3 f_equal.
    apply distinct_seen. intros x. rewrite fmap_app, elem_of_app, elem_of_cons. cbn.
    rewrite list_elem_of_singleton. tauto.
Qed.

Lemma distinct_NoDup seen l :
  NoDup (run_ID <$> distinct seen l) ∧ ∀ x, x ∈ run_ID <$> distinct seen l ↔ x ∈ run_ID <$> l ∧ x ∉ seen.
Proof.
  revert seen. induction l as [|r l IH]; intros seen; cbn [distinct fmap list_fmap].
  { split; [constructor|]. intros x. rewrite elem_of_nil. tauto. }
  destruct (decide (run_ID r ∈ seen)) as [Hi|Hi].
  - destruct (IH seen) as [H1 H2]. split; [done|]. intros x. rewrite H2, elem_of_cons. split; [tauto|].
    intros [[->|?] ?]; done.
  - destruct (IH (run_ID r :: seen)) as [H1 H2]. cbn [fmap list_fmap]. split.
    + constructor; [|done]. rewrite H2. intros [_ Hn]. apply Hn. left.
    + intros x. rewrite !elem_of_cons, H2, not_elem_of_cons. destruct (decide (x = run_ID r)) as [->|]; tauto.
Qed.

Lemma add_jobs run acc js : foldl (add_job run) acc js = acc ++ queued_of run js.
Proof.
  revert acc. induction js as [|j js IH]; intros acc; cbn [foldl].
  { by rewrite app_nil_r. }
  rewrite IH. unfold add_job, queued_of. destruct (String.eqb_spec (job_Status j) "queued").
  - rewrite filter_cons_True by done. by rewrite <- app_assoc.
  - by rewrite filter_cons_False.
Qed.

Section queued.
Variable list_runs : string → Z → result (list (option WorkflowRun) * Z).
Variable list_jobs : Z → Z → result (list WorkflowJob * Z).
Variable fuel : nat.
Variable run_pages : string → list (list (option WorkflowRun)).
Variable job_pages : Z → list (list WorkflowJob).

Lemma all_runs_listing statuses acc l :
  (∀ s, s ∈ statuses → listing (list_runs s) 0 (run_pages s) ∧ (length (run_pages s) ≤ fuel)%nat) →
  concat ((λ s, concat (run_pages s)) <$> statuses) = Some <$> l →
  all_runs list_runs fuel statuses (Some <$> acc) = Some (Ok (Some <$> (acc ++ distinct (run_ID <$> acc) l))).
Proof.
  revert acc l. induction statuses as [|s statuses IH]; intros acc l Hs; cbn [fmap list_fmap concat all_runs].
  { intros E. destruct l; [|done]. by rewrite app_nil_r. }
  intros E. symmetry in E. apply fmap_app_inv in E as (l1 & l2 & E1 & E2 & ->). symmetry in E2.
  destruct (Hs s) as [Hl Hn]; [left|]. rewrite (pages_listing _ _ _ _ _ _ _ Hl Hn), E1, add_runs.
  rewrite (IH _ l2); [|intros; apply Hs; by right|done]. do 3 f_equal. rewrite <- app_assoc. f_equal.
  rewrite (fmap_app run_ID acc). clear. generalize (run_ID <$> acc) as seen. intros seen.
  assert (∀ seen', (∀ x, x ∈ seen' ↔ x ∈ seen ∨ x ∈ run_ID <$> l1) →
    distinct seen l1 ++ distinct seen' l2 = distinct seen (l1 ++ l2)) as H.
  { revert seen. induction l1 as [|r l1 IH]; intros seen seen' H; cbn [distinct app fmap list_fmap] in *.
    - apply distinct_seen. intros x. rewrite H, elem_of_nil. tauto.
    - destruct (decide (run_ID r ∈ seen)) as [Hi|Hi].
      + apply IH. intros x. rewrite H, elem_of_cons. split; [intros [?|[->|?]]; auto|tauto].
      + cbn [app]. f_equal. apply IH. intros x. rewrite H, !elem_of_cons. tauto. }
  apply H. intros x. rewrite elem_of_app. destruct (distinct_NoDup seen l1) as [_ ->].
  destruct (decide (x ∈ seen)); tauto.
Qed.

Lemma all_jobs_listing runs acc :
  (∀ r, r ∈ runs → listing (list_jobs (run_ID r)) 0 (job_pages (run_ID r)) ∧
     (length (job_pages (run_ID r)) ≤ fuel)%nat) →
  all_jobs list_jobs fuel (Some <$> runs) acc =
    Some (Ok (acc ++ concat ((λ r, queued_of r (concat (job_pages (run_ID r)))) <$> runs))).
Proof.
  revert acc. induction runs as [|r runs IH]; intros acc Hr; cbn [fmap list_fmap all_jobs concat].
  { by rewrite app_nil_r. }
  destruct (Hr r) as [Hl Hn]; [left|]. unfold queuedJobsForRun.
  rewrite (pages_listing _ _ _ _ _ _ _ Hl Hn), add_jobs, IH by (intros; apply Hr; by right).
  cbn [app]. by rewrite <- app_assoc.
Qed.
End queued.

(** Listing queued jobs ends and is complete: with the pages of every
    listing finite, the call returns the queued jobs of every run that is
    queued, in progress or pending, in the order the runs are first listed, and
    a run that moves from one status to another during the listing is asked for
    its jobs once. *)
Theorem QueuedWorkflowJobs_complete list_runs list_jobs c fuel
    (run_pages : string → list (list (option WorkflowRun))) (job_pages : Z → list (list WorkflowJob)) runs :
  cl_scope c = ScopeRepo →
  (∀ s, s ∈ run_statuses → listing (list_runs s) 0 (run_pages s) ∧ (length (run_pages s) ≤ fuel)%nat) →
  concat ((λ s, concat (run_pages s)) <$> run_statuses) = Some <$> runs →
  (∀ r, r ∈ runs → listing (list_jobs (run_ID r)) 0 (job_pages (run_ID r)) ∧
     (length (job_pages (run_ID r)) ≤ fuel)%nat) →
  ∃ asked, QueuedWorkflowJobs list_runs list_jobs c fuel =
      Some (Ok (concat ((λ r, queued_of r (concat (job_pages (run_ID r)))) <$> asked))) ∧
    NoDup (run_ID <$> asked) ∧ asked `sublist_of` runs ∧ ∀ x, x ∈ run_ID <$> asked ↔ x ∈ run_ID <$> runs.
Proof.
  intros Hc Hr El Hj. exists (distinct [] runs).
  assert (∀ seen l, distinct seen l `sublist_of` l) as Hsub.
  { intros seen l. revert seen. induction l as [|r l IH]; intros seen; cbn [distinct]; [done|].
    case_decide; [by apply sublist_cons|by apply sublist_skip]. }
  destruct (distinct_NoDup [] runs) as [Hnd Hin]. split_and!; [|done|apply Hsub|].
  - unfold QueuedWorkflowJobs. rewrite Hc. cbn [negb String.eqb]. rewrite String.eqb_refl. cbn [negb].
    pose proof (all_runs_listing list_runs fuel run_pages run_statuses [] runs Hr El) as E.
    cbn [fmap list_fmap app] in E. rewrite E. rewrite (all_jobs_listing list_jobs fuel job_pages); [done|]. intros r Hrr. apply Hj.
    by eapply elem_of_sublist, Hsub.
  - intros x. rewrite Hin, elem_of_nil. tauto.
Qed.

(** Two pages of queued runs; run 1 is in progress by the time it is listed
    again. *)
Definition demo_run (id : Z) (status : string) : WorkflowRun :=
  MkRun id ".github/workflows/ci.yml" "push" (Some "octocat") "main" status.
Definition demo_runs (status : string) (page : Z) : result (list (option WorkflowRun) * Z) :=
  if String.eqb status "queued" then
    if page =? 0 then Ok ([Some (demo_run 1 "queued")], 2) else Ok ([Some (demo_run 2 "queued")], 0)
  else if String.eqb status "in_progress" then Ok ([Some (demo_run 1 "in_progress")], 0)
  else Ok ([], 0).
Definition demo_jobs (id page : Z) : result (list WorkflowJob * Z) :=
  Ok ([MkJob "queued" ["self-hosted"]; MkJob "completed" []], 0).
Definition demo_run_pages (status : string) : list (list (option WorkflowRun)) :=
  if String.eqb status "queued" then [[Some (demo_run 1 "queued")]; [Some (demo_run 2 "queued")]]
  else if String.eqb status "in_progress" then [[Some (demo_run 1 "in_progress")]] else [[]].

Lemma QueuedWorkflowJobs_complete_witness :
  let c := MkClient ScopeRepo "o" "r" in
  option_map (λ r, match r with Ok jobs => length jobs | Err _ => 0%nat end)
    (QueuedWorkflowJobs demo_runs demo_jobs c 5) = Some 2%nat ∧
  ∃ asked, NoDup (run_ID <$> asked) ∧
    QueuedWorkflowJobs demo_runs demo_jobs c 5 = Some (Ok (concat ((λ r, queued_of r
      (concat [[MkJob "queued" ["self-hosted"]; MkJob "completed" []]])) <$> asked))).
Proof.
  intros c. split; [vm_compute; reflexivity|].
  destruct (QueuedWorkflowJobs_complete demo_runs demo_jobs c 5 demo_run_pages
    (λ _, [[MkJob "queued" ["self-hosted"]; MkJob "completed" []]])
    [demo_run 1 "queued"; demo_run 2 "queued"; demo_run 1 "in_progress"]) as (asked & E & Hnd & _).
  - reflexivity.
  - intros s. unfold run_statuses. rewrite !elem_of_cons, elem_of_nil.
    intros [-> | [-> | [-> | []]]]; (split; [|vm_compute; lia]).
    + eapply listing_next; [reflexivity|lia|]. by apply listing_last.
    + by apply listing_last.
    + by apply listing_last.
  - reflexivity.
  - intros r _. split; [by apply listing_last|cbn; lia].
  - by exists asked.
Defined.

(** ** Polling a set of repositories *)

(** The clients with their repositories, from the [k]th on. *)
Definition rotated (k : nat) (rs : RepoSet) : list (Client * string) :=
  let l := zip (rs_clients rs) (rs_repos rs) in drop k l ++ take k l.

Definition jobs_from (jobs_of : Client → result (list QueuedJob)) (l : list (Client * string)) : list QueuedJob :=
  concat ((λ '(c, _), match jobs_of c with Ok jobs => pairWith c jobs | Err _ => [] end) <$> l).

Definition failing (jobs_of : Client → result (list QueuedJob)) (l : list (Client * string))
    : list (string * goerror) :=
  omap (λ '(c, r), match jobs_of c with Err e => Some (r, e) | Ok _ => None end) l.

Lemma list_to_map_foldl (l : list (string * goerror)) :
  NoDup l.*1 → foldl (λ m '(r, e), <[r := e]> m) ∅ l = list_to_map (M := gmap string goerror) l.
Proof.
  induction l as [|[r e] l IH] using rev_ind; [done|]. rewrite fmap_app, NoDup_app, foldl_app. cbn.
  intros (H1 & H2 & _). rewrite IH by done.
  rewrite <- (list_to_map_proper ((r, e) :: l) (l ++ [(r, e)])); [done| |by rewrite Permutation_app_comm].
  cbn. constructor; [|done]. intros Hr. apply (H2 r Hr). left.
Qed.

Lemma poll_pairs jobs_of rs idx st l :
  length (rs_clients rs) = length (rs_repos rs) →
  Forall2 (λ i x, zip (rs_clients rs) (rs_repos rs) !! i = Some x) idx l →
  foldl (λ st i, poll_client jobs_of rs i st) st idx =
    (st.1 ++ jobs_from jobs_of l, foldl (λ m '(r, e), <[r := e]> m) st.2 (failing jobs_of l)).
Proof.
  intros Hlen Hf. revert st. induction Hf as [|i [c r] idx l Hi _ IH]; intros st; cbn [foldl].
  { destruct st. cbn. by rewrite app_nil_r. }
  rewrite IH. apply lookup_zip_Some in Hi as [Hc Hr]. unfold poll_client. rewrite Hc, Hr.
  unfold jobs_from, failing. cbn [fmap list_fmap omap list_omap concat].
  destruct (jobs_of c) as [jobs|e]; cbn [fst snd default from_option id app foldl]; [|done].
  by rewrite <- app_assoc.
Qed.

Lemma rotated_indices {A} (l : list A) k :
  (k < length l)%nat →
  Forall2 (λ i x, l !! i = Some x)
    ((λ o, Z.to_nat (Z.rem (Z.of_nat k + o) (Z.of_nat (length l)))) <$> upto (length l)) (drop k l ++ take k l).
Proof.
  intros Hk. apply Forall2_same_length_lookup_2.
  { rewrite length_fmap, length_upto, length_app, length_drop, length_take. lia. }
  intros o i x Ho Hx. rewrite list_lookup_fmap in Ho. apply fmap_Some in Ho as (z & Hz & ->).
  unfold upto in Hz. rewrite list_lookup_fmap in Hz. apply fmap_Some in Hz as (j & Hj & ->).
  apply lookup_seq in Hj as [-> Hj]. cbn in *. rewrite Z.rem_mod_nonneg by lia.
  destruct (decide (o < length l - k)%nat) as [Ho|Ho].
  - rewrite lookup_app_l in Hx by (rewrite length_drop; lia). rewrite lookup_drop in Hx.
    rewrite Z.mod_small by lia. by replace (Z.to_nat (Z.of_nat k + Z.of_nat o)) with (k + o)%nat by lia.
  - rewrite lookup_app_r in Hx by (rewrite length_drop; lia). rewrite length_drop in Hx.
    apply lookup_take_Some in Hx as [Hx _].
    replace ((Z.of_nat k + Z.of_nat o) mod Z.of_nat (length l)) with (Z.of_nat k + Z.of_nat o - Z.of_nat (length l)).
    + by replace (Z.to_nat (Z.of_nat k + Z.of_nat o - Z.of_nat (length l))) with (o - (length l - k))%nat by lia.
    + apply (Z.mod_unique _ _ 1); lia.
Qed.

Lemma failing_NoDup jobs_of l : NoDup l.*2 → NoDup (failing jobs_of l).*1.
Proof.
  intros Hnd. eapply sublist_NoDup; [exact Hnd|]. clear Hnd. induction l as [|[c r] l IH]; [done|].
  cbn. destruct (jobs_of c); cbn; [by apply sublist_cons|by apply sublist_skip].
Qed.

Lemma failing_le jobs_of l : (length (failing jobs_of l) ≤ length l)%nat.
Proof. induction l as [|[c r] l IH]; cbn; [lia|]. destruct (jobs_of c); cbn; unfold failing in IH; lia. Qed.

Lemma failing_all jobs_of l :
  length (failing jobs_of l) = length l ↔ ∀ c, c ∈ l.*1 → ∃ x, jobs_of c = Err x.
Proof.
  induction l as [|[c r] l IH]; cbn.
  { split; [by intros _ c ?%not_elem_of_nil|done]. }
  pose proof (failing_le jobs_of l). unfold failing in *. destruct (jobs_of c) as [j|x] eqn:Ej; cbn.
  - split; [lia|]. intros Hx. destruct (Hx c) as [y ?]; [left|congruence].
  - split.
    + intros [= E] c' [->|Hc]%elem_of_cons; [by exists x|]. by apply IH.
    + intros Hx. f_equal. apply IH. intros c' Hc. apply Hx. by right.
Qed.

Lemma rotated_perm k rs : rotated k rs ≡ₚ zip (rs_clients rs) (rs_repos rs).
Proof. unfold rotated. by rewrite Permutation_app_comm, take_drop. Qed.

Lemma rotated_NoDup k rs :
  length (rs_clients rs) = length (rs_repos rs) → NoDup (rs_repos rs) → NoDup (rotated k rs).*2.
Proof. intros Hlen Hnd. rewrite rotated_perm, snd_zip by lia. done. Qed.

(** The loop of a poll that starts at [k]. *)
Lemma poll_loop jobs_of rs k :
  length (rs_clients rs) = length (rs_repos rs) → (k < length (rs_clients rs))%nat → NoDup (rs_repos rs) →
  foldl (λ st o, poll_client jobs_of rs
      (Z.to_nat (Z.rem (Z.of_nat k + o) (Z.of_nat (length (rs_clients rs))))) st) ([], ∅)
      (upto (length (rs_clients rs)))
    = (jobs_from jobs_of (rotated k rs), list_to_map (failing jobs_of (rotated k rs))).
Proof.
  intros Hlen Hk Hnd. assert (length (zip (rs_clients rs) (rs_repos rs)) = length (rs_clients rs)) as Hz
    by (rewrite length_zip; lia).
  pose proof (rotated_indices (zip (rs_clients rs) (rs_repos rs)) k ltac:(lia)) as Hf. rewrite Hz in Hf.
  pose proof (poll_pairs jobs_of rs _ ([], ∅) _ Hlen Hf) as E. rewrite foldl_fmap in E.
  rewrite E. cbn [fst snd app]. rewrite list_to_map_foldl; [done|].
  by apply (failing_NoDup jobs_of (rotated k rs)), rotated_NoDup.
Qed.

(** A poll of a set of repositories asks each of them once, starting one
    repository further than the poll before, so that over as many polls as
    there are repositories each comes first once; it keeps the jobs of those
    that answer, paired with the client of the repository that queued them, and
    reports exactly those that do not; all are reported failed only when none
    answered. *)
Theorem RepoSet_polls_all jobs_of (rs : RepoSet) :
  rs_clients rs ≠ [] → length (rs_clients rs) = length (rs_repos rs) → NoDup (rs_repos rs) → 0 ≤ rs_poll rs < int64_max →
  let k := Z.to_nat (rs_poll rs mod Z.of_nat (length (rs_clients rs))) in
  let failed := failing jobs_of (rotated k rs) in
  ∃ all err rs',
  RepoSet_QueuedJobs jobs_of rs = Some (all, err, rs') ∧
  all = jobs_from jobs_of (rotated k rs) ∧
  rs' = MkRepoSet (rs_clients rs) (rs_repos rs) (rs_poll rs + 1) ∧
  (err = None ↔ failed = []) ∧
  ∀ e, err = Some e →
    Failures e = list_to_map failed ∧ Total e = Z.of_nat (length (rs_clients rs)) ∧
    (AllFailed e = true ↔ ∀ c, c ∈ rs_clients rs → ∃ x, jobs_of c = Err x).
Proof.
  intros Hne Hlen Hnd Hp k failed. set (n := length (rs_clients rs)) in *.
  assert (0 < n)%nat by (unfold n; destruct (rs_clients rs); [done|cbn; lia]).
  pose proof (Z.mod_pos_bound (rs_poll rs) (Z.of_nat n) ltac:(lia)).
  unfold RepoSet_QueuedJobs. fold n. destruct (Z.eqb_spec (Z.of_nat n) 0); [lia|].
  rewrite (Z.mod_small (rs_poll rs + 1)), Z.mod_small by (unfold int64_max in Hp; lia).
  replace (rs_poll rs + 1 - 1) with (rs_poll rs) by lia. rewrite wrap64_id by (unfold int64_min, int64_max in *; lia).
  rewrite (Z.rem_mod_nonneg (rs_poll rs)) by lia. destruct (Z.ltb_spec (rs_poll rs mod Z.of_nat n) 0); [lia|].
  pose proof (poll_loop jobs_of rs k Hlen ltac:(unfold k; lia) Hnd) as E. fold n in E.
  unfold k in E at 1. rewrite Z2Nat.id in E by lia. rewrite E. clear E. fold failed.
  assert (size (list_to_map (M := gmap string goerror) failed) = length failed) as Hsz.
  { by apply map_size_list_to_map, failing_NoDup, rotated_NoDup. }
  rewrite Hsz. eexists _, _, _. split_and!; [done|done|done| |].
  - destruct (Z.ltb_spec 0 (Z.of_nat (length failed))); destruct failed; cbn in *; try lia; done.
  - intros e. destruct (Z.ltb_spec 0 (Z.of_nat (length failed))); [|done]. intros [= <-].
    split_and!; [done|done|]. unfold AllFailed. cbn [Failures Total]. rewrite Hsz.
    assert (length (rotated k rs) = n) as Hrl by (rewrite rotated_perm, length_zip; lia).
    pose proof (failing_all jobs_of (rotated k rs)) as Ha. rewrite Hrl in Ha.
    rewrite andb_true_iff, Z.ltb_lt, Z.eqb_eq, Nat2Z.inj_iff. unfold failed. rewrite Ha.
    setoid_rewrite rotated_perm. rewrite fst_zip by lia. intuition lia.
Qed.

Lemma RepoSet_polls_all_witness :
  let a := MkClient ScopeRepo "o" "a" in let b := MkClient ScopeRepo "o" "b" in
  let jobs_of (c : Client) := if String.eqb (cl_repo c) "a" then Err (errorf "down")
                              else Ok [queuedJobMetadata (demo_run 7 "queued")] in
  let rs := MkRepoSet [a; b] ["o/a"; "o/b"] 3 in
  ∃ err rs', RepoSet_QueuedJobs jobs_of rs = Some (jobs_from jobs_of (rotated 1 rs), err, rs') ∧
             length (jobs_from jobs_of (rotated 1 rs)) = 1%nat.
Proof.
  intros a b jobs_of rs.
  assert (NoDup (rs_repos rs)) as Hnd by (repeat constructor; set_solver).
  destruct (RepoSet_polls_all jobs_of rs ltac:(done) eq_refl Hnd ltac:(cbn; unfold int64_max; lia))
    as (all & err & rs' & E & -> & _).
  exists err, rs'. split; [exact E|vm_compute; reflexivity].
Defined.
