(* ===== verification/Provider.v ===== *)
(** * Client providers

    [internal/github/provider.go]: the interface [ClientProvider] that pools
    and the autoscaler use, with its two implementations, the client of one
    scope and the set of per-repository clients that [main.go] builds.  The
    law of the interface is what its callers rely on: a client handed out for
    a repository registers runners there. *)

From S2P Require Import Prelude GoErr GoStr Config GitHub.

Local Open Scope Z_scope.
Local Open Scope go_scope.

(** The error of a poll, which callers look into with [errors.As]. *)
Inductive poll_error :=
| PollFailed (e : RepoPollError)
| PollErr (e : goerror).

(** [jobs_of] is what the queue of each client lists.  A poll may panic,
    [None]. *)
Class ClientProvider (P : Type) := {
  ClientForSlot : P → Z → option Client;
  ClientFor : P → string → option Client;
  QueuedJobs : (Client → result (list QueuedJob)) → P → option (list QueuedJob * option poll_error * P);
  Scope : P → string
}.

#[export] Instance client_provider : ClientProvider Client := {|
  ClientForSlot := Client_ClientForSlot;
  ClientFor := Client_ClientFor;
  QueuedJobs jobs_of c :=
    match Client_QueuedJobs c (jobs_of c) with
    | Ok jobs => Some (jobs, None, c)
    | Err e => Some ([], Some (PollErr e), c)
    end;
  Scope := cl_scope
|}.

#[export] Instance reposet_provider : ClientProvider RepoSet := {|
  ClientForSlot := RepoSet_ClientForSlot;
  ClientFor := RepoSet_ClientFor;
  QueuedJobs jobs_of rs :=
    match RepoSet_QueuedJobs jobs_of rs with
    | Some (jobs, e, rs) => Some (jobs, PollFailed <$> e, rs)
    | None => None
    end;
  Scope _ := ScopeRepos
|}.

(** The clients of [scope: repos]. *)
Definition repo_provider (refs : list RepoRef) : RepoSet :=
  NewRepoSet ((λ ref, MkClient ScopeRepo (ref_Owner ref) (ref_Repo ref)) <$> refs)
    ((λ ref, ref_Owner ref +:+ "/" +:+ ref_Repo ref) <$> refs).

(** ** The law *)

(** The client registers runners for the repository. *)
Definition serves (c : Client) (repo : string) : Prop :=
  cl_scope c = ScopeRepo → fold_eq (Target c) repo.

(** A job with the client it can be run on. *)
Definition placed (j : QueuedJob) : Prop :=
  ∃ c, qj_Client j = Some c ∧ (qj_Repository j = "" ∨ serves c (qj_Repository j)).

Class ProviderLaws (P : Type) `{ClientProvider P} := {
  (** What the laws ask of a provider; a poll keeps it. *)
  provider_ok : P → Prop;
  ClientFor_serves p repo c : provider_ok p → ClientFor p repo = Some c → serves c repo;
  QueuedJobs_placed jobs_of p jobs e p' :
    (∀ c jobs, jobs_of c = Ok jobs → Forall (λ j, qj_Repository j = "") jobs) →
    provider_ok p → QueuedJobs jobs_of p = Some (jobs, e, p') → Forall placed jobs ∧ provider_ok p'
}.

Lemma pairWith_placed c jobs : Forall (λ j, qj_Repository j = "") jobs → Forall placed (pairWith c jobs).
Proof.
  intros Hj. apply Forall_fmap. eapply Forall_impl; [exact Hj|]. intros j E. exists c. split; [done|].
  cbn. rewrite E. cbn. unfold serves. destruct (String.eqb_spec (cl_scope c) ScopeRepo); [right|by left].
  intros _. apply equal_fold_refl.
Qed.

#[export] Program Instance client_laws : ProviderLaws Client := {| provider_ok _ := True |}.
Next Obligation.
  intros p repo c _ Hc Hs. cbn in Hc. unfold Client_ClientFor in Hc.
  destruct (String.eqb_spec (cl_scope p) ScopeRepo); cbn in Hc; [|congruence].
  unfold fold_eq. destruct (equal_fold (Target p) repo) eqn:E; cbn in Hc; congruence.
Qed.
Next Obligation.
  intros jobs_of p jobs e p' Hj _ Hq. split; [|done]. cbn in Hq. destruct (jobs_of p) as [l|] eqn:E; cbn in Hq.
  - injection Hq as <- _ _. by eapply pairWith_placed, Hj.
  - injection Hq as <- _ _. constructor.
Qed.

(** The labels of the set are the targets of its clients. *)
Definition reposet_ok (rs : RepoSet) : Prop := Forall2 (λ c r, Target c = r) (rs_clients rs) (rs_repos rs).

Lemma client_for_serves repo repos clients c :
  Forall2 (λ c r, Target c = r) clients repos → client_for repo repos clients = Some c → serves c repo.
Proof.
  intros Hf. induction Hf as [|c' r clients repos Hr _ IH]; cbn; [done|].
  destruct (equal_fold r repo) eqn:E; [|done]. intros [= <-] _. by subst r.
Qed.

Lemma poll_client_placed jobs_of rs i st :
  (∀ c jobs, jobs_of c = Ok jobs → Forall (λ j, qj_Repository j = "") jobs) →
  Forall placed st.1 → Forall placed (poll_client jobs_of rs i st).1.
Proof.
  intros Hj Hst. unfold poll_client. destruct (rs_clients rs !! i) as [c|]; [|done].
  destruct (jobs_of c) as [l|] eqn:E; cbn; [|done]. apply Forall_app. split; [done|].
  by eapply pairWith_placed, Hj.
Qed.

#[export] Program Instance reposet_laws : ProviderLaws RepoSet := {| provider_ok := reposet_ok |}.
Next Obligation. intros p repo c Hp Hc. by eapply client_for_serves. Qed.
Next Obligation.
  intros jobs_of p jobs e p' Hj Hp Hq. cbn in Hq. unfold RepoSet_QueuedJobs in Hq.
  destruct (_ =? 0); [injection Hq as <- _ <-; split; [constructor|done]|].
  destruct (_ <? 0); [done|]. set (start := Z.rem _ _) in Hq.
  destruct (foldl _ _ _) as [all failures] eqn:E. injection Hq as <- _ <-. split; [|done].
  change all with (all, failures).1. rewrite <- E. clear E.
  generalize (upto (length (rs_clients p))). intros l.
  assert (Forall placed (@nil QueuedJob, ∅ : gmap string goerror).1) as H0 by constructor.
  revert H0. generalize (@nil QueuedJob, ∅ : gmap string goerror).
  induction l as [|o l IH]; intros st Hst; cbn [foldl]; [done|]. by apply IH, poll_client_placed.
Qed.

Lemma repo_provider_ok refs :
  Forall (λ ref, ref_Repo ref ≠ "") refs → provider_ok (repo_provider refs).
Proof.
  intros Hr. unfold provider_ok, reposet_laws, reposet_ok, repo_provider, NewRepoSet. cbn [rs_clients rs_repos].
  rewrite Forall2_fmap, Forall2_same_length_lookup. split; [done|]. intros i a b Ha Hb. assert (a = b) as -> by congruence.
  pose proof (proj1 (Forall_lookup _ _) Hr i _ Hb) as Hne. unfold Target. cbn [cl_repo cl_owner]. by apply is_empty_false in Hne as ->.
Qed.
