(* ===== verification/Pools.v ===== *)
(** * Warm pools

    [internal/pool/launcher.go] and [pool.go]: the launcher of one pool, which
    the autoscaler shares, and the slots a warm pool keeps filled.  A launch
    is [RunOnce] behind the pool's authorization and between its metric hooks;
    a slot repeats it, backing off after failures.  Random bytes, the calls of
    a run and the context answer as the environment says. *)

From S2P Require Import Prelude GoErr GoStr Codec Config Backend Runner GitHub Provider.

Local Open Scope Z_scope.
Local Open Scope go_scope.

Definition backoffBase : Z := 2 * 10 ^ 9.
Definition backoffMax : Z := 60 * 10 ^ 9.

(** Which hooks are set. *)
Record Hooks := MkHooks { OnStart : bool; OnStop : bool }.

Record Launcher := {
  l_cfg : Config.Pool;
  l_image : string;
  l_env : gmap string string;
  l_mounts : list Mount;
  l_container : ContainerSettings;
  l_hooks : Hooks
}.

Definition NewLauncher (cfg : Config.Pool) (image : string) (env : gmap string string) (mounts : list Mount)
    (hooks : Hooks) : Launcher :=
  let k := Container cfg in
  {| l_cfg := cfg; l_image := image; l_env := env; l_mounts := mounts;
     l_container := {| CPUCount := cc_CPUs k; cs_MemoryBytes := MemoryBytes k;
                       cs_MemorySwapBytes := MemorySwapBytes k; cs_DNS := DNS k |};
     l_hooks := hooks |}.

Definition Max (l : Launcher) : Z := Size (l_cfg l).

Definition Allows (l : Launcher) (job : QueuedJob) : bool :=
  let target :=
    match qj_Client job with
    | Some c => if is_empty (qj_Repository job) then Target c else qj_Repository job
    | None => qj_Repository job
    end in
  bool_decide (is_Some (qj_Client job)) &&
  CanServeJob (l_cfg l) target (qj_WorkflowPath job) (qj_Event job) (qj_Actor job) (qj_Ref job).

Definition RequiresWorkflowMetadata (l : Launcher) : bool := negb (bool_decide (Workflows (l_cfg l) = [])).

(** The answer of the backend. *)
Definition EnsureImage (l : Launcher) (answer : option goerror) : option goerror :=
  match answer with
  | Some e => Some (errorf_w ("pool " +:+ Name (l_cfg l) +:+ ": ") e)
  | None => None
  end.

(** [shortID] reads four bytes. *)
Definition shortID (rand : string) : string := hex_encode rand.
Definition runnerName (l : Launcher) (rand : string) : string :=
  NamePrefix (l_cfg l) +:+ "-" +:+ OS (l_cfg l) +:+ "-" +:+ shortID rand.

Definition runner_spec (l : Launcher) (rand : string) : Spec :=
  {| spec_Name := runnerName l rand; spec_Image := l_image l; spec_RunnerGroupID := RunnerGroupID (l_cfg l);
     spec_Labels := Labels (l_cfg l); spec_WorkFolder := WorkFolder (l_cfg l); spec_Env := l_env l;
     spec_Mounts := l_mounts l; spec_Container := l_container l; spec_Index := 0 |}.

(** What a launch does: the hooks, and the calls made for a client. *)
Inductive event :=
| EStart (pool : string)
| ECall (client : Client) (c : call)
| EStop (pool : string) (code : Z) (err : option goerror).

(** The guards of [RunJob]: the client to register with. *)
Definition authorize (l : Launcher) (job : QueuedJob) : result Client :=
  match qj_Client job with
  | None => Err (errorf ("pool " +:+ Name (l_cfg l) +:+ ": no github client available to register a runner"))
  | Some client =>
      if negb (Allows l job) then
        let target := if is_empty (qj_Repository job) then Target client else qj_Repository job in
        Err (errorf ("pool " +:+ Name (l_cfg l) +:+ ": job from repository " +:+ target +:+ " workflow " +:+
               quote (qj_WorkflowPath job) +:+ " event " +:+ quote (qj_Event job) +:+ " actor " +:+
               quote (qj_Actor job) +:+ " is not allowed"))
      else Ok client
  end.

Definition start_hook (l : Launcher) : list event := if OnStart (l_hooks l) then [EStart (Name (l_cfg l))] else [].
Definition stop_hook (l : Launcher) (code : Z) (err : option goerror) : list event :=
  if OnStop (l_hooks l) then [EStop (Name (l_cfg l)) code err] else [].

Definition RunJob (l : Launcher) (rand : string) (ans : run_answers) (job : QueuedJob)
    : Z * option goerror * list event :=
  match authorize l job with
  | Err e => (0, Some e, [])
  | Ok client =>
      let '(code, err, calls) := RunOnce ans (runner_spec l rand) in
      (code, err, start_hook l ++ (ECall client <$> calls) ++ stop_hook l code err)
  end.

Definition RunOneOn (l : Launcher) (rand : string) (ans : run_answers) (client : option Client) :=
  RunJob l rand ans (MkQueuedJob client "" [] "" "" "" "" "").

Section provider.
Context `{ClientProvider P}.

Definition RunOneForSlot (l : Launcher) (gh : P) (rand : string) (ans : run_answers) (slot : Z) :=
  RunOneOn l rand ans (ClientForSlot gh slot).
Definition RunOne (l : Launcher) (gh : P) (rand : string) (ans : run_answers) := RunOneForSlot l gh rand ans 0.

(** ** Slots *)

Fixpoint backoff_loop (n : nat) (d : Z) : Z :=
  match n with
  | O => if backoffMax <? d then backoffMax else d
  | S n => let d := wrap64 (d * 2) in if backoffMax <=? d then backoffMax else backoff_loop n d
  end.
Definition backoff (failures : Z) : Z := backoff_loop (Z.to_nat (failures - 1)) backoffBase.

(** The answers to one pass of a slot: whether the context is live at its
    start and after the run, the run's random bytes and calls, and whether the
    delay was slept to its end. *)
Record round := Round {
  rd_live : bool;
  rd_rand : string;
  rd_answers : run_answers;
  rd_ended : bool;
  rd_slept : bool
}.

(** [SBackoff failures delay over]: a failure, logged again when the pool's
    maximum is reached. *)
Inductive slot_event :=
| SRun (e : event)
| SBackoff (failures delay : Z) (over : bool).

(** [runSlot], and whether it returned within the given passes. *)
Fixpoint run_slot (l : Launcher) (gh : P) (index failures : Z) (rounds : list round)
    : list slot_event * bool :=
  match rounds with
  | [] => ([], false)
  | r :: rounds =>
      if negb (rd_live r) then ([], true)
      else
        let '(_, err, evs) := RunOneForSlot l gh (rd_rand r) (rd_answers r) index in
        if rd_ended r then (SRun <$> evs, true)
        else
          match err with
          | Some _ =>
              let failures := failures + 1 in
              let delay := backoff failures in
              let evs := (SRun <$> evs) ++ [SBackoff failures delay (MaxConsecutiveFailures (l_cfg l) <=? failures)] in
              if negb (rd_slept r) then (evs, true)
              else let '(rest, b) := run_slot l gh index failures rounds in (evs ++ rest, b)
          | None =>
              let '(rest, b) := run_slot l gh index 0 rounds in ((SRun <$> evs) ++ rest, b)
          end
  end.

Definition runSlot (l : Launcher) (gh : P) (index : Z) (rounds : list round) := run_slot l gh index 0 rounds.
End provider.

(** ** The delays of a slot *)

(** The delays slept, with the count of failures each followed. *)
Definition delays (evs : list slot_event) : list (Z * Z) :=
  omap (λ e, match e with SBackoff f d _ => Some (f, d) | SRun _ => None end) evs.

(** A pass that goes on: the context stays live and the delay is slept. *)
Definition steady (r : round) : Prop := rd_live r = true ∧ rd_ended r = false ∧ rd_slept r = true.

(** The run of a pass failed. *)
Definition failed `{ClientProvider P} (l : Launcher) (gh : P) (index : Z) (r : round) : bool :=
  bool_decide (is_Some (RunOneForSlot l gh (rd_rand r) (rd_answers r) index).1.2).

(** The failures in a row at the head of a list. *)
Fixpoint run_length (l : list bool) : nat := match l with true :: l => S (run_length l) | _ => 0 end.

(** The failures in a row that end with the [i]th pass. *)
Definition streak (errs : list bool) (i : nat) : Z := Z.of_nat (run_length (reverse (take (S i) errs))).

Definition delay_at (errs : list bool) (i : nat) : option (Z * Z) :=
  if decide (errs !! i = Some true)
  then Some (streak errs i, Z.min (backoffBase * 2 ^ (streak errs i - 1)) backoffMax) else None.

Lemma doubled_min n d :
  0 < d ≤ backoffMax → backoff_loop n d = Z.min (d * 2 ^ Z.of_nat n) backoffMax.
Proof.
  assert (backoffMax * 2 ≤ int64_max) as Hx by (unfold backoffMax, int64_max; lia).
  revert d. induction n as [|n IH]; intros d Hd; cbn [backoff_loop].
  - destruct (Z.ltb_spec backoffMax d); lia.
  - rewrite wrap64_id by (unfold int64_min; lia).
    replace (d * 2 ^ Z.of_nat (S n)) with (d * 2 * 2 ^ Z.of_nat n) by (rewrite Nat2Z.inj_succ, Z.pow_succ_r by lia; lia).
    pose proof (Z.pow_pos_nonneg 2 (Z.of_nat n) ltac:(lia) ltac:(lia)).
    destruct (Z.leb_spec backoffMax (d * 2)); [nia|]. apply IH. lia.
Qed.

Lemma backoff_min f : 1 ≤ f → backoff f = Z.min (backoffBase * 2 ^ (f - 1)) backoffMax.
Proof.
  intros Hf. unfold backoff. rewrite doubled_min by (unfold backoffBase, backoffMax; lia).
  by rewrite Z2Nat.id by lia.
Qed.

Lemma run_length_app a b : run_length (a ++ false :: b) = run_length a.
Proof. induction a as [|[] a IH]; cbn; [done|by rewrite IH|done]. Qed.

Lemma run_length_replicate n : run_length (replicate n true) = n.
Proof. induction n; cbn; congruence. Qed.

Lemma streak_reset a errs i : streak (a ++ false :: errs) (length a + S i) = streak errs i.
Proof.
  unfold streak. rewrite <- Nat.add_succ_r, take_app_add. cbn [take].
  rewrite reverse_app, reverse_cons, <- app_assoc. cbn [app]. by rewrite run_length_app.
Qed.

Lemma streak_failing f errs : streak (replicate f true ++ true :: errs) f = Z.of_nat f + 1.
Proof.
  unfold streak. replace (S f) with (f + 1)%nat by lia. rewrite take_app_add' by (by rewrite length_replicate).
  cbn [take]. rewrite take_0, <- replicate_S_end, reverse_replicate, run_length_replicate. lia.
Qed.

Lemma omap_seq_S {B} (f : nat → option B) n :
  omap f (seq 0 (S n)) = match f 0%nat with Some b => [b] | None => [] end ++ omap (λ i, f (S i)) (seq 0 n).
Proof.
  cbn. rewrite <- fmap_S_seq. assert (∀ l : list nat, omap f (S <$> l) = omap (λ i, f (S i)) l) as Hs.
  { induction l as [|x l IH]; [done|]. csimpl. by rewrite <- IH. }
  rewrite <- Hs. by destruct (f 0%nat).
Qed.

(** The delays of the passes [errs], after [f] failures in a row. *)
Definition delays_after (f : nat) (errs : list bool) : list (Z * Z) :=
  omap (λ i, delay_at (replicate f true ++ errs) (f + i)) (seq 0 (length errs)).

Lemma delays_after_failure f errs :
  delays_after f (true :: errs) =
    (Z.of_nat f + 1, Z.min (backoffBase * 2 ^ (Z.of_nat f)) backoffMax) :: delays_after (S f) errs.
Proof.
  unfold delays_after. cbn [length]. rewrite omap_seq_S, Nat.add_0_r. unfold delay_at at 1.
  rewrite decide_True by (by rewrite lookup_app_r, length_replicate, Nat.sub_diag by (rewrite length_replicate; lia)).
  rewrite streak_failing. replace (Z.of_nat f + 1 - 1) with (Z.of_nat f) by lia. cbn [app]. f_equal.
  apply list_omap_ext, Forall2_same_length_lookup_2; [done|]. intros i x y Hx Hy. assert (x = y) as -> by congruence.
  rewrite replicate_S_end, <- app_assoc. by replace (f + S y)%nat with (S f + y)%nat by lia.
Qed.

Lemma delays_after_success f errs : delays_after f (false :: errs) = delays_after 0 errs.
Proof.
  unfold delays_after. cbn [length]. rewrite omap_seq_S, Nat.add_0_r. unfold delay_at at 1.
  rewrite decide_False by (by rewrite lookup_app_r, length_replicate, Nat.sub_diag by (rewrite length_replicate; lia)).
  cbn [app]. apply list_omap_ext, Forall2_same_length_lookup_2; [done|]. intros i x y Hx Hy. assert (x = y) as -> by congruence.
  unfold delay_at. cbn [replicate app Nat.add].
  pose proof (streak_reset (replicate f true) errs y) as Hr. rewrite length_replicate in Hr. rewrite Hr.
  rewrite lookup_app_r by (rewrite length_replicate; lia). rewrite length_replicate.
  by replace (f + S y - f)%nat with (S y) by lia.
Qed.

Lemma run_slot_delays `{ClientProvider P} l (gh : P) index f rounds :
  Forall steady rounds →
  delays (run_slot l gh index (Z.of_nat f) rounds).1 = delays_after f (failed l gh index <$> rounds) ∧
  (run_slot l gh index (Z.of_nat f) rounds).2 = false.
Proof.
  intros Hs. revert f. induction Hs as [|r rounds (Hl & He & Hsl) _ IH]; intros f; [done|].
  cbn [run_slot fmap list_fmap]. rewrite Hl, He, Hsl. cbn [negb].
  unfold failed at 1. destruct (RunOneForSlot l gh (rd_rand r) (rd_answers r) index) as [[code err] evs].
  assert (∀ rest, delays ((SRun <$> evs) ++ rest) = delays rest) as Hev by (intros rest; clear; by induction evs).
  destruct err as [e|]; cbn [fst snd].
  - specialize (IH (S f)). replace (Z.of_nat f + 1) with (Z.of_nat (S f)) by lia.
    destruct (run_slot l gh index (Z.of_nat (S f)) rounds) as [rest b].
    cbn [fst snd] in *. destruct IH as [IH ->]. split; [|done].
    rewrite <- app_assoc, Hev, bool_decide_true, delays_after_failure by done. cbn [delays omap list_omap app].
    rewrite backoff_min by lia. rewrite <- IH. replace (Z.of_nat (S f) - 1) with (Z.of_nat f) by lia.
    by replace (Z.of_nat f + 1) with (Z.of_nat (S f)) by lia.
  - specialize (IH 0%nat). change (Z.of_nat 0) with 0 in IH. destruct (run_slot l gh index 0 rounds) as [rest b].
    cbn [fst snd] in *. destruct IH as [IH ->].
    split; [|done]. rewrite Hev, bool_decide_false by (by intros [? [=]]). by rewrite delays_after_success.
Qed.

(** A slot whose context stays live never stops: it launches a runner in
    every pass, and after each that failed sleeps two seconds doubled for every
    failure in a row before it, sixty at most; a run that ends well starts the
    count again. *)
Theorem runSlot_backoff `{ClientProvider P} l (gh : P) index rounds :
  Forall steady rounds →
  let errs := failed l gh index <$> rounds in
  (runSlot l gh index rounds).2 = false ∧
  delays (runSlot l gh index rounds).1 =
    omap (λ i, if decide (errs !! i = Some true)
               then Some (streak errs i, Z.min (backoffBase * 2 ^ (streak errs i - 1)) backoffMax)
               else None) (seq 0 (length errs)).
Proof. intros Hs errs. by destruct (run_slot_delays l gh index 0 rounds Hs). Qed.

(** A pass whose run fails at once, or ends well. *)
Definition demo_round (ok : bool) : round :=
  Round true "abcd"
    {| ra_jit := if ok then Ok {| Runner.EncodedJITConfig := "jit"; Runner_ID := 7 |} else Err (errorf "down");
       ra_launch := (Some "c", None); ra_wait := (0, None); ra_ctx := None; ra_kill := None; ra_busy := Ok false |} false true.

Definition demo_pool : Config.Pool :=
  {| Name := "linux"; OS := "linux"; Backend := ""; Size := 1; ImageTier := ""; Image := "";
     Container := {| cc_CPUs := 0; MemoryMB := 0; MemorySwapMB := 0; DNS := [] |};
     pool_QEMU := {| Golden := ""; WorkDir := ""; MemMB := 0; qemu_CPUs := 0; Accel := ""; BakeISO := "";
                     BakeISOSHA256 := ""; RunnerVersion := ""; RunnerSHA256 := ""; Licensed := false; Tools := [] |};
     pool_Containerd := {| Address := ""; Nerdctl := ""; Namespace := ""; cd_Isolation := "" |};
     RunnerGroupID := 1; Labels := ["self-hosted"]; pool_Repository := ""; Workflows := []; WorkflowEvent := "";
     WorkflowActor := ""; WorkflowRef := ""; WorkFolder := "_work"; NamePrefix := "mr";
     pool_Docker := {| Host := ""; TLS := {| CAFile := ""; CertFile := ""; KeyFile := "" |};
                       EnableDinD := false; ShareWorkspace := false; docker_Isolation := ""; WindowsDinD := "" |};
     pool_ToolCache := {| tc_Mode := ""; Volume := ""; ReadOnly := false |};
     MaxConsecutiveFailures := 2; ScaleSet := ""; RunnerGroup := "" |}.

Lemma runSlot_backoff_witness :
  let l := NewLauncher demo_pool "image" ∅ [] (MkHooks true true) in
  delays (runSlot l (MkClient ScopeRepo "acme" "app") 0
            (demo_round <$> [false; false; true; false; true; false; false; false; false; false; false; false])).1 =
  (λ '(f, d), (f, d * 10 ^ 9)) <$>
    [(1, 2); (2, 4); (1, 2); (1, 2); (2, 4); (3, 8); (4, 16); (5, 32); (6, 60); (7, 60)].
Proof.
  intros l. etransitivity.
  - apply runSlot_backoff. by repeat constructor.
  - vm_compute. reflexivity.
Defined.
