(* ===== verification/Accounts.v ===== *)
(** * Accounts of threads

    Quantities of the shared state that are sums of what the threads hold, such
    as the slots taken of a semaphore or a lock: every action moves as much in
    or out of the state as its thread's accounts change, and gives the rest to
    the threads it starts.  Then each quantity is that sum in every
    interleaving, and nothing is left once every thread has returned.  An
    action may use that its thread's part is in the state to keep an invariant
    of the state: a thread that holds a lock is the only one that does.  In
    [ledger] actions follow a history order as well, as in [Threads], so that a
    thread may also rely on what it has seen and what stays so. *)

From S2P Require Import Prelude Threads.

Local Open Scope Z_scope.

(** What is held in all, by the threads [ns]. *)
Definition held (ns : list nat) : Z := Z.of_nat (sum_list ns).

Lemma held_nil : held [] = 0.
Proof. done. Qed.

Lemma held_cons n ns : held (n :: ns) = Z.of_nat n + held ns.
Proof. unfold held. cbn. unfold id. lia. Qed.

Lemma held_app a b : held (a ++ b) = held a + held b.
Proof. unfold held. rewrite sum_list_with_app. lia. Qed.

Lemma held_insert i n n' ns : ns !! i = Some n → held (<[i:=n']> ns) + Z.of_nat n = held ns + Z.of_nat n'.
Proof.
  revert i. induction ns as [|m ns IH]; intros [|i] H; [done|done| |].
  - injection H as ->. change (<[0%nat:=n']> (n :: ns)) with (n' :: ns). rewrite !held_cons. lia.
  - specialize (IH i H). change (<[S i:=n']> (m :: ns)) with (m :: <[i:=n']> ns). rewrite !held_cons. lia.
Qed.

Lemma held_lookup i n ns : ns !! i = Some n → Z.of_nat n ≤ held ns.
Proof. intros Hn. pose proof (held_insert i n 0 ns Hn). unfold held in *. lia. Qed.

Lemma held_all_zero {A} (f : A → nat) l : Forall (λ x, f x = 0%nat) l → held (f <$> l) = 0.
Proof. induction 1 as [|x l Hx _ IH]; [done|]. cbn [fmap list_fmap]. by rewrite held_cons, IH, Hx. Qed.

Section ledger.
Context {St Env Th K : Type}.
Variable body : Th → prog St Env Th unit.
Variable call : Th → Prop.
Variable adm : Env → St → Prop.
Variable Inv : St → Prop.
(** The history order every action follows, and what a thread starts with. *)
Variable R : St → St → Prop.
Variable pre : Th → St → Prop.
(** The quantities, and what a thread holds of each when it starts. *)
Variable mu : K → St → Z.
Variable share : K → Th → nat.
Hypothesis R_preorder : PreOrder R.

(** A step of a thread that holds [n] and then [n']. *)
Definition moves (n n' : K → nat) (s s' : St) (sp : list Th) : Prop :=
  ∀ k, mu k s' + Z.of_nat (n k) = mu k s + Z.of_nat (n' k) + held (share k <$> sp).

(** From any state later than [s0] the program, which holds [n], keeps the
    invariant, follows the history order and returns with [Q]. *)
Fixpoint keeps {A} (s0 : St) (n : K → nat) (p : prog St Env Th A) (Q : A → St → (K → nat) → Prop) : Prop :=
  match p with
  | Ret a => Q a s0 n
  | Do f k => ∀ env s r s' sp, R s0 s → Inv s → adm env s → (∀ q, Z.of_nat (n q) ≤ mu q s) →
      f env s = Some (r, s', sp) →
      Inv s' ∧ R s s' ∧ Forall (λ t, pre t s') sp ∧ ∃ n', moves n n' s s' sp ∧ keeps s' n' (k r) Q
  end.

Lemma keeps_imply {A} s0 n (p : prog St Env Th A) Q Q' :
  (∀ a s m, R s0 s → Q a s m → Q' a s m) → keeps s0 n p Q → keeps s0 n p Q'.
Proof using R_preorder.
  revert s0 n. induction p as [a|X f k IH]; intros s0 n HQ; cbn; [by apply HQ|].
  intros H env s r s' sp H1 H2 H3 H4 H5. destruct (H env s r s' sp H1 H2 H3 H4 H5) as (? & HR & ? & m & ? & Hk).
  split_and!; [done..|]. exists m. split; [done|]. eapply IH; [|exact Hk]. intros a u m' Hu. apply HQ.
  transitivity s'; [|done]. by transitivity s.
Qed.

Lemma keeps_seq {A B} s0 n (p : prog St Env Th A) (g : A → prog St Env Th B) Q :
  keeps s0 n p (λ a s m, keeps s m (g a) Q) → keeps s0 n (pbind p g) Q.
Proof.
  revert s0 n. induction p as [a|X f k IH]; intros s0 n; cbn; [done|].
  intros H env s r s' sp H1 H2 H3 H4 H5. destruct (H env s r s' sp H1 H2 H3 H4 H5) as (? & ? & ? & m & ? & ?).
  split_and!; [done..|]. exists m. eauto.
Qed.

(** A thread returns what it holds. *)
Definition ends {A} (_ : A) (_ : St) (m : K → nat) : Prop := ∀ k, m k = 0%nat.

Hypothesis body_keeps : ∀ t s, pre t s → keeps s (λ k, share k t) (body t) ends.
Hypothesis call_starts : ∀ t, call t → (∀ s, pre t s) ∧ ∀ k, share k t = 0%nat.

Definition due (s : St) (n : K → nat) (p : prog St Env Th unit) : Prop :=
  ∃ s0, R s0 s ∧ keeps s0 n p ends.

Lemma due_later s s' n p : R s s' → due s n p → due s' n p.
Proof using R_preorder. intros Hs (s0 & H0 & Hp). exists s0. split; [by transitivity s|done]. Qed.

Lemma ledger s0 c :
  (∀ k, mu k s0 = 0) → Inv s0 → reachable body call adm s0 c →
  Inv (mem c) ∧ ∃ ns, Forall2 (due (mem c)) ns (pool c) ∧ ∀ k, mu k (mem c) = held ((λ n, n k) <$> ns).
Proof using body_keeps call_starts R_preorder.
  intros H0 Hi Hr. induction Hr as [|c c' Hc [Hinv (ns & Hf & Hm)] Hs]; [by split; [|exists []]|].
  destruct Hs as [X i f k env s ts r s' sp Hl Ha Hst|t s ts Hcall]; cbn [mem pool] in *.
  - destruct (Forall2_lookup_r _ _ _ _ _ Hf Hl) as (n & Hn & u & Hu & Hown).
    assert (∀ q, ((λ n, n q) <$> ns) !! i = Some (n q)) as Hnq by (intros q; by rewrite list_lookup_fmap, Hn).
    assert (∀ q, Z.of_nat (n q) ≤ mu q s) as Hle by (intros q; rewrite Hm; by eapply held_lookup).
    destruct (Hown env s r s' sp Hu Hinv Ha Hle Hst) as (Hinv' & HR & Hsp & n' & Hmu & Hown'). split; [done|].
    exists (<[i:=n']> ns ++ ((λ t k, share k t) <$> sp)). split.
    + apply Forall2_app.
      * apply Forall2_insert; [eapply Forall2_impl; [exact Hf|]; intros ??; by apply due_later|].
        exists s'. by split.
      * apply Forall2_fmap, Forall_Forall2_diag. eapply Forall_impl; [exact Hsp|].
        intros t Ht. exists s'. split; [done|by apply body_keeps].
    + intros q. specialize (Hmu q). pose proof (held_insert i (n q) (n' q) _ (Hnq q)) as Hq.
      rewrite fmap_app, held_app, list_fmap_insert, <- list_fmap_compose. rewrite Hm in Hmu.
      change (compose _ _) with (share q). lia.
  - destruct (call_starts _ Hcall) as [Hpre H0t]. split; [done|]. exists (ns ++ [λ k, share k t]). split.
    + apply Forall2_app; [done|]. repeat constructor. exists s. split; [done|by apply body_keeps].
    + intros q. rewrite fmap_app, held_app. cbn [fmap list_fmap]. rewrite held_cons, Hm, H0t, held_nil. lia.
Qed.

(** Nothing is held once every thread has returned. *)
Lemma ledger_settled s0 c k :
  (∀ k, mu k s0 = 0) → Inv s0 → reachable body call adm s0 c →
  Forall (λ p, p = Ret tt) (pool c) → mu k (mem c) = 0.
Proof using body_keeps call_starts R_preorder.
  intros H0 Hinv Hr Hd. destruct (ledger s0 c H0 Hinv Hr) as (_ & ns & Hf & ->). apply held_all_zero.
  revert Hd. induction Hf as [|n p ns ps (u & _ & Hn) _ IH]; [constructor|]. intros [-> Hd]%Forall_cons.
  constructor; [apply Hn|by apply IH].
Qed.
End ledger.

(** ** Without a history *)

Section accounts.
Context {St Env Th K : Type}.
Variable body : Th → prog St Env Th unit.
Variable call : Th → Prop.
Variable adm : Env → St → Prop.
Variable Inv : St → Prop.
(** The quantities, and what a thread holds of each when it starts. *)
Variable mu : K → St → Z.
Variable share : K → Th → nat.

Local Notation moves := (moves mu share).

Fixpoint owns {A} (n : K → nat) (p : prog St Env Th A) (Q : A → (K → nat) → Prop) : Prop :=
  match p with
  | Ret a => Q a n
  | Do f k => ∀ env s r s' sp, Inv s → adm env s → (∀ q, Z.of_nat (n q) ≤ mu q s) →
      f env s = Some (r, s', sp) → Inv s' ∧ ∃ n', moves n n' s s' sp ∧ owns n' (k r) Q
  end.

Lemma owns_weaken {A} n (p : prog St Env Th A) Q Q' :
  (∀ a m, Q a m → Q' a m) → owns n p Q → owns n p Q'.
Proof.
  intros HQ. revert n. induction p as [a|X f k IH]; intros n; cbn; [apply HQ|].
  intros H env s r s' sp H1 H2 H3 H4. destruct (H env s r s' sp H1 H2 H3 H4) as (? & m & ? & ?). eauto.
Qed.

Lemma owns_seq {A B} n (p : prog St Env Th A) (g : A → prog St Env Th B) Q :
  owns n p (λ a m, owns m (g a) Q) → owns n (pbind p g) Q.
Proof.
  revert n. induction p as [a|X f k IH]; intros n; cbn; [done|].
  intros H env s r s' sp H1 H2 H3 H4. destruct (H env s r s' sp H1 H2 H3 H4) as (? & m & ? & ?). eauto.
Qed.

(** A loop whose passes each end with what they start with. *)
Lemma owns_fold {A B} n (f : B → A → prog St Env Th (bool * B)) b l :
  (∀ b x, x ∈ l → owns n (f b x) (λ _ m, m = n)) → owns n (pfold f b l) (λ _ m, m = n).
Proof.
  revert b. induction l as [|x l IH]; intros b Hf; cbn [pfold]; [done|].
  apply owns_seq. eapply owns_weaken; [|apply Hf; left]. intros [stop b'] m ->.
  destruct stop; [done|]. apply IH. intros b'' y Hy. apply Hf. by right.
Qed.

Lemma owns_then {A B} n m (p : prog St Env Th A) (g : A → prog St Env Th B) Q :
  owns n p (λ _ n', n' = m) → (∀ a, owns m (g a) Q) → owns n (pbind p g) Q.
Proof. intros Hp Hg. apply owns_seq. eapply owns_weaken; [|exact Hp]. by intros a n' ->. Qed.

(** A thread returns what it holds. *)
Definition settles (n : K → nat) (p : prog St Env Th unit) : Prop := owns n p (λ _ m, ∀ k, m k = 0%nat).

Hypothesis body_settles : ∀ t, settles (λ k, share k t) (body t).
Hypothesis call_share : ∀ t k, call t → share k t = 0%nat.

Lemma owns_keeps {A} s0 n (p : prog St Env Th A) Q :
  owns n p Q → keeps adm Inv (λ _ _, True) (λ _ _, True) mu share s0 n p (λ a _, Q a).
Proof.
  revert s0 n. induction p as [a|X f k IH]; intros s0 n; cbn; [done|].
  intros H env s r s' sp _ H2 H3 H4 H5. destruct (H env s r s' sp H2 H3 H4 H5) as (? & m & ? & ?).
  split_and!; [done..|by apply Forall_true|]. exists m. eauto.
Qed.

Lemma accounts s0 c :
  (∀ k, mu k s0 = 0) → Inv s0 → reachable body call adm s0 c →
  Inv (mem c) ∧ ∃ ns : list (K → nat), ∀ k, mu k (mem c) = held ((λ n, n k) <$> ns).
Proof using body_settles call_share.
  intros H0 Hi Hr.
  edestruct (ledger body call adm Inv (λ _ _, True) (λ _ _, True) mu share) as (H & ns & _ & Hm); eauto.
  - by constructor.
  - intros t s _. exact (owns_keeps s _ _ _ (body_settles t)).
Qed.

(** Nothing is held once every thread has returned. *)
Lemma accounts_settled s0 c k :
  (∀ k, mu k s0 = 0) → Inv s0 → reachable body call adm s0 c →
  Forall (λ p, p = Ret tt) (pool c) → mu k (mem c) = 0.
Proof using body_settles call_share.
  eapply (ledger_settled body call adm Inv (λ _ _, True) (λ _ _, True) mu share).
  - by constructor.
  - intros t s _. exact (owns_keeps s _ _ _ (body_settles t)).
  - auto.
Qed.
End accounts.
