(* ===== verification/PoolManager.v ===== *)
(** * The manager of warm pools

    [internal/pool/pool.go]: [Manager.Run] starts a goroutine per pool, each of
    which provides its image and starts a goroutine per slot, and waits for all
    of them; the first pool that fails cancels the others.  The state is that
    of one call of [Manager.Run]: its contexts, wait groups and channels, with
    a trace of what its goroutines do, latest first.  A launch is two actions,
    its start with the hook and its end, so that runners overlap; each pass of
    a slot after its first is a thread of its own, which takes the slot's place
    in the wait group.  Images, launches and timers answer as the environment
    says; a [select] takes any case that is ready. *)

From S2P Require Import Prelude GoErr GoStr Config Backend Runner GitHub Provider Pools Threads Accounts.

Local Open Scope Z_scope.
Local Open Scope go_scope.

(** The cases of the [select] of [Manager.Run]. *)
Inductive choice := CErr | CContext | CDone.

Inductive obs :=
| OBegin
| OPool (i : nat)
| OWaiting
| OImage (i : nat) (err : option goerror)
| OSlot (i : nat)
| OStarted (i : nat) (slot : Z)
| OEnded (i : nat) (slot code : Z) (err : option goerror)
| OBackoff (i : nat) (slot failures delay : Z)
| OSlotEnd (i : nat)
| OSlotsDone (i : nat)
| OSent (i : nat) (err : goerror)
| OPoolEnd (i : nat)
| OSelect (c : choice)
| OReturn (err : option goerror).

(** The parent context and the one of the call, the wait groups of the call
    and of each pool, the buffer of [errCh], and whether [done] is closed. *)
Record Run := MkRun {
  started : bool;
  parent_done : bool;
  cancelled : bool;
  wg : nat;
  wgs : nat → nat;
  errCh : list goerror;
  done_closed : bool;
  returned : option (option goerror);
  trace : list obs
}.

Record answers := {
  an_image : option goerror;
  an_rand : string;
  an_calls : run_answers;
  an_timer : bool;
  an_choice : choice
}.

Inductive thread :=
| TCancel
| TManager
| TPool (i : nat)
| TSlot (i : nat) (slot failures : Z)
| TClose.

Definition proc (A : Type) : Type := prog Run answers thread A.
Definition section {R} (f : answers → Run → R * Run) : proc R :=
  atomically (λ env s, let '(r, s) := f env s in Some (r, s, [])).

Definition New : Run := MkRun false false false 0 (λ _, 0%nat) [] false None [].

Definition emit (o : obs) (s : Run) : Run :=
  MkRun (started s) (parent_done s) (cancelled s) (wg s) (wgs s) (errCh s) (done_closed s) (returned s) (o :: trace s).
Definition set_wg (n : nat) (s : Run) : Run :=
  MkRun (started s) (parent_done s) (cancelled s) n (wgs s) (errCh s) (done_closed s) (returned s) (trace s).
Definition set_wgs (i n : nat) (s : Run) : Run :=
  MkRun (started s) (parent_done s) (cancelled s) (wg s) (λ j, if decide (j = i) then n else wgs s j)
    (errCh s) (done_closed s) (returned s) (trace s).
Definition set_errCh (l : list goerror) (s : Run) : Run :=
  MkRun (started s) (parent_done s) (cancelled s) (wg s) (wgs s) l (done_closed s) (returned s) (trace s).
Definition set_cancelled (s : Run) : Run :=
  MkRun (started s) (parent_done s) true (wg s) (wgs s) (errCh s) (done_closed s) (returned s) (trace s).
Definition set_closed (s : Run) : Run :=
  MkRun (started s) (parent_done s) (cancelled s) (wg s) (wgs s) (errCh s) true (returned s) (trace s).
Definition set_returned (r : option goerror) (s : Run) : Run :=
  MkRun (started s) (parent_done s) (cancelled s) (wg s) (wgs s) (errCh s) (done_closed s) (Some r) (trace s).

(** [runCtx.Err() != nil]: the call's context, or the one it derives from, is done. *)
Definition ctx_done (s : Run) : bool := parent_done s || cancelled s.

Definition check_ctx : proc bool := section (λ _ s, (ctx_done s, s)).
Definition cancel : proc unit := section (λ _ s, (tt, set_cancelled s)).

Section manager.
Context `{ClientProvider P}.

(** The launcher of each pool, and the provider. *)
Variable pools : list Launcher.
Variable gh : P.

(** [Pool.size] *)
Definition size_of (i : nat) : Z := match pools !! i with Some l => Max l | None => 0 end.

(** ** Slots *)

(** [defer wg.Done()] *)
Definition slot_end (i : nat) : proc unit :=
  atomically (λ _ s, match wgs s i with
                     | O => None
                     | S n => Some (tt, emit (OSlotEnd i) (set_wgs i n s), [])
                     end).

(** The next pass of the loop. *)
Definition again (i : nat) (slot failures : Z) : proc unit :=
  atomically (λ _ s, Some (tt, s, [TSlot i slot failures])).

(** The job of [RunOneForSlot]. *)
Definition slot_job (slot : Z) : QueuedJob := MkQueuedJob (ClientForSlot gh slot) "" [] "" "" "" "" "".

(** [RunOneForSlot], as its start and its end: its error. *)
Definition run_one (l : Launcher) (i : nat) (slot : Z) : proc (option goerror) :=
  let* refused :=
    section (λ _ s, match authorize l (slot_job slot) with
                    | Err e => (Some e, s)
                    | Ok _ => (None, emit (OStarted i slot) s)
                    end) in
  match refused with
  | Some e => Ret (Some e)
  | None =>
      section (λ env s, let '(code, err, _) := RunOneForSlot l gh (an_rand env) (an_calls env) slot in
                        (err, emit (OEnded i slot code err) s))
  end.

(** [sleep]: the timer fires, or the context is done. *)
Definition sleep (i : nat) (slot failures delay : Z) : proc bool :=
  atomically (λ env s,
    if an_timer env then Some (true, emit (OBackoff i slot failures delay) s, [])
    else if ctx_done s then Some (false, s, []) else None).

(** A pass of [runSlot]. *)
Definition runSlot_pass (l : Launcher) (i : nat) (slot failures : Z) : proc unit :=
  let* ended := check_ctx in
  if ended : bool then slot_end i
  else
    let* err := run_one l i slot in
    let* ended := check_ctx in
    if ended : bool then slot_end i
    else
      match err with
      | Some _ =>
          let failures := failures + 1 in
          let* slept := sleep i slot failures (backoff failures) in
          if slept : bool then again i slot failures else slot_end i
      | None => again i slot 0
      end.

(** ** Pools *)

Definition ensure_image (l : Launcher) (i : nat) : proc (option goerror) :=
  section (λ env s, let err := EnsureImage l (an_image env) in (err, emit (OImage i err) s)).

(** [wg.Add(1)] and the goroutine of a slot. *)
Definition add_slot (i index : nat) : proc unit :=
  atomically (λ _ s, Some (tt, emit (OSlot i) (set_wgs i (S (wgs s i)) s), [TSlot i (Z.of_nat index) 0])).

(** [wg.Wait()] *)
Definition wait_slots (i : nat) : proc unit :=
  atomically (λ _ s, match wgs s i with
                     | O => Some (tt, emit (OSlotsDone i) s, [])
                     | S _ => None
                     end).

(** [Pool.Run] *)
Definition Pool_Run (l : Launcher) (i : nat) : proc (option goerror) :=
  let* err := ensure_image l i in
  match err with
  | Some e => Ret (Some e)
  | None =>
      let* _ := pfold (λ _ index, let* _ := add_slot i index in Ret (false, tt)) tt (seq 0 (Z.to_nat (Max l))) in
      let* _ := wait_slots i in
      Ret None
  end.

(** The send of a pool's error, when the buffer has room. *)
Definition send (i : nat) (e : goerror) : proc bool :=
  section (λ _ s, if (length (errCh s) <? length pools)%nat
                  then (true, emit (OSent i e) (set_errCh (errCh s ++ [e]) s))
                  else (false, s)).

(** [defer wg.Done()] *)
Definition pool_end (i : nat) : proc unit :=
  atomically (λ _ s, match wg s with
                     | O => None
                     | S n => Some (tt, emit (OPoolEnd i) (set_wg n s), [])
                     end).

(** The goroutine of a pool. *)
Definition pool_thread (l : Launcher) (i : nat) : proc unit :=
  let* err := Pool_Run l i in
  let* _ :=
    match err with
    | None => Ret tt
    | Some e =>
        let* ended := check_ctx in
        if ended : bool then Ret tt
        else
          let* sent := send i (errorf_w ("pool " +:+ Name (l_cfg l) +:+ ": ") e) in
          if sent : bool then cancel else Ret tt
    end in
  pool_end i.

(** ** The manager *)

(** [<-done] *)
Definition wait_done : proc unit := atomically (λ _ s, if done_closed s then Some (tt, s, []) else None).

Definition set_result (r : option goerror) : proc unit :=
  section (λ _ s, (tt, emit (OReturn r) (set_returned r s))).
Definition return_with (r : option goerror) : proc unit := let* _ := set_result r in cancel.

(** The [select]: the case taken, with the error received. *)
Definition select : proc (choice * option goerror) :=
  atomically (λ env s,
    match an_choice env with
    | CErr => match errCh s with
              | e :: rest => Some ((CErr, Some e), emit (OSelect CErr) (set_errCh rest s), [])
              | [] => None
              end
    | CContext => if parent_done s then Some ((CContext, None), emit (OSelect CContext) s, []) else None
    | CDone => if done_closed s then Some ((CDone, None), emit (OSelect CDone) s, []) else None
    end).

(** The [select] with a default. *)
Definition try_receive : proc (option goerror) :=
  section (λ _ s, match errCh s with
                  | e :: rest => (Some e, emit (OSelect CErr) (set_errCh rest s))
                  | [] => (None, s)
                  end).

Definition begin : proc unit :=
  atomically (λ _ s,
    if started s then None
    else Some (tt, MkRun true (parent_done s) (cancelled s) (wg s) (wgs s) (errCh s) (done_closed s) (returned s)
                     (OBegin :: trace s), [])).

(** [wg.Add(1)] and the goroutine of a pool. *)
Definition add_pool (i : nat) : proc unit :=
  atomically (λ _ s, Some (tt, emit (OPool i) (set_wg (S (wg s)) s), [TPool i])).

(** The goroutine that closes [done]. *)
Definition add_closer : proc unit := atomically (λ _ s, Some (tt, emit OWaiting s, [TClose])).
Definition close_done : proc unit :=
  atomically (λ _ s, match wg s with O => Some (tt, set_closed s, []) | S _ => None end).

(** [Manager.Run], once. *)
Definition Manager_Run : proc unit :=
  let* _ := begin in
  let* _ := pfold (λ _ i, let* _ := add_pool i in Ret (false, tt)) tt (seq 0 (length pools)) in
  let* _ := add_closer in
  let* chosen := select in
  match chosen with
  | (CErr, err) => let* _ := wait_done in return_with err
  | (CContext, _) => let* _ := cancel in let* _ := wait_done in return_with None
  | (CDone, _) => let* err := try_receive in return_with err
  end.

(** The context of the call ends. *)
Definition end_parent : proc unit :=
  section (λ _ s, (tt, MkRun (started s) true (cancelled s) (wg s) (wgs s) (errCh s) (done_closed s)
                         (returned s) (trace s))).

Definition body (t : thread) : proc unit :=
  match t with
  | TCancel => end_parent
  | TManager => Manager_Run
  | TPool i => match pools !! i with Some l => pool_thread l i | None => Ret tt end
  | TSlot i slot failures => match pools !! i with Some l => runSlot_pass l i slot failures | None => Ret tt end
  | TClose => close_done
  end.
End manager.

(** From outside: the call, and the end of its context. *)
Definition call (t : thread) : Prop := match t with TCancel | TManager => True | _ => False end.
