(* ===== verification/PoolManagerSpec.v ===== *)
(** * What the manager of warm pools promises

    In every interleaving a pool never runs more runners than it has slots;
    [Manager.Run] returns only when all of its goroutines have ended; and it
    returns the error of a pool that could not provide its image, or nothing
    when its context ended. *)

From S2P Require Import Prelude GoErr GoStr Config Backend Runner GitHub Provider Pools Threads Accounts PoolManager.

Local Open Scope Z_scope.

(** ** The history of a call *)

(** How far a pool's goroutine is, with the slots it has started. *)
Inductive phase := Unborn | Fresh | Filling (n : nat) | Drained (n : nat) | Ended (n : nat).

#[export] Instance phase_eq_dec : EqDecision phase.
Proof. solve_decision. Defined.

Definition next_phase (i : nat) (o : obs) (ph : phase) : phase :=
  match o, ph with
  | OPool j, Unborn => if decide (i = j) then Fresh else ph
  | OImage j None, Fresh => if decide (i = j) then Filling 0 else ph
  | OImage j (Some _), Fresh => if decide (i = j) then Drained 0 else ph
  | OSlot j, Filling n => if decide (i = j) then Filling (S n) else ph
  | OSlotsDone j, Filling n => if decide (i = j) then Drained n else ph
  | OPoolEnd j, Drained n => if decide (i = j) then Ended n else ph
  | _, _ => ph
  end.
Definition phase_of (i : nat) (tr : list obs) : phase := foldr (next_phase i) Unborn tr.

Definition slots (ph : phase) : nat :=
  match ph with Unborn | Fresh => 0 | Filling n | Drained n | Ended n => n end.
Definition active (ph : phase) : bool := match ph with Unborn | Ended _ => false | _ => true end.

(** How far the call is; [Inner] is the second [select]. *)
Inductive stage := Early | Starting | Selecting | Inner | Left.

#[export] Instance stage_eq_dec : EqDecision stage.
Proof. solve_decision. Defined.

Definition next_stage (o : obs) (m : stage) : stage :=
  match o, m with
  | OBegin, Early => Starting
  | OWaiting, Starting => Selecting
  | OSelect CDone, Selecting => Inner
  | OSelect _, (Selecting | Inner) => Left
  | OReturn _, Inner => Left
  | _, _ => m
  end.
Definition stage_of (tr : list obs) : stage := foldr next_stage Early tr.

(** The runners of a pool between their two hooks. *)
Fixpoint lives (i : nat) (tr : list obs) : Z :=
  match tr with
  | [] => 0
  | OStarted j _ :: tr => (if decide (i = j) then 1 else 0) + lives i tr
  | OEnded j _ _ _ :: tr => lives i tr - (if decide (i = j) then 1 else 0)
  | _ :: tr => lives i tr
  end.

Definition sent (tr : list obs) : Prop := ∃ i e, OSent i e ∈ tr.

Section manager.
Context `{ClientProvider P}.
Variable pools : list Launcher.
Variable gh : P.

(** The error of a pool whose image is not there. *)
Definition source (e : goerror) (tr : list obs) : Prop :=
  ∃ i l err, pools !! i = Some l ∧ OImage i (Some err) ∈ tr ∧
    e = errorf_w ("pool " +:+ Name (l_cfg l) +:+ ": ") err.

Definition active_count (tr : list obs) : nat :=
  sum_list ((λ i, if active (phase_of i tr) then 1 else 0)%nat <$> seq 0 (length pools)).

Definition idle : Prop := ∀ i, size_of pools i ≤ 0.

Record Inv (s : Run) : Prop := {
  inv_begun : started s = false → trace s = [];
  inv_slots : ∀ i, Z.of_nat (slots (phase_of i (trace s))) ≤ Z.max 0 (size_of pools i);
  inv_wgs : ∀ i, (wgs s i ≤ slots (phase_of i (trace s)))%nat;
  inv_filling : ∀ i, wgs s i ≠ 0%nat → ∃ n, phase_of i (trace s) = Filling n;
  inv_over : ∀ i, (wgs s i < slots (phase_of i (trace s)))%nat → ctx_done s = true;
  inv_wg : wg s = active_count (trace s);
  inv_closed : done_closed s = true → wg s = 0%nat ∧ stage_of (trace s) ≠ Early ∧ stage_of (trace s) ≠ Starting;
  inv_born : stage_of (trace s) ≠ Early → stage_of (trace s) ≠ Starting →
    ∀ i, (i < length pools)%nat → phase_of i (trace s) ≠ Unborn;
  inv_ended : ∀ i n, phase_of i (trace s) = Ended n → size_of pools i ≤ 0 ∨ ctx_done s = true ∨ sent (trace s);
  inv_cancelled : cancelled s = true → sent (trace s) ∨ stage_of (trace s) = Left;
  inv_sent : sent (trace s) → errCh s ≠ [] ∨ stage_of (trace s) = Left;
  inv_errs : ∀ e, e ∈ errCh s → source e (trace s) ∧ sent (trace s);
  inv_returned : ∀ r, returned s = Some r →
    done_closed s = true ∧ match r with Some e => source e (trace s) | None => parent_done s = true ∨ idle end
}.

(** What every action only adds to. *)
Record later (s s' : Run) : Prop := {
  later_trace : ∃ more, trace s' = more ++ trace s;
  later_parent : parent_done s = true → parent_done s' = true;
  later_cancelled : cancelled s = true → cancelled s' = true;
  later_closed : done_closed s = true → done_closed s' = true
}.

(** ** The accounts *)

(** [At i ph]: the right to move pool [i] on from [ph]; [Main m]: that of the
    call; [Closer]: that to close [done]; [Idle i] and [Busy i]: the places in
    the wait group of pool [i], without and with a runner. *)
Inductive account := At (i : nat) (ph : phase) | Main (m : stage) | Closer | Idle (i : nat) | Busy (i : nat).

#[export] Instance account_eq_dec : EqDecision account.
Proof. solve_decision. Defined.

Definition z_of (b : bool) : Z := if b then 1 else 0.

Definition may_move (m : stage) : bool := match m with Starting | Selecting | Inner => true | _ => false end.
Definition waiting (m : stage) : bool := match m with Early | Starting => false | _ => true end.
Definition open (ph : phase) : bool := match ph with Ended _ => false | _ => true end.

Definition mu (k : account) (s : Run) : Z :=
  match k with
  | At i ph => z_of (started s && open ph && bool_decide (i < length pools)%nat && bool_decide (phase_of i (trace s) = ph))
  | Main m => z_of (may_move m && bool_decide (stage_of (trace s) = m))
  | Closer => z_of (waiting (stage_of (trace s)) && negb (done_closed s))
  | Idle i => Z.of_nat (wgs s i) - lives i (trace s)
  | Busy i => lives i (trace s)
  end.

Definition one (k q : account) : nat := if decide (q = k) then 1 else 0.
Definition nothing (q : account) : nat := 0.

Definition share (k : account) (t : thread) : nat :=
  match t with
  | TPool i => if decide (i < length pools)%nat then one (At i Fresh) k else 0
  | TSlot i _ _ => one (Idle i) k
  | TClose => one Closer k
  | _ => 0
  end.

(** The slots of a thread are those of a pool. *)
Definition pre (t : thread) (_ : Run) : Prop :=
  match t with TSlot i _ _ => (i < length pools)%nat | _ => True end.

(** What the call holds while it starts the pools from [j] on. *)
Definition starting (j : nat) (q : account) : nat :=
  match q with
  | At i Unborn => if decide (j ≤ i < length pools)%nat then 1 else 0
  | Main Starting => 1
  | _ => 0
  end.

(** ** The history only grows *)

Lemma phase_cons i o tr : phase_of i (o :: tr) = next_phase i o (phase_of i tr).
Proof. done. Qed.

Lemma stage_cons o tr : stage_of (o :: tr) = next_stage o (stage_of tr).
Proof. done. Qed.

Lemma next_phase_born i o ph : ph ≠ Unborn → next_phase i o ph ≠ Unborn.
Proof. by destruct o as [| | |? []| | | | | | | | | |], ph; cbn; try case_decide. Qed.

Lemma next_stage_left o : next_stage o Left = Left.
Proof. by destruct o as [| | | | | | | | | | | |[]|]. Qed.

#[export] Instance later_preorder : PreOrder later.
Proof.
  constructor.
  - intros s. by constructor; [exists []|..].
  - intros s1 s2 s3 [[m1 H1] P1 C1 D1] [[m2 H2] P2 C2 D2]. constructor; [|auto..].
    exists (m2 ++ m1). by rewrite H2, H1, (assoc_L (++)).
Qed.

Lemma born_later i s s' : phase_of i (trace s) ≠ Unborn → later s s' → phase_of i (trace s') ≠ Unborn.
Proof. intros Hs [[m ->] _ _ _]. induction m as [|o m IH]; [done|]. by apply next_phase_born. Qed.

Lemma left_later s s' : stage_of (trace s) = Left → later s s' → stage_of (trace s') = Left.
Proof.
  intros Hs [[m ->] _ _ _]. induction m as [|o m IH]; [done|]. cbn [app]. rewrite stage_cons, IH.
  apply next_stage_left.
Qed.

Lemma in_later o s s' : o ∈ trace s → later s s' → o ∈ trace s'.
Proof. intros Hs [[m ->] _ _ _]. apply elem_of_app. by right. Qed.

Lemma sent_later s s' : sent (trace s) → later s s' → sent (trace s').
Proof. intros (i & e & Hs) Hl. exists i, e. by eapply in_later. Qed.

Lemma source_later e s s' : source e (trace s) → later s s' → source e (trace s').
Proof. intros (i & l & err & Hi & Ho & He) Hl. exists i, l, err. split_and!; [done|by eapply in_later|done]. Qed.

Lemma ctx_later s s' : ctx_done s = true → later s s' → ctx_done s' = true.
Proof.
  unfold ctx_done. intros [Hp|Hc]%orb_true_iff [_ Hp' Hc' _]; apply orb_true_iff; [left|right]; auto.
Qed.

(** ** Actions that move nothing on *)

Definition quiet (o : obs) : Prop :=
  (∀ i ph, next_phase i o ph = ph) ∧ (∀ m, next_stage o m = m) ∧ ∀ i e, o ≠ OSent i e.

Lemma active_count_same o tr :
  (∀ i, active (phase_of i (o :: tr)) = active (phase_of i tr)) → active_count (o :: tr) = active_count tr.
Proof.
  intros Hs. unfold active_count. f_equal. apply list_fmap_ext. intros j i _. by rewrite Hs.
Qed.

Lemma sent_cons o tr : sent (o :: tr) ↔ (∃ i e, o = OSent i e) ∨ sent tr.
Proof. unfold sent. setoid_rewrite elem_of_cons. naive_solver. Qed.

Lemma source_cons o e tr : source e tr → source e (o :: tr).
Proof. intros (i & l & err & ? & ? & ?). exists i, l, err. rewrite elem_of_cons. auto. Qed.

Lemma later_emit o s : later s (emit o s).
Proof. by constructor; [exists [o]|..]. Qed.

Lemma Inv_quiet o s : quiet o → started s = true → Inv s → Inv (emit o s).
Proof.
  intros (Hp & Hm & Ho) Hst [].
  assert (∀ i, phase_of i (o :: trace s) = phase_of i (trace s)) as Hph by (intros i; apply Hp).
  assert (stage_of (o :: trace s) = stage_of (trace s)) as Hstage by apply Hm.
  assert (sent (o :: trace s) ↔ sent (trace s)) as Hsent by (rewrite sent_cons; naive_solver).
  constructor; cbn [emit started parent_done cancelled wg wgs errCh done_closed returned trace];
    try setoid_rewrite Hph; rewrite ?Hstage, ?Hsent; try done.
  - by rewrite Hst.
  - rewrite active_count_same; [done|]. intros i. by rewrite Hph.
  - intros i n. rewrite Hsent. apply inv_ended0.
  - intros e He. destruct (inv_errs0 e He). split; [by apply source_cons|by rewrite Hsent].
  - intros r Hr. destruct (inv_returned0 r Hr). split; [done|]. destruct r; [by apply source_cons|done].
Qed.

(** ** The actions *)

Local Notation keeps := (keeps (λ _ _, True) Inv later pre mu share).
Local Notation moves := (moves mu share).
Local Notation fits n s := (∀ q, Z.of_nat (n q) ≤ mu q s).

Lemma z_of_pos b : 1 ≤ z_of b → b = true.
Proof. by destruct b. Qed.

Lemma fits_at i ph s : fits (one (At i ph)) s →
  started s = true ∧ (i < length pools)%nat ∧ phase_of i (trace s) = ph.
Proof.
  intros Hn. specialize (Hn (At i ph)). unfold one in Hn. rewrite decide_True in Hn by done.
  apply z_of_pos in Hn. rewrite !andb_true_iff, !bool_decide_eq_true in Hn. tauto.
Qed.

Lemma fits_main m s : fits (one (Main m)) s → stage_of (trace s) = m.
Proof.
  intros Hn. specialize (Hn (Main m)). unfold one in Hn. rewrite decide_True in Hn by done.
  apply z_of_pos in Hn. rewrite andb_true_iff, bool_decide_eq_true in Hn. tauto.
Qed.

Lemma begun s : Inv s → trace s ≠ [] → started s = true.
Proof. intros [] Ht. destruct (started s); [done|]. by rewrite inv_begun0 in Ht. Qed.

Lemma born_begun s i : Inv s → phase_of i (trace s) ≠ Unborn → started s = true.
Proof. intros Hi Hp. apply begun; [done|]. intros E. by rewrite E in Hp. Qed.

Lemma fits_slot i s : Inv s → fits (one (Idle i)) s ∨ fits (one (Busy i)) s →
  (1 ≤ wgs s i)%nat ∧ started s = true.
Proof.
  intros Hi Hf. assert (1 ≤ wgs s i)%nat as Hw.
  { destruct Hf as [Hf|Hf]; pose proof (Hf (Idle i)) as H1; pose proof (Hf (Busy i)) as H2;
      unfold one in H1, H2; cbn [mu] in H1, H2; repeat case_decide; simplify_eq; lia. }
  split; [done|]. destruct (inv_filling s Hi i) as [n Hn]; [lia|]. apply (born_begun s i Hi). by rewrite Hn.
Qed.

Ltac moves_tac :=
  let k := fresh "k" in
  intros k; destruct k;
  cbn [mu emit set_wg set_wgs set_errCh started wg wgs done_closed trace share lives fmap list_fmap];
  unfold one, nothing; rewrite ?phase_cons, ?stage_cons, ?held_cons, ?held_nil; cbn [next_phase next_stage];
  repeat case_decide; simplify_eq/=; try lia.

Lemma moves_quiet o n s : quiet o → (∀ i, lives i (o :: trace s) = lives i (trace s)) → moves n n s (emit o s) [].
Proof.
  intros (Hp & Hm & _) Hl k. cbn [fmap list_fmap]. rewrite held_nil.
  destruct k; cbn [mu emit started done_closed wgs trace]; rewrite ?phase_cons, ?stage_cons, ?Hp, ?Hm, ?Hl; lia.
Qed.

Lemma moves_same n s s' : (∀ k, mu k s' = mu k s) → moves n n s s' [].
Proof. intros Hm k. cbn [fmap list_fmap]. rewrite held_nil, Hm. lia. Qed.

Lemma moves_refl n s : moves n n s s [].
Proof. by apply moves_same. Qed.

Lemma keeps_then {A B} s0 n (p : proc A) (g : A → proc B) Q Q' :
  keeps s0 n p Q' → (∀ a s m, later s0 s → Q' a s m → keeps s m (g a) Q) → keeps s0 n (pbind p g) Q.
Proof. intros Hp Hg. apply keeps_seq. eapply keeps_imply; [apply later_preorder|exact Hg|exact Hp]. Qed.

Lemma keeps_check s0 n : keeps s0 n check_ctx (λ b s m, m = n ∧ (b = true → ctx_done s = true)).
Proof.
  intros env s r s' sp _ Hi _ _ [= <- <- <-]. split_and!; [done|done|constructor|].
  exists n. split; [apply moves_refl|done].
Qed.

Lemma quiet_backoff i k f d : quiet (OBackoff i k f d).
Proof. done. Qed.

Lemma keeps_sleep s0 i k f d :
  keeps s0 (one (Idle i)) (sleep i k f d) (λ b s m, m = one (Idle i) ∧ (b = false → ctx_done s = true)).
Proof.
  intros env s r s' sp _ Hi _ Hn Hf. destruct (fits_slot i s Hi (or_introl Hn)) as [_ Hst].
  destruct (an_timer env).
  - injection Hf as <- <- <-. split_and!; [by apply Inv_quiet|apply later_emit|constructor|].
    exists (one (Idle i)). split; [by apply moves_quiet|done].
  - destruct (ctx_done s) eqn:E; [|done]. injection Hf as <- <- <-. split_and!; [done|done|constructor|].
    exists (one (Idle i)). split; [apply moves_refl|done].
Qed.

Lemma keeps_again s0 i k f : (i < length pools)%nat → keeps s0 (one (Idle i)) (again i k f) ends.
Proof.
  intros Hi env s r s' sp _ Hinv _ _ [= <- <- <-]. split_and!; [done|done|by repeat constructor|].
  exists nothing. split; [moves_tac|by intros ?].
Qed.

Lemma keeps_run_one s0 l i k :
  keeps s0 (one (Idle i)) (run_one gh l i k) (λ _ _ m, m = one (Idle i)).
Proof.
  intros env s r s' sp _ Hi _ Hn Hf. destruct (fits_slot i s Hi (or_introl Hn)) as [_ Hst].
  destruct (authorize l (slot_job gh k)) as [c|e]; injection Hf as <- <- <-.
  2:{ split_and!; [done|done|constructor|]. exists (one (Idle i)). split; [apply moves_refl|done]. }
  split_and!; [by apply Inv_quiet|apply later_emit|constructor|]. exists (one (Busy i)). split; [moves_tac|].
  intros env' u r' u' sp' _ Hi' _ Hn' Hf. destruct (fits_slot i u Hi' (or_intror Hn')) as [_ Hst'].
  destruct (RunOneForSlot _ _ _ _ _) as [[code err] evs]. injection Hf as <- <- <-.
  split_and!; [by apply Inv_quiet|apply later_emit|constructor|]. exists (one (Idle i)). split; [moves_tac|done].
Qed.

(** A place of the wait group is given up; its pool is still filling. *)
Lemma Inv_slot_end i n s : Inv s → wgs s i = S n → ctx_done s = true → started s = true →
  Inv (emit (OSlotEnd i) (set_wgs i n s)).
Proof.
  intros Hi Hw Hd Hst. apply Inv_quiet; [done|done|]. destruct Hi.
  constructor; cbn [set_wgs started parent_done cancelled wg wgs errCh done_closed returned trace]; try done.
  - intros j. specialize (inv_wgs0 j). case_decide; subst; lia.
  - intros j Hj. apply inv_filling0. case_decide; subst; lia.
Qed.

Lemma keeps_slot_end s0 i : ctx_done s0 = true → keeps s0 (one (Idle i)) (slot_end i) ends.
Proof.
  intros Hd env s r s' sp Hl Hi _ Hn Hf. destruct (fits_slot i s Hi (or_introl Hn)) as [_ Hst].
  destruct (wgs s i) as [|n] eqn:Ew; [done|]. injection Hf as <- <- <-. split_and!.
  - apply Inv_slot_end; [done..|by eapply ctx_later|done].
  - by constructor; [eexists [_]|..].
  - constructor.
  - exists nothing. split; [moves_tac; by rewrite ?Ew; lia|by intros ?].
Qed.

Lemma keeps_slot s0 l i k f : (i < length pools)%nat → keeps s0 (one (Idle i)) (runSlot_pass gh l i k f) ends.
Proof.
  intros Hi. eapply keeps_then; [apply keeps_check|]. intros [] s1 m _ [-> Hb]; [apply keeps_slot_end; by apply Hb|].
  eapply keeps_then; [apply keeps_run_one|]. intros err s2 m _ ->.
  eapply keeps_then; [apply keeps_check|]. intros [] s3 m _ [-> Hb']; [apply keeps_slot_end; by apply Hb'|].
  destruct err as [e|]; [|by apply keeps_again].
  eapply keeps_then; [apply keeps_sleep|]. intros [] s4 m _ [-> Hb'']; [by apply keeps_again|].
  apply keeps_slot_end. by apply Hb''.
Qed.

(** *** A pool moves on *)

Definition count_of (ph : phase) : nat := if active ph then 1 else 0.

Lemma active_count_change o tr i : (i < length pools)%nat → (∀ j ph, j ≠ i → next_phase j o ph = ph) →
  (active_count (o :: tr) + count_of (phase_of i tr) = active_count tr + count_of (phase_of i (o :: tr)))%nat.
Proof.
  intros Hi Ho. unfold active_count, count_of.
  apply (sum_change (λ i, if active (phase_of i (o :: tr)) then 1 else 0)%nat
           (λ i, if active (phase_of i tr) then 1 else 0)%nat).
  - apply NoDup_seq.
  - apply elem_of_seq. lia.
  - intros j Hj. by rewrite phase_cons, Ho.
Qed.

(** What an observation of pool [i] alone changes. *)
Record advances (i : nat) (o : obs) (s s' : Run) : Prop := {
  adv_only : ∀ j ph, j ≠ i → next_phase j o ph = ph;
  adv_stage : next_stage o (stage_of (trace s)) = stage_of (trace s);
  adv_sent : ∀ j e, o ≠ OSent j e;
  adv_trace : trace s' = o :: trace s;
  adv_started : started s' = true ∧ started s = true;
  adv_ctx : parent_done s' = parent_done s ∧ cancelled s' = cancelled s;
  adv_chan : errCh s' = errCh s ∧ done_closed s' = done_closed s ∧ returned s' = returned s;
  adv_wgs : ∀ j, j ≠ i → wgs s' j = wgs s j
}.

Lemma advances_later i o s s' : advances i o s s' → later s s'.
Proof.
  intros [? ? ? Ht ? [Hp Hc] (? & Hd & ?) ?]. constructor; rewrite ?Hp, ?Hc, ?Hd; [by exists [o]|done..].
Qed.

Lemma Inv_advances i o s s' : advances i o s s' → Inv s → (i < length pools)%nat →
  let ph := phase_of i (trace s') in
  ph ≠ Unborn → Z.of_nat (slots ph) ≤ Z.max 0 (size_of pools i) → (wgs s' i ≤ slots ph)%nat →
  (wgs s' i ≠ 0%nat → ∃ n, ph = Filling n) → ((wgs s' i < slots ph)%nat → ctx_done s = true) →
  (wg s' + count_of (phase_of i (trace s)) = wg s + count_of ph)%nat →
  (done_closed s = true → wg s' = 0%nat) →
  (∀ n, ph = Ended n → size_of pools i ≤ 0 ∨ ctx_done s = true ∨ sent (trace s)) → Inv s'.
Proof.
  intros [Ho Hm Hs Ht [Hst Hst0] [Hp Hc] (He & Hd & Hr) Hw] [] Hi ph Hph. subst ph. rewrite Ht in *.
  intros H1 H2 H3 H4 H5 H6 H7.
  assert (∀ j, j = i ∨ (j ≠ i ∧ phase_of j (o :: trace s) = phase_of j (trace s) ∧ wgs s' j = wgs s j)) as Hj.
  { intros j. destruct (decide (j = i)); [by left|right]. split_and!; [done|by apply Ho|by apply Hw]. }
  assert (sent (o :: trace s) ↔ sent (trace s)) as Hsent by (rewrite sent_cons; naive_solver).
  assert (ctx_done s' = ctx_done s) as Hctx by (unfold ctx_done; by rewrite Hp, Hc).
  constructor; rewrite ?Ht, ?Hctx, ?Hsent, ?stage_cons, ?Hm, ?Hp, ?Hc, ?He, ?Hd, ?Hr; try done.
  - by rewrite Hst.
  - intros j. destruct (Hj j) as [->|(_ & -> & _)]; auto.
  - intros j. destruct (Hj j) as [->|(_ & -> & ->)]; auto.
  - intros j. destruct (Hj j) as [->|(_ & -> & ->)]; auto.
  - intros j. destruct (Hj j) as [->|(_ & -> & ->)]; [done|apply inv_over0].
  - pose proof (active_count_change o (trace s) i Hi Ho). lia.
  - intros Hcl. split; [auto|]. by apply inv_closed0.
  - intros Hs1 Hs2 j. destruct (Hj j) as [->|(_ & -> & _)]; auto.
  - intros j n. rewrite Hsent. destruct (Hj j) as [->|(_ & -> & _)]; [apply H7|apply inv_ended0].
  - intros e Hin. destruct (inv_errs0 e Hin). rewrite Hsent. split; [by apply source_cons|done].
  - intros r Hret. destruct (inv_returned0 r Hret). split; [done|]. destruct r; [by apply source_cons|done].
Qed.

Lemma not_filling s i : Inv s → (∀ n, phase_of i (trace s) ≠ Filling n) → wgs s i = 0%nat.
Proof.
  intros Hi Hn. destruct (decide (wgs s i = 0%nat)) as [?|Hw]; [done|].
  by destruct (inv_filling s Hi i Hw) as [n ?%Hn].
Qed.

Lemma active_wg s i : Inv s → (i < length pools)%nat → active (phase_of i (trace s)) = true →
  wg s ≠ 0%nat ∧ done_closed s = false.
Proof.
  intros Hi Hlt Ha. assert (wg s ≠ 0%nat) as Hw.
  { rewrite (inv_wg s Hi). unfold active_count.
    pose proof (sum_member (λ j, if active (phase_of j (trace s)) then 1 else 0)%nat (seq 0 (length pools)) i) as Hm.
    cbn beta in Hm. rewrite Ha in Hm. specialize (Hm ltac:(apply elem_of_seq; lia)). lia. }
  split; [done|]. destruct (done_closed s) eqn:E; [|done]. by apply (inv_closed s Hi) in E as [? _].
Qed.

(** The right to move a pool on, once it is at [ph]. *)
Definition at_phase (i : nat) (ph : phase) : account → nat := if open ph then one (At i ph) else nothing.

Lemma moves_at i o s s' ph sp :
  advances i o s s' → (i < length pools)%nat → phase_of i (trace s) = ph → open ph = true →
  next_phase i o ph ≠ ph → (∀ j, lives j (o :: trace s) = lives j (trace s)) →
  (∀ k, held (share k <$> sp) = match k with Idle j => Z.of_nat (wgs s' j) - Z.of_nat (wgs s j) | _ => 0 end) →
  moves (one (At i ph)) (at_phase i (next_phase i o ph)) s s' sp.
Proof.
  intros [Ho Hm Hs Ht [Hst Hst0] _ (_ & Hd & _) Hw] Hlt Hph Hopen Hne Hl Hsp k. rewrite Hsp.
  set (ph' := next_phase i o ph) in *.
  assert (∀ q, (∀ p, q ≠ At i p) → one (At i ph) q = 0%nat ∧ at_phase i ph' q = 0%nat) as Hq.
  { intros q Hqn. unfold at_phase, one. destruct (open ph'); repeat case_decide; subst; try done; by edestruct Hqn. }
  destruct k as [j p|m| |j|j]; cbn [mu]; rewrite ?Ht, ?Hst, ?Hst0, ?Hd, ?stage_cons, ?Hm, ?Hl, ?phase_cons.
  1: destruct (decide (j = i)) as [->|Hj]; [|rewrite Ho by done].
  1: { rewrite Hph. fold ph'. rewrite (bool_decide_eq_true_2 _ Hlt). unfold at_phase, one, nothing.
       destruct (open ph') eqn:E; repeat case_decide; repeat case_bool_decide; simplify_eq/=;
         rewrite ?Hopen, ?E; cbn; try lia; try congruence; destruct (open p) eqn:Ep; cbn; lia || congruence. }
  all: match goal with |- context [one _ ?q] => destruct (Hq q) as [-> ->]; [intros ?; congruence|] end; lia.
Qed.

Lemma keeps_image s0 l i :
  keeps s0 (one (At i Fresh)) (ensure_image l i)
    (λ err s m, match err with
                | Some e => m = one (At i (Drained 0)) ∧ OImage i (Some e) ∈ trace s
                | None => m = one (At i (Filling 0))
                end).
Proof.
  intros env s r s' sp _ Hi _ Hn [= <- <- <-]. destruct (fits_at _ _ _ Hn) as (Hst & Hlt & Hph).
  generalize (EnsureImage l (an_image env)). intros err.
  assert (advances i (OImage i err) s (emit (OImage i err) s)) as Ha.
  { constructor; try done. intros j ph Hj. destruct err, ph; cbn; by try case_decide. }
  assert (wgs s i = 0%nat) as Hw by (apply not_filling; [done|by rewrite Hph]).
  assert (phase_of i (OImage i err :: trace s) = if err then Drained 0 else Filling 0) as Hph'.
  { rewrite phase_cons, Hph. cbn. destruct err; by rewrite decide_True. }
  destruct (active_wg s i Hi Hlt) as [_ Hd]; [by rewrite Hph|]. split_and!.
  - apply (Inv_advances _ _ _ _ Ha Hi Hlt); cbn [emit trace wgs wg]; rewrite ?Hph', ?Hph, ?Hw, ?Hd;
      destruct err; cbn; try done; try lia; eauto.
  - by eapply advances_later.
  - constructor.
  - exists (at_phase i (next_phase i (OImage i err) Fresh)). split.
    + apply (moves_at _ _ _ _ _ _ Ha Hlt Hph); [done|..].
      * rewrite <- Hph, <- phase_cons, Hph', Hph. by destruct err.
      * done.
      * intros []; cbn [fmap list_fmap emit wgs]; rewrite held_nil; lia.
    + rewrite <- Hph, <- phase_cons, Hph'. destruct err; [|done]. split; [done|left].
Qed.

Lemma keeps_fill s0 l i n : pools !! i = Some l → (n < Z.to_nat (Max l))%nat →
  keeps s0 (one (At i (Filling n))) (add_slot i n) (λ _ _ m, m = one (At i (Filling (S n)))).
Proof.
  intros Hl Hmax env s r s' sp _ Hi _ Hn [= <- <- <-]. destruct (fits_at _ _ _ Hn) as (Hst & Hlt & Hph).
  set (s' := emit (OSlot i) (set_wgs i (S (wgs s i)) s)).
  assert (advances i (OSlot i) s s') as Ha.
  { constructor; try done; [|intros j Hj; cbn; by rewrite decide_False].
    intros j ph Hj. destruct ph; cbn; by try case_decide. }
  assert (phase_of i (trace s') = Filling (S n)) as Hph'.
  { change (trace s') with (OSlot i :: trace s). rewrite phase_cons, Hph. cbn. by rewrite decide_True. }
  assert (wgs s' i = S (wgs s i)) as Hw by (cbn; by rewrite decide_True).
  pose proof (inv_wgs s Hi i) as Hle. rewrite Hph in Hle. cbn in Hle.
  assert (size_of pools i = Max l) as Hsz by (unfold size_of; by rewrite Hl).
  destruct (active_wg s i Hi Hlt) as [_ Hd]; [by rewrite Hph|]. split_and!.
  - apply (Inv_advances _ _ _ _ Ha Hi Hlt); rewrite ?Hph', ?Hph, ?Hw, ?Hd, ?Hsz; cbn; try done; try lia; eauto.
    intros Hlt'. apply (inv_over s Hi i). rewrite Hph. cbn. lia.
  - by eapply advances_later.
  - by repeat constructor.
  - exists (at_phase i (next_phase i (OSlot i) (Filling n))). split; [|by cbn; rewrite decide_True].
    apply (moves_at _ _ _ _ _ _ Ha Hlt Hph); [done|cbn; rewrite decide_True by done; intros E; injection E; lia|done|].
    intros k. destruct k; cbn [fmap list_fmap share]; rewrite held_cons, held_nil; unfold one; cbn;
      repeat case_decide; simplify_eq; lia.
Qed.

Lemma keeps_fill_all s0 l i n m : pools !! i = Some l → (n + m = Z.to_nat (Max l))%nat →
  keeps s0 (one (At i (Filling n)))
    (pfold (λ _ index, pbind (add_slot i index) (λ _, Ret (false, tt))) tt (seq n m))
    (λ _ _ q, q = one (At i (Filling (Z.to_nat (Max l))))).
Proof.
  intros Hl. revert s0 n. induction m as [|m IH]; intros s0 n Hm; cbn [seq pfold].
  { change (one (At i (Filling n)) = one (At i (Filling (Z.to_nat (Max l))))). do 3 f_equal. lia. }
  eapply keeps_then with (Q' := λ x _ q, x = (false, tt) ∧ q = one (At i (Filling (S n)))).
  - eapply keeps_then; [apply (keeps_fill s0 l i n Hl); lia|]. intros _ s1 q _ ->. done.
  - intros x s1 q _ [-> ->]. apply IH. lia.
Qed.

(** The slots of a pool end only with the context. *)
Lemma keeps_slots_done s0 l i : pools !! i = Some l →
  keeps s0 (one (At i (Filling (Z.to_nat (Max l)))))
    (wait_slots i)
    (λ _ s m, m = one (At i (Drained (Z.to_nat (Max l)))) ∧ (size_of pools i ≤ 0 ∨ ctx_done s = true)).
Proof.
  intros Hl env s r s' sp _ Hi _ Hn Hf. destruct (fits_at _ _ _ Hn) as (Hst & Hlt & Hph).
  destruct (wgs s i) as [|w] eqn:Hw; [|done]. injection Hf as <- <- <-. set (n := Z.to_nat (Max l)) in *.
  assert (advances i (OSlotsDone i) s (emit (OSlotsDone i) s)) as Ha.
  { constructor; try done. intros j ph Hj. destruct ph; cbn; by try case_decide. }
  assert (phase_of i (OSlotsDone i :: trace s) = Drained n) as Hph'.
  { rewrite phase_cons, Hph. cbn. by rewrite decide_True. }
  assert (size_of pools i = Max l) as Hsz by (unfold size_of; by rewrite Hl).
  assert ((0 < n)%nat → ctx_done s = true) as Hctx by (intros ?; apply (inv_over s Hi i); by rewrite Hph, Hw).
  destruct (active_wg s i Hi Hlt) as [_ Hd]; [by rewrite Hph|]. split_and!.
  - apply (Inv_advances _ _ _ _ Ha Hi Hlt); cbn [emit trace wgs wg]; rewrite ?Hph', ?Hph, ?Hw, ?Hd, ?Hsz; cbn;
      try done; lia.
  - by eapply advances_later.
  - constructor.
  - exists (at_phase i (next_phase i (OSlotsDone i) (Filling n))). split.
    + apply (moves_at _ _ _ _ _ _ Ha Hlt Hph); [done|cbn; by rewrite decide_True|done|].
      intros []; cbn [fmap list_fmap emit wgs]; rewrite held_nil; lia.
    + cbn [next_phase]. rewrite decide_True by done. split; [done|]. rewrite Hsz.
      destruct (decide (Max l ≤ 0)); [by left|right]. apply Hctx. lia.
Qed.

Lemma keeps_pool_end s0 i n :
  size_of pools i ≤ 0 ∨ ctx_done s0 = true ∨ sent (trace s0) →
  keeps s0 (one (At i (Drained n))) (pool_end i) ends.
Proof.
  intros Hover env s r s' sp Hl Hi _ Hn Hf. destruct (fits_at _ _ _ Hn) as (Hst & Hlt & Hph).
  destruct (wg s) as [|w] eqn:Hwg; [done|]. injection Hf as <- <- <-.
  set (s' := emit (OPoolEnd i) (set_wg w s)).
  assert (advances i (OPoolEnd i) s s') as Ha.
  { constructor; try done. intros j ph Hj. destruct ph; cbn; by try case_decide. }
  assert (phase_of i (trace s') = Ended n) as Hph'.
  { change (trace s') with (OPoolEnd i :: trace s). rewrite phase_cons, Hph. cbn. by rewrite decide_True. }
  assert (wgs s' i = 0%nat) as Hw by (apply (not_filling s); [done|by rewrite Hph]).
  pose proof (inv_slots s Hi i) as Hsl. pose proof (inv_over s Hi i) as Hov. rewrite Hph in Hsl, Hov.
  destruct (active_wg s i Hi Hlt) as [_ Hd]; [by rewrite Hph|]. split_and!.
  - apply (Inv_advances _ _ _ _ Ha Hi Hlt); rewrite ?Hph', ?Hph, ?Hw, ?Hd; cbn; try done; try lia.
    + change (wgs s' i) with (wgs s i) in Hw. by rewrite Hw in Hov.
    + intros _ _. destruct Hover as [?|[?|?]]; [by left|right; left; by eapply ctx_later|].
      right; right. by eapply sent_later.
  - by eapply advances_later.
  - constructor.
  - exists (at_phase i (next_phase i (OPoolEnd i) (Drained n))). split.
    + apply (moves_at _ _ _ _ _ _ Ha Hlt Hph); [done|cbn; by rewrite decide_True|done|].
      intros []; cbn [fmap list_fmap]; rewrite held_nil; cbn; lia.
    + cbn [next_phase]. rewrite decide_True by done. by intros ?.
Qed.

(** *** The contexts and the channel *)

Lemma Inv_cancelled s : sent (trace s) ∨ stage_of (trace s) = Left → Inv s → Inv (set_cancelled s).
Proof.
  intros Hs []. assert (ctx_done (set_cancelled s) = true) as Hc by apply orb_true_r.
  by constructor; rewrite ?Hc; eauto.
Qed.

Lemma keeps_cancel s0 n : sent (trace s0) ∨ stage_of (trace s0) = Left →
  keeps s0 n cancel (λ _ _ m, m = n).
Proof.
  intros Hs env s r s' sp Hl Hi _ _ [= <- <- <-]. split_and!; [|by constructor; [by exists []|..]|constructor|].
  - apply Inv_cancelled; [|done]. destruct Hs as [?|?]; [left; by eapply sent_later|right; by eapply left_later].
  - exists n. split; [|done]. by apply moves_same; intros [].
Qed.

Lemma Inv_sent s i e : started s = true → Inv s → source e (trace s) →
  Inv (emit (OSent i e) (set_errCh (errCh s ++ [e]) s)).
Proof.
  intros Hst [] Hsrc. set (s' := emit _ _).
  assert (sent (trace s')) as Hs by (by exists i, e; left).
  assert (∀ j, phase_of j (trace s') = phase_of j (trace s)) as Hph by done.
  assert (stage_of (trace s') = stage_of (trace s)) as Hstage by done.
  assert (∀ x, source x (trace s) → source x (trace s')) as Hsource by (intros x; apply source_cons).
  constructor; rewrite ?Hstage; try setoid_rewrite Hph; try done; auto.
  - intros Hf. change (started s = false) in Hf. congruence.
  - intros _. left. by destruct (errCh s).
  - intros x [Hx| ->%list_elem_of_singleton]%elem_of_app; [|auto]. destruct (inv_errs0 x Hx). auto.
  - intros r Hr. destruct (inv_returned0 r Hr). split; [done|]. destruct r; auto.
Qed.

Lemma keeps_send s0 i ph e : source e (trace s0) →
  keeps s0 (one (At i ph)) (send pools i e) (λ _ s m, m = one (At i ph) ∧ sent (trace s)).
Proof.
  intros Hsrc env s r s' sp Hl Hi _ Hn Hf. destruct (fits_at _ _ _ Hn) as (Hst & Hlt & _).
  destruct (Nat.ltb_spec (length (errCh s)) (length pools)) as [Hroom|Hfull]; injection Hf as <- <- <-.
  - split_and!; [apply Inv_sent; [done..|by eapply source_later]|by constructor; [eexists [_]|..]|constructor|].
    exists (one (At i ph)). split; [by apply moves_same; intros []|]. split; [done|]. by exists i, e; left.
  - split_and!; [done|done|constructor|]. exists (one (At i ph)). split; [apply moves_refl|]. split; [done|].
    destruct (errCh s) as [|x l] eqn:E; [cbn in Hfull; lia|]. apply (inv_errs s Hi x). rewrite E. left.
Qed.

Lemma keeps_pool s0 l i : pools !! i = Some l → keeps s0 (one (At i Fresh)) (pool_thread pools l i) ends.
Proof.
  intros Hl. unfold pool_thread, Pool_Run.
  eapply keeps_then with (Q' := λ err s m, ∃ n, m = one (At i (Drained n)) ∧
    match err with Some e => OImage i (Some e) ∈ trace s | None => size_of pools i ≤ 0 ∨ ctx_done s = true end).
  - eapply keeps_then; [apply keeps_image|]. intros [e|] s1 m _ Hm; [destruct Hm as [-> He]; by exists 0%nat|].
    subst m. eapply keeps_then; [by eapply (keeps_fill_all s1 l i 0)|]. intros _ s2 m _ ->.
    eapply keeps_then; [by apply keeps_slots_done|]. intros _ s3 m _ [-> Hd]. by eexists.
  - intros err s1 m _ (n & -> & Herr).
    eapply keeps_then with (Q' := λ _ s m, m = one (At i (Drained n)) ∧
      (size_of pools i ≤ 0 ∨ ctx_done s = true ∨ sent (trace s))).
    2:{ intros _ s2 m _ [-> Hover]. by apply keeps_pool_end. }
    destruct err as [e|]; [|by cbn; tauto].
    eapply keeps_then; [apply keeps_check|]. intros [] s2 m Hl2 [-> Hb]; [by cbn; auto|].
    eapply keeps_then; [apply keeps_send|].
    { exists i, l, e. split_and!; [done|by eapply in_later|done]. }
    intros [] s3 m Hl3 [-> Hs]; [|by cbn; auto].
    eapply (Accounts.keeps_imply _ _ _ _ _ _ later_preorder); [|by apply keeps_cancel; left].
    intros _ s4 m Hl4 ->. split; [done|]. do 2 right. by eapply sent_later.
Qed.

(** *** The call moves on *)

(** What [Manager.Run] may return. *)
Definition valid (r : option goerror) (s : Run) : Prop :=
  match r with Some e => source e (trace s) | None => parent_done s = true ∨ idle end.

Lemma valid_later r s s' : valid r s → later s s' → valid r s'.
Proof. destruct r as [e|]; [by apply source_later|]. intros [?|?] []; [left; auto|by right]. Qed.

(** What an observation of the call changes. *)
Record proceeds (o : obs) (s s' : Run) : Prop := {
  pro_phase : ∀ i ph, next_phase i o ph = ph;
  pro_sent : ∀ i e, o ≠ OSent i e;
  pro_trace : trace s' = o :: trace s;
  pro_started : started s' = true ∧ started s = true;
  pro_ctx : parent_done s' = parent_done s ∧ cancelled s' = cancelled s;
  pro_wg : wg s' = wg s ∧ wgs s' = wgs s ∧ done_closed s' = done_closed s;
  pro_errs : ∀ e, e ∈ errCh s' → e ∈ errCh s;
  pro_returned : returned s' = returned s ∨ ∃ r, returned s' = Some r ∧ done_closed s = true ∧ valid r s
}.

Lemma proceeds_later o s s' : proceeds o s s' → later s s'.
Proof. intros [? ? Ht ? [Hp Hc] (? & ? & Hd) ? ?]. constructor; rewrite ?Hp, ?Hc, ?Hd; [by exists [o]|done..]. Qed.

Lemma Inv_proceeds o s s' : proceeds o s s' → Inv s →
  let m := stage_of (trace s') in
  m ≠ Early → (done_closed s = true → m ≠ Starting) →
  (m ≠ Starting → ∀ i, (i < length pools)%nat → phase_of i (trace s) ≠ Unborn) →
  (errCh s ≠ [] → errCh s' ≠ [] ∨ m = Left) → Inv s'.
Proof.
  intros Hpro Hi m H1 H2 H3 H4. pose proof (proceeds_later _ _ _ Hpro) as Hl.
  pose proof (valid_later) as Hvalid. destruct Hpro as [Ho Hs Ht [Hst _] [Hp Hc] (Hw & Hws & Hd) He Hr].
  destruct Hi.
  assert (∀ i, phase_of i (trace s') = phase_of i (trace s)) as Hph by (intros i; by rewrite Ht, phase_cons, Ho).
  assert (stage_of (trace s) = Left → m = Left) as Hleft by (intros E; subst m; by rewrite Ht, stage_cons, E, next_stage_left).
  assert (sent (trace s') ↔ sent (trace s)) as Hsent by (rewrite Ht, sent_cons; naive_solver).
  assert (ctx_done s' = ctx_done s) as Hctx by (unfold ctx_done; by rewrite Hp, Hc).
  constructor; fold m; rewrite ?Hctx, ?Hsent, ?Hp, ?Hc, ?Hd, ?Hws, ?Hw; try setoid_rewrite Hph; try done.
  - by rewrite Hst.
  - rewrite Ht, active_count_same; [done|]. intros i. by rewrite phase_cons, Ho.
  - intros Hcl. destruct (inv_closed0 Hcl). auto.
  - intros i n. rewrite Hsent. apply inv_ended0.
  - intros Hcl. destruct (inv_cancelled0 Hcl); auto.
  - intros Hse. destruct (inv_sent0 Hse); auto.
  - intros e Hin%He. rewrite Hsent. destruct (inv_errs0 e Hin). split; [by eapply source_later|done].
  - intros r Hr'. assert (done_closed s = true ∧ valid r s) as [Hcl Hv].
    { destruct Hr as [E|(r' & E & ? & ?)]; rewrite E in Hr'; [by apply inv_returned0|by injection Hr' as <-]. }
    split; [done|]. rewrite <- Hp. exact (Hvalid _ _ _ Hv Hl).
Qed.

Lemma begin_state s : started s = false → Inv s → Inv (emit OBegin (MkRun true (parent_done s) (cancelled s) (wg s)
  (wgs s) (errCh s) (done_closed s) (returned s) (trace s))).
Proof.
  intros Hst []. pose proof (inv_begun0 Hst) as Ht. rewrite Ht in *.
  assert (done_closed s = false) as Hd by (destruct (done_closed s) eqn:E; [by destruct (inv_closed0 eq_refl) as (_ & [] & _)|done]).
  assert (cancelled s = false) as Hc.
  { destruct (cancelled s) eqn:E; [|done]. destruct (inv_cancelled0 eq_refl) as [(i & e & Hin)|]; [|done].
    by apply elem_of_nil in Hin. }
  constructor; cbn [emit started parent_done cancelled wg wgs errCh done_closed returned trace]; rewrite ?Ht, ?Hd, ?Hc; try done.
  - intros i Hi. cbn in Hi. lia.
  - intros (i & e & Hin). rewrite elem_of_cons, elem_of_nil in Hin. naive_solver.
  - intros e He. destruct (inv_errs0 e He) as [_ (i & x & Hin)]. by apply elem_of_nil in Hin.
  - intros r Hr. destruct (inv_returned0 r Hr) as [? _]. congruence.
Qed.

Lemma keeps_begin s0 : keeps s0 nothing begin (λ _ _ m, m = starting 0).
Proof.
  intros env s r s' sp _ Hi _ _ Hf. destruct (started s) eqn:Hst; [done|]. injection Hf as <- <- <-.
  pose proof (inv_begun s Hi Hst) as Ht. split_and!.
  - by apply begin_state.
  - by constructor; [exists [OBegin]|..].
  - constructor.
  - exists (starting 0). split; [|done]. intros k. cbn [fmap list_fmap]. rewrite held_nil.
    destruct k as [i ph|m| |i|i]; cbn [mu emit started wgs done_closed trace]; rewrite ?Ht, ?Hst; cbn; unfold nothing.
    + destruct ph; cbn; rewrite ?andb_false_r; repeat case_decide; repeat case_bool_decide; simplify_eq/=; try done; lia.
    + by destruct m.
    + done.
    + lia.
    + done.
Qed.

Lemma fits_starting j s : fits (starting j) s →
  stage_of (trace s) = Starting ∧
  ∀ i, (j ≤ i < length pools)%nat → started s = true ∧ phase_of i (trace s) = Unborn.
Proof.
  intros Hn. split; [apply fits_main; intros q; etransitivity; [|apply (Hn q)]; unfold one; case_decide; subst; cbn; lia|].
  intros i Hi. destruct (fits_at i Unborn s) as (? & ? & ?); [|done]. intros q. etransitivity; [|apply (Hn q)].
  unfold one. case_decide; [subst|lia]. cbn. by rewrite decide_True by lia.
Qed.

Lemma keeps_add_pool s0 j : (j < length pools)%nat →
  keeps s0 (starting j) (add_pool j) (λ _ s m, m = starting (S j) ∧ phase_of j (trace s) ≠ Unborn).
Proof.
  intros Hlt env s r s' sp _ Hi _ Hn [= <- <- <-]. destruct (fits_starting j s Hn) as [Hm Hu].
  destruct (Hu j) as [Hst Hph]; [lia|]. set (s' := emit (OPool j) (set_wg (S (wg s)) s)).
  assert (advances j (OPool j) s s') as Ha.
  { constructor; try done; cbn; rewrite ?Hm; try done. intros i ph Hj. destruct ph; cbn; by try case_decide. }
  assert (phase_of j (trace s') = Fresh) as Hph'.
  { change (trace s') with (OPool j :: trace s). rewrite phase_cons, Hph. cbn. by rewrite decide_True. }
  assert (wgs s' j = 0%nat) as Hw by (apply (not_filling s); [done|by rewrite Hph]).
  split_and!.
  - apply (Inv_advances _ _ _ _ Ha Hi Hlt); rewrite ?Hph', ?Hph, ?Hw; cbn; try done; try lia.
    intros Hd. by destruct (inv_closed s Hi Hd) as (_ & _ & []).
  - by eapply advances_later.
  - by repeat constructor.
  - exists (starting (S j)). split; [|split; [done|by rewrite Hph']]. destruct Ha as [Ho _ _ _ _ _ _ _].
    intros k. cbn [fmap list_fmap share]. rewrite held_cons, held_nil, (decide_True _ _ Hlt).
    assert (stage_of (trace s') = Starting) as Hm' by (change (trace s') with (OPool j :: trace s); by rewrite stage_cons, Hm).
    destruct k as [i ph|m| |i|i]; cbn [mu]; rewrite ?Hm', ?Hm;
      try (unfold one; rewrite ?decide_False by done; cbn; case_match; lia);
      try (unfold one; rewrite ?decide_False by done; cbn; lia).
    change (started s') with (started s). change (trace s') with (OPool j :: trace s).
    rewrite phase_cons. unfold one.
    destruct (decide (i = j)) as [->|Hne].
    + rewrite Hph, Hst, (bool_decide_eq_true_2 _ Hlt). cbn [next_phase]. rewrite decide_True by done.
      destruct ph; cbn; repeat case_decide; repeat case_bool_decide; simplify_eq/=; lia.
    + rewrite Ho by done. rewrite (decide_False (P := At i ph = At j Fresh)) by congruence.
      destruct ph; cbn; repeat case_decide; lia.
Qed.

Lemma keeps_add_pools s0 j m : (j + m = length pools)%nat →
  (∀ i, (i < j)%nat → phase_of i (trace s0) ≠ Unborn) →
  keeps s0 (starting j) (pfold (λ _ i, pbind (add_pool i) (λ _, Ret (false, tt))) tt (seq j m))
    (λ _ s q, q = starting (length pools) ∧ ∀ i, (i < length pools)%nat → phase_of i (trace s) ≠ Unborn).
Proof.
  revert s0 j. induction m as [|m IH]; intros s0 j Hm Hborn; cbn [seq pfold].
  { assert (j = length pools) as -> by lia. by split. }
  eapply keeps_then with (Q' := λ x s q, x = (false, tt) ∧ later s0 s ∧ q = starting (S j) ∧ phase_of j (trace s) ≠ Unborn).
  - eapply keeps_then; [apply keeps_add_pool; lia|]. intros _ s1 q Hl [-> Hp]. done.
  - intros x s1 q _ (-> & Hl & -> & Hp). apply IH; [lia|]. intros i Hi. destruct (decide (i = j)) as [->|]; [done|].
    eapply born_later; [|exact Hl]. apply Hborn. lia.
Qed.

(** The right to move the call on, while there is one. *)
Definition at_stage (m : stage) : account → nat := if may_move m then one (Main m) else nothing.

Lemma moves_stage o s s' m sp : proceeds o s s' → stage_of (trace s) = m → may_move m = true → next_stage o m ≠ m →
  (∀ i, lives i (o :: trace s) = lives i (trace s)) →
  (∀ k, held (share k <$> sp) = match k with Closer => mu Closer s' - mu Closer s | _ => 0 end) →
  moves (one (Main m)) (at_stage (next_stage o m)) s s' sp.
Proof.
  intros [Ho _ Ht [Hst Hst0] _ (Hw & Hws & Hd) _ _] Hm Hmay Hne Hl Hsp k. rewrite Hsp. set (m' := next_stage o m) in *.
  assert (∀ q, (∀ p, q ≠ Main p) → one (Main m) q = 0%nat ∧ at_stage m' q = 0%nat) as Hq.
  { intros q Hqn. unfold at_stage, one. destruct (may_move m'); repeat case_decide; subst; try done; by edestruct Hqn. }
  destruct k as [j p|p| |j|j]; cbn [mu]; rewrite ?Ht, ?Hst, ?Hst0, ?Hd, ?Hws, ?stage_cons, ?Hm, ?Hl, ?phase_cons, ?Ho.
  2:{ fold m'. unfold at_stage, one, nothing.
      destruct (may_move m') eqn:E; repeat case_decide; repeat case_bool_decide; simplify_eq/=;
        rewrite ?Hmay, ?E; cbn; try lia; try congruence; destruct (may_move p) eqn:Ep; cbn; lia || congruence. }
  all: match goal with |- context [one _ ?q] => destruct (Hq q) as [-> ->]; [intros ?; congruence|] end; lia.
Qed.

Lemma starting_begun s m : Inv s → stage_of (trace s) = m → m ≠ Early → started s = true.
Proof. intros Hi Hm Hne. apply begun; [done|]. intros E. by rewrite E in Hm. Qed.

Lemma keeps_add_closer s0 : (∀ i, (i < length pools)%nat → phase_of i (trace s0) ≠ Unborn) →
  keeps s0 (starting (length pools)) add_closer (λ _ _ m, m = one (Main Selecting)).
Proof.
  intros Hborn env s r s' sp Hl Hi _ Hn [= <- <- <-]. destruct (fits_starting _ s Hn) as [Hm _].
  assert (started s = true) as Hst by (by eapply starting_begun).
  assert (proceeds OWaiting s (emit OWaiting s)) as Hp by (by constructor; [..|left]).
  assert (stage_of (trace (emit OWaiting s)) = Selecting) as Hm'.
  { change (trace _) with (OWaiting :: trace s). by rewrite stage_cons, Hm. }
  assert (done_closed s = false) as Hd.
  { destruct (done_closed s) eqn:E; [|done]. by destruct (inv_closed s Hi E) as (_ & _ & []). }
  split_and!.
  - apply (Inv_proceeds _ _ _ Hp Hi); rewrite ?Hm'; try done; [|by left].
    intros _ i Hlt. eapply born_later; [by apply Hborn|done].
  - by eapply proceeds_later.
  - by repeat constructor.
  - exists (at_stage (next_stage OWaiting Starting)). split; [|done].
    assert (∀ k, starting (length pools) k = one (Main Starting) k) as Hsame.
    { intros [i []|[]| |i|i]; cbn; unfold one; repeat case_decide; simplify_eq; done || lia. }
    intros k. rewrite Hsame. revert k. apply (moves_stage _ _ _ _ _ Hp Hm); [done..|].
    intros k. cbn [fmap list_fmap share]. rewrite held_cons, held_nil. unfold one.
    destruct k; try (rewrite decide_False by done; done).
    cbn [mu]. rewrite Hm', Hm. change (done_closed (emit OWaiting s)) with (done_closed s). rewrite Hd. done.
Qed.

Lemma keeps_select s0 :
  keeps s0 (one (Main Selecting)) select (λ r s m,
    match r with
    | (CErr, err) => m = nothing ∧ stage_of (trace s) = Left ∧ ∃ e, err = Some e ∧ source e (trace s)
    | (CContext, _) => m = nothing ∧ stage_of (trace s) = Left ∧ parent_done s = true
    | (CDone, _) => m = one (Main Inner) ∧ done_closed s = true
    end).
Proof.
  intros env s r s' sp _ Hi _ Hn Hf. pose proof (fits_main _ _ Hn) as Hm.
  assert (started s = true) as Hst by (by eapply starting_begun).
  assert (∀ i, (i < length pools)%nat → phase_of i (trace s) ≠ Unborn) as Hborn.
  { apply (inv_born s Hi); by rewrite Hm. }
  assert (∃ c l, s' = emit (OSelect c) (set_errCh l s) ∧ sp = [] ∧
            match c with
            | CErr => ∃ e, errCh s = e :: l ∧ r = (CErr, Some e)
            | CContext => l = errCh s ∧ parent_done s = true ∧ r = (CContext, None)
            | CDone => l = errCh s ∧ done_closed s = true ∧ r = (CDone, None)
            end) as (c & l & -> & -> & Hr).
  { destruct (an_choice env) eqn:Ec.
    - destruct (errCh s) as [|e l] eqn:E; [done|]. injection Hf as <- <- <-. exists CErr, l. naive_solver.
    - destruct (parent_done s) eqn:E; [|done]. injection Hf as <- <- <-. exists CContext, (errCh s). by destruct s.
    - destruct (done_closed s) eqn:E; [|done]. injection Hf as <- <- <-. exists CDone, (errCh s). by destruct s. }
  set (s' := emit (OSelect c) (set_errCh l s)).
  assert (∀ e, e ∈ l → e ∈ errCh s) as Hsub.
  { destruct c; [destruct Hr as (e & -> & _)|by destruct Hr as [-> _]..]. intros x. rewrite elem_of_cons. auto. }
  assert (proceeds (OSelect c) s s') as Hp by (constructor; try done; by left).
  assert (stage_of (trace s') = match c with CDone => Inner | _ => Left end) as Hm'.
  { change (trace s') with (OSelect c :: trace s). rewrite stage_cons, Hm. by destruct c. }
  split_and!.
  - apply (Inv_proceeds _ _ _ Hp Hi); rewrite ?Hm'; destruct c; cbn; try done; auto. all: by destruct Hr as [-> _]; left.
  - by eapply proceeds_later.
  - constructor.
  - exists (at_stage (next_stage (OSelect c) Selecting)). split.
    + apply (moves_stage _ _ _ _ _ Hp Hm); [done|by destruct c|done|]. intros k. cbn [fmap list_fmap]. rewrite held_nil.
      destruct k; try done. cbn [mu]. rewrite Hm', Hm. change (done_closed s') with (done_closed s). destruct c; cbn; lia.
    + destruct c; [destruct Hr as (e & E & ->)|destruct Hr as (_ & ? & ->)|destruct Hr as (_ & ? & ->)]; [|done..].
      split; [done|]. split; [done|]. exists e. split; [done|]. apply source_cons.
      apply (inv_errs s Hi e). rewrite E. left.
Qed.

Lemma keeps_wait_done s0 n : keeps s0 n wait_done (λ _ s m, m = n ∧ done_closed s = true).
Proof.
  intros env s r s' sp _ Hi _ _ Hf. destruct (done_closed s) eqn:E; [|done]. injection Hf as <- <- <-.
  split_and!; [done|done|constructor|]. exists n. split; [apply moves_refl|done].
Qed.

(** Once every goroutine has returned without an error. *)
Lemma quiet_end s : Inv s → done_closed s = true → stage_of (trace s) = Inner → errCh s = [] →
  parent_done s = true ∨ idle.
Proof.
  intros Hi Hd Hm He. assert (¬ sent (trace s)) as Hns.
  { intros Hs. destruct (inv_sent s Hi Hs) as [?|?]; congruence. }
  assert (cancelled s = false) as Hc.
  { destruct (cancelled s) eqn:E; [|done]. destruct (inv_cancelled s Hi E) as [?|?]; [done|congruence]. }
  destruct (parent_done s) eqn:Hp; [by left|right]. intros i.
  destruct (decide (i < length pools)%nat) as [Hlt|Hge].
  2:{ unfold size_of. by rewrite lookup_ge_None_2 by lia. }
  assert (phase_of i (trace s) ≠ Unborn) as Hb by (apply (inv_born s Hi); rewrite ?Hm; done).
  destruct (inv_closed s Hi Hd) as [Hw _]. pose proof (active_wg s i Hi Hlt) as Ha.
  destruct (phase_of i (trace s)) as [| | | |n] eqn:Eph; try done; try (by destruct (Ha eq_refl)).
  destruct (inv_ended s Hi i n Eph) as [?|[Hctx|?]]; [done| |done].
  unfold ctx_done in Hctx. by rewrite Hp, Hc in Hctx.
Qed.

Lemma keeps_try_receive s0 : done_closed s0 = true →
  keeps s0 (one (Main Inner)) try_receive (λ err s m,
    valid err s ∧ (m = one (Main Inner) ∨ (m = nothing ∧ stage_of (trace s) = Left))).
Proof.
  intros Hd env s r s' sp Hl Hi _ Hn Hf. pose proof (fits_main _ _ Hn) as Hm.
  assert (started s = true) as Hst by (by eapply starting_begun).
  destruct (errCh s) as [|e l] eqn:He; injection Hf as <- <- <-.
  - split_and!; [done|done|constructor|]. exists (one (Main Inner)). split; [apply moves_refl|]. split; [|by left].
    apply quiet_end; [done|by apply (later_closed _ _ Hl)|done|done].
  - set (s' := emit (OSelect CErr) (set_errCh l s)).
    assert (proceeds (OSelect CErr) s s') as Hp.
    { constructor; try done; [intros x; cbn; rewrite He, elem_of_cons; auto|by left]. }
    assert (stage_of (trace s') = Left) as Hm'.
    { change (trace s') with (OSelect CErr :: trace s). by rewrite stage_cons, Hm. }
    split_and!.
    + apply (Inv_proceeds _ _ _ Hp Hi); rewrite ?Hm'; try done; [|by right].
      intros _. apply (inv_born s Hi); by rewrite Hm.
    + by eapply proceeds_later.
    + constructor.
    + exists (at_stage (next_stage (OSelect CErr) Inner)). split.
      * apply (moves_stage _ _ _ _ _ Hp Hm); [done..|]. intros k. cbn [fmap list_fmap]. rewrite held_nil.
        destruct k; try done. cbn [mu]. rewrite Hm', Hm. change (done_closed s') with (done_closed s). cbn; lia.
      * split; [|by right]. apply source_cons. apply (inv_errs s Hi e). rewrite He. left.
Qed.

Lemma keeps_return s0 n r : done_closed s0 = true → valid r s0 →
  n = one (Main Inner) ∨ (n = nothing ∧ stage_of (trace s0) = Left) → keeps s0 n (return_with r) ends.
Proof.
  intros Hd Hv Hn. eapply keeps_then with (Q' := λ _ s m, m = nothing ∧ stage_of (trace s) = Left).
  2:{ intros _ s m _ [-> Hm]. eapply (Accounts.keeps_imply _ _ _ _ _ _ later_preorder); [|by apply keeps_cancel; right].
      by intros _ s' m' _ -> k. }
  intros env s x s' sp Hl Hi _ Hf [= <- <- <-].
  assert (stage_of (trace s) = Inner ∨ stage_of (trace s) = Left) as Hm.
  { destruct Hn as [->|[-> Hm]]; [left; by apply fits_main|right; by eapply left_later]. }
  assert (started s = true) as Hst by (destruct Hm as [Hm|Hm]; by apply (starting_begun s _ Hi Hm)).
  set (s' := emit (OReturn r) (set_returned r s)).
  assert (proceeds (OReturn r) s s') as Hp.
  { constructor; try done. right. exists r. split; [done|]. split; [by apply (later_closed _ _ Hl)|by eapply valid_later]. }
  assert (stage_of (trace s') = Left) as Hm'.
  { change (trace s') with (OReturn r :: trace s). rewrite stage_cons. by destruct Hm as [-> | ->]. }
  split_and!.
  - apply (Inv_proceeds _ _ _ Hp Hi); rewrite ?Hm'; try done; [|by right].
    intros _. apply (inv_born s Hi); by destruct Hm as [-> | ->].
  - by eapply proceeds_later.
  - constructor.
  - exists nothing. split; [|done]. destruct Hn as [->|[-> Hleft]].
    + pose proof (fits_main _ _ Hf) as Hin. apply (moves_stage _ _ _ _ _ Hp Hin); [done..|].
      intros k. cbn [fmap list_fmap]. rewrite held_nil.
      destruct k; try done. cbn [mu]. rewrite Hm', Hin. change (done_closed s') with (done_closed s). cbn; lia.
    + assert (stage_of (trace s) = Left) as Hleft' by (exact (left_later _ _ Hleft Hl)).
      apply moves_same. intros []; cbn [mu]; rewrite ?Hm', ?Hleft'; done.
Qed.

Lemma keeps_manager s0 : keeps s0 nothing (Manager_Run pools) ends.
Proof.
  eapply keeps_then; [apply keeps_begin|]. intros _ s1 m _ ->.
  eapply keeps_then; [apply keeps_add_pools; [done|intros; lia]|]. intros _ s2 m _ [-> Hb].
  eapply keeps_then; [by apply keeps_add_closer|]. intros _ s3 m _ ->.
  eapply keeps_then; [apply keeps_select|]. intros [[] err] s4 m _ Hr.
  - destruct Hr as (-> & Hm & e & -> & Hs). eapply keeps_then; [apply keeps_wait_done|].
    intros _ s5 m Hl [-> Hd]. apply keeps_return; [done|by eapply source_later|right]. split; [done|by eapply left_later].
  - destruct Hr as (-> & Hm & Hp). eapply keeps_then; [by apply keeps_cancel; right|]. intros _ s5 m Hl ->.
    eapply keeps_then; [apply keeps_wait_done|]. intros _ s6 m Hl' [-> Hd].
    apply keeps_return; [done| |right; split; [done|by eapply left_later; [|done]; eapply left_later]].
    left. by apply (later_parent _ _ Hl'), (later_parent _ _ Hl).
  - destruct Hr as [-> Hd]. eapply keeps_then; [by apply keeps_try_receive|]. intros e s5 m Hl [Hv Hm].
    apply keeps_return; [by apply (later_closed _ _ Hl)|done|]. by destruct Hm; [left|right].
Qed.

(** *** Every thread *)

Lemma keeps_end_parent s0 : keeps s0 nothing end_parent ends.
Proof.
  intros env s r s' sp _ Hi _ _ [= <- <- <-]. split_and!; [|by constructor; [by exists []|..]|constructor|].
  - destruct Hi. constructor; try done; [by intros i n _; right; left|].
    intros r Hr. destruct (inv_returned0 r Hr). split; [done|]. destruct r; [done|by left].
  - exists nothing. split; [by apply moves_same; intros []|by intros ?].
Qed.

Lemma keeps_close_done s0 : keeps s0 (one Closer) close_done ends.
Proof.
  intros env s r s' sp _ Hi _ Hn Hf. destruct (wg s) eqn:Hw; [|done]. injection Hf as <- <- <-.
  specialize (Hn Closer). unfold one in Hn. rewrite decide_True in Hn by done.
  apply z_of_pos, andb_true_iff in Hn as [Hwait Hd]. apply negb_true_iff in Hd. split_and!.
  - destruct Hi. constructor; try done.
    + intros _. split; [done|]. cbn [set_closed trace]. by destruct (stage_of (trace s)).
    + intros r Hr. by destruct (inv_returned0 r Hr).
  - by constructor; [by exists []|..].
  - constructor.
  - exists nothing. split; [|by intros ?]. intros k. cbn [fmap list_fmap]. rewrite held_nil.
    unfold one, nothing. destruct k; cbn [mu set_closed started wgs trace done_closed];
      rewrite ?(decide_False (P := _ = Closer)) by done; try lia.
    rewrite decide_True, Hwait, Hd by done. done.
Qed.

Lemma keeps_body t s : pre t s → keeps s (λ k, share k t) (body pools gh t) ends.
Proof.
  destruct t as [| |i|i k f|]; cbn [pre body share]; intros Hpre.
  - apply keeps_end_parent.
  - apply keeps_manager.
  - destruct (decide (i < length pools)%nat) as [Hlt|Hge].
    + destruct (lookup_lt_is_Some_2 pools i Hlt) as [l Hl]. rewrite Hl. by apply keeps_pool.
    + rewrite lookup_ge_None_2 by lia. done.
  - destruct (lookup_lt_is_Some_2 pools i Hpre) as [l ->]. by apply keeps_slot.
  - apply keeps_close_done.
Qed.

Lemma New_ok : Inv New.
Proof.
  constructor; cbn; try done; try (intros; lia).
  - symmetry. unfold active_count. generalize (seq 0 (length pools)). intros l. by induction l.
  - by intros (i & e & Hin%elem_of_nil).
  - by intros e He%elem_of_nil.
Qed.

Definition reaches (c : config Run answers thread) : Prop :=
  reachable (body pools gh) call (λ _ _, True) New c.

Lemma manager_inv c : reaches c → Inv (mem c) ∧ ∀ k, 0 ≤ mu k (mem c).
Proof.
  intros Hr. edestruct (ledger (body pools gh) call (λ _ _, True) Inv later pre mu share) as (Hi & ns & _ & Hmu);
    [exact _|exact keeps_body|by intros []| |apply New_ok|exact Hr|].
  - by intros [? []|[]| | |].
  - split; [exact Hi|]. intros k. rewrite Hmu. unfold held. lia.
Qed.

Lemma closed_settled s : Inv s → done_closed s = true → ∀ i, wgs s i = 0%nat.
Proof.
  intros Hi Hd i. destruct (decide (i < length pools)%nat) as [Hlt|Hge].
  - apply (not_filling s i Hi). intros n Hn. destruct (active_wg s i Hi Hlt) as [_ ?]; [by rewrite Hn|congruence].
  - pose proof (inv_slots s Hi i) as Hs. pose proof (inv_wgs s Hi i).
    unfold size_of in Hs. rewrite lookup_ge_None_2 in Hs by lia. lia.
Qed.

(** C9: however the goroutines of the manager overlap, a pool's runners that
    are between their two hooks are at most the slots in its wait group, and
    those at most its size.  Once [Manager.Run] has returned, every pool and
    slot goroutine has ended; an error it returns is that of a pool whose image
    could not be provided; and it returns without one only when its context
    has ended, or when no pool has a slot. *)
Theorem manager_returns c : reaches c →
  (∀ i, 0 ≤ lives i (trace (mem c)) ≤ Z.of_nat (wgs (mem c) i) ∧
        Z.of_nat (wgs (mem c) i) ≤ Z.max 0 (size_of pools i)) ∧
  ∀ r, returned (mem c) = Some r →
    wg (mem c) = 0%nat ∧ (∀ i, wgs (mem c) i = 0%nat ∧ lives i (trace (mem c)) = 0) ∧
    match r with
    | Some e => ∃ i l err, pools !! i = Some l ∧ OImage i (Some err) ∈ trace (mem c) ∧
                  e = errorf_w ("pool " +:+ Name (l_cfg l) +:+ ": ") err
    | None => parent_done (mem c) = true ∨ ∀ i, size_of pools i ≤ 0
    end.
Proof.
  intros Hr. destruct (manager_inv c Hr) as [Hi Hmu].
  assert (∀ i, 0 ≤ lives i (trace (mem c)) ≤ Z.of_nat (wgs (mem c) i)) as Hlives.
  { intros i. pose proof (Hmu (Idle i)). pose proof (Hmu (Busy i)). cbn [mu] in *. lia. }
  split.
  - intros i. split; [apply Hlives|]. pose proof (inv_wgs _ Hi i). pose proof (inv_slots _ Hi i). lia.
  - intros r Hret. destruct (inv_returned _ Hi r Hret) as [Hd Hv]. split_and!; [by apply (inv_closed _ Hi)| |done].
    intros i. pose proof (closed_settled _ Hi Hd i) as Hw. specialize (Hlives i). rewrite Hw in *. split; [done|lia].
Qed.
End manager.

(** ** A run

    The image of the only pool is missing. *)

Definition demo_manager_launcher : Launcher := NewLauncher demo_pool "image" ∅ [] (MkHooks true true).
Definition demo_manager_answers : answers :=
  {| an_image := Some (errorf "no such image"); an_rand := "abcd"; an_calls := rd_answers (demo_round false);
     an_timer := true; an_choice := CErr |}.
Definition demo_manager_sched : list (thread + nat * answers) :=
  inl TManager :: ((λ i, inr (i, demo_manager_answers)) <$> [0; 0; 1; 1; 0; 1; 1; 0; 1; 2; 0; 0; 0])%nat.
Definition demo_manager_body := body [demo_manager_launcher] (MkClient ScopeRepo "acme" "app").
Definition demo_manager_end : config Run answers thread :=
  default (Config New []) (run demo_manager_body demo_manager_sched (Config New [])).

Lemma manager_returns_witness :
  ∃ e, returned (mem demo_manager_end) = Some (Some e) ∧ wg (mem demo_manager_end) = 0%nat.
Proof.
  eexists. split; [vm_compute; reflexivity|].
  eapply (manager_returns [demo_manager_launcher] (MkClient ScopeRepo "acme" "app")); [|vm_compute; reflexivity].
  eapply (run_reachable _ _ _ _ demo_manager_sched (Config New [])); [apply reach_init| |vm_compute; reflexivity].
  apply admitted_always. repeat (constructor; [done|]). constructor.
Defined.
