(* ===== verification/Autoscale.v ===== *)
(** * The queue autoscaler

    [internal/autoscale/autoscale.go]: runners are launched for queued jobs,
    which come from polling GitHub and from webhook events, on the first
    authorized pool with a free slot.  Each pool's slots are a semaphore;
    every runner, every webhook event whose workflow has to be looked up and
    the poll loop are goroutines of their own, modelled as threads.  A launch
    is two actions, its start with the hook and its end, so that runners
    overlap; taking and giving back a slot are actions of their own.  What the
    scaler hears and does is left in a trace, latest first. *)

From S2P Require Import Prelude GoErr GoStr Config Backend Runner GitHub Provider Pools Threads.

Local Open Scope Z_scope.
Local Open Scope go_scope.

(** [labelsMatch]: the pool carries every requested label. *)
Definition labelsMatch (poolLabels jobLabels : list string) : bool :=
  forallb (λ jl, existsb (λ pl, equal_fold pl jl) poolLabels) jobLabels.

(** What the scaler does and hears: jobs polled, jobs of webhook events with
    and without the metadata of their workflow run, and the runners of each
    pool. *)
Inductive obs :=
| OPolled (job : QueuedJob)
| OEvent (job : QueuedJob)
| OResolved (job : QueuedJob)
| OTake (i : nat) (job : QueuedJob)
| OStarted (i : nat) (job : QueuedJob)
| OEnded (i : nat) (code : Z) (err : option goerror)
| ORejected (i : nat) (err : goerror)
| OGive (i : nat).

(** The answers to one action: the queues, the workflow run of an event, the
    backend, the calls of a run and whether the context is done. *)
Record answers := {
  an_jobs : Client → result (list QueuedJob);
  an_run : result (option WorkflowRun);
  an_image : option goerror;
  an_rand : string;
  an_calls : run_answers;
  an_done : bool
}.

Inductive thread :=
| TRun
| TPollLoop
| TOnQueued (repo : string) (runID : Z) (labels : list string)
| TResolve (c : Client) (repo : string) (runID : Z) (labels : list string)
| TRunner (i : nat) (job : QueuedJob).

Section scaler.
Context `{ClientProvider P}.

(** The slots taken of each pool, the provider and the trace. *)
Record Scaler := MkScaler { sems : nat → nat; gh : P; trace : list obs }.

(** [pollSec] is a count of seconds; its duration wraps. *)
Variable launchers : list Launcher.
Variable scope : string.
Variable pollSec : Z.

Definition pollEvery : Z := wrap64 (pollSec * 10 ^ 9).

Definition New (p : P) : Scaler := MkScaler (λ _, 0%nat) p [].

Definition emit (o : obs) (s : Scaler) : Scaler := MkScaler (sems s) (gh s) (o :: trace s).
Definition set_sem (i n : nat) (s : Scaler) : Scaler :=
  MkScaler (λ j, if decide (j = i) then n else sems s j) (gh s) (trace s).

Definition proc (A : Type) : Type := prog Scaler answers thread A.
Definition section {R} (f : answers → Scaler → R * Scaler) : proc R :=
  atomically (λ env s, let '(r, s) := f env s in Some (r, s, [])).

(** ** Launching *)

Definition max_of (i : nat) : Z := match launchers !! i with Some l => Max l | None => 0 end.

(** [tryLaunch]: the semaphore is taken if it is free. *)
Definition tryLaunch (i : nat) (job : QueuedJob) : proc bool :=
  atomically (λ _ s,
    if Z.of_nat (sems s i) <? max_of i
    then Some (true, emit (OTake i job) (set_sem i (S (sems s i)) s), [TRunner i job])
    else Some (false, s, [])).

Definition fits (l : Launcher) (job : QueuedJob) : bool :=
  Allows l job && labelsMatch (Labels (l_cfg l)) (qj_Labels job).

Fixpoint launch_first (i : nat) (ls : list Launcher) (job : QueuedJob) : proc unit :=
  match ls with
  | [] => Ret tt
  | l :: ls =>
      if fits l job then
        let* launched := tryLaunch i job in
        if launched : bool then Ret tt else launch_first (S i) ls job
      else launch_first (S i) ls job
  end.

Definition launchFor (job : QueuedJob) : proc unit := launch_first 0 launchers job.

(** The goroutine of a runner: [RunJob], then its slot is given back. *)
Definition release (i : nat) : proc unit :=
  atomically (λ _ s, match sems s i with
                     | O => None
                     | S n => Some (tt, emit (OGive i) (set_sem i n s), [])
                     end).

Definition run_start (l : Launcher) (i : nat) (job : QueuedJob) : proc bool :=
  section (λ _ s, match authorize l job with
                  | Err e => (false, emit (ORejected i e) s)
                  | Ok _ => (true, emit (OStarted i job) s)
                  end).
Definition run_end (l : Launcher) (i : nat) (job : QueuedJob) : proc unit :=
  section (λ env s, let '(code, err, _) := RunJob l (an_rand env) (an_calls env) job in
                    (tt, emit (OEnded i code err) s)).

Definition runner (i : nat) (job : QueuedJob) : proc unit :=
  let* _ := match launchers !! i with
            | Some l => let* ok := run_start l i job in if ok : bool then run_end l i job else Ret tt
            | None => Ret tt
            end in
  release i.

(** ** Webhook events *)

Definition requires_metadata (labels : list string) : bool :=
  existsb (λ l, labelsMatch (Labels (l_cfg l)) labels && RequiresWorkflowMetadata l) launchers.

Definition event_job (c : Client) (repo : string) (labels : list string) : QueuedJob :=
  MkQueuedJob (Some c) repo labels "" "" "" "" "".

(** [OnQueued]; the provider's lookup and the list of pools do not change. *)
Definition OnQueued (repo : string) (runID : Z) (labels : list string) : proc unit :=
  let* direct :=
    atomically (λ _ s,
      match ClientFor (gh s) repo with
      | None => Some (None, s, [])
      | Some c =>
          if negb (requires_metadata labels)
          then Some (Some (event_job c repo labels), emit (OEvent (event_job c repo labels)) s, [])
          else Some (None, s, [TResolve c repo runID labels])
      end) in
  match direct with Some job => launchFor job | None => Ret tt end.

(** Its goroutine. *)
Definition resolve (c : Client) (repo : string) (runID : Z) (labels : list string) : proc unit :=
  let* resolved :=
    section (λ env s, match ResolveQueuedJob c (an_run env) repo runID labels with
                      | Ok job => (Some job, emit (OResolved job) s)
                      | Err _ => (None, s)
                      end) in
  match resolved with Some job => launchFor job | None => Ret tt end.

(** ** Polling *)

(** The jobs of one poll, none when every repository failed. *)
Definition poll (jobs : list QueuedJob) (err : option poll_error) : list QueuedJob :=
  match err with
  | Some (PollFailed e) => if AllFailed e then [] else jobs
  | _ => jobs
  end.

(** A poll that panics does not return. *)
Definition reconcile : proc unit :=
  if negb (String.eqb scope ScopeRepo) && negb (String.eqb scope ScopeRepos) then Ret tt
  else
    let* jobs :=
      atomically (λ env s,
        match QueuedJobs (an_jobs env) (gh s) with
        | None => None
        | Some (jobs, err, p) =>
            let jobs := poll jobs err in
            Some (jobs, MkScaler (sems s) p (reverse (OPolled <$> jobs) ++ trace s), [])
        end) in
    pfold (λ _ job, let* _ := launchFor job in Ret (false, tt)) tt jobs.

(** One turn of [pollLoop], which goes on as a thread of its own. *)
Definition pollLoop : proc unit :=
  let* over := section (λ env s, (an_done env, s)) in
  if over : bool then Ret tt
  else
    let* _ := reconcile in
    atomically (λ _ s, Some (tt, s, [TPollLoop])).

Definition ensure_images : proc (bool * option goerror) :=
  pfold (λ _ l, section (λ env s, match EnsureImage l (an_image env) with
                                  | Some e => ((true, (false, Some e)), s)
                                  | None => ((false, (true, None)), s)
                                  end)) (true, None) launchers.

(** [Run], up to its wait for the end of the context. *)
Definition Run : proc unit :=
  let* images := ensure_images in
  if negb images.1 then Ret tt
  else if 0 <? pollEvery then
    let* _ := reconcile in
    atomically (λ _ s, Some (tt, s, [TPollLoop]))
  else Ret tt.

Definition body (t : thread) : proc unit :=
  match t with
  | TRun => Run
  | TPollLoop => pollLoop
  | TOnQueued repo runID labels => OnQueued repo runID labels
  | TResolve c repo runID labels => resolve c repo runID labels
  | TRunner i job => runner i job
  end.

(** Called from outside: [Run], and [OnQueued] by the webhook. *)
Definition call (t : thread) : Prop :=
  match t with TRun | TOnQueued _ _ _ => True | _ => False end.
End scaler.
