(* ===== verification/AutoscaleSpec.v ===== *)
(** * What the autoscaler promises

    In every interleaving of its goroutines the autoscaler runs only
    authorized jobs, on clients that serve them, with the workflow metadata the
    pool asks for, never more of them than the pool has slots, and gives every
    slot back.  The provider is known by its interface only. *)

From S2P Require Import Prelude GoErr GoStr Config Backend Runner GitHub Provider Pools Threads Accounts.
From S2P Require Import Autoscale ConfigSpec.

Local Open Scope Z_scope.
Local Open Scope go_scope.

(** The jobs the queues list come without a repository, as [queuedJobsForRun]
    builds them. *)
Definition blank_jobs (an : answers) : Prop :=
  ∀ c jobs, an_jobs an c = Ok jobs → Forall (λ j, qj_Repository j = "") jobs.

Section spec.
Context `{PL : ProviderLaws P}.
Variable launchers : list Launcher.
Variable scope : string.
Variable pollSec : Z.

Notation Scaler := (@Scaler P).
Notation body := (body launchers scope pollSec).

Definition adm (an : answers) (_ : Scaler) : Prop := blank_jobs an.

(** ** Authorization *)

(** Where a job comes from, and that its client serves it. *)
Definition source (tr : list obs) (job : QueuedJob) : Prop :=
  placed job ∧
  (OPolled job ∈ tr ∨ OResolved job ∈ tr ∨
   OEvent job ∈ tr ∧ requires_metadata launchers (qj_Labels job) = false).

Definition entitled (tr : list obs) (i : nat) (job : QueuedJob) : Prop :=
  ∃ l, launchers !! i = Some l ∧ fits l job = true ∧ source tr job.

Fixpoint legal (tr : list obs) : Prop :=
  match tr with
  | [] => True
  | o :: tr =>
      match o with
      | OTake i job | OStarted i job => entitled tr i job
      | ORejected _ _ => False
      | _ => True
      end ∧ legal tr
  end.

Definition Inv (s : Scaler) : Prop :=
  provider_ok (gh s) ∧ legal (trace s) ∧ ∀ i, Z.of_nat (sems s i) ≤ Z.max 0 (max_of launchers i).

Definition grows (s s' : Scaler) : Prop := ∃ tr, trace s' = tr ++ trace s.

#[local] Instance grows_preorder : PreOrder grows.
Proof.
  split; [by exists []|]. intros a b c [x Hx] [y Hy]. exists (y ++ x). by rewrite Hy, Hx, app_assoc.
Qed.

Definition pre (t : thread) (s : Scaler) : Prop :=
  match t with
  | TResolve c repo _ _ => serves c repo
  | TRunner i job => entitled (trace s) i job
  | _ => True
  end.

Lemma source_grows tr tr' job : source tr job → source (tr' ++ tr) job.
Proof. intros [Hp Hs]. split; [done|]. rewrite !elem_of_app. naive_solver. Qed.

Lemma entitled_grows tr tr' i job : entitled tr i job → entitled (tr' ++ tr) i job.
Proof. intros (l & ? & ? & ?). exists l. split_and!; [done..|]. by apply source_grows. Qed.

Lemma pre_stable t s s' : pre t s → grows s s' → pre t s'.
Proof. destruct t; cbn; try done. intros He [tr ->]. by apply entitled_grows. Qed.

Lemma grows_refl s : grows s s.
Proof. reflexivity. Qed.

Lemma grows_emit o s : grows s (emit o s).
Proof. by exists [o]. Qed.

Notation ok := (ok adm Inv grows pre).

Lemma ok_tryLaunch s0 i job :
  entitled (trace s0) i job → ok s0 (tryLaunch launchers i job) (λ _ _, True).
Proof.
  intros He env s r s' sp [tr Htr] (Hp & Hl & Hs) _ Hf. cbn in Hf.
  destruct (Z.ltb_spec (Z.of_nat (sems s i)) (max_of launchers i)); injection Hf as <- <- <-; cbn -[Z.of_nat].
  - apply (entitled_grows _ tr) in He. rewrite <- Htr in He. split; [|split; [|split]].
    + split; [done|split; [done|]]. intros j. cbn -[Z.of_nat]. specialize (Hs j). destruct (decide (j = i)) as [->|]; lia.
    + by exists [OTake i job].
    + constructor; [|constructor]. by apply (entitled_grows _ [_]).
    + done.
  - split_and!; [done|reflexivity|constructor|done].
Qed.

Lemma ok_launchFor s0 job : source (trace s0) job → ok s0 (launchFor launchers job) (λ _ _, True).
Proof.
  unfold launchFor. cut (∀ ls i s, (∀ k, launchers !! (i + k)%nat = ls !! k) → source (trace s) job →
    ok s (launch_first launchers i ls job) (λ _ _, True)).
  { intros Hg Hs. by apply Hg. }
  clear s0. induction ls as [|l ls IH]; intros i s Hls Hs; cbn [launch_first]; [done|].
  assert (∀ s', grows s s' → ok s' (launch_first launchers (S i) ls job) (λ _ _, True)) as Hnext.
  { intros s' [tr E]. apply IH; [|rewrite E; by apply source_grows].
    intros k. replace (S i + k)%nat with (i + S k)%nat by lia. apply (Hls (S k)). }
  destruct (fits l job) eqn:Ef; [|by apply Hnext, grows_refl].
  apply (ok_seq _ _ _ _ _). eapply (ok_weaken _ _ _ _ _); [|apply ok_tryLaunch].
  - intros [] s' Hs' _ _; [done|by apply Hnext].
  - exists l. split_and!; [|done|done]. rewrite <- (Nat.add_0_r i). apply (Hls 0%nat).
Qed.

(** A job whose source is recorded. *)
Lemma ok_recorded s0 s job :
  grows s0 s → source (trace s) job → ok s (launchFor launchers job) (λ _ _, True).
Proof. intros _ Hs. by apply ok_launchFor. Qed.

Lemma ok_OnQueued s0 repo runID labels : ok s0 (OnQueued launchers repo runID labels) (λ _ _, True).
Proof.
  intros env s r s' sp Hs (Hp & Hl & Hm) _ Hf. destruct (ClientFor (gh s) repo) as [c|] eqn:Ec.
  2:{ injection Hf as <- <- <-. split_and!; [done..|reflexivity|constructor|done]. }
  pose proof (ClientFor_serves _ _ _ Hp Ec) as Hserves.
  destruct (requires_metadata launchers labels) eqn:Er; cbn [negb] in Hf; injection Hf as <- <- <-.
  - split_and!; [done..|reflexivity|by repeat constructor|done].
  - split; [done|split; [apply grows_emit|split; [constructor|]]].
    apply ok_launchFor. split; [by exists c; split; [|right]|].
    right. right. split; [left|done].
Qed.

Lemma ResolveQueuedJob_placed c run repo runID labels job :
  ResolveQueuedJob c run repo runID labels = Ok job → qj_Client job = Some c ∧ qj_Repository job = repo.
Proof.
  unfold ResolveQueuedJob. destruct (runID <=? 0); [done|]. destruct (cut "/" repo) as [[owner name] b].
  destruct (negb b || is_empty owner || is_empty name); [done|].
  destruct run as [[run|]|]; [|done..]. destruct (is_empty _); [done|]. destruct (_ && _); [done|].
  by intros [= <-].
Qed.

Lemma ok_resolve s0 c repo runID labels :
  serves c repo → ok s0 (resolve launchers c repo runID labels) (λ _ _, True).
Proof.
  intros Hserves env s r s' sp Hs (Hp & Hl & Hm) _ Hf.
  destruct (ResolveQueuedJob c (an_run env) repo runID labels) as [job|e] eqn:Er; injection Hf as <- <- <-.
  2:{ split_and!; [done..|reflexivity|constructor|done]. }
  split; [done|split; [apply grows_emit|split; [constructor|]]].
  apply ok_launchFor. apply ResolveQueuedJob_placed in Er as [Ec Er].
  split; [exists c; split; [done|right; by rewrite Er]|]. right. left. left.
Qed.

Lemma legal_polled jobs tr : legal tr → legal (reverse (OPolled <$> jobs) ++ tr).
Proof.
  intros Hl. induction jobs as [|j jobs IH] using rev_ind; [done|].
  rewrite fmap_app, reverse_app. cbn. by split.
Qed.

Lemma poll_sublist jobs err : poll jobs err = jobs ∨ poll jobs err = [].
Proof. unfold poll. destruct err as [[e|e]|]; [destruct (AllFailed e)| |]; auto. Qed.

Lemma ok_reconcile s0 : ok s0 (reconcile launchers scope) (λ _ _, True).
Proof.
  unfold reconcile. destruct (_ && _); [done|]. intros env s r s' sp Hs (Hp & Hl & Hm) Ha Hf.
  destruct (QueuedJobs (an_jobs env) (gh s)) as [[[jobs err] p]|] eqn:Eq; [|done].
  destruct (QueuedJobs_placed _ _ _ _ _ Ha Hp Eq) as [Hj Hp']. injection Hf as <- <- <-.
  assert (Forall placed (poll jobs err)) as Hpl by (destruct (poll_sublist jobs err) as [-> | ->]; [done|constructor]).
  split; [split; [done|split; [by apply legal_polled|done]]|].
  split; [by eexists|split; [constructor|]].
  apply (ok_fold _ _ _ _ _ (λ s, ∀ j, j ∈ poll jobs err → OPolled j ∈ trace s)).
  - intros j Hin. cbn. apply elem_of_app. left. apply elem_of_reverse. by apply list_elem_of_fmap_2.
  - intros a b Hin [tr E] j Hj'. rewrite E. apply elem_of_app. right. by apply Hin.
  - intros [] j u Hu Hin. apply (ok_seq _ _ _ _ _). eapply (ok_weaken _ _ _ _ _); [|apply ok_launchFor]; [done|].
    split; [by eapply Forall_forall|left; by apply Hu].
Qed.

Lemma ok_respawn s0 : ok s0 (atomically (λ _ s, Some (tt, s, [TPollLoop]))) (λ _ _, True).
Proof. intros env s r s' sp Hs Hi _ [= <- <- <-]. split_and!; [apply Hi..|reflexivity|by repeat constructor|done]. Qed.

Lemma ok_reconcile_respawn s0 :
  ok s0 (let* _ := reconcile launchers scope in atomically (λ _ s, Some (tt, s, [TPollLoop]))) (λ _ _, True).
Proof.
  apply (ok_seq _ _ _ _ _). eapply (ok_weaken _ _ _ _ _); [|apply ok_reconcile]. intros. apply ok_respawn.
Qed.

Lemma ok_pollLoop s0 : ok s0 (pollLoop launchers scope) (λ _ _, True).
Proof.
  intros env s r s' sp Hs Hi _ [= <- <- <-]. split; [done|split; [reflexivity|split; [constructor|]]].
  cbn [pbind]. destruct (an_done env); [done|apply ok_reconcile_respawn].
Qed.

Lemma ok_Run s0 : ok s0 (Run launchers scope pollSec) (λ _ _, True).
Proof.
  unfold Run. apply (ok_seq _ _ _ _ _). eapply (ok_weaken _ _ _ _ _).
  2:{ apply (ok_fold _ _ _ _ _ (λ _, True)); [done|done|]. intros b l s _ _ env u r u' sp Hu Hi _ Hf.
      destruct (EnsureImage l (an_image env)); injection Hf as <- <- <-;
        (split_and!; [apply Hi..|reflexivity|constructor|done]). }
  intros [[] e] s Hs Hi _; cbn [fst negb]; [|done].
  destruct (0 <? pollEvery pollSec); [apply ok_reconcile_respawn|done].
Qed.

Lemma fits_authorize l job : fits l job = true → ∃ c, qj_Client job = Some c ∧ authorize l job = Ok c.
Proof.
  unfold fits, authorize. rewrite andb_true_iff. intros [Ha _]. rewrite Ha. unfold Allows in Ha.
  destruct (qj_Client job) as [c|]; [by exists c|done].
Qed.

Lemma ok_release s0 i : ok s0 (release i) (λ _ _, True).
Proof.
  intros env s r s' sp Hs (Hp & Hl & Hm) _ Hf. destruct (sems s i) as [|n] eqn:En; [done|].
  injection Hf as <- <- <-. split; [|split; [by exists [OGive i]|split; [constructor|done]]].
  split; [done|split; [done|]]. intros j. specialize (Hm j). cbn -[Z.of_nat].
  destruct (decide (j = i)) as [->|]; lia.
Qed.

Lemma ok_runner s0 i job : entitled (trace s0) i job → ok s0 (runner launchers i job) (λ _ _, True).
Proof.
  intros He. unfold runner. apply (ok_seq _ _ _ _ _). eapply (ok_weaken _ _ _ _ _ _ _ (λ _ _, True)).
  { intros. apply ok_release. }
  destruct He as (l & Hi & Hf & Hsrc). rewrite Hi. intros env s r s' sp [tr E] (Hp & Hl & Hm) _ Hst.
  destruct (fits_authorize l job Hf) as (c & _ & Ea). rewrite Ea in Hst. injection Hst as <- <- <-.
  assert (entitled (trace s) i job) as He by (rewrite E; apply entitled_grows; by exists l).
  split; [by split; [|split]|split; [apply grows_emit|split; [constructor|]]]. cbn [pbind].
  intros env' u r' u' sp' Hu (Hp' & Hl' & Hm') _ Hst.
  destruct (RunJob l (an_rand env') (an_calls env') job) as [[code err] evs]. injection Hst as <- <- <-.
  split; [by split; [|split]|split; [apply grows_emit|split; [constructor|done]]].
Qed.

Lemma ok_body t s : pre t s → ok s (body t) (λ _ _, True).
Proof.
  destruct t; cbn [pre]; intros Ht; [apply ok_Run|apply ok_pollLoop|apply ok_OnQueued|by apply ok_resolve|].
  by apply ok_runner.
Qed.

(** The scaler, with any number of events and goroutines. *)
Definition reaches (p : P) (c : config Scaler answers thread) : Prop :=
  reachable body call adm (New p) c.

Lemma scaler_inv p c : provider_ok p → reaches p c → Inv (mem c).
Proof.
  intros Hp Hr. eapply (reachable_inv body call adm Inv grows pre) in Hr; [by apply Hr|apply _| | | |].
  - apply pre_stable.
  - split; [done|split; [done|]]. intros i. cbn. lia.
  - apply ok_body.
  - by intros [] s.
Qed.

(** ** Slots *)

(** The runners of pool [i] between their two hooks. *)
Definition started_at (i : nat) (o : obs) : bool :=
  match o with OStarted j _ => bool_decide (j = i) | _ => false end.
Definition ended_at (i : nat) (o : obs) : bool :=
  match o with OEnded j _ _ => bool_decide (j = i) | _ => false end.
Definition live (i : nat) (tr : list obs) : Z :=
  Z.of_nat (length (filter (λ o, started_at i o = true) tr)) - Z.of_nat (length (filter (λ o, ended_at i o = true) tr)).

Lemma live_cons i o tr :
  live i (o :: tr) = live i tr + (if started_at i o then 1 else 0) - (if ended_at i o then 1 else 0).
Proof.
  unfold live. rewrite !filter_cons.
  destruct (started_at i o) eqn:E1, (ended_at i o) eqn:E2; rewrite ?(decide_True (P := true = true)) by done;
    rewrite ?(decide_False (P := false = true)) by done; cbn [length]; lia.
Qed.

(** The two accounts of pool [i]: its slots taken, and those of them whose
    runner is not between its hooks. *)
Inductive account := Taken | Spare.

Definition mu (i : nat) (k : account) (s : Scaler) : Z :=
  match k with
  | Taken => Z.of_nat (sems s i)
  | Spare => Z.of_nat (sems s i) - live i (trace s)
  end.

Definition share (i : nat) (_ : account) (t : thread) : nat :=
  match t with TRunner j _ => if decide (j = i) then 1 else 0 | _ => 0 end.

Lemma mu_emit i k o s : started_at i o = false → ended_at i o = false → mu i k (emit o s) = mu i k s.
Proof. intros H1 H2. unfold mu. cbn [sems trace emit]. rewrite live_cons, H1, H2. destruct k; lia. Qed.

Lemma mu_set_sem i k j n s :
  mu i k (set_sem j n s) = mu i k s + if decide (j = i) then Z.of_nat n - Z.of_nat (sems s i) else 0.
Proof.
  unfold mu. cbn -[Z.of_nat live].
  destruct k, (decide (i = j)), (decide (j = i)); subst; try congruence; lia.
Qed.

Lemma live_polled i jobs tr : live i (reverse (OPolled <$> jobs) ++ tr) = live i tr.
Proof.
  induction jobs as [|j jobs IH] using rev_ind; [done|]. rewrite fmap_app, reverse_app. cbn [fmap list_fmap].
  change (reverse [OPolled j]) with [OPolled j]. cbn [app]. rewrite live_cons, IH. cbn. lia.
Qed.

Section pool.
Variable i : nat.

Notation owns := (owns adm (λ _, True) (mu i) (share i)).
Definition none : account → nat := λ _, 0%nat.
(** A program that holds no slot of its own. *)
Notation neutral p := (owns none p (λ _ m, m = none)).

(** What a step without [TRunner] leaves. *)
Lemma moves_none n s s' sp :
  (∀ k, mu i k s' = mu i k s) → Forall (λ t, share i Taken t = 0%nat) sp → moves (mu i) (share i) n n s s' sp.
Proof. intros Hm Hs k. rewrite Hm, held_all_zero; [lia|]. eapply Forall_impl; [exact Hs|]. by intros []. Qed.

Lemma owns_tryLaunch j job : neutral (tryLaunch launchers j job).
Proof.
  intros env s r s' sp _ _ _ Hf. split; [done|]. exists none. split; [|done]. cbn in Hf.
  destruct (_ <? _); injection Hf as <- <- <-; [|by apply moves_none].
  intros k. rewrite mu_emit, mu_set_sem by done. cbn [fmap list_fmap]. rewrite held_cons, held_nil.
  unfold none, share. destruct (decide (j = i)) as [->|]; lia.
Qed.

Lemma owns_launchFor job : neutral (launchFor launchers job).
Proof.
  unfold launchFor. cut (∀ ls j, neutral (launch_first launchers j ls job)); [by intros Hg|].
  induction ls as [|l ls IH]; intros j; [done|].
  cbn [launch_first]. destruct (fits l job); [|apply IH].
  eapply owns_then; [apply owns_tryLaunch|]. intros []; [done|apply IH].
Qed.

Lemma owns_OnQueued repo runID labels : neutral (OnQueued launchers repo runID labels).
Proof.
  intros env s r s' sp _ _ _ Hf. split; [done|]. exists none. destruct (ClientFor (gh s) repo) as [c|].
  2:{ injection Hf as <- <- <-. split; [by apply moves_none|done]. }
  destruct (negb (requires_metadata launchers labels)); injection Hf as <- <- <-.
  - split; [|apply owns_launchFor]. apply moves_none; [|constructor]. intros k. by apply mu_emit.
  - split; [|done]. apply moves_none; [done|by repeat constructor].
Qed.

Lemma owns_resolve c repo runID labels : neutral (resolve launchers c repo runID labels).
Proof.
  intros env s r s' sp _ _ _ Hf. split; [done|]. exists none.
  destruct (ResolveQueuedJob c (an_run env) repo runID labels); injection Hf as <- <- <-.
  - split; [|apply owns_launchFor]. apply moves_none; [|constructor]. intros k. by apply mu_emit.
  - split; [by apply moves_none|done].
Qed.

Lemma owns_reconcile : neutral (reconcile launchers scope).
Proof.
  unfold reconcile. destruct (_ && _); [done|]. intros env s r s' sp _ _ _ Hf. split; [done|]. exists none.
  destruct (QueuedJobs (an_jobs env) (gh s)) as [[[jobs err] p]|]; [|done]. injection Hf as <- <- <-. split.
  - apply moves_none; [|constructor]. intros []; unfold mu; cbn [sems trace]; by rewrite ?live_polled.
  - apply owns_fold. intros [] j _. by eapply owns_then; [apply owns_launchFor|].
Qed.

Lemma owns_reconcile_respawn :
  neutral (let* _ := reconcile launchers scope in atomically (λ _ s, Some (tt, s, [TPollLoop]))).
Proof.
  eapply owns_then; [apply owns_reconcile|]. intros [] env s r s' sp _ _ _ [= <- <- <-].
  split; [done|]. exists none. split; [|done]. apply moves_none; [done|by repeat constructor].
Qed.

Lemma owns_pollLoop : neutral (pollLoop launchers scope).
Proof.
  intros env s r s' sp _ _ _ [= <- <- <-]. split; [done|]. exists none. split; [by apply moves_none|]. cbn [pbind].
  destruct (an_done env); [done|apply owns_reconcile_respawn].
Qed.

Lemma owns_Run : neutral (Run launchers scope pollSec).
Proof.
  unfold Run. eapply owns_then.
  { apply owns_fold. intros a l _ env s r s' sp _ _ _ Hf. split; [done|]. exists none.
    destruct (EnsureImage l (an_image env)); injection Hf as <- <- <-; (split; [by apply moves_none|done]). }
  intros [[] e]; cbn [fst negb]; [|done]. destruct (0 <? pollEvery pollSec); [apply owns_reconcile_respawn|done].
Qed.

(** The slot of a runner of pool [j]. *)
Definition slot (j : nat) : account → nat := λ _, if decide (j = i) then 1%nat else 0%nat.

Lemma owns_release j : owns (slot j) (release j) (λ _ m, m = none).
Proof.
  intros env s r s' sp _ _ _ Hf. destruct (sems s j) as [|k] eqn:Ej; [done|]. injection Hf as <- <- <-.
  split; [done|]. exists none. split; [|done]. intros q. rewrite mu_emit, mu_set_sem by done.
  cbn [fmap list_fmap]. rewrite held_nil. unfold slot, none. destruct (decide (j = i)) as [->|]; lia.
Qed.

(** While its runner is between the hooks, a slot is not spare. *)
Definition busy (j : nat) : account → nat := λ k, match k with Taken => slot j Taken | Spare => 0%nat end.

Lemma moves_started j job s : moves (mu i) (share i) (slot j) (busy j) s (emit (OStarted j job) s) [].
Proof.
  intros k. cbn [fmap list_fmap]. rewrite held_nil. unfold mu, busy, slot. cbn [sems trace emit]. rewrite live_cons.
  cbn [started_at ended_at]. destruct k, (decide (j = i)); rewrite ?bool_decide_true, ?bool_decide_false by done; lia.
Qed.

Lemma moves_ended j code err s : moves (mu i) (share i) (busy j) (slot j) s (emit (OEnded j code err) s) [].
Proof.
  intros k. cbn [fmap list_fmap]. rewrite held_nil. unfold mu, busy, slot. cbn [sems trace emit]. rewrite live_cons.
  cbn [started_at ended_at]. destruct k, (decide (j = i)); rewrite ?bool_decide_true, ?bool_decide_false by done; lia.
Qed.

Lemma owns_runner j job : owns (slot j) (runner launchers j job) (λ _ m, m = none).
Proof.
  unfold runner. eapply owns_then; [|intros _; apply owns_release].
  destruct (launchers !! j) as [l|]; [|done]. intros env s r s' sp _ _ _ Hf. split; [done|].
  destruct (authorize l job) as [c|e]; injection Hf as <- <- <-.
  2:{ exists (slot j). split; [|done]. apply moves_none; [|constructor]. intros k. by apply mu_emit. }
  exists (busy j). split; [apply moves_started|]. cbn [pbind]. intros env' u r' u' sp' _ _ _ Hf.
  destruct (RunJob l (an_rand env') (an_calls env') job) as [[code err] evs]. injection Hf as <- <- <-.
  split; [done|]. exists (slot j). split; [apply moves_ended|done].
Qed.

Lemma owns_body t : owns (λ k, share i k t) (body t) (λ _ m, ∀ k, m k = 0%nat).
Proof.
  eapply owns_weaken with (Q := λ _ m, m = none); [by intros [] m -> k|].
  destruct t; [apply owns_Run|apply owns_pollLoop|apply owns_OnQueued|apply owns_resolve|apply owns_runner].
Qed.

Lemma mu_held p c k : reaches p c →
  0 ≤ mu i k (mem c) ∧ (Forall (λ q, q = Ret tt) (Threads.pool c) → mu i k (mem c) = 0).
Proof.
  intros Hr. assert (∀ k, mu i k (New p) = 0) as H0 by (by intros []).
  assert (∀ t k, call t → share i k t = 0%nat) as Hc by (by intros []).
  split; [|intros Hd; by eapply (accounts_settled body call adm (λ _, True) (mu i) (share i) owns_body Hc)].
  destruct (accounts body call adm (λ _, True) (mu i) (share i) owns_body Hc _ _ H0 I Hr) as (_ & ns & ->).
  unfold held. lia.
Qed.
End pool.

(** C8: whatever events, polls and runners overlap, the runners of a pool that
    are between their two hooks are at most the slots taken, and those at most
    the pool's size; and once every goroutine has returned no slot is left
    taken. *)
Theorem scaler_capacity p c i :
  provider_ok p → reaches p c → 0 ≤ max_of launchers i →
  live i (trace (mem c)) ≤ Z.of_nat (sems (mem c) i) ≤ max_of launchers i ∧
  (Forall (λ q, q = Ret tt) (Threads.pool c) → sems (mem c) i = 0%nat ∧ live i (trace (mem c)) = 0).
Proof.
  intros Hp Hr Hm. destruct (scaler_inv p c Hp Hr) as (_ & _ & Hs). specialize (Hs i).
  destruct (mu_held i p c Taken Hr) as [_ Ht], (mu_held i p c Spare Hr) as [Hsp Hs'].
  unfold mu in *. split; [lia|]. intros Hret. specialize (Ht Hret). specialize (Hs' Hret). lia.
Qed.

Lemma legal_from later o earlier : legal (later ++ o :: earlier) → legal (o :: earlier).
Proof. induction later as [|x later IH]; [done|]. intros [_ Hl]. by apply IH. Qed.

(** C7: a runner starts only for a job that is allowed: its pool serves the
    job's repository, workflow, event, actor and ref and carries its labels,
    the runner is registered with a client that serves the repository, and
    when the pool names workflows the job's metadata come from a poll or from
    the workflow run that was looked up, never from the webhook event; no
    launch is refused by the pool afterwards. *)
Theorem scaler_authorized p c later i job earlier :
  provider_ok p → reaches p c → trace (mem c) = later ++ OStarted i job :: earlier →
  ∃ l client, launchers !! i = Some l ∧ qj_Client job = Some client ∧
    (qj_Repository job = "" ∨ serves client (qj_Repository job)) ∧
    CanServeJob (l_cfg l) (if is_empty (qj_Repository job) then Target client else qj_Repository job)
      (qj_WorkflowPath job) (qj_Event job) (qj_Actor job) (qj_Ref job) = true ∧
    (∀ jl, jl ∈ qj_Labels job → ∃ pl, pl ∈ Labels (l_cfg l) ∧ fold_eq pl jl) ∧
    (Workflows (l_cfg l) ≠ [] → OPolled job ∈ earlier ∨ OResolved job ∈ earlier) ∧
    ∀ j e, ORejected j e ∉ trace (mem c).
Proof.
  intros Hp Hr E. destruct (scaler_inv p c Hp Hr) as (_ & Hl & _).
  assert (∀ j e, ORejected j e ∉ trace (mem c)) as Hrej.
  { intros j e (a & b & Eab)%list_elem_of_split. rewrite Eab in Hl. by apply legal_from in Hl as [? _]. }
  rewrite E in Hl. apply legal_from in Hl as [(l & Hi & Hf & (client & Hc & Hplace) & Hsrc) _].
  unfold fits, Allows in Hf. rewrite !andb_true_iff, Hc in Hf. destruct Hf as [[_ Hcan] Hlab].
  exists l, client. split_and!; [done..| | |done].
  - intros jl Hin. unfold labelsMatch in Hlab. rewrite forallb_forall in Hlab.
    specialize (Hlab jl ltac:(by apply list_elem_of_In)). apply existsb_exists in Hlab as (pl & Hpl & Hfold).
    exists pl. by rewrite list_elem_of_In.
  - intros Hw. destruct Hsrc as [?|[?|[_ Hreq]]]; [by left|by right|]. exfalso.
    unfold requires_metadata in Hreq. apply not_true_iff_false in Hreq. apply Hreq, existsb_exists.
    exists l. rewrite <- list_elem_of_In. split; [by eapply list_elem_of_lookup_2|].
    rewrite Hlab. unfold RequiresWorkflowMetadata. by rewrite bool_decide_false.
Qed.

(** Pool [i] can take the job now. *)
Definition can_take (s : Scaler) (job : QueuedJob) (i : nat) : Prop :=
  ∃ l, launchers !! i = Some l ∧ fits l job = true ∧ Z.of_nat (sems s i) < Max l.

(** One call of [launchFor] in the state [s], with its answers [envs]. *)
Definition takes_first (s : Scaler) (job : QueuedJob) (envs : list answers) (p : proc unit) : Prop :=
  ∃ rest,
    (∃ i, can_take s job i ∧ (∀ j, (j < i)%nat → ¬ can_take s job j) ∧
          exec p envs s = Some (tt, emit (OTake i job) (set_sem i (S (sems s i)) s), [TRunner i job], rest)) ∨
    ((∀ j, ¬ can_take s job j) ∧ exec p envs s = Some (tt, s, [], rest)).

Lemma launch_first_takes s job ls i envs :
  (∀ k, launchers !! (i + k)%nat = ls !! k) → (length ls ≤ length envs)%nat →
  (∀ j, (j < i)%nat → ¬ can_take s job j) → takes_first s job envs (launch_first launchers i ls job).
Proof.
  revert i envs. induction ls as [|l ls IH]; intros i envs Hls Hlen Hno; cbn [launch_first].
  { exists envs. right. split; [|done]. intros j Hj. destruct (decide (j < i)%nat) as [|Hge]; [by eapply Hno|].
    destruct Hj as (l & Hj & _). specialize (Hls (j - i)%nat). replace (i + (j - i))%nat with j in Hls by lia.
    rewrite lookup_nil in Hls. congruence. }
  assert (launchers !! i = Some l) as Hi by (rewrite <- (Nat.add_0_r i); apply (Hls 0%nat)).
  destruct envs as [|env envs]; [cbn in Hlen; lia|].
  assert (¬ can_take s job i → ∀ envs', (length ls ≤ length envs')%nat →
            takes_first s job envs' (launch_first launchers (S i) ls job)) as Hnext.
  { intros Hn envs' Hlen'. apply IH; [|done|].
    - intros k. replace (S i + k)%nat with (i + S k)%nat by lia. apply (Hls (S k)).
    - intros j Hj. destruct (decide (j = i)) as [->|]; [done|]. apply Hno. lia. }
  destruct (fits l job) eqn:Ef; cbn in Hlen.
  2:{ apply Hnext; [|cbn; lia]. intros (l' & Hl' & Hf & _). congruence. }
  unfold takes_first. cbn [pbind tryLaunch atomically exec]. unfold max_of. rewrite Hi.
  destruct (Z.ltb_spec (Z.of_nat (sems s i)) (Max l)) as [Hfree|Hfull].
  - exists envs. left. exists i. split; [by exists l|]. by split.
  - destruct (Hnext ltac:(intros (l' & Hl' & _ & Hlt); simplify_eq; lia) envs ltac:(lia)) as (rest & Hx).
    exists rest. destruct Hx as [(i' & H1 & H2 & ->)|[H1 ->]]; [left; by exists i'|by right].
Qed.

(** A queued job takes a slot of the first pool, in the order of the
    configuration, that is allowed to serve it and has one free, and its
    runner is started there; it is dropped only when no pool could take it. *)
Theorem launchFor_first job s envs :
  (length launchers ≤ length envs)%nat → takes_first s job envs (launchFor launchers job).
Proof. intros Hlen. apply launch_first_takes; [done|done|]. intros j Hj. lia. Qed.
End spec.

(** ** A run

    A webhook event for a pool that names workflows: the workflow run is looked
    up, and its job takes the pool's only slot. *)

Definition demo_launcher : Launcher := NewLauncher (pool_defaults false pool_w) "image" ∅ [] (MkHooks true true).
Definition demo_client : Client := MkClient ScopeRepo "acme" "app".
Definition demo_calls : run_answers :=
  {| ra_jit := Ok {| Runner.EncodedJITConfig := "jit"; Runner_ID := 7 |}; ra_launch := (Some "c1", None);
     ra_wait := (0, None); ra_ctx := None; ra_kill := None; ra_busy := Ok false |}.
Definition demo_answers : answers :=
  {| an_jobs _ := Ok [];
     an_run := Ok (Some (MkRun 5 ".github/workflows/ci.yml" "push" (Some "octocat") "refs/heads/main" "queued"));
     an_image := None; an_rand := "abcd"; an_calls := demo_calls; an_done := false |}.

Definition demo_body := body (P := Client) [demo_launcher] ScopeRepo 0.
Definition demo_sched (n : nat) : list (thread + nat * answers) :=
  inl (TOnQueued "Acme/app" 5 ["self-hosted"]) :: take n [inr (0%nat, demo_answers); inr (1%nat, demo_answers);
    inr (1%nat, demo_answers); inr (2%nat, demo_answers); inr (2%nat, demo_answers); inr (2%nat, demo_answers)].
Definition demo_config (n : nat) : config Scaler answers thread :=
  default (Config (New demo_client) []) (run demo_body (demo_sched n) (Config (New demo_client) [])).

Lemma demo_scaler_reaches n :
  run demo_body (demo_sched n) (Config (New demo_client) []) = Some (demo_config n) →
  reaches [demo_launcher] ScopeRepo 0 demo_client (demo_config n).
Proof.
  intros Hr. eapply (run_reachable _ _ _ _ _ (Config (New demo_client) [])); [apply reach_init| |exact Hr].
  apply admitted_always. constructor; [done|]. apply Forall_take.
  repeat (constructor; [intros s c jobs [= <-]; constructor|]). constructor.
Qed.

Lemma scaler_capacity_witness :
  sems (mem (demo_config 5)) 0 = 1%nat ∧
  live 0 (trace (mem (demo_config 5))) ≤ Z.of_nat (sems (mem (demo_config 5)) 0) ≤ 1.
Proof.
  split; [vm_compute; reflexivity|].
  apply (scaler_capacity [demo_launcher] ScopeRepo 0 demo_client (demo_config 5) 0); [done| |done].
  apply demo_scaler_reaches. vm_compute. reflexivity.
Defined.

Definition demo_job : QueuedJob :=
  MkQueuedJob (Some demo_client) "Acme/app" ["self-hosted"] ".github/workflows/ci.yml" "push" "octocat"
    "refs/heads/main" "queued".

Lemma scaler_authorized_witness :
  CanServeJob (l_cfg demo_launcher) "Acme/app" ".github/workflows/ci.yml" "push" "octocat" "refs/heads/main" = true.
Proof.
  destruct (scaler_authorized [demo_launcher] ScopeRepo 0 demo_client (demo_config 4) [] 0 demo_job
    [OTake 0 demo_job; OResolved demo_job]) as (l & client & Hl & _ & _ & Hcan & _).
  - done.
  - apply demo_scaler_reaches. vm_compute. reflexivity.
  - vm_compute. reflexivity.
  - injection Hl as <-. exact Hcan.
Defined.

Lemma launchFor_first_witness :
  exec (launchFor [demo_launcher] demo_job) [demo_answers] (New demo_client) ≠ None.
Proof.
  destruct (launchFor_first [demo_launcher] demo_job (New demo_client) [demo_answers])
    as (rest & [(i & _ & _ & E)|[_ E]]); [cbn; lia|rewrite E; discriminate..].
Defined.
