(* ===== verification/Webhook.v ===== *)
(** * The webhook receiver

    [internal/webhook/webhook.go]: GitHub's [workflow_job] events, checked
    against their signature, become calls of the autoscaler.  The HTTP server
    around the handler is not modelled. *)

From S2P Require Import Prelude GoErr GoStr Codec Sha256 Json Config Backend Runner GitHub Provider Pools Threads.
From S2P Require Import Accounts Autoscale AutoscaleSpec.

Local Open Scope Z_scope.
Local Open Scope go_scope.

(** A request: its body, whose read may fail, and its two headers. *)
Record delivery := Delivery {
  dl_body : result string;
  dl_signature : string;
  dl_event : string
}.

(** [validSignature] verifies the HMAC-SHA256 signature GitHub sends. *)
Definition validSignature (secret header body : string) : bool :=
  let prefix := "sha256=" in
  if (String.length header <=? String.length prefix)%nat ||
     negb (String.eqb (str_take (String.length prefix) header) prefix) then false
  else
    match hex_decode (str_drop (String.length prefix) header) with
    | None => false
    | Some got => String.eqb (hmac_sha256 secret body) got
    end.

(** [io.LimitReader]. *)
Definition maxBody : Z := 2 ^ 20.
Definition limited (body : string) : string :=
  if Z.of_nat (String.length body) <=? maxBody then body else str_take (Z.to_nat maxBody) body.

(** The payload's fields; a field of another type spoils it. *)
Record payload := Payload { p_Action : string; p_Labels : list string; p_RunID : Z; p_FullName : string }.

Definition decode_job (old : list string * Z) (v : json) : decoded (list string * Z) :=
  let '(labels, ok1) := field "labels" (as_list (as_string "")) old.1 v in
  let '(run, ok2) := field "run_id" as_int old.2 v in
  ((labels, run), ok1 && ok2).
Definition decode_payload (v : json) : decoded payload :=
  let '(action, ok1) := field "action" as_string "" v in
  let '((labels, run), ok2) := field "workflow_job" decode_job ([], 0) v in
  let '(name, ok3) := field "repository" (field "full_name" as_string) "" v in
  (Payload action labels run name, ok1 && ok2 && ok3).

(** [handle]: the status, and the call of [OnQueued] if there is one. *)
Definition handle (secret : string) (r : delivery) : Z * option thread :=
  match dl_body r with
  | Err _ => (400, None)
  | Ok body =>
      let body := limited body in
      if negb (is_empty secret) && negb (validSignature secret (dl_signature r) body) then (401, None)
      else if String.eqb (dl_event r) "ping" then (200, None)
      else if negb (String.eqb (dl_event r) "workflow_job") then (204, None)
      else
        match parse_json body with
        | None => (400, None)
        | Some v =>
            let '(p, ok) := decode_payload v in
            if negb ok then (400, None)
            else if String.eqb (p_Action p) "queued"
            then (200, Some (TOnQueued (p_FullName p) (p_RunID p) (p_Labels p)))
            else (200, None)
        end
  end.

(** A digest has eight words. *)
Lemma sha_round_length st kw : length (sha_round st kw) = length st.
Proof. unfold sha_round. by do 9 (destruct st as [|? st]; [done|]). Qed.

Lemma sha_block_length h block : length (sha_block h block) = length h.
Proof.
  unfold sha_block. rewrite length_zip_with. assert (∀ l st, length (foldl sha_round st l) = length st) as ->.
  { induction l as [|kw l IH]; intros st; [done|]. cbn [foldl]. by rewrite IH, sha_round_length. }
  lia.
Qed.

Lemma sha_blocks_length n h w : length (sha_blocks n h w) = length h.
Proof. revert h w. induction n as [|n IH]; intros h w; [done|]. cbn [sha_blocks]. by rewrite IH, sha_block_length. Qed.

Lemma hmac_nonempty key msg : hmac_sha256 key msg ≠ "".
Proof.
  unfold hmac_sha256. set (m := _ ++ _). unfold sha256_bytes at 1.
  pose proof (sha_blocks_length (length (words (sha_pad m)) / 16) sha_h (words (sha_pad m))) as Hl.
  by destruct (sha_blocks _ _ _).
Qed.

Lemma validSignature_iff secret header body :
  validSignature secret header body = true ↔
  ∃ sig, header = "sha256=" +:+ sig ∧ hex_decode sig = Some (hmac_sha256 secret body).
Proof.
  unfold validSignature. set (prefix := "sha256="). split.
  - destruct (_ <=? _)%nat; cbn [orb]; [done|]. destruct (String.eqb_spec (str_take (String.length prefix) header) prefix) as [E|]; [|done].
    cbn [negb]. destruct (hex_decode _) as [got|] eqn:Ed; [|done]. intros ->%String.eqb_eq.
    exists (str_drop (String.length prefix) header). split; [|done]. rewrite <- E at 1. by rewrite str_take_drop.
  - intros (sig & -> & Hd). rewrite str_length_app, str_take_app, str_drop_app, String.eqb_refl, Hd, String.eqb_refl.
    destruct (Nat.leb_spec (String.length prefix + String.length sig) (String.length prefix)); [|done].
    destruct sig; [|cbn in *; lia]. injection Hd as Hd. by apply eq_sym, hmac_nonempty in Hd.
Qed.

(** C38: the webhook calls the autoscaler exactly for an authentic event: when
    a secret is configured the request carries the HMAC of the body under that
    secret, it is a [workflow_job] event, and its body is a payload whose action
    is [queued]; the call then has the repository, run and labels of the
    payload, and the answer is 200. *)
Theorem handle_authentic secret r st t :
  handle secret r = (st, Some t) ↔
  ∃ body v p, dl_body r = Ok body ∧ dl_event r = "workflow_job" ∧
    (secret ≠ "" → ∃ sig, dl_signature r = "sha256=" +:+ sig ∧
       hex_decode sig = Some (hmac_sha256 secret (limited body))) ∧
    parse_json (limited body) = Some v ∧ decode_payload v = (p, true) ∧ p_Action p = "queued" ∧
    st = 200 ∧ t = TOnQueued (p_FullName p) (p_RunID p) (p_Labels p).
Proof.
  unfold handle. destruct (dl_body r) as [body|e]; [|split; [done|by intros (? & ? & ? & [=] & _)]].
  setoid_rewrite <- is_empty_false. setoid_rewrite <- (validSignature_iff secret (dl_signature r)).
  assert (∀ Q : string → json → payload → Prop, (∃ b v p, Ok body = Ok b ∧ Q b v p) ↔ ∃ v p, Q body v p) as HQ.
  { intros Q. split; [intros (b & v & p & [= <-] & ?); eauto|]. intros (v & p & ?). exists body, v, p. eauto. }
  rewrite HQ. clear HQ. generalize (limited body). intros text.
  destruct (negb (is_empty secret) && negb (validSignature secret (dl_signature r) text)) eqn:Eg.
  { rewrite andb_true_iff, !negb_true_iff in Eg. destruct Eg as [Hs Hv].
    split; [done|]. intros (v & p & _ & Hx & _). by rewrite (Hx Hs) in Hv. }
  assert (is_empty secret = false → validSignature secret (dl_signature r) text = true) as Hv.
  { intros Hs. rewrite Hs in Eg. by apply negb_false_iff. }
  destruct (String.eqb_spec (dl_event r) "ping") as [E|_].
  { split; [done|]. intros (v & p & E' & _). congruence. }
  destruct (String.eqb_spec (dl_event r) "workflow_job") as [E|E]; cbn [negb]; [|split; [done|by intros (v & p & ? & _)]].
  destruct (parse_json text) as [v|]; [|split; [done|by intros (v & p & _ & _ & [=] & _)]].
  destruct (decode_payload v) as [p []] eqn:Ed; cbn [negb].
  2:{ split; [done|]. intros (v' & p' & _ & _ & [= <-] & Ed' & _). congruence. }
  destruct (String.eqb_spec (p_Action p) "queued") as [Ea|Ea]; split.
  - intros [= <- <-]. by exists v, p.
  - intros (v' & p' & _ & _ & [= <-] & Ed' & _ & -> & ->). by replace p' with p by congruence.
  - done.
  - intros (v' & p' & _ & _ & [= <-] & Ed' & ? & _). congruence.
Qed.
