(* ===== verification/Filepath.v ===== *)
(** * path/filepath on Unix

    The lexical functions of the Go standard library that the program applies
    to its own paths, on the elements between slashes. *)

From S2P Require Import Prelude GoErr GoStr.

Local Open Scope go_scope.

Definition slash : ascii := "/".

(** The elements of a path: empty ones and [.] are dropped, [..] removes the
    one before it, or stays in front of a relative path. *)
Fixpoint clean_elems (rooted : bool) (acc : list string) (elems : list string) : list string :=
  match elems with
  | [] => reverse acc
  | e :: elems =>
      if is_empty e || String.eqb e "." then clean_elems rooted acc elems
      else if String.eqb e ".." then
        match acc with
        | top :: below =>
            if String.eqb top ".." then clean_elems rooted (e :: acc) elems else clean_elems rooted below elems
        | [] => clean_elems rooted (if rooted then [] else [e]) elems
        end
      else clean_elems rooted (e :: acc) elems
  end.

(** A cleaned path: whether it is rooted, and its elements. *)
Definition elems (path : string) : bool * list string :=
  let rooted := has_prefix "/" path in (rooted, clean_elems rooted [] (split slash path)).

Definition path_text (p : bool * list string) : string :=
  if p.1 then "/" +:+ join "/" p.2
  else if bool_decide (p.2 = []) then "." else join "/" p.2.

Definition Clean (path : string) : string := path_text (elems path).

(** [filepath.Join] of two elements. *)
Definition Join (a b : string) : string :=
  if is_empty a then (if is_empty b then "" else Clean b)
  else if is_empty b then Clean a else Clean (a +:+ "/" +:+ b).

(** What remains of two lists after their common prefix. *)
Fixpoint strip_common (a b : list string) : list string * list string :=
  match a, b with
  | x :: a', y :: b' => if String.eqb x y then strip_common a' b' else (a, b)
  | _, _ => (a, b)
  end.

Definition Rel (base targ : string) : result string :=
  let '(rb, eb) := elems base in
  let '(rt, et) := elems targ in
  if negb (Bool.eqb rb rt) then Err (errorf ("Rel: can't make " +:+ targ +:+ " relative to " +:+ base))
  else
    let '(up, down) := strip_common eb et in
    match up with
    | ".." :: _ => Err (errorf ("Rel: can't make " +:+ targ +:+ " relative to " +:+ base))
    | _ => match replicate (length up) ".." ++ down with
           | [] => Ok "."
           | l => Ok (join "/" l)
           end
    end.

(** An element of a clean path. *)
Definition plain (e : string) : Prop := e ≠ "" ∧ e ≠ "." ∧ e ≠ ".." ∧ str_mem slash e = false.

Lemma clean_elems_plain rooted acc l :
  Forall plain l → clean_elems rooted acc l = reverse acc ++ l.
Proof.
  intros Hl. revert acc. induction Hl as [|e l (H1 & H2 & H3 & _) _ IH]; intros acc; cbn; [by rewrite app_nil_r|].
  apply is_empty_false in H1. apply String.eqb_neq in H2, H3. rewrite H1, H2, H3. cbn [orb].
  rewrite IH, reverse_cons, <- app_assoc. done.
Qed.

Lemma clean_elems_app rooted acc a b :
  clean_elems rooted acc (a ++ b) = clean_elems rooted (reverse (clean_elems rooted acc a)) b.
Proof.
  revert acc. induction a as [|e a IH]; intros acc; cbn [app clean_elems]; [by rewrite reverse_involutive|].
  destruct (is_empty e || String.eqb e "."); [apply IH|]. destruct (String.eqb e ".."); [|apply IH].
  destruct acc as [|top below]; [apply IH|]. destruct (String.eqb top ".."); apply IH.
Qed.

Lemma split_mid c a b : split c (a +:+ String c b) = split c a ++ split c b.
Proof.
  induction a as [|d a IH]; cbn [split String.append].
  - change ("" +:+ String c b) with (String c b). cbn [split]. by rewrite Ascii.eqb_refl.
  - change (String d a +:+ String c b) with (String d (a +:+ String c b)). cbn [split].
    destruct (Ascii.eqb c d); [by rewrite IH|]. rewrite IH.
    pose proof (split_nonnil c a) as Hn. by destruct (split c a).
Qed.

Lemma split_join_plain l : l ≠ [] → Forall plain l → split slash (join "/" l) = l.
Proof.
  intros Hn Hl. induction Hl as [|e l (_ & _ & _ & He) Hl IH]; [done|]. destruct l as [|x l]; [by apply split_free|].
  rewrite join_cons by done. change ("/" +:+ join "/" (x :: l)) with (String slash (join "/" (x :: l))).
  rewrite split_app by done. by rewrite IH.
Qed.

(** Under the root, only plain elements remain. *)
Lemma clean_rooted_plain acc l :
  Forall plain acc → Forall (λ e, str_mem slash e = false) l → Forall plain (clean_elems true acc l).
Proof.
  intros Ha Hl. revert acc Ha. induction Hl as [|e l He _ IH]; intros acc Ha; cbn [clean_elems].
  { rewrite reverse_Permutation. done. }
  destruct (is_empty e) eqn:E1; [by apply IH|]. destruct (String.eqb_spec e ".") as [|E2]; [by apply IH|]. cbn [orb].
  destruct (String.eqb_spec e "..") as [|E3].
  - destruct acc as [|top below]; [by apply IH|]. apply Forall_cons in Ha as [(_ & _ & Ht & _) Hb].
    apply String.eqb_neq in Ht. rewrite Ht. by apply IH.
  - apply IH. constructor; [|done]. apply is_empty_false in E1. done.
Qed.

Lemma elems_rooted path : has_prefix "/" path = true → (elems path).1 = true ∧ Forall plain (elems path).2.
Proof.
  intros Hp. unfold elems. rewrite Hp. split; [done|]. apply clean_rooted_plain; [constructor|].
  apply Forall_forall. intros e He. by eapply split_mem.
Qed.

(** A path of plain elements reads back. *)
Lemma elems_path_text l : Forall plain l → elems (path_text (true, l)) = (true, l).
Proof.
  intros Hl. unfold path_text, elems. cbn [fst snd]. rewrite has_prefix_app. f_equal.
  change ("/" +:+ join "/" l) with (String slash (join "/" l)).
  change (String slash (join "/" l)) with ("" +:+ String slash (join "/" l)). rewrite split_mid. cbn [split app].
  destruct l as [|e l]; [done|]. rewrite split_join_plain by done.
  change (clean_elems true [] ("" :: e :: l)) with (clean_elems true [] (e :: l)). by rewrite clean_elems_plain.
Qed.

Lemma strip_common_prefix a b : strip_common a (a ++ b) = ([], b).
Proof. induction a as [|x a IH]; cbn [strip_common app]; [by destruct b|by rewrite String.eqb_refl]. Qed.

(** Joining plain elements to a root, and back. *)
Lemma Join_elems root l :
  has_prefix "/" root = true → l ≠ [] → Forall plain l →
  Join root (join "/" l) = path_text (true, (elems root).2 ++ l).
Proof.
  intros Hr Hn Hl. assert (root ≠ "") as Hr' by (by intros ->).
  assert (join "/" l ≠ "") as Hj.
  { intros E. pose proof (split_join_plain l Hn Hl) as Hs. rewrite E in Hs. cbn in Hs. subst l.
    apply Forall_cons in Hl as [(He & _) _]. done. }
  unfold Join. apply is_empty_false in Hr', Hj. rewrite Hr', Hj. unfold Clean, elems.
  assert (has_prefix "/" (root +:+ "/" +:+ join "/" l) = true) as ->.
  { apply has_prefix_spec in Hr as [r ->]. exact (has_prefix_app "/" (r +:+ "/" +:+ join "/" l)). }
  rewrite Hr. change ("/" +:+ join "/" l) with (String slash (join "/" l)).
  rewrite split_mid, split_join_plain, clean_elems_app, clean_elems_plain by done. by rewrite reverse_involutive.
Qed.

Lemma Rel_Join root l :
  has_prefix "/" root = true → l ≠ [] → Forall plain l → Rel root (Join root (join "/" l)) = Ok (join "/" l).
Proof.
  intros Hr Hn Hl. destruct (elems_rooted root Hr) as [H1 H2]. unfold Rel. rewrite Join_elems by done.
  rewrite elems_path_text by (by apply Forall_app). destruct (elems root) as [rb eb]. cbn [fst snd] in *. subst rb.
  cbn [Bool.eqb negb]. rewrite strip_common_prefix. cbn [length replicate app]. by destruct l.
Qed.
