(* ===== verification/GitEnv.v ===== *)
(** * The environment of git subprocesses

    [internal/gitcache/mirror.go]: the mirror cache passes git the parent's
    environment with the indexed configuration list rebuilt, so that neither
    an inherited credential nor an inherited rewrite of the GitHub URL meets
    the token it adds.  Names are those of Unix, where they are case-sensitive
    and the first of two equal ones counts. *)

From S2P Require Import Prelude GoErr GoStr Codec.

Local Open Scope Z_scope.
Local Open Scope go_scope.

(** ** Environments *)

(** [os.LookupEnv] and [os.Getenv] over [os.Environ()]. *)
Fixpoint lookup_env (env : list string) (name : string) : option string :=
  match env with
  | [] => None
  | item :: env =>
      match cut "=" item with
      | (k, v, true) => if String.eqb k name then Some v else lookup_env env name
      | _ => lookup_env env name
      end
  end.
Definition getenv (env : list string) (name : string) : string := default "" (lookup_env env name).

Definition indexed_name (upper : string) : bool :=
  String.eqb upper "GIT_CONFIG_COUNT" || String.eqb upper "GIT_CONFIG_PARAMETERS" ||
  has_prefix "GIT_CONFIG_KEY_" upper || has_prefix "GIT_CONFIG_VALUE_" upper.

Definition stripIndexedGitConfig (env : list string) : list string :=
  filter (λ item, indexed_name (to_upper (cut "=" item).1.1) = false) env.

(** ** The rebuilt list *)

Definition maxInheritedGitConfigEntries : Z := 256.

Definition key_name (i : nat) : string := "GIT_CONFIG_KEY_" +:+ format_int (Z.of_nat i).
Definition value_name (i : nat) : string := "GIT_CONFIG_VALUE_" +:+ format_int (Z.of_nat i).

Definition inherited_count (env : list string) : Z :=
  let raw := getenv env "GIT_CONFIG_COUNT" in
  if is_empty raw then 0
  else match parse_int raw with
       | None => 0
       | Some parsed =>
           if parsed <? 0 then 0
           else if maxInheritedGitConfigEntries <? parsed then maxInheritedGitConfigEntries else parsed
       end.

Definition rewrite_key (key : string) : bool :=
  let lowerKey := to_lower key in
  has_prefix "url." lowerKey && (has_suffix ".insteadof" lowerKey || has_suffix ".pushinsteadof" lowerKey).
Definition authorization_entry (key value : string) : bool :=
  let lowerKey := to_lower key in
  has_prefix "http." lowerKey && has_suffix ".extraheader" lowerKey &&
  has_prefix "authorization:" (to_lower (trim_space value)).

(** The loop over the inherited entries, [n] of them from the [i]th. *)
Fixpoint inherited_entries (authenticated : bool) (env : list string) (n i : nat) : list (string * string) :=
  match n with
  | O => []
  | S n =>
      let rest := inherited_entries authenticated env n (S i) in
      match lookup_env env (key_name i), lookup_env env (value_name i) with
      | None, None => []
      | Some key, Some value =>
          if is_empty (trim_space key) then rest
          else if authenticated && rewrite_key key then rest
          else if authorization_entry key value then rest
          else (key, value) :: rest
      | _, _ => rest
      end
  end.

(** The manager: the GitHub base URL and the token. *)
Record Manager := MkManager { root : string; baseURL : string; token : string }.

Definition New (dir base token : string) : Manager :=
  MkManager dir (trim_right (if is_empty base then "https://github.com" else base) "/") token.

Definition token_entry (m : Manager) : string * string :=
  ("http." +:+ trim_right (baseURL m) "/" +:+ "/" +:+ ".extraHeader",
   "AUTHORIZATION: basic " +:+ b64_encode StdEncoding ("x-access-token:" +:+ token m)).

(** The variables of an entry. *)
Definition entry_env (x : nat * (string * string)) : list string :=
  [key_name x.1 +:+ "=" +:+ x.2.1; value_name x.1 +:+ "=" +:+ x.2.2].

Definition git_entries (m : Manager) (includeAuth : bool) (env : list string) : list (string * string) :=
  let authenticated := includeAuth && negb (is_empty (token m)) in
  inherited_entries authenticated env (Z.to_nat (inherited_count env)) 0 ++
  (if authenticated then [token_entry m] else []).

Definition buildGitEnv (m : Manager) (includeAuth : bool) (env : list string) : list string :=
  let entries := git_entries m includeAuth env in
  stripIndexedGitConfig (env ++ ["GIT_TERMINAL_PROMPT=0"]) ++
  ["GIT_CONFIG_COUNT=" +:+ format_int (Z.of_nat (length entries))] ++
  concat (entry_env <$> imap pair entries).

Definition gitEnv (m : Manager) (env : list string) : list string := buildGitEnv m true env.
Definition localGitEnv (m : Manager) (env : list string) : list string := buildGitEnv m false env.

(** ** The audit of file configuration *)

(** What [git config -z --show-origin --get-regexp] answers; exit status 1 says
    that no key matches. *)
Inductive git_answer :=
| GitOutput (out : string)
| GitNoMatch
| GitFailed (e : goerror).

(** The environment of the audit, [append]ed as for a mirror. *)
Definition audit_env (env : list string) : list string :=
  filter (λ kv, let key := to_upper (cut "=" kv).1.1 in
                String.eqb key "GIT_DIR" || String.eqb key "GIT_WORK_TREE" = false)
    (stripIndexedGitConfig (env ++ ["GIT_TERMINAL_PROMPT=0"])).

Definition nul : ascii := "000".
Definition newline : ascii := "010".

Definition audit_entry (baseURL origin item : string) : list string :=
  let base := trim_right baseURL "/" +:+ "/" in
  let '(key, value, _) := cut newline item in
  let lowerKey := to_lower key in
  if has_prefix "url." lowerKey then
    let replaced := trim_right value "/" +:+ "/" in
    if has_prefix replaced base || has_prefix base replaced
    then [origin +:+ " rewrites " +:+ value +:+ " (" +:+ key +:+ "); mirror fetches for " +:+ baseURL +:+
          " would be redirected"]
    else []
  else if has_prefix "http." lowerKey then
    if has_prefix "authorization:" (to_lower (trim_space value))
    then [origin +:+ " sets an Authorization header (" +:+ key +:+
          ") that git sends alongside multirunner's own token for matching URLs"]
    else []
  else [].

Fixpoint audit_fields (baseURL : string) (fields : list string) : list string :=
  match fields with
  | origin :: item :: fields => audit_entry baseURL origin item ++ audit_fields baseURL fields
  | _ => []
  end.

Definition AuditFileConfig (baseURL : string) (answer : git_answer) : result (list string) :=
  match answer with
  | GitNoMatch => Ok []
  | GitFailed e => Err (errorf_w "git config: " e)
  | GitOutput out => Ok (audit_fields baseURL (split nul (trim_suffix (String nul "") out)))
  end.

(** ** What git reads *)

(** The indexed configuration of an environment, when it is well formed. *)
Definition git_config (env : list string) : option (list (string * string)) :=
  match parse_int (getenv env "GIT_CONFIG_COUNT") with
  | Some n =>
      mapM (λ i, match lookup_env env (key_name i), lookup_env env (value_name i) with
                 | Some k, Some v => Some (k, v)
                 | _, _ => None
                 end) (seq 0 (Z.to_nat n))
  | None => None
  end.

(** ** What reaches git *)

(** The variables of entry [i] are in the environment, at least one of them. *)
Definition present (env : list string) (i : nat) : Prop :=
  is_Some (lookup_env env (key_name i)) ∨ is_Some (lookup_env env (value_name i)).

(** An entry between two indices that no gap precedes. *)
Definition entry_in (env : list string) (i n : nat) (kv : string * string) : Prop :=
  ∃ k, (i ≤ k < i + n)%nat ∧ (∀ j, (i ≤ j ≤ k)%nat → present env j) ∧
       lookup_env env (key_name k) = Some kv.1 ∧ lookup_env env (value_name k) = Some kv.2 ∧
       is_empty (trim_space kv.1) = false.

Lemma entry_in_S env i n kv :
  entry_in env i (S n) kv ↔
  present env i ∧ ((lookup_env env (key_name i) = Some kv.1 ∧ lookup_env env (value_name i) = Some kv.2 ∧
                    is_empty (trim_space kv.1) = false) ∨ entry_in env (S i) n kv).
Proof.
  split.
  - intros (k & Hk & Hp & He). split; [apply Hp; lia|]. destruct (decide (k = i)) as [->|]; [by left|].
    right. exists k. split; [lia|]. split; [|done]. intros j Hj. apply Hp. lia.
  - intros [Hi [He|(k & Hk & Hp & He)]].
    + exists i. split; [lia|]. split; [|done]. intros j Hj. by replace j with i by lia.
    + exists k. split; [lia|]. split; [|done]. intros j Hj. destruct (decide (j = i)) as [->|]; [done|]. apply Hp. lia.
Qed.

Definition allowed (auth : bool) (kv : string * string) : Prop :=
  auth && rewrite_key kv.1 = false ∧ authorization_entry kv.1 kv.2 = false.

Lemma elem_of_inherited auth env n i kv :
  kv ∈ inherited_entries auth env n i ↔ allowed auth kv ∧ entry_in env i n kv.
Proof.
  revert i. induction n as [|n IH]; intros i; cbn [inherited_entries].
  { rewrite elem_of_nil. split; [done|]. intros (_ & k & ? & _). lia. }
  rewrite entry_in_S. specialize (IH (S i)). unfold present.
  destruct (lookup_env env (key_name i)) as [key|] eqn:Ek, (lookup_env env (value_name i)) as [value|] eqn:Ev.
  - assert (is_Some (Some key) ∨ is_Some (Some value)) as Hp by (left; by eexists).
    unfold allowed in *. destruct kv as [k v]. cbn [fst snd] in *.
    destruct (is_empty (trim_space key)) eqn:Eb; [rewrite IH; intuition congruence|].
    destruct (auth && rewrite_key key) eqn:Er; [rewrite IH; intuition congruence|].
    destruct (authorization_entry key value) eqn:Ea; [rewrite IH; intuition congruence|].
    rewrite elem_of_cons, IH. intuition congruence.
  - assert (is_Some (Some key) ∨ is_Some (@None string)) as Hp by (left; by eexists). rewrite IH. intuition congruence.
  - assert (is_Some (@None string) ∨ is_Some (Some value)) as Hp by (right; by eexists). rewrite IH. intuition congruence.
  - rewrite elem_of_nil. split; [done|]. by intros (_ & [[? [=]]|[? [=]]] & _).
Qed.

Lemma lookup_env_app env l name :
  lookup_env (env ++ l) name = match lookup_env env name with Some v => Some v | None => lookup_env l name end.
Proof.
  induction env as [|item env IH]; [done|]. cbn [app lookup_env].
  destruct (cut "=" item) as [[k v] []]; [|done]. by destruct (String.eqb k name).
Qed.

Lemma lookup_env_stripped env name :
  indexed_name (to_upper name) = true → lookup_env (stripIndexedGitConfig env) name = None.
Proof.
  intros Hn. induction env as [|item env IH]; [done|]. unfold stripIndexedGitConfig. rewrite filter_cons.
  destruct (decide _) as [Hi|]; [|done]. cbn [lookup_env]. destruct (cut "=" item) as [[k v] []]; [|done].
  destruct (String.eqb_spec k name) as [->|]; [|done]. cbn in Hi. congruence.
Qed.

Lemma cut_name name v : str_mem "=" name = false → (cut "=" (name +:+ "=" +:+ v)).1.1 = name.
Proof. intros Hn. change ("=" +:+ v) with (String "=" v). by rewrite cut_app. Qed.

Lemma lookup_env_entry name v env :
  str_mem "=" name = false → lookup_env ((name +:+ "=" +:+ v) :: env) name = Some v.
Proof. intros Hn. cbn [lookup_env]. change (("=") +:+ v) with (String "=" v). by rewrite cut_app, String.eqb_refl. Qed.

Lemma lookup_env_other name name' v env :
  str_mem "=" name = false → name ≠ name' → lookup_env ((name +:+ "=" +:+ v) :: env) name' = lookup_env env name'.
Proof.
  intros Hn Hd. cbn [lookup_env]. change (("=") +:+ v) with (String "=" v). rewrite cut_app by done.
  by destruct (String.eqb_spec name name').
Qed.

(** *** Names *)

Lemma name_mem p i : str_mem "=" p = false → str_mem "=" (p +:+ format_int (Z.of_nat i)) = false.
Proof. intros Hp. rewrite str_mem_app, Hp. by rewrite format_int_mem. Qed.

Lemma key_name_inj i j : Z.of_nat i ≤ int64_max → Z.of_nat j ≤ int64_max → key_name i = key_name j → i = j.
Proof.
  unfold key_name. intros Hi Hj E. apply (f_equal (str_drop (String.length "GIT_CONFIG_KEY_"))) in E.
  rewrite !str_drop_app in E. apply format_int_inj in E; unfold int64_min in *; lia.
Qed.

Lemma value_name_inj i j : Z.of_nat i ≤ int64_max → Z.of_nat j ≤ int64_max → value_name i = value_name j → i = j.
Proof.
  unfold value_name. intros Hi Hj E. apply (f_equal (str_drop (String.length "GIT_CONFIG_VALUE_"))) in E.
  rewrite !str_drop_app in E. apply format_int_inj in E; unfold int64_min in *; lia.
Qed.

Lemma key_value_name i j : key_name i ≠ value_name j.
Proof. by unfold key_name, value_name. Qed.

Lemma str_map_app f a b : str_map f (a +:+ b) = str_map f a +:+ str_map f b.
Proof. induction a as [|c a IH]; [done|]. cbn. by rewrite <- IH. Qed.

Lemma indexed_key i : indexed_name (to_upper (key_name i)) = true.
Proof.
  unfold indexed_name, key_name, to_upper. rewrite str_map_app, !orb_true_iff. left. right. apply has_prefix_app.
Qed.

Lemma indexed_value i : indexed_name (to_upper (value_name i)) = true.
Proof. unfold indexed_name, value_name, to_upper. rewrite str_map_app, !orb_true_iff. right. apply has_prefix_app. Qed.

(** *** The rebuilt list reads back *)

Definition entries_env (o : nat) (l : list (string * string)) : list string :=
  concat (entry_env <$> imap (λ i x, ((o + i)%nat, x)) l).

Lemma entries_env_cons o x l : entries_env o (x :: l) = entry_env (o, x) ++ entries_env (S o) l.
Proof.
  unfold entries_env. rewrite imap_cons. cbn [fmap list_fmap concat]. rewrite Nat.add_0_r. f_equal. f_equal. f_equal.
  apply imap_ext. intros i y _. cbn. f_equal. lia.
Qed.

Lemma lookup_entries_env o l i kv :
  Z.of_nat (o + length l) ≤ int64_max → l !! i = Some kv →
  lookup_env (entries_env o l) (key_name (o + i)) = Some kv.1 ∧
  lookup_env (entries_env o l) (value_name (o + i)) = Some kv.2.
Proof.
  revert o i. induction l as [|x l IH]; intros o i Hb Hl; [done|]. rewrite entries_env_cons. unfold entry_env.
  cbn [fst snd app]. cbn [length] in Hb. destruct i as [|i].
  - injection Hl as ->. rewrite Nat.add_0_r. split.
    + by rewrite lookup_env_entry by (by apply name_mem).
    + rewrite lookup_env_other by (first [by apply name_mem|by apply key_value_name]).
      by rewrite lookup_env_entry by (by apply name_mem).
  - assert (o ≠ o + S i)%nat as Hne by lia. pose proof (lookup_lt_Some _ _ _ Hl) as Hlt. cbn [length] in Hlt.
    rewrite !lookup_env_other.
    all: try by apply name_mem.
    all: try by (intros E; apply key_name_inj in E; lia).
    all: try by (intros E; apply value_name_inj in E; lia).
    all: try by apply not_eq_sym, key_value_name.
    all: try by apply key_value_name.
    replace (o + S i)%nat with (S o + i)%nat by lia. apply IH; [lia|done].
Qed.

Lemma length_inherited auth env n i : (length (inherited_entries auth env n i) ≤ n)%nat.
Proof.
  revert i. induction n as [|n IH]; intros i; cbn [inherited_entries]; [done|]. specialize (IH (S i)).
  destruct (lookup_env env (key_name i)) as [key|], (lookup_env env (value_name i)) as [value|]; cbn [length]; try lia.
  destruct (is_empty _); [lia|]. destruct (auth && _); [lia|]. destruct (authorization_entry _ _); cbn [length]; lia.
Qed.

Lemma inherited_count_bound env : 0 ≤ inherited_count env ≤ maxInheritedGitConfigEntries.
Proof.
  unfold inherited_count, maxInheritedGitConfigEntries. destruct (is_empty _); [lia|].
  destruct (parse_int _) as [k|]; [|lia]. destruct (Z.ltb_spec k 0); [lia|]. destruct (Z.ltb_spec 256 k); lia.
Qed.

Lemma length_git_entries m auth env : Z.of_nat (length (git_entries m auth env)) ≤ maxInheritedGitConfigEntries + 1.
Proof.
  unfold git_entries. rewrite length_app. pose proof (inherited_count_bound env) as Hc.
  match goal with |- context [length (inherited_entries ?a ?e ?n ?i)] => pose proof (length_inherited a e n i) end.
  destruct (auth && _); cbn [length]; lia.
Qed.

Lemma git_config_read m auth env : git_config (buildGitEnv m auth env) = Some (git_entries m auth env).
Proof.
  pose proof (length_git_entries m auth env) as Hlen. unfold maxInheritedGitConfigEntries in Hlen.
  unfold git_config, buildGitEnv. set (l := git_entries m auth env) in *.
  set (rest := concat _). assert (rest = entries_env 0 l) as -> by done.
  assert (∀ name, indexed_name (to_upper name) = true →
    lookup_env (stripIndexedGitConfig (env ++ ["GIT_TERMINAL_PROMPT=0"]) ++
      ["GIT_CONFIG_COUNT=" +:+ format_int (Z.of_nat (length l))] ++ entries_env 0 l) name =
    lookup_env (("GIT_CONFIG_COUNT" +:+ "=" +:+ format_int (Z.of_nat (length l))) :: entries_env 0 l) name) as Hl.
  { intros name Hn. by rewrite lookup_env_app, lookup_env_stripped by done. }
  unfold getenv. rewrite Hl, lookup_env_entry by done. cbn [default from_option id].
  rewrite parse_format_int by (unfold int64_min, int64_max; lia). rewrite Nat2Z.id.
  apply mapM_Some, Forall2_same_length_lookup_2; [by rewrite length_seq|]. intros i x kv Hi Hkv.
  apply lookup_seq in Hi as [-> _]. rewrite !Hl by (first [apply indexed_key|apply indexed_value]).
  rewrite !lookup_env_other by done.
  destruct (lookup_entries_env 0 l i kv) as [Hk Hv]; [unfold int64_max; lia|done|].
  cbn [Nat.add] in *. rewrite Hk, Hv. by destruct kv.
Qed.

(** C35: git finds in the environment it is given a configuration list of at
    most 257 entries, which is well formed whatever the parent's environment
    held: the parent's usable entries before the first gap, up to 256, but for
    Authorization headers and, when a token is sent, rewrites of URLs, and then
    the token for the GitHub base URL, when one is sent.  No other variable of
    the parent configures git. *)
Theorem git_sees m includeAuth env :
  let out := buildGitEnv m includeAuth env in
  let authenticated := includeAuth && negb (is_empty (token m)) in
  ∃ cfg, git_config out = Some cfg ∧ Z.of_nat (length cfg) ≤ 257 ∧
    (∀ kv, kv ∈ cfg ↔
       (authenticated = true ∧ kv = token_entry m) ∨
       (allowed authenticated kv ∧ entry_in env 0 (Z.to_nat (inherited_count env)) kv)) ∧
    (∀ item, item ∈ out → indexed_name (to_upper (cut "=" item).1.1) = true →
       (cut "=" item).1.1 = "GIT_CONFIG_COUNT" ∨
       ∃ i, (i < length cfg)%nat ∧ ((cut "=" item).1.1 = key_name i ∨ (cut "=" item).1.1 = value_name i)).
Proof.
  intros out authenticated. exists (git_entries m includeAuth env). split; [apply git_config_read|].
  split; [apply length_git_entries|]. split.
  - intros kv. unfold git_entries. fold authenticated. rewrite elem_of_app, elem_of_inherited.
    destruct authenticated; [rewrite list_elem_of_singleton|rewrite elem_of_nil]; naive_solver.
  - intros item Hin Hn. unfold out, buildGitEnv in Hin. rewrite !elem_of_app in Hin.
    destruct Hin as [Hin|[Hin|Hin]].
    + unfold stripIndexedGitConfig in Hin. apply list_elem_of_filter in Hin as [Hf _]. congruence.
    + apply list_elem_of_singleton in Hin as ->. by left.
    + right. apply list_elem_of_In, in_concat in Hin as (vs & Hin & Hv).
      apply list_elem_of_In in Hin, Hv. apply list_elem_of_fmap in Hin as ([i kv] & -> & Hi).
      apply list_elem_of_lookup in Hi as (j & Hi). apply list_lookup_imap_Some in Hi as (y & Hy & [= -> ->]).
      exists j. split; [by eapply lookup_lt_Some|]. unfold entry_env in Hv. cbn [fst snd] in Hv.
      rewrite !elem_of_cons, elem_of_nil in Hv.
      destruct Hv as [->|[->|[]]]; [left|right]; by apply cut_name, name_mem.
Qed.
