(* ===== verification/GitMirror.v ===== *)
(** * The git mirror cache

    [internal/gitcache/mirror.go]: bare mirrors under one directory, cloned or
    fetched for a repository, bundled for the runners, and swept when they have
    not been used for long.  The operations run as threads that share the
    directory and one lock per repository; every git process has a start and an
    end, so that processes overlap.  Git, the clock and the file system answer
    as the environment says. *)

From S2P Require Import Prelude GoErr GoStr Filepath GitEnv Threads Accounts.

Local Open Scope Z_scope.
Local Open Scope go_scope.

(** A directory under the root: whether it has a [HEAD] file, and the time of
    its last-used marker, if it has one. *)
Record mirror := MkMirror { has_head : bool; marker : option Z }.

(** Git processes by the repository they work for; sweeps, with the time they
    start at and the age they are given; and removals, with the marker the
    directory has on disk when it goes. *)
Inductive obs :=
| OGit (slug : string) (args env : list string)
| OGitDone (slug : string) (err : option goerror)
| OSweep (start maxAge : Z)
| ORemove (path : string) (used : option Z) (err : option goerror).

(** The directories by path, the locks that are held, the trace. *)
Record Cache := MkCache { dirs : gmap string mirror; locks : gset string; trace : list obs }.

(** The answers to one action: the clock, the parent's environment, a git
    process with what a failed clone leaves, the making of a directory, the
    write of a marker, a removal with what it leaves, and the directories a
    walk visits. *)
Record answers := {
  an_now : Z;
  an_env : list string;
  an_git : option goerror;
  an_left : option mirror;
  an_mkdir : option goerror;
  an_touched : bool;
  an_remove : option goerror;
  an_walk : list string * option goerror
}.

(** The calls of the cache; nothing else runs. *)
Inductive thread :=
| TEnsure (slug : string)
| TBundle (slug : string)
| TSweep (maxAge : Z).

Definition proc (A : Type) : Type := prog Cache answers thread A.
Definition section {R} (f : answers → Cache → R * Cache) : proc R :=
  atomically (λ env c, let '(r, c) := f env c in Some (r, c, [])).

Definition emit (o : obs) (c : Cache) : Cache := MkCache (dirs c) (locks c) (o :: trace c).
Definition set_dirs (d : gmap string mirror) (c : Cache) : Cache := MkCache d (locks c) (trace c).
Definition set_locks (l : gset string) (c : Cache) : Cache := MkCache (dirs c) l (trace c).

Definition mirrorExists (path : string) (c : Cache) : bool :=
  match dirs c !! path with Some d => has_head d | None => false end.
Definition lastUsed (path : string) (c : Cache) : option Z := dirs c !! path ≫= marker.

Section manager.
Variable m : Manager.

Definition MirrorPath (slug : string) : string := Join (root m) (slug +:+ ".git").
Definition slugFor (mirrorPath : string) : string :=
  let rel := match Rel (root m) mirrorPath with Ok rel => rel | Err _ => mirrorPath end in
  trim_suffix ".git" rel.
Definition cloneURL (slug : string) : string := baseURL m +:+ "/" +:+ slug +:+ ".git".

(** The path inside a container; backslashes under Windows. *)
Definition backslash : ascii := "\".
Definition ContainerPath (slug os : string) : string :=
  if String.eqb os "windows"
  then "C:\gitcache\" +:+ str_map (λ c, if Ascii.eqb c slash then backslash else c) slug +:+ ".git"
  else "/gitcache/" +:+ slug +:+ ".git".

(** ** Locks *)

(** [repoLock] returns one lock for a repository. *)
Definition lock (slug : string) : proc unit :=
  atomically (λ _ c, if decide (slug ∈ locks c) then None else Some (tt, set_locks ({[slug]} ∪ locks c) c, [])).
Definition unlock (slug : string) : proc unit :=
  section (λ _ c, (tt, set_locks (locks c ∖ {[slug]}) c)).

(** ** Git processes *)

(** [git] in a bare repository, or outside one: the process runs from the
    first action to the second; [done] is what its end leaves. *)
Definition git_process (slug : string) (args : list string) (env_of : list string → list string)
    (done : answers → Cache → Cache) : proc (option goerror) :=
  let* _ := section (λ env c, (tt, emit (OGit slug args (env_of (an_env env))) c)) in
  section (λ env c, (an_git env, emit (OGitDone slug (an_git env)) (done env c))).

Definition git_failed (what slug : string) (e : goerror) : goerror := errorf_w (what +:+ slug +:+ ": ") e.

(** [touch]; writing the marker of a directory that is gone fails. *)
Definition touch (path : string) : proc unit :=
  section (λ env c,
    (tt, if an_touched env
         then set_dirs (alter (λ d, MkMirror (has_head d) (Some (an_now env))) path (dirs c)) c
         else c)).

Definition cloned (path : string) (env : answers) (c : Cache) : Cache :=
  match an_git env with
  | None => set_dirs (<[path := MkMirror true None]> (dirs c)) c
  | Some _ => match an_left env with
              | Some d => set_dirs (<[path := d]> (dirs c)) c
              | None => c
              end
  end.

Definition ensureMirrorLocked (slug : string) : proc (result string) :=
  let path := MirrorPath slug in
  let* exists_ := section (λ _ c, (mirrorExists path c, c)) in
  if exists_ : bool then
    let* err := git_process slug ["--git-dir=" +:+ path; "fetch"; "--prune"; "origin"] (gitEnv m) (λ _ c, c) in
    match err with
    | Some e => Ret (Err (git_failed "mirror fetch " slug e))
    | None => let* _ := touch path in Ret (Ok path)
    end
  else
    let* made := section (λ env c, (an_mkdir env, c)) in
    match made with
    | Some e => Ret (Err e)
    | None =>
        let* err := git_process slug ["clone"; "--mirror"; cloneURL slug; path] (gitEnv m) (cloned path) in
        match err with
        | Some e => Ret (Err (git_failed "mirror clone " slug e))
        | None => let* _ := touch path in Ret (Ok path)
        end
    end.

Definition EnsureMirror (slug : string) : proc (result string) :=
  let* _ := lock slug in
  let* r := ensureMirrorLocked slug in
  let* _ := unlock slug in
  Ret r.

Definition Bundle (slug : string) : proc (option goerror) :=
  let* _ := lock slug in
  let* r := ensureMirrorLocked slug in
  let* err := match r with
              | Err e => Ret (Some e)
              | Ok path =>
                  let* err := git_process slug ["--git-dir=" +:+ path; "bundle"; "create"; "-"; "--all"]
                                (localGitEnv m) (λ _ c, c) in
                  Ret (git_failed "git bundle " slug <$> err)
              end in
  let* _ := unlock slug in
  Ret err.

(** ** Sweeping *)

Definition stale (cutoff : Z) (path : string) (c : Cache) : bool :=
  match lastUsed path c with Some used => used <? cutoff | None => false end.

(** [os.RemoveAll], which may fail half way. *)
Definition remove_all (path : string) (env : answers) (c : Cache) : option goerror * Cache :=
  let c' := match an_remove env with
            | None => set_dirs (delete path (dirs c)) c
            | Some _ => match an_left env with
                        | Some d => set_dirs (<[path := d]> (dirs c)) c
                        | None => c
                        end
            end in
  (an_remove env, emit (ORemove path (lastUsed path c) (an_remove env)) c').

(** The mirror is looked at again under the lock, and removed; what other
    operations read of it is written under the lock only, so the look and the
    removal are one action. *)
Definition remove_stale (cutoff : Z) (path : string) (env : answers) (c : Cache) : bool * Cache :=
  if stale cutoff path c
  then let '(err, c) := remove_all path env c in (bool_decide (err = None), c)
  else (false, c).

(** One directory of the walk. *)
Definition sweep_one (cutoff : Z) (removed : Z) (path : string) : proc (bool * Z) :=
  let* candidate :=
    section (λ _ c, (has_suffix ".git" path && mirrorExists path c &&
                     stale cutoff path c, c)) in
  if candidate : bool then
    let* _ := lock (slugFor path) in
    let* gone := section (remove_stale cutoff path) in
    let* _ := unlock (slugFor path) in
    Ret (false, if gone : bool then removed + 1 else removed)
  else Ret (false, removed).

Definition Sweep (maxAge : Z) : proc (Z * option goerror) :=
  if maxAge <=? 0 then Ret (0, None)
  else
    let* start := section (λ env c,
      ((an_now env - maxAge, an_walk env), emit (OSweep (an_now env) maxAge) c)) in
    let* removed := pfold (sweep_one start.1) 0 start.2.1 in
    Ret (removed, start.2.2).

Definition body (t : thread) : proc unit :=
  match t with
  | TEnsure slug => let* _ := EnsureMirror slug in Ret tt
  | TBundle slug => let* _ := Bundle slug in Ret tt
  | TSweep maxAge => let* _ := Sweep maxAge in Ret tt
  end.
End manager.

(** ** Exclusion *)

(** The git processes of a repository that are running. *)
Definition started_for (slug : string) (o : obs) : bool :=
  match o with OGit s _ _ => String.eqb s slug | _ => false end.
Definition ended_for (slug : string) (o : obs) : bool :=
  match o with OGitDone s _ => String.eqb s slug | _ => false end.
Definition working (slug : string) (tr : list obs) : Z :=
  Z.of_nat (length (filter (λ o, started_for slug o = true) tr)) -
  Z.of_nat (length (filter (λ o, ended_for slug o = true) tr)).

(** A slug like [owner/repo]. *)
Definition good_slug (slug : string) : Prop :=
  ∃ l, l ≠ [] ∧ Forall plain l ∧ slug +:+ ".git" = join "/" l.

Lemma slugFor_MirrorPath m slug :
  has_prefix "/" (root m) = true → good_slug slug → slugFor m (MirrorPath m slug) = slug.
Proof.
  intros Hr (l & Hn & Hl & E). unfold slugFor, MirrorPath. rewrite E, Rel_Join, <- E by done. apply trim_suffix_app.
Qed.

Lemma working_cons slug o tr :
  working slug (o :: tr) =
    working slug tr + (if started_for slug o then 1 else 0) - (if ended_for slug o then 1 else 0).
Proof.
  unfold working. rewrite !filter_cons.
  destruct (started_for slug o) eqn:E1, (ended_for slug o) eqn:E2; rewrite ?(decide_True (P := true = true)) by done;
    rewrite ?(decide_False (P := false = true)) by done; cbn [length]; lia.
Qed.

(** A removal meets no process of the repository. *)
Fixpoint safe (m : Manager) (slug : string) (tr : list obs) : Prop :=
  match tr with
  | [] => True
  | o :: tr =>
      match o with
      | ORemove path _ _ => MirrorPath m slug = path → working slug tr = 0
      | _ => True
      end ∧ safe m slug tr
  end.

Section exclusion.
Variable m : Manager.
Variable s : string.

(** The accounts of the repository [s]: its lock, its lock while no process
    runs, and its processes. *)
Inductive account := Locked | Idle | Running.

Definition locked (c : Cache) : Z := if decide (s ∈ locks c) then 1 else 0.
Definition mu (k : account) (c : Cache) : Z :=
  match k with
  | Locked => locked c
  | Idle => locked c - working s (trace c)
  | Running => working s (trace c)
  end.

Definition inv (c : Cache) : Prop := safe m s (trace c).

(** What a thread holds: nothing, the lock of [q], or that lock with a process
    under it. *)
Definition none : account → nat := λ _, 0%nat.
Definition one (q : string) : nat := if String.eqb q s then 1 else 0.
Definition lock_of (q : string) : account → nat :=
  λ k, match k with Locked | Idle => one q | Running => 0%nat end.
Definition process_of (q : string) : account → nat :=
  λ k, match k with Locked | Running => one q | Idle => 0%nat end.

Definition no_share (_ : account) (_ : thread) : nat := 0%nat.
Notation owns := (owns (λ _ _, True) inv mu no_share).

Lemma moves_iff n n' c c' :
  moves mu no_share n n' c c' [] ↔ ∀ k, mu k c' + Z.of_nat (n k) = mu k c + Z.of_nat (n' k).
Proof. unfold moves. cbn [fmap list_fmap]. rewrite held_nil. split; intros H k; specialize (H k); lia. Qed.

(** A section that changes no lock, and traces at most the start of a sweep. *)
Definition adds_sweep (c c' : Cache) : Prop :=
  trace c' = trace c ∨ ∃ start age, trace c' = OSweep start age :: trace c.

Lemma owns_quiet {R A} n (f : answers → Cache → R * Cache) (k : R → proc A) Q :
  (∀ env c, locks (f env c).2 = locks c ∧ adds_sweep c (f env c).2) →
  (∀ r, owns n (k r) Q) → owns n (pbind (section f) k) Q.
Proof.
  intros Hf Hk env c r c' sp Hi _ _ Hst. destruct (f env c) as [r1 c1] eqn:Ef. injection Hst as <- <- <-.
  destruct (Hf env c) as [Hl Ht]. rewrite Ef in Hl, Ht. cbn in Hl, Ht.
  assert (inv c1 ∧ working s (trace c1) = working s (trace c)) as [Hi1 Hw].
  { unfold inv. destruct Ht as [->|(start & age & ->)]; [done|]. split; [by split|]. rewrite working_cons. cbn. lia. }
  split; [done|]. exists n. split; [|apply Hk]. apply moves_iff. intros []; unfold mu, locked; rewrite ?Hl, ?Hw; lia.
Qed.

Lemma locked_lock q c : q ∉ locks c → locked (set_locks ({[q]} ∪ locks c) c) = locked c + Z.of_nat (one q).
Proof.
  intros Hq. unfold locked, one. cbn [locks set_locks]. destruct (String.eqb_spec q s) as [->|Hne].
  - rewrite decide_True, decide_False by set_solver. lia.
  - destruct (decide (s ∈ locks c)); [rewrite decide_True by set_solver|rewrite decide_False by set_solver]; lia.
Qed.

Lemma locked_unlock q c :
  Z.of_nat (one q) ≤ locked c → locked (set_locks (locks c ∖ {[q]}) c) + Z.of_nat (one q) = locked c.
Proof.
  unfold locked, one. cbn [locks set_locks]. destruct (String.eqb_spec q s) as [->|Hne]; intros Hle.
  - rewrite decide_False by set_solver. destruct (decide (s ∈ locks c)); lia.
  - destruct (decide (s ∈ locks c)); [rewrite decide_True by set_solver|rewrite decide_False by set_solver]; lia.
Qed.

Lemma owns_lock {A} q (k : unit → proc A) Q : owns (lock_of q) (k tt) Q → owns none (pbind (lock q) k) Q.
Proof.
  intros Hk env c [] c' sp Hi _ _ Hst. cbn in Hst. destruct (decide (q ∈ locks c)) as [|Hq]; [done|].
  injection Hst as <- <-. split; [done|]. exists (lock_of q). split; [|done]. apply moves_iff.
  intros []; unfold mu, none, lock_of; rewrite ?locked_lock by done; cbn [trace set_locks]; lia.
Qed.

Lemma owns_unlock {A} q (k : unit → proc A) Q : owns none (k tt) Q → owns (lock_of q) (pbind (unlock q) k) Q.
Proof.
  intros Hk env c [] c' sp Hi _ Hle [= <- <-]. split; [done|]. exists none. split; [|done]. apply moves_iff.
  pose proof (locked_unlock q c (Hle Locked)) as Hl.
  intros []; unfold mu, none, lock_of; cbn [trace set_locks] in *; lia.
Qed.

Lemma working_git q c args env :
  working s (trace (emit (OGit q args env) c)) = working s (trace c) + Z.of_nat (one q).
Proof. cbn [trace emit]. rewrite working_cons. unfold one. cbn [started_for ended_for]. destruct (String.eqb q s); lia. Qed.

Lemma working_done q c err :
  working s (trace (emit (OGitDone q err) c)) = working s (trace c) - Z.of_nat (one q).
Proof. cbn [trace emit]. rewrite working_cons. unfold one. cbn [started_for ended_for]. destruct (String.eqb q s); lia. Qed.

(** A process under the lock. *)
Lemma owns_process {A} q args env_of done (k : option goerror → proc A) Q :
  (∀ env c, locks (done env c) = locks c ∧ trace (done env c) = trace c) →
  (∀ r, owns (lock_of q) (k r) Q) → owns (lock_of q) (pbind (git_process q args env_of done) k) Q.
Proof.
  intros Hd Hk env c r c' sp Hi _ _ [= <- <- <-]. split; [by split|]. exists (process_of q). split.
  { apply moves_iff. intros []; unfold mu, lock_of, process_of; rewrite ?working_git;
      change (locked (emit _ c)) with (locked c); lia. }
  cbn [pbind]. intros env' u r' u' sp' Hi' _ _ [= <- <- <-]. destruct (Hd env' u) as [Hl Ht].
  unfold inv. cbn [trace emit]. rewrite Ht. split; [by split|]. exists (lock_of q). split; [|apply Hk].
  apply moves_iff. intros []; unfold mu, lock_of, process_of; rewrite ?working_done, ?Ht; unfold locked;
    cbn [locks emit]; rewrite ?Hl; lia.
Qed.

Lemma owns_ensure q : owns (lock_of q) (ensureMirrorLocked m q) (λ _ n, n = lock_of q).
Proof.
  unfold ensureMirrorLocked. apply owns_quiet; [intros; split; [done|by left]|].
  intros []; [|apply owns_quiet; [intros; split; [done|by left]|]; intros [e|]; [done|]].
  - apply owns_process; [done|]. intros [e|]; [done|]. apply owns_quiet; [|done].
    intros env c. destruct (an_touched env); (split; [done|by left]).
  - apply owns_process.
    + intros env c. unfold cloned. destruct (an_git env); [by destruct (an_left env)|done].
    + intros [e|]; [done|]. apply owns_quiet; [|done]. intros env c. destruct (an_touched env); (split; [done|by left]).
Qed.

Lemma owns_EnsureMirror q : owns none (EnsureMirror m q) (λ _ n, n = none).
Proof.
  apply owns_lock. eapply owns_then; [apply owns_ensure|]. intros r. by apply owns_unlock.
Qed.

Lemma owns_Bundle q : owns none (Bundle m q) (λ _ n, n = none).
Proof.
  apply owns_lock. eapply owns_then; [apply owns_ensure|]. intros r.
  eapply owns_then with (m := lock_of q); [|intros e; by apply owns_unlock].
  destruct r as [path|e]; [|done]. by apply owns_process.
Qed.

Hypothesis root_abs : has_prefix "/" (root m) = true.
Hypothesis s_good : good_slug s.

(** The removal of a mirror under its lock. *)
Lemma owns_remove {A} cutoff path (k : bool → proc A) Q :
  (∀ r, owns (lock_of (slugFor m path)) (k r) Q) →
  owns (lock_of (slugFor m path)) (pbind (section (remove_stale cutoff path)) k) Q.
Proof using root_abs s_good.
  intros Hk env c r c' sp Hi _ Hle Hst. unfold remove_stale, remove_all in Hst. destruct (stale cutoff path c) eqn:Es.
  2:{ injection Hst as <- <- <-. split; [done|]. exists (lock_of (slugFor m path)). split; [|apply Hk]. by apply moves_iff. }
  injection Hst as <- <- <-. set (c1 := match an_remove env with None => _ | _ => _ end).
  assert (trace c1 = trace c ∧ locks c1 = locks c) as [Ht Hl].
  { unfold c1. destruct (an_remove env); [by destruct (an_left env)|done]. }
  split.
  - unfold inv. cbn [trace emit safe]. rewrite Ht. split; [|done]. intros Hp.
    pose proof (Hle Idle) as H1. pose proof (Hle Running) as H2. unfold mu, lock_of, one in H1, H2.
    rewrite <- Hp, slugFor_MirrorPath, String.eqb_refl in H1 by done. unfold locked in H1.
    destruct (decide (s ∈ locks c)); lia.
  - exists (lock_of (slugFor m path)). split; [|apply Hk]. apply moves_iff.
    intros []; unfold mu, locked; cbn [trace locks emit]; rewrite ?working_cons, ?Ht, ?Hl; cbn [started_for ended_for]; lia.
Qed.

Lemma owns_Sweep maxAge : owns none (Sweep m maxAge) (λ _ n, n = none).
Proof using root_abs s_good.
  unfold Sweep. destruct (maxAge <=? 0); [done|]. apply owns_quiet; [intros; split; [done|right; by eexists _, _]|]. intros start.
  eapply owns_then; [|done]. apply owns_fold. intros removed path _. unfold sweep_one.
  apply owns_quiet; [intros; split; [done|by left]|]. intros []; [|done]. apply owns_lock, owns_remove. intros gone. by apply owns_unlock.
Qed.

Lemma cache_owns_body t : owns (λ k, no_share k t) (body m t) (λ _ n, ∀ k, n k = 0%nat).
Proof using root_abs s_good.
  change (λ k, no_share k t) with none. eapply owns_weaken with (Q := λ _ n, n = none); [by intros [] n -> k|].
  destruct t; (eapply owns_then; [|done]); [apply owns_EnsureMirror|apply owns_Bundle|apply owns_Sweep].
Qed.
End exclusion.

Lemma safe_from m slug later o earlier : safe m slug (later ++ o :: earlier) → safe m slug (o :: earlier).
Proof. induction later as [|x later IH]; [done|]. intros [_ Hs]. by apply IH. Qed.

(** ** Staleness *)

(** Every removal follows the start of a sweep by which the marker on disk is
    stale. *)
Definition stale_for (used : option Z) (tr : list obs) : Prop :=
  ∃ start age u, OSweep start age ∈ tr ∧ 0 < age ∧ used = Some u ∧ u < start - age.

Fixpoint removals_stale (tr : list obs) : Prop :=
  match tr with
  | [] => True
  | o :: tr => match o with ORemove _ used _ => stale_for used tr | _ => True end ∧ removals_stale tr
  end.

Definition stale_inv (c : Cache) : Prop := removals_stale (trace c).
Definition grows (c c' : Cache) : Prop := ∃ l, trace c' = l ++ trace c.

#[export] Instance grows_preorder : PreOrder grows.
Proof.
  split; [intros c; by exists []|]. intros a b c [l1 E1] [l2 E2]. exists (l2 ++ l1). by rewrite E2, E1, app_assoc.
Qed.

Section staleness.
Variable m : Manager.
Notation ok := (ok (λ _ _, True) stale_inv grows (λ (_ : thread) _, True)).

Lemma ok_then {A B} s (p : proc A) (g : A → proc B) Q :
  ok s p (λ _ _, True) → (∀ a s, ok s (g a) Q) → ok s (pbind p g) Q.
Proof.
  intros Hp Hg. apply (ok_seq _ _ _ _ _). eapply (ok_weaken _ _ _ _ _); [|exact Hp]. by intros.
Qed.

(** A section that removes nothing. *)
Definition removes_nothing (c c' : Cache) : Prop :=
  trace c' = trace c ∨ ∃ o, trace c' = o :: trace c ∧ match o with ORemove _ _ _ => False | _ => True end.

Lemma ok_step {R A} s (f : answers → Cache → R * Cache) (k : R → proc A) Q :
  (∀ env c, removes_nothing c (f env c).2) → (∀ r s, ok s (k r) Q) → ok s (pbind (section f) k) Q.
Proof.
  intros Hf Hk env c r c' sp Hs Hi _ Hst. specialize (Hf env c). destruct (f env c) as [r1 c1].
  injection Hst as <- <- <-. unfold stale_inv, grows. cbn [snd] in Hf.
  destruct Hf as [E|(o & E & Ho)]; rewrite E.
  - split; [done|]. split; [by exists []|]. split; [constructor|apply Hk].
  - split; [by destruct o|]. split; [by exists [o]|]. split; [constructor|apply Hk].
Qed.

Lemma ok_lock {A} s slug (k : unit → proc A) Q : (∀ s, ok s (k tt) Q) → ok s (pbind (lock slug) k) Q.
Proof.
  intros Hk env c r c' sp Hs Hi _ Hst. cbn in Hst. destruct (decide _); [done|]. injection Hst as <- <- <-.
  split; [done|]. split; [by exists []|]. split; [constructor|apply Hk].
Qed.

Lemma ok_git {A} s slug args env_of done (k : option goerror → proc A) Q :
  (∀ env c, trace (done env c) = trace c) → (∀ r s, ok s (k r) Q) →
  ok s (pbind (git_process slug args env_of done) k) Q.
Proof.
  intros Hd Hk. apply ok_step; [intros; right; by eexists|]. intros _ s'. cbn [pbind].
  apply (ok_step s' (λ env c, (an_git env, emit (OGitDone slug (an_git env)) (done env c)))); [|done].
  intros env c. right. eexists. cbn. by rewrite Hd.
Qed.

Lemma ok_ensure s q : ok s (ensureMirrorLocked m q) (λ _ _, True).
Proof.
  assert (∀ s path, ok s (pbind (touch path) (λ _, Ret (Ok path))) (λ _ _, True)) as Ht.
  { intros s' path. apply ok_step; [|done]. intros env c. left. by destruct (an_touched env). }
  unfold ensureMirrorLocked. apply ok_step; [by left|]. intros [] s1; [|apply ok_step; [by left|]; intros [e|] s2; [done|]].
  - apply ok_git; [done|]. by intros [e|] s2.
  - apply ok_git; [|by intros [e|] s3]. intros env c. unfold cloned.
    destruct (an_git env); [by destruct (an_left env)|done].
Qed.

Lemma ok_remove {A} s cutoff path (k : bool → proc A) Q :
  (∃ start age, OSweep start age ∈ trace s ∧ 0 < age ∧ cutoff = start - age) →
  (∀ r s, ok s (k r) Q) → ok s (pbind (section (remove_stale cutoff path)) k) Q.
Proof.
  intros (start & age & Hin & Ha & ->) Hk env c r c' sp [l Hs] Hi _ Hst.
  unfold remove_stale, remove_all, stale in Hst. destruct (lastUsed path c) as [u|] eqn:El.
  2:{ injection Hst as <- <- <-. split; [done|]. split; [by exists []|]. split; [constructor|apply Hk]. }
  destruct (Z.ltb_spec u (start - age)); injection Hst as <- <- <-; [|split; [done|]; split; [by exists []|]; split; [constructor|apply Hk]].
  set (c1 := match an_remove env with None => _ | _ => _ end).
  assert (trace c1 = trace c) as Ht by (unfold c1; destruct (an_remove env); [by destruct (an_left env)|done]).
  unfold stale_inv, grows. cbn [trace emit removals_stale]. rewrite Ht. split; [split; [|done]|split; [by eexists [_]|split; [constructor|apply Hk]]].
  exists start, age, u. split; [rewrite Hs; apply elem_of_app; by right|done].
Qed.

Lemma ok_sweep_one s cutoff removed path :
  (∃ start age, OSweep start age ∈ trace s ∧ 0 < age ∧ cutoff = start - age) →
  ok s (sweep_one m cutoff removed path) (λ _ _, True).
Proof.
  intros (start & age & Hin & Ha & ->) env c r c' sp [l E] Hi _ [= <- <- <-].
  split; [done|]. split; [by exists []|]. split; [constructor|]. cbn [pbind]. destruct (_ && _); [|done].
  intros env2 c2 r2 c2' sp2 [l2 E2] Hi2 _ Hst. cbn in Hst. destruct (decide _); [done|]. injection Hst as <- <- <-.
  split; [done|]. split; [by exists []|]. split; [constructor|].
  apply ok_remove; [|intros; apply ok_step; [by left|done]].
  exists start, age. split_and!; [|done..]. cbn [trace set_locks]. rewrite E2, E, !elem_of_app. tauto.
Qed.

Lemma ok_bodies t s : ok s (body m t) (λ _ _, True).
Proof.
  destruct t as [slug|slug|maxAge]; cbn [body]; (apply ok_then; [|done]).
  - apply ok_lock. intros s1. apply ok_then; [apply ok_ensure|]. intros r s2. apply ok_step; [by left|done].
  - apply ok_lock. intros s1. apply ok_then; [apply ok_ensure|]. intros r s2. apply ok_then.
    + destruct r as [path|e]; [|done]. by apply ok_git.
    + intros err s3. apply ok_step; [by left|done].
  - unfold Sweep. destruct (Z.leb_spec maxAge 0); [done|].
    intros env c r c' sp Hs Hi _ [= <- <- <-].
    split; [done|]. split; [by eexists [_]|]. split; [constructor|]. cbn [pbind].
    apply ok_then; [|done]. apply (ok_fold _ _ _ _ _ (λ s, OSweep (an_now env) maxAge ∈ trace s)); [left| |].
    + intros a b Ha [l ->]. apply elem_of_app. by right.
    + intros removed path s1 Hin _. apply ok_sweep_one. exists (an_now env), maxAge. split_and!; [done|lia|done].
Qed.
End staleness.

Lemma removals_from later o earlier : removals_stale (later ++ o :: earlier) → removals_stale (o :: earlier).
Proof. induction later as [|x later IH]; [done|]. intros [_ Hs]. by apply IH. Qed.

(** The cache, from any directories, with any number of calls. *)
Definition reaches (m : Manager) (d : gmap string mirror) (c : config Cache answers thread) : Prop :=
  reachable (body m) (λ _, True) (λ _ _, True) (MkCache d ∅ []) c.

(** C10: in every interleaving of clones, fetches, bundles and sweeps, a
    directory is removed only when the marker it has on disk at that moment is
    the cache's own and is older than a sweep that has started allows, and a
    mirror only while no git process of its repository runs; and once every
    call has returned no lock is held and no process left. *)
Theorem sweep_excluded m d c slug :
  has_prefix "/" (root m) = true → good_slug slug → reaches m d c →
  (∀ later path used err earlier, trace (mem c) = later ++ ORemove path used err :: earlier →
     (∃ start age u, OSweep start age ∈ earlier ∧ 0 < age ∧ used = Some u ∧ u < start - age) ∧
     (path = MirrorPath m slug → working slug earlier = 0)) ∧
  (Forall (λ p, p = Ret tt) (pool c) → slug ∉ locks (mem c) ∧ working slug (trace (mem c)) = 0).
Proof.
  intros Hr Hs Hc. assert (∀ k, mu slug k (MkCache d ∅ []) = 0) as H0 by (by intros []).
  split.
  - intros later path used err earlier E. split.
    + pose proof (reachable_inv (body m) (λ _, True) (λ _ _, True) stale_inv grows (λ _ _, True) grows_preorder
        ltac:(done) (MkCache d ∅ []) c I (λ t s _, ok_bodies m t s) ltac:(done) Hc) as [Hi _].
      unfold stale_inv in Hi. rewrite E in Hi. by apply removals_from in Hi as [Hu _].
    + intros ->. destruct (accounts _ _ _ _ _ _ (cache_owns_body m slug Hr Hs) ltac:(done) _ _ H0 I Hc) as [Hi _].
      unfold inv in Hi. rewrite E in Hi. apply safe_from in Hi as [Hw _]. by apply Hw.
  - intros Hd. assert (∀ k, mu slug k (mem c) = 0) as Hk.
    { intros k. by eapply (accounts_settled _ _ _ _ _ _ (cache_owns_body m slug Hr Hs)). }
    split; [|exact (Hk Running)]. specialize (Hk Locked). cbn in Hk. unfold locked in Hk.
    by destruct (decide (slug ∈ locks (mem c))).
Qed.

(** A sweep of a mirror that was not used for long. *)
Definition demo_manager : Manager := GitEnv.New "/cache/git" "" "t0ken".
Definition demo_dirs : gmap string mirror :=
  {["/cache/git/acme/app.git" := MkMirror true (Some 5); "/cache/git/other.git" := MkMirror true None]}.
Definition demo_answers : answers :=
  {| an_now := 200; an_env := []; an_git := None; an_left := None; an_mkdir := None; an_touched := true;
     an_remove := None; an_walk := (["/cache/git/acme"; "/cache/git/acme/app.git"; "/cache/git/other.git"], None) |}.
Definition demo_sched : list (thread + nat * answers) :=
  inl (TSweep 100) :: inl (TBundle "acme/app") :: replicate 7 (inr (0%nat, demo_answers)) ++
  replicate 9 (inr (1%nat, demo_answers)).
Definition demo_config : config Cache answers thread :=
  default (Config (MkCache demo_dirs ∅ []) []) (run (body demo_manager) demo_sched (Config (MkCache demo_dirs ∅ []) [])).

Lemma sweep_excluded_witness :
  length (trace (mem demo_config)) = 6%nat ∧
  (∃ start age u, OSweep start age ∈ drop 5 (trace (mem demo_config)) ∧ 0 < age ∧ Some 5 = Some u ∧ u < start - age) ∧
  working "acme/app" [] = 0 ∧
  "acme/app" ∉ locks (mem demo_config).
Proof.
  assert (good_slug "acme/app") as Hg.
  { exists ["acme"; "app.git"]. split; [done|]. split; [|reflexivity].
    constructor; [|constructor; [|constructor]]; (split; [done|split; [done|split; [done|reflexivity]]]). }
  destruct (sweep_excluded demo_manager demo_dirs demo_config "acme/app") as [H1 H2].
  - reflexivity.
  - exact Hg.
  - eapply (run_reachable _ _ _ _ demo_sched (Config (MkCache demo_dirs ∅ []) []));
      [apply reach_init| |vm_compute; reflexivity].
    apply admitted_always. unfold demo_sched. repeat constructor.
  - split; [vm_compute; reflexivity|split].
    + eapply (H1 (take 4 (trace (mem demo_config))) "/cache/git/acme/app.git"). vm_compute. reflexivity.
    + split; [reflexivity|].
      apply H2. vm_compute. repeat constructor.
Defined.
