(* ===== verification/GhApp.v ===== *)
(** * The GitHub App: device flow and manifest

    [internal/ghapp/device.go] and [connect.go]: the OAuth requests of the
    device flow, the search of the App's installations, and what the manifest
    of an own App asks for.  An HTTP exchange answers with a status and a body;
    [net/url] is seen through the parts of a parsed URL.  Times are nanoseconds
    since an epoch, [None] is the zero time, and a duration wraps as an
    [int64]. *)

From S2P Require Import Prelude GoErr GoStr NetIP Json GitHub.

Local Open Scope Z_scope.

Definition DefaultClientID : string := "Iv23liZGKUct4sAKjq2m".
Definition DefaultPersonalClientID : string := "Iv23liZVB5CPke0jCFQi".
Definition DefaultBaseURL : string := "https://github.com".
Definition DefaultAPIBase : string := "https://api.github.com".
Definition DefaultAppSlug : string := "multirunner-connect".

Definition second : Z := 10 ^ 9.

Definition orDefault (v def : string) : string := if is_empty v then def else v.

(** ** Requests *)

Inductive http_answer :=
| HFailed (err : goerror)
| HAnswered (code : Z) (status body : string).

(** The form of a POST, in the order it is written. *)
Definition form : Type := list (string * string).

Definition maxOAuthResponse : nat := 2 ^ 20.

Section requests.
(** The text of a decoding error, for the body it is about, and of a duration. *)
Variable json_error : string → goerror.
Variable format_duration : Z → string.

(** [postForm], its answer decoded by [f]. *)
Definition postForm {A} (endpoint : string) (f : json → decoded A) (answer : http_answer) : result A :=
  match answer with
  | HFailed e => Err (errorf_w ("POST " +:+ endpoint +:+ ": ") e)
  | HAnswered code status body =>
      if (code <? 200) || (299 <? code)
      then Err (errorf ("POST " +:+ endpoint +:+ ": unexpected status " +:+ status))
      else
        let body := str_take maxOAuthResponse body in
        let failed := Err (errorf_w ("decode response from " +:+ endpoint +:+ ": ") (json_error body)) in
        match decode_json body with
        | None => failed
        | Some v => let '(out, ok) := f v in if ok : bool then Ok out else failed
        end
  end.

Record DeviceCode := MkDeviceCode {
  dc_DeviceCode : string;
  UserCode : string;
  VerificationURI : string;
  ExpiresIn : Z;
  Interval : Z
}.

Record UserToken := MkUserToken {
  AccessToken : string;
  RefreshToken : string;
  Expiry : option Z;
  RefreshExpiry : option Z
}.

Record tokenResponse := MkTokenResponse {
  tr_AccessToken : string;
  tr_RefreshToken : string;
  tr_ExpiresIn : Z;
  tr_RefreshTokenExpiresIn : Z;
  tr_Error : string;
  tr_ErrorDescription : string;
  tr_Interval : Z
}.

Definition decode_token (v : json) : decoded tokenResponse :=
  let '(access, ok1) := field "access_token" as_string "" v in
  let '(refresh, ok2) := field "refresh_token" as_string "" v in
  let '(expires, ok3) := field "expires_in" as_int 0 v in
  let '(refresh_expires, ok4) := field "refresh_token_expires_in" as_int 0 v in
  let '(err, ok5) := field "error" as_string "" v in
  let '(description, ok6) := field "error_description" as_string "" v in
  let '(interval, ok7) := field "interval" as_int 0 v in
  (MkTokenResponse access refresh expires refresh_expires err description interval,
   ok1 && ok2 && ok3 && ok4 && ok5 && ok6 && ok7).

(** The code pair, with the error fields of the response. *)
Definition decode_device (v : json) : decoded (DeviceCode * string * string) :=
  let '(device, ok1) := field "device_code" as_string "" v in
  let '(user, ok2) := field "user_code" as_string "" v in
  let '(uri, ok3) := field "verification_uri" as_string "" v in
  let '(expires, ok4) := field "expires_in" as_int 0 v in
  let '(interval, ok5) := field "interval" as_int 0 v in
  let '(err, ok6) := field "error" as_string "" v in
  let '(description, ok7) := field "error_description" as_string "" v in
  ((MkDeviceCode device user uri expires interval, err, description),
   ok1 && ok2 && ok3 && ok4 && ok5 && ok6 && ok7).

Definition describeError (code desc : string) : string :=
  if is_empty desc then code else code +:+ ": " +:+ desc.

Definition deviceFlowError (code desc : string) : goerror :=
  if String.eqb code "device_flow_disabled"
  then errorf ("GitHub reports device flow is not enabled for this App (device_flow_disabled); " +:+
               "enable device flow on the shared multirunner App, or use `multirunner connect --own-app`")
  else errorf ("device flow error: " +:+ describeError code desc).

Definition base_url (baseURL : string) : string := trim_right (orDefault baseURL DefaultBaseURL) "/".

(** The request is the form below, sent to the endpoint. *)
Definition device_form (clientID : string) : form := [("client_id", orDefault clientID DefaultClientID)].
Definition RequestDeviceCode (baseURL : string) (answer : http_answer) : result DeviceCode :=
  match postForm (base_url baseURL +:+ "/login/device/code") decode_device answer with
  | Err e => Err e
  | Ok (dc, err, description) =>
      if negb (is_empty err) then Err (deviceFlowError err description)
      else if is_empty (dc_DeviceCode dc) || is_empty (UserCode dc)
      then Err (errorf "device code request returned no code")
      else Ok dc
  end.

(** [now.Add(time.Duration(n) * time.Second)], when [n] is positive. *)
Definition expires_at (now n : Z) : option Z := if 0 <? n then Some (now + wrap64 (n * second)) else None.

Definition tokenFromResponse (r : tokenResponse) (now : Z) : UserToken :=
  MkUserToken (tr_AccessToken r) (tr_RefreshToken r) (expires_at now (tr_ExpiresIn r))
    (expires_at now (tr_RefreshTokenExpiresIn r)).

Definition token_endpoint (baseURL : string) : string := base_url baseURL +:+ "/login/oauth/access_token".

Definition refresh_form (clientID refreshToken : string) : form :=
  [("client_id", orDefault clientID DefaultClientID); ("grant_type", "refresh_token"); ("refresh_token", refreshToken)].

Definition RefreshUserToken (baseURL : string) (now : Z) (answer : http_answer) : result UserToken :=
  match postForm (token_endpoint baseURL) decode_token answer with
  | Err e => Err (EWrap "refreshing the GitHub user token failed (" e
                    "); re-run `multirunner connect` to re-authorize")
  | Ok out =>
      if negb (is_empty (tr_Error out))
      then Err (errorf ("refreshing the GitHub user token was rejected (" +:+
                        describeError (tr_Error out) (tr_ErrorDescription out) +:+
                        "); re-run `multirunner connect` to re-authorize"))
      else if is_empty (tr_AccessToken out)
      then Err (errorf "token refresh returned no access token; re-run `multirunner connect` to re-authorize")
      else Ok (tokenFromResponse out now)
  end.

(** ** Polling *)

(** What one pass meets: the context done while it waits, or the time after
    the wait and the answer of GitHub. *)
Inductive poll_answer :=
| PCancelled (err : goerror)
| PWaited (now : Z) (answer : http_answer).

Definition poll_form (clientID : string) (dc : DeviceCode) : form :=
  [("client_id", orDefault clientID DefaultClientID); ("device_code", dc_DeviceCode dc);
   ("grant_type", "urn:ietf:params:oauth:grant-type:device_code")].

(** One pass after its wait: a result, or the interval of the next one. *)
Definition poll_once (baseURL : string) (interval now : Z) (answer : http_answer) : result UserToken + Z :=
  match postForm (token_endpoint baseURL) decode_token answer with
  | Err e => inl (Err e)
  | Ok out =>
      let err := tr_Error out in
      if String.eqb err "" then
        if is_empty (tr_AccessToken out) then inl (Err (errorf "device token exchange returned no access token"))
        else inl (Ok (tokenFromResponse out now))
      else if String.eqb err "authorization_pending" then inr interval
      else if String.eqb err "slow_down" then
        inr (if interval <? tr_Interval out then tr_Interval out else wrap64 (interval + 5))
      else if String.eqb err "expired_token" then
        inl (Err (errorf "device code expired before you authorized it; re-run `multirunner connect`"))
      else if String.eqb err "access_denied" then inl (Err (errorf "authorization was denied"))
      else inl (Err (deviceFlowError err (tr_ErrorDescription out)))
  end.

(** The loop: the waits it makes, in seconds, and what it returns; [None] when
    the given passes do not end it. *)
Fixpoint poll_loop (baseURL : string) (deadline life interval : Z) (passes : list poll_answer)
    : list Z * option (result UserToken) :=
  match passes with
  | [] => ([], None)
  | PCancelled e :: _ => ([interval], Some (Err e))
  | PWaited now answer :: passes =>
      if deadline <? now
      then ([interval], Some (Err (errorf ("device authorization timed out after " +:+ format_duration life +:+
                                           "; re-run `multirunner connect`"))))
      else match poll_once baseURL interval now answer with
           | inl r => ([interval], Some r)
           | inr interval' =>
               let '(waits, r) := poll_loop baseURL deadline life interval' passes in (interval :: waits, r)
           end
  end.

Definition first_interval (dc : DeviceCode) : Z := if Interval dc <? 1 then 5 else Interval dc.
Definition lifetime (dc : DeviceCode) : Z :=
  let d := wrap64 (ExpiresIn dc * second) in if d <=? 0 then 15 * 60 * second else d.

(** [PollDeviceToken], called at [now]. *)
Definition PollDeviceToken (baseURL : string) (dc : DeviceCode) (now : Z) (passes : list poll_answer) :=
  poll_loop baseURL (now + lifetime dc) (lifetime dc) (first_interval dc) passes.

(** ** Installations *)

(** A GET whose answer is decoded by [f]. *)
Definition get_page {A} (what decode : string) (f : json → decoded A) (answer : http_answer) : result A :=
  match answer with
  | HFailed e => Err (errorf_w (what +:+ ": ") e)
  | HAnswered code status body =>
      if negb (code =? 200) then Err (errorf (what +:+ ": status " +:+ format_int code))
      else
        let failed := Err (errorf_w (decode +:+ ": ") (json_error body)) in
        match decode_json body with
        | None => failed
        | Some v => let '(out, ok) := f v in if ok : bool then Ok out else failed
        end
  end.

Record Installation := MkInstallation { inst_ID : Z; Account : string; IsOrg : bool; AppSlug : string }.

Definition decode_installation (v : json) : decoded Installation :=
  let '(id, ok1) := field "id" as_int 0 v in
  let '((login, kind), ok2) :=
    field "account" (λ old v, let '(login, ok) := field "login" as_string old.1 v in
                              let '(kind, ok') := field "type" as_string old.2 v in
                              ((login, kind), ok && ok')) ("", "") v in
  let '(slug, ok3) := field "app_slug" as_string "" v in
  (MkInstallation id login (equal_fold kind "Organization") slug, ok1 && ok2 && ok3).

Definition decode_installations (v : json) : decoded (list Installation) :=
  field "installations" (as_list decode_installation) [] v.

Definition decode_repositories (v : json) : decoded (list string) :=
  field "repositories" (as_list (field "full_name" as_string "")) [] v.

(** The pages from [page] on; [None] when [fuel] pages do not end it. *)
Fixpoint installation_pages (answers : Z → http_answer) (fuel : nat) (page : Z) (all : list Installation)
    : option (result (list Installation)) :=
  match fuel with
  | O => None
  | S fuel =>
      match get_page "list user installations" "decode user installations" decode_installations (answers page) with
      | Err e => Some (Err e)
      | Ok l => let all := all ++ l in
                if (length l <? 100)%nat then Some (Ok all) else installation_pages answers fuel (page + 1) all
      end
  end.
Definition UserInstallations (answers : Z → http_answer) (fuel : nat) := installation_pages answers fuel 1 [].

Fixpoint repository_pages (answers : Z → http_answer) (installationID : Z) (owner repo : string) (fuel : nat)
    (page : Z) : option (option goerror) :=
  match fuel with
  | O => None
  | S fuel =>
      match get_page "list installation repositories" "decode installation repositories" decode_repositories
              (answers page) with
      | Err e => Some (Some e)
      | Ok names =>
          if existsb (λ name, equal_fold name (owner +:+ "/" +:+ repo)) names then Some None
          else if (length names <? 100)%nat
          then Some (Some (errorf (owner +:+ "/" +:+ repo +:+ " is not accessible through installation " +:+
                 format_int installationID +:+ "; include the repository in the App installation and " +:+
                 "authorize a user with repository admin access")))
          else repository_pages answers installationID owner repo fuel (page + 1)
      end
  end.
Definition CheckInstallationRepository (answers : Z → http_answer) (installationID : Z) (owner repo : string)
    (fuel : nat) := repository_pages answers installationID owner repo fuel 1.
End requests.

(** [MatchInstallation]: the installation on the account, and the slug to
    build an install URL from. *)
Fixpoint match_from (slug : string) (installs : list Installation) (account : string)
    : option Installation * string :=
  match installs with
  | [] => (None, orDefault slug DefaultAppSlug)
  | i :: installs =>
      let slug := if is_empty (AppSlug i) then slug else AppSlug i in
      if equal_fold (Account i) account then (Some i, orDefault (AppSlug i) slug)
      else match_from slug installs account
  end.
Definition MatchInstallation (installs : list Installation) (account : string) := match_from "" installs account.

(** ** URLs *)

(** The parts of a parsed URL. *)
Record device_url := DeviceUrl {
  du_Scheme : string;
  du_Host : string;
  du_Hostname : string;
  du_User : bool;
  du_RawQuery : string;
  du_Fragment : string;
  du_String : string
}.

(** [DeviceBaseURL]: a refresh token only goes to HTTPS, or to this machine. *)
Definition DeviceBaseURL (url_parse : string → option device_url) (raw : string) : result string :=
  let invalid := Err (errorf ("invalid device authentication base URL " +:+ quote raw)) in
  match url_parse (trim_right (orDefault raw DefaultBaseURL) "/") with
  | None => invalid
  | Some u =>
      if is_empty (du_Host u) || du_User u || negb (is_empty (du_RawQuery u)) || negb (is_empty (du_Fragment u))
      then invalid
      else if equal_fold (du_Host u) "github.com" || equal_fold (du_Host u) "www.github.com"
      then Ok DefaultBaseURL
      else
        let loopback := match ParseIP (du_Hostname u) with Some ip => IsLoopback ip | None => false end in
        if negb (String.eqb (du_Scheme u) "https") && negb (String.eqb (du_Scheme u) "http" && loopback)
        then Err (errorf ("device authentication requires an HTTPS base URL, got " +:+ quote raw))
        else Ok (du_String u)
  end.

(** ** The manifest of an own App *)

Record ManifestNeeds := MkManifestNeeds { WebhookURL : string; PollQueue : bool; DetectRepo : bool }.

Definition permissions (scope : string) (n : ManifestNeeds) : gmap string string :=
  let perms := <["metadata" := "read"]> ∅ in
  let perms := if String.eqb scope "repo" then <["administration" := "write"]> perms
               else <["organization_self_hosted_runners" := "write"]> perms in
  let perms := if PollQueue n || negb (is_empty (WebhookURL n)) then <["actions" := "read"]> perms else perms in
  if DetectRepo n || String.eqb scope "repo" then <["contents" := "read"]> perms else perms.

Definition events (n : ManifestNeeds) : list string := if is_empty (WebhookURL n) then [] else ["workflow_job"].

Definition hookAttributes (n : ManifestNeeds) : string * bool :=
  if is_empty (WebhookURL n) then ("https://example.com/github/events", false) else (WebhookURL n, true).

(** [netip.ParseAddr]: the address and its zone. *)
Definition ParseAddr (s : string) : option (IP * string) :=
  match ip_family s with
  | Some ":"%char =>
      let '(addr, zone, zoned) := cut "%" s in
      if zoned && is_empty zone then None
      else match parse_v6 addr with Some ip => Some (ip, zone) | None => None end
  | _ => match ParseIP s with Some ip => Some (ip, "") | None => None end
  end.

Definition byte_at (ip : IP) (i : nat) : Z := default 0 (ip !! i).

(** Addresses that are no public unicast address: loopback, private,
    unspecified, link-local, multicast and shared ones. *)
Definition not_public (ip : IP) : bool :=
  match To4 ip with
  | Some v4 =>
      let a := byte_at v4 0 in let b := byte_at v4 1 in
      (a =? 127) || (a =? 10) || ((a =? 172) && (16 <=? b) && (b <=? 31)) || ((a =? 192) && (b =? 168)) ||
      bool_decide (v4 = [0; 0; 0; 0]) || ((a =? 169) && (b =? 254)) || ((224 <=? a) && (a <=? 239)) ||
      ((a =? 100) && (64 <=? b) && (b <=? 127))
  | None =>
      let a := byte_at ip 0 in let b := byte_at ip 1 in
      IsLoopback ip || (Z.land a 254 =? 252) || bool_decide (ip = replicate 16 0) ||
      ((a =? 254) && (Z.land b 192 =? 128)) || (a =? 255)
  end.

Definition local_name (host : string) : bool :=
  let lower := to_lower host in
  String.eqb lower "localhost" || String.eqb lower "home.arpa" || negb (contains lower ".") ||
  has_suffix ".localhost" lower || has_suffix ".local" lower || has_suffix ".internal" lower ||
  has_suffix ".lan" lower || has_suffix ".home.arpa" lower.

(** [ValidateWebhookURL] *)
Definition ValidateWebhookURL (url_parse : string → goerror + device_url) (raw : string) : option goerror :=
  let unreachable what :=
    Some (errorf ("webhook URL " +:+ what +:+ "; GitHub requires a publicly reachable https URL, " +:+
                  "so expose your local receiver with a tunnel or reverse proxy")) in
  match url_parse raw with
  | inl e => Some (errorf_w ("invalid webhook URL " +:+ quote raw +:+ ": ") e)
  | inr u =>
      if negb (String.eqb (du_Scheme u) "https") then unreachable "must use https"
      else if du_User u then unreachable "must not embed credentials"
      else
        let host := trim_suffix "." (du_Hostname u) in
        let refused := unreachable ("host " +:+ quote host +:+ " is not publicly reachable") in
        if is_empty host then unreachable "must include a host"
        else match ParseAddr host with
             | Some (ip, zone) =>
                 let zone := match To4 ip with Some _ => "" | None => zone end in
                 if negb (is_empty zone) || not_public ip then refused else None
             | None => if local_name host then refused else None
             end
  end.

(** The options of the connect flow. *)
Record Options := MkOptions {
  opt_BaseURL : string; opt_Scope : string; opt_Org : string; opt_Owner : string; opt_Name : string;
  opt_Needs : ManifestNeeds
}.

(** [manifestMap], as the JSON value that is posted; the keys of a map are
    written in order. *)
Definition manifestMap (opt : Options) (callbackBase : string) : json :=
  let appURL := trim_right (opt_BaseURL opt) "/" +:+ "/" +:+
                (if is_empty (opt_Org opt) then opt_Owner opt else opt_Org opt) in
  let '(hook, active) := hookAttributes (opt_Needs opt) in
  let perms := permissions (opt_Scope opt) (opt_Needs opt) in
  JObj [("default_events", JArr (JStr <$> events (opt_Needs opt)));
        ("default_permissions", JObj ((λ k, (k, JStr (default "" (perms !! k)))) <$> sort_strings (map_to_list perms).*1));
        ("hook_attributes", JObj [("active", JBool active); ("url", JStr hook)]);
        ("name", JStr (opt_Name opt));
        ("public", JBool false);
        ("redirect_url", JStr (callbackBase +:+ "/callback"));
        ("setup_on_update", JBool false);
        ("setup_url", JStr (callbackBase +:+ "/setup"));
        ("url", JStr appURL)].
Definition buildManifest (opt : Options) (callbackBase : string) : string := encode_json (manifestMap opt callbackBase).

Definition createAppURL (opt : Options) : string :=
  let b := trim_right (opt_BaseURL opt) "/" in
  if String.eqb (opt_Scope opt) "org" && negb (is_empty (opt_Org opt))
  then b +:+ "/organizations/" +:+ opt_Org opt +:+ "/settings/apps/new"
  else b +:+ "/settings/apps/new".
