(* ===== verification/TokenRefresher.v ===== *)
(** * The refresh of the user token

    [internal/ghapp/refresher.go] and [tokenstore.go]: a user token is rotated
    when it is about to expire, and the rotated pair is written to a sidecar
    file.  Processes share the sidecar and a file lock; within a process every
    client of a sidecar shares one refresher and its mutex.  Each call of
    [AccessToken] is a thread; the refreshers of all processes, the sidecar, the
    file lock and the clock are the shared state.  The polls of the file lock
    are one action, which is taken when the lock is free or the waiter gives
    up.  A rotation request is sent and answered in two actions; an answer may
    be lost after GitHub has rotated the pair.  The clock
    does not go back. *)

From S2P Require Import Prelude GoErr GoStr Config GhApp Threads.

Local Open Scope Z_scope.
Local Open Scope go_scope.

Definition TokenSkew : Z := 5 * 60 * second.

(** [needsRefresh] *)
Definition needsRefresh (tok : UserToken) (now : Z) : bool :=
  match Expiry tok with None => false | Some e => e - TokenSkew <? now end.

(** What the calls observe: the current pair is about to expire, what the
    sidecar held when it was read again under the file lock and when, the
    rotation request, its answer, the outcome of a save, and the end of a call.
    A request that fails may still have been carried out: [lost] is then the
    pair that GitHub issued and nobody received. *)
Inductive obs :=
| OHeld (p : nat)
| ODue (p : nat)
| OLocked (p : nat)
| OLoaded (p : nat) (stored : option UserToken) (now : Z)
| OSent (p : nat) (refreshToken : string)
| ORotated (p : nat) (tok : UserToken)
| ORejected (p : nat) (lost : option UserToken)
| OSaved (p : nat) (err : option goerror)
| OUnlocked (p : nat)
| OReleased (p : nat).

(** A [TokenRefresher]: [mu] held, the token, and whether it is not saved. *)
Record Refresher := MkRefresher { busy : bool; tok : UserToken; unsaved : bool }.

(** The refresher of each process that has started, the content of the
    sidecar, the holder of the file lock and the time. *)
Record World := MkWorld {
  procs : nat → option Refresher;
  sidecar : UserToken;
  flock : option nat;
  clock : Z;
  trace : list obs
}.

(** The steps of [SaveUserToken] that can fail; the sidecar is replaced by the
    last of them. *)
Record save_answers := {
  sv_create : option goerror;
  sv_chmod : option goerror;
  sv_restrict : option goerror;
  sv_write : option goerror;
  sv_close : option goerror;
  sv_rename : option goerror
}.

Definition SaveUserToken (ans : save_answers) (path dir : string) : option goerror :=
  match sv_create ans with
  | Some e => Some (errorf_w ("create temp token file in " +:+ dir +:+ ": ") e)
  | None =>
      match sv_chmod ans with
      | Some e => Some (errorf_w "chmod temp token file: " e)
      | None =>
          match sv_restrict ans with
          | Some e => Some e
          | None =>
              match sv_write ans with
              | Some e => Some (errorf_w "write temp token file: " e)
              | None =>
                  match sv_close ans with
                  | Some e => Some (errorf_w "close temp token file: " e)
                  | None =>
                      match sv_rename ans with
                      | Some e => Some (errorf_w ("replace token store " +:+ path +:+ ": ") e)
                      | None => None
                      end
                  end
              end
          end
      end
  end.

(** How the wait for the file lock ends, if the lock is not taken. *)
Inductive lock_answer := LWait | LGiveUp (err : goerror).

Record answers := {
  an_now : Z;
  an_load : option goerror;
  an_save : save_answers;
  an_lock : lock_answer;
  an_http : http_answer;
  an_lost : option UserToken
}.

Inductive thread := TStart (p : nat) | TAccess (p : nat).

Definition proc (A : Type) : Type := prog World answers thread A.

Definition emit (o : obs) (w : World) : World :=
  MkWorld (procs w) (sidecar w) (flock w) (clock w) (o :: trace w).
Definition set_proc (p : nat) (r : Refresher) (w : World) : World :=
  MkWorld (λ q, if decide (q = p) then Some r else procs w q) (sidecar w) (flock w) (clock w) (trace w).
Definition set_sidecar (t : UserToken) (w : World) : World :=
  MkWorld (procs w) t (flock w) (clock w) (trace w).
Definition set_flock (h : option nat) (w : World) : World :=
  MkWorld (procs w) (sidecar w) h (clock w) (trace w).
Definition at_time (now : Z) (w : World) : World :=
  MkWorld (procs w) (sidecar w) (flock w) now (trace w).

(** [LoadUserToken], the file unreadable or of another shape as [an_load] says. *)
Definition LoadUserToken (env : answers) (w : World) : result UserToken :=
  match an_load env with Some e => Err e | None => Ok (sidecar w) end.

Section refresher.
(** The text of decoding errors, the host, the path of the sidecar and its directory. *)
Variable json_error : string → goerror.
Variable baseURL path dir : string.

(** [loadValidToken] *)
Definition loadValidToken (env : answers) (w : World) : result UserToken :=
  match LoadUserToken env w with
  | Err e => Err (EWrap ("read user token " +:+ path +:+ ": ") e " (re-run `multirunner connect`)")
  | Ok t => if is_empty (AccessToken t)
            then Err (errorf ("user token " +:+ path +:+ " has no access token; re-run `multirunner connect`"))
            else Ok t
  end.

(** [NewTokenRefresher]: the process's refresher, made on first use. *)
Definition NewTokenRefresher (p : nat) : proc (option goerror) :=
  atomically (λ env w,
    match procs w p with
    | Some _ => Some (None, w, [])
    | None =>
        match loadValidToken env w with
        | Err e => Some (Some e, w, [])
        | Ok t => Some (None, set_proc p (MkRefresher false t false) w, [])
        end
    end).

(** An action on the refresher of process [p]. *)
Definition on_proc {R} (p : nat) (f : answers → Refresher → World → option (R * World)) : proc R :=
  atomically (λ env w, match procs w p with
                       | Some r => match f env r w with Some (a, w) => Some (a, w, []) | None => None end
                       | None => None
                       end).

Definition lock_mu (p : nat) : proc unit :=
  on_proc p (λ _ r w, if busy r then None
                      else Some (tt, emit (OHeld p) (set_proc p (MkRefresher true (tok r) (unsaved r)) w))).
Definition unlock_mu (p : nat) : proc unit :=
  on_proc p (λ _ r w, Some (tt, emit (OReleased p) (set_proc p (MkRefresher false (tok r) (unsaved r)) w))).

(** [retrySave] *)
Definition retrySave (p : nat) : proc unit :=
  on_proc p (λ env r w,
    if negb (unsaved r) then Some (tt, w)
    else match SaveUserToken (an_save env) path dir with
         | None => Some (tt, set_sidecar (tok r) (set_proc p (MkRefresher (busy r) (tok r) false) w))
         | Some _ => Some (tt, w)
         end).

(** The current token, unless it has to be refreshed and can be. *)
Definition check (p : nat) : proc (option string) :=
  on_proc p (λ env r w,
    let w := at_time (an_now env) w in
    if negb (needsRefresh (tok r) (an_now env)) then Some (Some (AccessToken (tok r)), w)
    else if is_empty (RefreshToken (tok r)) then Some (Some (AccessToken (tok r)), w)
    else Some (None, emit (ODue p) w)).

(** [lockTokenFile] *)
Definition lockTokenFile (p : nat) : proc (option goerror) :=
  on_proc p (λ env _ w,
    match an_lock env with
    | LGiveUp e => Some (Some e, w)
    | LWait => match flock w with
               | None => Some (None, emit (OLocked p) (set_flock (Some p) w))
               | Some _ => None
               end
    end).
Definition unlock_file (p : nat) : proc unit := on_proc p (λ _ _ w, Some (tt, emit (OUnlocked p) (set_flock None w))).

(** The read of the sidecar under the file lock, as it is observed. *)
Definition read_again (p : nat) (env : answers) (w : World) : result UserToken * World :=
  let loaded := LoadUserToken env w in
  let stored := match loaded with Ok t => Some t | Err _ => None end in
  (loaded, emit (OLoaded p stored (an_now env)) (at_time (an_now env) w)).

(** The sidecar is read again; a pair that another process rotated to is
    adopted. *)
Definition reload (p : nat) : proc (option string) :=
  on_proc p (λ env r w,
    let '(loaded, w) := read_again p env w in
    match loaded with
    | Ok stored =>
        if negb (is_empty (AccessToken stored)) && negb (needsRefresh stored (an_now env))
        then Some (Some (AccessToken stored), set_proc p (MkRefresher (busy r) stored false) w)
        else Some (None, w)
    | Err _ => Some (None, w)
    end).

(** The request of [RefreshUserToken], and its answer. *)
Definition send (p : nat) : proc unit :=
  on_proc p (λ _ r w, Some (tt, emit (OSent p (RefreshToken (tok r))) w)).
Definition receive (p : nat) : proc (option goerror) :=
  on_proc p (λ env r w,
    let w := at_time (an_now env) w in
    match RefreshUserToken json_error baseURL (an_now env) (an_http env) with
    | Err e => Some (Some e, emit (ORejected p (an_lost env)) w)
    | Ok t => Some (None, emit (ORotated p t) (set_proc p (MkRefresher (busy r) t false) w))
    end).

Definition save (p : nat) : proc string :=
  on_proc p (λ env r w,
    match SaveUserToken (an_save env) path dir with
    | None => Some (AccessToken (tok r), emit (OSaved p None) (set_sidecar (tok r) w))
    | Some e => Some (AccessToken (tok r), emit (OSaved p (Some e)) (set_proc p (MkRefresher (busy r) (tok r) true) w))
    end).

(** [AccessToken] *)
Definition AccessToken_of (p : nat) : proc (result string) :=
  let* _ := lock_mu p in
  let* _ := retrySave p in
  let* current := check p in
  let* r := match current with
            | Some t => Ret (Ok t)
            | None =>
                let* err := lockTokenFile p in
                match err with
                | Some e => Ret (Err e)
                | None =>
                    let* adopted := reload p in
                    let* r := match adopted with
                              | Some t => Ret (Ok t)
                              | None =>
                                  let* _ := send p in
                                  let* err := receive p in
                                  match err with
                                  | Some e => Ret (Err e)
                                  | None => let* t := save p in Ret (Ok t)
                                  end
                              end in
                    let* _ := unlock_file p in
                    Ret r
                end
            end in
  let* _ := unlock_mu p in
  Ret r.

(** [Current] *)
Definition Current (p : nat) : proc string := on_proc p (λ _ r w, Some (AccessToken (tok r), w)).

Definition body (t : thread) : proc unit :=
  match t with
  | TStart p => let* _ := NewTokenRefresher p in Ret tt
  | TAccess p => let* _ := AccessToken_of p in Ret tt
  end.
End refresher.

Definition call (_ : thread) : Prop := True.

Definition New (t : UserToken) (now : Z) : World := MkWorld (λ _, None) t None now [].
