(* ===== verification/TokenRefresherSpec.v ===== *)
(** * What the token refresher promises

    In every interleaving of processes and calls, with any failures: at most
    one rotation request is in flight; before it is sent the sidecar has been
    read under the file lock and held no pair to adopt; it carries the current
    refresh token, unless another process made the last rotation or the answer
    to the last rotation was lost; a pair that is adopted is the current one;
    and when no process holds a pair it could not save, the sidecar holds the
    current one.  The first exception is real: a process whose own token went
    stale sends it although the sidecar it has just read holds the current,
    due one. *)

From S2P Require Import Prelude GoErr GoStr Codec Json Config GhApp Threads Accounts TokenRefresher.

Local Open Scope Z_scope.

(** ** The history of the rotations *)

Fixpoint current (t0 : UserToken) (tr : list obs) : UserToken :=
  match tr with
  | [] => t0
  | ORotated _ t :: _ | ORejected _ (Some t) :: _ => t
  | _ :: tr => current t0 tr
  end.

Fixpoint last_rotator (tr : list obs) : option nat :=
  match tr with [] => None | ORotated p _ :: _ => Some p | _ :: tr => last_rotator tr end.

Fixpoint issued (t0 : UserToken) (tr : list obs) : list UserToken :=
  match tr with
  | [] => [t0]
  | ORotated _ t :: tr | ORejected _ (Some t) :: tr => t :: issued t0 tr
  | _ :: tr => issued t0 tr
  end.

(** The answer to the last rotation reached the process that asked for it. *)
Fixpoint delivered (tr : list obs) : bool :=
  match tr with
  | [] | ORotated _ _ :: _ => true
  | ORejected _ (Some _) :: _ => false
  | _ :: tr => delivered tr
  end.

(** A stored pair that a process goes on with instead of rotating its own. *)
Definition fresh (stored : option UserToken) (now : Z) : bool :=
  match stored with
  | Some t => negb (is_empty (AccessToken t)) && negb (needsRefresh t now)
  | None => false
  end.

(** What a process has read from the sidecar since it took the file lock. *)
Fixpoint read_since_lock (p : nat) (tr : list obs) : option (option UserToken * Z) :=
  match tr with
  | [] => None
  | OLoaded q stored now :: tr => if decide (q = p) then Some (stored, now) else read_since_lock p tr
  | OLocked q :: tr => if decide (q = p) then None else read_since_lock p tr
  | _ :: tr => read_since_lock p tr
  end.

Fixpoint last_sent (tr : list obs) : option string :=
  match tr with [] => None | OSent _ rt :: _ => Some rt | _ :: tr => last_sent tr end.

(** Every request is sent after a read of the sidecar that gave nothing to
    adopt; it carries the current refresh token, or another process made the
    last rotation, or the answer to that was lost. *)
Definition justified (t0 : UserToken) (p : nat) (rt : string) (tr : list obs) : Prop :=
  (∃ stored now, read_since_lock p tr = Some (stored, now) ∧ fresh stored now = false) ∧
  (rt = RefreshToken (current t0 tr) ∨ (∃ q, q ≠ p ∧ last_rotator tr = Some q) ∨ delivered tr = false).

Fixpoint live (t0 : UserToken) (tr : list obs) : Prop :=
  match tr with
  | [] => True
  | OSent p rt :: tr => justified t0 p rt tr ∧ live t0 tr
  | _ :: tr => live t0 tr
  end.

(** How far the call of [AccessToken] that holds the mutex of a process is. *)
Inductive phase := Free | Held | Due | Locked | Checked | Sent | Dirty | Adopted | Done | Left.

#[export] Instance phase_eq_dec : EqDecision phase.
Proof. solve_decision. Defined.

Definition next_phase (p : nat) (o : obs) (ph : phase) : phase :=
  let move (q : nat) (to : phase) := if decide (p = q) then to else ph in
  match o, ph with
  | OHeld q, Free => move q Held
  | ODue q, Held => move q Due
  | OLocked q, (Due | Checked) => move q Locked
  | OLoaded q stored now, (Locked | Checked) => move q (if fresh stored now then Adopted else Checked)
  | OSent q _, Checked => move q Sent
  | ORotated q _, Sent => move q Dirty
  | ORejected q _, Sent | OSaved q _, Dirty => move q Done
  | OUnlocked q, (Adopted | Done) => move q Left
  | OReleased q, (Held | Due | Left) => move q Free
  | _, _ => ph
  end.
Definition phase_of (p : nat) (tr : list obs) : phase := foldr (next_phase p) Free tr.

(** The phases with the file lock, and those with a token that is due. *)
Definition locked (ph : phase) : bool := match ph with Locked | Checked | Sent | Dirty | Adopted | Done => true | _ => false end.
Definition due (ph : phase) : bool := match ph with Due | Locked | Checked | Sent => true | _ => false end.

(** A process with a rotated pair that the sidecar does not hold. *)
Definition holds_pair (r : Refresher) (ph : phase) : Prop := unsaved r = true ∨ ph = Dirty.

Section refresher.
Variable t0 : UserToken.

Record Inv (w : World) : Prop := {
  inv_mutex : ∀ p, match procs w p with
                   | Some r => busy r = true ↔ phase_of p (trace w) ≠ Free
                   | None => phase_of p (trace w) = Free
                   end;
  inv_lock : ∀ p, flock w = Some p ↔ locked (phase_of p (trace w)) = true;
  inv_due : ∀ p r, procs w p = Some r → due (phase_of p (trace w)) = true → needsRefresh (tok r) (clock w) = true;
  inv_asked : ∀ p r, procs w p = Some r → phase_of p (trace w) = Sent →
    last_sent (trace w) = Some (RefreshToken (tok r));
  inv_clean : ∀ p r, procs w p = Some r → phase_of p (trace w) = Dirty → unsaved r = false;
  inv_adopted : ∀ p r, procs w p = Some r → phase_of p (trace w) = Adopted → tok r = current t0 (trace w);
  inv_holder : delivered (trace w) = true → ∀ p r, procs w p = Some r → holds_pair r (phase_of p (trace w)) →
    tok r = current t0 (trace w) ∧ last_rotator (trace w) = Some p ∧ sidecar w ≠ current t0 (trace w) ∧
    ∀ q r', q ≠ p → procs w q = Some r' → tok r' ≠ current t0 (trace w);
  inv_file : delivered (trace w) = true → sidecar w = current t0 (trace w) ∨
    needsRefresh (sidecar w) (clock w) = true ∧
    ∃ p r, procs w p = Some r ∧ holds_pair r (phase_of p (trace w));
  inv_lost : delivered (trace w) = false →
    needsRefresh (sidecar w) (clock w) = true ∧ sidecar w ≠ current t0 (trace w) ∧
    ∀ p r, procs w p = Some r → tok r ≠ current t0 (trace w) ∧
      (holds_pair r (phase_of p (trace w)) → needsRefresh (tok r) (clock w) = true);
  inv_tok : ∀ p r, procs w p = Some r →
    tok r = current t0 (trace w) ∨ (∃ q, q ≠ p ∧ last_rotator (trace w) = Some q) ∨ delivered (trace w) = false;
  inv_known : sidecar w ∈ issued t0 (trace w) ∧ ∀ p r, procs w p = Some r → tok r ∈ issued t0 (trace w);
  inv_issued : NoDup (RefreshToken <$> issued t0 (trace w));
  inv_live : live t0 (trace w)
}.

(** The right to go on with a call that holds a mutex. *)
Inductive account := At (p : nat) (ph : phase).

#[export] Instance account_eq_dec : EqDecision account.
Proof. solve_decision. Defined.

Definition mu (k : account) (w : World) : Z :=
  match k with At p ph => if decide (ph ≠ Free ∧ phase_of p (trace w) = ph) then 1 else 0 end.
Definition one (k q : account) : nat := if decide (q = k) then 1 else 0.
Definition nothing (_ : account) : nat := 0.
Definition at_phase (p : nat) (ph : phase) : account → nat :=
  match ph with Free => nothing | _ => one (At p ph) end.
Definition no_share (_ : account) (_ : thread) : nat := 0.

(** ** Facts *)

Lemma token_phase_cons p o tr : phase_of p (o :: tr) = next_phase p o (phase_of p tr).
Proof. done. Qed.

Lemma needsRefresh_later t a b : needsRefresh t a = true → a ≤ b → needsRefresh t b = true.
Proof. unfold needsRefresh. destruct (Expiry t); [|done]. rewrite !Z.ltb_lt. lia. Qed.

Lemma current_issued tr : current t0 tr ∈ issued t0 tr.
Proof. induction tr as [|[] tr IH]; cbn; repeat case_match; rewrite ?elem_of_cons; auto. Qed.

Lemma issued_same tr t t' : NoDup (RefreshToken <$> issued t0 tr) → t ∈ issued t0 tr → t' ∈ issued t0 tr →
  RefreshToken t = RefreshToken t' → t = t'.
Proof.
  intros Hd [i Hi]%list_elem_of_lookup [j Hj]%list_elem_of_lookup E.
  assert (i = j) as ->; [|congruence].
  apply (NoDup_lookup _ i j (RefreshToken t) Hd); rewrite list_lookup_fmap; [by rewrite Hi|by rewrite Hj, E].
Qed.

Lemma token_fits_at p ph w : (∀ q, Z.of_nat (at_phase p ph q) ≤ mu q w) → ph ≠ Free → phase_of p (trace w) = ph.
Proof.
  intros Hn Hne. specialize (Hn (At p ph)). unfold mu in Hn. case_decide as Hd; [tauto|].
  destruct ph; try done; cbn in Hn; unfold one in Hn; rewrite decide_True in Hn by done; lia.
Qed.

Lemma at_phase_of p q x x' :
  Z.of_nat (at_phase p x' (At q x)) = if decide (q = p ∧ x' ≠ Free ∧ x' = x) then 1 else 0.
Proof.
  destruct (decide (q = p)) as [->|Hne].
  - destruct x', x; cbn; unfold nothing, one; repeat case_decide; naive_solver.
  - rewrite decide_False by tauto. destruct x'; [done|..]; cbn; unfold one; rewrite decide_False by congruence; done.
Qed.

Lemma live_sent tr later p rt earlier : live t0 tr → tr = later ++ OSent p rt :: earlier →
  justified t0 p rt earlier.
Proof. intros Hl ->. induction later as [|o later IH]; [apply Hl|]. destruct o; cbn in Hl; tauto. Qed.

(** In the phase before a request the sidecar has been read. *)
Lemma checked_read p tr : phase_of p tr = Checked →
  ∃ stored now, read_since_lock p tr = Some (stored, now) ∧ fresh stored now = false.
Proof.
  induction tr as [|o tr IH]; [done|]. rewrite token_phase_cons. intros Hn.
  destruct o as [q|q|q|q stored now|q rt|q t|q lost|q err|q|q]; cbn [read_since_lock];
    try (apply IH; revert Hn; cbn; destruct (phase_of p tr); repeat case_decide; done).
  - revert Hn. cbn. destruct (phase_of p tr); repeat case_decide; subst; try done; by intros; apply IH.
  - revert Hn. cbn. destruct (phase_of p tr), (fresh stored now) eqn:Ef; repeat case_decide; subst; try done;
      intros; first [by apply IH|by eexists _, _].
Qed.

(** ** Steps of a process *)

(** What every step of process [p] but a rotation does. *)
Record steps (p : nat) (r r' : Refresher) (w w' : World) : Prop := {
  st_proc : procs w p = Some r ∧ procs w' p = Some r';
  st_others : ∀ q, q ≠ p → procs w' q = procs w q ∧ phase_of q (trace w') = phase_of q (trace w);
  st_clock : clock w ≤ clock w';
  st_current : current t0 (trace w') = current t0 (trace w);
  st_rotator : last_rotator (trace w') = last_rotator (trace w);
  st_issued : issued t0 (trace w') = issued t0 (trace w);
  st_delivered : delivered (trace w') = delivered (trace w);
  st_mutex : busy r' = true ↔ phase_of p (trace w') ≠ Free;
  st_lock : ∀ q, flock w' = Some q ↔ locked (phase_of q (trace w')) = true;
  st_due : due (phase_of p (trace w')) = true → needsRefresh (tok r') (clock w') = true;
  st_asked : ∀ q, phase_of q (trace w') = Sent → q = p ∧ last_sent (trace w') = Some (RefreshToken (tok r')) ∨
               q ≠ p ∧ last_sent (trace w') = last_sent (trace w);
  st_clean : phase_of p (trace w') = Dirty → unsaved r' = false;
  st_live : live t0 (trace w')
}.

(** A fact about the refreshers carries over to the others, and holds for [p]
    as soon as it holds for the new one. *)
Lemma steps_all (P : nat → Refresher → phase → Prop) p r r' w w' : steps p r r' w w' →
  (∀ q x, q ≠ p → procs w q = Some x → P q x (phase_of q (trace w))) → P p r' (phase_of p (trace w')) →
  ∀ q x, procs w' q = Some x → P q x (phase_of q (trace w')).
Proof.
  intros Hs Ho Hp q x Hx. destruct (decide (q = p)) as [->|Hne].
  - destruct (st_proc _ _ _ _ _ Hs) as [_ E]. rewrite E in Hx. by injection Hx as <-.
  - destruct (st_others _ _ _ _ _ Hs q Hne) as [E Eph]. rewrite Eph. apply Ho; [done|by rewrite <- E].
Qed.

(** The part of the invariant that does not speak of who holds which pair. *)
Lemma Inv_steps p r r' w w' : steps p r r' w w' → Inv w → tok r' ∈ issued t0 (trace w) → sidecar w' ∈ issued t0 (trace w) →
  (phase_of p (trace w') = Adopted → tok r' = current t0 (trace w)) →
  (delivered (trace w) = true → ∀ q x, procs w' q = Some x → holds_pair x (phase_of q (trace w')) →
     tok x = current t0 (trace w) ∧ last_rotator (trace w) = Some q ∧ sidecar w' ≠ current t0 (trace w) ∧
     ∀ u y, u ≠ q → procs w' u = Some y → tok y ≠ current t0 (trace w)) →
  (delivered (trace w) = true → sidecar w' = current t0 (trace w) ∨ needsRefresh (sidecar w') (clock w') = true ∧
     ∃ q x, procs w' q = Some x ∧ holds_pair x (phase_of q (trace w'))) →
  (delivered (trace w) = false → needsRefresh (sidecar w') (clock w') = true ∧ sidecar w' ≠ current t0 (trace w) ∧
     tok r' ≠ current t0 (trace w) ∧
     (holds_pair r' (phase_of p (trace w')) → needsRefresh (tok r') (clock w') = true)) →
  (tok r' = current t0 (trace w) ∨ (∃ q, q ≠ p ∧ last_rotator (trace w) = Some q) ∨ delivered (trace w) = false) → Inv w'.
Proof.
  intros Hs Hi Hk Hsk Had Hh Hf Hlo Ht. pose proof Hs as [[Hp Hp'] Ho Hc Ecur Erot Eiss Edel Hm Hl Hd Ha Hcl Hlive].
  constructor; rewrite ?Ecur, ?Erot, ?Eiss, ?Edel; try done.
  - intros q. destruct (decide (q = p)) as [->|Hne]; [by rewrite Hp'|].
    destruct (Ho q Hne) as [-> ->]. apply (inv_mutex _ Hi).
  - apply (steps_all (λ q x ph, due ph = true → needsRefresh (tok x) (clock w') = true) _ _ _ _ _ Hs); [|done].
    intros q x _ Hx Hq. eapply needsRefresh_later; [by eapply inv_due|done].
  - intros q x Hx Hq. destruct (Ha q Hq) as [[-> E]|[Hne ->]]; [rewrite Hp' in Hx; by injection Hx as <-|].
    destruct (Ho q Hne) as [E Eph]. eapply inv_asked; [done|by rewrite <- E|by rewrite <- Eph].
  - apply (steps_all (λ q x ph, ph = Dirty → unsaved x = false) _ _ _ _ _ Hs); [|done].
    intros q x _. by apply inv_clean.
  - apply (steps_all (λ q x ph, ph = Adopted → tok x = current t0 (trace w)) _ _ _ _ _ Hs); [|done].
    intros q x _. by apply inv_adopted.
  - intros Hdel. destruct (Hlo Hdel) as (? & ? & Hr). destruct (inv_lost _ Hi Hdel) as (_ & _ & Hall). split_and!; [done..|].
    apply (steps_all (λ q x ph, tok x ≠ current t0 (trace w) ∧ (holds_pair x ph → needsRefresh (tok x) (clock w') = true))
      _ _ _ _ _ Hs); [|done].
    intros q x _ Hx. destruct (Hall q x Hx) as [? Hn]. split; [done|]. intros Hq. eapply needsRefresh_later; [by apply Hn|done].
  - apply (steps_all (λ q x _, tok x = current t0 (trace w) ∨ (∃ u, u ≠ q ∧ last_rotator (trace w) = Some u) ∨
      delivered (trace w) = false) _ _ _ _ _ Hs); [|done]. intros q x _. by apply inv_tok.
  - split; [done|].
    apply (steps_all (λ q x _, tok x ∈ issued t0 (trace w)) _ _ _ _ _ Hs); [|done]. intros q x _. by apply inv_known.
  - by apply inv_issued.
Qed.

Lemma tok_known w p r : Inv w → procs w p = Some r → tok r ∈ issued t0 (trace w).
Proof. intros Hi. by apply inv_known. Qed.

(** The pairs stay where they are. *)
Lemma Inv_kept p r r' w w' : steps p r r' w w' → Inv w → sidecar w' = sidecar w → tok r' = tok r →
  phase_of p (trace w') ≠ Adopted →
  (holds_pair r' (phase_of p (trace w')) ↔ holds_pair r (phase_of p (trace w))) → Inv w'.
Proof.
  intros Hs Hi Esc Et Hna Hh. pose proof Hs as [[Hp Hp'] Ho Hc _ _ _ _ _ _ _ _ _ _].
  assert (∀ q x, procs w' q = Some x → holds_pair x (phase_of q (trace w')) →
            ∃ y, procs w q = Some y ∧ tok x = tok y ∧ holds_pair y (phase_of q (trace w))) as Hback.
  { intros q x Hx Hq. destruct (decide (q = p)) as [->|Hne].
    - rewrite Hp' in Hx. injection Hx as <-. exists r. by rewrite <- Hh.
    - destruct (Ho q Hne) as [E Eph]. exists x. by rewrite <- E, <- Eph. }
  assert (∀ u y, procs w' u = Some y → ∃ z, procs w u = Some z ∧ tok y = tok z) as Hall.
  { intros u y Hy. destruct (decide (u = p)) as [->|Hne].
    - rewrite Hp' in Hy. injection Hy as <-. by exists r.
    - destruct (Ho u Hne) as [E _]. exists y. by rewrite <- E. }
  apply (Inv_steps _ _ _ _ _ Hs Hi); rewrite ?Esc, ?Et.
  - by eapply tok_known.
  - by apply inv_known.
  - done.
  - intros Hdel q x Hx Hq. destruct (Hback q x Hx Hq) as (y & Hy & -> & Hhy).
    destruct (inv_holder _ Hi Hdel q y Hy Hhy) as (? & ? & ? & Hn). split_and!; [done..|].
    intros u z Hu Hz. destruct (Hall u z Hz) as (v & Hv & ->). by apply (Hn u).
  - intros Hdel.
    destruct (inv_file _ Hi Hdel) as [?|[Hn (q & x & Hx & Hq)]]; [by left|right]. split; [by eapply needsRefresh_later|].
    destruct (decide (q = p)) as [->|Hne].
    + exists p, r'. split; [done|]. apply Hh. rewrite Hp in Hx. by injection Hx as <-.
    + destruct (Ho q Hne) as [E Eph]. exists q, x. by rewrite E, Eph.
  - intros Hdel. destruct (inv_lost _ Hi Hdel) as (? & ? & Hlost). destruct (Hlost p r Hp) as [? Hn].
    split_and!; [by eapply needsRefresh_later|done..|]. intros Hq%Hh. eapply needsRefresh_later; [by apply Hn|done].
  - by apply inv_tok.
Qed.

(** The pair of a process that holds one is saved. *)
Lemma Inv_saved p r r' w w' : steps p r r' w w' → Inv w → holds_pair r (phase_of p (trace w)) →
  phase_of p (trace w') ≠ Adopted →
  sidecar w' = tok r → tok r' = tok r → ¬ holds_pair r' (phase_of p (trace w')) → Inv w'.
Proof.
  intros Hs Hi Hh Hna Esc Et Hn. pose proof Hs as [[Hp Hp'] Ho Hc _ _ _ _ _ _ _ _ _ _].
  apply (Inv_steps _ _ _ _ _ Hs Hi); rewrite ?Esc, ?Et; [by eapply tok_known..|done| | | |by apply inv_tok].
  - intros Hdel. destruct (inv_holder _ Hi Hdel p r Hp Hh) as (Ecur & Hrot & _ & Hothers).
    intros q x Hx Hq. exfalso. destruct (decide (q = p)) as [->|Hne].
    + rewrite Hp' in Hx. by injection Hx as <-.
    + destruct (Ho q Hne) as [E Eph]. rewrite E in Hx. rewrite Eph in Hq.
      destruct (inv_holder _ Hi Hdel q x Hx Hq) as (_ & Hrot' & _). congruence.
  - intros Hdel. left. by apply (inv_holder _ Hi Hdel p r).
  - intros Hdel. destruct (inv_lost _ Hi Hdel) as (_ & _ & Hall). destruct (Hall p r Hp) as [? Hd].
    split_and!; [|done..|done]. eapply needsRefresh_later; [by apply Hd|done].
Qed.

(** The pair of the sidecar, which is not about to expire, is adopted. *)
Lemma Inv_adopted p r r' w w' : steps p r r' w w' → Inv w → needsRefresh (sidecar w) (clock w') = false →
  sidecar w' = sidecar w → tok r' = sidecar w → ¬ holds_pair r' (phase_of p (trace w')) → Inv w'.
Proof.
  intros Hs Hi Hfresh Esc Et Hn. pose proof Hs as [[Hp Hp'] Ho Hc _ _ _ _ _ _ _ _ _ _].
  assert (delivered (trace w) = true) as Hdel.
  { destruct (delivered (trace w)) eqn:Hdel; [done|]. destruct (inv_lost _ Hi Hdel) as [Hd _].
    by rewrite (needsRefresh_later _ _ _ Hd Hc) in Hfresh. }
  assert (sidecar w = current t0 (trace w)) as Ecur.
  { destruct (inv_file _ Hi Hdel) as [?|[Hd _]]; [done|]. by rewrite (needsRefresh_later _ _ _ Hd Hc) in Hfresh. }
  apply (Inv_steps _ _ _ _ _ Hs Hi); rewrite ?Esc, ?Et, ?Ecur, ?Hdel;
    [apply current_issued..|done| |by left|done|by left].
  intros _ q x Hx Hq. exfalso. destruct (decide (q = p)) as [->|Hne].
  - rewrite Hp' in Hx. by injection Hx as <-.
  - destruct (Ho q Hne) as [E Eph]. rewrite E in Hx. rewrite Eph in Hq.
    by destruct (inv_holder _ Hi Hdel q x Hx Hq) as (_ & _ & Hne' & _).
Qed.

Lemma moves_phase p ph ph' w w' :
  phase_of p (trace w) = ph → phase_of p (trace w') = ph' →
  (∀ q, q ≠ p → phase_of q (trace w') = phase_of q (trace w)) →
  moves mu no_share (at_phase p ph) (at_phase p ph') w w' [].
Proof.
  intros E E' Ho [q x]. cbn [fmap list_fmap]. rewrite held_nil. cbn [mu].
  rewrite !at_phase_of. destruct (decide (q = p)) as [->|Hne].
  - assert (∀ y, (if decide (p = p ∧ y ≠ Free ∧ y = x) then 1 else 0) = if decide (x ≠ Free ∧ y = x) then 1 else 0) as Hy
      by (intros y; apply decide_ext; intuition congruence).
    rewrite E, E', !Hy. lia.
  - rewrite (Ho q Hne). rewrite !(decide_False (P := q = p ∧ _)) by tauto. lia.
Qed.

(** ** Steps that leave an observation *)

Definition actor (o : obs) : nat :=
  match o with
  | OHeld u | ODue u | OLocked u | OLoaded u _ _ | OSent u _ | ORotated u _ | ORejected u _ | OSaved u _ | OUnlocked u
  | OReleased u => u
  end.

(** Process [p] goes on to phase [ph], the others stay where they are. *)
Definition moved (p : nat) (ph : phase) (w w' : World) : Prop :=
  phase_of p (trace w') = ph ∧ ∀ q, q ≠ p → phase_of q (trace w') = phase_of q (trace w).

Lemma next_other p q o ph : actor o = p → q ≠ p → next_phase q o ph = ph.
Proof. intros <- Hne. destruct o, ph; cbn in *; try done; by rewrite decide_False. Qed.

(** An observation that is neither a request nor a rotation. *)
Definition plain_obs (o : obs) : Prop :=
  match o with OSent _ _ | ORotated _ _ | ORejected _ (Some _) => False | _ => True end.

Lemma moved_emit p o ph w w' : trace w' = o :: trace w → actor o = p → next_phase p o (phase_of p (trace w)) = ph →
  moved p ph w w'.
Proof.
  intros Ht Ho Hn. split; rewrite Ht; [by rewrite token_phase_cons|]. intros q Hne. rewrite token_phase_cons. by eapply next_other.
Qed.

Lemma moved_silent p w w' : trace w' = trace w → moved p (phase_of p (trace w)) w w'.
Proof. intros Ht. by split; rewrite Ht. Qed.

Lemma lock_moved p ph w w' : Inv w → flock w' = flock w → moved p ph w w' → locked ph = locked (phase_of p (trace w)) →
  ∀ q, flock w' = Some q ↔ locked (phase_of q (trace w')) = true.
Proof.
  intros Hi -> [Hp Ho] Hl q. destruct (decide (q = p)) as [->|Hne]; [rewrite Hp, Hl|rewrite Ho by done];
    apply (inv_lock _ Hi).
Qed.

Lemma busy_held w p r : Inv w → procs w p = Some r → phase_of p (trace w) ≠ Free → busy r = true.
Proof. intros Hi Hp. pose proof (inv_mutex _ Hi p) as Hm. rewrite Hp in Hm. apply Hm. Qed.

Lemma one_locked w p q : Inv w → locked (phase_of p (trace w)) = true → locked (phase_of q (trace w)) = true → p = q.
Proof. intros Hi Hp%(inv_lock _ Hi) Hq%(inv_lock _ Hi). congruence. Qed.

(** A step of [p] that leaves [o], neither a rotation nor a request. *)
Lemma steps_emit p o ph r r' w w' : Inv w → procs w p = Some r → procs w' p = Some r' →
  (∀ q, q ≠ p → procs w' q = procs w q) → trace w' = o :: trace w → moved p ph w w' →
  plain_obs o → clock w ≤ clock w' →
  (busy r' = true ↔ ph ≠ Free) → (∀ q, flock w' = Some q ↔ locked (phase_of q (trace w')) = true) →
  (due ph = true → needsRefresh (tok r') (clock w') = true) → ph ≠ Sent → (ph = Dirty → unsaved r' = false) →
  steps p r r' w w'.
Proof.
  intros Hi Hp Hp' Ho Ht [Hph Hoth] Hkind Hc Hm Hl Hd Hs Hcl.
  constructor; rewrite ?Hph; try done; try (rewrite Ht; by destruct o as [| | | | | |? []| | |]).
  - intros q Hne. split; [by apply Ho|by apply Hoth].
  - intros q Hq. right. split; [intros ->; congruence|]. rewrite Ht. by destruct o as [| | | | | |? []| | |].
  - rewrite Ht. pose proof (inv_live _ Hi). by destruct o as [| | | | | |? []| | |].
Qed.

(** A step of [p] that leaves no observation. *)
Lemma steps_silent p r r' w w' : Inv w → procs w p = Some r → procs w' p = Some r' →
  (∀ q, q ≠ p → procs w' q = procs w q) → trace w' = trace w → clock w ≤ clock w' → flock w' = flock w →
  busy r' = busy r → (due (phase_of p (trace w)) = true → tok r' = tok r) →
  (phase_of p (trace w) = Dirty → unsaved r' = unsaved r) → steps p r r' w w'.
Proof.
  intros Hi Hp Hp' Ho Ht Hc Hfl Hb Htok Hu. constructor; rewrite ?Ht; try done.
  - intros q Hne. split; [by apply Ho|done].
  - rewrite Hb. pose proof (inv_mutex _ Hi p) as Hm. by rewrite Hp in Hm.
  - intros q. rewrite Hfl. apply (inv_lock _ Hi).
  - intros Hd. rewrite Htok by done. apply (needsRefresh_later _ (clock w)); [by apply (inv_due _ Hi p)|done].
  - intros q Hq. destruct (decide (q = p)) as [->|Hne]; [left|by right]. split; [done|].
    rewrite Htok by (by rewrite Hq). by eapply inv_asked.
  - intros Hq. rewrite Hu by done. by eapply inv_clean.
  - by apply (inv_live _ Hi).
Qed.

(** ** The calls *)

Variable json_error : string → goerror.
Variable baseURL path dir : string.

(** The clock does not go back, and GitHub rotates the current pair only, to
    one with a refresh token of its own, whether its answer arrives or is
    lost. *)
Definition github (env : answers) (w : World) : Prop :=
  clock w ≤ an_now env ∧
  ∀ t, RefreshUserToken json_error baseURL (an_now env) (an_http env) = Ok t ∨ an_lost env = Some t →
    last_sent (trace w) = Some (RefreshToken (current t0 (trace w))) ∧
    RefreshToken t ∉ RefreshToken <$> issued t0 (trace w).

Definition reaches (now : Z) (c : config World answers thread) : Prop :=
  reachable (body json_error baseURL path dir) call github (New t0 now) c.

Local Notation owns := (owns github Inv mu no_share).

Lemma owns_on {R} p ph (f : answers → Refresher → World → option (R * World)) (ph' : R → phase) :
  (∀ env w r a w', Inv w → github env w → procs w p = Some r → (ph ≠ Free → phase_of p (trace w) = ph) →
     f env r w = Some (a, w') → phase_of p (trace w) = ph ∧ moved p (ph' a) w w' ∧ Inv w') →
  owns (at_phase p ph) (on_proc p f) (λ a m, m = at_phase p (ph' a)).
Proof.
  intros Hf env w a w' sp Hi Hg Hn Hstep. destruct (procs w p) as [r|] eqn:Hp; [|done].
  destruct (f env r w) as [[x w1]|] eqn:Ef; [|done]. injection Hstep as <- <- <-.
  destruct (Hf env w r x w1 Hi Hg Hp) as (E & [E' Ho] & Hi'); [by apply token_fits_at|done|].
  split; [done|]. exists (at_phase p (ph' x)). split; [by apply moves_phase|done].
Qed.

(** The parts of the state after a step. *)
Ltac world :=
  cbn [procs sidecar flock clock trace emit set_proc set_sidecar set_flock at_time busy tok unsaved];
  try done; try (by rewrite decide_True); try (by intros; rewrite decide_False); try lia.

(** [p], whose phase [E] gives, leaves [o] and goes on to [ph] with the
    refresher [r']; the goals left are about the file lock and the token. *)
Ltac leaves o ph r' E :=
  match goal with
  | Hi : Inv ?w, Hp : procs ?w ?p = Some ?r |- context [Inv ?w'] =>
      let Hm := fresh "Hm" in let Hs := fresh "Hs" in
      assert (moved p ph w w') as Hm by (apply (moved_emit p o); [done..|]; rewrite E; cbn; unfold fresh; rewrite ?decide_True by done; try done;
        match goal with Hn : _ = (_ : bool) |- _ => by rewrite Hn end);
      assert (steps p r r' w w') as Hs;
      [apply (steps_emit p o ph r r' w w');
       match goal with
       | |- ∀ q, flock _ = Some q ↔ _ => try (apply (lock_moved p ph w w' Hi); [by world|exact Hm|by rewrite E])
       | |- busy _ = true ↔ _ => world; try (split; [done|intros _; apply (busy_held w p r Hi Hp); by rewrite E])
       | _ => world
       end|
       split_and!; [done..|]; let E' := fresh "E'" in pose proof (proj1 Hm) as E']
  end.

(** The pairs stay where they are in the step [Hs]. *)
Ltac keeps E :=
  match goal with
  | Hs : steps ?p ?r _ _ _, E' : phase_of ?p _ = _ |- Inv _ =>
      apply (Inv_kept p r _ _ _ Hs); rewrite ?E, ?E'; world; unfold holds_pair; cbn; intuition congruence
  end.

Lemma lock_mu_owns p : owns (at_phase p Free) (lock_mu p) (λ _ m, m = at_phase p Held).
Proof.
  apply (owns_on p Free _ (λ _, Held)). intros env w r [] w' Hi _ Hp _ Hf. cbn beta in Hf.
  destruct (busy r) eqn:Hb; [done|]. injection Hf as <-.
  assert (phase_of p (trace w) = Free) as E.
  { pose proof (inv_mutex _ Hi p) as Hm. rewrite Hp, Hb in Hm.
    destruct (decide (phase_of p (trace w) = Free)) as [|Hne]; [done|]. by apply Hm in Hne. }
  leaves (OHeld p) Held (MkRefresher true (tok r) (unsaved r)) E.
  by keeps E.
Qed.

(** The steps without observations. *)
Ltac silent r' E :=
  match goal with
  | Hi : Inv ?w, Hp : procs ?w ?p = Some ?r |- context [Inv ?w'] =>
      let Hm := fresh "Hm" in let Hs := fresh "Hs" in
      assert (moved p (phase_of p (trace w)) w w') as Hm by (by apply moved_silent);
      assert (steps p r r' w w') as Hs; [apply (steps_silent p r r' w w'); rewrite ?E; world|
        rewrite ?E in Hm; split_and!; [done..|]; let E' := fresh "E'" in pose proof (proj1 Hm) as E']
  end.

Lemma retrySave_owns p : owns (at_phase p Held) (retrySave path dir p) (λ _ m, m = at_phase p Held).
Proof.
  apply (owns_on p Held _ (λ _, Held)). intros env w r [] w' Hi _ Hp E Hf. cbn beta in Hf.
  specialize (E ltac:(done)). destruct (unsaved r) eqn:Hu; cbn [negb] in Hf;
    [destruct (SaveUserToken _ _ _)|]; injection Hf as <-.
  - by silent r E.
  - silent (MkRefresher (busy r) (tok r) false) E.
    apply (Inv_saved p r _ _ _ Hs); rewrite ?E, ?E'; world; [by left|]. by intros [?|?].
  - by silent r E.
Qed.

Lemma check_owns p :
  owns (at_phase p Held) (check p) (λ a m, m = at_phase p (match a with Some _ => Held | None => Due end)).
Proof.
  apply (owns_on p Held _ (λ a, match a with Some _ => Held | None => Due end)).
  intros env w r a w' Hi [Hg _] Hp E Hf. cbn beta zeta in Hf. specialize (E ltac:(done)).
  destruct (needsRefresh (tok r) (an_now env)) eqn:Hn; cbn [negb] in Hf;
    [destruct (is_empty (RefreshToken (tok r)))|]; injection Hf as <- <-.
  - silent r E. by keeps E.
  - leaves (ODue p) Due r E. by keeps E.
  - silent r E. by keeps E.
Qed.

Lemma lockTokenFile_owns p :
  owns (at_phase p Due) (lockTokenFile p) (λ a m, m = at_phase p (match a with Some _ => Due | None => Locked end)).
Proof.
  apply (owns_on p Due _ (λ a, match a with Some _ => Due | None => Locked end)).
  intros env w r a w' Hi _ Hp E Hf. cbn beta in Hf. specialize (E ltac:(done)).
  destruct (an_lock env) as [|e]; [destruct (flock w) eqn:Hl; [done|]|]; injection Hf as <- <-.
  - leaves (OLocked p) Locked r E; [|by intros _; apply (inv_due _ Hi p r Hp); rewrite E|by keeps E].
    intros q. change (flock _) with (Some p). destruct (decide (q = p)) as [->|Hne]; [by rewrite (proj1 Hm)|].
    rewrite (proj2 Hm) by done. rewrite <- (inv_lock _ Hi), Hl. by split; [intros [= ->]|].
  - silent r E. by keeps E.
Qed.

Lemma unlock_file_owns p ph : (ph = Adopted ∨ ph = Done) →
  owns (at_phase p ph) (unlock_file p) (λ _ m, m = at_phase p Left).
Proof.
  intros Hph. apply (owns_on p ph _ (λ _, Left)). intros env w r [] w' Hi _ Hp E Hf. cbn beta in Hf.
  assert (ph ≠ Free) as Hne by (by destruct Hph as [-> | ->]). specialize (E Hne). injection Hf as <-.
  assert (locked (phase_of p (trace w)) = true) as Hlk by (rewrite E; by destruct Hph as [-> | ->]).
  destruct Hph as [-> | ->]; (leaves (OUnlocked p) Left r E; [|by keeps E]);
    intros q; change (flock _) with (@None nat); (destruct (decide (q = p)) as [->|Hnq]; [by rewrite (proj1 Hm)|]);
    (rewrite (proj2 Hm) by done); (split; [done|]); intros Hq; destruct Hnq; by apply (one_locked w).
Qed.

Lemma reload_owns p :
  owns (at_phase p Locked) (reload p) (λ a m, m = at_phase p (match a with Some _ => Adopted | None => Checked end)).
Proof.
  apply (owns_on p Locked _ (λ a, match a with Some _ => Adopted | None => Checked end)).
  intros env w r a w' Hi [Hg _] Hp E Hf. cbn beta in Hf. specialize (E ltac:(done)).
  unfold read_again, LoadUserToken in Hf. destruct (an_load env); cbn beta iota zeta in Hf.
  { injection Hf as <- <-. leaves (OLoaded p None (an_now env)) Checked r E; [|by keeps E].
    intros _. apply (needsRefresh_later _ (clock w)); [apply (inv_due _ Hi p r Hp); by rewrite E|done]. }
  destruct (negb (is_empty (AccessToken (sidecar w))) && negb (needsRefresh (sidecar w) (an_now env))) eqn:Hn;
    injection Hf as <- <-.
  - leaves (OLoaded p (Some (sidecar w)) (an_now env)) Adopted (MkRefresher (busy r) (sidecar w) false) E.
    apply andb_true_iff in Hn as [_ Hn%negb_true_iff].
    apply (Inv_adopted p r _ _ _ Hs); rewrite ?E'; world. by intros [?|?].
  - leaves (OLoaded p (Some (sidecar w)) (an_now env)) Checked r E; [|by keeps E].
    intros _. apply (needsRefresh_later _ (clock w)); [apply (inv_due _ Hi p r Hp); by rewrite E|done].
Qed.

Lemma save_owns p : owns (at_phase p Dirty) (save path dir p) (λ _ m, m = at_phase p Done).
Proof.
  apply (owns_on p Dirty _ (λ _, Done)). intros env w r a w' Hi _ Hp E Hf. cbn beta in Hf.
  specialize (E ltac:(done)). destruct (SaveUserToken _ _ _) as [e|]; injection Hf as <- <-.
  - leaves (OSaved p (Some e)) Done (MkRefresher (busy r) (tok r) true) E.
    apply (Inv_kept p r _ _ _ Hs); rewrite ?E, ?E'; world. unfold holds_pair. cbn. tauto.
  - leaves (OSaved p None) Done r E. pose proof (inv_clean _ Hi p r Hp E) as Hu.
    apply (Inv_saved p r _ _ _ Hs); rewrite ?E, ?E'; world; [by right|]. intros [?|?]; congruence.
Qed.

Lemma unlock_mu_owns p ph : (ph = Held ∨ ph = Due ∨ ph = Left) →
  owns (at_phase p ph) (unlock_mu p) (λ _ m, m = at_phase p Free).
Proof.
  intros Hph. apply (owns_on p ph _ (λ _, Free)). intros env w r [] w' Hi _ Hp E Hf. cbn beta in Hf.
  assert (ph ≠ Free) as Hne by (by destruct Hph as [-> | [-> | ->]]). specialize (E Hne). injection Hf as <-.
  destruct Hph as [-> | [-> | ->]]; leaves (OReleased p) Free (MkRefresher false (tok r) (unsaved r)) E; by keeps E.
Qed.

(** The request: no other process has one in flight, and the token it carries
    is the current one or nobody sent the current one in vain. *)
Lemma send_owns p : owns (at_phase p Checked) (send p) (λ _ m, m = at_phase p Sent).
Proof.
  apply (owns_on p Checked _ (λ _, Sent)). intros env w r [] w' Hi _ Hp E Hf. cbn beta in Hf.
  specialize (E ltac:(done)). injection Hf as <-.
  assert (moved p Sent w (emit (OSent p (RefreshToken (tok r))) w)) as Hm.
  { apply (moved_emit p (OSent p (RefreshToken (tok r)))); [done..|]. rewrite E. by cbn; rewrite decide_True. }
  assert (steps p r r w (emit (OSent p (RefreshToken (tok r))) w)) as Hs.
  { pose proof (proj1 Hm) as E'. constructor; rewrite ?E'; world.
    - intros q Hne. split; [done|by apply (proj2 Hm)].
    - split; [done|intros _; apply (busy_held w p r Hi Hp); by rewrite E].
    - apply (lock_moved p Sent w (emit (OSent p (RefreshToken (tok r))) w) Hi); [done..|by rewrite E].
    - intros _. apply (inv_due _ Hi p r Hp). by rewrite E.
    - intros q Hq. left. split; [|done]. destruct (decide (q = p)) as [|Hne]; [done|].
      assert (phase_of q (trace w) = Sent) as Hq' by (rewrite <- (proj2 Hm q Hne); exact Hq).
      destruct Hne. by apply (one_locked w); [..|rewrite Hq'|rewrite E].
    - split; [|by apply inv_live]. split; [by apply checked_read|].
      destruct (inv_tok _ Hi p r Hp) as [->|?]; [by left|by right]. }
  pose proof (proj1 Hm) as E'. split_and!; [done..|by keeps E].
Qed.

(** A rotated pair was the process's own, and the answer to the rotation before
    had arrived. *)
Lemma sent_current p r w : Inv w → procs w p = Some r → phase_of p (trace w) = Sent →
  last_sent (trace w) = Some (RefreshToken (current t0 (trace w))) →
  tok r = current t0 (trace w) ∧ delivered (trace w) = true.
Proof.
  intros Hi Hp E Hsent. assert (tok r = current t0 (trace w)) as Hcur.
  { rewrite (inv_asked _ Hi p r Hp E) in Hsent. injection Hsent as Hsent.
    apply (issued_same (trace w)); [by apply inv_issued|by eapply tok_known|apply current_issued|done]. }
  split; [done|]. destruct (delivered (trace w)) eqn:Hd; [done|].
  destruct (inv_lost _ Hi Hd) as (_ & _ & Hall). by destruct (Hall p r Hp).
Qed.

(** While the current pair is rotated the sidecar is due. *)
Lemma due_sidecar p r w now : Inv w → procs w p = Some r → phase_of p (trace w) = Sent → clock w ≤ now →
  tok r = current t0 (trace w) → delivered (trace w) = true → needsRefresh (sidecar w) now = true.
Proof.
  intros Hi Hp E Hc Hcur Hdel. apply (needsRefresh_later _ (clock w)); [|done].
  destruct (inv_file _ Hi Hdel) as [->|[? _]]; [|done]. rewrite <- Hcur. apply (inv_due _ Hi p r Hp). by rewrite E.
Qed.

(** The answer.  A rotation was of the current pair, which only [p] may have
    sent; nobody holds the new pair but [p]. *)
Lemma Inv_rotated p r t w now : Inv w → procs w p = Some r → phase_of p (trace w) = Sent → clock w ≤ now →
  last_sent (trace w) = Some (RefreshToken (current t0 (trace w))) → RefreshToken t ∉ RefreshToken <$> issued t0 (trace w) →
  moved p Dirty w (emit (ORotated p t) (set_proc p (MkRefresher (busy r) t false) (at_time now w))) →
  Inv (emit (ORotated p t) (set_proc p (MkRefresher (busy r) t false) (at_time now w))).
Proof.
  intros Hi Hp E Hc Hsent Hfresh Hm. set (w' := emit _ _) in *. pose proof Hm as [E' Ho].
  destruct (sent_current p r w Hi Hp E Hsent) as [Hcur Hdel].
  assert (∀ u, u ∈ issued t0 (trace w) → u ≠ t) as Hnew by (intros u Hu ->; by apply Hfresh, list_elem_of_fmap_2).
  assert (procs w' p = Some (MkRefresher (busy r) t false)) as Hp' by (cbn; by rewrite decide_True).
  assert (∀ q x, procs w' q = Some x → (q = p ∧ x = MkRefresher (busy r) t false) ∨
            q ≠ p ∧ procs w q = Some x ∧ phase_of q (trace w') = phase_of q (trace w) ∧ tok x ≠ t) as Hcase.
  { intros q x Hx. destruct (decide (q = p)) as [->|Hne]; [left; split; [done|congruence]|right].
    assert (procs w q = Some x) as Hx' by (revert Hx; cbn; by rewrite decide_False).
    split_and!; [done..|by apply Ho|by eapply Hnew, tok_known]. }
  constructor.
  - intros q. destruct (decide (q = p)) as [->|Hne].
    + rewrite Hp', E'. split; [done|intros _; apply (busy_held w p r Hi Hp); by rewrite E].
    + rewrite Ho by done. cbn. rewrite decide_False by done. by apply inv_mutex.
  - apply (lock_moved p Dirty w w' Hi); [done..|by rewrite E].
  - intros q x [[-> ->]|(Hne & Hx & Hph & _)]%Hcase; [by rewrite E'|]. rewrite Hph. intros Hd.
    apply (needsRefresh_later _ (clock w)); [by apply (inv_due _ Hi q)|done].
  - intros q x [[-> ->]|(Hne & Hx & Hph & _)]%Hcase; [by rewrite E'|]. rewrite Hph. exact (inv_asked _ Hi q x Hx).
  - intros q x [[-> ->]|(Hne & Hx & Hph & _)]%Hcase; [done|]. rewrite Hph. exact (inv_clean _ Hi q x Hx).
  - intros q x [[-> ->]|(Hne & Hx & Hph & _)]%Hcase; [by rewrite E'|]. rewrite Hph. intros Hq.
    destruct Hne. by apply (one_locked w); [..|rewrite Hq|rewrite E].
  - intros _ q x [[-> ->]|(Hne & Hx & Hph & _)]%Hcase.
    + intros _. split_and!; [done..| |]; [by apply (Hnew _ (proj1 (inv_known _ Hi)))|].
      intros u y Hu Hy. by destruct (Hcase u y Hy) as [[-> _]|(_ & _ & _ & ?)].
    + rewrite Hph. intros Hq. destruct (inv_holder _ Hi Hdel q x Hx Hq) as (_ & _ & _ & Hn).
      by destruct (Hn p r (not_eq_sym Hne) Hp).
  - intros _. right. split; [|exists p, (MkRefresher (busy r) t false); split; [done|by right]].
    by apply (due_sidecar p r w now).
  - done.
  - intros q x [[-> ->]|(Hne & _)]%Hcase; [by left|right; left; by exists p].
  - cbn. split; [right; exact (proj1 (inv_known _ Hi))|].
    intros q x [[-> ->]|(Hne & Hx & _)]%Hcase; [left|right; by eapply tok_known].
  - cbn. constructor; [done|by apply inv_issued].
  - by apply (inv_live _ Hi).
Qed.

(** GitHub has rotated and the answer is lost: nobody holds the new pair. *)
Lemma Inv_unanswered p r t w now : Inv w → procs w p = Some r → phase_of p (trace w) = Sent → clock w ≤ now →
  last_sent (trace w) = Some (RefreshToken (current t0 (trace w))) → RefreshToken t ∉ RefreshToken <$> issued t0 (trace w) →
  moved p Done w (emit (ORejected p (Some t)) (at_time now w)) → Inv (emit (ORejected p (Some t)) (at_time now w)).
Proof.
  intros Hi Hp E Hc Hsent Hfresh Hm. set (w' := emit _ _) in *. pose proof Hm as [E' Ho].
  destruct (sent_current p r w Hi Hp E Hsent) as [Hcur Hdel].
  assert (∀ u, u ∈ issued t0 (trace w) → u ≠ t) as Hnew by (intros u Hu ->; by apply Hfresh, list_elem_of_fmap_2).
  assert (∀ q ph, phase_of q (trace w') = ph → (q = p ∧ ph = Done) ∨ (q ≠ p ∧ phase_of q (trace w) = ph)) as Hcase.
  { intros q ph <-. destruct (decide (q = p)) as [->|Hne]; [by left|right]. by rewrite (Ho q Hne). }
  constructor.
  - intros q. change (procs w' q) with (procs w q). destruct (decide (q = p)) as [->|Hne].
    + rewrite Hp, E'. split; [done|intros _; apply (busy_held w p r Hi Hp); by rewrite E].
    + rewrite Ho by done. by apply inv_mutex.
  - apply (lock_moved p Done w w' Hi); [done..|by rewrite E].
  - intros q x Hx Hd. destruct (Hcase q _ eq_refl) as [[_ Ed]|[Hne Eq]]; [by rewrite Ed in Hd|]. rewrite <- Eq in Hd.
    apply (needsRefresh_later _ (clock w)); [by apply (inv_due _ Hi q)|done].
  - intros q x Hx [[_ ?]|[Hne Eq]]%Hcase; [done|]. exact (inv_asked _ Hi q x Hx Eq).
  - intros q x Hx [[_ ?]|[Hne Eq]]%Hcase; [done|]. exact (inv_clean _ Hi q x Hx Eq).
  - intros q x Hx [[_ ?]|[Hne Eq]]%Hcase; [done|]. destruct Hne. by apply (one_locked w); [..|rewrite Eq|rewrite E].
  - done.
  - done.
  - intros _. split_and!; [by apply (due_sidecar p r w now)|by apply (Hnew _ (proj1 (inv_known _ Hi)))|].
    intros q x Hx. split; [by eapply Hnew, tok_known|]. intros Hh. destruct (decide (q = p)) as [->|Hne].
    + change (procs w p = Some x) in Hx. rewrite Hp in Hx. injection Hx as <-. apply (needsRefresh_later _ (clock w)); [|done].
      apply (inv_due _ Hi p r Hp). by rewrite E.
    + rewrite Ho in Hh by done. destruct (inv_holder _ Hi Hdel q x Hx Hh) as (_ & _ & _ & Hn).
      by destruct (Hn p r (not_eq_sym Hne) Hp).
  - intros q x Hx. by right; right.
  - cbn. split; [right; exact (proj1 (inv_known _ Hi))|]. intros q x Hx. right. by eapply tok_known.
  - cbn. constructor; [done|by apply inv_issued].
  - by apply (inv_live _ Hi).
Qed.

Lemma receive_owns p :
  owns (at_phase p Sent) (receive json_error baseURL p)
    (λ a m, m = at_phase p (match a with Some _ => Done | None => Dirty end)).
Proof.
  apply (owns_on p Sent _ (λ a, match a with Some _ => Done | None => Dirty end)).
  intros env w r a w' Hi [Hg Hok] Hp E Hf. cbn beta zeta in Hf. specialize (E ltac:(done)).
  destruct (RefreshUserToken _ _ _ _) as [t|e] eqn:Hr; injection Hf as <- <-.
  - destruct (Hok t (or_introl eq_refl)) as [Hsent Hfresh].
    assert (moved p Dirty w (emit (ORotated p t) (set_proc p (MkRefresher (busy r) t false) (at_time (an_now env) w)))) as Hm.
    { apply (moved_emit p (ORotated p t)); [done..|]. rewrite E. cbn. by rewrite decide_True. }
    split_and!; [done..|]. by apply Inv_rotated.
  - destruct (an_lost env) as [t|]; [|leaves (ORejected p None) Done r E; by keeps E].
    destruct (Hok t (or_intror eq_refl)) as [Hsent Hfresh].
    assert (moved p Done w (emit (ORejected p (Some t)) (at_time (an_now env) w))) as Hm.
    { apply (moved_emit p (ORejected p (Some t))); [done..|]. rewrite E. cbn. by rewrite decide_True. }
    split_and!; [done..|]. by apply (Inv_unanswered p r).
Qed.

(** ** The whole call *)

Lemma AccessToken_owns p :
  owns (at_phase p Free) (AccessToken_of json_error baseURL path dir p) (λ _ m, m = at_phase p Free).
Proof.
  unfold AccessToken_of. eapply owns_then; [apply lock_mu_owns|intros _].
  eapply owns_then; [apply retrySave_owns|intros _].
  apply owns_seq. eapply owns_weaken; [|apply check_owns]. intros [t|] m ->.
  { cbn [pbind]. eapply owns_then; [apply unlock_mu_owns; auto|done]. }
  apply owns_seq, owns_seq. eapply owns_weaken; [|apply lockTokenFile_owns]. intros [e|] m ->.
  { cbn [pbind owns]. eapply owns_then; [apply unlock_mu_owns; auto|done]. }
  apply owns_seq. eapply owns_weaken; [|apply reload_owns]. intros adopted m ->.
  destruct adopted as [t|]; cbn [pbind].
  { eapply owns_then; [apply unlock_file_owns; by left|intros _].
    cbn [owns]. eapply owns_then; [apply unlock_mu_owns; auto|done]. }
  eapply (owns_then _ _ _ _ _ (at_phase p Done)).
  - eapply owns_then; [apply send_owns|intros _].
    apply owns_seq. eapply owns_weaken; [|apply receive_owns]. intros [e|] n ->; [done|].
    eapply owns_then; [apply save_owns|done].
  - intros r. eapply owns_then; [apply unlock_file_owns; by right|intros _].
    cbn [owns]. eapply owns_then; [apply unlock_mu_owns; auto|done].
Qed.

(** A process starts with the pair of the sidecar. *)
Lemma Inv_started p w : Inv w → procs w p = None → Inv (set_proc p (MkRefresher false (sidecar w) false) w).
Proof.
  intros Hi Hp. set (w' := set_proc _ _ _). pose proof (inv_mutex _ Hi p) as E. rewrite Hp in E.
  assert (procs w' p = Some (MkRefresher false (sidecar w) false)) as Hp' by (cbn; by rewrite decide_True).
  assert (∀ q x, procs w' q = Some x → (q = p ∧ x = MkRefresher false (sidecar w) false) ∨ q ≠ p ∧ procs w q = Some x) as Hcase.
  { intros q x Hx. destruct (decide (q = p)) as [->|Hne]; [left; split; [done|congruence]|right].
    split; [done|]. revert Hx. cbn. by rewrite decide_False. }
  constructor; try apply Hi; change (trace w') with (trace w); change (sidecar w') with (sidecar w).
  - intros q. destruct (decide (q = p)) as [->|Hne]; [rewrite Hp', E; by split|].
    cbn. rewrite decide_False by done. apply (inv_mutex _ Hi).
  - intros q x [[-> ->]|[_ Hx]]%Hcase; [by rewrite E|]. exact (inv_due _ Hi q x Hx).
  - intros q x [[-> ->]|[_ Hx]]%Hcase; [by rewrite E|]. exact (inv_asked _ Hi q x Hx).
  - intros q x [[-> ->]|[_ Hx]]%Hcase; [by rewrite E|]. exact (inv_clean _ Hi q x Hx).
  - intros q x [[-> ->]|[_ Hx]]%Hcase; [by rewrite E|]. exact (inv_adopted _ Hi q x Hx).
  - intros Hdel q x [[-> ->]|[_ Hx]]%Hcase; [by rewrite E; intros [?|?]|]. intros Hq.
    destruct (inv_holder _ Hi Hdel q x Hx Hq) as (Hc & Hr & Hs & Hn). split_and!; [done..|].
    intros u y Hu [[-> ->]|[_ Hy]]%Hcase; [done|by apply (Hn u)].
  - intros Hdel. destruct (inv_file _ Hi Hdel) as [?|[Hn (q & x & Hx & Hq)]]; [by left|right]. split; [done|]. exists q, x.
    split; [|done]. cbn. rewrite decide_False; [done|]. intros ->. congruence.
  - intros Hdel. destruct (inv_lost _ Hi Hdel) as (? & ? & Hall). split_and!; [done..|].
    intros q x [[-> ->]|[_ Hx]]%Hcase; [|by apply Hall]. split; [done|by rewrite E; intros [?|?]].
  - intros q x [[-> ->]|[_ Hx]]%Hcase; [|by apply (inv_tok _ Hi q x)]. cbn [tok].
    destruct (delivered (trace w)) eqn:Hdel; [|by right; right].
    destruct (inv_file _ Hi Hdel) as [?|[Hn (u & y & Hy & Hu)]]; [by left|right; left]. exists u.
    split; [intros ->; congruence|by apply (inv_holder _ Hi Hdel u y)].
  - split; [apply (inv_known _ Hi)|]. intros q x [[-> ->]|[_ Hx]]%Hcase; [apply (inv_known _ Hi)|by eapply tok_known].
Qed.

Lemma stays w w' : trace w' = trace w → moves mu no_share nothing nothing w w' [].
Proof. intros Ht [q x]. cbn [fmap list_fmap mu]. rewrite held_nil, Ht. lia. Qed.

Lemma start_owns p : owns nothing (NewTokenRefresher path p) (λ _ m, m = nothing).
Proof.
  intros env w a w' sp Hi _ _ Hstep. destruct (procs w p) as [r|] eqn:Hp.
  { injection Hstep as <- <- <-. split; [done|]. exists nothing. split; [by apply stays|done]. }
  unfold loadValidToken, LoadUserToken in Hstep. destruct (an_load env).
  { injection Hstep as <- <- <-. split; [done|]. exists nothing. split; [by apply stays|done]. }
  destruct (is_empty (AccessToken (sidecar w))); injection Hstep as <- <- <-.
  { split; [done|]. exists nothing. split; [by apply stays|done]. }
  split; [by apply Inv_started|]. exists nothing. split; [by apply stays|done].
Qed.

Lemma body_settles t : settles github Inv mu no_share (λ k, no_share k t) (body json_error baseURL path dir t).
Proof.
  destruct t as [p|p]; cbn [body]; apply owns_seq.
  - eapply owns_weaken; [|apply start_owns]. by intros a m ->.
  - eapply owns_weaken; [|apply AccessToken_owns]. by intros a m ->.
Qed.

Lemma Inv_New now : Inv (New t0 now).
Proof.
  constructor; try done.
  - by left.
  - split; [by left|done].
  - apply NoDup_singleton.
Qed.

Lemma token_reaches_inv now c : reaches now c → Inv (mem c).
Proof.
  intros Hr. eapply (accounts _ _ _ Inv mu no_share body_settles); [done| |apply (Inv_New now)|exact Hr].
  intros [p ph]. cbn [mu]. apply decide_False. by intros [Hne <-].
Qed.

(** C11: in every interleaving of processes and calls, with any failures: a
    rotation request is sent only after the sidecar has been read under the
    file lock and was unreadable, without a token or due as well; it carries
    the refresh token that GitHub issued last, unless another process made the
    last rotation or the answer to the last rotation was lost; at most one
    request is in flight; a pair read from the sidecar and adopted is the one
    issued last; and as soon as no call is under way and no process has a pair
    that it could not save, the sidecar holds the pair issued last, unless the
    answer with that was lost. *)
Theorem refresh_live now c : reaches now c →
  (∀ later p rt earlier, trace (mem c) = later ++ OSent p rt :: earlier →
     (∃ stored at_, read_since_lock p earlier = Some (stored, at_) ∧ fresh stored at_ = false) ∧
     (rt = RefreshToken (current t0 earlier) ∨ (∃ q, q ≠ p ∧ last_rotator earlier = Some q) ∨
      delivered earlier = false)) ∧
  (∀ p q, phase_of p (trace (mem c)) = Sent → phase_of q (trace (mem c)) = Sent → p = q) ∧
  (∀ p r, procs (mem c) p = Some r → phase_of p (trace (mem c)) = Adopted → tok r = current t0 (trace (mem c))) ∧
  ((∀ p r, procs (mem c) p = Some r → busy r = false ∧ unsaved r = false) → delivered (trace (mem c)) = true →
   sidecar (mem c) = current t0 (trace (mem c))).
Proof.
  intros Hr. pose proof (token_reaches_inv now c Hr) as Hi. split_and!.
  - intros later p rt earlier. apply live_sent. by apply inv_live.
  - intros p q Hp Hq. by apply (one_locked _ p q Hi); [rewrite Hp|rewrite Hq].
  - by apply inv_adopted.
  - intros Hidle Hdel. destruct (inv_file _ Hi Hdel) as [?|[_ (p & r & Hp & Hh)]]; [done|].
    destruct (Hidle p r Hp) as [Hb Hu]. destruct Hh as [?|Hd]; [congruence|].
    rewrite (busy_held _ p r Hi Hp) in Hb by (by rewrite Hd). done.
Qed.
End refresher.

(** ** A run

    Process 0 rotates the pair and ends; when the new pair is about to expire
    too, process 1, which started with the old one, sends the dead token
    although the sidecar holds the current pair. *)

Definition demo_pair : UserToken := MkUserToken "a0" "r0" (Some (1000 * second)) None.
Definition demo_saved : save_answers :=
  {| sv_create := None; sv_chmod := None; sv_restrict := None; sv_write := None; sv_close := None; sv_rename := None |}.
Definition demo_at (now : Z) : answers :=
  {| an_now := now * second; an_load := None; an_save := demo_saved; an_lock := LWait;
     an_http := HAnswered 200 "200 OK"
       (encode_json (JObj [("access_token", JStr "a1"); ("refresh_token", JStr "r1"); ("expires_in", JNum "28800")]));
     an_lost := None |}.
Definition demo_refused (now : Z) : answers :=
  {| an_now := now * second; an_load := None; an_save := demo_saved; an_lock := LWait; an_http := HFailed (errorf "EOF");
     an_lost := None |}.
Definition demo_refresh_sched : list (thread + nat * answers) :=
  [inl (TStart 0); inl (TStart 1); inr (0%nat, demo_refused 900); inr (1%nat, demo_refused 900); inl (TAccess 0)] ++
  ((λ i, inr (2%nat, demo_refused i)) <$> [900; 900; 900; 900; 900; 900]) ++
  ((λ i, inr (2%nat, demo_at i)) <$> [901]) ++ ((λ i, inr (2%nat, demo_refused i)) <$> [901; 901; 901]) ++
  [inl (TAccess 1)] ++ ((λ i, inr (3%nat, demo_refused i)) <$> [29500; 29500; 29500; 29500; 29500; 29500]).
Definition demo_refresh_end : config World answers thread :=
  default (Config (New demo_pair 0) [])
    (run (body errorf "https://github.com" "token.json" ".") demo_refresh_sched (Config (New demo_pair 0) [])).

(** [github], decided. *)
Definition can_rotate_to (w : World) (t : UserToken) : bool :=
  bool_decide (last_sent (trace w) = Some (RefreshToken (current demo_pair (trace w)))) &&
  bool_decide (RefreshToken t ∉ RefreshToken <$> issued demo_pair (trace w)).
Definition github_check (env : answers) (w : World) : bool :=
  (clock w <=? an_now env) &&
  match RefreshUserToken errorf "https://github.com" (an_now env) (an_http env) with
  | Ok t => can_rotate_to w t
  | Err _ => true
  end && match an_lost env with Some t => can_rotate_to w t | None => true end.

Lemma github_checked env w : github_check env w = true → github demo_pair errorf "https://github.com" env w.
Proof.
  unfold github_check, github, can_rotate_to. intros [[Hc Hr]%andb_prop Hl]%andb_prop. split; [lia|].
  intros t [Ht|Ht]; rewrite Ht in *.
  - by apply andb_prop in Hr as [?%bool_decide_eq_true_1 ?%bool_decide_eq_true_1].
  - by apply andb_prop in Hl as [?%bool_decide_eq_true_1 ?%bool_decide_eq_true_1].
Qed.

Lemma demo_refresh_reached : reaches demo_pair errorf "https://github.com" "token.json" "." 0 demo_refresh_end.
Proof.
  assert (run (body errorf "https://github.com" "token.json" ".") demo_refresh_sched (Config (New demo_pair 0) []) =
          Some demo_refresh_end) as Hrun.
  { unfold demo_refresh_end. apply some_default. vm_compute. reflexivity. }
  refine (run_reachable _ _ _ _ demo_refresh_sched _ _ (reach_init _ _ _ _) _ Hrun).
  apply (admitted_checked _ _ _ (λ _, true) github_check); [done|apply github_checked|vm_compute; reflexivity].
Qed.

Lemma refresh_live_witness :
  (∃ earlier, trace (mem demo_refresh_end) = OSent 1 "r0" :: earlier ∧
     RefreshToken (current demo_pair earlier) = "r1" ∧ last_rotator earlier = Some 0%nat ∧ delivered earlier = true ∧
     ∃ stored at_, read_since_lock 1 earlier = Some (stored, at_) ∧ fresh stored at_ = false) ∧
  RefreshToken (sidecar (mem demo_refresh_end)) = "r1" ∧
  ∀ p q, phase_of p (trace (mem demo_refresh_end)) = Sent → phase_of q (trace (mem demo_refresh_end)) = Sent → p = q.
Proof.
  destruct (refresh_live demo_pair errorf "https://github.com" "token.json" "." 0 demo_refresh_end) as (H1 & H2 & _);
    [apply demo_refresh_reached|].
  split; [|split; [vm_compute; reflexivity|exact H2]].
  exists (tail (trace (mem demo_refresh_end))). split; [vm_compute; reflexivity|].
  split; [vm_compute; reflexivity|]. split; [vm_compute; reflexivity|]. split; [vm_compute; reflexivity|].
  apply (H1 [] 1%nat "r0" (tail (trace (mem demo_refresh_end)))). vm_compute. reflexivity.
Defined.
