(* ===== verification/JsonInt.v ===== *)
(** * Integers in texts

    The decimal text of an integer is a JSON number, and [strings.TrimSpace]
    takes a line end off it. *)

From S2P Require Import Prelude GoStr Json.

Local Open Scope Z_scope.

Fixpoint all_digits (s : string) : bool := match s with "" => true | String c s => is_digit c && all_digits s end.

Lemma all_digits_mem s : (∀ c, is_digit c = false → str_mem c s = false) → all_digits s = true.
Proof.
  induction s as [|d s IH]; [done|]. intros Hs. cbn [all_digits]. apply andb_true_iff. split.
  - apply not_false_iff_true. intros Hd. specialize (Hs d Hd). cbn in Hs. by rewrite Ascii.eqb_refl in Hs.
  - apply IH. intros c Hc. specialize (Hs c Hc). cbn in Hs. by apply orb_false_iff in Hs as [_ ?].
Qed.

Lemma dec_digits_all fuel n : all_digits (dec_digits fuel n "") = true.
Proof. apply all_digits_mem. intros c Hc. by rewrite dec_digits_mem. Qed.

(** The leading digit is only zero when the number is. *)
Lemma dec_digits_lead fuel n acc : 0 < n < 10 ^ Z.of_nat fuel →
  ∃ d r, dec_digits fuel n acc = String (digit_char d) r ∧ 0 < d < 10.
Proof.
  revert n acc. induction fuel as [|fuel IH]; intros n acc Hn; [cbn in Hn; lia|].
  cbn [dec_digits]. destruct (Z.eqb_spec (n / 10) 0) as [E|E].
  - exists (n mod 10), acc. split; [done|]. dlia.
  - apply IH. rewrite Nat2Z.inj_succ, Z.pow_succ_r in Hn by lia. dlia.
Qed.

Lemma digits_app a s : all_digits a = true → (∀ c r, s = String c r → is_digit c = false) → digits (a +:+ s) = (a, s).
Proof.
  intros Ha Hs. induction a as [|c a IH].
  - cbn [String.append]. destruct s as [|c r]; [done|]. cbn. by rewrite (Hs c r).
  - cbn in Ha. apply andb_prop in Ha as [Hc Ha]. change (String c a +:+ s) with (String c (a +:+ s)). cbn [digits].
    rewrite Hc. by rewrite (IH Ha).
Qed.

Lemma delim_head s c r : delim s → s = String c r → is_digit c = false ∧ c ≠ "."%char ∧ Ascii.eqb (lower_ascii c) "e" = false.
Proof. intros Hd ->. by destruct Hd as [-> | [-> | ->]]. Qed.

(** [parse_num], after the sign. *)
Definition after_sign (sign s : string) : option (string * string) :=
  match digits s with
  | ("", _) => None
  | (String "0" (String _ _), _) => None
  | (int, s) =>
      let frac := match s with
                  | String "." s' => match digits s' with
                                     | ("", _) => None
                                     | (d, r) => Some (String "." d, r)
                                     end
                  | _ => Some ("", s)
                  end in
      match frac with
      | None => None
      | Some (frac, s) =>
          match s with
          | String c s' =>
              if Ascii.eqb (lower_ascii c) "e" then
                let '(sg, s'') := match s' with
                                  | String "+" r => ("+", r)
                                  | String "-" r => ("-", r)
                                  | _ => ("", s')
                                  end in
                match digits s'' with
                | ("", _) => None
                | (d, r) => Some (sign +:+ int +:+ frac +:+ String c (sg +:+ d), r)
                end
              else Some (sign +:+ int +:+ frac, s)
          | "" => Some (sign +:+ int +:+ frac, s)
          end
      end
  end.

Lemma parse_num_after s : parse_num s = match s with String "-" s => after_sign "-" s | _ => after_sign "" s end.
Proof. unfold parse_num. destruct s as [|c s]; [done|]. by destruct c as [[] [] [] [] [] [] [] []]. Qed.

(** A run of digits without a leading zero, after an optional sign. *)
Lemma parse_num_digits d s : all_digits d = true → d ≠ "" → (∀ c r, d ≠ String "0" (String c r)) → delim s →
  parse_num (d +:+ s) = Some (d, s) ∧ parse_num (String "-" (d +:+ s)) = Some (String "-" d, s).
Proof.
  intros Hd Hn H0 Hs.
  assert (digits (d +:+ s) = (d, s)) as E by (apply digits_app; [done|]; intros c r Hc; by eapply delim_head).
  assert (∀ sign, after_sign sign (d +:+ s) = Some (sign +:+ d, s)) as Hafter.
  { intros sign. unfold after_sign. rewrite E. clear E. destruct d as [|c d]; [done|].
    assert (sign +:+ String c d = sign +:+ String c d +:+ "") as -> by (by rewrite str_app_nil_r).
    destruct s as [|e r]; [|destruct Hs as [-> | [-> | ->]]];
      (destruct (decide (c = "0"%char)) as [->|Hc]; [destruct d as [|e' d]; [done|by destruct (H0 e' d)]|]);
      by destruct c as [[] [] [] [] [] [] [] []]. }
  split; rewrite parse_num_after; [|by rewrite Hafter].
  destruct d as [|c d]; [done|]. change (String c d +:+ s) with (String c (d +:+ s)).
  cbn in Hd. apply andb_prop in Hd as [Hd _]. specialize (Hafter ""). change (String c d +:+ s) with (String c (d +:+ s)) in Hafter.
  by destruct c as [[] [] [] [] [] [] [] []].
Qed.

(** The decimal text of an integer is a JSON number. *)
Lemma lit_ok_int n : lit_ok (format_int n).
Proof.
  assert (∀ m, 0 ≤ m → let d := dec_digits (S (Z.to_nat (Z.log2 m))) m "" in
            all_digits d = true ∧ d ≠ "" ∧ ∀ c r, d ≠ String "0" (String c r)) as Hd.
  { intros m Hm d. split_and!; [apply dec_digits_all|apply dec_digits_nonempty|]. intros c r E.
    destruct (decide (m = 0)) as [->|Hne]; [done|].
    destruct (dec_digits_lead (S (Z.to_nat (Z.log2 m))) m "") as (x & t & E' & Hx); [pose proof (dec_fuel m); lia|].
    assert (digit_char x = "0"%char) as E0 by (unfold d in E; rewrite E in E'; congruence).
    destruct (digit_char_val x) as [_ Hv]; [lia|]. rewrite E0 in Hv. change (digit_val "0") with 0 in Hv. lia. }
  intros s Hs. unfold format_int. destruct (Z.ltb_spec n 0) as [Hn|Hn].
  - destruct (Hd (- n)) as (H1 & H2 & H3); [lia|]. split; [|by right]. by apply parse_num_digits.
  - destruct (Hd n Hn) as (H1 & H2 & H3). split; [by apply parse_num_digits|].
    destruct (dec_digits _ _ _) as [|c r]; [done|]. left. cbn in H1. by apply andb_prop in H1 as [? _].
Qed.

(** ** A line of a file *)

Lemma digit_no_space c : is_digit c = true → is_space c = false.
Proof.
  unfold is_digit, is_space. rewrite andb_true_iff, !Z.leb_le. intros Hc.
  rewrite (proj2 (Z.eqb_neq _ _)), (proj2 (Z.leb_gt _ 13)) by lia. by rewrite andb_false_r.
Qed.

Lemma trim_right_digits s t : all_digits s = true → trim_right_by is_space t = "" → trim_right_by is_space (s +:+ t) = s.
Proof.
  intros Hs Ht. induction s as [|c s IH]; [done|]. cbn in Hs. apply andb_prop in Hs as [Hc Hs].
  change (String c s +:+ t) with (String c (s +:+ t)). cbn [trim_right_by]. rewrite IH by done.
  destruct s; [by rewrite digit_no_space|done].
Qed.

Lemma trim_space_line n : 0 ≤ n → trim_space (format_int n +:+ String "010" "") = format_int n.
Proof.
  intros Hn. unfold format_int. rewrite (proj2 (Z.ltb_ge _ _)) by lia. unfold trim_space.
  pose proof (dec_digits_all (S (Z.to_nat (Z.log2 n))) n) as Hd.
  destruct (dec_digits_head (Z.to_nat (Z.log2 n)) n "") as (c & r & E & Hc). rewrite E in *.
  change (String c r +:+ String "010" "") with (String c (r +:+ String "010" "")). cbn [trim_left_by].
  rewrite digit_no_space by done. change (String c (r +:+ String "010" "")) with (String c r +:+ String "010" "").
  by apply trim_right_digits.
Qed.
