(* ===== verification/Qemu.v ===== *)
(** * QEMU command lines, QMP and golden images

    [internal/winvm]: the arguments of a runner VM ([qemu.go]), the configuration
    disk ([iso.go]), the QMP conversation that stops a VM by its name
    ([qmp.go]), and the upkeep of the golden image ([housekeeping.go],
    [housekeeping_run.go]).  The host answers through parameters: which files
    exist, what a QMP server sends, what an image's metadata says. *)

From S2P Require Import Prelude GoErr GoStr Json Filepath.

Local Open Scope Z_scope.
Local Open Scope go_scope.

(** ** Launching *)

Record Firmware := MkFirmware { CodeFD : string; VarsFD : string }.

Record LaunchOpts := MkLaunchOpts {
  lo_Overlay : string;
  lo_JITISOPath : string;
  lo_Name : string;
  lo_QMPAddr : string;
  lo_PIDFile : string;
  lo_MemMB : Z;
  lo_CPUs : Z;
  lo_Accel : string;
  lo_Firmware : Firmware
}.

Definition no_firmware : Firmware := MkFirmware "" "".

Section host.
(** Whether a path exists. *)
Variable exists_file : string → bool.

Definition firstExisting (dir : string) (names : list string) : string :=
  match filter (λ n, exists_file (Join dir n) = true) names with
  | [] => ""
  | n :: _ => Join dir n
  end.

Definition firmware_dirs (bin_dir : option string) : list string :=
  match bin_dir with
  | Some p => [Join p "share"; Join (Join p "..") (Join "share" "qemu")]
  | None => []
  end ++
  ["/usr/share/OVMF"; "/usr/share/edk2/x64"; "/usr/share/edk2-ovmf/x64"; "/usr/share/qemu"; "/usr/share/edk2/ovmf";
   "/usr/share/pve-edk2-firmware"].

Fixpoint first_firmware (dirs : list string) : string * string :=
  match dirs with
  | [] => ("", "")
  | d :: dirs =>
      let c := firstExisting d ["edk2-x86_64-code.fd"; "OVMF_CODE.fd"; "OVMF_CODE_4M.fd"; "OVMF_CODE.secboot.fd"] in
      let v := firstExisting d ["edk2-i386-vars.fd"; "OVMF_VARS.fd"; "OVMF_VARS_4M.fd"] in
      if negb (is_empty c) && negb (is_empty v) then (c, v) else first_firmware dirs
  end.

(** [DetectOVMF], the directory of the QEMU binary looked up. *)
Definition DetectOVMF (bin_dir : option string) : string * string := first_firmware (firmware_dirs bin_dir).
End host.

Definition DetectAccel (kvmAvailable : bool) (goos goarch : string) : string :=
  if negb (String.eqb goarch "amd64") then "tcg"
  else if String.eqb goos "linux" then (if negb kvmAvailable then "tcg" else "kvm")
  else if String.eqb goos "windows" then "whpx"
  else if String.eqb goos "darwin" then "hvf"
  else "tcg".

Definition OverlayCreateArgs (golden overlay : string) : list string :=
  ["create"; "-q"; "-f"; "qcow2"; "-F"; "qcow2"; "-b"; golden; overlay].

Definition cpuArg (accel : string) : string :=
  if String.eqb accel "whpx"
  then "qemu64,hv-relaxed,hv-vapic,hv-spinlocks=0x1fff,hv-time,hv-synic,hv-stimer,hv-reset"
  else if String.eqb accel "tcg" || is_empty accel then "max"
  else "host".

(** [QEMUArgs]; [vnc] is the variable MULTIRUNNER_VM_VNC. *)
Definition QEMUArgs (vnc : string) (o : LaunchOpts) : list string :=
  let accel := if is_empty (lo_Accel o) then "tcg" else lo_Accel o in
  let mem := if lo_MemMB o <=? 0 then 4096 else lo_MemMB o in
  let cpus := if lo_CPUs o <=? 0 then 2 else lo_CPUs o in
  ["-machine"; "q35"; "-accel"; accel; "-cpu"; cpuArg accel; "-m"; format_int mem; "-smp"; format_int cpus] ++
  (if is_empty (lo_Name o) then [] else ["-name"; lo_Name o]) ++
  (if is_empty (lo_PIDFile o) then [] else ["-pidfile"; lo_PIDFile o]) ++
  (if is_empty (lo_QMPAddr o) then [] else ["-qmp"; "tcp:" +:+ lo_QMPAddr o +:+ ",server=on,wait=off"]) ++
  (if is_empty (CodeFD (lo_Firmware o)) then []
   else ["-drive"; "if=pflash,format=raw,unit=0,readonly=on,file=" +:+ CodeFD (lo_Firmware o);
         "-drive"; "if=pflash,format=raw,unit=1,file=" +:+ VarsFD (lo_Firmware o)]) ++
  ["-drive"; "file=" +:+ lo_Overlay o +:+ ",if=none,id=osdisk,format=qcow2";
   "-device"; "ahci,id=ahci"; "-device"; "ide-hd,drive=osdisk,bus=ahci.0";
   "-netdev"; "user,id=n0"; "-device"; "e1000,netdev=n0";
   "-serial"; "file:" +:+ lo_Overlay o +:+ ".serial.log"] ++
  (if is_empty vnc then ["-display"; "none"]
   else ["-vnc"; vnc] ++
        (if is_empty (lo_QMPAddr o) then ["-qmp"; "tcp:127.0.0.1:4457,server=on,wait=off"] else [])) ++
  (if is_empty (lo_JITISOPath o) then []
   else ["-drive"; "file=" +:+ lo_JITISOPath o +:+ ",media=cdrom,readonly=on"]).

(** ** The configuration disk *)

Definition jitFileName : string := "jitconfig.txt".
Definition envFileName : string := "runnerenv.txt".

Definition crlf : string := String "013" (String "010" "").

Definition renderEnv (env : gmap string string) : string :=
  foldr (λ k s, k +:+ "=" +:+ default "" (env !! k) +:+ crlf +:+ s) "" (sort_strings (map_to_list env).*1).

(** The files [BuildJITISO] puts on the disk. *)
Definition jit_files (jit : string) (env : gmap string string) : gmap string string :=
  if decide (env = ∅) then {[jitFileName := jit]} else <[envFileName := renderEnv env]> {[jitFileName := jit]}.

(** ** QMP *)

(** A reply: its return value if it has one, and its error. *)
Definition decode_error (old : option (string * string)) (v : json) : decoded (option (string * string)) :=
  match v with
  | JNull => (None, true)
  | _ =>
      let '(class, ok1) := field "class" as_string (default ("", "") old).1 v in
      let '(desc, ok2) := field "desc" as_string (default ("", "") old).2 v in
      (Some (class, desc), ok1 && ok2)
  end.
Definition decode_reply (v : json) : decoded (option json * option (string * string)) :=
  let '(ret, ok1) := field "return" (λ _ v, (Some v, true)) None v in
  let '(err, ok2) := field "error" decode_error None v in
  ((ret, err), ok1 && ok2).

Section qmp.
(** The text of a decoding error, the lines the server sends, and what reading
    past them gives. *)
Variable json_error : string → goerror.
Variable eof : goerror.

(** [qmpExecute] after the command is written: events are skipped. *)
Fixpoint qmp_reply (lines : list string) : result json * list string :=
  match lines with
  | [] => (Err eof, [])
  | line :: lines =>
      match parse_json line with
      | None => (Err (json_error line), lines)
      | Some v =>
          let '((ret, err), ok) := decode_reply v in
          if negb ok then (Err (json_error line), lines)
          else match err with
               | Some (class, desc) => (Err (errorf (class +:+ ": " +:+ desc)), lines)
               | None => match ret with
                         | Some r => (Ok r, lines)
                         | None => qmp_reply lines
                         end
               end
      end
  end.

(** [qmpExecute]: the reply, and the lines left. *)
Definition qmpExecute (written : option goerror) (lines : list string) : result json * list string :=
  match written with Some e => (Err e, lines) | None => qmp_reply lines end.

Definition decode_name (v : json) : decoded string := field "name" as_string "" v.

(** [QMPQuitNamed]: the commands it wrote, and its error.  [writes] are the
    outcomes of the three writes. *)
Definition QMPQuitNamed (dial : option goerror) (writes : nat → option goerror) (lines : list string)
    (expectedName : string) : list string * option goerror :=
  match dial with
  | Some e => ([], Some (errorf_w "dial qmp: " e))
  | None =>
      match lines with
      | [] => ([], Some (errorf_w "qmp greeting: " eof))
      | _ :: lines =>
          match qmpExecute (writes 0%nat) lines with
          | (Err e, _) => (["qmp_capabilities"], Some (errorf_w "qmp capabilities: " e))
          | (Ok _, lines) =>
              match qmpExecute (writes 1%nat) lines with
              | (Err e, _) => (["qmp_capabilities"; "query-name"], Some (errorf_w "query qemu name: " e))
              | (Ok raw, lines) =>
                  let '(name, ok) := decode_name raw in
                  if negb ok
                  then (["qmp_capabilities"; "query-name"],
                        Some (errorf_w "decode qemu name: " (json_error (encode_json raw))))
                  else if negb (String.eqb name expectedName)
                  then (["qmp_capabilities"; "query-name"],
                        Some (errorf ("qemu identity mismatch: got " +:+ quote name +:+ ", want " +:+ quote expectedName)))
                  else match qmpExecute (writes 2%nat) lines with
                       | (Err e, _) => (["qmp_capabilities"; "query-name"; "quit"], Some (errorf_w "quit qemu: " e))
                       | (Ok _, _) => (["qmp_capabilities"; "query-name"; "quit"], None)
                       end
              end
          end
      end
  end.
End qmp.

(** ** Upkeep of the golden image *)

Inductive Action := ActionNone | ActionRearm | ActionRebuild.

Record GoldenMeta := MkGoldenMeta {
  CreatedAt : Z;
  EvalDays : Z;
  RearmsUsed : Z;
  MaxRearms : Z;
  Licensed : bool;
  WorkflowsHash : string
}.

Definition day : Z := 24 * 3600 * 10 ^ 9.

(** Times in nanoseconds.  The division is one of floating-point hours; its
    rounding, of less than a microsecond, is left out. *)
Definition DaysLeft (m : GoldenMeta) (now : Z) : Z :=
  if Licensed m then 2 ^ 30 else EvalDays m - Z.quot (now - CreatedAt m) day.

(** [Policy.Decide] *)
Definition Decide (ThresholdDays : Z) (m : GoldenMeta) (wantHash : string) (now : Z) : Action :=
  if negb (is_empty wantHash) && negb (String.eqb wantHash (WorkflowsHash m)) then ActionRebuild
  else if Licensed m then ActionNone
  else if ThresholdDays <=? DaysLeft m now then ActionNone
  else if RearmsUsed m <? MaxRearms m then ActionRearm
  else ActionRebuild.

Definition ApplyRearm (m : GoldenMeta) (now : Z) : GoldenMeta :=
  MkGoldenMeta now (EvalDays m) (RearmsUsed m + 1) (MaxRearms m) (Licensed m) (WorkflowsHash m).
Definition ApplyRebuild (m : GoldenMeta) (now : Z) (wantHash : string) : GoldenMeta :=
  MkGoldenMeta now (EvalDays m) 0 (MaxRearms m) (Licensed m) wantHash.

(** A golden image and what is needed to bake it again. *)
Record GoldenRef := MkGoldenRef { ref_Golden : string; ref_WindowsISO : string; ref_WorkflowsHash : string }.

(** [CheckOnce]: the actions it takes, given each image's metadata.  What an
    action returns is only logged. *)
Definition CheckOnce (ThresholdDays now : Z) (load : string → result GoldenMeta) (refs : list GoldenRef)
    : list (Action * string) :=
  mbind (λ ref,
    match load (ref_Golden ref) with
    | Err _ => []
    | Ok meta =>
        if EvalDays meta =? 0 then []
        else match Decide ThresholdDays meta (ref_WorkflowsHash ref) now with
             | ActionNone => []
             | ActionRearm => [(ActionRearm, ref_Golden ref)]
             | ActionRebuild => if is_empty (ref_WindowsISO ref) then [] else [(ActionRebuild, ref_Golden ref)]
             end
    end) refs.
