(* ===== verification/QemuBackend.v ===== *)
(** * The QEMU backend

    [internal/winvm/backend.go]: runners as virtual machines.  A launch writes
    a record of the machine to the work directory before it makes anything
    else, and again when QEMU runs; whoever finds a record later can tell
    whether its machine still runs, stop it, and remove what it left.  Calls,
    machines and the watchers of handles are threads over the work directory
    (file names to contents), the running machines, the closed handles and a
    trace.  A process that dies is a thread that takes no further step, and
    later calls are those of its successor, so a theorem about all
    interleavings is one about crashes.  The path of a file of the work
    directory is its name; [filepath.Abs], [Lstat] and [EvalSymlinks] answer as
    the environment says. *)

From S2P Require Import Prelude GoErr GoStr Codec Sha256 Json Filepath Backend Qemu Threads.

Local Open Scope Z_scope.
Local Open Scope go_scope.

(** ** Records *)

Record runnerRecord := MkRunnerRecord {
  rr_Name : string;
  rr_Ownership : RunnerOwnership;
  rr_QMPAddr : string;
  rr_PID : Z;
  rr_PIDFile : string;
  rr_Overlay : string;
  rr_ISO : string;
  rr_Vars : string;
  rr_Serial : string;
  rr_Started : bool
}.

Definition ownership_json (o : RunnerOwnership) : json :=
  JObj [("Instance", JStr (own_Instance o)); ("Target", JStr (own_Target o)); ("Pool", JStr (own_Pool o));
        ("ScaleSetID", JNum (format_int (own_ScaleSetID o))); ("RunnerID", JNum (format_int (own_RunnerID o)))].

Definition record_json (r : runnerRecord) : json :=
  JObj ([("name", JStr (rr_Name r)); ("ownership", ownership_json (rr_Ownership r)); ("qmpAddr", JStr (rr_QMPAddr r))] ++
        (if rr_PID r =? 0 then [] else [("pid", JNum (format_int (rr_PID r)))]) ++
        [("pidFile", JStr (rr_PIDFile r)); ("overlay", JStr (rr_Overlay r)); ("iso", JStr (rr_ISO r))] ++
        (if is_empty (rr_Vars r) then [] else [("vars", JStr (rr_Vars r))]) ++
        [("serial", JStr (rr_Serial r)); ("started", JBool (rr_Started r))]).

Definition record_text (r : runnerRecord) : string := encode_json (record_json r).

Definition decode_ownership (old : RunnerOwnership) (v : json) : decoded RunnerOwnership :=
  let '(instance, ok1) := field "Instance" as_string (own_Instance old) v in
  let '(target, ok2) := field "Target" as_string (own_Target old) v in
  let '(pool, ok3) := field "Pool" as_string (own_Pool old) v in
  let '(scale_set, ok4) := field "ScaleSetID" as_int (own_ScaleSetID old) v in
  let '(runner, ok5) := field "RunnerID" as_int (own_RunnerID old) v in
  (Ownership instance target pool scale_set runner, ok1 && ok2 && ok3 && ok4 && ok5).

Definition decode_record (v : json) : decoded runnerRecord :=
  let '(name, ok1) := field "name" as_string "" v in
  let '(own, ok2) := field "ownership" decode_ownership no_ownership v in
  let '(addr, ok3) := field "qmpAddr" as_string "" v in
  let '(pid, ok4) := field "pid" as_int 0 v in
  let '(pidfile, ok5) := field "pidFile" as_string "" v in
  let '(overlay, ok6) := field "overlay" as_string "" v in
  let '(iso, ok7) := field "iso" as_string "" v in
  let '(vars, ok8) := field "vars" as_string "" v in
  let '(serial, ok9) := field "serial" as_string "" v in
  let '(started, ok10) := field "started" as_bool false v in
  (MkRunnerRecord name own addr pid pidfile overlay iso vars serial started,
   ok1 && ok2 && ok3 && ok4 && ok5 && ok6 && ok7 && ok8 && ok9 && ok10).

(** [readRunnerRecord] of a file's content. *)
Definition parse_record (json_error : string → goerror) (data : string) : result runnerRecord :=
  match parse_json data with
  | None => Err (json_error data)
  | Some v => let '(r, ok) := decode_record v in if ok : bool then Ok r else Err (json_error data)
  end.

(** ** Names *)

Definition portableBaseName (name : string) : bool :=
  negb (is_empty name || String.eqb name "." || String.eqb name ".." || contains_any name "/\:" || has_prefix "/" name).

(** The first eight bytes of the digest, in hexadecimal. *)
Definition ownershipNamespace (o : RunnerOwnership) : string :=
  hex_encode (str_take 8 (sha256 (own_Instance o +:+ String "000" (own_Target o +:+ String "000" (own_Pool o))))).

Definition runnerRecordName (name : string) (o : RunnerOwnership) : string :=
  if IsZero o then name +:+ ".runner.json" else ownershipNamespace o +:+ "." +:+ name +:+ ".runner.json".

Definition ownershipMatches (actual expected : RunnerOwnership) : bool :=
  String.eqb (own_Instance actual) (own_Instance expected) &&
  String.eqb (own_Target actual) (own_Target expected) &&
  String.eqb (own_Pool actual) (own_Pool expected).

(** The files of a runner, in the order they are removed. *)
Definition artifacts (r : runnerRecord) : list string := [rr_Overlay r; rr_ISO r; rr_Vars r; rr_Serial r; rr_PIDFile r].

(** The record of a launch. *)
Definition launch_record (req : LaunchRequest) (qmpAddr : string) : runnerRecord :=
  let n := req_Name req in
  MkRunnerRecord n (req_Ownership req) qmpAddr 0 (n +:+ ".pid") (n +:+ ".qcow2") (n +:+ ".iso") (n +:+ ".vars.fd")
    (n +:+ ".qcow2.serial.log") false.
Definition started_record (r : runnerRecord) (pid : Z) : runnerRecord :=
  MkRunnerRecord (rr_Name r) (rr_Ownership r) (rr_QMPAddr r) pid (rr_PIDFile r) (rr_Overlay r) (rr_ISO r) (rr_Vars r)
    (rr_Serial r) true.

Definition slirpHost : string := "10.0.2.2".

(** ** The shared state *)

(** What the calls and machines observe: a launch claims its record name and
    writes the record, a step of it fails, QEMU starts, the record names the
    process, a removal reads the record, removes a file or the record, a
    machine ends. *)
Inductive obs :=
| OClaim (k name : string)
| OReserved (k : string) (r : runnerRecord)
| OFailed (k : string)
| OStarted (k : string) (pid : Z)
| ORecorded (k : string) (r : runnerRecord)
| ORead (k : string)
| OCleared (k name : string)
| ORemoved (k : string)
| OExited (k : string).

#[export] Instance ownership_eq_dec : EqDecision RunnerOwnership.
Proof. solve_decision. Defined.

Record machine := MkMachine { vm_key : string; vm_name : string }.

(** How waiting for a process ends. *)
Inductive wait_status := WaitOk | WaitExit (code : Z) | WaitFailed (err : goerror).

Record World := MkWorld {
  disk : gmap string string;
  vms : gmap Z machine;
  handles : gmap Z (wait_status * option goerror);
  trace : list obs
}.

Definition New : World := MkWorld ∅ ∅ ∅ [].

Record answers := {
  an_err : option goerror;
  an_ctx : option goerror;
  an_addr : string;
  an_file : string;
  an_leaves : bool;
  an_exists : string → bool;
  an_pid : Z;
  an_alive : bool;
  an_wait : wait_status;
  an_abs : result string;
  an_lstat : option goerror;
  an_link : string → result string;
  an_dial : option goerror;
  an_writes : nat → option goerror;
  an_lines : list string
}.

Inductive thread :=
| TLaunch (req : LaunchRequest)
| TMachine (pid : Z)
| TWatch (pid : Z) (id : string) (cleans : bool)
| TWait (pid : Z)
| TKill (pid : Z)
| TList (o : RunnerOwnership)
| TRemove (id : string)
| TCleanupOrphans.

Definition proc (A : Type) : Type := prog World answers thread A.
Definition step {R} (f : answers → World → option (R * World)) : proc R :=
  atomically (λ env w, match f env w with Some (r, w) => Some (r, w, []) | None => None end).

Definition set_disk (d : gmap string string) (w : World) : World := MkWorld d (vms w) (handles w) (trace w).
Definition set_vms (v : gmap Z machine) (w : World) : World := MkWorld (disk w) v (handles w) (trace w).
Definition set_handles (h : gmap Z (wait_status * option goerror)) (w : World) : World :=
  MkWorld (disk w) (vms w) h (trace w).
Definition emit (o : obs) (w : World) : World := MkWorld (disk w) (vms w) (handles w) (o :: trace w).
Definition put (name content : string) (w : World) : World := set_disk (<[name := content]> (disk w)) w.
Definition unlink (name : string) (w : World) : World := set_disk (delete name (disk w)) w.

Section backend.
(** The text of decoding errors, what a QMP connection that ends gives, the
    parser of URLs, and the writer of ISO images. *)
Variable json_error : string → goerror.
Variable eof : goerror.
Variable url_parse : string → option parsed_url.
Variable iso_image : string → gmap string string → string.
(** The options of the backend: the golden image, the UEFI firmware found, the
    arguments of QEMU for an overlay, and the outcome of the lookup of paths. *)
Variable Golden ovmfCode accel vnc WorkDir QEMUBin ImgBin : string.
Variable MemMB CPUs : Z.

(** ** Paths *)

(** [containedRunnerPath]: a plain name in the work directory, which does not
    lead out of it through a link. *)
Definition containedRunnerPath (env : answers) (w : World) (name : string) : result string :=
  if negb (portableBaseName name) then Err (errorf "must be a portable basename")
  else
    match an_abs env with
    | Err e => Err (errorf_w "resolve work directory: " e)
    | Ok root =>
        let candidate := Join root name in
        match disk w !! name with
        | None => Ok candidate
        | Some _ =>
            match an_lstat env with
            | Some e => Err (errorf_w "inspect path: " e)
            | None =>
                match an_link env root with
                | Err e => Err (errorf_w "resolve work directory links: " e)
                | Ok canonicalRoot =>
                    match an_link env candidate with
                    | Err e => Err (errorf_w "resolve path links: " e)
                    | Ok canonicalCandidate =>
                        match Rel canonicalRoot canonicalCandidate with
                        | Err _ => Err (errorf "canonical path escapes work directory")
                        | Ok relative =>
                            if has_prefix "/" relative || String.eqb relative ".." || has_prefix "../" relative
                            then Err (errorf "canonical path escapes work directory")
                            else Ok candidate
                        end
                    end
                end
            end
        end
    end.

Definition runnerArtifactPath (env : answers) (w : World) (name : string) : result string :=
  match containedRunnerPath env w name with
  | Err e => Err (errorf_w ("invalid qemu artifact name " +:+ quote name +:+ ": ") e)
  | Ok path => Ok path
  end.

(** ** Removal *)

(** The steps that can fail, of which the last replaces the file. *)
Definition writeRunnerRecord (o : obs) (k : string) (r : runnerRecord) : proc (option goerror) :=
  step (λ env w,
    match an_err env with
    | Some e => Some (Some e, w)
    | None => Some (None, emit o (put k (record_text r) w))
    end).

(** One pass of [removeRunnerArtifacts]. *)
Definition remove_artifact (k name : string) : proc (option goerror) :=
  step (λ env w,
    match runnerArtifactPath env w name with
    | Err e => Some (Some e, w)
    | Ok _ =>
        match disk w !! name with
        | None => Some (None, w)
        | Some _ =>
            match an_err env with
            | Some e => if errors_is "os.ErrNotExist" e then Some (None, w)
                        else Some (Some (errorf_w ("remove qemu artifact " +:+ name +:+ ": ") e), w)
            | None => Some (None, emit (OCleared k name) (unlink name w))
            end
        end
    end).

Fixpoint remove_all (k : string) (names : list string) (errs : list (option goerror)) : proc (list (option goerror)) :=
  match names with
  | [] => Ret errs
  | name :: names =>
      if is_empty name then remove_all k names errs
      else let* err := remove_artifact k name in remove_all k names (errs ++ [err])
  end.

Definition removeRunnerArtifacts (k : string) (r : runnerRecord) : proc (option goerror) :=
  let* errs := remove_all k (artifacts r) [] in Ret (errors_join errs).

Definition remove_record_file (k : string) : proc (option goerror) :=
  step (λ env w,
    match disk w !! k with
    | None => Some (None, w)
    | Some _ =>
        match an_err env with
        | Some e => if errors_is "os.ErrNotExist" e then Some (None, w)
                    else Some (Some (errorf_w "remove qemu runner record: " e), w)
        | None => Some (None, emit (ORemoved k) (unlink k w))
        end
    end).

Definition removeRunnerRecord (k : string) (r : runnerRecord) : proc (option goerror) :=
  let* err := removeRunnerArtifacts k r in
  match err with Some e => Ret (Some e) | None => remove_record_file k end.

(** [readRunnerRecord] of file [k]: [Ok None] when it does not exist. *)
Definition readRunnerRecord (k : string) : proc (result (option runnerRecord)) :=
  step (λ env w,
    match disk w !! k with
    | None => Some (Ok None, w)
    | Some data =>
        match an_err env with
        | Some e => Some ((if errors_is "os.ErrNotExist" e then Ok None else Err e), w)
        | None => Some ((match parse_record json_error data with Err e => Err e | Ok r => Ok (Some r) end), emit (ORead k) w)
        end
    end).

(** [runnerPID] *)
Definition runnerPID (r : runnerRecord) : proc (result Z) :=
  if is_empty (rr_PIDFile r) then Ret (Ok (rr_PID r))
  else
    step (λ env w,
      match runnerArtifactPath env w (rr_PIDFile r) with
      | Err e => Some (Err e, w)
      | Ok _ =>
          match disk w !! rr_PIDFile r with
          | None => Some (Ok (rr_PID r), w)
          | Some data =>
              match an_err env with
              | Some e => Some ((if errors_is "os.ErrNotExist" e then Ok (rr_PID r)
                                 else Err (errorf_w "read qemu pid file: " e)), w)
              | None =>
                  match parse_int (trim_space data) with
                  | Some value => if value <=? 0 then Some (Err (errorf ("invalid qemu pid file " +:+ rr_PIDFile r)), w)
                                  else Some (Ok value, w)
                  | None => Some (Err (errorf ("invalid qemu pid file " +:+ rr_PIDFile r)), w)
                  end
              end
          end
      end).

(** Whether process [pid] exists: a machine of this backend, or another
    process that has its number. *)
Definition alive (env : answers) (w : World) (pid : Z) : bool :=
  match vms w !! pid with Some _ => true | None => an_alive env end.

Definition processAlive (pid : Z) : proc (result bool) :=
  step (λ env w, match an_err env with Some e => Some (Err e, w) | None => Some (Ok (alive env w pid), w) end).

(** The machine that answers decides when it ends. *)
Definition quitNamed (name : string) : proc (option goerror) :=
  step (λ env w, Some ((QMPQuitNamed json_error eof (an_dial env) (an_writes env) (an_lines env) name).2, w)).

(** [waitForProcessExit]: the polls are one action, taken when the process is
    gone, its state cannot be read, or the context is done. *)
Definition waitForProcessExit (pid : Z) : proc (option goerror) :=
  step (λ env w,
    match an_err env with
    | Some e => Some (Some e, w)
    | None => if negb (alive env w pid) then Some (None, w)
              else match an_ctx env with Some e => Some (Some e, w) | None => None end
    end).

Definition contained_record (id : string) : proc (option goerror) :=
  step (λ env w, match containedRunnerPath env w id with Err e => Some (Some e, w) | Ok _ => Some (None, w) end).

Definition RemoveOwnedRunner (id : string) : proc (option goerror) :=
  if negb (has_suffix ".runner.json" id) then Ret (Some (errorf ("invalid qemu runner resource ID " +:+ quote id)))
  else
    let* err := contained_record id in
    match err with
    | Some e => Ret (Some (errorf_w ("invalid qemu runner resource ID " +:+ quote id +:+ ": ") e))
    | None =>
        let* read := readRunnerRecord id in
        match read with
        | Ok None => Ret None
        | Err e => Ret (Some (errorf_w "read qemu runner record: " e))
        | Ok (Some r) =>
            let* pid := runnerPID r in
            match pid with
            | Err e => Ret (Some e)
            | Ok pid =>
                if negb (pid =? 0) then
                  let* running := processAlive pid in
                  match running with
                  | Err e => Ret (Some (errorf_w ("inspect qemu process " +:+ format_int pid +:+ ": ") e))
                  | Ok false => removeRunnerRecord id r
                  | Ok true =>
                      let* err := quitNamed (rr_Name r) in
                      match err with
                      | Some e => Ret (Some (errorf_w ("stop owned qemu " +:+ rr_Name r +:+ ": ") e))
                      | None =>
                          let* err := waitForProcessExit pid in
                          match err with
                          | Some e => Ret (Some (errorf_w ("wait for owned qemu " +:+ rr_Name r +:+ ": ") e))
                          | None => removeRunnerRecord id r
                          end
                      end
                  end
                else if rr_Started r
                then Ret (Some (errorf ("qemu runner record " +:+ id +:+ " has no process identity")))
                else removeRunnerRecord id r
            end
        end
    end.

(** ** Listing *)

(** The pattern of [ListOwnedRunners], whose star stands for any text. *)
Definition record_of_namespace (ns name : string) : bool :=
  has_prefix (ns +:+ ".") name && has_suffix ".runner.json" name &&
  (String.length ns + 1 + 12 <=? String.length name)%nat.

Definition glob (matches : string → bool) (w : World) : list string :=
  filter (λ n, matches n = true) (sort_strings (map_to_list (disk w)).*1).

Definition glob_records (ns : string) : proc (list string) :=
  step (λ _ w, Some (glob (record_of_namespace ns) w, w)).

Definition read_listed (k : string) : proc (result runnerRecord) :=
  step (λ env w,
    match disk w !! k with
    | None => Some (Err err_not_exist, w)
    | Some data => match an_err env with Some e => Some (Err e, w) | None => Some (parse_record json_error data, w) end
    end).

Fixpoint list_records (o : RunnerOwnership) (paths : list string) (owned : list OwnedRunner)
    : proc (result (list OwnedRunner)) :=
  match paths with
  | [] => Ret (Ok owned)
  | path :: paths =>
      let* read := read_listed path in
      match read with
      | Err e => Ret (Err (errorf_w ("read qemu runner record " +:+ path +:+ ": ") e))
      | Ok r =>
          if negb (ownershipMatches (rr_Ownership r) o) then list_records o paths owned
          else if is_empty (rr_Name r) || (own_RunnerID (rr_Ownership r) =? 0)
          then Ret (Err (errorf ("qemu runner record " +:+ path +:+ " is incomplete")))
          else list_records o paths (owned ++ [MkOwnedRunner path (rr_Name r) (own_RunnerID (rr_Ownership r))])
      end
  end.

Definition ListOwnedRunners (o : RunnerOwnership) : proc (result (list OwnedRunner)) :=
  if bool_decide (ownership_Validate o ≠ None) || IsZero o
  then Ret (Err (errorf "qemu: complete runner ownership is required"))
  else let* paths := glob_records (ownershipNamespace o) in list_records o paths [].

(** ** Launch *)

Definition vmEnv (env : gmap string string) : gmap string string := RewriteCacheHost url_parse env slirpHost.

(** A step of a launch without effect on the work directory. *)
Definition attempt : proc (option goerror) := step (λ env w, Some (an_err env, w)).
Definition reserveLoopbackAddress : proc (result string) :=
  step (λ env w, Some ((match an_err env with Some e => Err e | None => Ok (an_addr env) end), w)).

(** A tool that writes a file; one that fails may leave part of it. *)
Definition tool (k name : string) (content : answers → string) : proc (option goerror) :=
  step (λ env w,
    match an_err env with
    | None => Some (None, put name (content env) w)
    | Some e => Some (Some e, emit (OFailed k) (if an_leaves env then put name (an_file env) w else w))
    end).

Definition GoldenVarsPath : string := Golden +:+ ".vars.fd".

(** The lookup of the golden image's NVRAM. *)
Definition stat_vars : proc bool := step (λ env w, Some (an_exists env GoldenVarsPath, w)).

(** [cmd.Start]: a machine under a process number that no other one has. *)
Definition start_qemu (k name : string) : proc (result Z) :=
  atomically (λ env w,
    match an_err env with
    | Some e => Some (Err e, emit (OFailed k) w, [])
    | None =>
        let pid := an_pid env in
        match vms w !! pid with
        | Some _ => None
        | None => if pid <=? 0 then None
                  else Some (Ok pid, emit (OStarted k pid) (set_vms (<[pid := MkMachine k name]> (vms w)) w), [TMachine pid])
        end
    end).

(** [cmd.Process.Kill] only asks; [cmd.Wait] returns when the machine ended. *)
Definition wait_machine (pid : Z) : proc wait_status :=
  step (λ env w, match vms w !! pid with Some _ => None | None => Some (an_wait env, w) end).

Definition join_failed (e : goerror) (cleanup : option goerror) : result string :=
  match errors_join [Some e; cleanup] with Some e => Err e | None => Err e end.

Definition launch_opts (n qmpAddr : string) (fw : Firmware) : LaunchOpts :=
  MkLaunchOpts (Join WorkDir (n +:+ ".qcow2")) (Join WorkDir (n +:+ ".iso")) n qmpAddr (Join WorkDir (n +:+ ".pid"))
    MemMB CPUs accel fw.

(** The NVRAM of the machine: [None] when the copy failed. *)
Definition copy_vars (k n : string) : proc (result Firmware) :=
  if is_empty ovmfCode then Ret (Ok no_firmware)
  else
    let* there := stat_vars in
    if there : bool then
      let* err := tool k (n +:+ ".vars.fd") an_file in
      match err with
      | Some e => Ret (Err e)
      | None => Ret (Ok (MkFirmware ovmfCode (Join WorkDir (n +:+ ".vars.fd"))))
      end
    else Ret (Ok no_firmware).

Definition newVMHandle (pid : Z) (id : string) (cleans : bool) : proc string :=
  atomically (λ _ w, Some (id, w, [TWatch pid id cleans])).

(** [Launch], after its checks, for record [k]; with the commands it ran. *)
Definition launch (k : string) (req : LaunchRequest) : proc (result string * list (list string)) :=
  let n := req_Name req in
  let img := ImgBin :: OverlayCreateArgs Golden (Join WorkDir (n +:+ ".qcow2")) in
  let* err := attempt in
  match err with
  | Some e => Ret (Err e, [])
  | None =>
      let* addr := reserveLoopbackAddress in
      match addr with
      | Err e => Ret (Err (errorf_w "reserve qmp endpoint: " e), [])
      | Ok qmpAddr =>
          let r := launch_record req qmpAddr in
          let* err := writeRunnerRecord (OReserved k r) k r in
          match err with
          | Some e => Ret (Err (errorf_w "write runner ownership: " e), [])
          | None =>
              let failed ran e := let* c := removeRunnerRecord k r in Ret (join_failed e c, ran) in
              let* err := tool k (n +:+ ".qcow2") an_file in
              match err with
              | Some e => failed [img] (errorf_w "create overlay: " e)
              | None =>
                  let* err := tool k (n +:+ ".iso")
                                (λ _, iso_image "MRJIT" (jit_files (EncodedJITConfig req)
                                                           (vmEnv (req_Env req)))) in
                  match err with
                  | Some e => failed [img] (errorf_w "build jit iso: " e)
                  | None =>
                      let* fw := copy_vars k n in
                      match fw with
                      | Err e => failed [img] (errorf_w "copy nvram: " e)
                      | Ok fw =>
                          let ran := [img; QEMUBin :: QEMUArgs vnc (launch_opts n qmpAddr fw)] in
                          let* pid := start_qemu k n in
                          match pid with
                          | Err e => failed [img] (errorf_w "start qemu: " e)
                          | Ok pid =>
                              let r := started_record r pid in
                              let* err := writeRunnerRecord (ORecorded k r) k r in
                              match err with
                              | Some e =>
                                  let* _ := wait_machine pid in
                                  let* c := removeRunnerRecord k r in
                                  Ret (join_failed (errorf_w "record qemu process: " e) c, ran)
                              | None =>
                                  let* id := newVMHandle pid k (IsZero (req_Ownership req)) in
                                  Ret (Ok id, ran)
                              end
                          end
                      end
                  end
              end
          end
      end
  end.

Definition Launch (req : LaunchRequest) : proc (result string * list (list string)) :=
  match ownership_Validate (req_Ownership req) with
  | Some e => Ret (Err (errorf_w "qemu: " e), [])
  | None =>
      if negb (IsZero (req_Ownership req)) && (own_RunnerID (req_Ownership req) =? 0)
      then Ret (Err (errorf "qemu: runner ID is required for owned launches"), [])
      else if negb (portableBaseName (req_Name req))
      then Ret (Err (errorf ("invalid qemu runner name " +:+ quote (req_Name req))), [])
      else launch (runnerRecordName (req_Name req) (req_Ownership req)) req
  end.

(** ** Handles *)

(** The goroutine of [newVMHandle]. *)
Definition watch (pid : Z) (id : string) (cleans : bool) : proc unit :=
  let* status := wait_machine pid in
  let* err := (if cleans then RemoveOwnedRunner id else Ret None) in
  step (λ _ w, Some (tt, set_handles (<[pid := (status, err)]> (handles w)) w)).

(** [vmHandle.Wait]; when the context is done as well, either may be seen. *)
Definition Handle_Wait (pid : Z) : proc (Z * option goerror) :=
  step (λ env w,
    match an_ctx env, handles w !! pid with
    | Some e, _ => Some ((-1, Some e), w)
    | None, Some (WaitOk, cleanupErr) => Some ((0, cleanupErr), w)
    | None, Some (WaitExit code, cleanupErr) => Some ((code, cleanupErr), w)
    | None, Some (WaitFailed e, cleanupErr) => Some ((-1, errors_join [Some e; cleanupErr]), w)
    | None, None => None
    end).

(** [vmHandle.Kill]; [killMu] only keeps two of them from overlapping. *)
Definition Handle_Kill (pid : Z) : proc (option goerror) :=
  let* err := attempt in
  match match err with Some e => if errors_is "os.ErrProcessDone" e then None else Some e | None => None end with
  | Some e => Ret (Some (errorf_w "kill qemu: " e))
  | None =>
      step (λ env w,
        match an_ctx env, handles w !! pid with
        | Some e, _ => Some (Some (errorf_w "wait for qemu exit: " e), w)
        | None, Some (WaitFailed e, cleanupErr) =>
            Some (errors_join [Some (errorf_w "wait for qemu exit: " e); cleanupErr], w)
        | None, Some (_, cleanupErr) => Some (errors_join [cleanupErr], w)
        | None, None => None
        end)
  end.

(** ** Start-up *)

Definition remove_file (name : string) : proc unit :=
  step (λ env w, match an_err env with Some _ => Some (tt, w) | None => Some (tt, unlink name w) end).

Definition remove_matches (matches : string → bool) : proc unit :=
  let* paths := step (λ _ w, Some (glob matches w, w)) in
  pfold (λ _ p, let* _ := remove_file p in Ret (false, tt)) tt paths.

Definition CleanupOrphans : proc unit :=
  pfold (λ _ pat, let* _ := remove_matches (has_suffix pat) in Ret (false, tt)) tt
    [".qcow2"; ".iso"; ".vars.fd"; ".serial.log"].

(** ** The threads *)

(** A launch under a name that was used before is left out: the launchers draw
    the names at random. *)
Definition used (k n : string) (tr : list obs) : bool :=
  existsb (λ o, match o with OClaim k' n' => String.eqb k' k || String.eqb n' n | _ => false end) tr.
Definition claim (k n : string) : proc unit :=
  step (λ _ w, if used k n (trace w) then None else Some (tt, emit (OClaim k n) w)).

(** The name is not used again after a launch that started nothing. *)
Definition conclude (k : string) : proc unit :=
  step (λ _ w,
    if existsb (λ o, match o with OStarted k' _ | OFailed k' => String.eqb k' k | _ => false end) (trace w)
    then Some (tt, w) else Some (tt, emit (OFailed k) w)).

(** A QEMU process: it writes its process number to its file, as [-pidfile]
    asks, and ends when it likes, with or without removing the file. *)
Definition write_pid (pid : Z) : proc unit :=
  step (λ _ w, match vms w !! pid with
               | Some m => Some (tt, put (vm_name m +:+ ".pid") (format_int pid +:+ String "010" "") w)
               | None => None
               end).
Definition exit_machine (pid : Z) : proc unit :=
  step (λ env w, match vms w !! pid with
                 | Some m => Some (tt, emit (OExited (vm_key m))
                               (set_vms (delete pid (vms w)) (if an_leaves env then w else unlink (vm_name m +:+ ".pid") w)))
                 | None => None
                 end).

Definition body (t : thread) : proc unit :=
  match t with
  | TLaunch req => let k := runnerRecordName (req_Name req) (req_Ownership req) in
                   let* _ := claim k (req_Name req) in let* _ := Launch req in conclude k
  | TMachine pid => let* _ := write_pid pid in exit_machine pid
  | TWatch pid id cleans => watch pid id cleans
  | TWait pid => let* _ := Handle_Wait pid in Ret tt
  | TKill pid => let* _ := Handle_Kill pid in Ret tt
  | TList o => let* _ := ListOwnedRunners o in Ret tt
  | TRemove id => let* _ := RemoveOwnedRunner id in Ret tt
  | TCleanupOrphans => CleanupOrphans
  end.
End backend.

(** The calls from outside; the numbers of a request fit their Go types. *)
Definition call (t : thread) : Prop :=
  match t with
  | TMachine _ | TWatch _ _ _ => False
  | TLaunch req => int64_min ≤ own_ScaleSetID (req_Ownership req) ≤ int64_max ∧
                   int64_min ≤ own_RunnerID (req_Ownership req) ≤ int64_max
  | _ => True
  end.
