(* ===== verification/QemuBackendSpec.v ===== *)
(** * What the QEMU backend promises

    In every interleaving of launches, removals, listings, clean-ups and
    machines, with any failures and with any of the calls stopped anywhere: a
    machine that runs has a record in the work directory, and its files and
    record are removed only when it has ended or was never started - unless a
    removal read the record before the launch had put the process number into
    it, which only a crash between the two makes possible. *)

From S2P Require Import Prelude GoErr GoStr Codec Sha256 Json JsonInt Filepath Backend Qemu Threads Accounts QemuBackend.

Local Open Scope Z_scope.

(** ** Histories *)

Definition claimed (k : string) (tr : list obs) : bool :=
  existsb (λ o, match o with OClaim k' _ => String.eqb k' k | _ => false end) tr.
Definition started (k : string) (tr : list obs) : bool :=
  existsb (λ o, match o with OStarted k' _ => String.eqb k' k | _ => false end) tr.
Definition failed (k : string) (tr : list obs) : bool :=
  existsb (λ o, match o with OFailed k' => String.eqb k' k | _ => false end) tr.
Definition recorded (k : string) (tr : list obs) : bool :=
  existsb (λ o, match o with ORecorded k' _ => String.eqb k' k | _ => false end) tr.

(** The launch of [k] may still start its machine. *)
Definition pending (k : string) (tr : list obs) : bool := claimed k tr && negb (started k tr) && negb (failed k tr).

(** A removal read the record before the launch had recorded the process. *)
Fixpoint hasty (k : string) (tr : list obs) : bool :=
  match tr with
  | [] => false
  | ORead k' :: tr => (String.eqb k' k && negb (recorded k tr)) || hasty k tr
  | _ :: tr => hasty k tr
  end.

Fixpoint last_record (k : string) (tr : list obs) : option runnerRecord :=
  match tr with
  | [] => None
  | (OReserved k' r | ORecorded k' r) :: tr => if String.eqb k' k then Some r else last_record k tr
  | _ :: tr => last_record k tr
  end.

(** The machine of [k] has ended or never started, or its removal was hasty. *)
Definition settled (k : string) (tr : list obs) : Prop := hasty k tr = true ∨ OExited k ∈ tr ∨ OFailed k ∈ tr.

Definition record_file (name : string) : bool := has_suffix ".runner.json" name.

(** The records a launch writes: they can be read again, and name the files of
    their runner. *)
Definition wf_record (r : runnerRecord) : Prop :=
  (∀ json_error, parse_record json_error (record_text r) = Ok r) ∧ rr_PIDFile r = rr_Name r +:+ ".pid" ∧
  Forall (λ n, record_file n = false) (artifacts r).

Definition allowed (o : obs) (tr : list obs) : Prop :=
  match o with
  | OClaim k n => used k n tr = false ∧ record_file k = true
  | OReserved k r => pending k tr = true ∧ OClaim k (rr_Name r) ∈ tr ∧ wf_record r ∧ rr_PID r = 0 ∧ rr_Started r = false
  | OFailed k => pending k tr = true
  | OStarted k p => pending k tr = true ∧ 0 < p < 2 ^ 31 ∧ is_Some (last_record k tr)
  | ORecorded k r => OStarted k (rr_PID r) ∈ tr ∧ OClaim k (rr_Name r) ∈ tr ∧ wf_record r ∧ rr_Started r = true
  | OCleared k _ | ORemoved k => settled k tr
  | OExited k => started k tr = true
  | ORead _ => True
  end.
Fixpoint legal (tr : list obs) : Prop := match tr with [] => True | o :: tr => allowed o tr ∧ legal tr end.

Lemma happens_spec (f : obs → bool) tr : existsb f tr = true ↔ ∃ o, o ∈ tr ∧ f o = true.
Proof. rewrite existsb_exists. by setoid_rewrite list_elem_of_In. Qed.

Lemma started_spec k tr : started k tr = true ↔ ∃ p, OStarted k p ∈ tr.
Proof.
  unfold started. rewrite happens_spec. split; [|intros [p Hp]; exists (OStarted k p); by rewrite String.eqb_refl].
  intros ([] & Ho & E); try done. apply String.eqb_eq in E as ->. eauto.
Qed.

Lemma failed_spec k tr : failed k tr = true ↔ OFailed k ∈ tr.
Proof.
  unfold failed. rewrite happens_spec. split; [|intros Hp; exists (OFailed k); by rewrite String.eqb_refl].
  intros ([] & Ho & E); try done. by apply String.eqb_eq in E as ->.
Qed.

Lemma claimed_spec k tr : claimed k tr = true ↔ ∃ n, OClaim k n ∈ tr.
Proof.
  unfold claimed. rewrite happens_spec. split; [|intros [n Hp]; exists (OClaim k n); by rewrite String.eqb_refl].
  intros ([] & Ho & E); try done. apply String.eqb_eq in E as ->. eauto.
Qed.

Lemma pending_spec k tr : pending k tr = true ↔
  claimed k tr = true ∧ (∀ p, OStarted k p ∉ tr) ∧ OFailed k ∉ tr.
Proof.
  unfold pending. rewrite !andb_true_iff, !negb_true_iff, <- !not_true_iff_false, started_spec, failed_spec. naive_solver.
Qed.

Lemma used_false k n tr : used k n tr = false → (∀ n', OClaim k n' ∉ tr) ∧ ∀ k', OClaim k' n ∉ tr.
Proof.
  unfold used. rewrite <- not_true_iff_false, happens_spec. intros H. split; intros x Hx; apply H; eexists; (split; [exact Hx|]);
    cbn; by rewrite String.eqb_refl, ?orb_true_r.
Qed.

Lemma legal_suffix later tr : legal (later ++ tr) → legal tr.
Proof. induction later as [|o later IH]; [done|]. intros [_ H]. by apply IH. Qed.

(** What must have been allowed when it happened. *)
Lemma legal_at o tr : legal tr → o ∈ tr → ∃ later earlier, tr = later ++ o :: earlier ∧ allowed o earlier.
Proof.
  intros Hl (later & earlier & ->)%list_elem_of_split. exists later, earlier. split; [done|].
  apply legal_suffix in Hl. apply Hl.
Qed.

Lemma started_once k p p' tr : legal tr → OStarted k p ∈ tr → OStarted k p' ∈ tr → p = p'.
Proof.
  induction tr as [|o tr IH]; [by intros _ ?%elem_of_nil|]. intros [Ho Hl] H H'.
  apply elem_of_cons in H as [<-|H], H' as [E|H']; try congruence; [| |by apply IH].
  - destruct Ho as [(_ & Hn & _)%pending_spec _]. by destruct (Hn p').
  - subst o. destruct Ho as [(_ & Hn & _)%pending_spec _]. by destruct (Hn p).
Qed.

Lemma claimed_once k n n' tr : legal tr → OClaim k n ∈ tr → OClaim k n' ∈ tr → n = n'.
Proof.
  induction tr as [|o tr IH]; [by intros _ ?%elem_of_nil|]. intros [Ho Hl] H H'.
  apply elem_of_cons in H as [<-|H], H' as [E|H']; try congruence; [| |by apply IH].
  - destruct Ho as [[Hn _]%used_false _]. by destruct (Hn n').
  - subst o. destruct Ho as [[Hn _]%used_false _]. by destruct (Hn n).
Qed.

Lemma claimed_by_one k k' n tr : legal tr → OClaim k n ∈ tr → OClaim k' n ∈ tr → k = k'.
Proof.
  induction tr as [|o tr IH]; [by intros _ ?%elem_of_nil|]. intros [Ho Hl] H H'.
  apply elem_of_cons in H as [<-|H], H' as [E|H']; try congruence; [| |by apply IH].
  - destruct Ho as [[_ Hn]%used_false _]. by destruct (Hn k').
  - subst o. destruct Ho as [[_ Hn]%used_false _]. by destruct (Hn k).
Qed.

Lemma failed_not_started k p tr : legal tr → OFailed k ∈ tr → OStarted k p ∉ tr.
Proof.
  induction tr as [|o tr IH]; [by intros _ ?%elem_of_nil|]. intros [Ho Hl] H H'.
  apply elem_of_cons in H as [<-|H], H' as [E|H']; try congruence; [| |by apply IH].
  - destruct (proj1 (pending_spec _ _) Ho) as (_ & Hn & _). by destruct (Hn p).
  - subst o. destruct Ho as [(_ & _ & Hn)%pending_spec _]. done.
Qed.

Lemma started_positive k p tr : legal tr → OStarted k p ∈ tr → 0 < p < 2 ^ 31.
Proof. intros Hl Hp. by destruct (legal_at _ _ Hl Hp) as (_ & _ & _ & _ & ? & _). Qed.

Lemma started_claimed k p tr : legal tr → OStarted k p ∈ tr → ∃ n, OClaim k n ∈ tr.
Proof.
  intros Hl Hp. destruct (legal_at _ _ Hl Hp) as (later & earlier & -> & [([n Hn]%claimed_spec & _)%pending_spec _]).
  exists n. apply elem_of_app. right. by right.
Qed.

Lemma recorded_spec k tr : recorded k tr = true ↔ ∃ r, ORecorded k r ∈ tr.
Proof.
  unfold recorded. rewrite happens_spec. split; [|intros [r Hp]; exists (ORecorded k r); by rewrite String.eqb_refl].
  intros ([] & Ho & E); try done. apply String.eqb_eq in E as ->. eauto.
Qed.

Lemma recorded_started k tr : legal tr → recorded k tr = true → started k tr = true.
Proof.
  intros Hl [r Hr]%recorded_spec. destruct (legal_at _ _ Hl Hr) as (later & earlier & -> & Hs & _).
  apply started_spec. exists (rr_PID r). apply elem_of_app. right. by right.
Qed.

(** The record in the file: before and after the process is recorded. *)
Lemma last_record_wf k r tr : legal tr → last_record k tr = Some r →
  wf_record r ∧ OClaim k (rr_Name r) ∈ tr ∧
  if recorded k tr then rr_Started r = true ∧ OStarted k (rr_PID r) ∈ tr else rr_Started r = false ∧ rr_PID r = 0.
Proof.
  induction tr as [|o tr IH]; [done|]. intros [Ho Hl] Hr.
  assert (last_record k tr = Some r → (match o with ORecorded k' _ => k' ≠ k | _ => True end) →
            wf_record r ∧ OClaim k (rr_Name r) ∈ o :: tr ∧
            if recorded k (o :: tr) then rr_Started r = true ∧ OStarted k (rr_PID r) ∈ o :: tr
            else rr_Started r = false ∧ rr_PID r = 0) as Hkeep.
  { intros Hr' Hne. destruct (IH Hl Hr') as (? & ? & Hrec). split_and!; [done|by right|].
    assert (recorded k (o :: tr) = recorded k tr) as ->.
    { destruct o; try done. cbn. by apply String.eqb_neq in Hne as ->. }
    destruct (recorded k tr); [|done]. split; [apply Hrec|right; apply Hrec]. }
  destruct o as [| k' r' | | |k' r'| | | | ]; try (by apply Hkeep).
  - cbn in Hr. destruct (String.eqb_spec k' k) as [->|Hne]; [|by apply Hkeep]. injection Hr as ->.
    destruct Ho as (Hp & Hc & Hwf & H0 & Hs). split_and!; [done|by right|].
    change (recorded k (OReserved k r :: tr)) with (recorded k tr). destruct (recorded k tr) eqn:E; [|done]. apply recorded_started in E; [|done].
    apply pending_spec in Hp as (_ & Hn & _). apply started_spec in E as [p Hp]. by destruct (Hn p).
  - cbn in Hr. destruct (String.eqb_spec k' k) as [->|Hne]; [|by apply Hkeep]. injection Hr as ->.
    destruct Ho as (Hp & Hc & Hwf & Hs). split_and!; [done|by right|]. cbn. rewrite String.eqb_refl. split; [done|by right].
Qed.

(** ** Names *)

Fixpoint last_char (s : string) : option ascii :=
  match s with "" => None | String c "" => Some c | String _ s => last_char s end.

Lemma last_char_app a c b : last_char (a +:+ String c b) = last_char (String c b).
Proof.
  induction a as [|d a IH]; [done|]. change (String d a +:+ String c b) with (String d (a +:+ String c b)).
  cbn [last_char]. rewrite IH. by destruct a.
Qed.

Lemma record_last n : record_file n = true → last_char n = Some "n"%char.
Proof. intros [r ->]%has_suffix_spec. exact (last_char_app r "." "runner.json"). Qed.

Lemma record_app n c s : last_char (String c s) ≠ Some "n"%char → record_file (n +:+ String c s) = false.
Proof. intros Hl. apply not_true_iff_false. intros H%record_last. by rewrite last_char_app in H. Qed.

Lemma app_tail_inj a b c d : a +:+ b = c +:+ d → String.length b = String.length d → a = c ∧ b = d.
Proof.
  intros E Hl. assert (String.length a = String.length c) as Hac.
  { apply (f_equal String.length) in E. rewrite !str_length_app in E. lia. }
  split.
  - by rewrite <- (str_take_app a b), E, Hac, str_take_app.
  - by rewrite <- (str_drop_app a b), E, Hac, str_drop_app.
Qed.

(** ** Facts that stay *)

Lemma hasty_later k later tr : hasty k tr = true → hasty k (later ++ tr) = true.
Proof.
  intros H. induction later as [|o later IH]; [done|]. destruct o; cbn [app hasty]; try exact IH. by rewrite IH, orb_true_r.
Qed.

Lemma settled_later k later tr : settled k tr → settled k (later ++ tr).
Proof.
  intros [?|[?|?]]; [left; by apply hasty_later|right; left|right; right]; apply elem_of_app; by right.
Qed.

Lemma last_record_later k later tr : is_Some (last_record k tr) → is_Some (last_record k (later ++ tr)).
Proof. intros H. induction later as [|o later IH]; [done|]. destruct o; cbn; try case_match; done. Qed.

(** ** The invariant *)

Record Inv (w : World) : Prop := {
  inv_legal : legal (trace w);
  inv_vm : ∀ p m, vms w !! p = Some m →
    OStarted (vm_key m) p ∈ trace w ∧ OExited (vm_key m) ∉ trace w ∧ OClaim (vm_key m) (vm_name m) ∈ trace w;
  inv_names : ∀ k, is_Some (last_record k (trace w)) → record_file k = true;
  inv_gone : ∀ k p, OStarted k p ∈ trace w → OExited k ∈ trace w ∨ ∃ m, vms w !! p = Some m ∧ vm_key m = k;
  inv_files : ∀ k s, disk w !! k = Some s → record_file k = true →
    ∃ r, last_record k (trace w) = Some r ∧ s = record_text r;
  inv_live : ∀ k, is_Some (last_record k (trace w)) → ¬ settled k (trace w) → is_Some (disk w !! k);
  inv_pids : ∀ n s, disk w !! (n +:+ ".pid") = Some s →
    ∃ k p, OClaim k n ∈ trace w ∧ OStarted k p ∈ trace w ∧ s = format_int p +:+ String "010" ""
}.

Definition later_than (w w' : World) : Prop := ∃ later, trace w' = later ++ trace w.

#[export] Instance later_preorder : PreOrder later_than.
Proof.
  split; [by exists []|]. intros a b c [l E] [l' E']. exists (l' ++ l). by rewrite E', E, app_assoc.
Qed.

Lemma later_settled k w w' : later_than w w' → settled k (trace w) → settled k (trace w').
Proof. intros [l ->]. apply settled_later. Qed.

Lemma later_in o w w' : later_than w w' → o ∈ trace w → o ∈ trace w'.
Proof. intros [l ->] Ho. apply elem_of_app. by right. Qed.

Lemma vm_record_file w p m : Inv w → vms w !! p = Some m → record_file (vm_key m) = true.
Proof.
  intros Hi Hm. destruct (inv_vm _ Hi p m Hm) as (_ & _ & Hc).
  by destruct (legal_at _ _ (inv_legal _ Hi) Hc) as (_ & _ & _ & _ & ?).
Qed.

(** ** Steps *)

(** A file that is neither a record nor a process number comes or goes. *)
Lemma Inv_disk w d : Inv w →
  (∀ n, record_file n = true → d !! n = disk w !! n ∨ d !! n = None ∧ settled n (trace w)) →
  (∀ n s, d !! (n +:+ ".pid") = Some s → disk w !! (n +:+ ".pid") = Some s) → Inv (set_disk d w).
Proof.
  intros Hi Hr Hp. constructor; cbn [set_disk disk vms trace]; try apply Hi.
  - intros k s Hk Hkr. destruct (Hr k Hkr) as [E|[E _]]; rewrite E in Hk; [|done]. by apply (inv_files _ Hi).
  - intros k Hk Hs. destruct (Hr k (inv_names _ Hi k Hk)) as [->|[_ ?]]; [by apply (inv_live _ Hi)|done].
  - intros n s Hs. by apply (inv_pids _ Hi), Hp.
Qed.

(** An observation that changes no record. *)
Lemma Inv_emit w o : Inv w → allowed o (trace w) →
  (match o with OReserved _ _ | OStarted _ _ | ORecorded _ _ | OExited _ => False | _ => True end) → Inv (emit o w).
Proof.
  intros Hi Ha Hk. assert (∀ k, last_record k (o :: trace w) = last_record k (trace w)) as Hlast by (intros k; by destruct o).
  constructor; cbn [emit disk vms trace]; try (setoid_rewrite Hlast); try apply Hi.
  - by split; [|apply Hi].
  - intros p m Hm. destruct (inv_vm _ Hi p m Hm) as (? & Hex & ?). split_and!; [by right| |by right].
    intros [E|?]%elem_of_cons; [|done]. by subst o.
  - intros k p [E|Hs]%elem_of_cons; [by subst o|]. destruct (inv_gone _ Hi k p Hs) as [?|?]; [left; by right|by right].
  - intros k Hl Hs. apply (inv_live _ Hi); [done|]. intros Hs'. by apply Hs, (settled_later k [o]).
  - intros n s Hs. destruct (inv_pids _ Hi n s Hs) as (k & p & ? & ? & ?). exists k, p. split_and!; [by right..|done].
Qed.

(** The files of a launch other than the record and the process number. *)
Definition other_file (name : string) : Prop := record_file name = false ∧ ∀ n, name ≠ n +:+ ".pid".

Lemma other_file_ends n t : (t = ".qcow2" ∨ t = ".iso" ∨ t = ".vars.fd") → other_file (n +:+ t).
Proof.
  intros Ht. split; [destruct Ht as [-> | [-> | ->]]; by apply record_app|]. intros m.
  destruct Ht as [-> | [-> | ->]]; intros E.
  - apply (f_equal last_char) in E. by rewrite !last_char_app in E.
  - apply (f_equal last_char) in E. by rewrite !last_char_app in E.
  - change (n +:+ ".vars.fd") with (n +:+ (".var" +:+ "s.fd")) in E. rewrite <- str_app_assoc in E.
    by apply app_tail_inj in E as [_ ?].
Qed.

Lemma Inv_put w name s : Inv w → other_file name → Inv (put name s w).
Proof.
  intros Hi [Hr Hp]. apply Inv_disk; [done| |].
  - intros n Hn. left. rewrite lookup_insert_ne; [done|congruence].
  - intros n t. rewrite lookup_insert_ne; [done|]. apply Hp.
Qed.

Lemma Inv_unlink w name : Inv w → (record_file name = true → settled name (trace w)) → Inv (unlink name w).
Proof.
  intros Hi Hs. apply Inv_disk; [done| |].
  - intros n Hn. destruct (decide (n = name)) as [->|Hne]; [right|left].
    + rewrite lookup_delete_eq. auto.
    + by rewrite lookup_delete_ne.
  - intros n s Hn. by apply lookup_delete_Some in Hn as [_ ?].
Qed.

(** The launch writes its record. *)
Lemma Inv_record w k r o : Inv w → (o = OReserved k r ∨ o = ORecorded k r) → allowed o (trace w) →
  record_file k = true → Inv (emit o (put k (record_text r) w)).
Proof.
  intros Hi Ho Ha Hk.
  assert (∀ k', last_record k' (o :: trace w) = if String.eqb k k' then Some r else last_record k' (trace w)) as Hlast
    by (by destruct Ho as [-> | ->]).
  constructor; cbn [emit put set_disk disk vms trace].
  - by split; [|apply Hi].
  - intros p m Hm. destruct (inv_vm _ Hi p m Hm) as (? & Hex & ?). split_and!; [by right| |by right].
    intros [E|?]%elem_of_cons; [by destruct Ho as [-> | ->]|done].
  - intros k'. rewrite Hlast. destruct (String.eqb_spec k k') as [->|]; [done|apply (inv_names _ Hi)].
  - intros k' p Hp. apply elem_of_cons in Hp as [E|Hs]; [by destruct Ho as [-> | ->]|].
    destruct (inv_gone _ Hi k' p Hs) as [?|?]; [left; by right|by right].
  - intros k' s Hs Hkr. rewrite Hlast. destruct (String.eqb_spec k k') as [->|Hne].
    + rewrite lookup_insert_eq in Hs. injection Hs as <-. by exists r.
    + rewrite lookup_insert_ne in Hs by done. by apply (inv_files _ Hi).
  - intros k' Hl Hs. rewrite Hlast in Hl. destruct (String.eqb_spec k k') as [->|Hne].
    + by rewrite lookup_insert_eq.
    + rewrite lookup_insert_ne by done. apply (inv_live _ Hi); [done|]. intros Hs'. by apply Hs, (settled_later k' [o]).
  - intros n s Hs. rewrite lookup_insert_ne in Hs by (intros ->; by rewrite record_app in Hk).
    destruct (inv_pids _ Hi n s Hs) as (k' & p & ? & ? & ?). exists k', p. split_and!; [by right..|done].
Qed.

(** QEMU starts. *)
Lemma Inv_start w k n p : Inv w → vms w !! p = None → OClaim k n ∈ trace w → allowed (OStarted k p) (trace w) → Inv (emit (OStarted k p) (set_vms (<[p := MkMachine k n]> (vms w)) w)).
Proof.
  intros Hi Hp Hc Ha. assert (OExited k ∉ trace w) as Hex.
  { intros (later & earlier & E & Hs)%(legal_at _ _ (inv_legal _ Hi)). destruct Ha as [(_ & Hn & _)%pending_spec _].
    apply started_spec in Hs as [q Hq]. apply (Hn q). rewrite E. apply elem_of_app. right. by right. }
  constructor; cbn [emit set_vms disk vms trace]; try apply Hi.
  - by split; [|apply Hi].
  - intros q m [[<- <-]|[Hne Hm]]%lookup_insert_Some; cbn [vm_key vm_name].
    + split_and!; [by left| |by right]. by intros [?|?]%elem_of_cons.
    + destruct (inv_vm _ Hi q m Hm) as (? & ? & ?). split_and!; [by right| |by right]. by intros [?|?]%elem_of_cons.
  - intros k' q [[= -> ->]|Hs]%elem_of_cons.
    + right. exists (MkMachine k n). by rewrite lookup_insert_eq.
    + destruct (inv_gone _ Hi k' q Hs) as [?|(m & Hm & ?)]; [left; by right|right]. exists m. split; [|done].
      rewrite lookup_insert_ne; [done|]. intros ->. congruence.
  - intros k' Hl Hs. apply (inv_live _ Hi); [done|]. intros Hs'. by apply Hs, (settled_later k' [_]).
  - intros n' s Hs. destruct (inv_pids _ Hi n' s Hs) as (k' & q & ? & ? & ?). exists k', q. split_and!; [by right..|done].
Qed.

(** A machine ends. *)
Lemma Inv_exit w p m : Inv w → vms w !! p = Some m → Inv (emit (OExited (vm_key m)) (set_vms (delete p (vms w)) w)).
Proof.
  intros Hi Hm. constructor; cbn [emit set_vms disk vms trace]; try apply Hi.
  - split; [|apply Hi]. apply started_spec. exists p. by apply (inv_vm _ Hi).
  - intros q m' [Hne Hm']%lookup_delete_Some. destruct (inv_vm _ Hi q m' Hm') as (Hs & Hex & ?).
    split_and!; [by right| |by right]. intros [[= E]|?]%elem_of_cons; [|done].
    destruct (inv_vm _ Hi p m Hm) as (Hs' & _). rewrite E in Hs. by apply (started_once _ p q _ (inv_legal _ Hi)) in Hs.
  - intros k q [?|Hs]%elem_of_cons; [done|]. destruct (inv_gone _ Hi k q Hs) as [?|(m' & Hm' & Hk)]; [left; by right|].
    destruct (decide (p = q)) as [->|Hne]; [left|right].
    + rewrite Hm in Hm'. injection Hm' as ->. rewrite Hk. by left.
    + exists m'. by rewrite lookup_delete_ne.
  - intros k Hl Hs. apply (inv_live _ Hi); [done|]. intros Hs'. by apply Hs, (settled_later k [_]).
  - intros n' s Hs. destruct (inv_pids _ Hi n' s Hs) as (k' & q & ? & ? & ?). exists k', q. split_and!; [by right..|done].
Qed.

(** QEMU writes its process number. *)
Lemma Inv_pid w p m : Inv w → vms w !! p = Some m →
  Inv (put (vm_name m +:+ ".pid") (format_int p +:+ String "010" "") w).
Proof.
  intros Hi Hm. destruct (inv_vm _ Hi p m Hm) as (Hs & _ & Hc).
  constructor; cbn [put set_disk disk vms trace]; try apply Hi.
  - intros k s Hk Hkr. rewrite lookup_insert_ne in Hk by (intros <-; by rewrite record_app in Hkr). by apply (inv_files _ Hi).
  - intros k Hl Hst. rewrite lookup_insert_ne; [by apply (inv_live _ Hi)|].
    intros <-. apply (inv_names _ Hi) in Hl. by rewrite record_app in Hl.
  - intros n s [[E <-]|[_ Hd]]%lookup_insert_Some; [|by apply (inv_pids _ Hi)].
    apply app_tail_inj in E as [<- _]; [|done]. by exists (vm_key m), p.
Qed.

(** ** Programs *)

Definition mu (k : string) (w : World) : Z := if pending k (trace w) then 1 else 0.
Definition nothing (_ : string) : nat := 0.
Definition one (k q : string) : nat := if decide (q = k) then 1 else 0.
Definition no_share (_ : string) (_ : thread) : nat := 0.
Definition pre (t : thread) (_ : World) : Prop :=
  match t with
  | TLaunch req => int64_min ≤ own_ScaleSetID (req_Ownership req) ≤ int64_max ∧
                   int64_min ≤ own_RunnerID (req_Ownership req) ≤ int64_max
  | _ => True
  end.

(** A process number fits its type. *)
Definition possible (env : answers) (_ : World) : Prop := an_pid env < 2 ^ 31.

Local Notation keeps := (keeps possible Inv later_than pre mu no_share).

Lemma vm_keeps_then {A B} s0 n (p : proc A) (g : A → proc B) (Q : A → World → (string → nat) → Prop) Q' :
  keeps s0 n p Q → (∀ a s m, later_than s0 s → Q a s m → keeps s m (g a) Q') → keeps s0 n (pbind p g) Q'.
Proof.
  intros Hp Hg. apply keeps_seq. eapply keeps_imply; [apply later_preorder| |exact Hp]. exact Hg.
Qed.

Lemma keeps_next {A B} s0 n (p : proc A) (g : A → proc B) Q :
  keeps s0 n p (λ _ _ m, m = n ∧ True) → (∀ a s, later_than s0 s → keeps s n (g a) Q) → keeps s0 n (pbind p g) Q.
Proof. intros Hp Hg. eapply vm_keeps_then; [exact Hp|]. intros a s m Hl [-> _]. by apply Hg. Qed.

(** A step that leaves the tokens where they are. *)
Lemma keeps_quiet {X} s0 n (f : answers → World → option (X * World)) (Q : X → World → Prop) :
  (∀ env w r w', later_than s0 w → Inv w → possible env w → f env w = Some (r, w') →
     Inv w' ∧ later_than w w' ∧ (∀ q, pending q (trace w') = pending q (trace w)) ∧ Q r w') →
  keeps s0 n (step f) (λ r w m, m = n ∧ Q r w).
Proof.
  intros Hf env w r w' sp Hs Hi Ha _ E. destruct (f env w) as [[x w1]|] eqn:Ef; [|done]. injection E as <- <- <-.
  destruct (Hf env w x w1 Hs Hi Ha Ef) as (Hi' & Hl & Hp & HQ). split_and!; [done..|constructor|].
  exists n. split; [|done]. intros q. unfold mu. rewrite Hp. cbn [fmap list_fmap]. rewrite held_nil. lia.
Qed.

Lemma keeps_step {X} s0 n (f : answers → World → option (X * World)) (Q : X → World → (string → nat) → Prop) :
  (∀ env w r w', later_than s0 w → Inv w → possible env w → (∀ q, Z.of_nat (n q) ≤ mu q w) → f env w = Some (r, w') →
     Inv w' ∧ later_than w w' ∧ ∃ m, (∀ q, mu q w' + Z.of_nat (n q) = mu q w + Z.of_nat (m q)) ∧ Q r w' m) →
  keeps s0 n (step f) Q.
Proof.
  intros Hf env w r w' sp Hs Hi Ha Hn E. destruct (f env w) as [[x w1]|] eqn:Ef; [|done]. injection E as <- <- <-.
  destruct (Hf env w x w1 Hs Hi Ha Hn Ef) as (Hi' & Hl & m & Hm & HQ). split_and!; [done..|constructor|].
  exists m. split; [|done]. intros q. cbn [fmap list_fmap]. rewrite held_nil, Hm. lia.
Qed.

(** A loop whose passes keep the tokens. *)
Lemma vm_keeps_fold {A B} s0 n (f : B → A → proc (bool * B)) b l :
  (∀ b x s, x ∈ l → keeps s n (f b x) (λ _ _ m, m = n ∧ True)) → keeps s0 n (pfold f b l) (λ _ _ m, m = n ∧ True).
Proof.
  revert s0 b. induction l as [|x l IH]; intros s0 b Hf; cbn [pfold]; [done|].
  eapply vm_keeps_then; [apply Hf; left|]. cbn beta. intros [[] b'] s m _ [-> _]; [done|].
  apply IH. intros b'' y s' Hy. apply Hf. by right.
Qed.

Lemma pending_claim k n q tr : legal tr → used k n tr = false →
  pending q (OClaim k n :: tr) = if decide (q = k) then true else pending q tr.
Proof.
  intros Hl Hu. destruct (used_false _ _ _ Hu) as [Hk _]. case_decide as Hq.
  - subst q. apply pending_spec. split; [cbn; by rewrite String.eqb_refl|]. split.
    + intros p [?|Hp]%elem_of_cons; [done|]. destruct (started_claimed _ _ _ Hl Hp) as [m Hm]. by destruct (Hk m).
    + intros [?|Hp]%elem_of_cons; [done|].
      destruct (legal_at _ _ Hl Hp) as (later & earlier & -> & ([m Hm]%claimed_spec & _)%pending_spec).
      destruct (Hk m). apply elem_of_app. right. by right.
  - unfold pending, claimed. cbn [existsb started failed]. rewrite (proj2 (String.eqb_neq k q)) by done. done.
Qed.

Lemma pending_spend o k q tr : ((∃ p, o = OStarted k p) ∨ o = OFailed k) →
  pending q (o :: tr) = if decide (q = k) then false else pending q tr.
Proof.
  intros Ho. case_decide as Hq.
  - subst q. unfold pending. destruct Ho as [[p ->] | ->]; cbn; rewrite String.eqb_refl; by rewrite ?andb_false_r.
  - assert (String.eqb k q = false) as E by (by apply String.eqb_neq). unfold pending.
    destruct Ho as [[p ->] | ->]; cbn [claimed started failed existsb]; by rewrite E.
Qed.

(** The token of [k] is spent. *)
Lemma spend o k w w' : ((∃ p, o = OStarted k p) ∨ o = OFailed k) → trace w' = o :: trace w → pending k (trace w) = true →
  ∀ q, mu q w' + Z.of_nat (one k q) = mu q w + Z.of_nat (nothing q).
Proof.
  intros Ho Ht Hp q. unfold mu, one, nothing. rewrite Ht, (pending_spend o k q) by done.
  case_decide as Hq; [subst q; rewrite Hp; lia|lia].
Qed.

Lemma token_pending k w : (∀ q, Z.of_nat (one k q) ≤ mu q w) → pending k (trace w) = true.
Proof. intros Hn. specialize (Hn k). unfold mu, one in Hn. rewrite decide_True in Hn by done. by destruct (pending k _). Qed.

(** One that leaves the trace alone. *)
Lemma keeps_silent {X} s0 n (f : answers → World → option (X * World)) (Q : X → World → Prop) :
  (∀ env w r w', later_than s0 w → Inv w → possible env w → f env w = Some (r, w') →
     Inv w' ∧ trace w' = trace w ∧ Q r w') →
  keeps s0 n (step f) (λ r w m, m = n ∧ Q r w).
Proof.
  intros Hf. apply keeps_quiet. intros env w r w' Hs Hi Ha E. destruct (Hf env w r w' Hs Hi Ha E) as (? & Ht & ?).
  split_and!; [done|exists []; by rewrite Ht|by intros q; rewrite Ht|done].
Qed.

Lemma vm_later_emit o w w' : trace w' = o :: trace w → later_than w w'.
Proof. intros Ht. by exists [o]. Qed.

(** An observation that is no claim, start or failure moves no token. *)
Lemma pending_emit o k tr :
  (match o with OClaim _ _ | OStarted _ _ | OFailed _ => False | _ => True end) → pending k (o :: tr) = pending k tr.
Proof. by destruct o. Qed.

Definition done_with {A} (n : string → nat) (_ : A) (_ : World) (m : string → nat) : Prop := m = n.

(** *** Records *)

Definition int64 (z : Z) : Prop := int64_min ≤ z ≤ int64_max.

Lemma as_int_format z : int64 z → ∀ old, as_int old (JNum (format_int z)) = (z, true).
Proof. intros Hz old. unfold as_int. by rewrite parse_format_int. Qed.

Lemma decode_record_json r : int64 (rr_PID r) → int64 (own_ScaleSetID (rr_Ownership r)) → int64 (own_RunnerID (rr_Ownership r)) →
  decode_record (record_json r) = (r, true).
Proof.
  intros Hp Hs Hr. destruct r as [n [oi ot op os oru] addr pid pf ov iso vars ser st]. cbn [rr_PID rr_Ownership own_ScaleSetID own_RunnerID] in *.
  assert (decode_ownership no_ownership (ownership_json (Ownership oi ot op os oru)) = (Ownership oi ot op os oru, true)) as Ho.
  { unfold decode_ownership, ownership_json, field. lazy -[as_int format_int]. by rewrite !as_int_format. }
  unfold record_json. cbn [rr_PID rr_Ownership rr_Name rr_QMPAddr rr_PIDFile rr_Overlay rr_ISO rr_Vars rr_Serial rr_Started].
  generalize dependent (ownership_json (Ownership oi ot op os oru)). intros own_j Ho.
  destruct (Z.eqb_spec pid 0) as [->|Hne]; (destruct (is_empty vars) eqn:Ev; [apply is_empty_true in Ev as ->|]);
    unfold decode_record, field; lazy -[as_int format_int decode_ownership no_ownership]; by rewrite Ho, ?as_int_format.
Qed.

Lemma ownership_json_ok o : json_ok (ownership_json o).
Proof. apply json_ok_obj. by repeat (apply Forall_cons; split); try apply lit_ok_int; try apply Forall_nil. Qed.

Lemma parse_record_text json_error r : int64 (rr_PID r) → int64 (own_ScaleSetID (rr_Ownership r)) →
  int64 (own_RunnerID (rr_Ownership r)) → parse_record json_error (record_text r) = Ok r.
Proof.
  intros Hp Hs Hr. unfold parse_record, record_text. rewrite parse_encode_json; [by rewrite decode_record_json|].
  apply json_ok_obj. unfold record_json.
  repeat (apply Forall_app; split); repeat case_match; repeat (apply Forall_cons; split); try apply Forall_nil;
    first [exact I | apply lit_ok_int | apply ownership_json_ok].
Qed.

(** *** Removal *)

Lemma remove_artifact_keeps s0 n k name : settled k (trace s0) → record_file name = false →
  keeps s0 n (remove_artifact k name) (λ _ _ m, m = n ∧ True).
Proof.
  intros Hs Hr. apply keeps_quiet. intros env w r w' Hl Hi _ E. cbn beta in E.
  assert (∀ (w1 : World), w1 = w → Inv w1 ∧ later_than w w1 ∧ (∀ q, pending q (trace w1) = pending q (trace w)) ∧ True) as Hsame
    by (intros ? ->; split_and!; done).
  destruct (runnerArtifactPath env w name); [|by apply Hsame; simplify_eq].
  destruct (disk w !! name); [|by apply Hsame; simplify_eq].
  destruct (an_err env) as [e|]; [destruct (errors_is _ e); by apply Hsame; simplify_eq|].
  injection E as <- <-. split_and!; [|by eapply vm_later_emit|intros q; by apply pending_emit|done].
  apply Inv_emit; [apply Inv_unlink; [done|congruence]|by eapply later_settled|done].
Qed.

Lemma remove_all_keeps s0 n k names errs : settled k (trace s0) → Forall (λ x, record_file x = false) names →
  keeps s0 n (remove_all k names errs) (λ _ _ m, m = n ∧ True).
Proof.
  intros Hs Hn. revert s0 errs Hs. induction Hn as [|x names Hx _ IH]; intros s0 errs Hs; cbn [remove_all]; [done|].
  destruct (is_empty x); [by apply IH|]. eapply vm_keeps_then; [by apply remove_artifact_keeps|].
  intros a s m Hl [-> _]. apply IH. by eapply later_settled.
Qed.

Lemma removeRunnerRecord_keeps s0 n k r : settled k (trace s0) → wf_record r →
  keeps s0 n (removeRunnerRecord k r) (λ _ _ m, m = n ∧ True).
Proof.
  intros Hs (_ & _ & Ha). unfold removeRunnerRecord, removeRunnerArtifacts.
  apply (vm_keeps_then _ _ _ _ (λ _ s m, m = n ∧ settled k (trace s))).
  { eapply vm_keeps_then; [by apply remove_all_keeps|]. intros errs s m Hl [-> _]. split; [done|by eapply later_settled]. }
  cbn beta. intros [e|] s m _ [-> Hs']; [done|]. apply keeps_quiet. intros env w x w' Hl Hi _ E. cbn beta in E.
  destruct (disk w !! k); [|simplify_eq; split_and!; done].
  destruct (an_err env) as [e|]; [destruct (errors_is _ e); simplify_eq; split_and!; done|]. injection E as <- <-.
  assert (settled k (trace w)) by (by eapply later_settled).
  split_and!; [|by eapply vm_later_emit|intros q; by apply pending_emit|done].
  apply Inv_emit; [by apply Inv_unlink|done|done].
Qed.

(** The section variables of the operations are fixed from here on. *)
Section operations.
Variable json_error : string → goerror.
Variable eof : goerror.
Variable url_parse : string → option parsed_url.
Variable iso_image : string → gmap string string → string.
Variable Golden ovmfCode accel vnc WorkDir QEMUBin ImgBin : string.
Variable MemMB CPUs : Z.

(** [pid] is the machine of [k], unless that is settled. *)
Definition runs (k : string) (pid : Z) (w : World) : Prop :=
  settled k (trace w) ∨ 0 < pid ∧ OStarted k pid ∈ trace w.

Lemma runs_later k pid w w' : later_than w w' → runs k pid w → runs k pid w'.
Proof.
  intros Hl [?|[? ?]]; [left; by eapply later_settled|right; split; [done|by eapply later_in]].
Qed.

(** What a removal knows of the record it read. *)
Definition known (k : string) (r : runnerRecord) (w : World) : Prop :=
  wf_record r ∧ OClaim k (rr_Name r) ∈ trace w ∧ runs k (rr_PID r) w.

Lemma known_later k r w w' : later_than w w' → known k r w → known k r w'.
Proof.
  intros Hl (? & ? & H). split_and!; [done|by eapply later_in|by eapply runs_later].
Qed.

Lemma readRunnerRecord_keeps s0 n k : record_file k = true →
  keeps s0 n (readRunnerRecord json_error k)
    (λ a w m, m = n ∧ match a with Ok (Some r) => known k r w | _ => True end).
Proof.
  intros Hk. apply keeps_quiet. intros env w a w' Hl Hi _ E. cbn beta in E.
  destruct (disk w !! k) as [data|] eqn:Hd; [|simplify_eq; split_and!; done].
  destruct (an_err env) as [e|]; [destruct (errors_is _ e); simplify_eq; split_and!; done|].
  destruct (inv_files _ Hi k data Hd Hk) as (r & Hr & ->).
  destruct (last_record_wf k r _ (inv_legal _ Hi) Hr) as (Hwf & Hc & Hrec).
  rewrite (proj1 Hwf) in E. injection E as <- <-.
  split_and!; [by apply Inv_emit|by eapply vm_later_emit|intros q; by apply pending_emit|].
  split_and!; [done|by right|]. destruct (recorded k (trace w)) eqn:Er.
  { right. destruct Hrec as [_ Hst]. split; [by eapply started_positive; [apply Hi|]|by right]. }
  left. left. cbn. by rewrite String.eqb_refl, Er.
Qed.

Lemma runnerPID_keeps s0 n k r : known k r s0 →
  keeps s0 n (runnerPID r)
    (λ a w m, m = n ∧ match a with Ok pid => runs k pid w | Err _ => True end).
Proof.
  intros Hk. unfold runnerPID. destruct (is_empty (rr_PIDFile r)); [split; [done|apply Hk]|].
  apply keeps_silent. intros env w a w' Hl Hi _ E. cbn beta in E. pose proof (known_later _ _ _ _ Hl Hk) as (Hwf & Hc & Hs).
  destruct (runnerArtifactPath env w (rr_PIDFile r)); [|simplify_eq; done].
  destruct (disk w !! rr_PIDFile r) as [data|] eqn:Hd; [|simplify_eq; done].
  destruct (an_err env) as [e|]; [destruct (errors_is _ e); simplify_eq; done|].
  destruct Hwf as (_ & Hp & _). rewrite Hp in Hd.
  destruct (inv_pids _ Hi _ _ Hd) as (k' & p & Hc' & Hst & ->).
  rewrite (claimed_by_one _ _ _ _ (inv_legal _ Hi) Hc' Hc) in Hst.
  pose proof (started_positive _ _ _ (inv_legal _ Hi) Hst) as Hpos.
  rewrite trim_space_line, parse_format_int in E by (unfold int64_min, int64_max; lia).
  rewrite (proj2 (Z.leb_gt _ _)) in E by lia. injection E as <- <-. split_and!; [done..|]. right. split; [lia|done].
Qed.

(** A process that does not exist was the machine's, which has ended. *)
Lemma not_alive_settled w k p env : Inv w → runs k p w → alive env w p = false →
  settled k (trace w).
Proof.
  intros Hi [?|[_ Hp]] Ha; [done|]. destruct (inv_gone _ Hi k p Hp) as [?|(m & Hm & _)]; [right; by left|].
  unfold alive in Ha. by rewrite Hm in Ha.
Qed.

Lemma processAlive_keeps s0 n k p : runs k p s0 →
  keeps s0 n (processAlive p) (λ a w m, m = n ∧ match a with Ok false => settled k (trace w) | _ => True end).
Proof.
  intros Hk. apply keeps_silent. intros env w a w' Hl Hi _ E. cbn beta in E.
  destruct (an_err env); [by simplify_eq|]. injection E as <- <-. split_and!; [done..|].
  destruct (alive env w p) eqn:Ha; [done|]. eapply not_alive_settled; [done|by eapply runs_later|exact Ha].
Qed.

Lemma waitForProcessExit_keeps s0 n k p : runs k p s0 →
  keeps s0 n (waitForProcessExit p) (λ a w m, m = n ∧ match a with None => settled k (trace w) | Some _ => True end).
Proof.
  intros Hk. apply keeps_silent. intros env w a w' Hl Hi _ E. cbn beta in E.
  destruct (an_err env); [by simplify_eq|]. destruct (alive env w p) eqn:Ha; cbn [negb] in E.
  - destruct (an_ctx env); [|done]. by simplify_eq.
  - injection E as <- <-. split_and!; [done..|]. eapply not_alive_settled; [done|by eapply runs_later|exact Ha].
Qed.

(** A step that only reads. *)
Lemma keeps_reads {X} s0 n (f : answers → World → option (X * World)) :
  (∀ env w r w', f env w = Some (r, w') → w' = w) → keeps s0 n (step f) (λ _ _ m, m = n ∧ True).
Proof.
  intros Hf. apply keeps_silent. intros env w r w' _ Hi _ E. by rewrite (Hf env w r w' E).
Qed.

Lemma RemoveOwnedRunner_keeps s0 n id : keeps s0 n (RemoveOwnedRunner json_error eof id) (λ _ _ m, m = n ∧ True).
Proof.
  unfold RemoveOwnedRunner. destruct (has_suffix ".runner.json" id) eqn:Hid; [|done]. cbn [negb].
  eapply vm_keeps_then; [apply keeps_reads; intros env w r w'; cbn beta; repeat case_match; congruence|].
  cbn beta. intros [e|] s m Hl [-> _]; [done|].
  eapply vm_keeps_then; [by apply readRunnerRecord_keeps|]. cbn beta. intros [[r|]|e] s1 m _ [-> Hk]; [|done..].
  eapply vm_keeps_then; [by apply runnerPID_keeps|]. cbn beta. intros [p|e] s2 m Hl2 [-> Hp]; [|done].
  pose proof (proj1 Hk) as Hwf. destruct (Z.eqb_spec p 0) as [->|Hne]; cbn [negb].
  - destruct (rr_Started r); [done|]. apply removeRunnerRecord_keeps; [|done]. by destruct Hp as [?|[? _]].
  - eapply vm_keeps_then; [by apply processAlive_keeps|]. cbn beta. intros [[]|e] s3 m Hl3 [-> Hs]; [| |done].
    + eapply vm_keeps_then; [apply keeps_reads; congruence|]. cbn beta. intros [e|] s4 m Hl4 [-> _]; [done|].
      eapply vm_keeps_then.
      { apply waitForProcessExit_keeps. eapply runs_later, Hp. by transitivity s3. }
      cbn beta. intros [e|] s5 m _ [-> Hs5]; [done|]. by apply removeRunnerRecord_keeps.
    + by apply removeRunnerRecord_keeps.
Qed.

(** *** Listing and start-up *)

Lemma list_records_keeps s0 n o paths owned : keeps s0 n (list_records json_error o paths owned) (λ _ _ m, m = n ∧ True).
Proof.
  revert s0 owned. induction paths as [|p paths IH]; intros s0 owned; cbn [list_records]; [done|].
  eapply vm_keeps_then; [apply keeps_reads; intros env w r w'; cbn beta; repeat case_match; congruence|].
  cbn beta. intros [r|e] s m _ [-> _]; [|done]. destruct (negb _); [apply IH|]. destruct (_ || _); [done|apply IH].
Qed.

Lemma ListOwnedRunners_keeps s0 n o : keeps s0 n (ListOwnedRunners json_error o) (λ _ _ m, m = n ∧ True).
Proof.
  unfold ListOwnedRunners. destruct (_ || _); [done|]. eapply vm_keeps_then; [apply keeps_reads; congruence|].
  cbn beta. intros paths s m _ [-> _]. apply list_records_keeps.
Qed.

Lemma remove_matches_keeps s0 n pat : (∀ p, has_suffix pat p = true → record_file p = false) →
  keeps s0 n (remove_matches (has_suffix pat)) (λ _ _ m, m = n ∧ True).
Proof.
  intros Hpat. unfold remove_matches.
  apply (vm_keeps_then _ _ _ _ (λ a _ m, m = n ∧ ∀ p, p ∈ a → has_suffix pat p = true)).
  { apply keeps_silent. intros env w a w' _ Hi _ [= <- <-]. split_and!; [done..|]. intros p [? _]%list_elem_of_filter. done. }
  intros paths s m _ [-> Hp]. apply vm_keeps_fold. intros b p s' Hin. apply keeps_next; [|done].
  apply (keeps_silent _ _ _ (λ _ _, True)). intros env w r w' _ Hi _ E. cbn beta in E. destruct (an_err env); simplify_eq; [done|].
  split_and!; [|done..]. apply Inv_unlink; [done|]. intros Hr. by rewrite Hpat in Hr by auto.
Qed.

Lemma CleanupOrphans_keeps s0 n : keeps s0 n CleanupOrphans (λ _ _ m, m = n ∧ True).
Proof.
  apply vm_keeps_fold. intros b pat s Hin. apply keeps_next; [|done].
  apply remove_matches_keeps. intros p [r ->]%has_suffix_spec.
  repeat (apply elem_of_cons in Hin as [-> | Hin]; [by apply record_app|]). by apply elem_of_nil in Hin.
Qed.

(** *** Handles *)

Lemma attempt_keeps s0 n : keeps s0 n attempt (λ _ _ m, m = n ∧ True).
Proof. apply keeps_reads. congruence. Qed.

Lemma wait_machine_keeps s0 n k p : runs k p s0 → keeps s0 n (wait_machine p) (λ _ w m, m = n ∧ settled k (trace w)).
Proof.
  intros Hr. apply keeps_silent. intros env w a w' Hl Hi _ E. cbn beta in E. destruct (vms w !! p) eqn:Hp; simplify_eq.
  split_and!; [done..|]. destruct (runs_later _ _ _ _ Hl Hr) as [?|[_ Hst]]; [done|].
  destruct (inv_gone _ Hi k p Hst) as [?|(m & Hm & _)]; [right; by left|congruence].
Qed.

Lemma watch_keeps s0 n p id cleans : keeps s0 n (watch json_error eof p id cleans) (λ _ _ m, m = n ∧ True).
Proof.
  unfold watch. eapply vm_keeps_then; [apply keeps_reads; intros env w r w'; cbn beta; case_match; congruence|].
  cbn beta. intros st s m _ [-> _]. apply (vm_keeps_then _ _ _ _ (λ _ _ m, m = n ∧ True)).
  { destruct cleans; [apply RemoveOwnedRunner_keeps|done]. }
  intros err s1 m _ [-> _]. apply keeps_silent. intros env w r w' _ Hi _ [= <- <-]. split_and!; [|done..].
  constructor; apply Hi.
Qed.

Lemma Handle_Kill_keeps s0 n p : keeps s0 n (Handle_Kill p) (λ _ _ m, m = n ∧ True).
Proof.
  unfold Handle_Kill. eapply vm_keeps_then; [apply attempt_keeps|]. intros err s m _ [-> _]. case_match; [done|].
  apply keeps_reads. intros env w r w'. cbn beta. repeat case_match; congruence.
Qed.

(** *** Machines *)

Lemma write_pid_keeps s0 n p : keeps s0 n (write_pid p) (λ _ _ m, m = n ∧ True).
Proof.
  apply (keeps_silent _ _ _ (λ _ _, True)). intros env w r w' _ Hi _ E. cbn beta in E.
  destruct (vms w !! p) as [m|] eqn:Hm; simplify_eq. split_and!; [by apply Inv_pid|done..].
Qed.

Lemma exit_machine_keeps s0 n p : keeps s0 n (exit_machine p) (λ _ _ m, m = n ∧ True).
Proof.
  apply keeps_quiet. intros env w r w' _ Hi _ E. cbn beta in E. destruct (vms w !! p) as [m|] eqn:Hm; [|done].
  set (w0 := if an_leaves env then w else unlink (vm_name m +:+ ".pid") w) in *.
  assert (Inv w0 ∧ vms w0 = vms w ∧ trace w0 = trace w) as (Hi0 & Hv & Ht).
  { unfold w0. destruct (an_leaves env); [done|]. split_and!; [|done..]. apply Inv_unlink; [done|].
    intros Hr. by rewrite record_app in Hr. }
  clearbody w0. injection E as <- <-. rewrite <- Hv in Hm |- *.
  split_and!; [by eapply Inv_exit|eexists [_]; cbn; by rewrite Ht|intros q; cbn [emit trace set_vms]; rewrite Ht; by apply pending_emit|done].
Qed.

(** *** Launches *)

Lemma launch_record_wf req addr pid : int64 (own_ScaleSetID (req_Ownership req)) → int64 (own_RunnerID (req_Ownership req)) →
  wf_record (launch_record req addr) ∧ (0 < pid < 2 ^ 31 → wf_record (started_record (launch_record req addr) pid)).
Proof.
  intros Hs Hr.
  assert (Forall (λ n, record_file n = false) (artifacts (launch_record req addr))) as Ha.
  { unfold artifacts. rewrite !Forall_cons, Forall_nil. split_and!; [by apply record_app..|done]. }
  split; [|intros Hp]; (split; [|by split]); intros je; apply parse_record_text; try done; unfold int64, int64_min, int64_max; cbn; lia.
Qed.

(** A launch that failed before QEMU ran removes its record. *)
Lemma failed_keeps s0 k r (ran : list (list string)) (e : goerror) : settled k (trace s0) → wf_record r →
  keeps s0 nothing (let* c := removeRunnerRecord k r in Ret (join_failed e c, ran))%go (λ _ _ m, m = nothing ∧ True).
Proof. intros Hs Hr. apply keeps_next; [by apply removeRunnerRecord_keeps|done]. Qed.

Lemma tool_keeps s0 k name content : other_file name →
  keeps s0 (one k) (tool k name content)
    (λ a w m, match a with None => m = one k | Some _ => m = nothing ∧ OFailed k ∈ trace w end).
Proof.
  intros Hn. apply keeps_step. intros env w r w' _ Hi _ Htok E. cbn beta in E. destruct (an_err env) as [e|]; injection E as <- <-.
  - set (w0 := if an_leaves env then put name (an_file env) w else w).
    assert (Inv w0 ∧ trace w0 = trace w) as [Hi0 Ht] by (unfold w0; destruct (an_leaves env); [by split; [apply Inv_put|]|done]).
    clearbody w0. assert (pending k (trace w) = true) as Hp by (by apply token_pending).
    split_and!; [by apply Inv_emit; [| rewrite Ht|]|exists [OFailed k]; cbn; by rewrite Ht|].
    exists nothing. split; [apply (spend (OFailed k) k); [by right|cbn; by rewrite Ht|done]|].
    split; [done|by left].
  - split_and!; [by apply Inv_put|by exists []|]. exists (one k). by split.
Qed.

Lemma copy_vars_keeps s0 k n :
  keeps s0 (one k) (copy_vars Golden ovmfCode WorkDir k n)
    (λ a w m, match a with Ok _ => m = one k | Err _ => m = nothing ∧ OFailed k ∈ trace w end).
Proof.
  unfold copy_vars. destruct (is_empty ovmfCode); [done|]. apply keeps_next; [apply keeps_reads; congruence|].
  intros [] s _; [|done]. eapply vm_keeps_then; [apply tool_keeps, other_file_ends; auto|].
  cbn beta. by intros [e|] s1 m _ Hm.
Qed.

(** QEMU starts: the token is spent, the machine runs. *)
Lemma start_qemu_keeps s0 k n : OClaim k n ∈ trace s0 → is_Some (last_record k (trace s0)) →
  keeps s0 (one k) (start_qemu k n)
    (λ a w m, m = nothing ∧ match a with Ok p => 0 < p < 2 ^ 31 ∧ OStarted k p ∈ trace w | Err _ => OFailed k ∈ trace w end).
Proof.
  intros Hc Hr env w a w' sp Hl Hi Hpos Htok E. cbn beta zeta in E. pose proof (token_pending _ _ Htok) as Hp.
  destruct (an_err env) as [e|].
  { injection E as <- <- <-. split_and!; [by apply Inv_emit|by exists [OFailed k]|constructor|]. exists nothing. split.
    - intros q. pose proof (spend (OFailed k) k w (emit (OFailed k) w) (or_intror eq_refl) eq_refl Hp q).
      cbn [fmap list_fmap]. rewrite held_nil. lia.
    - split; [done|by left]. }
  destruct (vms w !! an_pid env) eqn:Hv; [done|].
  revert E. destruct (Z.leb_spec (an_pid env) 0) as [|Hp0]; [done|]. intros E.
  injection E as <- <- <-. set (o := OStarted k (an_pid env)). set (w' := emit o _). unfold possible in Hpos.
  assert (allowed o (trace w)) as Ha by (split_and!; [done..|destruct Hl as [later ->]; by apply last_record_later]).
  split_and!; [apply Inv_start; [done..|by eapply later_in|done]|by exists [o]|by repeat constructor|].
  exists nothing. split; [|split; [done|]; split; [done|by left]].
  intros q. pose proof (spend o k w w' (or_introl (ex_intro _ _ eq_refl)) eq_refl Hp q).
  cbn [fmap list_fmap]. rewrite held_cons, held_nil. unfold no_share. lia.
Qed.

(** The record is written: before anything is started, and again then. *)
Lemma reserve_record_keeps s0 k r : wf_record r → OClaim k (rr_Name r) ∈ trace s0 → record_file k = true →
  rr_PID r = 0 → rr_Started r = false →
  keeps s0 (one k) (writeRunnerRecord (OReserved k r) k r)
    (λ a w m, m = one k ∧ match a with None => is_Some (last_record k (trace w)) | Some _ => True end).
Proof.
  intros Hwf Hc Hk H0 Hs. apply keeps_step. intros env w a w' Hl Hi _ Htok E. cbn beta in E.
  destruct (an_err env) as [e|]; injection E as <- <-.
  { split_and!; [done|by exists []|]. exists (one k). split; [lia|done]. }
  assert (allowed (OReserved k r) (trace w)) by (split_and!; [by apply token_pending|by eapply later_in|done..]).
  split_and!; [by apply Inv_record; [|left|..]|by exists [OReserved k r]|]. exists (one k). split; [done|]. split; [done|].
  cbn. rewrite String.eqb_refl. by eexists.
Qed.

Lemma record_process_keeps s0 n k r : wf_record r → OClaim k (rr_Name r) ∈ trace s0 → record_file k = true →
  OStarted k (rr_PID r) ∈ trace s0 → rr_Started r = true →
  keeps s0 n (writeRunnerRecord (ORecorded k r) k r) (λ _ _ m, m = n ∧ True).
Proof.
  intros Hwf Hc Hk Hst Hs. apply keeps_quiet. intros env w a w' Hl Hi _ E. cbn beta in E.
  destruct (an_err env) as [e|]; injection E as <- <-; [split_and!; done|].
  assert (allowed (ORecorded k r) (trace w)) by (split_and!; [by eapply later_in|by eapply later_in|done..]).
  split_and!; [by apply Inv_record; [|right|..]|by exists [ORecorded k r]|done..].
Qed.

Lemma later_trans a b c : later_than a b → later_than b c → later_than a c.
Proof. intros H1 H2. by transitivity b. Qed.

(** The launch of [k] has started its machine or failed. *)
Definition over (k : string) (w : World) : Prop := (∃ p, OStarted k p ∈ trace w) ∨ OFailed k ∈ trace w.

Lemma launch_keeps s0 k req : OClaim k (req_Name req) ∈ trace s0 → record_file k = true →
  int64 (own_ScaleSetID (req_Ownership req)) → int64 (own_RunnerID (req_Ownership req)) →
  keeps s0 (one k)
    (launch url_parse iso_image Golden ovmfCode accel vnc WorkDir QEMUBin ImgBin MemMB CPUs k req)
    (λ _ w m, m = one k ∨ m = nothing ∧ over k w).
Proof.
  intros Hc Hk Hs Hr. unfold launch. apply keeps_next; [apply attempt_keeps|]. intros [e|] s1 H1; [by left|].
  apply keeps_next; [apply keeps_reads; congruence|]. intros [addr|e] s2 H2; [|by left].
  set (r := launch_record req addr). destruct (launch_record_wf req addr 1 Hs Hr) as [Hwf _].
  pose proof (later_in _ _ _ (later_trans _ _ _ H1 H2) Hc : OClaim k (rr_Name r) ∈ trace s2) as Hc2.
  eapply vm_keeps_then; [by apply reserve_record_keeps|]. cbn beta. intros [e|] s3 m H3 [-> Hl3]; [by left|].
  assert (∀ s (ran : list (list string)) (e : goerror), OFailed k ∈ trace s →
    keeps s nothing (let* c := removeRunnerRecord k r in Ret (join_failed e c, ran))%go
      (λ _ w m, m = one k ∨ m = nothing ∧ over k w)) as Hfail.
  { intros s ran e Hset. eapply keeps_imply; [apply later_preorder| |apply failed_keeps; [by right; right|done]].
    intros ? ? ? Hl [-> _]. right. split; [done|]. right. by eapply later_in. }
  eapply vm_keeps_then; [apply tool_keeps, other_file_ends; auto|]. cbn beta. intros [e|] s4 m H4 Hm; [destruct Hm as [-> ?]; by apply Hfail|subst m].
  eapply vm_keeps_then; [apply tool_keeps, other_file_ends; auto|]. cbn beta. intros [e|] s5 m H5 Hm; [destruct Hm as [-> ?]; by apply Hfail|subst m].
  eapply vm_keeps_then; [apply copy_vars_keeps|]. cbn beta. intros [fw|e] s6 m H6 Hm; [subst m|destruct Hm as [-> ?]; by apply Hfail].
  assert (later_than s3 s6) as H36 by (repeat (eapply later_trans; [eassumption|]); reflexivity).
  pose proof (later_in _ _ _ (later_trans _ _ _ H3 H36) Hc2) as Hc6.
  eapply vm_keeps_then; [apply start_qemu_keeps; [done|destruct H36 as [l ->]; by apply last_record_later]|].
  cbn beta. intros [p|e] s7 m H7 [-> Hp]; [|by apply Hfail]. destruct Hp as [Hpos Hst].
  destruct (launch_record_wf req addr p Hs Hr) as [_ Hwf']. specialize (Hwf' Hpos).
  apply keeps_next; [apply record_process_keeps; [done|by eapply later_in|done..]|]. intros [e|] s8 H8.
  - eapply vm_keeps_then; [apply (wait_machine_keeps _ _ k); right; split; [lia|by eapply later_in]|].
    cbn beta. intros st s9 m H9 [-> Hset]. apply keeps_next; [by apply removeRunnerRecord_keeps|].
    intros c s10 H10. right. split; [done|]. left. exists p. do 3 (eapply later_in; [eassumption|]). done.
  - apply (keeps_next _ _ _ _ _); [|intros id s9 H9; right; split; [done|]; left; exists p; do 2 (eapply later_in; [eassumption|]); done].
    intros env w a w' sp Hl Hi _ _ [= <- <- <-]. split_and!; [done|by exists []|by repeat constructor|].
    exists nothing. split; [|done]. intros q. cbn [fmap list_fmap]. rewrite held_cons, held_nil. unfold no_share. lia.
Qed.

Lemma claim_keeps s0 k n : record_file k = true →
  keeps s0 nothing (claim k n) (λ _ w m, m = one k ∧ OClaim k n ∈ trace w).
Proof.
  intros Hk. apply keeps_step. intros env w r w' _ Hi _ _ E. cbn beta in E. destruct (used k n (trace w)) eqn:Hu; [done|].
  injection E as <- <-. split_and!; [by apply Inv_emit|by exists [OClaim k n]|]. exists (one k). split; [|split; [done|by left]].
  intros q. unfold mu, one, nothing. cbn [emit trace]. rewrite pending_claim by (done || apply Hi).
  case_decide as Hq; [|lia]. subst q. assert (pending k (trace w) = false) as ->; [|lia].
  apply not_true_iff_false. intros ([m Hm]%claimed_spec & _)%pending_spec. by destruct (proj1 (used_false _ _ _ Hu) m).
Qed.

Lemma conclude_keeps s0 k n : n = one k ∨ n = nothing ∧ over k s0 → keeps s0 n (conclude k) (λ _ _ m, m = nothing).
Proof.
  intros Hn. apply keeps_step. intros env w r w' Hl Hi _ Htok E. cbn beta in E.
  assert (existsb (λ o, match o with OStarted k' _ | OFailed k' => String.eqb k' k | _ => false end) (trace w) = true ↔ over k w) as Ho.
  { rewrite happens_spec. split.
    - intros (o & Ho & Ek). destruct o; try done; apply String.eqb_eq in Ek as ->; [by right|left; by eexists].
    - intros [[p Hp]|Hp]; eexists; (split; [exact Hp|]); apply String.eqb_refl. }
  destruct Hn as [->|[-> Hn]].
  - pose proof (token_pending _ _ Htok) as Hp. destruct (existsb _ _) eqn:Ex.
    { apply pending_spec in Hp as (_ & Hst & Hfl). by destruct (proj1 Ho eq_refl) as [[p Hp]|?]; [destruct (Hst p)|]. }
    injection E as <- <-. split_and!; [by apply Inv_emit|by exists [OFailed k]|]. exists nothing. split; [|done].
    apply (spend (OFailed k) k); [by right|done..].
  - assert (over k w) as Hw by (destruct Hn as [[p ?]|?]; [left; exists p|right]; by eapply later_in).
    rewrite (proj2 Ho Hw) in E. injection E as <- <-. split_and!; [done|by exists []|]. exists nothing. by split.
Qed.

Lemma record_name_file n o : record_file (runnerRecordName n o) = true.
Proof.
  apply has_suffix_spec. unfold runnerRecordName. destruct (IsZero o); [by exists n|].
  exists (ownershipNamespace o +:+ "." +:+ n). by rewrite !str_app_assoc.
Qed.

Lemma Launch_keeps s0 k req : k = runnerRecordName (req_Name req) (req_Ownership req) → OClaim k (req_Name req) ∈ trace s0 →
  int64 (own_ScaleSetID (req_Ownership req)) → int64 (own_RunnerID (req_Ownership req)) →
  keeps s0 (one k)
    (Launch url_parse iso_image Golden ovmfCode accel vnc WorkDir QEMUBin ImgBin MemMB CPUs req)
    (λ _ w m, m = one k ∨ m = nothing ∧ over k w).
Proof.
  intros Hk Hc Hs Hr. unfold Launch. destruct (ownership_Validate _); [by left|]. destruct (_ && _); [by left|].
  destruct (negb _); [by left|]. rewrite <- Hk. apply launch_keeps; [done| |done..]. rewrite Hk. apply record_name_file.
Qed.

Local Notation run_body :=
  (body json_error eof url_parse iso_image Golden ovmfCode accel vnc WorkDir QEMUBin ImgBin MemMB CPUs).

Lemma body_keeps t s : pre t s → keeps s (λ k, no_share k t) (run_body t) ends.
Proof.
  intros Hpre. assert (∀ A (p : proc A), keeps s nothing p (λ _ _ m, m = nothing ∧ True) →
    keeps s nothing (pbind p (λ _, Ret tt)) ends) as Hunit.
  { intros A p Hp. by apply keeps_next. }
  assert (∀ p : proc unit, keeps s nothing p (λ _ _ m, m = nothing ∧ True) → keeps s nothing p ends) as Hends.
  { intros p Hp. eapply keeps_imply; [apply later_preorder| |exact Hp]. by intros a w m _ [-> _]. }
  destruct t as [req|p|p id cleans|p|p|o|id|]; cbn [body].
  - destruct Hpre as [Hs Hr]. cbn zeta. set (k := runnerRecordName _ _).
    eapply vm_keeps_then; [apply claim_keeps, record_name_file|]. cbn beta. intros _ s1 m _ [-> Hc].
    eapply vm_keeps_then; [by apply Launch_keeps|]. cbn beta. intros a s2 m _ Hm.
    eapply keeps_imply; [apply later_preorder| |by apply conclude_keeps]. by intros ? ? ? _ ->.
  - apply Hends, keeps_next; [apply write_pid_keeps|]. intros. apply exit_machine_keeps.
  - apply Hends, watch_keeps.
  - apply Hunit, keeps_reads. intros env w r w'. cbn beta. repeat case_match; congruence.
  - apply Hunit, Handle_Kill_keeps.
  - apply Hunit, ListOwnedRunners_keeps.
  - apply Hunit, RemoveOwnedRunner_keeps.
  - apply Hends, CleanupOrphans_keeps.
Qed.

Definition reaches (c : config World answers thread) : Prop := reachable run_body call possible New c.

Lemma vm_reaches_inv c : reaches c → Inv (mem c).
Proof.
  intros Hr.
  assert (∀ t, call t → (∀ s, pre t s) ∧ ∀ k, no_share k t = 0%nat) as Hcall by (intros t Ht; split; [intros s; by destruct t|done]).
  assert (Inv New) as H0 by (constructor; cbn; try done; intros; set_solver).
  exact (proj1 (ledger _ _ _ Inv later_than pre mu no_share later_preorder body_keeps Hcall New c (λ k, eq_refl) H0 Hr)).
Qed.

(** C12: in every interleaving of launches, removals, listings, clean-ups and
    machines, with any failures and with calls that stop anywhere: the machine
    of a launch is found in the work directory by a record that can be read,
    and which names its process once the launch has recorded it; and the files
    and the record of a runner are removed only after its machine has ended or
    failed to start - unless a removal read the record before the launch had
    recorded the process. *)
Theorem machine_has_record c : reaches c →
  (∀ p m, vms (mem c) !! p = Some m → hasty (vm_key m) (trace (mem c)) = false →
     ∃ r, disk (mem c) !! vm_key m = Some (record_text r) ∧ parse_record json_error (record_text r) = Ok r ∧
          rr_Name r = vm_name m ∧ (recorded (vm_key m) (trace (mem c)) = true → rr_Started r = true ∧ rr_PID r = p)) ∧
  (∀ later o earlier k, trace (mem c) = later ++ o :: earlier → (o = ORemoved k ∨ ∃ name, o = OCleared k name) →
     hasty k earlier = true ∨ OExited k ∈ earlier ∨ OFailed k ∈ earlier).
Proof.
  intros Hr. pose proof (vm_reaches_inv c Hr) as Hi. split.
  - intros p m Hm Hh. destruct (inv_vm _ Hi p m Hm) as (Hst & Hex & Hc). pose proof (inv_legal _ Hi) as Hl.
    assert (is_Some (last_record (vm_key m) (trace (mem c)))) as Hlast.
    { destruct (legal_at _ _ Hl Hst) as (later & earlier & E & _ & _ & H). rewrite E.
      apply (last_record_later _ (later ++ [OStarted (vm_key m) p])) in H. by rewrite <- app_assoc in H. }
    assert (¬ settled (vm_key m) (trace (mem c))) as Hns.
    { intros [?|[?|Hf]]; [congruence|done|]. by destruct (failed_not_started _ p _ Hl Hf). }
    destruct (inv_live _ Hi _ Hlast Hns) as [s Hs].
    destruct (inv_files _ Hi _ s Hs (vm_record_file _ p m Hi Hm)) as (r & Hr' & ->).
    destruct (last_record_wf _ _ _ Hl Hr') as ((Hparse & _) & Hc' & Hrec). exists r.
    split_and!; [done|by apply Hparse|by eapply claimed_once|]. intros Hrecd. rewrite Hrecd in Hrec.
    split; [apply Hrec|]. eapply started_once; [done|apply Hrec|done].
  - intros later o earlier k E Ho. pose proof (inv_legal _ Hi) as Hl. rewrite E in Hl. apply legal_suffix in Hl as [Ha _].
    destruct Ho as [-> | [name ->]]; exact Ha.
Qed.
End operations.

(** ** Two runs *)

Definition demo_request : LaunchRequest :=
  {| req_Name := "mr-1"; req_Image := ""; EncodedJITConfig := "jit"; req_WorkFolder := ""; req_Labels := [];
     req_Env := ∅; req_Mounts := [];
     req_Container := {| CPUCount := 0; cs_MemoryBytes := 0; cs_MemorySwapBytes := 0; cs_DNS := [] |};
     req_Index := 0; req_Ownership := Ownership "host" "acme" "win" 3 7 |}.
Definition demo_vm_answers : answers :=
  {| an_err := None; an_ctx := None; an_addr := "127.0.0.1:4000"; an_file := "data"; an_leaves := false;
     an_exists := λ _, false; an_pid := 42; an_alive := false; an_wait := WaitOk; an_abs := Ok "/vm"; an_lstat := None;
     an_link := λ p, Ok p; an_dial := None; an_writes := λ _, None; an_lines := [] |}.
Definition demo_vm_body := body errorf (errorf "EOF") (λ _, None) (λ _ _, "iso") "golden.qcow2" "" "kvm" "" "/vm" "qemu" "qemu-img" 0 0.
Definition demo_vm_key : string := Eval vm_compute in runnerRecordName "mr-1" (Ownership "host" "acme" "win" 3 7).
Definition demo_vm_run (sched : list (thread + nat * answers)) : config World answers thread :=
  default (Config New []) (run demo_vm_body sched (Config New [])).
Definition demo_launched : list (thread + nat * answers) :=
  inl (TLaunch demo_request) :: replicate 9 (inr (0%nat, demo_vm_answers)).

(** A launch that stops right after QEMU has started, and a removal. *)
Definition demo_orphaned : list (thread + nat * answers) :=
  inl (TLaunch demo_request) :: replicate 7 (inr (0%nat, demo_vm_answers)) ++
  inl (TRemove demo_vm_key) :: replicate 9 (inr (2%nat, demo_vm_answers)).

Example demo_orphan :
  vms (mem (demo_vm_run demo_orphaned)) !! 42 = Some (MkMachine demo_vm_key "mr-1") ∧
  disk (mem (demo_vm_run demo_orphaned)) = ∅ ∧ hasty demo_vm_key (trace (mem (demo_vm_run demo_orphaned))) = true.
Proof. split_and!; vm_compute; reflexivity. Qed.

Definition demo_call (t : thread) : bool :=
  match t with TLaunch req => bool_decide (req_Ownership req = Ownership "host" "acme" "win" 3 7) | _ => false end.

Lemma demo_launched_run : run demo_vm_body demo_launched (Config New []) = Some (demo_vm_run demo_launched).
Proof.
  apply (some_default (Config New []) (run demo_vm_body demo_launched (Config New []))). vm_compute. reflexivity.
Qed.

Lemma demo_launched_reached :
  reaches errorf (errorf "EOF") (λ _, None) (λ _ _, "iso") "golden.qcow2" "" "kvm" "" "/vm" "qemu" "qemu-img" 0 0
    (demo_vm_run demo_launched).
Proof.
  refine (run_reachable _ _ _ _ demo_launched _ _ (reach_init _ _ _ _) _ demo_launched_run).
  apply (admitted_checked _ _ _ demo_call (λ env _, an_pid env <? 2 ^ 31));
    [|intros env s; apply Z.ltb_lt|vm_compute; reflexivity].
  intros [] Hd; try discriminate Hd. apply bool_decide_eq_true in Hd. cbn [call]. rewrite Hd.
  split; split; vm_compute; discriminate.
Qed.

Lemma machine_has_record_witness :
  ∃ r, disk (mem (demo_vm_run demo_launched)) !! demo_vm_key = Some (record_text r) ∧ rr_PID r = 42.
Proof.
  pose proof (proj1 (machine_has_record _ _ _ _ _ _ _ _ _ _ _ _ _ _ demo_launched_reached) 42 (MkMachine demo_vm_key "mr-1")) as H.
  destruct H as (r & Hd & _ & _ & Hrec); [vm_compute; reflexivity..|].
  exists r. split; [exact Hd|]. apply Hrec. vm_compute. reflexivity.
Defined.
