(* ===== verification/Containers.v ===== *)
(** * The container backends

    [internal/backend/docker.go], [dockerlinux.go], [dockerwindows.go],
    [containerdwindows.go] and [discover.go].  The Docker daemon and nerdctl
    are interfaces: [Daemon] and [Nerdctl] carry their state through the calls
    the backends make, and say which containers there are and with which
    labels.  Log streams and the construction of the clients are left out. *)

From S2P Require Import Prelude GoErr GoStr NetIP Json Config Backend.

Local Open Scope Z_scope.
Local Open Scope go_scope.

(** ** Docker *)

Record docker_mount := MkDockerMount { dm_volume : bool; dm_Source : string; dm_Target : string; dm_ReadOnly : bool }.

(** [container.Config] and [container.HostConfig], as far as they are set. *)
Record container_config := MkContainerConfig {
  cc_Image : string;
  cc_Env : list string;
  cc_Labels : gmap string string
}.
Record host_config := MkHostConfig {
  hc_AutoRemove : bool;
  hc_Mounts : list docker_mount;
  hc_DNS : list string;
  hc_Memory : Z;
  hc_MemorySwap : Z;
  hc_CPUCount : Z;
  hc_NanoCPUs : Z;
  hc_Isolation : string;
  hc_ExtraHosts : list string
}.

(** The containers of a daemon: their labels, by ID and by name. *)
Record box := MkBox { box_Name : string; box_Labels : gmap string string }.
Definition boxes : Type := gmap string box.

(** An answer of [ContainerWait]: an error, or a status with the message of an
    error if it has one. *)
Inductive wait_answer := WErr (err : goerror) | WStatus (code : Z) (message : option string).

(** [container.ListOptions]: whether containers that do not run are listed too,
    and the values of the [label] filter. *)
Record list_options := MkListOptions { lo_All : bool; lo_Label : list string }.

(** The calls of the Docker client.  A container is addressed by its ID or its
    name; an image has labels of its own. *)
Class Daemon := {
  daemon : Type;
  boxes_of : daemon → boxes;
  image_labels : daemon → string → gmap string string;
  d_create : daemon → string → container_config → host_config → result string * daemon;
  d_start : daemon → string → option goerror * daemon;
  d_stop : daemon → string → option goerror * daemon;
  d_remove : daemon → string → option goerror * daemon;
  d_list : daemon → list_options → result (list (string * gmap string string));
  d_wait : daemon → string → wait_answer * daemon
}.

(** [cerrdefs.IsNotFound] *)
Definition is_not_found (e : goerror) : bool := errors_is "cerrdefs.ErrNotFound" e.
Definition unless_missing (err : option goerror) : option goerror :=
  match err with Some e => if is_not_found e then None else Some e | None => None end.

Section docker.
Context `{!Daemon}.
(** The parser of URLs; the name of the backend, [docker-windows] for a Windows
    daemon, and its isolation. *)
Variable url_parse : string → option parsed_url.
Variable name isolation : string.

(** [DockerTLSConfig]; the client option is made of the three files. *)
Record DockerTLSConfig := MkTLS { CAFile : string; CertFile : string; KeyFile : string }.
Definition dockerTLSClientOption (tls : DockerTLSConfig) : result (option DockerTLSConfig) :=
  if is_empty (CAFile tls) && is_empty (CertFile tls) && is_empty (KeyFile tls) then Ok None
  else if is_empty (CAFile tls) || is_empty (CertFile tls) || is_empty (KeyFile tls)
  then Err (errorf "CA, certificate, and key files are all required")
  else Ok (Some tls).

Definition toDockerMounts (ms : list Mount) : list docker_mount :=
  (λ m, MkDockerMount (mnt_Volume m) (mnt_Source m) (mnt_Target m) (mnt_ReadOnly m)) <$> ms.

(** The environment in the order of its names. *)
Definition sorted_env (env : gmap string string) : list string :=
  (λ k, k +:+ "=" +:+ default "" (env !! k)) <$> sort_strings (map_to_list env).*1.

(** The labels of a container. *)
Definition launch_labels (req : LaunchRequest) : gmap string string :=
  ownershipLabels (req_Ownership req) ∪
  <[labelIndex := format_int (req_Index req)]> (<[labelName := req_Name req]> {[labelManaged := "true"]}).

Definition isWindows : bool := String.eqb name "docker-windows".

Definition launchConfigs (req : LaunchRequest) : result (container_config * host_config) :=
  let settings := "container " +:+ req_Name req +:+ " settings: " in
  match validateContainerSettings req with
  | Some e => Err (errorf_w settings e)
  | None =>
      let c := req_Container req in
      if isWindows && negb (cs_MemorySwapBytes c =? 0)
      then Err (errorf (settings +:+ "memory swap is unsupported by Docker on Windows"))
      else
        let cfg := MkContainerConfig (req_Image req)
                     (("JIT_CONFIG=" +:+ EncodedJITConfig req) :: sorted_env (req_Env req)) (launch_labels req) in
        let ch := CacheHost url_parse (req_Env req) in
        let host := MkHostConfig (IsZero (req_Ownership req)) (toDockerMounts (req_Mounts req)) (cs_DNS c)
                      (cs_MemoryBytes c) (cs_MemorySwapBytes c)
                      (if isWindows then CPUCount c else 0)
                      (if isWindows then 0 else wrap64 (CPUCount c * nanoCPUsPerCPU))
                      isolation
                      (if is_empty ch then [] else [ch +:+ ":host-gateway"]) in
        Ok (cfg, host)
  end.

(** [dockerHandle] *)
Record dockerHandle := MkDockerHandle { dh_id : string; preserve : bool }.

(** [Launch]: the handle, if there is one, and the error. *)
Definition Launch (req : LaunchRequest) (d : daemon) : option dockerHandle * option goerror * daemon :=
  match ownership_Validate (req_Ownership req) with
  | Some e => (None, Some (errorf_w "docker: " e), d)
  | None =>
      if negb (IsZero (req_Ownership req)) && (own_RunnerID (req_Ownership req) =? 0)
      then (None, Some (errorf "docker: runner ID is required for owned launches"), d)
      else
        match launchConfigs req with
        | Err e => (None, Some e, d)
        | Ok (cfg, host) =>
            let kept := negb (IsZero (req_Ownership req)) in
            match d_create d (req_Name req) cfg host with
            | (Err e, d) =>
                (Some (MkDockerHandle (req_Name req) kept),
                 Some (errorf_w ("create container " +:+ req_Name req +:+ ": ") e), d)
            | (Ok id, d) =>
                match d_start d id with
                | (Some e, d) => (Some (MkDockerHandle id kept),
                                  Some (errorf_w ("start container " +:+ req_Name req +:+ ": ") e), d)
                | (None, d) => (Some (MkDockerHandle id kept), None, d)
                end
            end
        end
  end.

(** A key that is missing reads as the empty string. *)
Definition labelsMatch (actual expected : gmap string string) : bool :=
  forallb (λ '(key, value), String.eqb (default "" (actual !! key)) value) (map_to_list expected).

(** The runners of the containers that match. *)
Definition owned_of (labels : gmap string string) (l : list (string * gmap string string)) : list OwnedRunner :=
  omap (λ '(id, actual), if labelsMatch actual labels then ownedRunner id actual else None) l.

(** [filters.Args], filled in the order of a map. *)
Definition label_filters (labels : gmap string string) : list string :=
  (λ '(key, value), key +:+ "=" +:+ value) <$> map_to_list labels.

Definition ListOwnedRunners (o : RunnerOwnership) (d : daemon) : result (list OwnedRunner) :=
  if bool_decide (ownership_Validate o ≠ None) || IsZero o
  then Err (errorf "docker: complete runner ownership is required")
  else
    let labels := reconciliationLabels o in
    match d_list d (MkListOptions true (label_filters labels)) with
    | Err e => Err (errorf_w "list owned containers: " e)
    | Ok l => Ok (owned_of labels l)
    end.

Definition RemoveOwnedRunner (resourceID : string) (d : daemon) : option goerror * daemon :=
  let '(err, d) := d_remove d resourceID in (unless_missing err, d).

(** [dockerHandle.Wait]; [ctx] is the error of a context that ends first. *)
Definition Wait (h : dockerHandle) (ctx : option goerror) (d : daemon) : Z * option goerror * daemon :=
  match ctx with
  | Some e => (-1, Some e, d)
  | None =>
      match d_wait d (dh_id h) with
      | (WErr e, d) => (-1, Some e, d)
      | (WStatus code (Some message), d) => (code, Some (errorf ("container wait error: " +:+ message)), d)
      | (WStatus code None, d) => (code, None, d)
      end
  end.

Definition Kill (h : dockerHandle) (d : daemon) : option goerror * daemon :=
  let '(stopErr, d) := d_stop d (dh_id h) in
  let stopErr := unless_missing stopErr in
  if preserve h then (stopErr, d)
  else let '(removeErr, d) := d_remove d (dh_id h) in (errors_join [stopErr; unless_missing removeErr], d).

(** [EnsureImage]: whether the image is there, and how a pull ends. *)
Definition EnsureImage (autoPull present : bool) (pull drain : option goerror) (imageRef : string) : option goerror :=
  if present then None
  else if negb autoPull then Some (errorf ("image " +:+ imageRef +:+ " not present and auto-pull disabled"))
  else match pull with
       | Some e => Some (errorf_w ("pull " +:+ imageRef +:+ ": ") e)
       | None => match drain with
                 | Some e => Some (errorf_w ("pull " +:+ imageRef +:+ " (drain): ") e)
                 | None => None
                 end
       end.
End docker.

(** [newDockerWindows]: the isolation of the backend; the controller's system
    and the isolation it would choose are given. *)
Definition isLocalWindowsPipe (goos host : string) : bool :=
  String.eqb goos "windows" && has_prefix "npipe://" (to_lower host).
Definition newDockerWindows (goos autoIsolation host isolation : string) : result string :=
  if is_empty isolation || String.eqb isolation "auto" then
    if negb (isLocalWindowsPipe goos host)
    then Err (errorf ("docker windows isolation=auto requires a verified-local npipe host; " +:+
                      "set isolation to process or hyperv for " +:+ quote host))
    else Ok autoIsolation
  else Ok isolation.

(** ** containerd *)

(** nerdctl: what a command prints, its error, and what becomes of the
    containers. *)
Class Nerdctl := {
  nerd : Type;
  nboxes_of : nerd → boxes;
  n_run : nerd → list string → string * option goerror * nerd
}.

Definition isMissingContainerError (err : option goerror) : bool :=
  match err with Some e => contains (to_lower (error_text e)) "no such" | None => false end.

(** A label map as JSON: every member a string; null is the empty map. *)
Definition decode_labels (v : json) : decoded (gmap string string) :=
  match v with
  | JObj ms => foldl (λ '(m, ok) '(k, v), let '(s, ok') := as_string "" v in (<[k := s]> m, ok && ok')) (∅, true) ms
  | JNull => (∅, true)
  | _ => (∅, false)
  end.

Section containerd.
Context `{!Nerdctl}.
Variable url_parse : string → option parsed_url.
Variable json_error : string → goerror.
Variable c_isolation : string.
(** The address of the host on the container network, empty when there is
    none. *)
Variable hostGatewayIP : string.

Definition run_nerdctl (args : list string) (d : nerd) : string * option goerror * nerd := n_run d args.

(** A repeated flag. *)
Definition flags (flag : string) (values : list string) : list string := mbind (λ v, [flag; v]) values.

Definition label_values (labels : gmap string string) : list string :=
  (λ k, k +:+ "=" +:+ default "" (labels !! k)) <$> sort_strings (map_to_list labels).*1.

Definition mount_value (m : Mount) : string :=
  mnt_Source m +:+ ":" +:+ mnt_Target m +:+ (if mnt_ReadOnly m then ":ro" else "").

Definition launchArgs (req : LaunchRequest) (env : gmap string string) : list string :=
  let c := req_Container req in
  ["run"; "-d"; "--name"; req_Name req; "--isolation"; c_isolation] ++
  (if CPUCount c =? 0 then [] else ["--cpus"; format_int (CPUCount c)]) ++
  (if cs_MemoryBytes c =? 0 then [] else ["--memory"; format_int (cs_MemoryBytes c)]) ++
  ["-e"; "JIT_CONFIG=" +:+ EncodedJITConfig req] ++
  flags "-e" (sorted_env env) ++
  flags "-v" (mount_value <$> req_Mounts req) ++
  ["--label"; labelManaged +:+ "=true"; "--label"; labelName +:+ "=" +:+ req_Name req] ++
  flags "--label" (label_values (ownershipLabels (req_Ownership req))) ++
  [req_Image req].

Record containerdHandle := MkContainerdHandle {
  ch_name : string;
  ch_id : string;
  ch_preserve : bool;
  failedLaunchLabels : option (gmap string string)
}.

Definition expected_labels (req : LaunchRequest) : gmap string string :=
  <[labelName := req_Name req]> (<[labelManaged := "true"]> (ownershipLabels (req_Ownership req))).

Definition C_Launch (req : LaunchRequest) (d : nerd) : option containerdHandle * option goerror * nerd :=
  let settings := "container " +:+ req_Name req +:+ " settings: " in
  match ownership_Validate (req_Ownership req) with
  | Some e => (None, Some (errorf_w "containerd: " e), d)
  | None =>
      if negb (IsZero (req_Ownership req)) && (own_RunnerID (req_Ownership req) =? 0)
      then (None, Some (errorf "containerd: runner ID is required for owned launches"), d)
      else
        match validateContainerSettings req with
        | Some e => (None, Some (errorf_w settings e), d)
        | None =>
            if negb (cs_MemorySwapBytes (req_Container req) =? 0)
            then (None, Some (errorf (settings +:+ "memory swap is unsupported by nerdctl on Windows")), d)
            else if negb (bool_decide (cs_DNS (req_Container req) = []))
            then (None, Some (errorf (settings +:+ "DNS is unsupported by nerdctl on Windows")), d)
            else
              let env := if negb (is_empty (CacheHost url_parse (req_Env req))) && negb (is_empty hostGatewayIP)
                         then RewriteCacheHost url_parse (req_Env req) hostGatewayIP else req_Env req in
              let kept := negb (IsZero (req_Ownership req)) in
              match run_nerdctl (launchArgs req env) d with
              | (_, Some e, d) =>
                  (Some (MkContainerdHandle (req_Name req) (req_Name req) kept (Some (expected_labels req))),
                   Some (errorf_w ("run container " +:+ req_Name req +:+ ": ") e), d)
              | (out, None, d) =>
                  let id := trim_space out in
                  (Some (MkContainerdHandle (req_Name req) (if is_empty id then req_Name req else id) kept None), None, d)
              end
        end
  end.

Definition list_args (labels : gmap string string) : list string :=
  ["ps"; "-a"] ++ flags "--filter" ((λ v, "label=" +:+ v) <$> label_values labels) ++
  ["--no-trunc"; "--format"; "{{.ID}}"].
Definition inspect_args (id : string) : list string := ["inspect"; "--format"; "{{json .Config.Labels}}"; id].

(** The labels nerdctl prints. *)
Definition parse_labels (raw : string) : result (gmap string string) :=
  match parse_json (trim_space raw) with
  | None => Err (json_error raw)
  | Some v => let '(m, ok) := decode_labels v in if ok : bool then Ok m else Err (json_error raw)
  end.

(** The loop over the IDs. *)
Fixpoint inspect_all (labels : gmap string string) (ids : list string) (d : nerd) (owned : list OwnedRunner)
    : result (list OwnedRunner) * nerd :=
  match ids with
  | [] => (Ok owned, d)
  | id :: ids =>
      match run_nerdctl (inspect_args id) d with
      | (_, Some e, d) => (Err (errorf_w ("inspect owned container " +:+ id +:+ ": ") e), d)
      | (raw, None, d) =>
          match parse_labels raw with
          | Err e => (Err (errorf_w ("decode labels for owned container " +:+ id +:+ ": ") e), d)
          | Ok actual => inspect_all labels ids d (owned ++ owned_of labels [(id, actual)])
          end
      end
  end.

Definition C_ListOwnedRunners (o : RunnerOwnership) (d : nerd) : result (list OwnedRunner) * nerd :=
  if bool_decide (ownership_Validate o ≠ None) || IsZero o
  then (Err (errorf "containerd: complete runner ownership is required"), d)
  else
    let labels := reconciliationLabels o in
    match run_nerdctl (list_args labels) d with
    | (_, Some e, d) => (Err (errorf_w "list owned containers: " e), d)
    | (out, None, d) => inspect_all labels (fields out) d []
    end.

Definition C_RemoveOwnedRunner (resourceID : string) (d : nerd) : option goerror * nerd :=
  let '(_, err, d) := run_nerdctl ["rm"; "-f"; resourceID] d in
  (if isMissingContainerError err then None else err, d).

(** [containerdHandle.Wait] *)
Definition C_Wait (h : containerdHandle) (d : nerd) : Z * option goerror * nerd :=
  let '(out, err, d) := run_nerdctl ["wait"; ch_name h] d in
  let '(err, d) :=
    if negb (ch_preserve h) then
      let '(_, cleanupErr, d) := run_nerdctl ["rm"; "-f"; ch_name h] d in
      (if negb (isMissingContainerError cleanupErr) then errors_join [err; cleanupErr] else err, d)
    else (err, d) in
  match err with
  | Some e => (-1, Some e, d)
  | None =>
      match parse_int (trim_space out) with
      | Some code => (code, None, d)
      | None => (-1, Some (errorf_w ("parse exit code " +:+ quote (trim_space out) +:+ ": ")
                             (ENew "strconv.ErrSyntax" "invalid syntax")), d)
      end
  end.

(** Whether a container left by a failed launch may be removed: [Ok false]
    when there is none. *)
Definition check_failed_launch (h : containerdHandle) (d : nerd) : result bool * nerd :=
  match failedLaunchLabels h with
  | None => (Ok true, d)
  | Some expected =>
      match run_nerdctl (inspect_args (ch_name h)) d with
      | (raw, err, d) =>
          if isMissingContainerError err then (Ok false, d)
          else match err with
               | Some e => (Err (errorf_w "inspect failed container: " e), d)
               | None =>
                   match parse_labels raw with
                   | Err e => (Err (errorf_w "decode failed container labels: " e), d)
                   | Ok actual =>
                       if negb (labelsMatch actual expected)
                       then (Err (errorf "refusing to remove container with mismatched ownership"), d)
                       else (Ok true, d)
                   end
               end
      end
  end.

Definition kill_args (h : containerdHandle) : list string :=
  if ch_preserve h then ["stop"; ch_name h] else ["rm"; "-f"; ch_name h].

(** [containerdHandle.Kill] *)
Definition C_Kill (h : containerdHandle) (d : nerd) : option goerror * nerd :=
  match check_failed_launch h d with
  | (Err e, d) => (Some e, d)
  | (Ok false, d) => (None, d)
  | (Ok true, d) =>
      let '(_, err, d) := run_nerdctl (kill_args h) d in
      (if isMissingContainerError err then None else err, d)
  end.

Definition C_EnsureImage (imageRef : string) (d : nerd) : option goerror * nerd :=
  match run_nerdctl ["image"; "inspect"; imageRef] d with
  | (_, None, d) => (None, d)
  | (_, Some _, d) =>
      match run_nerdctl ["pull"; imageRef] d with
      | (_, Some e, d) => (Some (errorf_w ("pull " +:+ imageRef +:+ ": ") e), d)
      | (_, None, d) => (None, d)
      end
  end.
End containerd.

(** [NewContainerdWindows]: the address, the namespace and the isolation. *)
Definition NewContainerdWindows (autoIsolation address namespace isolation : string) : string * string * string :=
  (if is_empty address then "\\.\pipe\containerd-containerd" else address,
   if is_empty namespace then "multirunner" else namespace,
   if is_empty isolation || String.eqb isolation "auto" then autoIsolation else isolation).

(** ** Discovery *)

Record DockerEndpoint := MkDockerEndpoint { ep_Host : string; ep_OSType : string; ep_Architecture : string }.

Fixpoint dedupe_from (seen : list string) (hosts : list string) : list string :=
  match hosts with
  | [] => []
  | h :: hosts => if bool_mem h seen then dedupe_from seen hosts else h :: dedupe_from (h :: seen) hosts
  end.
Definition dedupe (hosts : list string) : list string := dedupe_from [] hosts.

(** [probeDockerHost]: the OS of the ping, and the OS and the architecture of
    the daemon's information, as far as it answers. *)
Definition probeDockerHost (answer : string → option (string * option (string * string))) (host : string)
    : option DockerEndpoint :=
  match answer host with
  | Some (ping_os, Some (info_os, arch)) =>
      Some (MkDockerEndpoint host (if is_empty ping_os then info_os else ping_os) arch)
  | _ => None
  end.

(** [DiscoverDockerHosts]: the probes run at the same time, and each fills its
    own place. *)
Definition DiscoverDockerHosts (answer : string → option (string * option (string * string))) (env : string)
    (candidates : list string) : list DockerEndpoint :=
  let candidates := dedupe (if is_empty env then candidates else env :: candidates) in
  omap (λ host, match probeDockerHost answer host with
                | Some ep => if is_empty (ep_Host ep) then None else Some ep
                | None => None
                end) candidates.

Definition PickDockerEndpoint (answer : string → option (string * option (string * string))) (env : string)
    (candidates : list string) (osType : string) : DockerEndpoint :=
  match filter (λ ep, ep_OSType ep = osType) (DiscoverDockerHosts answer env candidates) with
  | ep :: _ => ep
  | [] => MkDockerEndpoint "" "" ""
  end.
