(* ===== verification/ContainersSpec.v ===== *)
(** * What the container backends promise

    [OwnedStore] is what reconciliation asks of a backend: the runners it lists
    are exactly those whose containers carry the labels of the owner.  The
    Docker and the containerd backend are instances, over a daemon that behaves
    as documented; then a restarted process finds exactly the runners that a
    process with the same identity launched, and that still have a container. *)

From S2P Require Import Prelude GoErr GoStr NetIP Json JsonInt Config Backend Containers.

Local Open Scope Z_scope.

(** ** Labels *)

Definition int64 (z : Z) : Prop := int64_min ≤ z ≤ int64_max.

(** An owner that a launch accepts, its numbers within their Go types. *)
Definition owner_ok (o : RunnerOwnership) : Prop :=
  IsZero o = false ∧ own_RunnerID o ≠ 0 ∧ int64 (own_RunnerID o).

(** Two identities that differ in nothing but the scale set and the runner. *)
Definition same_owner (a b : RunnerOwnership) : Prop :=
  own_Instance a = own_Instance b ∧ own_Target a = own_Target b ∧ own_Pool a = own_Pool b.

(** The labels by which a container is found again; it may have others, of its
    image. *)
Definition carries (req : LaunchRequest) (labels : gmap string string) : Prop := expected_labels req ⊆ labels.

(** The container was made for [req]; if that names no owner, nothing gives the
    container one. *)
Definition made_for (req : LaunchRequest) (labels : gmap string string) : Prop :=
  carries req labels ∧ (IsZero (req_Ownership req) = true → labels !! labelInstance = None).

(** A container that nothing of multirunner made. *)
Definition foreign (labels : gmap string string) : Prop := labels !! labelManaged ≠ Some "true".

Lemma ownershipLabels_owned o : IsZero o = false →
  ownershipLabels o = list_to_map
    [(labelManaged, "true"); (labelInstance, own_Instance o); (labelTarget, own_Target o);
     (labelPool, own_Pool o); (labelScaleSetID, format_int (own_ScaleSetID o));
     (labelRunnerID, format_int (own_RunnerID o))].
Proof. intros Hz. unfold ownershipLabels. by rewrite Hz. Qed.

Lemma labelsMatch_spec actual expected :
  labelsMatch actual expected = true ↔ ∀ k v, expected !! k = Some v → default "" (actual !! k) = v.
Proof.
  unfold labelsMatch. rewrite forallb_forall. split.
  - intros H k v Hkv. specialize (H (k, v)). apply String.eqb_eq, H, list_elem_of_In, elem_of_map_to_list, Hkv.
  - intros H [k v] Hin. apply list_elem_of_In, elem_of_map_to_list in Hin. apply String.eqb_eq. by apply H.
Qed.

Lemma reconciliation_lookup o : IsZero o = false →
  reconciliationLabels o =
    <[labelManaged := "true"]> (<[labelInstance := own_Instance o]> (<[labelTarget := own_Target o]> {[labelPool := own_Pool o]})).
Proof.
  intros Hz. unfold reconciliationLabels. rewrite ownershipLabels_owned by done.
  generalize (format_int (own_ScaleSetID o)), (format_int (own_RunnerID o)). intros a b. vm_compute. reflexivity.
Qed.

(** The labels of the owner match exactly the containers of its runners. *)
Lemma matches_owner o labels : IsZero o = false → labelsMatch labels (reconciliationLabels o) = true ↔
  default "" (labels !! labelManaged) = "true" ∧ default "" (labels !! labelInstance) = own_Instance o ∧
  default "" (labels !! labelTarget) = own_Target o ∧ default "" (labels !! labelPool) = own_Pool o.
Proof.
  intros Hz. rewrite labelsMatch_spec, reconciliation_lookup by done. split.
  - intros H. split_and!; apply H; vm_compute; reflexivity.
  - intros (Hm & Hi & Ht & Hp) k v. rewrite !lookup_insert, lookup_singleton.
    repeat case_decide; subst; intros; simplify_eq; done.
Qed.

Lemma expected_owned req : IsZero (req_Ownership req) = false →
  let o := req_Ownership req in let m := expected_labels req in
  m !! labelManaged = Some "true" ∧ m !! labelName = Some (req_Name req) ∧ m !! labelInstance = Some (own_Instance o) ∧
  m !! labelTarget = Some (own_Target o) ∧ m !! labelPool = Some (own_Pool o) ∧
  m !! labelRunnerID = Some (format_int (own_RunnerID o)).
Proof.
  intros Hz. cbn zeta. unfold expected_labels. rewrite ownershipLabels_owned by done.
  generalize (format_int (own_ScaleSetID (req_Ownership req))), (format_int (own_RunnerID (req_Ownership req))).
  intros a b. split_and!; vm_compute; reflexivity.
Qed.

Lemma carries_lookup req labels k v : carries req labels → expected_labels req !! k = Some v → labels !! k = Some v.
Proof. intros Hc Hk. by eapply lookup_weaken. Qed.

(** The container of a launched runner is found by its owner and nobody else,
    and the runner is read back from its labels. *)
Lemma carried_owned req labels o : IsZero (req_Ownership req) = false → IsZero o = false → carries req labels →
  (labelsMatch labels (reconciliationLabels o) = true ↔ same_owner (req_Ownership req) o).
Proof.
  intros Hz Ho Hc. rewrite matches_owner by done. destruct (expected_owned req Hz) as (H1 & _ & H3 & H4 & H5 & _).
  rewrite (carries_lookup _ _ _ _ Hc H1), (carries_lookup _ _ _ _ Hc H3), (carries_lookup _ _ _ _ Hc H4),
    (carries_lookup _ _ _ _ Hc H5). cbn. unfold same_owner. tauto.
Qed.

Lemma carried_runner req labels i : owner_ok (req_Ownership req) → carries req labels →
  ownedRunner i labels = Some (MkOwnedRunner i (req_Name req) (own_RunnerID (req_Ownership req))).
Proof.
  intros (Hz & Hne & Hr) Hc. destruct (expected_owned req Hz) as (_ & H2 & _ & _ & _ & H6).
  unfold ownedRunner. rewrite (carries_lookup _ _ _ _ Hc H2), (carries_lookup _ _ _ _ Hc H6). cbn [default from_option id].
  rewrite parse_format_int by done. by rewrite (proj2 (Z.eqb_neq _ _)).
Qed.

(** A container without owner labels, or not of multirunner, is never found. *)
Lemma unowned_hidden labels o : IsZero o = false → ownership_Validate o = None →
  (foreign labels ∨ ∃ req, IsZero (req_Ownership req) = true ∧ made_for req labels) →
  labelsMatch labels (reconciliationLabels o) = false.
Proof.
  intros Hz Hv Hl. apply not_true_iff_false. rewrite matches_owner by done. intros (Hm & Hi & _).
  destruct Hl as [Hf|(req & Hreq & Hc)].
  - apply Hf. destruct (labels !! labelManaged); cbn in Hm; congruence.
  - rewrite (proj2 Hc Hreq) in Hi. cbn in Hi.
    unfold ownership_Validate in Hv. rewrite Hz, <- Hi in Hv. done.
Qed.

(** ** The interface *)

Class OwnedStore := {
  store : Type;
  store_boxes : store → boxes;
  store_list : RunnerOwnership → store → result (list OwnedRunner)
}.

(** The listing is that of the matching containers. *)
Class OwnedStoreLaws (S : OwnedStore) : Prop :=
  list_exact o (s : store) l : store_list o s = Ok l →
    IsZero o = false ∧ ownership_Validate o = None ∧
    ∀ r, r ∈ l ↔ ∃ id b, store_boxes s !! id = Some b ∧
      labelsMatch (box_Labels b) (reconciliationLabels o) = true ∧ ownedRunner id (box_Labels b) = Some r.

(** What the containers of a store are. *)
Definition accounted (launched : list LaunchRequest) (bs : boxes) : Prop :=
  ∀ id b, bs !! id = Some b → foreign (box_Labels b) ∨ ∃ req, req ∈ launched ∧ made_for req (box_Labels b).

Definition accepted (req : LaunchRequest) : Prop := IsZero (req_Ownership req) = true ∨ owner_ok (req_Ownership req).

Lemma store_reconciles {S : OwnedStore} `{!OwnedStoreLaws S} launched o (s : store) l :
  accounted launched (store_boxes s) → Forall accepted launched → store_list o s = Ok l →
  ∀ r, r ∈ l ↔ ∃ id b req, store_boxes s !! id = Some b ∧ req ∈ launched ∧ carries req (box_Labels b) ∧
    IsZero (req_Ownership req) = false ∧ same_owner (req_Ownership req) o ∧
    r = MkOwnedRunner id (req_Name req) (own_RunnerID (req_Ownership req)).
Proof.
  intros Ha Hacc Hl r. destruct (list_exact o s l Hl) as (Hz & Hv & ->). rewrite Forall_forall in Hacc. split.
  - intros (id & b & Hb & Hm & Hr). destruct (Ha id b Hb) as [Hf|(req & Hin & Hc)].
    { by rewrite unowned_hidden in Hm by auto. }
    destruct (Hacc req Hin) as [Hzr|Hok]; [by rewrite unowned_hidden in Hm by eauto|].
    destruct Hc as [Hc _]. rewrite (carried_runner req) in Hr by done. injection Hr as <-. pose proof (proj1 Hok) as Hzr.
    rewrite (carried_owned req) in Hm by done. by exists id, b, req.
  - intros (id & b & req & Hb & Hin & Hc & Hzr & Hs & ->). exists id, b.
    destruct (Hacc req Hin) as [?|Hok]; [congruence|]. split_and!; [done|by apply (carried_owned req)|by apply carried_runner].
Qed.

(** ** Docker *)

(** A value of the label filter: [key=value], or a key. *)
Definition satisfies (labels : gmap string string) (f : string) : bool :=
  let '(key, value, found) := cut "=" f in
  if found : bool then bool_decide (labels !! key = Some value) else bool_decide (is_Some (labels !! key)).

(** The daemon, as documented: a container that is created has the labels asked
    for and those of its image that it was not given, and may exist although
    the answer was lost; what is listed exists, and of [All] containers those
    that satisfy every filter are; the other calls create nothing. *)
Class DaemonLaws `{!Daemon} : Prop := {
  create_boxes d n cfg h r d' i b : d_create d n cfg h = (r, d') → boxes_of d' !! i = Some b →
    boxes_of d !! i = Some b ∨ box_Labels b = cc_Labels cfg ∪ image_labels d (cc_Image cfg);
  start_boxes d i r d' : d_start d i = (r, d') → boxes_of d' ⊆ boxes_of d;
  stop_boxes d i r d' : d_stop d i = (r, d') → boxes_of d' ⊆ boxes_of d;
  remove_boxes d i r d' : d_remove d i = (r, d') → boxes_of d' ⊆ boxes_of d;
  wait_boxes d i r d' : d_wait d i = (r, d') → boxes_of d' ⊆ boxes_of d;
  list_boxes d opts l i ls : d_list d opts = Ok l → (i, ls) ∈ l → ∃ b, boxes_of d !! i = Some b ∧ ls = box_Labels b;
  list_all d fs l i b : d_list d (MkListOptions true fs) = Ok l → boxes_of d !! i = Some b →
    Forall (λ f, satisfies (box_Labels b) f = true) fs → (i, box_Labels b) ∈ l
}.

#[export] Instance docker_store `{!Daemon} : OwnedStore :=
  {| store := daemon; store_boxes := boxes_of; store_list := ListOwnedRunners |}.

(** The values of the labels of a complete owner are not empty. *)
Lemma reconciliation_filled o k v : IsZero o = false → ownership_Validate o = None →
  reconciliationLabels o !! k = Some v → v ≠ "".
Proof.
  intros Hz Hv. unfold ownership_Validate in Hv. rewrite Hz in Hv.
  rewrite fail_if_None, !orb_false_iff, !is_empty_false in Hv. destruct Hv as (((Hi & Ht) & Hp) & _).
  rewrite reconciliation_lookup by done. rewrite !lookup_insert, lookup_singleton.
  repeat case_decide; intros; simplify_eq; done.
Qed.

Lemma matches_filter o ls : IsZero o = false → ownership_Validate o = None →
  labelsMatch ls (reconciliationLabels o) = true →
  Forall (λ f, satisfies ls f = true) (label_filters (reconciliationLabels o)).
Proof.
  intros Hz Hv Hm. rewrite labelsMatch_spec in Hm. unfold label_filters. apply Forall_fmap, Forall_forall.
  intros [k v] Hk%elem_of_map_to_list.
  assert (ls !! k = Some v) as Hls.
  { pose proof (reconciliation_filled o k v Hz Hv Hk). specialize (Hm k v Hk). destruct (ls !! k); cbn in Hm; congruence. }
  assert (cut "=" (k +:+ "=" +:+ v) = (k, v, true)) as Hcut.
  { rewrite reconciliation_lookup, !lookup_insert, lookup_singleton in Hk by done. clear Hm Hls.
    repeat case_decide; subst; (reflexivity || done). }
  change (satisfies ls (k +:+ "=" +:+ v) = true). unfold satisfies. rewrite Hcut. by apply bool_decide_eq_true.
Qed.

Lemma owned_of_spec labels l r : r ∈ owned_of labels l ↔
  ∃ i ls, (i, ls) ∈ l ∧ labelsMatch ls labels = true ∧ ownedRunner i ls = Some r.
Proof.
  unfold owned_of. rewrite list_elem_of_omap. split.
  - intros ([i ls] & Hin & Hr). destruct (labelsMatch ls labels) eqn:Hm; [|done]. eauto.
  - intros (i & ls & Hin & Hm & Hr). exists (i, ls). by rewrite Hm.
Qed.

#[export] Instance docker_laws `{DaemonLaws} : OwnedStoreLaws docker_store.
Proof.
  intros o d l Hl. cbn in Hl. unfold ListOwnedRunners in Hl. destruct (bool_decide _ || _) eqn:Ho; [done|].
  apply orb_false_iff in Ho as [Hv%bool_decide_eq_false Hz]. assert (ownership_Validate o = None) as Hv'.
  { destruct (ownership_Validate o); [|done]. by destruct Hv. }
  split_and!; [done..|]. destruct (d_list d _) as [cs|] eqn:Hd; [|done]. injection Hl as <-. intros r.
  rewrite owned_of_spec. split.
  - intros (i & ls & Hin & Hm & Hr). eapply list_boxes in Hin as (b & Hbx & ->); [|done]. by exists i, b.
  - intros (i & b & Hbx & Hm & Hr). exists i, (box_Labels b). split_and!; [|done..].
    eapply list_all; [done..|]. by apply matches_filter.
Qed.

(** What happens to a daemon: the calls of the backend, with the requests it
    launched, and what anybody else does.  A pool that owns nothing runs an
    image that does not name an owner. *)
Inductive docker_step `{!Daemon} url_parse name isolation :
    daemon * list LaunchRequest → daemon * list LaunchRequest → Prop :=
| DkLaunch req h e d d' launched : int64 (own_RunnerID (req_Ownership req)) →
    (IsZero (req_Ownership req) = true → image_labels d (req_Image req) !! labelInstance = None) →
    Launch url_parse name isolation req d = (Some h, e, d') →
    docker_step url_parse name isolation (d, launched) (d', req :: launched)
| DkRefused req e d d' launched : Launch url_parse name isolation req d = (None, e, d') →
    docker_step url_parse name isolation (d, launched) (d', launched)
| DkRemove i e d d' launched : RemoveOwnedRunner i d = (e, d') →
    docker_step url_parse name isolation (d, launched) (d', launched)
| DkKill h e d d' launched : Kill h d = (e, d') → docker_step url_parse name isolation (d, launched) (d', launched)
| DkWait h ctx r d d' launched : Wait h ctx d = (r, d') → docker_step url_parse name isolation (d, launched) (d', launched)
| DkOther d d' launched :
    (∀ i b, boxes_of d' !! i = Some b → boxes_of d !! i = Some b ∨ foreign (box_Labels b)) →
    docker_step url_parse name isolation (d, launched) (d', launched).

Lemma expected_launch req k v : expected_labels req !! k = Some v → launch_labels req !! k = Some v.
Proof.
  unfold launch_labels, expected_labels. intros Hk. apply lookup_union_Some_raw.
  destruct (ownershipLabels (req_Ownership req) !! k) as [v'|] eqn:Ho.
  - left. destruct (IsZero (req_Ownership req)) eqn:Hz; [unfold ownershipLabels in Ho; by rewrite Hz, lookup_empty in Ho|].
    rewrite ownershipLabels_owned in Ho, Hk by done. revert Ho Hk.
    generalize (format_int (own_ScaleSetID (req_Ownership req))), (format_int (own_RunnerID (req_Ownership req))).
    intros a b. cbn. rewrite !lookup_insert, !lookup_empty. intros Ho Hk.
    repeat case_decide; subst; simplify_eq; done.
  - right. split; [done|]. rewrite !lookup_insert, Ho in Hk. rewrite !lookup_insert, lookup_singleton.
    repeat case_decide; subst; simplify_eq; done.
Qed.

(** A container gets the labels of its launch, whatever its image has. *)
Lemma made_for_launch req image : (IsZero (req_Ownership req) = true → image !! labelInstance = None) →
  made_for req (launch_labels req ∪ image).
Proof.
  intros Hi. split.
  - apply map_subseteq_spec. intros k v Hk%expected_launch. by apply lookup_union_Some_raw; left.
  - intros Hz. apply lookup_union_None. split; [|by apply Hi]. unfold launch_labels, ownershipLabels. rewrite Hz.
    generalize (format_int (req_Index req)). intros x. vm_compute. reflexivity.
Qed.

Lemma accounted_less launched bs bs' : accounted launched bs → bs' ⊆ bs → accounted launched bs'.
Proof. intros Ha Hs i b Hb. apply (Ha i). by eapply lookup_weaken. Qed.

Lemma accounted_more req launched bs : accounted launched bs → accounted (req :: launched) bs.
Proof.
  intros Ha i b Hb. destruct (Ha i b Hb) as [?|(r & ? & ?)]; [by left|right]. exists r. split; [by right|done].
Qed.

Section docker.
Context `{!Daemon, !DaemonLaws}.
Variable url_parse : string → option parsed_url.
Variable name isolation : string.

Local Notation docker_step := (docker_step url_parse name isolation).

Lemma launchConfigs_labels req cfg host :
  launchConfigs url_parse name isolation req = Ok (cfg, host) →
  cc_Labels cfg = launch_labels req ∧ cc_Image cfg = req_Image req.
Proof.
  unfold launchConfigs. destruct (validateContainerSettings req); [done|].
  destruct (isWindows name && _); [done|]. intros Hc. injection Hc as Hc _. by rewrite <- Hc.
Qed.

Lemma Launch_accounted req h e d d' launched : Launch url_parse name isolation req d = (h, e, d') →
  (is_Some h → IsZero (req_Ownership req) = true → image_labels d (req_Image req) !! labelInstance = None) →
  accounted launched (boxes_of d) →
  match h with
  | Some _ => accounted (req :: launched) (boxes_of d') ∧ (IsZero (req_Ownership req) = true ∨ own_RunnerID (req_Ownership req) ≠ 0)
  | None => d' = d
  end.
Proof using Type*.
  unfold Launch. intros Hl Him Ha. destruct (ownership_Validate _); [by simplify_eq|].
  destruct (negb (IsZero (req_Ownership req)) && (own_RunnerID (req_Ownership req) =? 0)) eqn:Hid; [by simplify_eq|].
  assert (IsZero (req_Ownership req) = true ∨ own_RunnerID (req_Ownership req) ≠ 0) as Hok.
  { apply andb_false_iff in Hid as [?%negb_false_iff|?%Z.eqb_neq]; auto. }
  destruct (launchConfigs _ _ _ req) as [[cfg host]|] eqn:Hc; [|by simplify_eq].
  apply launchConfigs_labels in Hc as [Hlab Himg].
  destruct (d_create d (req_Name req) cfg host) as [r d1] eqn:Hcr.
  assert (is_Some h) as Hh by (destruct r; [destruct (d_start d1 a) as [[] ?]|]; by simplify_eq).
  specialize (Him Hh). assert (accounted (req :: launched) (boxes_of d1)) as H1.
  { intros i b Hb. destruct (create_boxes _ _ _ _ _ _ i b Hcr Hb) as [Hb'|Hb'].
    - by apply (accounted_more req _ _ Ha i).
    - right. exists req. split; [left|]. rewrite Hb', Hlab, Himg. by apply made_for_launch. }
  destruct r as [i|e1]; [|by simplify_eq].
  destruct (d_start d1 i) as [o d2] eqn:Hst. assert (accounted (req :: launched) (boxes_of d2)).
  { eapply accounted_less; [exact H1|]. by eapply start_boxes. }
  destruct o; by simplify_eq.
Qed.

Lemma docker_accounted d0 d launched : accounted [] (boxes_of d0) → rtc docker_step (d0, []) (d, launched) →
  accounted launched (boxes_of d) ∧ Forall accepted launched.
Proof using Type*.
  intros Hd0. apply (rtc_ind_r (λ s, accounted s.2 (boxes_of s.1) ∧ Forall accepted s.2)); [done|].
  intros [d1 l1] [dd ll] _ Hxy [Ha Hf]. cbn [fst snd] in *.
  inversion Hxy as [req h e ? ? ? Hi Him Hl|req e ? ? ? Hl|i e ? ? ? Hl|h e ? ? ? Hl|h ctx r ? ? ? Hl|? ? ? Ho]; subst.
  - destruct (Launch_accounted _ _ _ _ _ _ Hl (λ _, Him) Ha) as [Ha' Hok]. split; [done|]. constructor; [|done].
    destruct (IsZero (req_Ownership req)) eqn:Hz; [by left|right]. destruct Hok as [?|?]; [congruence|by split_and!].
  - by rewrite (Launch_accounted _ _ _ _ _ _ Hl (λ H, False_rect _ (is_Some_None H)) Ha).
  - split; [|done]. unfold RemoveOwnedRunner in Hl. destruct (d_remove d1 i) eqn:Hd. injection Hl as _ <-.
    eapply accounted_less; [done|]. by eapply remove_boxes.
  - split; [|done]. unfold Kill in Hl. destruct (d_stop d1 _) as [se d2] eqn:Hd. pose proof (stop_boxes _ _ _ _ Hd) as H2.
    destruct (preserve h); [injection Hl as _ <-; by eapply accounted_less|].
    destruct (d_remove d2 _) as [re d3] eqn:Hd3. injection Hl as _ <-. pose proof (remove_boxes _ _ _ _ Hd3).
    eapply accounted_less; [done|]. by etransitivity.
  - split; [|done]. unfold Wait in Hl. destruct ctx; [by simplify_eq|].
    destruct (d_wait d1 _) as [w d2] eqn:Hd. pose proof (wait_boxes _ _ _ _ Hd).
    eapply accounted_less; [done|]. by destruct w as [|? []]; simplify_eq.
  - split; [|done]. intros i b Hb. destruct (Ho i b Hb) as [Hb'|?]; [by apply (Ha i)|by left].
Qed.
End docker.

(** C13: A restarted process finds exactly the runners that a process with its
    identity left on the Docker daemon.  From a daemon with no container of
    multirunner, after any launches, kills, waits and removals of any processes
    and whatever anybody else does that forges no label, a runner is listed for
    an owner exactly when a container is left that a launch with the same
    instance, target and pool asked for, and it is listed with the name and the
    runner ID of that launch.  Containers of other owners and of pools that own
    nothing are never listed, so they are never removed. *)
Theorem docker_reconciles `{D : Daemon, !DaemonLaws} url_parse name isolation d0 d launched o l
    (Hforeign : ∀ i b, boxes_of d0 !! i = Some b → foreign (box_Labels b))
    (Hruns : rtc (docker_step url_parse name isolation) (d0, []) (d, launched))
    (Hlist : ListOwnedRunners o d = Ok l) :
  ∀ r, r ∈ l ↔ ∃ id b req, boxes_of d !! id = Some b ∧ req ∈ launched ∧ carries req (box_Labels b) ∧
    IsZero (req_Ownership req) = false ∧ same_owner (req_Ownership req) o ∧
    r = MkOwnedRunner id (req_Name req) (own_RunnerID (req_Ownership req)).
Proof.
  assert (accounted [] (boxes_of d0)) as Ha by (intros i b Hb; left; by eapply Hforeign).
  destruct (docker_accounted _ _ _ _ _ _ Ha Hruns) as [Hd Hf]. by apply (store_reconciles (S := docker_store) launched o d l).
Qed.

(** A daemon in memory: a container's ID is its name behind a mark, and a name
    is taken once. *)
Module memory.
Definition find (d : boxes) (k : string) : option string :=
  if bool_decide (is_Some (d !! k)) then Some k
  else if bool_decide (is_Some (d !! ("#" +:+ k))) then Some ("#" +:+ k) else None.
Definition missing : goerror := ENew "cerrdefs.ErrNotFound" "No such container".
Definition remove (d : boxes) (k : string) : option goerror * boxes :=
  match find d k with Some i => (None, delete i d) | None => (Some missing, d) end.
Definition unchanged (d : boxes) (k : string) : option goerror * boxes :=
  match find d k with Some _ => (None, d) | None => (Some missing, d) end.
Definition asked (fs : list string) (ls : gmap string string) : Prop := Forall (λ f, satisfies ls f = true) fs.
#[export] Instance asked_dec fs ls : Decision (asked fs ls) := _.
(** Its containers all run. *)
Definition listing (d : boxes) (opts : list_options) : result (list (string * gmap string string)) :=
  Ok (filter (λ p, asked (lo_Label opts) p.2) ((λ p, (p.1, box_Labels p.2)) <$> map_to_list d)).
(** Every image says who made it. *)
Definition image : gmap string string := {["vendor" := "acme"]}.
Definition create (d : boxes) (n : string) (cfg : container_config) (_ : host_config) : result string * boxes :=
  match d !! ("#" +:+ n) with
  | Some _ => (Err (errorf "Conflict"), d)
  | None => (Ok ("#" +:+ n), <["#" +:+ n := MkBox n (cc_Labels cfg ∪ image)]> d)
  end.
#[export] Instance in_memory : Daemon :=
  {| Containers.daemon := boxes; boxes_of := id; image_labels := λ _ _, image; d_create := create; d_start := unchanged; d_stop := unchanged;
     d_remove := remove; d_list := listing; d_wait := λ d _, (WStatus 0 None, d) |}.

Lemma unchanged_same d i r d' : unchanged d i = (r, d') → d' = d.
Proof. unfold unchanged. destruct (find d i); by intros [= _ <-]. Qed.

#[export] Instance daemon_laws : DaemonLaws.
Proof.
  split; cbn.
  - intros d n cfg h r d' i b Hc Hi. unfold create in Hc. destruct (d !! _) eqn:Hn; injection Hc as _ Hc; rewrite <- Hc in Hi; [by left|].
    apply lookup_insert_Some in Hi as [[_ <-]|[_ Hi]]; [by right|by left].
  - intros d i r d' H%unchanged_same. by rewrite H.
  - intros d i r d' H%unchanged_same. by rewrite H.
  - intros d i r d' H. unfold remove in H. destruct (find d i); injection H as _ <-; [apply delete_subseteq|done].
  - by intros d i r d' [= _ <-].
  - intros d opts l i ls [= <-]. rewrite list_elem_of_filter, list_elem_of_fmap.
    intros [_ ([j b] & [= -> ->] & Hin%elem_of_map_to_list)]. by exists b.
  - intros d fs l i b [= <-] Hb Hf. apply list_elem_of_filter. split; [done|].
    apply list_elem_of_fmap. exists (i, b). split; [done|]. by apply elem_of_map_to_list.
Qed.
(** Two pools launch a runner each, next to a container of somebody else; the
    controller of the first finds its own. *)
Definition owner (pool : string) (runner : Z) : RunnerOwnership := Ownership "host-1" "org/acme" pool 7 runner.
Definition request (n pool : string) (runner : Z) : LaunchRequest :=
  {| req_Name := n; req_Image := "img"; EncodedJITConfig := "jit"; req_WorkFolder := ""; req_Labels := [];
     req_Env := ∅; req_Mounts := []; req_Container := {| CPUCount := 0; cs_MemoryBytes := 0; cs_MemorySwapBytes := 0; cs_DNS := [] |};
     req_Index := 0; req_Ownership := owner pool runner |}.
Definition d0 : boxes := {["#db" := MkBox "db" {["app" := "db"]}]}.
Definition run (r : LaunchRequest) (d : boxes) := Launch (λ _, None) "docker-linux" "" r d.
Definition d1 : boxes := (run (request "a-1" "a" 11) d0).2.
Definition d2 : boxes := (run (request "b-1" "b" 12) d1).2.

End memory.

Import memory.

Lemma docker_reconciles_witness :
  ∃ d (launched : list LaunchRequest), ListOwnedRunners (owner "a" 0) d = Ok [MkOwnedRunner "#a-1" "a-1" 11] ∧
    ∀ r, r ∈ [MkOwnedRunner "#a-1" "a-1" 11] ↔ ∃ id b req, boxes_of d !! id = Some b ∧ req ∈ launched ∧
      carries req (box_Labels b) ∧ IsZero (req_Ownership req) = false ∧ same_owner (req_Ownership req) (owner "a" 0) ∧
      r = MkOwnedRunner id (req_Name req) (own_RunnerID (req_Ownership req)).
Proof.
  exists d2, [request "b-1" "b" 12; request "a-1" "a" 11]. split; [vm_compute; reflexivity|].
  apply (docker_reconciles (D := in_memory) (λ _, None) "docker-linux" "" d0).
  - change (∀ i b, d0 !! i = Some b → foreign (box_Labels b)). unfold d0. intros i b [<- <-]%lookup_singleton_Some. by vm_compute.
  - eapply rtc_r; [eapply rtc_once|].
    + eapply (@DkLaunch in_memory (λ _, None) "docker-linux" "" (request "a-1" "a" 11)); [by vm_compute|by vm_compute|vm_compute; reflexivity].
    + eapply (@DkLaunch in_memory (λ _, None) "docker-linux" "" (request "b-1" "b" 12)); [by vm_compute|by vm_compute|vm_compute; reflexivity].
  - vm_compute. reflexivity.
Defined.

(** ** containerd *)

(** nerdctl, as documented: a name or an ID finds one container; an inspection
    changes nothing and prints the labels of that container, a removal takes
    only it away, and a stop takes none away. *)
Class NerdctlLaws `{!Nerdctl} := {
  n_find : nerd → string → option string;
  inspect_keeps d k raw e d' : n_run d (inspect_args k) = (raw, e, d') → nboxes_of d' = nboxes_of d ∧ n_find d' = n_find d;
  inspect_labels json_error d k raw d' ls : n_run d (inspect_args k) = (raw, None, d') → parse_labels json_error raw = Ok ls →
    ∃ i b, n_find d k = Some i ∧ nboxes_of d !! i = Some b ∧ box_Labels b = ls;
  rm_only d k raw e d' i b : n_run d ["rm"; "-f"; k] = (raw, e, d') → nboxes_of d !! i = Some b → n_find d k ≠ Some i →
    nboxes_of d' !! i = Some b;
  stop_keeps d k raw e d' i b : n_run d ["stop"; k] = (raw, e, d') → nboxes_of d !! i = Some b → nboxes_of d' !! i = Some b
}.

Section containerd.
Context `{!Nerdctl, !NerdctlLaws}.
Variable json_error : string → goerror.

(** What may be removed after a failed launch has the labels of the launch. *)
Lemma check_failed_owned h d d' expected : failedLaunchLabels h = Some expected →
  check_failed_launch json_error h d = (Ok true, d') →
  nboxes_of d' = nboxes_of d ∧ n_find d' = n_find d ∧
  ∃ i b, n_find d (ch_name h) = Some i ∧ nboxes_of d !! i = Some b ∧ labelsMatch (box_Labels b) expected = true.
Proof using Type*.
  intros Hh. unfold check_failed_launch, run_nerdctl. rewrite Hh.
  destruct (n_run d _) as [[raw e] d1] eqn:Hn. destruct (inspect_keeps _ _ _ _ _ Hn) as [Hb Hf].
  destruct (isMissingContainerError e); [done|]. destruct e; [done|].
  destruct (parse_labels json_error raw) as [ls|] eqn:Hp; [|done]. destruct (labelsMatch ls expected) eqn:Hm; [|done].
  intros [= <-]. split_and!; [done..|]. destruct (inspect_labels _ _ _ _ _ _ Hn Hp) as (i & b & ? & ? & <-). by exists i, b.
Qed.

Lemma check_failed_keeps h d r d' : check_failed_launch json_error h d = (r, d') → nboxes_of d' = nboxes_of d.
Proof using Type*.
  unfold check_failed_launch, run_nerdctl. destruct (failedLaunchLabels h); [|by intros [= _ <-]].
  destruct (n_run d _) as [[raw e] d1] eqn:Hn. destruct (inspect_keeps _ _ _ _ _ Hn) as [Hb _].
  destruct (isMissingContainerError e); [by intros [= _ <-]|]. destruct e; [by intros [= _ <-]|].
  destruct (parse_labels json_error raw) as [ls|]; [|by intros [= _ <-]].
  destruct (negb _); by intros [= _ <-].
Qed.

Lemma kill_run h d raw e d' i b : run_nerdctl (kill_args h) d = (raw, e, d') → nboxes_of d !! i = Some b →
  n_find d (ch_name h) ≠ Some i → nboxes_of d' !! i = Some b.
Proof using Type*.
  unfold run_nerdctl, kill_args. destruct (ch_preserve h); intros Hr Hb Hi; [by eapply stop_keeps|by eapply rm_only].
Qed.
End containerd.

Lemma failed_handle `{!Nerdctl} url_parse isolation gateway req d h e d1 :
  C_Launch url_parse isolation gateway req d = (Some h, Some e, d1) → failedLaunchLabels h = Some (expected_labels req).
Proof.
  unfold C_Launch. destruct (ownership_Validate _); [by intros|]. destruct (_ && _); [by intros|].
  destruct (validateContainerSettings req); [by intros|]. do 2 (destruct (negb _); [by intros|]).
  cbn zeta. by destruct (run_nerdctl _ d) as [[out [e'|]] d'] ; intros [= <- _ _].
Qed.

(** Cleaning up after a failed launch removes no container of somebody
    else.  When nerdctl fails to run a runner, because the name is taken or
    because its answer was lost, killing the handle of that launch takes away no
    container but one with the labels of this launch, and nothing when the
    container by that name cannot be inspected or its labels do not match. *)
Theorem failed_launch_spares `{N : Nerdctl, !NerdctlLaws} url_parse json_error isolation gateway req d h e d1 r d2
    (Hlaunch : C_Launch url_parse isolation gateway req d = (Some h, Some e, d1))
    (Hkill : C_Kill json_error h d1 = (r, d2)) :
  ∀ i b, nboxes_of d1 !! i = Some b → nboxes_of d2 !! i ≠ Some b →
    labelsMatch (box_Labels b) (expected_labels req) = true.
Proof.
  pose proof (failed_handle _ _ _ _ _ _ _ _ Hlaunch) as Hh. intros i b Hb Hd. unfold C_Kill in Hkill.
  destruct (check_failed_launch json_error h d1) as [v d'] eqn:Hc. pose proof (check_failed_keeps _ _ _ _ _ Hc) as Hk.
  destruct v as [[]|]; [|by injection Hkill as _ <-; rewrite Hk in Hd..].
  destruct (check_failed_owned _ _ _ _ _ Hh Hc) as (_ & Hf & j & b' & Hj & Hb' & Hm).
  destruct (run_nerdctl (kill_args h) d') as [[raw e'] d''] eqn:Hr. injection Hkill as _ <-.
  destruct (decide (i = j)) as [->|Hne]; [congruence|]. destruct Hd. rewrite <- Hk in Hb.
  eapply kill_run; [done..|]. rewrite Hf. congruence.
Qed.

(** nerdctl in memory. *)
Module nerdctl_memory.
Definition print (labels : gmap string string) : string := encode_json (JObj (prod_map id JStr <$> map_to_list labels)).
Definition printed (b : box) : string * option goerror :=
  match parse_labels (λ _, missing) (print (box_Labels b)) with
  | Ok ls => if bool_decide (ls = box_Labels b) then (print (box_Labels b), None) else ("", Some missing)
  | Err e => ("", Some e)
  end.
Definition inspected (d : boxes) (k : string) : string * option goerror :=
  match find d k with
  | Some i => match d !! i with Some b => printed b | None => ("", Some missing) end
  | None => ("", Some missing)
  end.
Definition exec (d : boxes) (args : list string) : string * option goerror * boxes :=
  match args with
  | ["inspect"; _; _; k] => (inspected d k, d)
  | ["rm"; "-f"; k] => let '(e, d') := remove d k in ("", e, d')
  | ["stop"; k] => let '(e, d') := unchanged d k in ("", e, d')
  | _ => ("", Some (errorf "exit status 1"), d)
  end.
#[export] Instance in_memory : Nerdctl := {| nerd := boxes; nboxes_of := id; n_run := exec |}.

Lemma parse_labels_any f g raw ls : parse_labels f raw = Ok ls → parse_labels g raw = Ok ls.
Proof.
  unfold parse_labels. destruct (parse_json _) as [v|]; [|done]. by destruct (decode_labels v) as [m []].
Qed.

Lemma inspected_labels f d k raw ls : inspected d k = (raw, None) → parse_labels f raw = Ok ls →
  ∃ i b, find d k = Some i ∧ d !! i = Some b ∧ box_Labels b = ls.
Proof.
  unfold inspected. destruct (find d k) as [i|] eqn:Hi; [|done]. destruct (d !! i) as [b|] eqn:Hb; [|done].
  intros Hp Hl. exists i, b. split_and!; [done..|]. unfold printed in Hp.
  destruct (parse_labels (λ _, missing) _) as [ls'|] eqn:Hq; [|done]. case_bool_decide as Hls; [|done].
  injection Hp as <-. apply (parse_labels_any f (λ _, missing)) in Hl. congruence.
Qed.

#[export] Instance nerdctl_laws : NerdctlLaws.
Proof.
  refine {| n_find := (find : nerd → string → option string) |}.
  - by intros d k raw e d' [= _ <-].
  - intros f d k raw d' ls [= Hi _]. by apply (inspected_labels f).
  - intros d k raw e d' i b H Hb Hi. cbn in H. unfold remove in H.
    destruct (find d k) as [j|]; injection H as _ _ <-; [|done]. rewrite <- Hb. apply lookup_delete_ne. congruence.
  - intros d k raw e d' i b H Hb. cbn in H. destruct (unchanged d k) as [e' d''] eqn:Hu.
    injection H as _ _ <-. by rewrite (unchanged_same _ _ _ _ Hu).
Qed.

(** Two failed launches: the name of a runner is taken by a container of another
    pool, which stays, and a container is there although its answer was lost,
    which goes. *)
Definition taken : boxes := (run (request "a-1" "b" 12) d0).2.
Definition left_handle (n : string) (o : RunnerOwnership) : containerdHandle :=
  let req := {| req_Name := n; req_Image := "img"; EncodedJITConfig := "jit"; req_WorkFolder := ""; req_Labels := [];
                req_Env := ∅; req_Mounts := []; req_Container := req_Container (request n "a" 11); req_Index := 0;
                req_Ownership := o |} in
  default (MkContainerdHandle "" "" true None) (C_Launch (λ _, None) "" "" req taken).1.1.
Definition pooled : LaunchRequest :=
  {| req_Name := "p-1"; req_Image := "img"; EncodedJITConfig := "jit"; req_WorkFolder := ""; req_Labels := []; req_Env := ∅;
     req_Mounts := []; req_Container := req_Container (request "p-1" "a" 11); req_Index := 0; req_Ownership := no_ownership |}.
Definition lost : boxes := (run pooled taken).2.
End nerdctl_memory.

Import nerdctl_memory.

Example foreign_stays :
  C_Kill (H := nerdctl_memory.in_memory) (λ _, missing) (left_handle "a-1" (owner "a" 11)) taken =
    (Some (errorf "refusing to remove container with mismatched ownership"), taken).
Proof. vm_compute. reflexivity. Qed.

Lemma failed_launch_spares_witness :
  taken !! "#p-1" = None ∧ is_Some (lost !! "#p-1") ∧
  ∀ i b, lost !! i = Some b → taken !! i ≠ Some b → labelsMatch (box_Labels b) (expected_labels pooled) = true.
Proof.
  split_and!; [vm_compute; reflexivity|vm_compute; eauto|].
  apply (failed_launch_spares (N := nerdctl_memory.in_memory) (λ _, None) (λ _, missing) "" "" pooled lost
           (left_handle "p-1" no_ownership) (errorf_w "run container p-1: " (errorf "exit status 1")) lost None taken);
    vm_compute; reflexivity.
Defined.
