(* ===== verification/Host.v ===== *)
(** * What a command sees of its host

    The commands that edit files and ask feeds run in one world: the requests
    they have made, the files, the calls of the operating system so far, what
    they printed and what the user will type.  Feeds answer as they like,
    depending on what was asked before ([Web]); each call of the file system may
    fail ([Disk]), and a write that fails has written a part.

    The second half is what every replacement of a file through a temporary
    file has in common. *)

From S2P Require Import Prelude GoErr GoStr Filepath.

Local Open Scope Z_scope.
Local Open Scope go_scope.

(** ** The world *)

Record request := Req { rq_method : string; rq_url : string; rq_headers : list (string * string) }.

(** A response: the body up to its end or to the error that cuts it, and the
    URL after redirections. *)
Record response := Resp {
  rs_StatusCode : Z;
  rs_Status : string;
  rs_digest : string;
  rs_body : string;
  rs_err : option goerror;
  rs_URL : string
}.

Class Web := {
  new_request : string → result string;
  client_Do : list request → request → result response
}.

Record file := File { f_data : string; f_mode : Z }.

Inductive op := OpRead (path : string) | OpStat (path : string) | OpCreate (path : string) | OpChmod (path : string)
| OpOpen (path : string) | OpWrite (path : string) | OpSync (path : string) | OpClose (path : string) | OpRename (old new : string) | OpRemove (path : string).

(** Which call fails, what a failed write leaves behind, and the random part of
    a temporary name. *)
Class Disk := {
  op_fails : nat → op → option goerror;
  torn : nat → string → string;
  random_name : nat → string
}.

Record world := World {
  asked : list request;
  files : gmap string file;
  calls : nat;
  printed : list string;
  typed : list string
}.

Definition set_files (f : gmap string file → gmap string file) (w : world) : world :=
  World (asked w) (f (files w)) (calls w) (printed w) (typed w).
Definition tick (w : world) : world := World (asked w) (files w) (S (calls w)) (printed w) (typed w).
Definition print (line : string) : M world unit :=
  modify (λ w, World (asked w) (files w) (calls w) (printed w ++ [line]) (typed w)).

Definition of_result {A} (r : result A) : M world A := match r with Ok a => ret a | Err e => throw e end.
Definition guard (e : option goerror) : M world unit := match e with Some e => throw e | None => ret tt end.
(** [fmt.Errorf(prefix + "%w", err)] *)
Definition wrap {A} (prefix : string) (c : M world A) : M world A :=
  let? r := c in match r with Ok a => ret a | Err e => throw (errorf_w prefix e) end.
(** A loop that returns at its first error. *)
Fixpoint loop {A B} (f : B → A → M world B) (b : B) (l : list A) : M world B :=
  match l with
  | [] => ret b
  | a :: l => let! b := f b a in loop f b l
  end.

(** ** Lines *)

(** [bufio.Scanner]: the lines; a line that does not fit the buffer ends the
    scan. *)
Definition maxToken : Z := 64 * 1024.
Definition drop_cr (line : string) : string := trim_suffix (String "013" "") line.
Fixpoint take_tokens (lines : list string) : list string :=
  match lines with
  | [] => []
  | [last] => if is_empty last || (maxToken <=? Z.of_nat (String.length last)) then [] else [drop_cr last]
  | line :: lines => if maxToken <=? Z.of_nat (String.length line) then [] else drop_cr line :: take_tokens lines
  end.
Definition scan_lines (body : string) : list string := take_tokens (split "010" body).

(** ** Files *)

Section disk.
Context `{!Disk}.

(** One call of the operating system. *)
Definition syscall {A} (o : op) (run : gmap string file → result A * gmap string file) : M world A :=
  λ w, let w := tick w in
       match op_fails (calls w) o with
       | Some e => (Err e, w)
       | None => let '(r, fs) := run (files w) in (r, set_files (λ _, fs) w)
       end.

Definition err_exist : goerror := ENew "os.ErrExist" "file exists".
Definition stored {A} (f : file → A) (path : string) (fs : gmap string file) : result A * gmap string file :=
  (match fs !! path with Some x => Ok (f x) | None => Err err_not_exist end, fs).
Definition read_file (path : string) : M world string := syscall (OpRead path) (stored f_data path).
Definition stat_mode (path : string) : M world Z := syscall (OpStat path) (stored f_mode path).

(** [filepath.Dir] *)
Definition Dir (path : string) : string := Clean (join "/" (removelast (split slash path) ++ [""])).

(** [os.CreateTemp] for a pattern with one star, with mode 0600. *)
Definition temp_name (dir prefix suffix random : string) : string := Join dir (prefix +:+ random +:+ suffix).
Definition create_temp (dir prefix suffix : string) : M world string :=
  let! n := gets calls in
  let path := temp_name dir prefix suffix (random_name n) in
  syscall (OpCreate path) (λ fs, match fs !! path with
                                 | Some _ => (Err err_exist, fs)
                                 | None => (Ok path, <[path := File "" 384]> fs)
                                 end).
Definition chmod (path : string) (mode : Z) : M world unit :=
  syscall (OpChmod path) (λ fs, (Ok tt, alter (λ f, File (f_data f) mode) path fs)).
(** A write that fails has written a part. *)
Definition write (path data : string) : M world unit :=
  λ w, let w := tick w in
       let put d := set_files (alter (λ f, File d (f_mode f)) path) w in
       match op_fails (calls w) (OpWrite path) with
       | Some e => (Err e, put (torn (calls w) data))
       | None => (Ok tt, put data)
       end.
Definition sync (path : string) : M world unit := syscall (OpSync path) (λ fs, (Ok tt, fs)).
Definition close (path : string) : M world unit := syscall (OpClose path) (λ fs, (Ok tt, fs)).
Definition rename (old new : string) : M world unit :=
  syscall (OpRename old new) (λ fs, match fs !! old with
                                    | Some f => (Ok tt, <[new := f]> (delete old fs))
                                    | None => (Err err_not_exist, fs)
                                    end).
Definition remove (path : string) : M world unit :=
  syscall (OpRemove path) (λ fs, match fs !! path with Some _ => (Ok tt, delete path fs) | None => (Err err_not_exist, fs) end).

(** [os.OpenFile] to write from the start, with mode 0600 for a new file. *)
Definition open_trunc (path : string) : M world unit :=
  syscall (OpOpen path) (λ fs, (Ok tt, <[path := File "" (match fs !! path with Some f => f_mode f | None => 384 end)]> fs)).

(** A temporary file, removed in the end if it is still there. *)
Definition with_temp (dir prefix suffix what : string) (body : string → M world unit) : M world unit :=
  let! tmp := wrap what (create_temp dir prefix suffix) in
  let? r := body tmp in
  let? _ := remove tmp in
  of_result r.
End disk.

(** ** Programs that keep a property of the world *)

Section keep.
Context (P : world → Prop).

Lemma preserves_of_result {A} (r : result A) : preserves P (of_result r).
Proof. by destruct r; intros w Hw. Qed.

Lemma preserves_guard e : preserves P (guard e).
Proof. by destruct e; intros w Hw. Qed.

Lemma preserves_wrap {A} prefix (c : M world A) : preserves P c → preserves P (wrap prefix c).
Proof. intros H. apply preserves_catch; [done|]. by intros []; intros w Hw. Qed.

Lemma preserves_loop {A B} (f : B → A → M world B) l : (∀ b a, preserves P (f b a)) → ∀ b, preserves P (loop f b l).
Proof.
  intros Hf. induction l as [|a l IH]; intros b; cbn [loop]; [by intros w Hw|]. by apply preserves_bind.
Qed.
End keep.

(** Solves that a program of requests and reads keeps the files. *)
Create HintDb keepdb.

Ltac keep_step :=
  match goal with
  | |- preserves _ (bind _ _) => apply preserves_bind; [|intros]
  | |- preserves _ (catch _ _) => apply preserves_catch; [|intros]
  | |- preserves _ (wrap _ _) => apply preserves_wrap
  | |- preserves _ (loop _ _ _) => apply preserves_loop; intros
  | |- preserves _ (of_result _) => apply preserves_of_result
  | |- preserves _ (guard _) => apply preserves_guard
  | |- preserves _ (ret _) => apply preserves_ret
  | |- preserves _ (throw _) => apply preserves_throw
  | |- preserves _ (modify _) => by (intros w Hw)
  | |- preserves _ (match ?x with _ => _ end) => destruct x
  | |- preserves _ (let _ := _ in _) => cbn zeta
  end.
Ltac keep := repeat first [keep_step | solve [auto with keepdb]].


(** ** Replacing a file *)

Section replace.
Context `{!Disk}.

(** The patterns of temporary files. *)
Definition patterns : list (string * string) := [(".versions-", ".tmp"); (".mr-config-", ".tmp"); (".mr-token-", ".tmp")].

(** A temporary name made for one of [targets]. *)
Definition temporary (targets : list string) (p : string) : Prop :=
  ∃ n t pattern, t ∈ targets ∧ pattern ∈ patterns ∧ p = temp_name (Dir t) pattern.1 pattern.2 (random_name n).

(** What writing [updates] may leave: a file is as it was, is all of its new
    content, or is a temporary file that was not there. *)
Definition evolves (targets : list string) (updates : list (string * string)) (fs fs' : gmap string file) : Prop :=
  ∀ p, fs' !! p = fs !! p ∨ (fs !! p = None ∧ temporary targets p) ∨
       ∃ d, (p, d) ∈ updates ∧ f_data <$> fs' !! p = Some d.

Lemma evolves_refl targets updates fs : evolves targets updates fs fs.
Proof. intros p. by left. Qed.

Lemma evolves_trans targets updates fs fs1 fs2 :
  evolves targets updates fs fs1 → evolves targets updates fs1 fs2 → evolves targets updates fs fs2.
Proof.
  intros H1 H2 p. destruct (H2 p) as [E2|[[E2 ?]|?]]; [|destruct (H1 p) as [E1|[?|(d & Hd & E1)]]|auto].
  - rewrite E2. apply H1.
  - rewrite E1 in E2. auto.
  - auto.
  - by rewrite E2 in E1.
Qed.

Lemma evolves_more targets us us' fs fs' : evolves targets us fs fs' → us ⊆ us' → evolves targets us' fs fs'.
Proof. intros He Hsub p. destruct (He p) as [?|[?|(d & Hd & ?)]]; [auto..|]. right. right. exists d. auto. Qed.

Lemma syscall_wp {A} o (f : gmap string file → result A * gmap string file) (Q : result A → world → Prop) w :
  (∀ e, Q (Err e) (tick w)) → Q (f (files w)).1 (set_files (λ _, (f (files w)).2) (tick w)) → wp (syscall o f) Q w.
Proof.
  intros He Hf. unfold wp, syscall. destruct (op_fails _ o); [apply He|]. cbn in *.
  by destruct (f (files w)) as [r fs].
Qed.

Lemma stored_wp {A} o (f : file → A) path (Q : result A → world → Prop) w :
  (∀ r w', files w' = files w → (∀ a, r = Ok a → ∃ x, files w !! path = Some x ∧ f x = a) → Q r w') →
  wp (syscall o (stored f path)) Q w.
Proof.
  intros HQ. apply syscall_wp; [intros e; by apply HQ|]. unfold stored. cbn. apply HQ; [done|]. intros a Ha.
  destruct (files w !! path) as [x|]; [|done]. injection Ha as <-. eauto.
Qed.

(** While the temporary file is made nothing else changes; then it holds all of
    the data. *)
Definition staging (fs : gmap string file) (tmp : string) (w : world) : Prop :=
  (∀ p, p ≠ tmp → files w !! p = fs !! p) ∧ is_Some (files w !! tmp).
Definition holding (fs : gmap string file) (tmp data : string) (w : world) : Prop :=
  staging fs tmp w ∧ f_data <$> files w !! tmp = Some data.

(** The new content, or the old one and no change but in the temporary file. *)
Definition replaced (fs : gmap string file) (path tmp data : string) (r : result unit) (w : world) : Prop :=
  (∀ p, p ≠ tmp → p ≠ path → files w !! p = fs !! p) ∧
  (files w !! path = fs !! path ∨ f_data <$> files w !! path = Some data) ∧
  (r = Ok tt → f_data <$> files w !! path = Some data).

Definition written (targets : list string) (path data : string) (fs : gmap string file) (r : result unit) (w : world) : Prop :=
  evolves targets [(path, data)] fs (files w) ∧ (r = Ok tt → f_data <$> files w !! path = Some data).

Lemma unwritten targets path data fs e w : files w = fs → written targets path data fs (Err e) w.
Proof. intros <-. split; [apply evolves_refl|done]. Qed.

Section body.
Context (fs : gmap string file) (path tmp data : string).
Hypothesis Hne : tmp ≠ path.

Lemma staging_alter f w w' : staging fs tmp w → files w' = alter f tmp (files w) → staging fs tmp w'.
Proof using Type.
  intros [Ho [x Hx]] Hw. split; rewrite Hw; [|rewrite lookup_alter, decide_True by done; rewrite Hx; eauto].
  intros p Hp. rewrite lookup_alter_ne by done. by apply Ho.
Qed.

Lemma chmod_staging mode : preserves (staging fs tmp) (chmod tmp mode).
Proof using Type. apply preserves_wp. intros w Hs. apply syscall_wp; [done|]. by eapply staging_alter. Qed.

(** A command that writes all of the data, or fails. *)
Definition writes (c : M world unit) : Prop :=
  ∀ w, staging fs tmp w → wp c (λ r w', staging fs tmp w' ∧ (r = Ok tt → holding fs tmp data w')) w.

Lemma write_writes : writes (write tmp data).
Proof using Type.
  intros w Hs. unfold wp, write. destruct (op_fails _ _).
  - split; [by eapply staging_alter|done].
  - assert (staging fs tmp (set_files (alter (λ f, File data (f_mode f)) tmp) (tick w))) as Hs' by (by eapply staging_alter).
    split; [done|]. intros _. split; [done|]. destruct Hs as [_ [x Hx]]. cbn.
    rewrite lookup_alter, decide_True by done. by rewrite Hx.
Qed.

Lemma writes_wrap what c : writes c → writes (wrap what c).
Proof using Type.
  intros Hc w Hs. apply wp_catch. eapply wp_mono; [by apply Hc|]. intros [[]|e] w' [Hs' Hh]; [by split; [|intros; apply Hh]|by split].
Qed.

Lemma idle_holding o : preserves (holding fs tmp data) (syscall o (λ fs, (Ok tt, fs))).
Proof using Type. apply preserves_wp. intros w Hs. by apply syscall_wp. Qed.

Lemma replaced_fails e w : staging fs tmp w → replaced fs path tmp data (Err e) w.
Proof using Hne. intros [Ho _]. split_and!; [auto|left; auto|done]. Qed.

Lemma rename_replaced w : holding fs tmp data w → wp (rename tmp path) (replaced fs path tmp data) w.
Proof using Hne.
  intros [Hs Hd]. apply syscall_wp; [intros e; by apply replaced_fails|]. destruct Hs as [Ho [x Hx]]. rewrite Hx in *.
  unfold replaced, set_files. cbn [fst snd files]. split_and!; [|right|]; try (intros _); rewrite ?lookup_insert, ?decide_True by done; [|exact Hd..].
  intros p Ht Hp. rewrite lookup_insert_ne, lookup_delete_ne by done. by apply Ho.
Qed.

Lemma rename_wrap what w : holding fs tmp data w → wp (wrap what (rename tmp path)) (replaced fs path tmp data) w.
Proof using Hne.
  intros Hh. apply wp_catch. eapply wp_mono; [by apply rename_replaced|].
  intros [[]|e] w' Hr; [done|]. destruct Hr as (Ha & Hb & _). by split_and!.
Qed.

(** The steps of a replacement, one after the other. *)
Lemma stage_then {A} (c : M world A) k w : preserves (staging fs tmp) c →
  (∀ a w, staging fs tmp w → wp (k a) (replaced fs path tmp data) w) → staging fs tmp w →
  wp (bind c k) (replaced fs path tmp data) w.
Proof using Hne.
  intros Hc Hk Hs. apply wp_bind. eapply wp_mono; [by apply wp_preserves|]. intros [a|e] w' Hs'; [by apply Hk|by apply replaced_fails].
Qed.

Lemma write_then c k w : writes c → (∀ w, holding fs tmp data w → wp (k tt) (replaced fs path tmp data) w) →
  staging fs tmp w → wp (bind c k) (replaced fs path tmp data) w.
Proof using Hne.
  intros Hc Hk Hs. apply wp_bind. eapply wp_mono; [by apply Hc|].
  intros [[]|e] w' [Hs' Hh]; [apply Hk; by apply Hh|by apply replaced_fails].
Qed.

Lemma hold_then {A} (c : M world A) k w : preserves (holding fs tmp data) c →
  (∀ a w, holding fs tmp data w → wp (k a) (replaced fs path tmp data) w) → holding fs tmp data w →
  wp (bind c k) (replaced fs path tmp data) w.
Proof using Hne.
  intros Hc Hk Hs. apply wp_bind. eapply wp_mono; [by apply wp_preserves|].
  intros [a|e] w' Hs'; [by apply Hk|]. apply replaced_fails. apply Hs'.
Qed.
End body.

(** A removal of the temporary file changes nothing else. *)
Lemma remove_wp fs path tmp data r w : tmp ≠ path → replaced fs path tmp data r w →
  wp (remove tmp) (λ _ w', replaced fs path tmp data r w') w.
Proof.
  intros Hne Hr. apply syscall_wp; [done|]. destruct (files w !! tmp); [|done]. destruct Hr as (Ho & Hp & Hd).
  unfold replaced, set_files. cbn [fst snd files]. rewrite !lookup_delete_ne by done. split_and!; [|done..].
  intros p Ht Hpp. rewrite lookup_delete_ne by done. auto.
Qed.

Lemma evolves_replaced targets path tmp data fs r w : temporary targets tmp → fs !! tmp = None →
  replaced fs path tmp data r w → evolves targets [(path, data)] fs (files w).
Proof.
  intros Ht Hn (Ho & Hp & _) p. destruct (decide (p = path)) as [->|Hpp].
  - destruct Hp as [?|?]; [by left|right; right]. exists data. by rewrite list_elem_of_singleton.
  - destruct (decide (p = tmp)) as [->|Htp]; [auto|left; auto].
Qed.

Section targets.
Variable targets : list string.
(** The names made for the temporary files are none of the targets. *)
Hypothesis fresh : ∀ t, t ∈ targets → ¬ temporary targets t.

Lemma create_temp_wp path prefix suffix w : path ∈ targets → (prefix, suffix) ∈ patterns →
  wp (create_temp (Dir path) prefix suffix) (λ r w', match r with
    | Ok tmp => temporary targets tmp ∧ files w !! tmp = None ∧ staging (files w) tmp w'
    | Err _ => files w' = files w
    end) w.
Proof using Type.
  intros Ht Hpat. unfold create_temp. apply wp_bind, wp_gets. cbn beta. set (tmp := temp_name _ _ _ _).
  apply syscall_wp; [done|]. destruct (files w !! tmp) eqn:Hn; [done|].
  split_and!; [by exists (calls w), path, (prefix, suffix)|done|].
  unfold staging, set_files. cbn [fst snd files]. rewrite lookup_insert, decide_True by done. split; [|eauto].
  intros p Hp. by rewrite lookup_insert_ne.
Qed.

(** A body that replaces the file leaves it old or new. *)
Lemma with_temp_wp path prefix suffix what data body w : path ∈ targets → (prefix, suffix) ∈ patterns →
  (∀ fs tmp w, tmp ≠ path → staging fs tmp w → wp (body tmp) (replaced fs path tmp data) w) →
  wp (with_temp (Dir path) prefix suffix what body) (written targets path data (files w)) w.
Proof using fresh.
  intros Ht Hpat Hbody. unfold with_temp. apply wp_bind, wp_catch. eapply wp_mono; [by apply create_temp_wp|].
  intros [tmp|e] w2 H2; [|by apply unwritten].
  destruct H2 as (Htmp & Hn & Hs). assert (tmp ≠ path) as Hne by (intros ->; by destruct (fresh path Ht)).
  apply wp_ret, wp_catch. eapply wp_mono; [by apply Hbody|]. intros r w3 H3. apply wp_catch.
  eapply wp_mono; [by apply remove_wp|]. intros r' w4 H4. cbn beta in H4.
  assert (written targets path data (files w) r w4) as Hw.
  { split; [exact (evolves_replaced _ _ _ _ _ _ _ Htmp Hn H4)|apply H4]. }
  by destruct r as [[]|e].
Qed.
End targets.
End replace.
