(* ===== verification/UpdateVersions.v ===== *)
(** * The update of the image versions

    [cmd/update-image-versions/main.go]: the weekly refresh of the manifest of
    runner-image dependencies from the feeds of their publishers, and of the
    base images of the two Dockerfiles.

    The feeds answer each request as they like, depending on what was asked
    before ([Web]); the calls of the file system may fail ([Disk]).  The text of
    a manifest is made and read by [encoding/json] from the tags of its struct
    and is a parameter. *)

From S2P Require Import Prelude GoErr GoStr Codec Json Filepath Host GitHub ImageVersions.

Local Open Scope Z_scope.
Local Open Scope go_scope.

(** ** Text *)

Definition dq : string := String "034" "".

Definition checksumManifest (body : string) : gmap string string :=
  foldl (λ m line, match fields line with [sum; name] => <[name := to_lower sum]> m | _ => m end) ∅ (scan_lines body).

(** [strings.Trim] *)
Definition trim (s cutset : string) : string := trim_right (trim_left_by (λ c, str_mem c cutset) s) cutset.

Definition version_prefix : string := "version = " +:+ dq.
Fixpoint rust_lines (inRust : bool) (lines : list string) : string :=
  match lines with
  | [] => ""
  | line :: lines =>
      if String.eqb line "[pkg.rust]" then rust_lines true lines
      else if inRust && has_prefix "[" line then ""
      else if inRust && has_prefix version_prefix line
           then trim (cut " " (trim_prefix version_prefix line)).1.1 dq
           else rust_lines inRust lines
  end.
Definition rustVersion (body : string) : string := rust_lines false (scan_lines body).

Fixpoint rustup_lines (lines : list string) : string :=
  match lines with
  | [] => ""
  | line :: lines =>
      let line := trim_space line in
      if has_prefix "[" line then ""
      else let '(key, value, ok) := cut "=" line in
           if negb ok || negb (String.eqb (trim_space key) "version") then rustup_lines lines
           else trim (trim_space value) ("'" +:+ dq)
  end.
Definition rustupReleaseVersion (body : string) : string := rustup_lines (scan_lines body).

Definition validHex (value : string) (length : nat) : option goerror :=
  if negb (String.length value =? length)%nat
  then Some (errorf ("must contain " +:+ format_int (Z.of_nat length) +:+ " hexadecimal characters"))
  else match hex_decode value with
       | Some _ => None
       | None => Some (errorf_w "must be hexadecimal: " (errorf "encoding/hex: invalid byte"))
       end.

(** [strings.SplitAfter] at newlines. *)
Fixpoint split_after (s : string) : list string :=
  match s with
  | "" => [""]
  | String c s =>
      if Ascii.eqb c "010" then String c "" :: split_after s
      else match split_after s with [] => [String c ""] | l :: ls => String c l :: ls end
  end.

Definition base_prefix : string := "ARG BASE=".
Definition newline : string := String "010" "".
Definition trimmed (line : string) : string := drop_cr (trim_suffix newline line).
Definition is_base_line (line : string) : bool := has_prefix base_prefix (trimmed line).
Definition replaceBaseArg (data reference : string) : result string :=
  let lines := split_after data in
  let count := length (filter (λ l, is_base_line l = true) lines) in
  if negb (count =? 1)%nat
  then Err (errorf ("expected one ARG BASE line, found " +:+ format_int (Z.of_nat count)))
  else Ok (join "" ((λ l, if is_base_line l then base_prefix +:+ reference +:+ trim_prefix (trimmed l) l else l) <$> lines)).

(** ** Requests *)

Section web.
Context `{!Web}.

Definition send (method endpoint : string) (headers : list (string * string)) : M world response :=
  let! u := of_result (new_request endpoint) in
  λ w, match client_Do (asked w) (Req method u headers) with
       | Ok r => (Ok r, World (asked w ++ [Req method u headers]) (files w) (calls w) (printed w) (typed w))
       | Err e => (Err e, World (asked w ++ [Req method u headers]) (files w) (calls w) (printed w) (typed w))
       end.

Definition bad_status (r : response) : bool := (rs_StatusCode r <? 200) || (300 <=? rs_StatusCode r).
Definition returned (what : string) (r : response) : goerror := errorf (what +:+ " returned " +:+ rs_Status r).

(** [io.LimitReader(resp.Body, 128<<20)] *)
Definition maxBody : Z := Z.shiftl 128 20.
Fixpoint limit (n : Z) (s : string) : string :=
  match s with
  | "" => ""
  | String c s => if n <=? 0 then "" else String c (limit (n - 1) s)
  end.

(** A struct is decoded from the first value of the text; it is of no use when
    a part of it does not fit. *)
Definition json_error : goerror := ENew "json" "invalid JSON".
Definition fits {A} (d : decoded A) : M world A := let '(a, ok) := d in if ok : bool then ret a else throw json_error.

Definition doJSON {A} (endpoint : string) (headers : list (string * string)) (decode : json → decoded A) : M world A :=
  let! r := send "GET" endpoint headers in
  if bad_status r then throw (returned (match new_request endpoint with Ok u => u | Err _ => endpoint end) r)
  else match decode_json (limit maxBody (rs_body r)) with
       | Some v => fits (decode v)
       | None => throw (default json_error (rs_err r))
       end.
Definition getJSON {A} (endpoint : string) (decode : json → decoded A) : M world A := doJSON endpoint [] decode.

Definition download (endpoint : string) : M world (string * string) :=
  let! r := send "GET" endpoint [] in
  if bad_status r then throw (returned endpoint r)
  else match rs_err r with
       | Some e => if Z.of_nat (String.length (rs_body r)) <? maxBody then throw e else ret (limit maxBody (rs_body r), rs_URL r)
       | None => ret (limit maxBody (rs_body r), rs_URL r)
       end.

(** The digest of the whole body. *)
Variable sha256 : string → string.
Definition downloadSHA256 (endpoint : string) (keepBody : bool) : M world (string * string * string) :=
  let! r := send "GET" endpoint [] in
  if bad_status r then throw (returned endpoint r)
  else match rs_err r with
       | Some e => throw e
       | None => ret (hex_encode (sha256 (rs_body r)), rs_URL r, if keepBody then rs_body r else "")
       end.

(** [updater]: the date of today and the token of the environment. *)
Variable today token : string.

Record githubAsset := Asset { as_Name : string; BrowserDownloadURL : string; as_Digest : string }.
Record githubRelease := Release { TagName : string; Assets : list githubAsset }.

Definition decode_asset (v : json) : decoded githubAsset :=
  let '(name, ok1) := field "name" as_string "" v in
  let '(url, ok2) := field "browser_download_url" as_string "" v in
  let '(digest, ok3) := field "digest" as_string "" v in
  (Asset name url digest, ok1 && ok2 && ok3).
Definition decode_release (v : json) : decoded githubRelease :=
  let '(tag, ok1) := field "tag_name" as_string "" v in
  let '(assets, ok2) := field "assets" (as_list decode_asset) [] v in
  (Release tag assets, ok1 && ok2).

Definition asset_sha256 (a : githubAsset) : result string :=
  let value := trim_prefix "sha256:" (as_Digest a) in
  if String.eqb (as_Digest a) value then Err (errorf ("asset " +:+ quote (as_Name a) +:+ " has no SHA256 digest"))
  else match validHex value 64 with
       | Some e => Err (errorf_w ("asset " +:+ quote (as_Name a) +:+ " digest: ") e)
       | None => Ok (to_lower value)
       end.

Definition release_digest (r : githubRelease) (name : string) : result string :=
  match filter (λ a, as_Name a = name) (Assets r) with
  | asset :: _ => asset_sha256 asset
  | [] => Err (errorf ("release asset " +:+ quote name +:+ " not found"))
  end.

Definition github_release (repo : string) : M world githubRelease :=
  let! release := doJSON ("https://api.github.com/repos/" +:+ repo +:+ "/releases/latest")
    (("Accept", "application/vnd.github+json") ::
     (if is_empty token then [] else [("Authorization", "Bearer " +:+ token)])) decode_release in
  if is_empty (TagName release) then throw (errorf "latest release has no tag") else ret release.

Definition registryDigest (base : BaseImage) : M world string :=
  let '(host, repository, ok) := cut "/" (Repository base) in
  if negb ok then throw (errorf ("invalid repository " +:+ quote (Repository base)))
  else
    let endpoint := "https://" +:+ host +:+ "/v2/" +:+ repository +:+ "/manifests/" +:+ path_escape (Tag base) in
    let! r := send "HEAD" endpoint
      [("Accept", "application/vnd.oci.image.index.v1+json, application/vnd.docker.distribution.manifest.list.v2+json")] in
    if bad_status r then throw (returned endpoint r)
    else
      let digest := to_lower (rs_digest r) in
      if negb (has_prefix "sha256:" digest) then throw (errorf ("invalid Docker-Content-Digest " +:+ quote digest))
      else guard (validHex (trim_prefix "sha256:" digest) 64) ;;; ret digest.

(** [supported]: an end of life is announced, not refused. *)
Definition supported (name eol : string) : M world unit :=
  if is_empty eol then throw (errorf (name +:+ " has no EOL date"))
  else if String.ltb eol today
       then print ("::warning title=End-of-life dependency declared::" +:+ name +:+ " reached end of life on " +:+ eol +:+
                   "; remove it from images/versions.json or retain it intentionally")
       else ret tt.

(** ** The feeds *)

Context `{MapRange}.

Definition set_minimal (f : Minimal → Minimal) (m : Manifest) : Manifest :=
  Build_Manifest (Schema m) (f (m_Minimal m)) (m_NativeBuild m) (m_Node m) (m_DotNet m) (m_Go m) (m_Rust m) (m_BuildTools m).
Definition set_node (f : Node → Node) (m : Manifest) : Manifest :=
  Build_Manifest (Schema m) (m_Minimal m) (m_NativeBuild m) (f (m_Node m)) (m_DotNet m) (m_Go m) (m_Rust m) (m_BuildTools m).
Definition set_dotnet (f : DotNet → DotNet) (m : Manifest) : Manifest :=
  Build_Manifest (Schema m) (m_Minimal m) (m_NativeBuild m) (m_Node m) (f (m_DotNet m)) (m_Go m) (m_Rust m) (m_BuildTools m).
Definition set_go (g : GoTool) (m : Manifest) : Manifest :=
  Build_Manifest (Schema m) (m_Minimal m) (m_NativeBuild m) (m_Node m) (m_DotNet m) g (m_Rust m) (m_BuildTools m).
Definition set_rust (r : Rust) (m : Manifest) : Manifest :=
  Build_Manifest (Schema m) (m_Minimal m) (m_NativeBuild m) (m_Node m) (m_DotNet m) (m_Go m) r (m_BuildTools m).
Definition set_line (line : string) (l : BuildToolsLine) (m : Manifest) : Manifest :=
  Build_Manifest (Schema m) (m_Minimal m) (m_NativeBuild m) (m_Node m) (m_DotNet m) (m_Go m) (m_Rust m)
    (Build_BuildTools (DefaultLine (m_BuildTools m)) (<[line := l]> (Lines (m_BuildTools m)))).
Definition set_releases (r : gmap string NodeRelease) (n : Node) : Node :=
  Build_Node (Track n) (DefaultMajor n) (node_Corepack n) r.
Definition set_Digest (d : string) (b : BaseImage) : BaseImage := Build_BaseImage (Repository b) (Tag b) d.

(** The two base images, which a map of pointers holds. *)
Definition base_of (name : string) (mn : Minimal) : BaseImage :=
  if String.eqb name "Linux" then LinuxBase mn else WindowsBase mn.
Definition set_base (name digest : string) (mn : Minimal) : Minimal :=
  if String.eqb name "Linux"
  then Build_Minimal (set_Digest digest (LinuxBase mn)) (WindowsBase mn) (min_Runner mn) (min_MinGit mn) (min_PowerShell mn)
  else Build_Minimal (LinuxBase mn) (set_Digest digest (WindowsBase mn)) (min_Runner mn) (min_MinGit mn) (min_PowerShell mn).

Definition refreshBases (m : Manifest) : M world Manifest :=
  loop (λ m name,
    let! digest := wrap (name +:+ " base image: ") (registryDigest (base_of name (m_Minimal m))) in
    ret (set_minimal (set_base name digest) m)) m (shuffle ["Linux"; "Windows"]).

Definition refreshRunner (m : Manifest) : M world Manifest :=
  let! release := wrap "actions/runner: " (github_release "actions/runner") in
  let version := trim_prefix "v" (TagName release) in
  let! linuxX64 := of_result (release_digest release ("actions-runner-linux-x64-" +:+ version +:+ ".tar.gz")) in
  let! linuxARM64 := of_result (release_digest release ("actions-runner-linux-arm64-" +:+ version +:+ ".tar.gz")) in
  let! windowsX64 := of_result (release_digest release ("actions-runner-win-x64-" +:+ version +:+ ".zip")) in
  ret (set_minimal (λ mn, Build_Minimal (LinuxBase mn) (WindowsBase mn)
         (Build_Runner version linuxX64 linuxARM64 windowsX64) (min_MinGit mn) (min_PowerShell mn)) m).

Definition is_mingit (a : githubAsset) : bool :=
  has_prefix "MinGit-" (as_Name a) && has_suffix "-64-bit.zip" (as_Name a) && negb (contains (as_Name a) "busybox").

Definition mingit_asset (assets : list githubAsset) : result githubAsset :=
  match filter (λ a, is_mingit a = true) assets with
  | [] => Err (errorf "Git for Windows release has no MinGit x64 asset")
  | [asset] => Ok asset
  | _ => Err (errorf "Git for Windows release has multiple matching MinGit x64 assets")
  end.

Definition refreshWindowsMinimal (m : Manifest) : M world Manifest :=
  let! pwsh := wrap "PowerShell: " (github_release "PowerShell/PowerShell") in
  let pwshVersion := trim_prefix "v" (TagName pwsh) in
  let! pwshDigest := wrap "PowerShell: " (of_result (release_digest pwsh ("PowerShell-" +:+ pwshVersion +:+ "-win-x64.zip"))) in
  let! git := wrap "Git for Windows: " (github_release "git-for-windows/git") in
  let! asset := of_result (mingit_asset (Assets git)) in
  let! digest := wrap "MinGit: " (of_result (asset_sha256 asset)) in
  ret (set_minimal (λ mn, Build_Minimal (LinuxBase mn) (WindowsBase mn) (min_Runner mn)
         (Build_MinGit (trim_prefix "v" (TagName git)) (BrowserDownloadURL asset) digest)
         (Build_PowerShell pwshVersion pwshDigest)) m).

(** A JSON object as a map. *)
Definition as_map {A} (f : json → decoded A) (v : json) : decoded (gmap string A) :=
  match v with
  | JObj ms => foldl (λ '(m, ok) '(k, v), let '(a, ok') := f v in (<[k := a]> m, ok && ok')) (∅, true) ms
  | JNull => (∅, true)
  | _ => (∅, false)
  end.

Record nodeLifecycle := Lifecycle { LTS : string; End_ : string }.
Definition decode_lifecycle (v : json) : decoded nodeLifecycle :=
  let '(lts, ok1) := field "lts" as_string "" v in
  let '(e, ok2) := field "end" as_string "" v in (Lifecycle lts e, ok1 && ok2).
Definition decode_schedule : json → decoded (gmap string nodeLifecycle) := as_map decode_lifecycle.
Definition decode_node_index (v : json) : decoded (list string) := as_list (field "version" as_string "") [] v.

(** An LTS major today, from its first LTS day to its last day. *)
Definition is_lts (l : nodeLifecycle) : bool :=
  negb (is_empty (LTS l)) && String.leb (LTS l) today && String.leb today (End_ l).
Definition no_release : NodeRelease := Build_NodeRelease "" "" "" "" "".
Definition discoverNodeLTS (node : Node) (schedule : gmap string nodeLifecycle) : result Node :=
  if negb (String.eqb (Track node) NodeTrackSupportedLTS)
  then Err (errorf ("unsupported Node tracking policy " +:+ quote (Track node)))
  else Ok (set_releases (foldl (λ rs '(version, l),
         let major := trim_prefix "v" version in
         if is_lts l then match rs !! major with Some _ => rs | None => <[major := no_release]> rs end else rs)
         (Releases node) (range schedule)) node).

Definition checked_sums (what : string) (length : nat) (sums : list (string * string)) : option goerror :=
  each (λ '(name, value), match validHex value length with
                          | Some e => Some (errorf_w (what +:+ " " +:+ name +:+ " checksum: ") e)
                          | None => None
                          end) (shuffle sums).

Definition node_archive (version suffix : string) (checksums : gmap string string) : string :=
  default "" (checksums !! ("node-v" +:+ version +:+ suffix)).

(** One major of [refreshNode]. *)
Definition refresh_major (index : list string) (schedule : gmap string nodeLifecycle)
    (releases : gmap string NodeRelease) (key : string) : M world (gmap string NodeRelease) :=
  let eol := default "" (End_ <$> schedule !! ("v" +:+ key)) in
  supported ("Node " +:+ key) eol ;;;
  match filter (λ c, has_prefix ("v" +:+ key +:+ ".") c = true) index with
  | [] => throw (errorf ("Node " +:+ key +:+ " has no release"))
  | candidate :: _ =>
      let version := trim_prefix "v" candidate in
      let! p := wrap ("Node " +:+ version +:+ " checksums: ")
                  (download ("https://nodejs.org/dist/v" +:+ version +:+ "/SHASUMS256.txt")) in
      let checksums := checksumManifest p.1 in
      let release := Build_NodeRelease version eol (node_archive version "-linux-x64.tar.xz" checksums)
                       (node_archive version "-linux-arm64.tar.xz" checksums)
                       (node_archive version "-win-x64.zip" checksums) in
      guard (checked_sums ("Node " +:+ version) 64
               [("linux x64", nr_LinuxX64SHA256 release); ("linux arm64", nr_LinuxARM64SHA256 release);
                ("windows x64", nr_WindowsX64SHA256 release)]) ;;;
      ret (<[key := release]> releases)
  end.

Definition refreshNode (m : Manifest) : M world Manifest :=
  let! index := wrap "Node release index: " (getJSON "https://nodejs.org/dist/index.json" decode_node_index) in
  let! schedule := wrap "Node release schedule: "
                     (getJSON "https://raw.githubusercontent.com/nodejs/Release/main/schedule.json" decode_schedule) in
  let! node := of_result (discoverNodeLTS (m_Node m) schedule) in
  let! releases := loop (refresh_major index schedule) ∅ (fst <$> range (Releases node)) in
  let node := set_releases releases node in
  match Node_DefaultRelease node with
  | None => throw (errorf ("Node default major " +:+ format_int (DefaultMajor node) +:+ " is not supported"))
  | Some _ => ret (set_node (λ _, node) m)
  end.

(** npm's metadata: the version, the tarball and its integrity. *)
Record npmPackageVersion := Npm { npm_Version : string; Tarball : string; Integrity : string }.
Definition decode_npm (v : json) : decoded npmPackageVersion :=
  let '(version, ok1) := field "version" as_string "" v in
  let '((tarball, integrity), ok2) :=
    field "dist" (λ old v, let '(t, ok) := field "tarball" as_string old.1 v in
                           let '(i, ok') := field "integrity" as_string old.2 v in ((t, i), ok && ok')) ("", "") v in
  (Npm version tarball integrity, ok1 && ok2).

Definition integritySHA512Hex (integrity : string) : result string :=
  let text := trim_space integrity in
  if negb (has_prefix "sha512-" text) then Err (errorf ("unsupported integrity " +:+ quote integrity))
  else match b64_decode StdEncoding (trim_prefix "sha512-" text) with
       | None => Err (errorf_w ("decode integrity " +:+ quote integrity +:+ ": ") (errorf "illegal base64 data"))
       | Some raw =>
           if negb (String.length raw =? 64)%nat
           then Err (errorf ("integrity " +:+ quote integrity +:+ " decodes to " +:+
                             format_int (Z.of_nat (String.length raw)) +:+ " bytes, want 64"))
           else Ok (hex_encode raw)
       end.

Definition corepack (p : npmPackageVersion) : result Corepack :=
  if is_empty (npm_Version p) || is_empty (Tarball p)
  then Err (errorf "registry metadata has no version or tarball")
  else match integritySHA512Hex (Integrity p) with
       | Ok sha512 => Ok (Build_Corepack (npm_Version p) (Tarball p) sha512)
       | Err e => Err e
       end.

Definition refreshCorepack (m : Manifest) : M world Manifest :=
  let! latest := wrap "Corepack release: " (getJSON "https://registry.npmjs.org/corepack/latest" decode_npm) in
  let! c := wrap "Corepack release: " (of_result (corepack latest)) in
  ret (set_node (λ n, Build_Node (Track n) (DefaultMajor n) c (Releases n)) m).

Record dotNetIndexChannel := IndexChannel {
  ix_Channel : string; ix_ReleaseType : string; ix_EOL : string; ix_SupportPhase : string;
  ix_ReleasesURL : string; ix_LatestSDK : string
}.
Definition decode_index_channel (v : json) : decoded dotNetIndexChannel :=
  let '(channel, ok1) := field "channel-version" as_string "" v in
  let '(kind, ok2) := field "release-type" as_string "" v in
  let '(eol, ok3) := field "eol-date" as_string "" v in
  let '(phase, ok4) := field "support-phase" as_string "" v in
  let '(url, ok5) := field "releases.json" as_string "" v in
  let '(sdk, ok6) := field "latest-sdk" as_string "" v in
  (IndexChannel channel kind eol phase url sdk, ok1 && ok2 && ok3 && ok4 && ok5 && ok6).
Definition decode_channels : json → decoded (list dotNetIndexChannel) :=
  field "releases-index" (as_list decode_index_channel) [].

Record sdk_file := SdkFile { RID : string; sf_URL : string; Hash : string }.
Record sdk := Sdk { sdk_Version : string; sdk_Files : list sdk_file }.
Definition decode_sdk_file (v : json) : decoded sdk_file :=
  let '(rid, ok1) := field "rid" as_string "" v in
  let '(url, ok2) := field "url" as_string "" v in
  let '(hash, ok3) := field "hash" as_string "" v in (SdkFile rid url hash, ok1 && ok2 && ok3).
Definition decode_sdk (old : sdk) (v : json) : decoded sdk :=
  let '(version, ok1) := field "version" as_string (sdk_Version old) v in
  let '(fs, ok2) := field "files" (as_list decode_sdk_file) (sdk_Files old) v in (Sdk version fs, ok1 && ok2).
Definition decode_releases (v : json) : decoded (string * list sdk) :=
  let '(latest, ok1) := field "latest-sdk" as_string "" v in
  let '(rs, ok2) := field "releases" (as_list (field "sdk" decode_sdk (Sdk "" []))) [] v in ((latest, rs), ok1 && ok2).

(** The channels of a tracked type that are supported and not declared. *)
Definition discovered (dotnet : DotNet) (c : dotNetIndexChannel) : bool :=
  negb (bool_decide (is_Some (Channels dotnet !! ix_Channel c))) && bool_mem (ix_ReleaseType c) (TrackReleaseTypes dotnet) &&
  (String.eqb (ix_SupportPhase c) "active" || String.eqb (ix_SupportPhase c) "maintenance") && String.leb today (ix_EOL c).
Definition discovery (c : dotNetIndexChannel) : DotNetDiscovery :=
  Build_DotNetDiscovery (ix_Channel c) (ix_ReleaseType c) (ix_SupportPhase c) (ix_EOL c) (ix_LatestSDK c).

(** [sort.Slice] is not stable; on channels that differ its order is one. *)
Definition by_channel (a b : DotNetDiscovery) : Prop := String.le (dd_Channel a) (dd_Channel b).
#[export] Instance by_channel_dec a b : Decision (by_channel a b) := decide (String.le _ _).
Definition discoverDotNetChannels (dotnet : DotNet) (candidates : list dotNetIndexChannel) : DotNet :=
  Build_DotNet (TrackReleaseTypes dotnet)
    (merge_sort by_channel (discovery <$> filter (λ c, discovered dotnet c = true) candidates)) (Channels dotnet).

(** The archives of the SDK, by their platform; of several the last. *)
Definition pick_file (c : DotNetChannel) (f : sdk_file) : DotNetChannel :=
  let hash := to_lower (Hash f) in
  let set l a w := Build_DotNetChannel (Targets c) (ch_ReleaseType c) (ch_Version c) (ch_EOL c) (ch_SupportPhase c) l a w in
  if String.eqb (RID f) "linux-x64" && has_suffix ".tar.gz" (sf_URL f)
  then set hash (ch_LinuxARM64SHA512 c) (ch_WindowsX64SHA512 c)
  else if String.eqb (RID f) "linux-arm64" && has_suffix ".tar.gz" (sf_URL f)
  then set (ch_LinuxX64SHA512 c) hash (ch_WindowsX64SHA512 c)
  else if String.eqb (RID f) "win-x64" && has_suffix ".zip" (sf_URL f)
  then set (ch_LinuxX64SHA512 c) (ch_LinuxARM64SHA512 c) hash
  else c.

(** One channel of [refreshDotNet]; of several rows of the index the last. *)
Definition refresh_channel (declared : gmap string DotNetChannel) (metadata : gmap string dotNetIndexChannel)
    (channels : gmap string DotNetChannel) (channel : string) : M world (gmap string DotNetChannel) :=
  match metadata !! channel with
  | None => throw (errorf (".NET channel " +:+ channel +:+ " is absent from the release index"))
  | Some meta =>
      supported (".NET " +:+ channel) (ix_EOL meta) ;;;
      let! releases := wrap (".NET " +:+ channel +:+ " releases: ") (getJSON (ix_ReleasesURL meta) decode_releases) in
      let resolved := Build_DotNetChannel (default [] (Targets <$> declared !! channel)) (ix_ReleaseType meta) releases.1
                        (ix_EOL meta) (ix_SupportPhase meta) "" "" "" in
      let resolved := foldl pick_file resolved
                        (mbind sdk_Files (filter (λ s, sdk_Version s = releases.1) releases.2)) in
      guard (checked_sums (".NET " +:+ channel) 128
               [("linux x64", ch_LinuxX64SHA512 resolved); ("linux arm64", ch_LinuxARM64SHA512 resolved);
                ("windows x64", ch_WindowsX64SHA512 resolved)]) ;;;
      ret (<[channel := resolved]> channels)
  end.

Definition refreshDotNet (m : Manifest) : M world Manifest :=
  let! index := wrap ".NET release index: "
    (getJSON "https://dotnetcli.blob.core.windows.net/dotnet/release-metadata/releases-index.json" decode_channels) in
  let metadata := foldl (λ md c, <[ix_Channel c := c]> md) ∅ index in
  let dotnet := discoverDotNetChannels (m_DotNet m) index in
  let! channels := loop (refresh_channel (Channels dotnet) metadata) ∅ (fst <$> range (Channels dotnet)) in
  ret (set_dotnet (λ _, Build_DotNet (TrackReleaseTypes dotnet) (UnassignedSupportedChannels dotnet) channels) m).

Record go_file := GoFile { gf_OS : string; gf_Arch : string; gf_Kind : string; gf_SHA256 : string }.
Record go_release := GoRelease { gr_Version : string; Stable : bool; gr_Files : list go_file }.
Definition decode_go_file (v : json) : decoded go_file :=
  let '(os, ok1) := field "OS" as_string "" v in
  let '(arch, ok2) := field "Arch" as_string "" v in
  let '(kind, ok3) := field "Kind" as_string "" v in
  let '(sha, ok4) := field "SHA256" as_string "" v in (GoFile os arch kind sha, ok1 && ok2 && ok3 && ok4).
Definition decode_go_release (v : json) : decoded go_release :=
  let '(version, ok1) := field "version" as_string "" v in
  let '(stable, ok2) := field "stable" as_bool false v in
  let '(fs, ok3) := field "files" (as_list decode_go_file) [] v in (GoRelease version stable fs, ok1 && ok2 && ok3).

Definition pick_go (g : GoTool) (f : go_file) : GoTool :=
  let set l a w := Build_GoTool (go_Strategy g) (go_Version g) l a w in
  if negb (String.eqb (gf_Kind f) "archive") then g
  else
    let platform := gf_OS f +:+ "/" +:+ gf_Arch f in
    if String.eqb platform "linux/amd64" then set (gf_SHA256 f) (go_LinuxARM64SHA256 g) (go_WindowsAMD64SHA256 g)
    else if String.eqb platform "linux/arm64" then set (go_LinuxAMD64SHA256 g) (gf_SHA256 f) (go_WindowsAMD64SHA256 g)
    else if String.eqb platform "windows/amd64" then set (go_LinuxAMD64SHA256 g) (go_LinuxARM64SHA256 g) (gf_SHA256 f)
    else g.

Definition refreshGo (m : Manifest) : M world Manifest :=
  let! releases := wrap "Go releases: " (getJSON "https://go.dev/dl/?mode=json&include=all" (as_list decode_go_release [])) in
  match filter (λ r, Stable r = true) releases with
  | [] => throw (errorf "Go has no stable release")
  | release :: _ =>
      let resolved := foldl pick_go (Build_GoTool (go_Strategy (m_Go m)) (trim_prefix "go" (gr_Version release)) "" "" "")
                        (gr_Files release) in
      guard (checked_sums ("Go " +:+ go_Version resolved) 64
               [("linux amd64", go_LinuxAMD64SHA256 resolved); ("linux arm64", go_LinuxARM64SHA256 resolved);
                ("windows amd64", go_WindowsAMD64SHA256 resolved)]) ;;;
      ret (set_go resolved m)
  end.

Definition refreshRust (m : Manifest) : M world Manifest :=
  let! body := wrap "Rust channel manifest: "
    (download ("https://static.rust-lang.org/dist/channel-rust-" +:+ rust_Channel (m_Rust m) +:+ ".toml")) in
  let version := rustVersion body.1 in
  if is_empty version then throw (errorf "Rust channel manifest has no pkg.rust version")
  else
    let! stable := wrap "rustup release channel: " (download "https://static.rust-lang.org/rustup/release-stable.toml") in
    let rustupVersion := rustupReleaseVersion stable.1 in
    if is_empty rustupVersion then throw (errorf "rustup release channel has no version")
    else
      let archive := "https://static.rust-lang.org/rustup/archive/" +:+ rustupVersion +:+ "/" in
      let! x64 := wrap "rustup x64 checksum: " (download (archive +:+ "x86_64-unknown-linux-gnu/rustup-init.sha256")) in
      let! arm64 := wrap "rustup arm64 checksum: " (download (archive +:+ "aarch64-unknown-linux-gnu/rustup-init.sha256")) in
      match fields x64.1, fields arm64.1 with
      | x :: _, a :: _ => ret (set_rust (Build_Rust (rust_Channel (m_Rust m)) version rustupVersion x a) m)
      | _, _ => throw (errorf "rustup checksum response is empty")
      end.

(** [info.productDisplayVersion] *)
Definition decode_product (v : json) : decoded string :=
  field "info" (field "productDisplayVersion" as_string) "" v.

(** One line of [refreshBuildTools]. *)
Definition refresh_line (m : Manifest) (line : string) : M world Manifest :=
  let release := default (Build_BuildToolsLine "" "" "" "" "" "" "") (Lines (m_BuildTools m) !! line) in
  let what := "Visual Studio Build Tools " +:+ line in
  let base := "https://aka.ms/vs/" +:+ bt_Channel release +:+ "/" in
  let! b := wrap (what +:+ " bootstrapper: ") (downloadSHA256 (base +:+ "vs_buildtools.exe") false) in
  let! c := wrap (what +:+ " channel: ") (downloadSHA256 (base +:+ "channel") true) in
  let '(bootstrapperSHA, bootstrapperURL, _) := b in
  let '(channelSHA, channelURL, body) := c in
  let! product := wrap ("decode " +:+ what +:+ " channel: ")
    match parse_json body with Some v => fits (decode_product v) | None => throw json_error end in
  match fields product with
  | version :: _ =>
      if negb (has_prefix (line +:+ ".") version)
      then throw (errorf (what +:+ " channel has unexpected product version " +:+ quote product))
      else ret (set_line line (Build_BuildToolsLine (bt_Channel release) line version bootstrapperURL bootstrapperSHA
                                 channelURL channelSHA) m)
  | [] => throw (errorf (what +:+ " channel has unexpected product version " +:+ quote product))
  end.

Definition refreshBuildTools (m : Manifest) : M world Manifest := loop refresh_line m (ReleaseLines (m_BuildTools m)).

(** [updater.refresh] *)
Definition refresh (m : Manifest) : M world Manifest :=
  let! m := refreshBases m in
  let! m := refreshRunner m in
  let! m := refreshWindowsMinimal m in
  let! m := refreshNode m in
  let! m := refreshCorepack m in
  let! m := refreshDotNet m in
  let! m := refreshGo m in
  let! m := refreshRust m in
  refreshBuildTools m.

(** ** Files *)

Context `{!Disk}.

(** A new file gets mode 0644. *)
Definition replace_file (path data : string) : M world unit :=
  let? mode := stat_mode path in
  let mode := match mode with Ok mode => mode | Err _ => 420 end in
  with_temp (Dir path) ".versions-" ".tmp" ("create temporary file for " +:+ path +:+ ": ") (λ tmpPath,
    chmod tmpPath mode ;;; write tmpPath data ;;; sync tmpPath ;;; close tmpPath ;;;
    wrap ("replace " +:+ path +:+ ": ") (rename tmpPath path)).

Definition writeIfChanged (path data : string) : M world unit :=
  let? current := read_file path in
  match current with
  | Ok current => if String.eqb current data then ret tt else replace_file path data
  | Err e => if errors_is "os.ErrNotExist" e then replace_file path data else throw (errorf_w ("read " +:+ path +:+ ": ") e)
  end.

(** ** The run *)

(** The text of a manifest. *)
Variable unmarshal : string → result Manifest.
Variable marshal : Manifest → result string.

Definition ReadForUpdate (path : string) : M world Manifest :=
  let! b := read_file path in
  let! m := of_result (unmarshal b) in
  guard (ValidatePolicy m) ;;; ret m.

Definition dockerfile (manifestPath system : string) : string := Join (Join (Dir manifestPath) system) "Dockerfile".

(** The new content of one Dockerfile. *)
Definition stage_base (updates : list (string * string)) (pb : string * string) : M world (list (string * string)) :=
  let '(path, base) := pb in
  let! data := wrap ("read " +:+ path +:+ ": ") (read_file path) in
  let! data := wrap ("update " +:+ path +:+ ": ") (of_result (replaceBaseArg data base)) in
  ret (updates ++ [(path, data)]).

(** Everything that is written, before the first write. *)
Definition stage (manifestPath : string) (m : Manifest) : M world (list (string * string)) :=
  wrap "validate refreshed manifest: " (guard (Validate m)) ;;;
  let! manifestJSON := wrap "encode manifest: " (of_result (marshal m)) in
  loop stage_base [(manifestPath, manifestJSON +:+ newline)]
    (shuffle [(dockerfile manifestPath "linux", BaseImage_Reference (LinuxBase (m_Minimal m)));
              (dockerfile manifestPath "windows", BaseImage_Reference (WindowsBase (m_Minimal m)))]).

Definition report (m : Manifest) : M world unit :=
  let node := default no_release (Node_DefaultRelease (m_Node m)) in
  let buildTools := (λ line, line +:+ "=" +:+ default "" (bt_Version <$> Lines (m_BuildTools m) !! line)) <$>
                      ReleaseLines (m_BuildTools m) in
  print ("Runner image versions refreshed (runner " +:+ runner_Version (min_Runner (m_Minimal m)) +:+ ", Node " +:+
         nr_Version node +:+ ", Go " +:+ go_Version (m_Go m) +:+ ", Rust " +:+ rust_Version (m_Rust m) +:+
         ", Build Tools " +:+ join ", " buildTools +:+ ")") ;;;
  loop (λ _ d, print ("New supported .NET channel needs image targets: " +:+ dd_Channel d +:+ " (" +:+ dd_ReleaseType d +:+
                      ", SDK " +:+ dd_LatestSDK d +:+ ", EOL " +:+ dd_EOL d +:+ ")"))
    tt (UnassignedSupportedChannels (m_DotNet m)).

Definition run (manifestPath : string) : M world unit :=
  let! m := wrap ("read " +:+ manifestPath +:+ ": ") (ReadForUpdate manifestPath) in
  let! m := refresh m in
  let! updates := stage manifestPath m in
  loop (λ _ u, writeIfChanged u.1 u.2) tt updates ;;;
  report m.
End web.
