(* ===== verification/UpdateVersionsSpec.v ===== *)
(** * The update replaces whole files by valid ones

    The refresh only asks the feeds; a manifest is checked before anything is
    written; and each file is replaced by a rename, so whatever call fails a
    file is the old one or all of the new one. *)

From S2P Require Import Prelude GoErr GoStr Codec Json Filepath Host ImageVersions UpdateVersions.

Local Open Scope Z_scope.
Local Open Scope go_scope.

Section files.
Context `{!Web, !MapRange}.
Variables (sha256 : string → string) (today token : string).
Variable fs : gmap string file.
Local Notation kept := (preserves (λ w, files w = fs)).

Lemma send_files method endpoint headers : kept (send method endpoint headers).
Proof using Type. unfold send. keep. intros w Hw. by destruct (client_Do _ _). Qed.
#[local] Hint Resolve send_files : keepdb.

Lemma doJSON_files {A} endpoint headers (decode : json → decoded A) : kept (doJSON endpoint headers decode).
Proof using Type. unfold doJSON, fits. keep. Qed.
#[local] Hint Resolve doJSON_files : keepdb.

Lemma download_files endpoint : kept (download endpoint).
Proof using Type. unfold download. keep. Qed.
#[local] Hint Resolve download_files : keepdb.

Lemma downloadSHA256_files endpoint body : kept (downloadSHA256 sha256 endpoint body).
Proof using Type. unfold downloadSHA256. keep. Qed.
#[local] Hint Resolve downloadSHA256_files : keepdb.

Lemma github_release_files repo : kept (github_release token repo).
Proof using Type. unfold github_release. keep. Qed.
#[local] Hint Resolve github_release_files : keepdb.

Lemma supported_files name eol : kept (supported today name eol).
Proof using Type. unfold supported, print. keep. Qed.
#[local] Hint Resolve supported_files : keepdb.

Lemma refresh_files m : kept (refresh sha256 today token m).
Proof using Type.
  unfold refresh, refreshBases, refreshRunner, refreshWindowsMinimal, refreshNode, refreshCorepack, refreshDotNet, refreshGo,
    refreshRust, refreshBuildTools, registryDigest, refresh_major, refresh_channel, refresh_line, getJSON, fits.
  keep.
Qed.
End files.

(** ** Writing the files *)

Section targets.
Context `{!Disk}.
Variable targets : list string.
Hypothesis fresh : ∀ t, t ∈ targets → ¬ temporary targets t.
Local Notation written := (written targets).

Lemma replace_file_wp path data w : path ∈ targets → wp (replace_file path data) (written path data (files w)) w.
Proof using fresh.
  intros Ht. unfold replace_file. apply wp_catch, stored_wp. intros mode w1 H1 _. cbn zeta. rewrite <- H1. clear H1 w.
  apply with_temp_wp; [done|done|set_solver|]. intros fs tmp w Hne. apply stage_then; [done|apply chmod_staging|].
  intros _. clear w. intros w. apply write_then; [done|apply write_writes|]. clear w. intros w.
  apply hold_then; [done|apply idle_holding|]. intros _. clear w. intros w.
  apply hold_then; [done|apply idle_holding|]. intros _. clear w. intros w. by apply rename_wrap.
Qed.

Lemma writeIfChanged_wp path data w : path ∈ targets → wp (writeIfChanged path data) (written path data (files w)) w.
Proof using fresh.
  intros Ht. unfold writeIfChanged. apply wp_catch, stored_wp. intros r w1 H1 Hr. rewrite <- H1.
  destruct r as [current|e].
  - destruct (String.eqb_spec current data) as [->|_]; [|by apply replace_file_wp].
    apply wp_ret. split; [apply evolves_refl|]. intros _. destruct (Hr data eq_refl) as (x & Hx & Hd).
    by rewrite H1, Hx, <- Hd.
  - destruct (errors_is _ e); [by apply replace_file_wp|]. by apply wp_throw, unwritten.
Qed.

(** All the files. *)
Lemma write_all_wp updates w : updates.*1 ⊆ targets → NoDup updates.*1 →
  wp (loop (λ _ u, writeIfChanged u.1 u.2) tt updates)
    (λ r w', evolves targets updates (files w) (files w') ∧
             (r = Ok tt → ∀ p d, (p, d) ∈ updates → f_data <$> files w' !! p = Some d)) w.
Proof using fresh.
  revert w. induction updates as [|[path data] updates IH]; intros w Hs Hn; cbn [loop].
  { apply wp_ret. split; [apply evolves_refl|]. intros _ p d []%not_elem_of_nil. }
  cbn in Hs, Hn. apply NoDup_cons in Hn as [Hp Hn]. apply wp_bind. cbn [fst snd].
  eapply wp_mono; [apply writeIfChanged_wp; set_solver|]. intros r w1 [H1 Hd1].
  destruct r as [[]|e].
  2:{ split; [|done]. eapply evolves_more; [done|set_solver]. }
  eapply wp_mono; [apply IH; [set_solver|done]|]. intros r w2 [H2 Hd2]. split.
  - eapply evolves_trans; [eapply evolves_more; [done|set_solver]|]. eapply evolves_more; [done|set_solver].
  - intros Hr p d Hin. apply elem_of_cons in Hin as [[= -> ->]|Hin]; [|by apply Hd2].
    destruct (H2 path) as [->|[[_ Ht]|(d & Hd & _)]]; [by apply Hd1| |].
    + destruct (fresh path); [set_solver|done].
    + destruct Hp. apply list_elem_of_fmap. by exists (path, d).
Qed.
End targets.

(** ** The base line of a Dockerfile *)

(** [new] is [old] with the one line that sets the base changed to
    [reference]; the other lines and the end of this one are kept. *)
Definition base_replaced (old reference new : string) : Prop :=
  ∃ before value ending after,
    split_after old = before ++ (base_prefix +:+ value +:+ ending) :: after ∧
    new = join "" (before ++ (base_prefix +:+ reference +:+ ending) :: after) ∧
    str_mem "010" value = false ∧ ending ∈ [""; String "013" ""; newline; String "013" newline] ∧
    Forall (λ l, has_prefix base_prefix l = false) (before ++ after).

Lemma join_split_after s : join "" (split_after s) = s.
Proof.
  induction s as [|c s IH]; [done|]. cbn [split_after]. assert (split_after s ≠ []) as Hne.
  { destruct s; cbn [split_after]; [done|]. destruct (Ascii.eqb _ _); [done|]. by destruct (split_after s). }
  destruct (Ascii.eqb c "010").
  - rewrite join_cons by done. by rewrite IH.
  - destruct (split_after s) as [|l ls]; [done|]. rewrite <- IH. by destruct ls.
Qed.

Lemma split_after_line s l : l ∈ split_after s → ∃ x, (l = x ∨ l = x +:+ newline) ∧ str_mem "010" x = false.
Proof.
  revert l. induction s as [|c s IH]; intros l; cbn [split_after].
  { intros ->%list_elem_of_singleton. exists "". auto. }
  destruct (Ascii.eqb_spec c "010") as [->|Hc].
  - intros [->|Hl]%elem_of_cons; [|by apply IH]. exists "". auto.
  - destruct (split_after s) as [|l0 ls].
    + intros ->%list_elem_of_singleton. exists (String c ""). split; [by left|]. cbn [str_mem].
      by rewrite (proj2 (Ascii.eqb_neq _ _)) by congruence.
    + intros [->|Hl]%elem_of_cons; [|by apply IH; right]. destruct (IH l0) as (x & Hx & Hm); [left|].
      exists (String c x). split; [destruct Hx as [->| ->]; auto|]. cbn [str_mem].
      by rewrite Hm, (proj2 (Ascii.eqb_neq _ _)) by congruence.
Qed.

Lemma prefix_before_ending p x e : has_prefix p (x +:+ e) = true → (∀ c, str_mem c e = true → str_mem c p = false) →
  has_prefix p x = true.
Proof.
  revert x. induction p as [|c p IH]; intros x Hp Hd; [done|]. destruct x as [|c' x].
  - cbn in Hp. destruct e as [|c' e]; [done|]. cbn in Hp. apply andb_true_iff in Hp as [Hc _].
    apply Ascii.eqb_eq in Hc as <-. specialize (Hd c). cbn in Hd. rewrite Ascii.eqb_refl in Hd. by specialize (Hd eq_refl).
  - cbn in *. apply andb_true_iff in Hp as [-> Hp]. cbn. apply IH; [done|]. intros c0 H0.
    specialize (Hd c0 H0). by apply orb_false_iff in Hd as [_ ?].
Qed.

Lemma trim_suffix_cut suf s : ∃ e, s = trim_suffix suf s +:+ e ∧ (e = "" ∨ e = suf).
Proof.
  unfold trim_suffix. destruct (has_suffix suf s) eqn:Hs.
  - apply has_suffix_spec in Hs as [r ->]. exists suf. split; [|by right].
    replace (String.length (r +:+ suf) - String.length suf)%nat with (String.length r) by (rewrite str_length_app; lia).
    by rewrite str_take_app.
  - exists "". rewrite str_app_nil_r. auto.
Qed.

Lemma line_trimmed s l : l ∈ split_after s → ∃ ending, l = trimmed l +:+ ending ∧ str_mem "010" (trimmed l) = false ∧
  ending ∈ [""; String "013" ""; newline; String "013" newline].
Proof.
  intros (x & Hl & Hm)%split_after_line. unfold trimmed, drop_cr.
  assert (∃ e, l = x +:+ e ∧ trim_suffix newline l = x ∧ (e = "" ∨ e = newline)) as (e & -> & -> & He).
  { destruct Hl as [->| ->].
    - exists "". rewrite str_app_nil_r. split_and!; [done| |auto]. unfold trim_suffix.
      destruct (has_suffix newline x) eqn:Hs; [|done]. apply has_suffix_spec in Hs as [r ->].
      rewrite str_mem_app in Hm. by rewrite orb_true_r in Hm.
    - exists newline. rewrite trim_suffix_app. auto. }
  destruct (trim_suffix_cut (String "013" "") x) as (e' & Hx & He'). exists (e' +:+ e). split_and!.
  - by rewrite <- str_app_assoc, <- Hx.
  - rewrite Hx, str_mem_app in Hm. by apply orb_false_iff in Hm as [? _].
  - destruct He as [->| ->], He' as [->| ->]; set_solver.
Qed.

Lemma base_line s l : l ∈ split_after s → is_base_line l = has_prefix base_prefix l.
Proof.
  intros (e & Hl & _ & He)%line_trimmed. unfold is_base_line. apply eq_true_iff_eq. split; intros Hp.
  - apply has_prefix_spec in Hp as [r Hr]. rewrite Hl, Hr, str_app_assoc. apply has_prefix_app.
  - rewrite Hl in Hp. apply (prefix_before_ending _ _ e Hp). intros c Hc.
    repeat (apply elem_of_cons in He as [->|He]; [cbn in Hc; rewrite ?orb_false_r, ?orb_true_iff, ?Ascii.eqb_eq in Hc; naive_solver|]).
    by apply elem_of_nil in He.
Qed.

Lemma filter_one {A} (f : A → bool) l : length (filter (λ x, f x = true) l) = 1%nat →
  ∃ a x b, l = a ++ x :: b ∧ f x = true ∧ Forall (λ y, f y = false) (a ++ b).
Proof.
  induction l as [|y l IH]; [done|]. rewrite filter_cons. destruct (f y) eqn:Hy.
  - rewrite decide_True by done. intros [= Hl%nil_length_inv]. exists [], y, l. split_and!; [done..|].
    cbn. rewrite Forall_forall. intros x Hx. apply not_true_iff_false. intros Hfx.
    assert (x ∈ filter (λ x, f x = true) l) as Hin by (by apply list_elem_of_filter). rewrite Hl in Hin. by apply elem_of_nil in Hin.
  - rewrite decide_False by congruence. intros (a & x & b & -> & Hx & Hf)%IH. exists (y :: a), x, b.
    split_and!; [done..|]. by constructor.
Qed.

Lemma fmap_same {A} (f : A → A) l : Forall (λ y, f y = y) l → f <$> l = l.
Proof. induction 1 as [|y l Hy _ IH]; [done|]. rewrite fmap_cons. by f_equal. Qed.

Lemma replaceBaseArg_ok old reference new : replaceBaseArg old reference = Ok new → base_replaced old reference new.
Proof.
  unfold replaceBaseArg. set (f l := if is_base_line l then _ else _).
  destruct (negb (length _ =? 1)%nat) eqn:Hc; [done|]. apply negb_false_iff, Nat.eqb_eq, filter_one in Hc as (a & l & b & Hs & Hl & Hf).
  intros Hnew. injection Hnew as <-. assert (l ∈ split_after old) as Hin by (rewrite Hs; set_solver).
  destruct (line_trimmed _ _ Hin) as (e & Hle & Hm & He). pose proof Hl as Hv. unfold is_base_line in Hv.
  apply has_prefix_spec in Hv as [v Hv].
  assert (Forall (λ y, f y = y) (a ++ b)) as [Ha Hb]%Forall_app.
  { eapply Forall_impl; [exact Hf|]. intros y Hy. unfold f. by rewrite Hy. }
  assert (f l = base_prefix +:+ reference +:+ e) as Hfl.
  { unfold f. rewrite Hl. rewrite Hle at 2. by rewrite trim_prefix_app. }
  rewrite Hv in Hle, Hm. exists a, v, e, b. rewrite Hs, fmap_app, fmap_cons, !fmap_same, Hfl by done.
  rewrite str_app_assoc in Hle. rewrite Hle. rewrite str_mem_app in Hm. apply orb_false_iff in Hm as [_ Hm]. split_and!; [done..|].
  rewrite Forall_forall in *. intros y Hy. rewrite <- (base_line old); [by apply Hf|]. rewrite Hs. set_solver.
Qed.

(** ** The run *)

Section run.
Context `{W : Web, R : MapRange, D : Disk}.
Variables (sha256 : string → string) (today token : string).
Variables (unmarshal : string → result Manifest) (marshal : Manifest → result string).
Variable manifestPath : string.

Definition targets : list string := [manifestPath; dockerfile manifestPath "linux"; dockerfile manifestPath "windows"].

(** The new content of a file, for the manifest [m]. *)
Definition based (fs : gmap string file) (b : BaseImage) (path data : string) : Prop :=
  ∃ x, fs !! path = Some x ∧ base_replaced (f_data x) (BaseImage_Reference b) data.
Definition content (m : Manifest) (fs : gmap string file) (path data : string) : Prop :=
  (path = manifestPath ∧ ∃ json, marshal m = Ok json ∧ data = json +:+ newline) ∨
  (path = dockerfile manifestPath "linux" ∧ based fs (LinuxBase (m_Minimal m)) path data) ∨
  (path = dockerfile manifestPath "windows" ∧ based fs (WindowsBase (m_Minimal m)) path data).

Lemma stage_base_wp base updates path w : wp (stage_base updates (path, BaseImage_Reference base)) (λ r w', files w' = files w ∧
  ∀ us, r = Ok us → ∃ d, us = updates ++ [(path, d)] ∧ based (files w) base path d) w.
Proof using Type.
  unfold stage_base, read_file. apply wp_bind, wp_catch, stored_wp. intros r w1 H1 Hr. destruct r as [data|e]; [|by apply wp_throw].
  apply wp_ret, wp_bind, wp_catch. destruct (replaceBaseArg data _) as [new|e] eqn:Hn; [|by apply wp_throw].
  apply wp_ret, wp_ret, wp_ret. split; [done|]. intros us [= <-]. exists new. split; [done|].
  destruct (Hr data eq_refl) as (x & Hx & <-). exists x. split; [done|]. by apply replaceBaseArg_ok.
Qed.

Lemma stage_wp m w : wp (stage marshal manifestPath m) (λ r w', files w' = files w ∧
  ∀ us, r = Ok us → Validate m = None ∧ us.*1 ≡ₚ targets ∧ Forall (λ u, content m (files w) u.1 u.2) us) w.
Proof using Type.
  unfold stage. apply wp_bind, wp_catch. destruct (Validate m) as [e|] eqn:Hv; [by apply wp_throw|].
  apply wp_ret, wp_ret, wp_bind, wp_catch. destruct (marshal m) as [json|e] eqn:Hj; [|by apply wp_throw].
  apply wp_ret, wp_ret. set (bases := [(_, BaseImage_Reference (LinuxBase _)); _]).
  pose proof (shuffle_perm bases) as Hp.
  assert (shuffle bases = bases ∨ shuffle bases = [nth 1 bases ("", ""); nth 0 bases ("", "")]) as Hs.
  { destruct (shuffle bases) as [|x [|y [|]]]; try by apply Permutation_length in Hp.
    apply Permutation_length_2 in Hp as [[-> ->]|[-> ->]]; auto. }
  destruct Hs as [-> | ->]; cbn [nth bases loop]; apply wp_bind; (eapply wp_mono; [apply stage_base_wp|]);
    (intros [us1|e] w1 [H1 Hu]; [|by split]); destruct (Hu us1 eq_refl) as (d1 & -> & Hd1); clear Hu;
    apply wp_bind; (eapply wp_mono; [apply stage_base_wp|]);
    (intros [us2|e] w2 [H2 Hu]; [|split; [congruence|done]]); destruct (Hu us2 eq_refl) as (d2 & -> & Hd2);
    rewrite H1 in H2, Hd2; apply wp_ret; (split; [done|]); intros us [= <-]; (split_and!; [done|cbn|]).
  - done.
  - cbn. rewrite !Forall_cons, Forall_nil. split_and!; [left; eauto|by right; left|by right; right|done].
  - unfold targets. by rewrite (Permutation_swap (dockerfile _ "linux")).
  - cbn. rewrite !Forall_cons, Forall_nil. split_and!; [left; eauto|by right; right|by right; left|done].
Qed.

Lemma report_files fs m : preserves (λ w, files w = fs) (report m).
Proof using Type. unfold report, print. keep. Qed.

(** C14: The update of the image versions writes only whole, valid files.
    Whatever the feeds answer, whichever call of the file system fails and
    whatever a failed write leaves, every file is as it was before, except that
    the manifest and the two Dockerfiles may be all of their new content: the
    text of a refreshed manifest that passes [Validate], and the Dockerfile with
    exactly its one base line changed to the base image of that manifest; and a
    temporary file may be left.  A run that succeeds has replaced all three. *)
Theorem run_replaces_whole w r w'
    (Hdistinct : NoDup targets)
    (Hfresh : ∀ t, t ∈ targets → ¬ temporary targets t)
    (Hrun : run sha256 today token unmarshal marshal manifestPath w = (r, w')) :
  (∃ m updates, Validate m = None ∧ updates.*1 ≡ₚ targets ∧ Forall (λ u, content m (files w) u.1 u.2) updates ∧
    evolves targets updates (files w) (files w') ∧
    (r = Ok tt → ∀ path data, (path, data) ∈ updates → f_data <$> files w' !! path = Some data)) ∨
  (files w' = files w ∧ is_ok r = false).
Proof.
  revert Hrun. enough (wp (run sha256 today token unmarshal marshal manifestPath)
    (λ r w', (∃ m updates, Validate m = None ∧ updates.*1 ≡ₚ targets ∧ Forall (λ u, content m (files w) u.1 u.2) updates ∧
      evolves targets updates (files w) (files w') ∧
      (r = Ok tt → ∀ path data, (path, data) ∈ updates → f_data <$> files w' !! path = Some data)) ∨
      (files w' = files w ∧ is_ok r = false)) w) as Hwp.
  { unfold wp in Hwp. intros Hrun. rewrite Hrun in Hwp. exact Hwp. }
  unfold run. apply wp_bind, wp_catch. unfold ReadForUpdate. apply wp_bind, stored_wp. intros [b|e] w1 H1 _; [|right; by split].
  apply wp_bind. destruct (unmarshal b) as [m|e]; [|right; by split]. apply wp_ret, wp_bind.
  destruct (ValidatePolicy m) as [e|]; [right; by split|]. apply wp_ret, wp_ret, wp_ret, wp_bind.
  eapply wp_mono; [exact (wp_preserves _ _ _ (refresh_files sha256 today token (files w1) m) eq_refl)|]. clear m. intros [m|e] w2 H2; [|right; split; [congruence|done]].
  apply wp_bind. eapply wp_mono; [apply stage_wp|]. rewrite H2, H1. intros [us|e] w3 [H3 Hu]; [|by right].
  destruct (Hu us eq_refl) as (Hv & Hp & Hc). apply wp_bind.
  eapply wp_mono; [apply (write_all_wp targets Hfresh); by rewrite Hp|]. rewrite H3.
  intros r4 w4 [He Hd]. destruct r4 as [[]|e]; [|left; by exists m, us].
  eapply wp_mono; [exact (wp_preserves _ _ _ (report_files (files w4) m) eq_refl)|]. cbn beta. intros r5 w5 H5. left.
  exists m, us. rewrite H5. split_and!; auto.
Qed.
End run.

(** Feeds that publish everything, and a directory with the three files. *)
Module published.
Definition strs (l : list (string * string)) : json := JObj (prod_map id JStr <$> l).
Definition asset (n : string) : json :=
  strs [("name", n); ("browser_download_url", "https://dl/" +:+ n); ("digest", "sha256:" +:+ hex64)].
Definition latest (tag : string) (names : list string) : json :=
  JObj [("tag_name", JStr tag); ("assets", JArr (asset <$> names))].
Definition sums (version : string) : string :=
  join newline ((λ n, hex64 +:+ "  node-v" +:+ version +:+ n) <$> ["-linux-x64.tar.xz"; "-linux-arm64.tar.xz"; "-win-x64.zip"]).
Definition channel_row (channel sdk : string) : json :=
  strs [("channel-version", channel); ("release-type", "lts"); ("eol-date", "2028-11-14"); ("support-phase", "active");
        ("releases.json", "https://dotnet/" +:+ channel); ("latest-sdk", sdk)].
Definition sdk_json (version : string) : json :=
  JObj [("latest-sdk", JStr version);
        ("releases", JArr [JObj [("sdk", JObj [("version", JStr version);
           ("files", JArr ((λ '(rid, url), strs [("rid", rid); ("url", url); ("hash", hex128)]) <$>
                             [("linux-x64", "a.tar.gz"); ("linux-arm64", "b.tar.gz"); ("win-x64", "c.zip")]))])]])].
Definition go_json : json :=
  JObj [("version", JStr "go1.26"); ("stable", JBool true);
        ("files", JArr ((λ '(os, arch), strs [("os", os); ("arch", arch); ("kind", "archive"); ("sha256", hex64)]) <$>
                          [("linux", "amd64"); ("linux", "arm64"); ("windows", "amd64")]))].

(** The text of each feed, found by a part of its URL. *)
Definition feeds : list (string * string) :=
  [("actions/runner", encode_json (latest "v2.338.0"
      ["actions-runner-linux-x64-2.338.0.tar.gz"; "actions-runner-linux-arm64-2.338.0.tar.gz"; "actions-runner-win-x64-2.338.0.zip"]));
   ("PowerShell", encode_json (latest "v7.6.7" ["PowerShell-7.6.7-win-x64.zip"]));
   ("git-for-windows", encode_json (latest "v2.57.0" ["MinGit-2.57.0-64-bit.zip"; "MinGit-2.57.0-busybox-64-bit.zip"]));
   ("dist/index.json", encode_json (JArr [strs [("version", "v24.1.0")]; strs [("version", "v22.24.0")]]));
   ("schedule.json", encode_json (JObj [("v22", strs [("lts", "2024-10-29"); ("end", "2027-04-30")]);
                                        ("v24", strs [("lts", "2025-10-28"); ("end", "2028-04-30")])]));
   ("v22.24.0", sums "22.24.0"); ("v24.1.0", sums "24.1.0");
   ("corepack", encode_json (JObj [("version", JStr "0.37.0");
      ("dist", strs [("tarball", "https://npm/c.tgz"); ("integrity", "sha512-" +:+ b64_encode StdEncoding (repeat_char 64 "x"))])]));
   ("releases-index", encode_json (JObj [("releases-index", JArr [channel_row "8.0" "8.0.5"; channel_row "10.0" "10.0.402"; channel_row "9.0" "9.0.1"])]));
   ("dotnet/8.0", encode_json (sdk_json "8.0.5")); ("dotnet/10.0", encode_json (sdk_json "10.0.402"));
   ("go.dev", encode_json (JArr [go_json]));
   ("channel-rust", "[pkg.rust]" +:+ newline +:+ version_prefix +:+ "1.91.0 (abc)" +:+ dq +:+ newline);
   ("release-stable", "version = '1.29.1'"); ("rustup-init", hex64 +:+ " *rustup-init");
   ("release/channel", encode_json (JObj [("info", strs [("productDisplayVersion", "17.14.2 (July)")])]));
   ("vs_buildtools", "MZ")].
#[export] Instance web : Web := {|
  new_request url := Ok url;
  client_Do _ r := Ok match filter (λ f, contains (rq_url r) f.1 = true) feeds with
                      | f :: _ => Resp 200 "200 OK" "" f.2 None (rq_url r)
                      | [] => Resp 200 "200 OK" ("sha256:" +:+ hex64) "" None (rq_url r)
                      end |}.
#[export] Instance disk : Disk := {| op_fails _ _ := None; torn _ _ := ""; random_name _ := "1" |}.

Definition manifest : Manifest :=
  set_minimal (λ mn, Build_Minimal (Build_BaseImage "mcr.io/runtime-deps" "8.0-noble" "") (Build_BaseImage "mcr.io/servercore" "ltsc2025" "")
                       (min_Runner mn) (min_MinGit mn) (min_PowerShell mn)) sample_manifest.
Definition path : string := "images/versions.json".
Definition old_dockerfile : string := "FROM a" +:+ newline +:+ "ARG BASE=b" +:+ newline +:+ "RUN c".
Definition start : world :=
  World [] {[path := File "{}" 420; dockerfile path "linux" := File old_dockerfile 420; dockerfile path "windows" := File old_dockerfile 420]} 0 [] [].
Definition update : result unit * world :=
  run (λ _, repeat_char 32 "x") "2026-06-01" "" (λ _, Ok manifest) (λ _, Ok "{new}") path start.
End published.

Import published.

Lemma run_replaces_whole_witness :
  update.1 = Ok tt ∧ f_data <$> files update.2 !! path = Some ("{new}" +:+ newline) ∧
  ((∃ m updates, Validate m = None ∧ updates.*1 ≡ₚ targets path ∧
     Forall (λ u, content (λ _, Ok "{new}") path m (files start) u.1 u.2) updates ∧
     evolves (targets path) updates (files start) (files update.2) ∧
     (Ok tt = Ok tt → ∀ p data, (p, data) ∈ updates → f_data <$> files update.2 !! p = Some data)) ∨
   (files update.2 = files start ∧ is_ok (Ok tt) = false)).
Proof.
  split; [vm_compute; reflexivity|]. split; [vm_compute; reflexivity|].
  apply (run_replaces_whole (λ _, repeat_char 32 "x") "2026-06-01" "" (λ _, Ok manifest) (λ _, Ok "{new}") path start (Ok tt) update.2).
  - apply (bool_decide_unpack _). vm_compute. exact I.
  - intros t Ht (n & t' & pat & Ht' & Hpat & He). unfold targets in Ht, Ht'. unfold patterns in Hpat. rewrite !elem_of_cons, elem_of_nil in Ht, Ht'.
    rewrite !elem_of_cons, elem_of_nil in Hpat.
    destruct Ht as [->|[->|[->|[]]]], Ht' as [->|[->|[->|[]]]], Hpat as [->|[->|[->|[]]]]; vm_compute in He; discriminate.
  - vm_compute. reflexivity.
Defined.
