(* ===== verification/ConfigFile.v ===== *)
(** * The configuration file on disk

    [internal/config/connect.go], [template.go] and [dotenv.go]: the sections
    that [connect] writes into an existing configuration, the starter pool, and
    the variables of the [.env] files.

    A configuration is edited as a tree of YAML nodes.  The parser and the
    printer of YAML are a library; here they are parameters. *)

From S2P Require Import Prelude GoErr GoStr Filepath Host.

Local Open Scope Z_scope.
Local Open Scope go_scope.

(** ** YAML nodes *)

Inductive node_kind := DocumentNode | SequenceNode | MappingNode | ScalarNode | AliasNode.

(** [yaml.Node]; [extra] is what connect neither reads nor writes: the anchor,
    the alias, the position and the other comments. *)
Inductive node := Node (Kind : node_kind) (Style : Z) (Tag Value HeadComment : string) (extra : list string) (Content : list node).

Definition Kind (n : node) : node_kind := let 'Node k _ _ _ _ _ _ := n in k.
Definition Tag (n : node) : string := let 'Node _ _ t _ _ _ _ := n in t.
Definition Value (n : node) : string := let 'Node _ _ _ v _ _ _ := n in v.
Definition HeadComment (n : node) : string := let 'Node _ _ _ _ h _ _ := n in h.
Definition Content (n : node) : list node := let 'Node _ _ _ _ _ _ c := n in c.
Definition set_content (c : list node) (n : node) : node := let 'Node k s t v h e _ := n in Node k s t v h e c.
Definition set_comment (h : string) (n : node) : node := let 'Node k s t v _ e c := n in Node k s t v h e c.
Definition set_style (s : Z) (n : node) : node := let 'Node k _ t v h e c := n in Node k s t v h e c.
Definition retag (kind : node_kind) (tag value : string) (n : node) : node := let 'Node _ s _ _ h e c := n in Node kind s tag value h e c.

Definition scalar (tag value : string) : node := Node ScalarNode 0 tag value "" [] [].
Definition new_mapping : node := Node MappingNode 0 "" "" "" [] [].

#[export] Instance node_kind_dec : EqDecision node_kind.
Proof. solve_decision. Defined.
Definition is_mapping (n : node) : bool := bool_decide (Kind n = MappingNode).

(** [findKey]: the value of the first such key, and the index of the key. *)
Fixpoint find_pair (key : string) (i : nat) (c : list node) : option (node * nat) :=
  match c with
  | k :: v :: c => if String.eqb (Value k) key then Some (v, i) else find_pair key (i + 2) c
  | _ => None
  end.
Definition findKey (m : node) (key : string) : option (node * nat) := find_pair key 0 (Content m).

(** The value of a key is changed in place, or the key is appended. *)
Definition put_key (key : string) (change : node → node) (fresh : node) (m : node) : node :=
  match findKey m key with
  | Some (v, i) => set_content (<[i + 1 := change v]> (Content m))%nat m
  | None => set_content (Content m ++ [scalar "" key; fresh]) m
  end.

(** [upsertMapping], and what is then done with the mapping it returns. *)
Definition as_mapping (v : node) : node :=
  if is_mapping v then v else set_content [] (retag MappingNode "!!map" (Value v) v).
Definition upsertMapping (key : string) (edit : node → node) (m : node) : node :=
  put_key key (edit ∘ as_mapping) (edit new_mapping) m.

Definition setScalar (key value : string) (m : node) : node :=
  put_key key (retag ScalarNode "!!str" value) (scalar "!!str" value) m.
Definition setInt (key : string) (value : Z) (m : node) : node :=
  put_key key (retag ScalarNode "!!int" (format_int value)) (scalar "!!int" (format_int value)) m.
Definition setScalarIfAbsent (key value : string) (m : node) : node :=
  match findKey m key with None => setScalar key value m | Some _ => m end.
Definition removeKey (key : string) (m : node) : node :=
  match findKey m key with
  | Some (_, i) => set_content (take i (Content m) ++ drop (i + 2) (Content m)) m
  | None => m
  end.

(** ** The sections of connect *)

Definition github_section (scope owner repo : string) (gh : node) : node :=
  let gh := setScalarIfAbsent "url" "https://github.com" gh in
  let gh := setScalar "scope" scope gh in
  let gh := setScalar "owner" owner gh in
  if String.eqb scope "repo" then setScalar "repo" repo gh else gh.

Definition app_section (appID installationID : Z) (keyPath : string) (auth : node) : node :=
  let auth := removeKey "pat" auth in
  let auth := removeKey "client_id" auth in
  let auth := removeKey "token_path" auth in
  let auth := setInt "app_id" appID auth in
  let auth := setInt "installation_id" installationID auth in
  setScalar "private_key_path" keyPath auth.

Definition device_section (clientID tokenPath : string) (auth : node) : node :=
  let auth := removeKey "pat" auth in
  let auth := removeKey "app_id" auth in
  let auth := removeKey "installation_id" auth in
  let auth := removeKey "private_key_path" auth in
  let auth := setScalar "client_id" clientID auth in
  setScalar "token_path" tokenPath auth.

Definition app_doc (scope owner repo : string) (appID installationID : Z) (keyPath : string) (doc : node) : node :=
  upsertMapping "auth" (app_section appID installationID keyPath) (upsertMapping "github" (github_section scope owner repo) doc).
Definition device_doc (scope owner repo clientID tokenPath : string) (doc : node) : node :=
  upsertMapping "auth" (device_section clientID tokenPath) (upsertMapping "github" (github_section scope owner repo) doc).

(** ** The starter pool *)

Definition FallbackDockerHost (goos : string) : string :=
  if String.eqb goos "windows" then "npipe:////./pipe/docker_engine" else "unix:///var/run/docker.sock".

(** The system of the pool, and the architecture as runners name it. *)
Definition starter_os (daemonOS : string) : string := if is_empty daemonOS then "linux" else daemonOS.
Definition starter_arch (goarch architecture : string) : string :=
  let a := if is_empty architecture then goarch else architecture in
  if bool_mem a ["amd64"; "x86_64"] then "x64"
  else if String.eqb a "aarch64" then "arm64"
  else if bool_mem a ["armv7l"; "armv6l"] then "arm"
  else a.

Definition lines (l : list string) : string := String.concat "" ((λ s, s +:+ String "010" "") <$> l).
Definition PoolsYAML (goos goarch dockerHost architecture daemonOS : string) : string :=
  let os := starter_os daemonOS in
  lines
    [""; "pools:";
     "  # A first pool, ready to run. `multirunner doctor` checks it against this host.";
     "  #";
     "  # Everything below is optional except name, os and docker.host. Provisioning";
     "  # defaults to scaleset for repo and org scopes and pool for scope=repos;";
     "  # backend defaults to docker, and qemu needs no docker.host at all. Cache,";
     "  # git cache, metrics and webhook tuning are covered in config.example.yaml.";
     "  - name: " +:+ os +:+ "-pool";
     "    # linux | windows";
     "    os: " +:+ os;
     "    # Idle runners, or the cap on concurrent runners when autoscaling.";
     "    size: 2";
     "    # What a workflow's runs-on has to match.";
     "    labels: [self-hosted, " +:+ os +:+ ", " +:+ quote (starter_arch goarch architecture) +:+ "]";
     "    # linux: minimal, native-build, node, dotnet, rust, go";
     "    # windows: minimal, node, dotnet, buildtools";
     "    # Or set image: instead, to pin one of your own.";
     "    image_tier: minimal";
     "    docker:";
     "      # Other common endpoints:";
     "      #   tcp://127.0.0.1:2375             WSL2 Docker Engine over TCP";
     "      #   npipe:////./pipe/docker_engine   Docker Desktop / Podman on Windows";
     "      #   unix:///var/run/docker.sock      Linux host daemon";
     "      host: " +:+ quote (if is_empty dockerHost then FallbackDockerHost goos else dockerHost);
     "      # Mounts the host Docker socket into the job: trusted workflows only.";
     "      enable_dind: false";
     "    tool_cache:";
     "      # shared-volume persists hostedtoolcache between runners; off disables it.";
     "      mode: shared-volume"].

(** The pools of a configuration that has none. *)
Definition no_pools (v : node) : bool :=
  String.eqb (Tag v) "!!null" || (bool_decide (Kind v = SequenceNode) && bool_decide (Content v = [])).
Definition add_pools (key value : node) (doc : node) : option node :=
  match findKey doc "pools" with
  | Some (v, i) =>
      if no_pools v
      then Some (set_style 0 (set_content (<[i + 1 := set_comment (HeadComment v) value]> (Content doc))%nat doc))
      else None
  | None => Some (set_style 0 (set_content (Content doc ++ [key; value]) doc))
  end.

(** ** The file *)

Section file.
Context `{!Disk}.
(** yaml.v3: the document of a text, and the text of a document. *)
Variable yaml_unmarshal : string → result node.
Variable yaml_encode : node → result string.
Variables goos goarch : string.

Record ConnectHints := Hints { h_Provisioning : string; h_WebhookListen : string; h_GitHubURL : string; h_Pools : Z }.
(** [yaml.Unmarshal] into a [Config]. *)
Variable decode_hints : string → option ConnectHints.

Definition ReadConnectHints (path : string) : M world (option ConnectHints) :=
  let? data := read_file path in
  ret match data with Ok data => decode_hints data | Err _ => None end.

Definition newDocument : node := Node DocumentNode 0 "" "" "" [] [new_mapping].

(** The document; its root is the one node it contains. *)
Definition loadOrNewDocument (path : string) : M world node :=
  let? data := read_file path in
  match data with
  | Err e => if errors_is "os.ErrNotExist" e then ret newDocument
             else throw (errorf_w ("read config " +:+ path +:+ ": ") e)
  | Ok data =>
      match yaml_unmarshal data with
      | Err e => throw (EWrap ("parse config " +:+ path +:+ ": ") e " (fix or move it, then re-run)")
      | Ok root =>
          match Content root with
          | [] => ret newDocument
          | [m] => if is_mapping m then ret root
                   else throw (errorf ("config " +:+ path +:+ " is not a YAML mapping; refusing to overwrite it"))
          | _ => throw (errorf ("config " +:+ path +:+ " is not a YAML mapping; refusing to overwrite it"))
          end
      end
  end.

(** The root mapping is edited in place. *)
Definition edit_root (edit : node → node) (file : node) : node :=
  match Content file with m :: rest => set_content (edit m :: rest) file | [] => file end.
Definition root_of (file : node) : node := match Content file with m :: _ => m | [] => new_mapping end.

Definition writeFileAtomic (path data : string) : M world unit :=
  with_temp (Dir path) ".mr-config-" ".tmp" ("create temp config in " +:+ Dir path +:+ ": ") (λ tmpName,
    wrap "chmod temp config: " (chmod tmpName 384) ;;;
    wrap "write temp config: " (write tmpName data) ;;;
    wrap "close temp config: " (close tmpName) ;;;
    wrap ("replace config " +:+ path +:+ ": ") (rename tmpName path)).

Definition renderConfig (path : string) (file : node) : M world unit :=
  let! text := of_result (yaml_encode file) in
  writeFileAtomic path text.

Definition WriteAppAuth (path scope owner repo : string) (appID installationID : Z) (keyPath : string) : M world unit :=
  let! file := loadOrNewDocument path in
  renderConfig path (edit_root (app_doc scope owner repo appID installationID keyPath) file).

Definition WriteDeviceAuth (path scope owner repo clientID tokenPath : string) : M world unit :=
  let! file := loadOrNewDocument path in
  renderConfig path (edit_root (device_doc scope owner repo clientID tokenPath) file).

Definition starterPoolNodes (dockerHost architecture osType : string) : result (node * node) :=
  match yaml_unmarshal (PoolsYAML goos goarch dockerHost architecture osType) with
  | Err e => Err (errorf_w "parse the starter pool template: " e)
  | Ok parsed =>
      match Content parsed with
      | [m] =>
          if negb (is_mapping m) then Err (errorf "the starter pool template is not a YAML mapping")
          else match findKey m "pools" with
               | None => Err (errorf "the starter pool template has no pools key")
               | Some (v, i) => Ok (nth i (Content m) v, v)
               end
      | _ => Err (errorf "the starter pool template is not a YAML mapping")
      end
  end.

Definition add_starter (path dockerHost architecture osType : string) (file : node) : M world bool :=
  let! kv := of_result (starterPoolNodes dockerHost architecture osType) in
  renderConfig path (edit_root (λ doc, default doc (add_pools kv.1 kv.2 doc)) file) ;;; ret true.

Definition EnsureStarterPool (path dockerHost architecture osType : string) : M world bool :=
  let! file := loadOrNewDocument path in
  match findKey (root_of file) "pools" with
  | Some (v, _) => if no_pools v then add_starter path dockerHost architecture osType file else ret false
  | None => add_starter path dockerHost architecture osType file
  end.

(** ** Variables of .env files *)

(** [parseDotEnvLine] *)
Definition unquoted (val : string) : string :=
  match val with
  | String q rest =>
      if (2 <=? String.length val)%nat && (Ascii.eqb q "034" || Ascii.eqb q "'") && has_suffix (String q "") rest
      then trim_suffix (String q "") rest else val
  | "" => val
  end.
Definition parseDotEnvLine (line : string) : option (string * string) :=
  let s := trim_space line in
  if is_empty s || has_prefix "#" s then None
  else
    let s := trim_prefix "export " s in
    let '(before, after, ok) := cut "=" s in
    if negb ok || is_empty before then None
    else
      let key := trim_space before in
      if is_empty key then None else Some (key, unquoted (trim_space after)).

(** The environment of the process; a name or a value with a NUL is refused. *)
Definition Setenv (key val : string) (env : gmap string string) : gmap string string :=
  if str_mem "000" key || str_mem "000" val then env else <[key := val]> env.

Definition dotenv_line (st : gset string * gmap string string) (line : string) : gset string * gmap string string :=
  let '(seen, env) := st in
  match parseDotEnvLine line with
  | Some (key, val) =>
      if bool_decide (key ∈ seen) then st
      else match env !! key with
           | Some _ => ({[key]} ∪ seen, env)
           | None => ({[key]} ∪ seen, Setenv key val env)
           end
  | None => st
  end.

(** [applyDotEnv] of a file that is there. *)
Definition applyDotEnv (content : option string) (st : gset string * gmap string string) : gset string * gmap string string :=
  match content with Some text => foldl dotenv_line st (scan_lines text) | None => st end.
Definition loadDotEnv (configDir : string) (fs : gmap string file) (env : gmap string string) : gmap string string :=
  (foldl (λ st p, applyDotEnv (f_data <$> fs !! p) st) (∅, env) [Join configDir ".env"; ".env"]).2.
End file.
