(* ===== verification/ConfigFileSpec.v ===== *)
(** * What connect leaves of a configuration

    A mapping node is an ordered list of keys and values; to its readers it is a
    finite map.  The edits of connect are those of the map, so they change the
    two sections they are for and nothing else. *)

From S2P Require Import Prelude GoErr GoStr Filepath Host ConfigFile.


(** ** A mapping as a finite map *)

Definition flat (ps : list (node * node)) : list node := ps ≫= λ p, [p.1; p.2].
Fixpoint pairs (c : list node) : list (node * node) :=
  match c with k :: v :: c => (k, v) :: pairs c | _ => [] end.
Definition keys (ps : list (node * node)) : list string := (λ p, Value p.1) <$> ps.
Definition view (m : node) : gmap string node := list_to_map ((λ p, (Value p.1, p.2)) <$> pairs (Content m)).

(** Keys and values in pairs, each key once, as the parser accepts them. *)
Definition wf (m : node) : Prop := is_mapping m = true ∧ ∃ ps, Content m = flat ps ∧ NoDup (keys ps).

Lemma pairs_flat ps : pairs (flat ps) = ps.
Proof. induction ps as [|[k v] ps IH]; [done|]. cbn. by f_equal. Qed.

Lemma content_set c m : Content (set_content c m) = c.
Proof. by destruct m. Qed.

Lemma mapping_set c m : is_mapping (set_content c m) = is_mapping m.
Proof. by destruct m. Qed.

Lemma keys_fst ps : ((λ p : node * node, (Value p.1, p.2)) <$> ps).*1 = keys ps.
Proof. unfold keys. rewrite <- list_fmap_compose. done. Qed.

Lemma view_flat m ps : Content m = flat ps → view m = list_to_map ((λ p, (Value p.1, p.2)) <$> ps).
Proof. intros Hc. unfold view. by rewrite Hc, pairs_flat. Qed.

Lemma find_pair_split key ps i : NoDup (keys ps) →
  match find_pair key i (flat ps) with
  | Some (v, j) => ∃ a k b, ps = a ++ (k, v) :: b ∧ Value k = key ∧ j = (i + 2 * length a)%nat
  | None => key ∉ keys ps
  end.
Proof.
  revert i. induction ps as [|[k v] ps IH]; intros i Hn; cbn; [set_solver|]. apply NoDup_cons in Hn as [Hk Hn].
  destruct (String.eqb_spec (Value k) key) as [<-|Hne].
  - exists [], k, ps. split_and!; [done..|cbn; lia].
  - specialize (IH (i + 2)%nat Hn). fold (flat ps). destruct (find_pair key (i + 2) (flat ps)) as [[w j]|].
    + destruct IH as (a & k' & b & -> & Hk' & ->). exists ((k, v) :: a), k', b. split_and!; [done..|cbn; lia].
    + cbn. set_solver.
Qed.

Lemma length_flat ps : length (flat ps) = (2 * length ps)%nat.
Proof. induction ps as [|p ps IH]; [done|]. cbn. fold (flat ps). rewrite IH. lia. Qed.

Lemma flat_app a b : flat (a ++ b) = flat a ++ flat b.
Proof. unfold flat. by rewrite bind_app. Qed.

Lemma flat_insert a k v w b : <[2 * length a + 1 := w]> (flat (a ++ (k, v) :: b)) = flat (a ++ (k, w) :: b).
Proof.
  rewrite !flat_app. rewrite insert_app_r_alt by (rewrite length_flat; lia). f_equal.
  rewrite length_flat. by replace (2 * length a + 1 - 2 * length a)%nat with 1%nat by lia.
Qed.

Lemma flat_remove a p b : take (2 * length a) (flat (a ++ p :: b)) ++ drop (2 * length a + 2) (flat (a ++ p :: b)) = flat (a ++ b).
Proof.
  rewrite !flat_app, <- length_flat, take_app_length. f_equal.
  rewrite drop_app_ge by lia. by replace (length (flat a) + 2 - length (flat a))%nat with 2%nat by lia.
Qed.

Lemma view_middle a k v b : NoDup (keys (a ++ (k, v) :: b)) →
  (list_to_map ((λ p : node * node, (Value p.1, p.2)) <$> a ++ (k, v) :: b) : gmap string node) =
  <[Value k := v]> (list_to_map ((λ p, (Value p.1, p.2)) <$> a ++ b)).
Proof.
  intros Hn. change (<[Value k := v]> (list_to_map ((λ p : node * node, (Value p.1, p.2)) <$> a ++ b) : gmap string node))
    with (list_to_map ((λ p : node * node, (Value p.1, p.2)) <$> (k, v) :: a ++ b) : gmap string node).
  apply list_to_map_proper; [by rewrite keys_fst|]. by rewrite Permutation_middle.
Qed.

Lemma keys_middle a k v b : keys (a ++ (k, v) :: b) = keys a ++ Value k :: keys b.
Proof. unfold keys. by rewrite fmap_app. Qed.

Lemma view_absent ps key : key ∉ keys ps →
  (list_to_map ((λ p : node * node, (Value p.1, p.2)) <$> ps) : gmap string node) !! key = None.
Proof. intros Hk. apply not_elem_of_list_to_map. by rewrite keys_fst. Qed.

Lemma findKey_view m key : wf m → fst <$> findKey m key = view m !! key.
Proof.
  intros (_ & ps & Hc & Hn). unfold findKey. rewrite (view_flat _ _ Hc), Hc. pose proof (find_pair_split key ps 0 Hn) as Hf.
  destruct (find_pair key 0 (flat ps)) as [[v j]|].
  - destruct Hf as (a & k & b & -> & <- & _). rewrite view_middle by done. by rewrite lookup_insert, decide_True.
  - by rewrite view_absent.
Qed.

Lemma put_key_spec key change fresh m : wf m →
  wf (put_key key change fresh m) ∧ view (put_key key change fresh m) = <[key := from_option change fresh (view m !! key)]> (view m).
Proof.
  intros Hw. pose proof (findKey_view m key Hw) as Hv. destruct Hw as (Hm & ps & Hc & Hn).
  unfold put_key, findKey in *. rewrite <- Hv, (view_flat _ _ Hc), Hc. pose proof (find_pair_split key ps 0 Hn) as Hf.
  destruct (find_pair key 0 (flat ps)) as [[v j]|]; cbn [fmap option_fmap option_map fst from_option].
  - destruct Hf as (a & k & b & -> & <- & ->). cbn [Nat.add]. rewrite flat_insert. rewrite keys_middle in Hn.
    assert (NoDup (keys (a ++ (k, change v) :: b))) as Hn' by (by rewrite keys_middle). split.
    + split; [by rewrite mapping_set|]. exists (a ++ (k, change v) :: b). by rewrite content_set.
    + rewrite (view_flat _ (a ++ (k, change v) :: b)) by apply content_set.
      rewrite !view_middle by (by rewrite keys_middle). by rewrite insert_insert, decide_True.
  - assert (flat ps ++ [scalar "" key; fresh] = flat (ps ++ [(scalar "" key, fresh)])) as -> by (by rewrite flat_app).
    assert (NoDup (keys (ps ++ [(scalar "" key, fresh)]))) as Hn'.
    { unfold keys. rewrite fmap_app. apply NoDup_app. split_and!; [done|set_solver|apply NoDup_singleton]. }
    split.
    + split; [by rewrite mapping_set|]. eexists. by rewrite content_set.
    + rewrite (view_flat _ (ps ++ [(scalar "" key, fresh)])) by apply content_set.
      rewrite view_middle by done. by rewrite app_nil_r.
Qed.

Lemma removeKey_spec key m : wf m → wf (removeKey key m) ∧ view (removeKey key m) = delete key (view m).
Proof.
  intros (Hm & ps & Hc & Hn). unfold removeKey, findKey. rewrite (view_flat _ _ Hc), Hc. pose proof (find_pair_split key ps 0 Hn) as Hf.
  destruct (find_pair key 0 (flat ps)) as [[v j]|].
  - destruct Hf as (a & k & b & -> & <- & ->). cbn [Nat.add]. rewrite flat_remove, view_middle by done.
    rewrite keys_middle in Hn. assert (NoDup (keys (a ++ b)) ∧ Value k ∉ keys (a ++ b)) as [Hn' Hk].
    { apply NoDup_app in Hn as (Ha & Hab & [Hk Hb]%NoDup_cons). unfold keys in *. rewrite fmap_app. split.
      - apply NoDup_app. split_and!; [done|set_solver|done].
      - rewrite elem_of_app. intros [Hx|Hx]; [by apply (Hab _ Hx); left|done]. }
    split; [split; [by rewrite mapping_set|eexists; by rewrite content_set]|].
    rewrite (view_flat _ (a ++ b)) by apply content_set. by rewrite delete_insert_id by (by apply view_absent).
  - split; [by split; [|exists ps]|]. rewrite delete_id; [by apply view_flat|by apply view_absent].
Qed.

(** ** The sections *)

(** A key whose value is a scalar of this tag and text. *)
Definition scalar_at (m : node) (key : string) (tv : string * string) : Prop :=
  ∃ n, view m !! key = Some n ∧ Kind n = ScalarNode ∧ Tag n = tv.1 ∧ Value n = tv.2.

(** A section that is written key by key, over what was there. *)
Definition edits (m m' : node) (set : list (string * (string * string))) (gone : list string) : Prop :=
  wf m' ∧ (∀ k tv, (k, tv) ∈ set → scalar_at m' k tv) ∧ (∀ k, k ∈ gone → view m' !! k = None) ∧
  ∀ k, k ∉ set.*1 → k ∉ gone → view m' !! k = view m !! k.

Lemma edits_none m : wf m → edits m m [] [].
Proof. intros Hw. split_and!; [done|set_solver..|done]. Qed.

Lemma edits_put m m' set gone key tag value : edits m m' set gone → key ∉ set.*1 → key ∉ gone →
  edits m (put_key key (retag ScalarNode tag value) (scalar tag value) m') ((key, (tag, value)) :: set) gone.
Proof.
  intros (Hw & Hs & Hg & Ho) Hks Hkg. destruct (put_key_spec key (retag ScalarNode tag value) (scalar tag value) m' Hw) as [Hw' Hv].
  split_and!; [done|intros k tv Hin|intros k Hk|intros k Hk Hk'].
  - unfold scalar_at. rewrite Hv. apply elem_of_cons in Hin as [[= -> ->]|Hin].
    + rewrite lookup_insert, decide_True by done. eexists. split; [done|]. cbn [fst snd].
      destruct (view m' !! key) as [[]|]; by split_and!.
    + assert (k ≠ key). { intros ->. destruct Hks. apply list_elem_of_fmap. by exists (key, tv). }
      rewrite lookup_insert_ne by done. by apply Hs.
  - rewrite Hv, lookup_insert_ne by (intros ->; done). by apply Hg.
  - rewrite Hv, lookup_insert_ne by set_solver. apply Ho; [set_solver|done].
Qed.

Lemma edits_remove m m' gone key : edits m m' [] gone → edits m (removeKey key m') [] (key :: gone).
Proof.
  intros (Hw & _ & Hg & Ho). destruct (removeKey_spec key m' Hw) as [Hw' Hv].
  split_and!; [done|set_solver|intros k Hk|intros k _ Hk]; rewrite Hv.
  - destruct (decide (k = key)) as [->|Hne]; [by rewrite lookup_delete, decide_True|].
    rewrite lookup_delete_ne by done. apply Hg. set_solver.
  - rewrite lookup_delete_ne by set_solver. apply Ho; set_solver.
Qed.

(** The credentials of the two flows. *)
Inductive credentials := AppCreds (appID installationID : Z) (keyPath : string) | DeviceCreds (clientID tokenPath : string).

Definition section (c : credentials) : node → node :=
  match c with AppCreds a i k => app_section a i k | DeviceCreds c t => device_section c t end.
Definition connected (c : credentials) (scope owner repo : string) : node → node :=
  match c with AppCreds a i k => app_doc scope owner repo a i k | DeviceCreds c t => device_doc scope owner repo c t end.
Definition fields (c : credentials) : list (string * (string * string)) :=
  match c with
  | AppCreds a i k => [("private_key_path", ("!!str", k)); ("installation_id", ("!!int", format_int i)); ("app_id", ("!!int", format_int a))]
  | DeviceCreds c t => [("token_path", ("!!str", t)); ("client_id", ("!!str", c))]
  end.
Definition superseded (c : credentials) : list string :=
  match c with
  | AppCreds _ _ _ => ["token_path"; "client_id"; "pat"]
  | DeviceCreds _ _ => ["private_key_path"; "installation_id"; "app_id"; "pat"]
  end.

Lemma section_edits c m : wf m → edits m (section c m) (fields c) (superseded c).
Proof.
  intros Hw. destruct c; cbn [section fields superseded];
    repeat (apply edits_put; [|apply (bool_decide_unpack _); vm_compute; exact I..]);
    repeat apply edits_remove; by apply edits_none.
Qed.

(** The fields of the github section; the URL only when there is none. *)
Definition github_fields (scope owner repo : string) (old : node) : list (string * (string * string)) :=
  (if String.eqb scope "repo" then [("repo", ("!!str", repo))] else []) ++ [("owner", ("!!str", owner)); ("scope", ("!!str", scope))] ++
  match view old !! "url" with Some _ => [] | None => [("url", ("!!str", "https://github.com"))] end.

Lemma github_edits scope owner repo m : wf m →
  edits m (github_section scope owner repo m) (github_fields scope owner repo m) [].
Proof.
  intros Hw. unfold github_section, github_fields, setScalarIfAbsent. pose proof (findKey_view m "url" Hw) as Hu.
  assert (∀ m' us, edits m m' us [] → us.*1 ⊆ ["url"] →
    edits m (let gh := setScalar "owner" owner (setScalar "scope" scope m') in
             if String.eqb scope "repo" then setScalar "repo" repo gh else gh)
      ((if String.eqb scope "repo" then [("repo", ("!!str", repo))] else []) ++ [("owner", ("!!str", owner)); ("scope", ("!!str", scope))] ++ us) []) as Hrest.
  { intros m' us He Hsub. cbn zeta. assert (edits m (setScalar "owner" owner (setScalar "scope" scope m'))
      ([("owner", ("!!str", owner)); ("scope", ("!!str", scope))] ++ us) []) as He'.
    { cbn [app]. apply edits_put; [|set_solver..]. apply edits_put; [done|set_solver..]. }
    destruct (String.eqb scope "repo"); [|done]. cbn [app]. apply edits_put; [done|set_solver..]. }
  destruct (findKey m "url") as [[u i]|]; cbn in Hu; rewrite <- Hu.
  - apply (Hrest m []); [by apply edits_none|set_solver].
  - apply Hrest; [|cbn; set_solver]. apply edits_put; [by apply edits_none|set_solver..].
Qed.

Lemma wf_new : wf new_mapping.
Proof. split; [done|]. exists []. split; [done|constructor]. Qed.

(** The mapping that a section starts from. *)
Definition old_section (doc : node) (key : string) : node :=
  match view doc !! key with Some v => as_mapping v | None => new_mapping end.

Lemma upsert_spec key edit doc : wf doc →
  wf (upsertMapping key edit doc) ∧ view (upsertMapping key edit doc) = <[key := edit (old_section doc key)]> (view doc).
Proof.
  intros Hw. unfold upsertMapping. destruct (put_key_spec key (edit ∘ as_mapping) (edit new_mapping) doc Hw) as [Hw' Hv].
  split; [done|]. rewrite Hv. unfold old_section. by destruct (view doc !! key).
Qed.

Lemma old_section_wf doc key : (∀ v, view doc !! key = Some v → is_mapping v = true → wf v) → wf (old_section doc key).
Proof.
  intros Hd. unfold old_section. destruct (view doc !! key) as [v|]; [|apply wf_new]. unfold as_mapping.
  destruct (is_mapping v) eqn:Hm; [by apply Hd|]. split; [by destruct v|]. exists []. split; [by destruct v|constructor].
Qed.

(** C16: connect changes what it is for and keeps the rest.  Whatever valid
    mapping a configuration is, after its credentials are written the auth
    section has exactly the fields of the new login, no field of another kind
    of login is left, and its other keys are as they were; the github section
    names the scope, the owner and for a repository the repo, keeps the URL it
    had or gets that of github.com, and keeps its other keys; and every other
    section of the file is untouched. *)
Theorem connect_sections c scope owner repo doc
    (Hdoc : wf doc)
    (Hgithub : ∀ v, view doc !! "github" = Some v → is_mapping v = true → wf v)
    (Hauth : ∀ v, view doc !! "auth" = Some v → is_mapping v = true → wf v) :
  let doc' := connected c scope owner repo doc in
  wf doc' ∧ (∀ k, k ∉ ["github"; "auth"] → view doc' !! k = view doc !! k) ∧
  ∃ github auth, view doc' !! "github" = Some github ∧ view doc' !! "auth" = Some auth ∧
    edits (old_section doc "auth") auth (fields c) (superseded c) ∧
    edits (old_section doc "github") github (github_fields scope owner repo (old_section doc "github")) [].
Proof.
  cbn zeta. assert (connected c scope owner repo doc =
    upsertMapping "auth" (section c) (upsertMapping "github" (github_section scope owner repo) doc)) as -> by (by destruct c).
  destruct (upsert_spec "github" (github_section scope owner repo) doc Hdoc) as [H1 Hv1].
  destruct (upsert_spec "auth" (section c) _ H1) as [H2 Hv2].
  assert (old_section (upsertMapping "github" (github_section scope owner repo) doc) "auth" = old_section doc "auth") as Ho.
  { unfold old_section. by rewrite Hv1, lookup_insert_ne. }
  rewrite Ho in Hv2. split_and!; [done| |].
  - intros k Hk. rewrite Hv2, lookup_insert_ne, Hv1, lookup_insert_ne by set_solver. done.
  - eexists _, _. rewrite !Hv2. rewrite lookup_insert_ne, Hv1, !lookup_insert, !decide_True by done. split_and!; [done..| |].
    + by apply section_edits, old_section_wf.
    + by apply github_edits, old_section_wf.
Qed.

(** A configuration with a token, a comment of its own and a pool is connected
    with the device flow. *)
Definition example_auth : node :=
  Node MappingNode 0 "!!map" "" "" [] [scalar "!!str" "pat"; scalar "!!str" "${PAT}"; scalar "!!str" "note"; scalar "!!str" "mine"].
Definition example_doc : node :=
  Node MappingNode 0 "!!map" "" "# my runners" [] [scalar "!!str" "auth"; example_auth; scalar "!!str" "pools"; new_mapping].

Lemma example_auth_wf : wf example_auth.
Proof.
  split; [done|]. exists [(scalar "!!str" "pat", scalar "!!str" "${PAT}"); (scalar "!!str" "note", scalar "!!str" "mine")].
  split; [done|]. apply (bool_decide_unpack _). vm_compute. exact I.
Qed.

Lemma connect_sections_witness :
  let doc' := connected (DeviceCreds "Iv23" "c.json") "org" "acme" "" example_doc in
  wf doc' ∧ (∀ k, k ∉ ["github"; "auth"] → view doc' !! k = view example_doc !! k) ∧
  ∃ github auth, view doc' !! "github" = Some github ∧ view doc' !! "auth" = Some auth ∧
    edits (old_section example_doc "auth") auth (fields (DeviceCreds "Iv23" "c.json")) (superseded (DeviceCreds "Iv23" "c.json")) ∧
    edits (old_section example_doc "github") github (github_fields "org" "acme" "" (old_section example_doc "github")) [].
Proof.
  apply connect_sections.
  - split; [done|]. exists [(scalar "!!str" "auth", example_auth); (scalar "!!str" "pools", new_mapping)].
    split; [done|]. apply (bool_decide_unpack _). vm_compute. exact I.
  - intros v Hv. vm_compute in Hv. discriminate.
  - intros v Hv _. assert (v = example_auth) as ->; [|exact example_auth_wf].
    vm_compute in Hv. injection Hv as <-. reflexivity.
Defined.

(** ** Variables of .env files *)

(** The first line that defines a variable. *)
Fixpoint first_def (key : string) (lines : list string) : option string :=
  match lines with
  | [] => None
  | line :: lines =>
      match parseDotEnvLine line with
      | Some (k, val) => if decide (k = key) then Some val else first_def key lines
      | None => first_def key lines
      end
  end.

Definition settable (key : string) (val : option string) : option string :=
  match val with Some v => if str_mem "000" key || str_mem "000" v then None else Some v | None => None end.

Lemma dotenv_lines key lines seen env :
  (foldl dotenv_line (seen, env) lines).2 !! key =
  match env !! key with Some v => Some v | None => if decide (key ∈ seen) then None else settable key (first_def key lines) end.
Proof.
  revert seen env. induction lines as [|line lines IH]; intros seen env; cbn [foldl first_def].
  { cbn. destruct (env !! key); [done|]. by case_decide. }
  unfold dotenv_line at 2. destruct (parseDotEnvLine line) as [[k val]|]; [|apply IH].
  destruct (bool_decide_reflect (k ∈ seen)) as [Hs|Hs].
  { rewrite IH. destruct (env !! key); [done|]. destruct (decide (key ∈ seen)); [done|]. rewrite decide_False; [done|congruence]. }
  destruct (env !! k) as [v|] eqn:Hk.
  - rewrite IH. destruct (decide (k = key)) as [->|Hne]; [by rewrite Hk|]. destruct (env !! key); [done|].
    by rewrite (decide_ext (key ∈ {[k]} ∪ seen) (key ∈ seen)) by set_solver.
  - rewrite IH. unfold Setenv, settable. destruct (decide (k = key)) as [->|Hne].
    + rewrite Hk, (decide_False (P := key ∈ seen)) by done. destruct (str_mem "000" key || str_mem "000" val) eqn:Hz.
      * by rewrite Hk, decide_True by set_solver.
      * by rewrite lookup_insert, decide_True.
    + rewrite (decide_ext (key ∈ {[k]} ∪ seen) (key ∈ seen)) by set_solver.
      destruct (str_mem "000" k || str_mem "000" val); [done|]. by rewrite lookup_insert_ne.
Qed.

(** A variable of the real environment wins, then the file next to the
    configuration, then that of the working directory, and in a file the first
    line. *)
Theorem loadDotEnv_first configDir fs env key :
  let text path := default [] (scan_lines <$> (f_data <$> fs !! path)) in
  loadDotEnv configDir fs env !! key =
  match env !! key with
  | Some v => Some v
  | None => settable key (first_def key (text (Join configDir ".env") ++ text ".env"))
  end.
Proof.
  cbn zeta. unfold loadDotEnv. cbn [foldl].
  assert (∀ c st, applyDotEnv c st = foldl dotenv_line st (default [] (scan_lines <$> c))) as Ha by (by intros [] ?).
  rewrite !Ha, <- foldl_app, dotenv_lines. destruct (env !! key); [done|]. by rewrite decide_False by set_solver.
Qed.
