(* ===== verification/Connect.v ===== *)
(** * The connect command

    [cmd/multirunner/connect.go], with the files of credentials of
    [internal/ghapp/tokenstore.go]: the target of a login, what the user is
    asked, the two flows and what they write.

    The calls to GitHub are given: a record of the answers of the device flow,
    and the outcome of the browser flow.  What the commands print is left out. *)

From S2P Require Import Prelude GoErr GoStr Filepath Host GhApp Containers ConfigFile.

Local Open Scope Z_scope.
Local Open Scope go_scope.

(** ** The target *)

Record connectFlags := Flags { fl_org : string; fl_repo : string; fl_keyOut : string; fl_webhookURL : string; fl_detect : bool; fl_name : string }.

(** A line break in a message. *)
Definition nl : string := String "010" "".

Definition manifestOnlyFlags : list string := ["webhook-url"; "detect"; "name"; "key-out"; "port"].

(** [misused]: the flags of the manifest flow that were set. *)
Definition rejectManifestFlags (misused : list string) : option goerror :=
  match misused with
  | [] => None
  | [one] => Some (errorf (one +:+ " is meaningless in the default device flow, which creates no GitHub App; " +:+
                           "pass --own-app to use the manifest flow that honors it"))
  | _ => Some (errorf (join ", " misused +:+ " are meaningless in the default device flow, which creates no GitHub App; " +:+
                       "pass --own-app to use the manifest flow that honors them"))
  end.

(** The scope, the owner and the repository. *)
Definition connectTarget (org repo : string) : result (string * string * string) :=
  if negb (is_empty org) && negb (is_empty repo) then Err (errorf "specify exactly one of --org or --repo")
  else if negb (is_empty org) then Ok ("org", org, "")
  else if negb (is_empty repo) then
    let '(owner, name, ok) := cut "/" repo in
    if negb ok || is_empty owner || is_empty name then Err (errorf "--repo must be owner/repo") else Ok ("repo", owner, name)
  else Err (errorf "specify --org <org> or --repo <owner/repo>").

Definition DefaultPersonalAppSlug : string := "multirunner-connect-personal".
Record sharedApp := SharedApp { sa_clientID : string; sa_slug : string }.
Definition sharedAppFor (f : connectFlags) : sharedApp :=
  if negb (is_empty (fl_repo f)) then SharedApp DefaultPersonalClientID DefaultPersonalAppSlug
  else SharedApp DefaultClientID DefaultAppSlug.

Definition deviceTokenPath (cfgPath : string) : string := cfgPath +:+ ".user-token.json".

(** ** Installations *)

Definition countOrgInstalls (installs : list Installation) : nat := length (filter (λ i, IsOrg i = true) installs).

Definition hasUsableInstall (installs : list Installation) (owner : string) : bool :=
  if negb (is_empty owner) then match (MatchInstallation installs owner).1 with Some _ => true | None => false end
  else (0 <? countOrgInstalls installs)%nat.

Definition installNewURL (installs : list Installation) (baseURL fallbackSlug : string) : string :=
  let slug := foldl (λ slug i, if is_empty (AppSlug i) then slug else AppSlug i) (orDefault fallbackSlug DefaultAppSlug) installs in
  trim_right baseURL "/" +:+ "/apps/" +:+ slug +:+ "/installations/new".

(** ** Questions *)

(** [prompt.line]: the next line, or nothing at the end of the input. *)
Definition line : M world string :=
  λ w, match typed w with
       | a :: rest => (Ok (trim_space a), World (asked w) (files w) (calls w) (printed w) rest)
       | [] => (Ok "", w)
       end.

Definition yesNo (def : bool) : M world bool :=
  let! answer := line in
  let a := to_lower answer in
  ret (if bool_mem a ["y"; "yes"] then true else if bool_mem a ["n"; "no"] then false else def).

Definition wantOwnApp (interactive : bool) : M world bool :=
  if negb interactive then ret false else let! shared := yesNo true in ret (negb shared).

(** [prompt.webhookURL]: the first valid or empty answer. *)
Fixpoint webhook_answer (valid : string → bool) (answers : list string) : string * list string :=
  match answers with
  | [] => ("", [])
  | a :: rest => let v := trim_space a in if is_empty v || valid v then (v, rest) else webhook_answer valid rest
  end.

(** The answer to the list of organizations; [None] when the input ends and
    the question is asked for ever. *)
Definition org_answer (orgs : list Installation) (answer : string) : option Installation :=
  let number := match parse_int answer with
                | Some n => if (1 <=? n) && (n <=? Z.of_nat (length orgs)) then orgs !! Z.to_nat (n - 1) else None
                | None => None
                end in
  match number with
  | Some i => Some i
  | None => snd <$> list_find (λ i, equal_fold answer (Account i) = true) orgs
  end.
Fixpoint choose_org (orgs : list Installation) (answers : list string) : option Installation * list string :=
  match answers with
  | [] => (org_answer orgs "", [])
  | a :: rest => match org_answer orgs (trim_space a) with
                 | Some i => (Some i, rest)
                 | None => choose_org orgs rest
                 end
  end.

Definition ask {A} (f : list string → A * list string) : M world A :=
  λ w, let '(a, rest) := f (typed w) in (Ok a, World (asked w) (files w) (calls w) (printed w) rest).

Definition resolveTarget (f : connectFlags) (interactive : bool) : M world (string * string * string) :=
  if is_empty (fl_org f) && is_empty (fl_repo f) && interactive then
    let! scope := line in
    let s := to_lower scope in
    if bool_mem s ["o"; "org"] then let! org := line in of_result (connectTarget org "")
    else if bool_mem s ["r"; "repo"] then let! repo := line in of_result (connectTarget "" repo)
    else of_result (connectTarget "" "")
  else of_result (connectTarget (fl_org f) (fl_repo f)).

(** The program waits for input that never comes. *)
Definition blocked : goerror := ENew "blocked" "waiting for input".

Definition selectInstallation (installs : list Installation) (owner baseURL appSlug : string) (requireOrg interactive : bool)
    : M world Installation :=
  let installURL := installNewURL installs baseURL appSlug in
  if negb (is_empty owner) then
    match (MatchInstallation installs owner).1 with
    | None => throw (errorf ("authorized, but the Multirunner Connect App is not installed on " +:+ quote owner +:+ "." +:+ nl +:+
                             "Install it, then re-run `multirunner connect`:" +:+ nl +:+ "  " +:+ installURL))
    | Some inst =>
        if requireOrg && negb (IsOrg inst)
        then throw (errorf (quote owner +:+ " is a personal account, not an organization." +:+ nl +:+
                            "The shared App can only manage organization runners; install it on an organization," +:+ nl +:+
                            "or use `multirunner connect --own-app` for a personal repository:" +:+ nl +:+ "  " +:+ installURL))
        else ret inst
    end
  else
    match filter (λ i, IsOrg i = true) installs with
    | [] => throw (errorf ("authorized, but the Multirunner Connect App is not installed on any organization." +:+ nl +:+
                           "Install it, then re-run `multirunner connect`:" +:+ nl +:+ "  " +:+ installURL))
    | [org] => ret org
    | orgs =>
        if negb interactive
        then throw (errorf ("the App is installed on " +:+ format_int (Z.of_nat (length orgs)) +:+ " organizations (" +:+
                            join ", " (Account <$> orgs) +:+ "); pass --org to choose one"))
        else let! choice := ask (choose_org orgs) in
             match choice with Some i => ret i | None => throw blocked end
    end.

(** An error with text on both sides. *)
Definition around (pre post : string) (c : M world unit) : M world unit :=
  let? r := c in match r with Ok _ => ret tt | Err e => throw (EWrap pre e post) end.

(** ** Files of credentials *)

Section files.
Context `{!Disk}.

Definition restrictToOwner (path : string) : M world unit := wrap ("restrict " +:+ path +:+ " to owner: ") (chmod path 384).

(** [SaveUserToken]: the text of the token is made by [encoding/json]. *)
Variable token_text : UserToken → result string.
Definition StoreUserToken (path : string) (tok : UserToken) : M world unit :=
  let! data := of_result (token_text tok) in
  with_temp (Dir path) ".mr-token-" ".tmp" ("create temp token file in " +:+ Dir path +:+ ": ") (λ tmpName,
    wrap "chmod temp token file: " (chmod tmpName 384) ;;;
    restrictToOwner tmpName ;;;
    wrap "write temp token file: " (write tmpName data) ;;;
    wrap "close temp token file: " (close tmpName) ;;;
    wrap ("replace token store " +:+ path +:+ ": ") (rename tmpName path)).

(** A secret is written in place. *)
Definition WriteSecretFile (path data : string) : M world unit :=
  open_trunc path ;;;
  restrictToOwner path ;;;
  wrap ("write " +:+ path +:+ ": ") (write path data) ;;;
  close path.

(** ** The flows *)

Variable yaml_unmarshal : string → result node.
Variable yaml_encode : node → result string.
Variables goos goarch : string.
Variable decode_hints : string → option ConnectHints.
Variable url_parse : string → goerror + device_url.
(** The daemons that answer on this host, in the order they are tried. *)
Variable endpoints : list DockerEndpoint.

(** [sameGitHubHost] *)
Definition github_host (raw : string) : string :=
  let raw := trim_right raw "/" in
  match url_parse raw with
  | inr u => if is_empty (du_Host u) then to_lower raw else to_lower (trim_prefix "www." (du_Host u))
  | inl _ => to_lower raw
  end.
Definition sameGitHubHost (a b : string) : bool := String.eqb (github_host a) (github_host b).

Definition requireDotComTarget (cfgPath baseURL : string) : M world unit :=
  let! hints := ReadConnectHints decode_hints cfgPath in
  match hints with
  | None => ret tt
  | Some h =>
      if is_empty (h_GitHubURL h) || sameGitHubHost (h_GitHubURL h) baseURL then ret tt
      else throw (errorf ("config " +:+ cfgPath +:+ " targets " +:+ h_GitHubURL h +:+
                          ", but the shared Multirunner Connect App only exists on " +:+ baseURL +:+ "." +:+ nl +:+
                          "Create an App on that host instead:  multirunner connect --own-app"))
  end.

Definition usable_endpoint (ep : DockerEndpoint) : bool := bool_mem (ep_OSType ep) ["linux"; "windows"].
Definition addStarterPool (cfgPath : string) : M world unit :=
  let! hints := ReadConnectHints decode_hints cfgPath in
  if match hints with Some h => 0 <? h_Pools h | None => false end then ret tt
  else
    let ep := match filter (λ ep, usable_endpoint ep = true) endpoints with ep :: _ => ep | [] => MkDockerEndpoint "" "" "" end in
    let! _ := wrap ("could not add a starter pool to " +:+ cfgPath +:+ ": ")
                (EnsureStarterPool yaml_unmarshal yaml_encode goos goarch cfgPath (ep_Host ep) (ep_Architecture ep) (ep_OSType ep)) in
    ret tt.

Definition validateWebhookFlags (f : connectFlags) : option goerror :=
  if is_empty (fl_webhookURL f) then None else ValidateWebhookURL url_parse (fl_webhookURL f).

Definition autoscales (hints : option ConnectHints) : bool :=
  match hints with Some h => Config.IsAutoscale (h_Provisioning h) | None => false end.

Definition deriveNeeds (scope : string) (f : connectFlags) (cfgPath : string) (interactive : bool) : M world ManifestNeeds :=
  guard (validateWebhookFlags f) ;;;
  let! hints := ReadConnectHints decode_hints cfgPath in
  let! webhookURL :=
    if negb (is_empty (fl_webhookURL f)) then ret (fl_webhookURL f)
    else if interactive && autoscales hints
         then ask (webhook_answer (λ v, match ValidateWebhookURL url_parse v with None => true | Some _ => false end))
    else if autoscales hints && String.eqb scope "org"
         then throw (errorf ("config " +:+ cfgPath +:+ " sets provisioning: " +:+ default "" (h_Provisioning <$> hints) +:+
                             " for an org target, which needs webhook delivery;" +:+ nl +:+
                             "pass --webhook-url <public https URL>, or run connect on a terminal to be asked for one"))
    else ret "" in
  let known := match hints with Some h => negb (is_empty (h_Provisioning h)) | None => false end in
  ret (MkManifestNeeds webhookURL (String.eqb scope "repo" && (negb known || autoscales hints)) (fl_detect f)).

(** The answers of the device flow; the list of installations may change
    between two calls. *)
Record deviceFlow := {
  requestCode : result DeviceCode;
  pollToken : DeviceCode → result UserToken;
  listInstalls : nat → string → result (list Installation);
  checkRepo : option (string → Z → string → string → option goerror);
  clientID : string;
  appSlug : string;
  baseURL : string
}.

(** [awaitInstallation]: the ticks before it gives up, and whether it is the
    timeout or the end of the context that ends it. *)
Variable ticks : nat.
Variable cancelled : option goerror.
Fixpoint await_ticks (listing : nat → result (list Installation)) (owner installURL : string) (call n : nat) : result (list Installation) :=
  match n with
  | O => Err match cancelled with
             | Some e => e
             | None => errorf ("timed out waiting for the Multirunner Connect app to be installed." +:+ nl +:+
                 "Your authorization is still valid but was not saved, so re-running `multirunner connect` will require authorizing again." +:+ nl +:+
                 "Install the app, then re-run:" +:+ nl +:+ "  " +:+ installURL)
             end
  | S n => match listing call with
           | Err e => Err e
           | Ok installs => if hasUsableInstall installs owner then Ok installs else await_ticks listing owner installURL (S call) n
           end
  end.
Definition awaitInstallation (listing : nat → result (list Installation)) (owner baseURL appSlug : string) (interactive : bool)
    : result (list Installation) :=
  match listing 0%nat with
  | Err e => Err e
  | Ok installs =>
      if negb interactive || hasUsableInstall installs owner then Ok installs
      else await_ticks listing owner (installNewURL installs baseURL appSlug) 1 ticks
  end.

Definition runDeviceConnect (cfgPath : string) (f : connectFlags) (interactive : bool) (df : deviceFlow) : M world unit :=
  requireDotComTarget cfgPath (baseURL df) ;;;
  let named := negb (is_empty (fl_org f)) || negb (is_empty (fl_repo f)) in
  let! target := if named then of_result (connectTarget (fl_org f) (fl_repo f)) else ret ("", "", "") in
  let '(scope, owner, repoName) := target in
  let! dc := of_result (requestCode df) in
  let! tok := of_result (pollToken df dc) in
  let! installs := of_result (awaitInstallation (λ n, listInstalls df n (GhApp.AccessToken tok)) owner (baseURL df) (appSlug df) interactive) in
  let! inst := selectInstallation installs owner (baseURL df) (appSlug df) (is_empty (fl_repo f)) interactive in
  let scope := if is_empty owner then "org" else scope in
  let owner := if is_empty owner then Account inst else owner in
  (if String.eqb scope "repo" then
     match checkRepo df with
     | None => throw (errorf "repository access verification is unavailable")
     | Some check => wrap "verify repository access: " (guard (check (GhApp.AccessToken tok) (inst_ID inst) owner repoName))
     end
   else ret tt) ;;;
  let tokenPath := deviceTokenPath cfgPath in
  StoreUserToken tokenPath tok ;;;
  around "write config: " (nl +:+ "The user token was saved to " +:+ tokenPath +:+ "; set auth.client_id and auth.token_path by hand to finish.")
    (WriteDeviceAuth yaml_unmarshal yaml_encode cfgPath scope owner repoName (clientID df) tokenPath) ;;;
  around ("credentials saved to " +:+ cfgPath +:+ " and " +:+ tokenPath +:+ ", but starter pool setup failed: ")
    "; add pools to the config manually before running" (addStarterPool cfgPath).

(** [connectDeviceCmd] *)
Definition connectDeviceCmd (cfgPath : string) (f : connectFlags) (misused : list string) (interactive : bool) (df : deviceFlow) : M world unit :=
  guard (rejectManifestFlags misused) ;;; runDeviceConnect cfgPath f interactive df.

(** What the browser flow returns. *)
Record Credentials := MkCredentials { cr_AppID : Z; Slug : string; PEM : string; WebhookSecret : string; cr_InstallationID : Z; HTMLURL : string }.

Definition key_path (f : connectFlags) (cfgPath : string) : string :=
  if is_empty (fl_keyOut f) then Join (Dir cfgPath) "multirunner-app.private-key.pem" else fl_keyOut f.

(** [runOwnAppConnect] *)
Definition runOwnAppConnect (cfgPath : string) (f : connectFlags) (interactive : bool)
    (connect : string → string → string → ManifestNeeds → result Credentials) : M world unit :=
  guard (validateWebhookFlags f) ;;;
  let! target := resolveTarget f interactive in
  let '(scope, owner, repoName) := target in
  let! needs := deriveNeeds scope f cfgPath interactive in
  let! creds := of_result (connect scope owner repoName needs) in
  let created what := around (what +:+ ": ")
    (nl +:+ "The GitHub App was already created (slug=" +:+ quote (Slug creds) +:+ " app_id=" +:+ format_int (cr_AppID creds) +:+
     " installation_id=" +:+ format_int (cr_InstallationID creds) +:+ "). " +:+
     "Do not re-run connect (it creates a duplicate); finish setup by hand with these identifiers.") in
  let keyOut := key_path f cfgPath in
  created "write private key" (WriteSecretFile keyOut (PEM creds)) ;;;
  (if is_empty (WebhookSecret creds) then ret tt
   else let? _ := WriteSecretFile (Join (Dir keyOut) "multirunner-app.webhook-secret") (WebhookSecret creds) in ret tt) ;;;
  created "write config" (WriteAppAuth yaml_unmarshal yaml_encode cfgPath scope owner repoName (cr_AppID creds) (cr_InstallationID creds) keyOut) ;;;
  created "write starter pool (credentials saved; add pools to the config manually)" (addStarterPool cfgPath).
End files.
