(* ===== verification/ConnectSpec.v ===== *)
(** * A login and the configuration agree

    A login stores its credential and then rewrites the configuration; each step
    may fail.  The configuration is only ever replaced as a whole, by the
    document that was there with the sections of the login, and never before the
    credential it names is stored. *)

From S2P Require Import Prelude GoErr GoStr Filepath Host GhApp Containers ConfigFile Connect.

Local Open Scope go_scope.

(** ** Steps that write nothing *)

Section kept.
Context `{D : Disk}.
Variable fs : gmap string file.
Local Notation kept := (preserves (λ w, files w = fs)).

Lemma stored_kept {A} o (f : file → A) path : kept (syscall o (stored f path)).
Proof using Type. apply preserves_wp. intros w Hw. apply stored_wp. intros r w' H _. congruence. Qed.

Lemma hints_kept decode_hints path : kept (ReadConnectHints decode_hints path).
Proof using Type. unfold ReadConnectHints, read_file. keep. apply stored_kept. Qed.

Lemma dotcom_kept decode_hints url_parse cfgPath base : kept (requireDotComTarget decode_hints url_parse cfgPath base).
Proof using Type. unfold requireDotComTarget. keep. apply hints_kept. Qed.

Lemma ask_kept {A} (f : list string → A * list string) : kept (ask f).
Proof using Type. intros w Hw. unfold ask. by destruct (f (typed w)). Qed.

Lemma line_kept : kept line.
Proof using Type. intros w Hw. unfold line. by destruct (typed w). Qed.

Lemma select_kept installs owner base slug org interactive : kept (selectInstallation installs owner base slug org interactive).
Proof using Type. unfold selectInstallation. keep. apply ask_kept. Qed.

Lemma resolve_kept f interactive : kept (resolveTarget f interactive).
Proof using Type. unfold resolveTarget. keep; apply line_kept. Qed.

Lemma needs_kept decode_hints url_parse scope f cfgPath interactive :
  kept (deriveNeeds decode_hints url_parse scope f cfgPath interactive).
Proof using Type. unfold deriveNeeds. keep; first [apply hints_kept | apply ask_kept]. Qed.
End kept.

(** ** Rewriting the configuration *)

Section atomic.
Context `{D : Disk}.
Variable targets : list string.
Hypothesis fresh : ∀ t, t ∈ targets → ¬ temporary targets t.

Lemma write_config_wp path data w : path ∈ targets → wp (writeFileAtomic path data) (written targets path data (files w)) w.
Proof using fresh.
  intros Ht. unfold writeFileAtomic. apply with_temp_wp; [done|done|set_solver|]. clear w. intros fs tmp w Hne.
  apply stage_then; [done|apply preserves_wrap, chmod_staging|]. intros _. clear w. intros w.
  apply write_then; [done|apply writes_wrap, write_writes|]. clear w. intros w.
  apply hold_then; [done|apply preserves_wrap, idle_holding|]. intros _. clear w. intros w. by apply rename_wrap.
Qed.

End atomic.

Section config.
Context `{D : Disk}.
Variable yaml_unmarshal : string → result node.
Variable yaml_encode : node → result string.
Variable targets : list string.
Hypothesis fresh : ∀ t, t ∈ targets → ¬ temporary targets t.
(** A failing read does not say that a file is missing. *)
Hypothesis honest : ∀ n o e, op_fails n o = Some e → errors_is "os.ErrNotExist" e = false.

(** The document of a configuration: a new one only when there is no file or
    nothing in it. *)
Definition document (old : option file) (doc : node) : Prop :=
  match old with
  | None => doc = newDocument
  | Some x => ∃ root, yaml_unmarshal (f_data x) = Ok root ∧
      (Content root = [] ∧ doc = newDocument ∨ ∃ m, Content root = [m] ∧ is_mapping m = true ∧ doc = root)
  end.

(** [text] is the configuration with its root edited. *)
Definition rendered (edit : node → node) (old : option file) (text : string) : Prop :=
  ∃ doc, document old doc ∧ yaml_encode (edit_root edit doc) = Ok text.

Lemma load_wp path w : wp (loadOrNewDocument yaml_unmarshal path)
  (λ r w', files w' = files w ∧ ∀ doc, r = Ok doc → document (files w !! path) doc) w.
Proof using honest.
  unfold loadOrNewDocument, read_file. apply wp_catch. unfold wp at 1, syscall.
  destruct (op_fails _ _) as [e|] eqn:Hf.
  { cbn. rewrite (honest _ _ _ Hf). by apply wp_throw. }
  cbn. destruct (files w !! path) as [x|] eqn:Hx.
  2:{ apply wp_ret. split; [done|]. by intros doc [= <-]. }
  destruct (yaml_unmarshal (f_data x)) as [root|e] eqn:Hr; [|by apply wp_throw].
  destruct (Content root) as [|m [|m' ms]] eqn:Hc; [|destruct (is_mapping m) eqn:Hm|]; try by apply wp_throw.
  - apply wp_ret. split; [done|]. intros doc [= <-]. exists root. auto.
  - apply wp_ret. split; [done|]. intros doc [= <-]. exists root. split; [done|]. right. by exists m.
Qed.

(** What rewriting may leave: the files as they were after an error, or the
    configuration replaced by its edited document. *)
Definition rewritten {A} (edit : node → node) (path : string) (fs : gmap string file) (r : result A) (w : world) : Prop :=
  (files w = fs ∧ is_ok r = false) ∨
  ∃ text, rendered edit (fs !! path) text ∧ evolves targets [(path, text)] fs (files w) ∧
    (is_ok r = true → f_data <$> files w !! path = Some text).

Lemma rewrite_wp edit path w : path ∈ targets →
  wp (let! file := loadOrNewDocument yaml_unmarshal path in renderConfig yaml_encode path (edit_root edit file))
    (rewritten edit path (files w)) w.
Proof using fresh honest.
  intros Ht. apply wp_bind. eapply wp_mono; [apply load_wp|]. intros [doc|e] w1 [H1 Hd]; [|by left].
  specialize (Hd doc eq_refl). unfold renderConfig. apply wp_bind.
  destruct (yaml_encode _) as [text|e] eqn:He; [|apply wp_throw; by left]. apply wp_ret.
  eapply wp_mono; [by apply write_config_wp|]. rewrite H1. intros r w2 [Hev Hok]. right. exists text.
  split; [by exists doc|]. split; [done|]. destruct r as [[]|]; [|done]. intros _. by apply Hok.
Qed.
End config.

(** ** The credential *)

Section credential.
Context `{D : Disk}.
Variable targets : list string.
Hypothesis fresh : ∀ t, t ∈ targets → ¬ temporary targets t.

Lemma store_token_wp token_text path tok w : path ∈ targets →
  wp (StoreUserToken token_text path tok)
    (λ r w', (files w' = files w ∧ is_ok r = false) ∨
      ∃ data, token_text tok = Ok data ∧ written targets path data (files w) r w') w.
Proof using fresh.
  intros Ht. unfold StoreUserToken. apply wp_bind. destruct (token_text tok) as [data|e]; [|apply wp_throw; by left].
  apply wp_ret. eapply wp_mono; [|intros r w' Hw; right; exists data; exact (conj eq_refl Hw)].
  apply with_temp_wp; [done|done|set_solver|]. clear w. intros fs tmp w Hne.
  apply stage_then; [done|apply preserves_wrap, chmod_staging|]. intros _. clear w. intros w.
  apply stage_then; [done|apply preserves_wrap, chmod_staging|]. intros _. clear w. intros w.
  apply write_then; [done|apply writes_wrap, write_writes|]. clear w. intros w.
  apply hold_then; [done|apply preserves_wrap, idle_holding|]. intros _. clear w. intros w. by apply rename_wrap.
Qed.
End credential.

(** ** The flows *)

Section flow.
Context `{D : Disk}.
Variable token_text : UserToken → result string.
Variable yaml_unmarshal : string → result node.
Variable yaml_encode : node → result string.
Variables goos goarch : string.
Variable decode_hints : string → option ConnectHints.
Variable url_parse : string → goerror + device_url.
Variable endpoints : list DockerEndpoint.
Variable ticks : nat.
Variable cancelled : option goerror.
Variable cfgPath : string.

Local Notation rendered := (rendered yaml_unmarshal yaml_encode).

(** A first pool added to the configuration [text]. *)
Definition pooled (text text' : string) : Prop :=
  ∃ kv mode, rendered (λ doc, default doc (add_pools kv.1 kv.2 doc)) (Some (File text mode)) text'.

(** The configuration after a login: rewritten by [edit], and perhaps given a
    first pool. *)
Definition connected_as (edit : node → node) (old new : option file) : Prop :=
  ∃ text, rendered edit old text ∧ (f_data <$> new = Some text ∨ ∃ text', pooled text text' ∧ f_data <$> new = Some text').

Section targets.
Variable targets : list string.
Hypothesis fresh : ∀ t, t ∈ targets → ¬ temporary targets t.
Hypothesis honest : ∀ n o e, op_fails n o = Some e → errors_is "os.ErrNotExist" e = false.
Hypothesis cfg_target : cfgPath ∈ targets.

Lemma add_pool_wp w :
  wp (addStarterPool yaml_unmarshal yaml_encode goos goarch decode_hints endpoints cfgPath)
    (λ _ w', files w' = files w ∨ ∃ kv text,
      rendered (λ doc, default doc (add_pools kv.1 kv.2 doc)) (files w !! cfgPath) text ∧
      evolves targets [(cfgPath, text)] (files w) (files w')) w.
Proof using fresh honest cfg_target.
  unfold addStarterPool. apply wp_bind. eapply wp_mono; [exact (wp_preserves _ _ _ (hints_kept (files w) decode_hints cfgPath) eq_refl)|].
  cbn beta. intros [hints|e] w1 H1; [|by left]. destruct (match hints with Some h => _ | None => _ end); [apply wp_ret; by left|].
  cbn zeta. apply wp_bind, wp_catch. unfold EnsureStarterPool.
  enough (∀ host arch os, wp (let! file := loadOrNewDocument yaml_unmarshal cfgPath in
    match findKey (root_of file) "pools" with
    | Some (v, _) => if no_pools v then add_starter yaml_unmarshal yaml_encode goos goarch cfgPath host arch os file else ret false
    | None => add_starter yaml_unmarshal yaml_encode goos goarch cfgPath host arch os file
    end) (λ _ w', files w' = files w1 ∨ ∃ kv text,
      rendered (λ doc, default doc (add_pools kv.1 kv.2 doc)) (files w1 !! cfgPath) text ∧
      evolves targets [(cfgPath, text)] (files w1) (files w')) w1) as Hadd.
  { rewrite <- H1. eapply wp_mono; [apply Hadd|]. cbn beta. intros [b|e] w2 H2; [by do 2 apply wp_ret|by apply wp_throw]. }
  clear H1 w hints. intros host arch os. apply wp_bind.
  eapply wp_mono; [by apply load_wp|]. intros [doc|e] w2 [H2 Hd]; [|by left]. specialize (Hd doc eq_refl). rewrite <- H2 in Hd |- *.
  enough (wp (add_starter yaml_unmarshal yaml_encode goos goarch cfgPath host arch os doc) (λ _ w', files w' = files w2 ∨ ∃ kv text,
      rendered (λ doc, default doc (add_pools kv.1 kv.2 doc)) (files w2 !! cfgPath) text ∧
      evolves targets [(cfgPath, text)] (files w2) (files w')) w2) as Hstart.
  { destruct (findKey (root_of doc) "pools") as [[v i]|]; [|done]. destruct (no_pools v); [done|apply wp_ret; by left]. }
  unfold add_starter. apply wp_bind. destruct (starterPoolNodes _ _ _ _ _ _) as [kv|e]; [|apply wp_throw; by left]. apply wp_ret.
  apply wp_bind. unfold renderConfig. apply wp_bind. destruct (yaml_encode _) as [text|e] eqn:He; [|apply wp_throw; by left].
  apply wp_ret. eapply wp_mono; [by apply (write_config_wp targets)|]. intros r w3 [Hev _].
  assert (∃ kv text, rendered (λ doc, default doc (add_pools kv.1 kv.2 doc)) (files w2 !! cfgPath) text ∧
      evolves targets [(cfgPath, text)] (files w2) (files w3)) as Hr.
  { exists kv, text. split; [by exists doc|done]. }
  destruct r; [apply wp_ret|]; by right.
Qed.

(** A step that stores the credential: nothing but its files changes, and when
    it returns without an error the credential is there. *)
Definition stores (cred data : string) (others : list string) (c : M world unit) : Prop :=
  ∀ w, wp c (λ r w', (∀ p, p ≠ cred → p ∉ others → files w' !! p = files w !! p ∨ (files w !! p = None ∧ temporary targets p)) ∧
                     (r = Ok tt → f_data <$> files w' !! cred = Some data)) w.

(** What a login leaves: the configuration as it was, or that of the login with
    the credential in its file. *)
Definition logged_in (edit : node → node) (cred data : string) (others : list string) (fs : gmap string file)
    (r : result unit) (w : world) : Prop :=
  (∀ p, p ≠ cfgPath → p ≠ cred → p ∉ others → files w !! p = fs !! p ∨ (fs !! p = None ∧ temporary targets p)) ∧
  (files w !! cfgPath = fs !! cfgPath ∧ r ≠ Ok tt ∨
   connected_as edit (fs !! cfgPath) (files w !! cfgPath) ∧ f_data <$> files w !! cred = Some data).

Lemma evolves_keeps fs fs' text p : evolves targets [(cfgPath, text)] fs fs' → p ≠ cfgPath →
  fs' !! p = fs !! p ∨ (fs !! p = None ∧ temporary targets p).
Proof using Type. intros He Hp. destruct (He p) as [?|[?|(d & Hd & _)]]; [by left|by right|]. apply list_elem_of_singleton in Hd as [= ? _]. done. Qed.

Lemma evolves_target fs fs' text p : evolves targets [(cfgPath, text)] fs fs' → p ≠ cfgPath → p ∈ targets → fs' !! p = fs !! p.
Proof using fresh. intros He Hp Ht. destruct (evolves_keeps _ _ _ _ He Hp) as [?|[_ ?]]; [done|]. by destruct (fresh p Ht). Qed.

Lemma evolves_config fs fs' text : evolves targets [(cfgPath, text)] fs fs' →
  fs' !! cfgPath = fs !! cfgPath ∨ f_data <$> fs' !! cfgPath = Some text.
Proof using fresh cfg_target.
  intros He. destruct (He cfgPath) as [?|[[_ Ht]|(d & Hd & Hn)]]; [by left|by destruct (fresh cfgPath)|].
  right. apply list_elem_of_singleton in Hd as [= ->]. done.
Qed.

Lemma logged_in_pool edit cred data others fs text w r w' :
  logged_in edit cred data others fs (Ok tt) w → rendered edit (fs !! cfgPath) text → f_data <$> files w !! cfgPath = Some text →
  cred ∈ targets → cred ≠ cfgPath → f_data <$> files w !! cred = Some data →
  (files w' = files w ∨ ∃ kv text, rendered (λ doc, default doc (add_pools kv.1 kv.2 doc)) (files w !! cfgPath) text ∧
    evolves targets [(cfgPath, text)] (files w) (files w')) →
  logged_in edit cred data others fs r w'.
Proof using fresh cfg_target.
  intros [Ho _] Ht Hx Hct Hne Hd [Hw|(kv & text' & Hp & Hev)].
  - unfold logged_in. rewrite Hw. split; [done|]. right. split; [|done]. exists text. auto.
  - split.
    + intros p H1 H2 H3. destruct (evolves_keeps _ _ _ _ Hev H1) as [->|[Hn ?]]; [by apply Ho|].
      destruct (Ho p H1 H2 H3) as [<-|?]; by right.
    + right. rewrite (evolves_target _ _ _ _ Hev Hne Hct). split; [|done]. exists text. split; [done|].
      destruct (evolves_config _ _ _ Hev) as [->|Hn]; [by left|right]. exists text'. split; [|done]. exists kv.
      destruct (files w !! cfgPath) as [[d m]|]; [|done]. injection Hx as ->. by exists m.
Qed.

Lemma login_wp cred data others edit c pre post pre' post' w :
  cred ∈ targets → cred ≠ cfgPath → cfgPath ∉ others → stores cred data others c →
  wp (c ;;; around pre post (let! file := loadOrNewDocument yaml_unmarshal cfgPath in renderConfig yaml_encode cfgPath (edit_root edit file)) ;;;
      around pre' post' (addStarterPool yaml_unmarshal yaml_encode goos goarch decode_hints endpoints cfgPath))
    (logged_in edit cred data others (files w)) w.
Proof using fresh honest cfg_target.
  intros Hct Hne Hco Hc. apply wp_bind. eapply wp_mono; [apply Hc|]. cbn beta. intros r w1 [Ho Hd].
  assert (files w1 !! cfgPath = files w !! cfgPath) as Hcfg.
  { destruct (Ho cfgPath) as [?|[_ ?]]; [done..|]. by destruct (fresh cfgPath). }
  destruct r as [[]|e]; [specialize (Hd eq_refl)|by split; [auto|left]]. apply wp_bind, wp_catch.
  eapply wp_mono; [by apply (rewrite_wp _ _ targets)|]. intros r w2 Hw. unfold rewritten in Hw. rewrite Hcfg in Hw.
  destruct Hw as [[Hw Hr]|(text & Ht & Hev & Hok)].
  { destruct r; [done|]. apply wp_throw. split; [|left; by rewrite Hw]. intros p H1 H2 H3. rewrite Hw. by apply Ho. }
  pose proof (evolves_target _ _ _ _ Hev Hne Hct) as Hcred.
  assert (∀ p, p ≠ cfgPath → p ≠ cred → p ∉ others →
    files w2 !! p = files w !! p ∨ (files w !! p = None ∧ temporary targets p)) as Ho2.
  { intros p H1 H2 H3. destruct (evolves_keeps _ _ _ _ Hev H1) as [->|[Hn ?]]; [by apply Ho|].
    destruct (Ho p H2 H3) as [<-|?]; by right. }
  assert (∀ e, logged_in edit cred data others (files w) (Err e) w2) as Hfail.
  { intros e. split; [done|]. destruct (evolves_config _ _ _ Hev) as [Hx|Hx]; [left; by rewrite Hx, Hcfg|right].
    rewrite Hcred. split; [|done]. exists text. auto. }
  destruct r as [[]|e]; [|by apply wp_throw]. specialize (Hok eq_refl). apply wp_ret, wp_catch.
  assert (logged_in edit cred data others (files w) (Ok tt) w2) as Hin.
  { split; [done|]. right. rewrite Hcred. split; [|done]. exists text. auto. }
  eapply wp_mono; [by apply add_pool_wp|]. cbn beta. intros r w3 H3.
  assert (∀ r, logged_in edit cred data others (files w) r w3) as Hend.
  { intros r'. eapply logged_in_pool; [done..|by rewrite Hcred|done]. }
  destruct r as [[]|e]; [by apply wp_ret|by apply wp_throw].
Qed.
End targets.
End flow.

(** ** The installation *)

Lemma match_from_spec slug installs account i :
  (match_from slug installs account).1 = Some i → i ∈ installs ∧ equal_fold (Account i) account = true.
Proof.
  revert slug. induction installs as [|j installs IH]; intros slug; cbn [match_from]; [done|].
  destruct (equal_fold (Account j) account) eqn:He; [intros [= ->]; split; [left|done]|].
  intros Hm. destruct (IH _ Hm). split; [by right|done].
Qed.

Lemma org_answer_in orgs a i : org_answer orgs a = Some i → i ∈ orgs.
Proof.
  unfold org_answer. destruct (match parse_int a with Some n => _ | None => None end) as [j|] eqn:Hn.
  - intros [= ->]. destruct (parse_int a); [|done]. destruct (_ && _); [|done]. by apply list_elem_of_lookup_2 in Hn.
  - destruct (list_find _ orgs) as [[k j]|] eqn:Hf; [|done]. intros [= ->].
    apply list_find_Some in Hf as (Hk & _). by apply list_elem_of_lookup_2 in Hk.
Qed.

Lemma choose_org_in orgs answers i : (choose_org orgs answers).1 = Some i → i ∈ orgs.
Proof.
  induction answers as [|a answers IH]; cbn [choose_org]; [apply org_answer_in|].
  destruct (org_answer orgs (trim_space a)) as [j|] eqn:Ha; [|done]. intros [= <-]. by eapply org_answer_in.
Qed.

Lemma await_ticks_spec cancelled listing owner url call n installs :
  await_ticks cancelled listing owner url call n = Ok installs → ∃ k, listing k = Ok installs.
Proof.
  revert call. induction n as [|n IH]; intros call; cbn [await_ticks]; [done|].
  destruct (listing call) as [l|] eqn:Hl; [|done]. destruct (hasUsableInstall l owner); [intros [= <-]; by exists call|apply IH].
Qed.

Lemma await_spec ticks cancelled listing owner base slug interactive installs :
  awaitInstallation ticks cancelled listing owner base slug interactive = Ok installs → ∃ k, listing k = Ok installs.
Proof.
  unfold awaitInstallation. destruct (listing 0) as [l|] eqn:Hl; [|done].
  destruct (_ || _); [intros [= <-]; by exists 0|apply await_ticks_spec].
Qed.

(** The installation a login is made for. *)
Definition installed_for (installs : list Installation) (owner : string) (org : bool) (inst : Installation) : Prop :=
  inst ∈ installs ∧ (owner ≠ "" → equal_fold (Account inst) owner = true) ∧ (org = true ∨ owner = "" → IsOrg inst = true).

Lemma select_wp installs owner base slug org interactive w :
  wp (selectInstallation installs owner base slug org interactive)
    (λ r w', files w' = files w ∧ ∀ inst, r = Ok inst → installed_for installs owner org inst) w.
Proof.
  unfold selectInstallation. destruct (is_empty owner) eqn:Hown; cbn [negb].
  - apply is_empty_true in Hown as ->. pose proof (λ i, list_elem_of_filter (λ i, IsOrg i = true) installs i) as Hin.
    assert (∀ i, i ∈ filter (λ i, IsOrg i = true) installs → installed_for installs "" org i) as Hok.
    { intros i [Hi Hm]%Hin. by split_and!. }
    destruct (filter (λ i, IsOrg i = true) installs) as [|o [|o' os]] eqn:Hf; [by apply wp_throw| |].
    + apply wp_ret. split; [done|]. intros i [= <-]. apply Hok. left.
    + destruct (negb interactive); [by apply wp_throw|]. apply wp_bind. unfold wp, ask.
      destruct (choose_org (o :: o' :: os) (typed w)) as [[i|] rest] eqn:Hc; [|done]. split; [done|]. intros j [= <-].
      apply Hok, (choose_org_in _ (typed w)). by rewrite Hc.
  - apply is_empty_false in Hown. destruct (MatchInstallation installs owner).1 as [inst|] eqn:Hm; [|by apply wp_throw].
    apply match_from_spec in Hm as [Hi He]. destruct (org && negb (IsOrg inst)) eqn:Ho; [by apply wp_throw|].
    apply wp_ret. split; [done|]. intros j [= <-]. split_and!; [done..|]. intros [-> | ->]; [|done].
    by destruct (IsOrg inst).
Qed.

(** ** The device flow *)

Lemma store_token_stores `{Disk} token_text targets path tok data :
  (∀ t, t ∈ targets → ¬ temporary targets t) → path ∈ targets → token_text tok = Ok data →
  stores targets path data [] (StoreUserToken token_text path tok).
Proof.
  intros Hf Ht Hd w. eapply wp_mono; [by apply store_token_wp|]. cbn beta.
  intros r w' [[Hw Hr]|(d & Hd' & Hev & Hok)]; [split; [intros; left; by rewrite Hw|by destruct r]|].
  assert (d = data) as -> by congruence. split; [|done]. intros p Hp _.
  destruct (Hev p) as [?|[?|(d & Hin & _)]]; [auto..|]. apply list_elem_of_singleton in Hin as [= ? _]. done.
Qed.

Lemma token_path_new cfgPath : deviceTokenPath cfgPath ≠ cfgPath.
Proof. unfold deviceTokenPath. intros He. apply (f_equal String.length) in He. rewrite str_length_app in He. cbn in He. lia. Qed.

Lemma connectTarget_spec org repo scope owner name : connectTarget org repo = Ok (scope, owner, name) →
  owner ≠ "" ∧ (scope = "repo" ∧ repo ≠ "" ∨ scope = "org" ∧ repo = "").
Proof.
  unfold connectTarget. destruct (is_empty org) eqn:Ho, (is_empty repo) eqn:Hr; cbn [negb andb]; try done.
  - destruct (cut "/" repo) as [[a b] ok]. destruct (_ || _) eqn:Hb; [done|]. intros [= <- <- <-].
    rewrite !orb_false_iff, !is_empty_false in Hb. apply is_empty_false in Hr. naive_solver.
  - intros [= <- <- _]. apply is_empty_false in Ho. apply is_empty_true in Hr. auto.
Qed.

Section device.
Context `{D : Disk}.
Variable token_text : UserToken → result string.
Variable yaml_unmarshal : string → result node.
Variable yaml_encode : node → result string.
Variables goos goarch : string.
Variable decode_hints : string → option ConnectHints.
Variable url_parse : string → goerror + device_url.
Variable endpoints : list DockerEndpoint.
Variable ticks : nat.
Variable cancelled : option goerror.

(** The files of a login with the device flow. *)
Definition device_files (cfgPath : string) : list string := [cfgPath; deviceTokenPath cfgPath].

(** A login that GitHub has granted, for an account the App is installed on. *)
Record granted (df : deviceFlow) (f : connectFlags) (tok : UserToken) (scope owner repo : string) : Prop := {
  gr_token : ∃ dc, requestCode df = Ok dc ∧ pollToken df dc = Ok tok;
  gr_install : ∃ n installs inst, listInstalls df n (GhApp.AccessToken tok) = Ok installs ∧ inst ∈ installs ∧
    equal_fold (Account inst) owner = true ∧ (scope ≠ "repo" → IsOrg inst = true) ∧
    (scope = "repo" → ∃ check, checkRepo df = Some check ∧ check (GhApp.AccessToken tok) (inst_ID inst) owner repo = None)
}.

(** What the flow ends in: nothing, or a login. *)
Definition device_end (cfgPath : string) (df : deviceFlow) (f : connectFlags) (fs : gmap string file) (r : result unit) (w : world) : Prop :=
  (files w = fs ∧ r ≠ Ok tt) ∨
  ∃ tok data scope owner repo, granted df f tok scope owner repo ∧ token_text tok = Ok data ∧
    logged_in yaml_unmarshal yaml_encode cfgPath (device_files cfgPath)
      (device_doc scope owner repo (clientID df) (deviceTokenPath cfgPath)) (deviceTokenPath cfgPath) data [] fs r w.

Lemma device_save cfgPath df f tok scope owner repo pre post pre' post' w :
  (∀ t, t ∈ device_files cfgPath → ¬ temporary (device_files cfgPath) t) →
  (∀ n o e, op_fails n o = Some e → errors_is "os.ErrNotExist" e = false) →
  granted df f tok scope owner repo →
  wp (StoreUserToken token_text (deviceTokenPath cfgPath) tok ;;;
      around pre post (WriteDeviceAuth yaml_unmarshal yaml_encode cfgPath scope owner repo (clientID df) (deviceTokenPath cfgPath)) ;;;
      around pre' post' (addStarterPool yaml_unmarshal yaml_encode goos goarch decode_hints endpoints cfgPath))
    (device_end cfgPath df f (files w)) w.
Proof using Type.
  intros Hf Hh Hg. destruct (token_text tok) as [data|e] eqn:Hd.
  - unfold WriteDeviceAuth. eapply wp_mono.
    + assert (cfgPath ∈ device_files cfgPath) as Hcfg by left.
      assert (deviceTokenPath cfgPath ∈ device_files cfgPath) as Htok by (right; left).
      apply (login_wp yaml_unmarshal yaml_encode goos goarch decode_hints endpoints cfgPath (device_files cfgPath) Hf Hh Hcfg
        (deviceTokenPath cfgPath) data []);
        [done|apply token_path_new|apply not_elem_of_nil|by apply store_token_stores].
    + intros r w' Hl. right. by exists tok, data, scope, owner, repo.
  - unfold StoreUserToken. rewrite Hd. apply wp_bind, wp_bind, wp_throw. by left.
Qed.

Lemma device_wp cfgPath df f interactive w :
  (∀ t, t ∈ device_files cfgPath → ¬ temporary (device_files cfgPath) t) →
  (∀ n o e, op_fails n o = Some e → errors_is "os.ErrNotExist" e = false) →
  wp (runDeviceConnect token_text yaml_unmarshal yaml_encode goos goarch decode_hints url_parse endpoints ticks cancelled
        cfgPath f interactive df) (device_end cfgPath df f (files w)) w.
Proof using Type.
  intros Hf Hh. assert (∀ e w', files w' = files w → device_end cfgPath df f (files w) (Err e) w') as Hstop by (intros; by left).
  unfold runDeviceConnect. apply wp_bind.
  eapply wp_mono; [exact (wp_preserves _ _ _ (dotcom_kept (files w) decode_hints url_parse cfgPath (baseURL df)) eq_refl)|].
  cbn beta. intros [[]|e] w1 H1; [|by apply Hstop]. cbn zeta. apply wp_bind. set (named := _ || _).
  assert (wp (if named then of_result (connectTarget (fl_org f) (fl_repo f)) else ret ("", "", "")) (λ r w', files w' = files w ∧
    ∀ scope owner name, r = Ok (scope, owner, name) →
      owner ≠ "" ∧ (scope = "repo" ∧ fl_repo f ≠ "" ∨ scope = "org" ∧ fl_repo f = "") ∨ owner = "" ∧ fl_repo f = "") w1) as Htgt.
  { destruct named eqn:Hn.
    - destruct (connectTarget _ _) as [[[s o] nm]|e] eqn:Hc; [|by apply wp_throw]. apply wp_ret. split; [done|].
      intros ? ? ? [= <- <- <-]. left. by eapply connectTarget_spec.
    - apply wp_ret. split; [done|]. intros ? ? ? [= <- <- <-]. right. split; [done|].
      unfold named in Hn. apply orb_false_iff in Hn as [_ Hn%negb_false_iff]. by apply is_empty_true. }
  eapply wp_mono; [exact Htgt|]. clear Htgt. intros [[[scope owner] name]|e] w2 [H2 Ht]; [|by apply Hstop].
  specialize (Ht _ _ _ eq_refl). apply wp_bind. destruct (requestCode df) as [dc|e] eqn:Hdc; [|by apply wp_throw, Hstop].
  apply wp_ret, wp_bind. destruct (pollToken df dc) as [tok|e] eqn:Htok; [|by apply wp_throw, Hstop]. apply wp_ret, wp_bind.
  destruct (awaitInstallation _ _ _ _ _ _ _) as [installs|e] eqn:Ha; [|by apply wp_throw, Hstop]. apply await_spec in Ha as [n Hn].
  apply wp_ret, wp_bind. eapply wp_mono; [apply select_wp|]. intros [inst|e] w3 [H3 Hi]; [|apply Hstop; congruence].
  destruct (Hi inst eq_refl) as (Hin & Heq & Horg). clear Hi. rewrite H2 in H3.
  set (owner' := if is_empty owner then Account inst else owner). set (scope' := if is_empty owner then "org" else scope).
  apply wp_bind. assert (equal_fold (Account inst) owner' = true) as He'.
  { unfold owner'. destruct (is_empty owner) eqn:Hoe; [apply equal_fold_refl|apply Heq; by apply is_empty_false]. }
  assert (scope' ≠ "repo" → IsOrg inst = true) as Horg'.
  { intros Hs. apply Horg. destruct Ht as [[Hne [[-> _]|[_ Hr]]]|[-> _]]; [|left; by apply is_empty_true|by right].
    unfold scope' in Hs. by rewrite (proj2 (is_empty_false owner) Hne) in Hs. }
  assert (∀ w4, files w4 = files w → (scope' = "repo" → ∃ check, checkRepo df = Some check ∧ check (GhApp.AccessToken tok) (inst_ID inst) owner' name = None) →
    granted df f tok scope' owner' name) as Hg.
  { intros w4 _ Hck. constructor; [by exists dc|]. by exists n, installs, inst. }
  destruct (String.eqb_spec scope' "repo") as [Hs|Hs].
  - destruct (checkRepo df) as [check|] eqn:Hck; [|by apply wp_throw, Hstop]. apply wp_catch.
    destruct (check _ _ owner' name) as [e|] eqn:Hc; [by apply wp_throw, wp_throw, Hstop|]. apply wp_ret, wp_ret.
    rewrite <- H3. apply device_save; [done..|]. apply (Hg w3 H3). intros _. by exists check.
  - apply wp_ret. rewrite <- H3. apply device_save; [done..|]. by apply (Hg w3 H3).
Qed.

(** C15: A device login never leaves a configuration without its token.
    Whichever step fails, the configuration is as it was, or it is the old
    document with the sections of this login, for an account on which the App
    is installed (an organization, or a repository the App was seen to reach),
    perhaps with a first pool; and then the file it names holds the token that
    GitHub granted.  A login that succeeds has written it.  No other file
    changes, and a configuration that cannot be read or parsed is not
    overwritten. *)
Theorem device_login_consistent cfgPath f interactive df w r w'
    (Hfresh : ∀ t, t ∈ device_files cfgPath → ¬ temporary (device_files cfgPath) t)
    (Hhonest : ∀ n o e, op_fails n o = Some e → errors_is "os.ErrNotExist" e = false)
    (Hrun : runDeviceConnect token_text yaml_unmarshal yaml_encode goos goarch decode_hints url_parse endpoints ticks cancelled
              cfgPath f interactive df w = (r, w')) :
  (∀ p, p ∉ device_files cfgPath → files w' !! p = files w !! p ∨ (files w !! p = None ∧ temporary (device_files cfgPath) p)) ∧
  (files w' !! cfgPath = files w !! cfgPath ∧ r ≠ Ok tt ∨
   ∃ tok data scope owner repo, granted df f tok scope owner repo ∧ token_text tok = Ok data ∧
     connected_as yaml_unmarshal yaml_encode (device_doc scope owner repo (clientID df) (deviceTokenPath cfgPath))
       (files w !! cfgPath) (files w' !! cfgPath) ∧
     f_data <$> files w' !! deviceTokenPath cfgPath = Some data).
Proof.
  pose proof (device_wp cfgPath df f interactive w Hfresh Hhonest) as Hwp. unfold wp in Hwp. rewrite Hrun in Hwp. cbn [fst snd] in Hwp.
  destruct Hwp as [[Hw Hr]|(tok & data & scope & owner & repo & Hg & Hd & Ho & Hc)].
  - split; [intros; left; by rewrite Hw|left; by rewrite Hw].
  - split; [intros p Hp; apply Ho; set_solver|]. destruct Hc as [?|[? ?]]; [by left|right]. by exists tok, data, scope, owner, repo.
Qed.
End device.

(** A login for an organization, into a configuration with a personal token and
    no pools. *)
Module login.
#[export] Instance disk : Disk := {| op_fails _ _ := None; torn _ _ := ""; random_name _ := "1" |}.
Definition mapping (l : list (string * node)) : node := set_content (l ≫= λ kv, [scalar "!!str" kv.1; kv.2]) new_mapping.
Definition document_of (m : node) : node := Node DocumentNode 0 "" "" "" [] [m].
Definition old_doc : node := document_of (mapping [("auth", mapping [("pat", scalar "!!str" "ghp_x")])]).
Definition pools : node := Node SequenceNode 0 "!!seq" "" "" [] [mapping [("name", scalar "!!str" "linux-pool")]].
Definition path : string := "config.yaml".
Definition tok : UserToken := MkUserToken "ghu_a" "ghr_b" (Some 10%Z) (Some 20%Z).
Definition new_doc : node :=
  edit_root (device_doc "org" "acme" "" DefaultClientID (deviceTokenPath path)) old_doc.
Definition yaml_unmarshal (text : string) : result node :=
  if String.eqb text "old" then Ok old_doc
  else if String.eqb text "new" then Ok new_doc
  else Ok (document_of (mapping [("pools", pools)])).
Definition yaml_encode (n : node) : result string :=
  match findKey (root_of n) "pools" with Some _ => Ok "new with pools" | None => Ok "new" end.
Definition flow : deviceFlow := {|
  requestCode := Ok (MkDeviceCode "d" "AB-12" "https://github.com/login/device" 900 5);
  pollToken _ := Ok tok;
  listInstalls _ _ := Ok [MkInstallation 7 "acme" true DefaultAppSlug; MkInstallation 8 "me" false ""];
  checkRepo := None;
  clientID := DefaultClientID;
  appSlug := DefaultAppSlug;
  baseURL := "https://github.com" |}.
Definition start : world := World [] {[path := File "old" 420]} 0 [] [].
Definition result : result unit * world :=
  runDeviceConnect (λ t, Ok (GhApp.AccessToken t)) yaml_unmarshal yaml_encode "linux" "amd64" (λ _, None)
    (λ _, inl (errorf "no url")) [] 0 None path (Flags "Acme" "" "" "" false "") false flow start.
End login.

Import login.

Lemma device_login_consistent_witness :
  result.1 = Ok tt ∧ f_data <$> files result.2 !! path = Some "new with pools" ∧
  ((∀ p, p ∉ device_files path →
     files result.2 !! p = files start !! p ∨ (files start !! p = None ∧ temporary (device_files path) p)) ∧
   (files result.2 !! path = files start !! path ∧ Ok tt ≠ Ok tt ∨
    ∃ tok data scope owner repo, granted flow (Flags "Acme" "" "" "" false "") tok scope owner repo ∧
      Ok (GhApp.AccessToken tok) = Ok data ∧
      connected_as yaml_unmarshal yaml_encode (device_doc scope owner repo (clientID flow) (deviceTokenPath path))
        (files start !! path) (files result.2 !! path) ∧
      f_data <$> files result.2 !! deviceTokenPath path = Some data)).
Proof.
  split; [vm_compute; reflexivity|]. split; [vm_compute; reflexivity|].
  apply (device_login_consistent (λ t, Ok (GhApp.AccessToken t)) yaml_unmarshal yaml_encode "linux" "amd64" (λ _, None)
           (λ _, inl (errorf "no url")) [] 0 None path (Flags "Acme" "" "" "" false "") false flow start (Ok tt) result.2).
  - intros t Ht (n & t' & pat & Ht' & Hpat & He). unfold device_files in Ht, Ht'. unfold patterns in Hpat.
    rewrite !elem_of_cons, elem_of_nil in Ht, Ht'. rewrite !elem_of_cons, elem_of_nil in Hpat.
    destruct Ht as [->|[->|[]]], Ht' as [->|[->|[]]], Hpat as [->|[->|[->|[]]]]; vm_compute in He; discriminate.
  - discriminate.
  - vm_compute. reflexivity.
Defined.
