(* ===== verification/ServiceHost.v ===== *)
(** * The service host

    [internal/servicehost/failures.go] and, in [cmd/multirunner],
    [service_supervisor.go] and [service_lifecycle.go], and how [main.go] ends:
    the history of fatal runs that bounds crash loops, the supervision of the
    worker process, the program a service manager starts and stops, and the
    lives of a service that is restarted.  Times are nanoseconds; the
    file system, the clock and the worker answer as the environment says.  The
    history file is replaced as a whole, so it holds what was last encoded. *)

From S2P Require Import Prelude GoErr GoStr Threads Redact.

Local Open Scope Z_scope.
Local Open Scope go_scope.

(** ** The failure history *)

Definition maxFailureExits : Z := 3.
Definition FailureExitCode : Z := 1.
Definition FailureWindow : Z := 10 * 60 * 10 ^ 9.
Definition CrashLoopFailureCount : Z := maxFailureExits + 1.

Record failureHistory := MkHistory { Failures : list Z; LastError : string }.
Record FailureStatus := MkStatus { Count : Z; LastFailure : option Z; StatusError : string }.

(** The history file: absent, or unreadable, or decoded. *)
Inductive history_file :=
| Absent
| Unreadable (e : goerror)
| Unparsable (e : goerror)
| Stored (h : failureHistory).

Definition readFailureHistory (file : history_file) : result failureHistory :=
  match file with
  | Absent => Ok (MkHistory [] "")
  | Unreadable e => Err (errorf_w "read service failure state: " e)
  | Unparsable e => Err (errorf_w "parse service failure state: " e)
  | Stored h => Ok h
  end.

(** The steps of a write, the first that fails, if any; the file is renamed
    into place by the last. *)
Definition writeFailureHistory (failed : option (string * goerror)) (h : failureHistory) (file : history_file)
    : option goerror * history_file :=
  match failed with
  | Some (step, e) => (Some (errorf_w (step +:+ " service failure state: ") e), file)
  | None => (None, Stored h)
  end.

Definition recentFailures (failures : list Z) (now : Z) : list Z :=
  let cutoff := now - FailureWindow in
  filter (λ failure, (cutoff <? failure) && (failure <=? now) = true) failures.

Definition truncateSummary (summary : string) : string :=
  if (String.length summary <=? 2048)%nat then summary else str_take 2048 summary.

Definition RecordFailure (failed : option (string * goerror)) (now : Z) (summary : string) (file : history_file)
    : option goerror * history_file :=
  match readFailureHistory file with
  | Err e => (Some e, file)
  | Ok h =>
      let failures := recentFailures (Failures h) now ++ [now] in
      writeFailureHistory failed (MkHistory failures (truncateSummary summary)) file
  end.

Definition ReadFailureStatus (now : Z) (file : history_file) : result FailureStatus :=
  match readFailureHistory file with
  | Err e => Err e
  | Ok h =>
      let recent := recentFailures (Failures h) now in
      Ok (MkStatus (Z.of_nat (length recent)) (last recent)
            (if bool_decide (recent = []) then "" else LastError h))
  end.

Definition FailureCount (now : Z) (file : history_file) : result Z :=
  match ReadFailureStatus now file with Ok st => Ok (Count st) | Err e => Err e end.

(** [os.Remove]; a file that is not there is no error. *)
Definition ClearFailures (failed : option goerror) (file : history_file) : option goerror * history_file :=
  match file with
  | Absent => (None, Absent)
  | _ => match failed with Some e => (Some e, file) | None => (None, Absent) end
  end.

(** ** The worker process *)

Definition serviceWorkerMarkerEnv : string := "MULTIRUNNER_INTERNAL_SERVICE_WORKER".
Definition serviceWorkerMarkerValue : string := "supervised-v1".
Definition serviceWorkerConfigEnv : string := "MULTIRUNNER_INTERNAL_SERVICE_CONFIG".
Definition serviceWorkerInstallDepsEnv : string := "MULTIRUNNER_INTERNAL_SERVICE_INSTALL_DEPS".
Definition serviceWorkerInteractiveEnv : string := "MULTIRUNNER_INTERNAL_SERVICE_INTERACTIVE".

Definition worker_variable (name : string) : bool :=
  bool_mem (to_upper name)
    [serviceWorkerMarkerEnv; serviceWorkerConfigEnv; serviceWorkerInstallDepsEnv; serviceWorkerInteractiveEnv].

Definition withoutServiceWorkerEnvironment (environment : list string) : list string :=
  filter (λ entry, worker_variable (cut "=" entry).1.1 = false) environment.

Definition format_bool (b : bool) : string := if b then "true" else "false".

(** The environment of the worker. *)
Definition worker_env (environment : list string) (configPath : string) (interactive installDeps : bool) : list string :=
  withoutServiceWorkerEnvironment environment ++
  [serviceWorkerMarkerEnv +:+ "=" +:+ serviceWorkerMarkerValue;
   serviceWorkerConfigEnv +:+ "=" +:+ configPath;
   serviceWorkerInstallDepsEnv +:+ "=" +:+ format_bool installDeps;
   serviceWorkerInteractiveEnv +:+ "=" +:+ format_bool interactive].

(** The answers of the operating system to one supervision: each step of the
    start, then whether the worker's exit is seen before the end of the
    context, what [Wait] returned, whether the worker left within the stop
    timeout, the forced kill, and whether it left after that. *)
Record process_answers := {
  pa_pipe : option goerror;
  pa_control : option goerror;
  pa_start : option goerror;
  pa_attach : option goerror;
  pa_exited : bool;
  pa_wait : option goerror;
  pa_left : bool;
  pa_kill : option goerror;
  pa_left_late : bool;
  pa_reason : string;
  pa_tail : string
}.

(** What is done to the worker. *)
Inductive process_event :=
| PStarted
| PCloseControl
| PKillGroup
| PKillProcess
| PWaited.

Definition supervisedProcessError (reason tail : string) : goerror :=
  ETyped "main.supervisedProcessError"
    (errorf (if is_empty tail then reason else reason +:+ String "010" ("output_tail:" +:+ String "010" tail))) false.

(** [stopSupervisedProcess] *)
Definition stopSupervisedProcess (a : process_answers) : option goerror * list process_event :=
  if pa_left a then (pa_wait a, [PWaited])
  else
    let kill := PKillGroup :: match pa_kill a with Some _ => [PKillProcess] | None => [] end in
    if pa_left_late a then (pa_wait a, kill ++ [PWaited])
    else (Some (errorf "service worker did not exit after forced termination"), kill).

Definition superviseProcess (path : string) (a : process_answers) : option goerror * list process_event :=
  if is_empty path then (Some (errorf "service worker path is empty"), [])
  else
    match pa_pipe a with
    | Some e => (Some (errorf_w "create service output pipe: " e), [])
    | None =>
    match pa_control a with
    | Some e => (Some (errorf_w "create service control pipe: " e), [])
    | None =>
    match pa_start a with
    | Some e => (Some (errorf_w "start service worker: " e), [PCloseControl])
    | None =>
    match pa_attach a with
    | Some e => (Some (errorf_w "contain service worker: " e), [PStarted; PKillProcess; PWaited; PCloseControl])
    | None =>
        if pa_exited a then
          (Some (supervisedProcessError
                   (match pa_wait a with
                    | None => "service_worker_exit exit_code=0 unexpected=true"
                    | Some _ => pa_reason a
                    end) (pa_tail a)),
           [PStarted; PWaited; PCloseControl; PKillGroup])
        else
          let '(_, evs) := stopSupervisedProcess a in
          (None, [PStarted; PCloseControl] ++ evs ++ [PCloseControl; PKillGroup])
    end end end end.

Definition recoveryExhaustedError (count : Z) : goerror :=
  ETyped "main.recoveryExhaustedError"
    (errorf ("service recovery stopped after " +:+ format_int count +:+ " failures within 10m0s")) false.

(** [superviseServiceWorker]; [spec] is the worker's path, or what fails when
    it is located and its configuration loaded. *)
Definition superviseServiceWorker (interactive : bool) (now : Z) (file : history_file) (spec : result string)
    (a : process_answers) : option goerror :=
  let run := match spec with Err e => Some e | Ok path => (superviseProcess path a).1 end in
  if interactive then run
  else
    match FailureCount now file with
    | Err e => Some (errorf_w "read service recovery state: " e)
    | Ok count => if CrashLoopFailureCount <=? count then Some (recoveryExhaustedError count) else run
    end.

(** The exit code after a fatal error, and what goes wrong when it is recorded. *)
Definition managedServiceExitCode (interactive : bool) (failed : option (string * goerror)) (now : Z)
    (summary : string) (file : history_file) : Z * option goerror * history_file :=
  if interactive then (FailureExitCode, None, file)
  else let '(err, file) := RecordFailure failed now (sanitizeLogText summary) file in (FailureExitCode, err, file).

(** [main]: what a command that failed ends with; only the errors of a managed
    service are recorded. *)
Definition managedServiceError (e : goerror) : goerror := ETyped "main.managedServiceError" e true.
Definition main_exit (interactive : bool) (failed : option (string * goerror)) (now : Z) (err : option goerror) (file : history_file)
    : Z * option goerror * history_file :=
  match err with
  | None => (0, None, file)
  | Some e => if bool_decide (is_Some (errors_as "main.managedServiceError" e))
              then managedServiceExitCode interactive failed now (error_text e) file
              else (FailureExitCode, None, file)
  end.
(** [runService], as far as it fails without the program deciding to exit: the
    path of the configuration, the wrapper of the service, its logger, the
    capture of the output and the run of the service. *)
Inductive service_step := StepPath | StepService | StepLogger | StepCapture | StepRun.
Definition runService_error (step : service_step) (e : goerror) : goerror :=
  match step with
  | StepPath => e
  | StepService => managedServiceError (errorf_w "service: " e)
  | StepLogger => managedServiceError (errorf_w "service logger: " e)
  | StepCapture | StepRun => managedServiceError e
  end.

(** ** The program *)

(** What the service manager sees. *)
Inductive obs :=
| OStarted
| OStopped
| OFailed (summary : string)
| OExhausted (summary : string)
| OExit (code : Z).

(** [p.done] made, its context cancelled, [p.done] closed, [p.stopping], the
    history file, and whether the process has exited: nothing runs after. *)
Record Program := MkProgram {
  started : bool;
  cancelled : bool;
  closed : bool;
  stopping : bool;
  file : history_file;
  exited : bool;
  trace : list obs
}.

Definition New : history_file → Program := λ f, MkProgram false false false false f false [].

Record answers := {
  an_now : Z;
  an_spec : result string;
  an_process : process_answers;
  an_panic : option (string * string);
  an_write : option (string * goerror);
  an_clear : option goerror
}.

Inductive thread := TStart | TStop | TRun.

Definition proc (A : Type) : Type := prog Program answers thread A.

(** An action of a process that has not exited. *)
Definition section {R} (f : answers → Program → R * Program * list thread) : proc R :=
  atomically (λ env p, if exited p then None else Some (f env p)).

Definition emit (o : obs) (p : Program) : Program :=
  MkProgram (started p) (cancelled p) (closed p) (stopping p) (file p) (exited p) (o :: trace p).
Definition set_stopping (p : Program) : Program :=
  MkProgram (started p) (cancelled p) (closed p) true (file p) (exited p) (trace p).
Definition set_cancelled (p : Program) : Program :=
  MkProgram (started p) true (closed p) (stopping p) (file p) (exited p) (trace p).
Definition set_closed (p : Program) : Program :=
  MkProgram (started p) (cancelled p) true (stopping p) (file p) (exited p) (trace p).
Definition set_file (f : history_file) (p : Program) : Program :=
  MkProgram (started p) (cancelled p) (closed p) (stopping p) f (exited p) (trace p).
(** [os.Exit] *)
Definition exit (code : Z) (p : Program) : Program :=
  MkProgram (started p) (cancelled p) (closed p) (stopping p) (file p) true (OExit code :: trace p).

Section program.
Variable interactive : bool.

(** A second [Start] is an error. *)
Definition Start : proc bool :=
  section (λ _ p,
    if started p then (false, p, [])
    else (true, MkProgram true false false false (file p) false (OStarted :: trace p), [TRun])).

(** [stopCrashLoop], with no [terminateClean]: the process exits cleanly. *)
Definition stopCrashLoop (summary : string) : proc unit :=
  let summary := sanitizeLogText summary in
  let* go := section (λ _ p, if stopping p then (false, p, [])
                             else (true, emit (OExhausted summary) (set_stopping p), [])) in
  if go : bool then section (λ _ p, (tt, exit 0 p, [])) else Ret tt.

(** [fail], with the [terminate] that [runService] sets. *)
Definition fail (message text : string) : proc unit :=
  let summary := message +:+ ": " +:+ sanitizeLogText text in
  let* go := section (λ _ p, if stopping p || cancelled p then (false, p, [])
                             else (true, emit (OFailed summary) (set_stopping p), [])) in
  if go : bool then
    section (λ env p,
      let '(code, _, f) := managedServiceExitCode interactive (an_write env) (an_now env) summary (file p) in
      (tt, exit code (set_file f p), []))
  else Ret tt.

(** The end of the context is what lets a supervision return without an error. *)
Definition run_result (env : answers) (p : Program) : option goerror :=
  superviseServiceWorker interactive (an_now env) (file p) (an_spec env) (an_process env).

(** The text of a panic: its value and the stack, within the bytes of a log
    record. *)
Definition panic_text (value stack : string) : string :=
  let separator := String "010" ("stack:" +:+ String "010" "") in
  let panicValue := truncateLogSummary (sanitizeLogText value) (maxServiceLogTailBytes / 4) in
  let budget := (maxServiceLogTailBytes - String.length "panic: " - String.length panicValue - String.length separator)%nat in
  "panic: " +:+ panicValue +:+ separator +:+ truncateLogSummary (sanitizeLogText stack) budget.

Definition runOrchestrator : proc unit :=
  let* r := section (λ env p, ((an_panic env, run_result env p), p, [])) in
  let* _ := match r with
            | (Some (value, stack), _) => fail "orchestrator panicked" (panic_text value stack)
            | (None, None) => Ret tt
            | (None, Some e) =>
                if bool_decide (is_Some (errors_as "main.recoveryExhaustedError" e))
                then stopCrashLoop (error_text e)
                else fail "orchestrator stopped with a fatal error" (error_text e)
            end in
  section (λ _ p, (tt, set_closed p, [])).

(** [Stop]; the wait for [done] has a timeout and is left out. *)
Definition Stop : proc unit :=
  let* _ := section (λ _ p, (tt, emit OStopped (set_stopping p), [])) in
  let* _ := section (λ _ p, (tt, if started p then set_cancelled p else p, [])) in
  section (λ env p, (tt, set_file (ClearFailures (an_clear env) (file p)).2 p, [])).

Definition body (t : thread) : proc unit :=
  match t with
  | TStart => let* _ := Start in Ret tt
  | TStop => Stop
  | TRun => runOrchestrator
  end.
End program.

Definition call (t : thread) : Prop := match t with TStart | TStop => True | TRun => False end.

(** ** The lives of a service *)

(** How a life goes: what is around the supervision fails or the orchestrator
    panics, or it supervises the worker. *)
Inductive course :=
| Around (step : service_step) (e : goerror)
| Panicked (value stack : string)
| Supervised (spec : result string) (a : process_answers).
(** One life, from its start to its end, under a service manager that starts
    the next one after a failure; what fails when the history is read for the
    supervision, read again for the failure, and written. *)
Record life := Life {
  lf_start : Z;
  lf_course : course;
  lf_end : Z;
  lf_read : option goerror;
  lf_reread : option goerror;
  lf_write : option (string * goerror)
}.

Definition seen (failed : option goerror) (f : history_file) : history_file :=
  match failed with Some e => Unreadable e | None => f end.
(** An exit that records the failure, when the history can be read. *)
Definition record_exit (l : life) (summary : string) (f : history_file) : Z * history_file :=
  let '(code, _, f') := managedServiceExitCode false (lf_write l) (lf_end l) summary (seen (lf_reread l) f) in
  (code, match lf_reread l with Some _ => f | None => f' end).
(** Its exit code and the history file it leaves. *)
Definition live (f : history_file) (l : life) : Z * history_file :=
  match lf_course l with
  | Around step e =>
      let '(code, _, f') := main_exit false (lf_write l) (lf_end l) (Some (runService_error step e)) (seen (lf_reread l) f) in
      (code, match lf_reread l with Some _ => f | None => f' end)
  | Panicked value stack => record_exit l ("orchestrator panicked: " +:+ panic_text value stack) f
  | Supervised spec a =>
      match superviseServiceWorker false (lf_start l) (seen (lf_read l) f) spec a with
      | None => (0, f)
      | Some e =>
          if bool_decide (is_Some (errors_as "main.recoveryExhaustedError" e)) then (0, f)
          else record_exit l ("orchestrator stopped with a fatal error: " +:+ sanitizeLogText (error_text e)) f
      end
  end.

(** A life that supervises the worker, with a history that can be read and
    written. *)
Definition counted (l : life) : bool :=
  match lf_course l with Supervised _ _ => true | _ => false end &&
  bool_decide (lf_read l = None ∧ lf_reread l = None ∧ lf_write l = None).
(** The times at which such lives failed. *)
Fixpoint fatal (f : history_file) (lives : list life) : list Z :=
  match lives with
  | [] => []
  | l :: lives =>
      let '(code, f) := live f l in
      if counted l && negb (code =? 0) then lf_end l :: fatal f lives else fatal f lives
  end.

(** Each life follows the one before. *)
Fixpoint in_order (t : Z) (lives : list life) : Prop :=
  match lives with
  | [] => True
  | l :: lives => t ≤ lf_start l ∧ lf_start l ≤ lf_end l ∧ in_order (lf_end l) lives
  end.

Lemma recent_app a b now : recentFailures (a ++ b) now = recentFailures a now ++ recentFailures b now.
Proof. unfold recentFailures. by rewrite filter_app. Qed.

(** Failures of the past leave the window as time goes on. *)
Lemma recent_later l now now' :
  Forall (λ t, t ≤ now) l → now ≤ now' → (length (recentFailures l now') ≤ length (recentFailures l now))%nat.
Proof.
  intros Hl Hn. induction Hl as [|t l Ht _ IH]; [done|]. unfold recentFailures in *. rewrite !filter_cons.
  destruct (decide _) as [Hd|Hd]; destruct (decide _) as [He|He]; cbn [length]; lia.
Qed.

(** The stored failures, looked at from [now] on, are those of the past. *)
Definition recalls (f : history_file) (past : list Z) (now : Z) : Prop :=
  ∃ h, readFailureHistory f = Ok h ∧ ∀ t, now ≤ t → recentFailures (Failures h) t = recentFailures past t.

(** Looking back at [now] and then later is looking back later. *)
Lemma recent_recent l now t :
  Forall (λ x, x ≤ now) l → now ≤ t → recentFailures (recentFailures l now) t = recentFailures l t.
Proof.
  intros Hl Hn. induction Hl as [|x l Hx _ IH]; [done|]. unfold recentFailures in *.
  rewrite (filter_cons _ x l). destruct (decide _) as [Hd|Hd].
  - rewrite !filter_cons. by destruct (decide _); [f_equal|].
  - rewrite filter_cons. destruct (decide _) as [He|He]; [|done].
    rewrite andb_true_iff, Z.ltb_lt, Z.leb_le in Hd, He. lia.
Qed.

(** The history after a life that starts before [t]: as it was, or with the
    failure of the life, even one that is not counted. *)
Lemma record_keeps l summary f past :
  recalls f past (lf_end l) → Forall (λ x, x ≤ lf_end l) past →
  let r := record_exit l summary f in
  r.1 = FailureExitCode ∧
  (r.2 = f ∧ (lf_reread l ≠ None ∨ lf_write l ≠ None) ∨ recalls r.2 (past ++ [lf_end l]) (lf_end l)).
Proof.
  intros (h & Hr & Ht) Hp. cbv zeta. unfold record_exit, managedServiceExitCode, RecordFailure.
  destruct (lf_reread l) as [e|] eqn:He; cbn [seen readFailureHistory fst snd]; [split; [done|left; auto]|]. rewrite Hr.
  destruct (lf_write l) as [[step e]|] eqn:Hw; cbn [writeFailureHistory fst snd]; [split; [done|left; auto]|].
  split; [done|]. right. eexists. split; [done|].
  intros t Hle. cbn [Failures]. rewrite !recent_app, Ht, recent_recent by (done || lia). done.
Qed.

Lemma recalls_later f past now now' : now ≤ now' → recalls f past now → recalls f past now'.
Proof. intros Hn (h & Hr & Ht). exists h. split; [done|]. intros t Hle. apply Ht. lia. Qed.

(** What a life makes of the history. *)
Lemma live_history f past l :
  recalls f past (lf_end l) → Forall (λ x, x ≤ lf_end l) past →
  (live f l).2 = f ∧ (counted l = true → (live f l).1 = 0) ∨ recalls (live f l).2 (past ++ [lf_end l]) (lf_end l).
Proof.
  intros Hrec Hp. unfold live, counted. destruct (lf_course l) as [step e|value stack|spec a].
  - unfold main_exit. destruct (bool_decide _); [|by left; destruct (lf_reread l)].
    destruct (record_keeps l (error_text (runService_error step e)) f past Hrec Hp) as [_ [[Hf _]|Hf]]; [left|by right].
    unfold record_exit in Hf. by destruct (managedServiceExitCode _ _ _ _ _) as [[]].
  - destruct (record_keeps l ("orchestrator panicked: " +:+ panic_text value stack) f past Hrec Hp) as [_ [[Hf _]|Hf]]; [by left|by right].
  - destruct (superviseServiceWorker _ _ _ _ _) as [e|]; [|by left]. destruct (bool_decide (is_Some _)); [by left|].
    destruct (record_keeps l ("orchestrator stopped with a fatal error: " +:+ sanitizeLogText (error_text e)) f past Hrec Hp)
      as [_ [[Hf Hn]|Hf]]; [left|by right]. split; [done|]. intros Hc%andb_true_iff. destruct Hc as [_ Hc%bool_decide_eq_true]. naive_solver.
Qed.

(** A life that counts fails only while fewer than four failures are recorded. *)
Lemma live_fatal f past l :
  recalls f past (lf_start l) → counted l = true → (live f l).1 ≠ 0 →
  Z.of_nat (length (recentFailures past (lf_start l))) < CrashLoopFailureCount.
Proof.
  intros (h & Hr & Ht) Hc Hl. unfold counted, live in *. destruct (lf_course l) as [| |spec a]; [done..|].
  apply andb_true_iff in Hc as [_ (Hn & _)%bool_decide_eq_true]. rewrite Hn in Hl. cbn [seen] in Hl.
  unfold superviseServiceWorker, FailureCount, ReadFailureStatus in Hl. rewrite Hr in Hl. cbn [Count] in Hl. rewrite Ht in Hl by lia.
  by destruct (Z.leb_spec CrashLoopFailureCount (Z.of_nat (length (recentFailures past (lf_start l))))).
Qed.

Lemma recent_sublist a b now : a `sublist_of` b → (length (recentFailures a now) ≤ length (recentFailures b now))%nat.
Proof.
  intros Hs. unfold recentFailures. induction Hs as [|x a b Hs IH|x a b Hs IH]; [done| |]; rewrite ?filter_cons; repeat case_decide; cbn [length]; lia.
Qed.

(** One more failure does not pass the bound, when there were fewer than four
    before it. *)
Lemma recent_snoc counts start now w :
  (∀ w, Z.of_nat (length (recentFailures counts w)) ≤ CrashLoopFailureCount) →
  Forall (λ t, t ≤ start) counts → start ≤ now → Z.of_nat (length (recentFailures counts start)) < CrashLoopFailureCount →
  Z.of_nat (length (recentFailures (counts ++ [now]) w)) ≤ CrashLoopFailureCount.
Proof.
  intros Hb Hp Hn Hlt. rewrite recent_app, length_app. destruct (decide (now ≤ w)) as [Hv|Hv].
  - pose proof (recent_later counts start w Hp ltac:(lia)).
    assert (length (recentFailures [now] w) ≤ 1)%nat by (apply (length_filter _ [now])). lia.
  - assert (recentFailures [now] w = []) as ->; [unfold recentFailures; rewrite filter_cons, decide_False; [done|lia]|].
    rewrite Nat.add_0_r. apply Hb.
Qed.

Lemma fatal_bounded lives f past counts now w :
  recalls f past now → Forall (λ t, t ≤ now) past → counts `sublist_of` past → in_order now lives →
  (∀ w, Z.of_nat (length (recentFailures counts w)) ≤ CrashLoopFailureCount) →
  Z.of_nat (length (recentFailures (counts ++ fatal f lives) w)) ≤ CrashLoopFailureCount.
Proof.
  revert f past counts now. induction lives as [|l lives IH]; intros f past counts now Hrec Hp Hsub Hord Hb; cbn [fatal].
  { by rewrite app_nil_r. }
  destruct Hord as (Hs & He & Hord). pose proof (recalls_later _ _ _ (lf_start l) Hs Hrec) as Hrec1.
  pose proof (recalls_later _ _ _ (lf_end l) He Hrec1) as Hrec2.
  assert (Forall (λ t, t ≤ lf_start l) past) as Hp1 by (eapply Forall_impl; [exact Hp|]; cbn; lia).
  assert (Forall (λ t, t ≤ lf_end l) past) as Hp2 by (eapply Forall_impl; [exact Hp|]; cbn; lia).
  pose proof (live_fatal f past l Hrec1) as Hf. pose proof (live_history f past l Hrec2 Hp2) as Hh.
  destruct (live f l) as [code f'] eqn:El. cbn [fst snd] in *.
  destruct (counted l && negb (code =? 0)) eqn:Hc.
  - apply andb_true_iff in Hc as [Hc Hz]. apply negb_true_iff, Z.eqb_neq in Hz. specialize (Hf Hc Hz).
    destruct Hh as [[_ Hx]|Hh]; [by apply Hx in Hc|]. change (counts ++ lf_end l :: fatal f' lives) with (counts ++ [lf_end l] ++ fatal f' lives).
    rewrite app_assoc. apply (IH _ (past ++ [lf_end l]) _ (lf_end l)); [done| |by apply sublist_app|done|].
    + apply Forall_app. split; [done|by repeat constructor].
    + intros v. pose proof (recent_sublist _ _ (lf_start l) Hsub). apply (recent_snoc _ (lf_start l)); [done| |done|lia].
      rewrite Forall_forall in Hp1. apply Forall_forall. intros x Hx. by eapply Hp1, elem_of_sublist.
  - destruct Hh as [[-> _]|Hh]; [by apply (IH _ past _ (lf_end l))|]. apply (IH _ (past ++ [lf_end l]) _ (lf_end l)); [done| | |done..].
    + apply Forall_app. split; [done|by repeat constructor].
    + by apply sublist_inserts_r.
Qed.

(** The times in the ten minutes up to [w]. *)
Definition within (w : Z) (times : list Z) : list Z := filter (λ t, w - 10 * 60 * 1000000000 < t ∧ t ≤ w) times.
Lemma recent_within times w : recentFailures times w = within w times.
Proof.
  unfold recentFailures, within, FailureWindow. apply list_filter_iff. intros t. rewrite andb_true_iff, Z.ltb_lt, Z.leb_le. lia.
Qed.


Definition demo_process : process_answers :=
  {| pa_pipe := None; pa_control := None; pa_start := None; pa_attach := None; pa_exited := true;
     pa_wait := Some (errorf "exit status 2"); pa_left := true; pa_kill := None; pa_left_late := true;
     pa_reason := "service_worker_exit exit_code=2"; pa_tail := "" |}.
(** A life that starts [t] seconds after the first and fails a second later. *)
Definition demo_life (t : Z) : life :=
  Life (t * 10 ^ 9) (Supervised (Ok "/bin/multirunner") demo_process) ((t + 1) * 10 ^ 9) None None None.
(** One that fails before there is a worker. *)
Definition demo_logger (t : Z) : life :=
  Life (t * 10 ^ 9) (Around StepLogger (errorf "no system log")) ((t + 1) * 10 ^ 9) None None None.

Definition demo_lives : list life := demo_life <$> [0; 16; 32; 48; 64; 80].


(** The failures before there is a worker have no bound of their own. *)
Example logger_loop : (live (foldl (λ f t, (live f (demo_logger t)).2) Absent [0; 16; 32; 48; 64; 80]) (demo_logger 96)).1 = FailureExitCode.
Proof. vm_compute. reflexivity. Qed.

(** ** One exit *)

(** The decisions to exit since the start, and whether a stop came since. *)
Fixpoint decisions (tr : list obs) : nat :=
  match tr with
  | (OFailed _ | OExhausted _) :: tr => S (decisions tr)
  | _ :: tr => decisions tr
  | [] => 0
  end.
Fixpoint stopped (tr : list obs) : bool :=
  match tr with
  | OStopped :: _ => true
  | OStarted :: _ => false
  | _ :: tr => stopped tr
  | [] => false
  end.

(** What a trace of the program may hold, latest first. *)
Definition legal_obs (o : obs) (tr : list obs) : Prop :=
  match o with
  | OStarted => OStarted ∉ tr
  | OStopped => True
  | OFailed _ | OExhausted _ => OStarted ∈ tr ∧ stopped tr = false ∧ decisions tr = 0%nat
  | OExit code =>
      (∀ c, OExit c ∉ tr) ∧
      (code = 0 ∧ (∃ s, OExhausted s ∈ tr) ∨ code = FailureExitCode ∧ (∃ s, OFailed s ∈ tr))
  end.
Fixpoint legal (tr : list obs) : Prop :=
  match tr with [] => True | o :: tr => legal_obs o tr ∧ legal tr end.

Definition inv (p : Program) : Prop :=
  legal (trace p) ∧ (started p = true ↔ OStarted ∈ trace p) ∧
  (stopping p = false → started p = true → stopped (trace p) = false) ∧
  (stopping p = false ∨ started p = false → decisions (trace p) = 0%nat) ∧
  (exited p = false → ∀ c, OExit c ∉ trace p).

Definition grows (p p' : Program) : Prop := ∃ tr, trace p' = tr ++ trace p.

#[export] Instance grows_preorder : PreOrder grows.
Proof.
  split; [by exists []|]. intros a b c [x Hx] [y Hy]. exists (y ++ x). by rewrite Hy, Hx, app_assoc.
Qed.

Definition pre (t : thread) (p : Program) : Prop :=
  match t with TRun => OStarted ∈ trace p | _ => True end.

Lemma elem_grows o p p' : grows p p' → o ∈ trace p → o ∈ trace p'.
Proof. intros [tr ->] Ho. apply elem_of_app. by right. Qed.

Section once.
Variable interactive : bool.
Notation ok := (ok (λ _ _, True) inv grows pre).

(** A section keeps the invariant. *)
Lemma ok_section {R A} p0 (f : answers → Program → R * Program * list thread) (k : R → proc A) Q :
  (∀ env p, grows p0 p → inv p → exited p = false → inv (f env p).1.2 ∧ grows p (f env p).1.2 ∧
     Forall (λ t, pre t (f env p).1.2) (f env p).2 ∧ ok (f env p).1.2 (k (f env p).1.1) Q) →
  ok p0 (pbind (section f) k) Q.
Proof.
  intros Hf env p r p' sp Hg Hi _ Hst. destruct (exited p) eqn:Ee; [done|]. injection Hst as Hst.
  pose proof (Hf env p Hg Hi Ee) as Hp. by rewrite Hst in Hp.
Qed.

Lemma ok_last p0 (f : answers → Program → unit * Program * list thread) :
  (∀ env p, grows p0 p → inv p → exited p = false → inv (f env p).1.2 ∧ grows p (f env p).1.2 ∧
     (f env p).2 = []) → ok p0 (section f) (λ _ _, True).
Proof.
  intros Hf env p r p' sp Hg Hi _ Hst. destruct (exited p) eqn:Ee; [done|]. injection Hst as Hst.
  destruct (Hf env p Hg Hi Ee) as (H1 & H2 & H3). rewrite Hst in *. cbn in *. subst sp.
  split; [done|split; [done|split; [constructor|done]]].
Qed.

(** A decision to exit, the one of the program. *)
Lemma inv_decide o p :
  match o with OFailed _ | OExhausted _ => True | _ => False end →
  inv p → OStarted ∈ trace p → stopping p = false → inv (emit o (set_stopping p)).
Proof.
  intros Ho (Hl & Hst & Hs & Hd & He) Hin Hp. assert (started p = true) as Hstart by by apply Hst.
  split; [cbn [emit trace set_stopping legal]; split; [|done]|].
  { destruct o; try done; (split; [done|split; [by apply Hs|by apply Hd; left]]). }
  cbn [emit set_stopping started trace stopping exited]. split_and!.
  - rewrite elem_of_cons. naive_solver.
  - done.
  - intros [[=]|Hf]. congruence.
  - intros Hx c [<-|Hc]%elem_of_cons; [done|by apply (He Hx c)].
Qed.

Lemma inv_exit code p :
  inv p → exited p = false → OStarted ∈ trace p →
  (code = 0 ∧ (∃ s, OExhausted s ∈ trace p) ∨ code = FailureExitCode ∧ (∃ s, OFailed s ∈ trace p)) →
  inv (exit code p).
Proof.
  intros (Hl & Hst & Hs & Hd & He) Hx Hin Hc. split; [split; [split; [by apply He|done]|done]|].
  cbn [exit started trace stopping exited]. split_and!.
  - rewrite elem_of_cons. naive_solver.
  - done.
  - done.
  - done.
Qed.

Lemma grows_decide o p : grows p (emit o (set_stopping p)).
Proof. by exists [o]. Qed.

Lemma ok_stopCrashLoop p0 summary : OStarted ∈ trace p0 → ok p0 (stopCrashLoop summary) (λ _ _, True).
Proof.
  intros Hin. apply ok_section. intros env p Hg Hi Hx. pose proof (elem_grows _ _ _ Hg Hin) as Hin'.
  destruct (stopping p) eqn:Es; cbn [fst snd]; [split; [done|split; [reflexivity|split; [constructor|done]]]|].
  split; [by apply inv_decide|split; [apply grows_decide|split; [constructor|]]].
  apply ok_last. intros env' u Hg' Hi' Hx'. cbn [fst snd]. split; [|split; [by eexists [_]|done]].
  apply inv_exit; [done|done| |].
  - eapply elem_grows; [exact Hg'|]. by right.
  - left. split; [done|]. exists (sanitizeLogText summary). eapply elem_grows; [exact Hg'|]. left.
Qed.

Lemma ok_fail p0 message text : OStarted ∈ trace p0 → ok p0 (fail interactive message text) (λ _ _, True).
Proof.
  intros Hin. apply ok_section. intros env p Hg Hi Hx. pose proof (elem_grows _ _ _ Hg Hin) as Hin'.
  destruct (stopping p) eqn:Es; cbn [orb]; [split; [done|split; [reflexivity|split; [constructor|done]]]|].
  destruct (cancelled p); cbn [fst snd]; [split; [done|split; [reflexivity|split; [constructor|done]]]|].
  split; [by apply inv_decide|split; [apply grows_decide|split; [constructor|]]].
  apply ok_last. intros env' u Hg' Hi' Hx'.
  assert (∀ w n t f, ∃ x, managedServiceExitCode interactive w n t f = (FailureExitCode, x.1, x.2)) as He.
  { intros w n t f. unfold managedServiceExitCode. destruct interactive; [by exists (None, f)|].
    destruct (RecordFailure _ _ _ _) as [x y]. by exists (x, y). }
  destruct (He (an_write env') (an_now env') (message +:+ ": " +:+ sanitizeLogText text) (file u)) as [x ->].
  cbn [fst snd]. split; [|split; [by eexists [_]|done]].
  apply (inv_exit FailureExitCode (set_file _ u)); [done|done| |].
  - eapply elem_grows; [exact Hg'|]. by right.
  - right. split; [done|]. eexists. eapply elem_grows; [exact Hg'|]. left.
Qed.

Lemma ok_run p0 : OStarted ∈ trace p0 → ok p0 (runOrchestrator interactive) (λ _ _, True).
Proof.
  intros Hin. apply ok_section. intros env p Hg Hi Hx. pose proof (elem_grows _ _ _ Hg Hin) as Hin'.
  cbn [fst snd]. split; [done|split; [reflexivity|split; [constructor|]]].
  apply ok_seq; [apply _|]. eapply ok_weaken; [apply _| |].
  2:{ destruct (an_panic env) as [[value stack]|]; [by apply ok_fail|].
      destruct (run_result interactive env p) as [e|]; [|by intros u _ _].
      destruct (bool_decide _); [by apply ok_stopCrashLoop|by apply ok_fail]. }
  intros [] u _ _ _. apply ok_last. intros env' v _ Hi' _. split; [exact Hi'|by split; [exists []|]].
Qed.

Lemma ok_start p0 : ok p0 (let* _ := Start in Ret tt) (λ _ _, True).
Proof.
  apply ok_section. intros env p Hg (Hl & Hst & Hs & Hd & He) Hx.
  destruct (started p) eqn:Est; cbn [fst snd].
  { split; [red; by rewrite Est|]. split; [reflexivity|split; [constructor|done]]. }
  assert (OStarted ∉ trace p) as Hn by (intros Hin; apply Hst in Hin; congruence).
  split; [|split; [by exists [OStarted]|split; [repeat constructor|done]]].
  split; [by split|]. cbn [started trace stopping exited]. split_and!.
  - split; [by left|done].
  - done.
  - intros _. apply Hd. by right.
  - intros _ c [|Hc]%elem_of_cons; [done|by apply (He Hx c)].
Qed.

Lemma ok_stop p0 : ok p0 Stop (λ _ _, True).
Proof.
  apply ok_section. intros env p Hg (Hl & Hst & Hs & Hd & He) Hx. cbn [fst snd].
  split; [|split; [by exists [OStopped]|split; [constructor|]]].
  { split; [by split|]. cbn [emit set_stopping started trace stopping exited]. split_and!.
    - rewrite elem_of_cons. naive_solver.
    - done.
    - intros [[=]|Hn]. cbn. apply Hd. by right.
    - intros _ c [|Hc]%elem_of_cons; [done|by apply (He Hx c)]. }
  apply ok_section. intros env1 p1 _ Hi1 _. cbn [fst snd].
  split; [by destruct (started p1)|split; [by exists []; destruct (started p1)|split; [constructor|]]].
  apply ok_last. intros env2 p2 _ Hi2 _. split; [exact Hi2|by split; [exists []|]].
Qed.

(** The program, with any calls of the service manager. *)
Definition reaches (f : history_file) (c : Threads.config Program answers thread) : Prop :=
  reachable (body interactive) call (λ _ _, True) (New f) c.

Lemma program_inv f c : reaches f c → inv (mem c).
Proof.
  intros Hr. eapply (reachable_inv (body interactive) call (λ _ _, True) inv grows pre) in Hr;
    [by apply Hr|apply _| | | |].
  - intros [] p p' Hp Hg; [done|done|]. by eapply elem_grows.
  - split; [done|]. cbn. split; [|by split_and!; try (intros _ ?; apply not_elem_of_nil)]. split; [done|]. by intros ?%not_elem_of_nil.
  - intros [] p Hp; [apply ok_start|apply ok_stop|by apply ok_run].
  - by intros [] p.
Qed.
End once.

Lemma legal_decisions tr : legal tr → (decisions tr ≤ 1)%nat.
Proof.
  induction tr as [|o tr IH]; [cbn; lia|]. intros [Ho Hl]. specialize (IH Hl).
  destruct o; cbn in *; [lia|lia| | |lia]; destruct Ho as (_ & _ & ->); lia.
Qed.

(** However starts, stops and the orchestrator interleave, the program
    decides to exit at most once, after its one start and never after a stop;
    its process exits with the failure code after a fatal error, and with that
    of a clean stop only when the recovery is exhausted. *)
Theorem program_exits_once interactive f c :
  reaches interactive f c → legal (trace (mem c)) ∧ (decisions (trace (mem c)) ≤ 1)%nat.
Proof. intros Hr. destruct (program_inv _ _ _ Hr) as [Hl _]. split; [done|by apply legal_decisions]. Qed.

Definition demo_answers : answers :=
  {| an_now := 7; an_spec := Ok "/bin/multirunner"; an_process := demo_process; an_panic := None;
     an_write := None; an_clear := None |}.
Definition demo_program : Threads.config Program answers thread :=
  default (Config (New Absent) [])
    (run (body false) (inl TStart :: inl TStart :: replicate 1 (inr (0%nat, demo_answers)) ++
       [inr (1%nat, demo_answers)] ++ replicate 3 (inr (2%nat, demo_answers))) (Config (New Absent) [])).

Lemma program_exits_once_witness :
  decisions (trace (mem demo_program)) = 1%nat ∧ exited (mem demo_program) = true ∧
  (decisions (trace (mem demo_program)) ≤ 1)%nat.
Proof.
  split; [vm_compute; reflexivity|split; [vm_compute; reflexivity|]].
  apply (program_exits_once false Absent demo_program). unfold reaches.
  eapply (run_reachable _ _ _ _ (inl TStart :: inl TStart :: replicate 1 (inr (0%nat, demo_answers)) ++
       [inr (1%nat, demo_answers)] ++ replicate 3 (inr (2%nat, demo_answers))) (Config (New Absent) []));
    [apply reach_init| |vm_compute; reflexivity].
  apply admitted_always. repeat constructor.
Defined.
