(* ===== verification/Doctor.v ===== *)
(** * doctor

    The preflight of [cmd/multirunner/main.go]: the pools, the service, and the
    checks of the configured repositories, which run side by side under a
    budget of time.

    The checks of the repositories are goroutines that share eight slots.  Their
    state carries a clock; time passes only when nothing else can happen, and a
    check takes any time up to its own limit. *)

From S2P Require Import Prelude GoErr GoStr ImageVersions Config GitHub Redact ServiceHost GhApp Containers.

Local Open Scope Z_scope.
Local Open Scope go_scope.

(** ** The budget of a phase *)

Definition remoteCheckTimeout : Z := 90 * 10 ^ 9.
Definition remoteRepoCheckTimeout : Z := 20 * 10 ^ 9.
Definition repoCheckConcurrency : nat := 8.

Definition remoteCheckBudget (repos : nat) : Z :=
  let waves := (Z.of_nat repos + Z.of_nat repoCheckConcurrency - 1) `quot` Z.of_nat repoCheckConcurrency in
  let budget := wrap64 (waves * remoteRepoCheckTimeout) in
  if remoteCheckTimeout <? budget then budget else remoteCheckTimeout.

(** ** The checks of the repositories *)

(** How the check of a repository ended: with its own answer, cut off after the
    time it had, or without a slot. *)
Inductive ending := Answered (r : result bool) | TimedOut (after : Z) | NoSlot.

(** A check that has a slot: its repository, its start and the time it would
    take. *)
Record check := Check { ck_repo : nat; ck_start : Z; ck_takes : Z }.
Record checks := MkChecks { clock : Z; waiting : list nat; running : list check; ended : gmap nat ending }.
Definition start_checks (repos : nat) : checks := MkChecks 0 (seq 0 repos) [] ∅.

Section checks.
(** What the check of each repository answers, and the end of the phase. *)
Variable answer : nat → result bool.
Variable deadline : Z.

(** [context.WithTimeout(ctx, remoteRepoCheckTimeout)] *)
Definition allowed (start : Z) : Z := Z.min remoteRepoCheckTimeout (deadline - start).
Definition ends_at (k : check) : Z := ck_start k + Z.min (ck_takes k) (allowed (ck_start k)).
Definition slot_free (c : checks) : Prop := (length (running c) < repoCheckConcurrency)%nat.
(** Something can happen now. *)
Definition due (c : checks) : Prop :=
  (waiting c ≠ [] ∧ (slot_free c ∨ deadline ≤ clock c)) ∨ ∃ k, k ∈ running c ∧ ends_at k ≤ clock c.
Definition finished (c : checks) : Prop := waiting c = [] ∧ running c = [].

Inductive check_step : checks → checks → Prop :=
| take_slot t l1 i l2 ks e takes :
    slot_free (MkChecks t (l1 ++ i :: l2) ks e) → 0 ≤ takes →
    check_step (MkChecks t (l1 ++ i :: l2) ks e) (MkChecks t (l1 ++ l2) (ks ++ [Check i t takes]) e)
| no_slot t l1 i l2 ks e :
    deadline ≤ t →
    check_step (MkChecks t (l1 ++ i :: l2) ks e) (MkChecks t (l1 ++ l2) ks (<[i := NoSlot]> e))
| answers t w k1 k k2 e :
    ck_start k + ck_takes k ≤ t → ck_takes k ≤ allowed (ck_start k) →
    check_step (MkChecks t w (k1 ++ k :: k2) e) (MkChecks t w (k1 ++ k2) (<[ck_repo k := Answered (answer (ck_repo k))]> e))
| times_out t w k1 k k2 e :
    ck_start k + allowed (ck_start k) ≤ t → allowed (ck_start k) ≤ ck_takes k →
    check_step (MkChecks t w (k1 ++ k :: k2) e) (MkChecks t w (k1 ++ k2) (<[ck_repo k := TimedOut (allowed (ck_start k))]> e))
| time_passes t w ks e :
    ¬ due (MkChecks t w ks e) → ¬ finished (MkChecks t w ks e) →
    check_step (MkChecks t w ks e) (MkChecks (t + 1) w ks e).
End checks.

(** [repoCheckResult], by the order of the repositories. *)
Record repoCheckResult := CheckResult { cr_name : string; cr_ok : bool; cr_err : option goerror }.
Definition err_deadline : goerror := ENew "context.DeadlineExceeded" "context deadline exceeded".
Definition check_result (ref : RepoRef) (e : option ending) : repoCheckResult :=
  match e with
  | Some (Answered (Ok ok)) => CheckResult (slug ref) ok None
  | Some (Answered (Err err)) => CheckResult (slug ref) false (Some err)
  | Some (TimedOut _) | Some NoSlot => CheckResult (slug ref) false (Some err_deadline)
  | None => CheckResult "" false None
  end.
Definition runRepoChecks (refs : list RepoRef) (c : checks) : list repoCheckResult :=
  imap (λ i ref, check_result ref (ended c !! i)) refs.

(** ** What is asked of a repository *)

(** [filepath.Ext] *)
Fixpoint ext_from (s : string) (ext : string) : string :=
  match s with
  | "" => ext
  | String c s' => ext_from s' (if Ascii.eqb c "/" then "" else if Ascii.eqb c "." then s else ext)
  end.
Definition Ext (path : string) : string := ext_from path "".

Definition is_workflow (path : string) : bool :=
  has_prefix ".github/workflows/" path && bool_mem (to_lower (Ext path)) [".yml"; ".yaml"].
(** [file p]: what [RepoFile] of [p] returns. *)
Fixpoint scan_files (file : string → result string) (paths : list string) : result bool :=
  match paths with
  | [] => Ok false
  | p :: paths =>
      if negb (is_workflow p) then scan_files file paths
      else match file p with
           | Err e => Err e
           | Ok body => if contains (to_lower body) "self-hosted" then Ok true else scan_files file paths
           end
  end.
Definition repoTargetsSelfHosted (paths : result (list string)) (file : string → result string) : result bool :=
  match paths with Err e => Err e | Ok paths => scan_files file paths end.

Definition usesSharedRepoApp (auth : Auth) : bool :=
  IsDeviceApp auth && (is_empty (ClientID auth) || String.eqb (ClientID auth) DefaultPersonalClientID).

(** ** The phases *)

Definition repo_scoped (cfg : Config) : bool :=
  String.eqb (gh_Scope (cfg_GitHub cfg)) ScopeRepo || String.eqb (gh_Scope (cfg_GitHub cfg)) ScopeRepos.

(** [checkRunnerAccess]; [access] is what the client or its call answers. *)
Definition checkRunnerAccess (cfg : Config) (access : result unit) : option goerror :=
  let scope := gh_Scope (cfg_GitHub cfg) in
  if negb (String.eqb scope ScopeOrg) && negb (String.eqb scope ScopeEnterprise) then None
  else match access with
       | Ok _ => None
       | Err _ => Some (errorf (scope +:+ " runner access check failed"))
       end.

Definition failed_check (r : repoCheckResult) : bool := match cr_err r with Some _ => true | None => false end.
Definition disabled_repo (r : repoCheckResult) : bool := negb (failed_check r) && negb (cr_ok r).
Definition count (p : repoCheckResult → bool) (l : list repoCheckResult) : nat := length (filter (λ r, p r = true) l).

Definition checkActionsEnabled (cfg : Config) (results : list repoCheckResult) : option goerror :=
  if negb (repo_scoped cfg) then None
  else
    let disabled := count disabled_repo results in
    let incomplete := count failed_check results in
    if ((0 <? disabled) || (0 <? incomplete))%nat
    then Some (errorf ("actions checks failed: " +:+ format_int (Z.of_nat disabled) +:+ " disabled, " +:+
                       format_int (Z.of_nat incomplete) +:+ " incomplete"))
    else None.

(** A scan that the shared App may not make is skipped. *)
Definition skipped_scan (auth : Auth) (r : repoCheckResult) : bool :=
  match cr_err r with Some e => usesSharedRepoApp auth && errors_is "github.ErrContentsForbidden" e | None => false end.
Definition warnNoSelfHostedWorkflows (cfg : Config) (results : list repoCheckResult) : option goerror :=
  if negb (repo_scoped cfg) then None
  else
    let incomplete := count (λ r, failed_check r && negb (skipped_scan (cfg_Auth cfg) r)) results in
    if (0 <? incomplete)%nat then Some (errorf ("workflow scans incomplete for " +:+ format_int (Z.of_nat incomplete) +:+ " repo(s)")) else None.

Definition warnStarvedRepos (cfg : Config) : option goerror :=
  if negb (String.eqb (gh_Scope (cfg_GitHub cfg)) ScopeRepos) || IsAutoscale (cfg_Provisioning cfg) then None
  else
    let repos := Z.of_nat (length (gh_Repos (cfg_GitHub cfg))) in
    let starved := length (filter (λ p, Size p <? repos = true) (Pools cfg)) in
    if (0 <? starved)%nat then Some (errorf (format_int (Z.of_nat starved) +:+ " pool(s) cannot cover every configured repo")) else None.

(** ** The service *)

Inductive service_state := StatusUnknown | StatusRunning | StatusStopped.

(** The message, whether it is a problem, and whether there is a service. *)
Definition classifyServiceHealth (status : service_state) (err : option goerror) : string * bool * bool :=
  match err with
  | Some e => if errors_is "service.ErrNotInstalled" e then ("", false, false)
              else ("DEGRADED: " +:+ sanitizeLogText (error_text e), true, true)
  | None => match status with
            | StatusRunning => ("running", false, true)
            | StatusStopped => ("STOPPED", true, true)
            | StatusUnknown => ("DEGRADED: service state is unknown", true, true)
            end
  end.

(** [service]: the answer of the service manager, when there is one. *)
Definition service_ok (service : option (service_state * option goerror)) (recovery : result FailureStatus) : bool :=
  let '(_, unhealthy, installed) := match service with Some (status, err) => classifyServiceHealth status err | None => ("", false, false) end in
  negb unhealthy &&
  match recovery with
  | Err _ => negb installed
  | Ok st => negb (installed && (CrashLoopFailureCount <=? Count st)) && negb (installed && (0 <? Count st))
  end.

(** ** The pools *)

(** [winsetup.DaemonHint]: whether a reboot is pending, and the last status. *)
Definition DaemonHint (rebootPending : bool) (lastStatus : option string) : string :=
  if rebootPending then "Windows Containers feature enabled but REBOOT pending; reboot, then run: multirunner install-windows-daemon"
  else match lastStatus with
       | Some s =>
           if String.eqb s "reboot-required"
           then "Containers feature enabled, awaiting reboot; reboot, then run: multirunner install-windows-daemon"
           else if has_prefix "error" s
           then "previous install failed (" +:+ s +:+ "); re-run: multirunner install-windows-daemon"
           else "no Windows-container daemon; run: multirunner install-windows-daemon"
       | None => "no Windows-container daemon; run: multirunner install-windows-daemon"
       end.

Definition discoveryHint (pc : Pool) (found : list DockerEndpoint) : string :=
  if bool_mem (Backend pc) ["qemu"; "containerd"] then ""
  else match found with
       | [] => newline +:+ "        hint: no container daemon answered on this host; start Docker or Podman"
       | _ =>
           let entry ep :=
             newline +:+ "          " +:+ ep_Host ep +:+
             (if String.eqb (ep_OSType ep) (OS pc) then ""
              else "  (runs " +:+ ep_OSType ep +:+ " containers; this pool is " +:+ OS pc +:+ ")") in
           newline +:+ "        reachable daemons on this host:" +:+ String.concat "" (entry <$> found) +:+
           match filter (λ ep, ep_OSType ep = OS pc) found with
           | ep :: _ => newline +:+ "        hint: set pools[" +:+ quote (Name pc) +:+ "].docker.host to " +:+ ep_Host ep
           | [] => ""
           end
       end.

(** A backend that was made: its answers to [Ping] and [OSType]. *)
Record daemon := Daemon { dm_ping : option goerror; dm_os : result string }.

(** What is printed for a pool, and whether it is ready. *)
Definition pool_status (hint : string) (found : list DockerEndpoint) (pc : Pool) (d : daemon) : string * bool :=
  match dm_ping d with
  | Some e =>
      ("UNREACHABLE: " +:+ error_text e +:+ discoveryHint pc found +:+
       (if String.eqb (OS pc) "windows" && bool_mem (Backend pc) [""; "docker"] then newline +:+ "        hint: " +:+ hint
        else if String.eqb (Backend pc) "containerd"
        then newline +:+ "        hint: install containerd+nerdctl (`multirunner install-containerd`)" else ""), false)
  | None =>
      match dm_os d with
      | Err e => ("UNKNOWN MODE: " +:+ error_text e, false)
      | Ok os => if negb (String.eqb os (OS pc)) then ("WRONG MODE: daemon=" +:+ os +:+ " pool=" +:+ OS pc, false) else ("ok", true)
      end
  end.
Section preflight.
(** The embedded manifest of images. *)
Variable manifest : Manifest.

(** [made]: what [newBackend] returned. *)
Definition pool_line (hint : string) (found : list DockerEndpoint) (pc : Pool) (made : result (option daemon)) : string * bool :=
  match made with
  | Err e => ("[" +:+ Name pc +:+ "] backend error: " +:+ error_text e, false)
  | Ok None => ("[" +:+ Name pc +:+ "] os=" +:+ OS pc +:+ " UNKNOWN", false)
  | Ok (Some d) =>
      let '(status, ok) := pool_status hint found pc d in
      ("[" +:+ Name pc +:+ "] os=" +:+ OS pc +:+ " host=" +:+ Host (pool_Docker pc) +:+ " image=" +:+ ImageRef manifest pc +:+ " -> " +:+ status, ok)
  end.

(** ** The preflight *)

(** What doctor asks; the checks of the repositories end with their results. *)
Record doctor_answers := {
  da_service : option (service_state * option goerror);
  da_recovery : result FailureStatus;
  da_hint : string;
  da_found : Pool → list DockerEndpoint;
  da_backend : Pool → result (option daemon);
  da_access : result unit;
  da_actions : list repoCheckResult;
  da_workflows : list repoCheckResult
}.

Definition no_error (e : option goerror) : bool := match e with None => true | Some _ => false end.
Definition doctor (a : doctor_answers) (load : result Config) : option goerror :=
  let ok := service_ok (da_service a) (da_recovery a) in
  match load with
  | Err e => Some e
  | Ok cfg =>
      let pools := (λ pc, pool_line (da_hint a) (da_found a pc) pc (da_backend a pc)) <$> Pools cfg in
      let ok := ok && forallb snd pools && no_error (warnStarvedRepos cfg) &&
                no_error (checkRunnerAccess cfg (da_access a)) && no_error (checkActionsEnabled cfg (da_actions a)) &&
                no_error (warnNoSelfHostedWorkflows cfg (da_workflows a)) in
      if ok then None else Some (errorf "preflight found problems")
  end.
End preflight.
