(* ===== verification/DoctorSpec.v ===== *)
(** * The preflight

    The budget of a phase of doctor is enough: however the checks are scheduled
    and however long they take, each gets a slot in time and its full limit.
    And doctor passes exactly on what it promises to check. *)

From S2P Require Import Prelude GoErr GoStr ImageVersions Config ConfigSpec GitHub Redact ServiceHost Containers Doctor.

Local Open Scope Z_scope.

(** ** The budget *)

Local Notation L := remoteRepoCheckTimeout.
Local Notation K := repoCheckConcurrency.

Section budget.
Variable answer : nat → result bool.
Variable n : nat.
Hypothesis few : Z.of_nat n < 2 ^ 28.
Local Notation B := (remoteCheckBudget n).
Local Notation step := (check_step answer B).

(** The whole waves that [m] checks fill. *)
Definition waves (m : nat) : Z := Z.of_nat (m `div` K).
Definition started (c : checks) : nat := (n - length (waiting c))%nat.
Definition late (t : Z) (k : check) : bool := t <? ck_start k.

Lemma L_value : L = 20 * 10 ^ 9.
Proof. done. Qed.

Lemma budget_waves : (0 < n)%nat → waves (n - 1) * L + L ≤ B.
Proof using few.
  intros Hn. unfold remoteCheckBudget, waves. rewrite L_value. set (w := _ `quot` _).
  assert (w = Z.of_nat ((n - 1) `div` K) + 1) as Hw.
  { unfold w, K. rewrite Z.quot_div_nonneg, Nat2Z.inj_div by lia. rewrite <- (Z.div_add _ 1) by lia. f_equal. lia. }
  assert (Z.of_nat ((n - 1) `div` K) < 2 ^ 28) by (rewrite Nat2Z.inj_div; apply Z.div_lt_upper_bound; unfold K; lia).
  rewrite wrap64_id by (rewrite Hw; unfold int64_min, int64_max; lia). unfold remoteCheckTimeout.
  destruct (Z.ltb_spec (90 * 10 ^ 9) (w * (20 * 10 ^ 9))); lia.
Qed.

Lemma budget_positive : 0 < B.
Proof. unfold remoteCheckBudget, remoteCheckTimeout. destruct (Z.ltb_spec (90 * 10 ^ 9) (wrap64 ((Z.of_nat n + Z.of_nat K - 1) `quot` Z.of_nat K * L))); lia. Qed.

Lemma waves_mono m m' : (m ≤ m')%nat → waves m ≤ waves m'.
Proof. intros Hm. unfold waves. apply Nat2Z.inj_le, Nat.Div0.div_le_mono. done. Qed.

(** What holds in every state: at most eight checks run; a check that waits has
    waited through whole waves only; few of those that run have started late;
    each that runs has its full limit. *)
Record Inv (c : checks) : Prop := {
  inv_clock : 0 ≤ clock c;
  inv_waiting : (length (waiting c) ≤ n)%nat;
  inv_slots : (length (running c) ≤ K)%nat;
  inv_wait : waiting c ≠ [] → clock c ≤ waves (started c) * L;
  inv_late : ∀ j, (length (filter (λ k, late ((Z.of_nat j - 1) * L) k = true) (running c)) ≤ started c - j * K)%nat;
  inv_run : Forall (λ k, 0 ≤ ck_takes k ∧ ck_start k ≤ clock c ∧ ck_start k + L ≤ B) (running c);
  inv_bound : clock c ≤ B;
  inv_ended : ∀ i e, ended c !! i = Some e → e = Answered (answer i) ∨ e = TimedOut L;
  inv_repos : ∀ i, (i < n)%nat ↔ i ∈ waiting c ∨ i ∈ ck_repo <$> running c ∨ is_Some (ended c !! i)
}.

Lemma allowed_full k : ck_start k + L ≤ B → allowed B (ck_start k) = L.
Proof. unfold allowed. lia. Qed.

Lemma start_inv : Inv (start_checks n).
Proof.
  constructor; cbn.
  - done.
  - by rewrite length_seq.
  - lia.
  - intros _. unfold waves. rewrite L_value. lia.
  - intros j. cbn. lia.
  - constructor.
  - pose proof budget_positive. lia.
  - intros i e. by rewrite lookup_empty.
  - intros i. rewrite elem_of_seq, elem_of_nil, lookup_empty. split; [left; lia|]. intros [?|[[]|[? ?]]]; [lia|done].
Qed.

Lemma filter_app_late t l k : length (filter (λ k, late t k = true) (l ++ [k])) =
  (length (filter (λ k, late t k = true) l) + (if late t k then 1 else 0))%nat.
Proof. rewrite filter_app, length_app, filter_cons. f_equal. destruct (late t k); [by rewrite decide_True|by rewrite decide_False]. Qed.

(** A check that waits is before the last wave. *)
Lemma waiting_early c : Inv c → waiting c ≠ [] → clock c + L ≤ B.
Proof using few.
  intros Hi Hw. pose proof (inv_wait c Hi Hw). pose proof (inv_waiting c Hi) as Hn.
  assert (0 < length (waiting c))%nat as Hp by (destruct (waiting c); [done|cbn; lia]).
  pose proof (waves_mono (started c) (n - 1) ltac:(unfold started; lia)). pose proof (budget_waves ltac:(lia)). rewrite L_value in *. lia.
Qed.

Lemma take_slot_inv t l1 i l2 ks e takes : slot_free (MkChecks t (l1 ++ i :: l2) ks e) → 0 ≤ takes →
  Inv (MkChecks t (l1 ++ i :: l2) ks e) → Inv (MkChecks t (l1 ++ l2) (ks ++ [Check i t takes]) e).
Proof using few.
  intros Hf Ht Hi. pose proof (waiting_early _ Hi ltac:(by destruct l1)) as Hearly. destruct Hi as [H1 H2 H3 H4 H5 H6 H7 H8 H9].
  unfold slot_free in Hf. unfold started in *. cbn [clock waiting running ended] in *. rewrite length_app in *. cbn [length] in *.
  specialize (H4 ltac:(by destruct l1)).
  assert (waves (n - (length l1 + S (length l2))) ≤ waves (n - (length l1 + length l2))) as Hm by (apply waves_mono; lia).
  constructor; unfold started; cbn [clock waiting running ended]; rewrite ?length_app; cbn [length]; try done; try lia.
  - intros _. rewrite L_value in *. lia.
  - intros j. rewrite filter_app_late. specialize (H5 j). destruct (late ((Z.of_nat j - 1) * L) (Check i t takes)) eqn:Hl; [|lia].
    unfold late in Hl. cbn [ck_start] in Hl. apply Z.ltb_lt in Hl.
    assert (j * K ≤ n - (length l1 + S (length l2)))%nat; [|lia].
    assert (j ≤ (n - (length l1 + S (length l2))) `div` K)%nat as Hj by (unfold waves in H4; rewrite L_value in *; lia).
    pose proof (Nat.Div0.mul_div_le (n - (length l1 + S (length l2))) K). nia.
  - apply Forall_app. split; [done|]. constructor; [|done]. cbn. lia.
  - intros r. rewrite H9, !fmap_app, !elem_of_app, elem_of_cons. cbn. rewrite list_elem_of_singleton. tauto.
Qed.

Lemma ends_inv t w k1 k k2 e r : r = Answered (answer (ck_repo k)) ∨ r = TimedOut L →
  Inv (MkChecks t w (k1 ++ k :: k2) e) → Inv (MkChecks t w (k1 ++ k2) (<[ck_repo k := r]> e)).
Proof using Type.
  intros Hr [H1 H2 H3 H4 H5 H6 H7 H8 H9]. unfold started in *. cbn [clock waiting running ended] in *.
  constructor; unfold started; cbn [clock waiting running ended]; try done.
  - rewrite length_app in *. cbn in H3. lia.
  - intros j. specialize (H5 j). rewrite filter_app, length_app in H5 |- *. rewrite filter_cons in H5. destruct (decide _); cbn in H5; lia.
  - apply Forall_app in H6 as [? Hk]. apply Forall_app. inversion Hk. done.
  - intros i x. destruct (decide (ck_repo k = i)) as [<-|Hne]; [rewrite lookup_insert, decide_True by done; naive_solver|].
    rewrite lookup_insert_ne by done. apply H8.
  - intros i. rewrite H9, !fmap_app, !elem_of_app. cbn. rewrite elem_of_cons. destruct (decide (ck_repo k = i)) as [<-|Hne].
    + rewrite lookup_insert, decide_True by done. split; [|tauto]. intros _. right. right. by eexists.
    + rewrite lookup_insert_ne by done. naive_solver.
Qed.

Lemma tick_inv t w ks e : ¬ due B (MkChecks t w ks e) → ¬ finished (MkChecks t w ks e) →
  Inv (MkChecks t w ks e) → Inv (MkChecks (t + 1) w ks e).
Proof using few.
  intros Hd Hf Hi. pose proof (waiting_early _ Hi) as Hearly. destruct Hi as [H1 H2 H3 H4 H5 H6 H7 H8 H9].
  unfold due, finished, slot_free, started in *. cbn [clock waiting running ended] in *.
  assert (∀ k, k ∈ ks → t < ck_start k + L ∧ ck_start k ≤ t ∧ ck_start k + L ≤ B) as Hrun.
  { intros k Hk. rewrite Forall_forall in H6. destruct (H6 k Hk) as (Htk & Hs & Hb). split; [|done].
    apply Z.nle_gt. intros Hle. apply Hd. right. exists k. split; [done|]. unfold ends_at. rewrite allowed_full by done. lia. }
  constructor; unfold started; cbn [clock waiting running ended]; try done; try lia.
  - intros Hw. apply Z.le_succ_l. apply Z.nle_gt. intros Hle. specialize (H4 Hw).
    assert (length ks = K) as Hfull.
    { destruct (decide (length ks < K)%nat) as [Hlt|]; [|unfold K in *; lia]. exfalso. apply Hd. left. split; [done|]. by left. }
    specialize (H5 ((n - length w) `div` K)%nat). unfold waves in *.
    assert (filter (λ k, late ((Z.of_nat ((n - length w) `div` K) - 1) * L) k = true) ks = ks) as Hall.
    { apply filter_all. intros k Hk. destruct (Hrun k Hk) as (Hk1 & _). unfold late. apply Z.ltb_lt. rewrite L_value in *. lia. }
    rewrite Hall, Hfull in H5. pose proof (Nat.mod_upper_bound (n - length w) K ltac:(done)) as Hmod.
    rewrite Nat.Div0.mod_eq in Hmod. lia.
  - eapply Forall_impl; [exact H6|]. cbn. lia.
  - destruct w as [|i w]; [|specialize (Hearly ltac:(done)); rewrite L_value in *; lia]. destruct ks as [|k ks]; [by destruct Hf|].
    destruct (Hrun k ltac:(left)) as (? & ? & ?). lia.
Qed.

Lemma step_inv c c' : step c c' → Inv c → Inv c'.
Proof using few.
  intros Hs Hi. destruct Hs as [t l1 i l2 ks e takes Hf Ht|t l1 i l2 ks e Hd|t w k1 k k2 e Ht Hk|t w k1 k k2 e Ht Hk|t w ks e Hd Hf].
  - by apply take_slot_inv.
  - pose proof (waiting_early _ Hi ltac:(by destruct l1)) as He. cbn in He. rewrite L_value in He. lia.
  - apply ends_inv; [by left|done].
  - rewrite allowed_full; [apply ends_inv; [by right|done]|]. pose proof (inv_run _ Hi) as Hr. cbn in Hr.
    apply Forall_app in Hr as [_ Hr]. inversion Hr as [|? ? (_ & _ & ?)]. done.
  - by apply tick_inv.
Qed.

(** What is left: the checks, and the time. *)
Definition remaining (c : checks) : nat := (2 * length (waiting c) + length (running c) + Z.to_nat (B - clock c))%nat.

Lemma step_remaining c c' : step c c' → Inv c → (S (remaining c') ≤ remaining c)%nat.
Proof using few.
  intros Hs Hi. pose proof (step_inv c c' Hs Hi) as Hi'. pose proof (inv_bound _ Hi') as Hb.
  destruct Hs; unfold remaining in *; cbn [waiting running clock] in *; rewrite ?length_app in *; cbn [length] in *; lia.
Qed.

Lemma run_inv k c c' : nsteps step k c c' → Inv c → Inv c' ∧ (k + remaining c' ≤ remaining c)%nat.
Proof using few.
  induction 1 as [c|k c c1 c' Hs _ IH]; intros Hi; [done|]. destruct (IH (step_inv _ _ Hs Hi)) as [Hi' Hk].
  pose proof (step_remaining _ _ Hs Hi). split; [done|lia].
Qed.

Lemma can_step c : ¬ finished c → ∃ c', step c c'.
Proof using Type.
  intros Hf. destruct c as [t w ks e]. destruct (decide (Exists (λ k, ends_at B k ≤ t) ks)) as [He|He].
  - apply Exists_exists in He as (k & Hk & He). apply list_elem_of_split in Hk as (k1 & k2 & ->). unfold ends_at in He.
    destruct (Z_le_gt_dec (ck_takes k) (allowed B (ck_start k))); eexists; [apply answers; lia|apply times_out; lia].
  - assert (∀ k, k ∈ ks → ¬ ends_at B k ≤ t) as Hks by (intros k Hk Hle; apply He, Exists_exists; eauto).
    destruct w as [|i w]; [|destruct (decide (length ks < K)%nat) as [Hs|Hs]; [|destruct (decide (B ≤ t)) as [Hb|Hb]]].
    + eexists. apply time_passes; [|done]. intros [[? _]|(k & Hk & Hle)]; [done|by apply (Hks k)].
    + eexists. by apply (take_slot _ _ t [] i w ks e 0).
    + eexists. by apply (no_slot _ _ t [] i w ks e).
    + eexists. apply time_passes; [|done]. unfold due, slot_free. cbn. intros [[_ [?|?]]|(k & Hk & Hle)]; [done..|by apply (Hks k)].
Qed.
End budget.

(** C20: The budget of a phase of doctor is enough.  For any number of
    repositories, however the checks are scheduled over the eight slots and
    however long each takes, no check is refused a slot because the time of
    the phase is up, and each is cut off, if at all, only after the full limit
    of one repository; the phase makes progress until every repository has its
    result, within the budget. *)
Theorem repo_checks_in_budget answer n k c
    (Hfew : Z.of_nat n < 2 ^ 28)
    (Hrun : nsteps (check_step answer (remoteCheckBudget n)) k (start_checks n) c) :
  (k ≤ 2 * n + Z.to_nat (remoteCheckBudget n))%nat ∧
  (length (running c) ≤ repoCheckConcurrency)%nat ∧ clock c ≤ remoteCheckBudget n ∧
  (∀ i e, ended c !! i = Some e → e = Answered (answer i) ∨ e = TimedOut remoteRepoCheckTimeout) ∧
  (finished c ∧ (∀ i, (i < n)%nat → is_Some (ended c !! i)) ∨ ∃ c', check_step answer (remoteCheckBudget n) c c').
Proof.
  destruct (run_inv answer n Hfew k _ _ Hrun (start_inv answer n)) as [Hi Hk].
  assert (remaining n (start_checks n) = 2 * n + Z.to_nat (remoteCheckBudget n))%nat as Hs.
  { unfold remaining, start_checks. cbn [waiting running clock]. rewrite length_seq, Z.sub_0_r. cbn [length]. lia. }
  split; [lia|]. split; [apply (inv_slots _ _ _ Hi)|]. split; [apply (inv_bound _ _ _ Hi)|]. split; [apply (inv_ended _ _ _ Hi)|].
  destruct (decide (waiting c = [])) as [Hw|Hw]; [destruct (decide (length (running c) = 0%nat)) as [Hr|Hr]|].
  - apply length_zero_iff_nil in Hr. left. split; [done|]. intros i Hlt. apply (inv_repos _ _ _ Hi) in Hlt. rewrite Hw, Hr in Hlt.
    rewrite !elem_of_nil in Hlt. by destruct Hlt as [[]|[[]|?]].
  - right. apply can_step. intros [_ Hn]. by rewrite Hn in Hr.
  - right. apply can_step. by intros [Hn _].
Qed.

Lemma repo_checks_in_budget_witness :
  let answer := λ _ : nat, Ok true in
  let c := MkChecks 0 [] [] {[0%nat := Answered (Ok true)]} in
  nsteps (check_step answer (remoteCheckBudget 1)) 2 (start_checks 1) c ∧
  (2 ≤ 2 * 1 + Z.to_nat (remoteCheckBudget 1))%nat ∧
  (length (running c) ≤ repoCheckConcurrency)%nat ∧ clock c ≤ remoteCheckBudget 1 ∧
  (∀ i e, ended c !! i = Some e → e = Answered (answer i) ∨ e = TimedOut remoteRepoCheckTimeout) ∧
  (finished c ∧ (∀ i, (i < 1)%nat → is_Some (ended c !! i)) ∨ ∃ c', check_step answer (remoteCheckBudget 1) c c').
Proof.
  cbn zeta. assert (nsteps (check_step (λ _, Ok true) (remoteCheckBudget 1)) 2 (start_checks 1) (MkChecks 0 [] [] {[0%nat := Answered (Ok true)]})) as Hrun.
  { eapply nsteps_l; [apply (take_slot _ _ 0 [] 0 [] [] ∅ 0); [unfold slot_free, repoCheckConcurrency; cbn; lia|done]|].
    eapply nsteps_l; [|apply nsteps_O].
    apply (answers (λ _, Ok true) (remoteCheckBudget 1) 0 [] [] (Check 0 0 0) [] ∅); [done|]. apply Z.leb_le. vm_compute. reflexivity. }
  split; [exact Hrun|]. apply (repo_checks_in_budget (λ _, Ok true) 1 2 _); [reflexivity|exact Hrun].
Defined.

(** ** The verdict *)

Lemma count_none p l : count p l = 0%nat ↔ ∀ r, r ∈ l → p r = false.
Proof.
  unfold count. rewrite length_zero_iff_nil. induction l as [|r l IH]; [split; [intros _ r ?%elem_of_nil|]; done|].
  rewrite filter_cons. destruct (p r) eqn:Hp.
  - rewrite decide_True by done. split; [done|]. intros Hall. specialize (Hall r ltac:(left)). congruence.
  - rewrite decide_False by done. rewrite IH. setoid_rewrite elem_of_cons. naive_solver.
Qed.

Lemma access_none cfg access :
  checkRunnerAccess cfg access = None ↔ (gh_Scope (cfg_GitHub cfg) ∈ [ScopeOrg; ScopeEnterprise] → access = Ok tt).
Proof.
  unfold checkRunnerAccess. destruct (String.eqb_spec (gh_Scope (cfg_GitHub cfg)) ScopeOrg), (String.eqb_spec (gh_Scope (cfg_GitHub cfg)) ScopeEnterprise);
    cbn [negb andb]; rewrite !elem_of_cons, elem_of_nil; destruct access as [[]|err]; naive_solver.
Qed.

Lemma actions_none cfg l :
  checkActionsEnabled cfg l = None ↔ (repo_scoped cfg = true → ∀ r, r ∈ l → cr_err r = None ∧ cr_ok r = true).
Proof.
  unfold checkActionsEnabled. destruct (repo_scoped cfg); cbn [negb]; [|done].
  transitivity (count disabled_repo l = 0%nat ∧ count failed_check l = 0%nat).
  - destruct (count disabled_repo l), (count failed_check l); cbn; naive_solver.
  - rewrite !count_none. unfold disabled_repo, failed_check. split.
    + intros [Hd Hf] _ r Hr. specialize (Hd r Hr). specialize (Hf r Hr). destruct (cr_err r), (cr_ok r); done.
    + intros Hall. split; intros r Hr; destruct (Hall eq_refl r Hr) as [He Ho]; by rewrite He, ?Ho.
Qed.

Lemma workflows_none cfg l :
  warnNoSelfHostedWorkflows cfg l = None ↔
  (repo_scoped cfg = true → ∀ r, r ∈ l → cr_err r = None ∨ skipped_scan (cfg_Auth cfg) r = true).
Proof.
  unfold warnNoSelfHostedWorkflows. destruct (repo_scoped cfg); cbn [negb]; [|done]. set (p := λ r, _ && _).
  transitivity (count p l = 0%nat); [destruct (count p l); cbn; naive_solver|].
  rewrite count_none. unfold p, failed_check, skipped_scan. split.
  - intros Hc _ r Hr. specialize (Hc r Hr). destruct (cr_err r) as [e|]; [|by left]. right. by apply negb_false_iff in Hc.
  - intros Hall r Hr. destruct (Hall eq_refl r Hr) as [->|Hs]; [done|]. rewrite Hs. apply andb_false_r.
Qed.

Lemma starved_none cfg :
  warnStarvedRepos cfg = None ↔
  (gh_Scope (cfg_GitHub cfg) = ScopeRepos → IsAutoscale (cfg_Provisioning cfg) = false →
   ∀ pc, pc ∈ Pools cfg → Z.of_nat (length (gh_Repos (cfg_GitHub cfg))) ≤ Size pc).
Proof.
  unfold warnStarvedRepos. destruct (String.eqb_spec (gh_Scope (cfg_GitHub cfg)) ScopeRepos) as [Hs|Hs]; cbn [negb orb]; [|naive_solver].
  destruct (IsAutoscale _); [naive_solver|]. set (l := filter _ _). cbn zeta.
  transitivity (l = []); [destruct l; cbn; naive_solver|]. unfold l. split.
  - intros Hl _ _ pc Hp. apply Z.nlt_ge. intros Hlt. apply Z.ltb_lt in Hlt.
    assert (pc ∈ filter (λ p, (Size p <? Z.of_nat (length (gh_Repos (cfg_GitHub cfg)))) = true) (Pools cfg)) as Hin by by apply list_elem_of_filter.
    rewrite Hl in Hin. by apply elem_of_nil in Hin.
  - intros Hall. apply elem_of_nil_inv. intros pc [Hlt Hp]%list_elem_of_filter. apply Z.ltb_lt in Hlt. specialize (Hall Hs eq_refl pc Hp). lia.
Qed.

Definition service_fine (a : doctor_answers) : Prop :=
  match da_service a with
  | None => True
  | Some (_, Some e) => errors_is "service.ErrNotInstalled" e = true
  | Some (status, None) => status = StatusRunning ∧ ∃ st, da_recovery a = Ok st ∧ Count st ≤ 0
  end.

Lemma service_ok_iff a : service_ok (da_service a) (da_recovery a) = true ↔ service_fine a.
Proof.
  unfold service_ok, service_fine. destruct (da_service a) as [[status [e|]]|]; cbn [classifyServiceHealth].
  - destruct (errors_is _ e); cbn; [|done]. destruct (da_recovery a); cbn; done.
  - destruct status; cbn; try naive_solver. destruct (da_recovery a) as [st|e]; cbn; [|naive_solver].
    unfold CrashLoopFailureCount, maxFailureExits. destruct (Z.leb_spec (3 + 1) (Count st)), (Z.ltb_spec 0 (Count st)); cbn; split; try done;
      try (intros [_ (st' & [= <-] & ?)]; lia). intros _. split; [done|]. by exists st.
  - destruct (da_recovery a); cbn; done.
Qed.

Lemma pool_line_ok manifest hint found pc made :
  (pool_line manifest hint found pc made).2 = true ↔ ∃ d, made = Ok (Some d) ∧ dm_ping d = None ∧ dm_os d = Ok (OS pc).
Proof.
  unfold pool_line. destruct made as [[d|]|err]; cbn [snd]; [|split; [done|by intros (? & ? & _)]..]. unfold pool_status.
  destruct (dm_ping d) as [err|] eqn:Hp; cbn [snd]; [split; [done|intros (? & [= <-] & ? & _); congruence]|].
  destruct (dm_os d) as [os|err] eqn:Ho; cbn [snd]; [|split; [done|intros (? & [= <-] & _ & ?); congruence]].
  destruct (String.eqb_spec os (OS pc)) as [Heq|Hne]; cbn; split; try done; [intros _; exists d; by subst|intros (? & [= <-] & _ & ?); congruence].
Qed.

Lemma results_elem refs c r :
  r ∈ runRepoChecks refs c ↔ ∃ i ref, refs !! i = Some ref ∧ r = check_result ref (ended c !! i).
Proof.
  unfold runRepoChecks. rewrite list_elem_of_lookup. setoid_rewrite list_lookup_imap. split.
  - intros [i Hi]. destruct (refs !! i) as [ref|] eqn:Hr; [|done]. injection Hi as <-. by exists i, ref.
  - intros (i & ref & Hr & ->). exists i. by rewrite Hr.
Qed.

(** Every repository has an ending. *)
Definition all_ended (refs : list RepoRef) (c : checks) : Prop := ∀ i, (i < length refs)%nat → is_Some (ended c !! i).

Lemma enabled_results refs c : all_ended refs c →
  (∀ r, r ∈ runRepoChecks refs c → cr_err r = None ∧ cr_ok r = true) ↔
  ∀ i ref, refs !! i = Some ref → ended c !! i = Some (Answered (Ok true)).
Proof.
  intros Hc. setoid_rewrite results_elem. split.
  - intros Hall i ref Hr. destruct (Hall _ (ex_intro _ i (ex_intro _ ref (conj Hr eq_refl)))) as [He Ho].
    destruct (Hc i) as [x Hx]; [by apply lookup_lt_Some in Hr|]. rewrite Hx in *. destruct x as [[b|e]|t|]; cbn in *; by subst.
  - intros Hall r (i & ref & Hr & ->). by rewrite (Hall i ref Hr).
Qed.

Lemma scanned_results auth refs c : all_ended refs c →
  (∀ r, r ∈ runRepoChecks refs c → cr_err r = None ∨ skipped_scan auth r = true) ↔
  ∀ i ref, refs !! i = Some ref →
    (∃ found, ended c !! i = Some (Answered (Ok found))) ∨
    ∃ e, ended c !! i = Some (Answered (Err e)) ∧ usesSharedRepoApp auth = true ∧ errors_is "github.ErrContentsForbidden" e = true.
Proof.
  intros Hc. setoid_rewrite results_elem. unfold skipped_scan. split.
  - intros Hall i ref Hr. pose proof (Hall _ (ex_intro _ i (ex_intro _ ref (conj Hr eq_refl)))) as He.
    destruct (Hc i) as [x Hx]; [by apply lookup_lt_Some in Hr|]. rewrite Hx in *. destruct x as [[b|e]|t|]; cbn in He.
    + left. by exists b.
    + right. exists e. destruct He as [?|[? ?]%andb_true_iff]; done.
    + destruct He as [?|[_ ?]%andb_true_iff]; done.
    + destruct He as [?|[_ ?]%andb_true_iff]; done.
  - intros Hall r (i & ref & Hr & ->). destruct (Hall i ref Hr) as [[b ->]|(e & -> & Hu & Hf)]; cbn; [by left|right]. by rewrite Hu, Hf.
Qed.

(** C21: doctor passes exactly when what it promises to check is in order.  The
    service, when there is one, runs and has not failed lately; every pool has
    a backend that answers and runs containers of its system; no repository is
    left without a slot; the credential reaches the runner API of an
    organization or enterprise; and each configured repository, without
    exception, was seen to have Actions enabled and its workflows were
    scanned, but for scans that the shared App may not make. *)
Theorem doctor_passes manifest a cfg ca cw
    (Hactions : da_actions a = runRepoChecks (RepoTargets (cfg_GitHub cfg)) ca)
    (Hworkflows : da_workflows a = runRepoChecks (RepoTargets (cfg_GitHub cfg)) cw)
    (Hca : all_ended (RepoTargets (cfg_GitHub cfg)) ca)
    (Hcw : all_ended (RepoTargets (cfg_GitHub cfg)) cw) :
  doctor manifest a (Ok cfg) = None ↔
  service_fine a ∧
  (∀ pc, pc ∈ Pools cfg → ∃ d, da_backend a pc = Ok (Some d) ∧ dm_ping d = None ∧ dm_os d = Ok (OS pc)) ∧
  (gh_Scope (cfg_GitHub cfg) = ScopeRepos → IsAutoscale (cfg_Provisioning cfg) = false →
   ∀ pc, pc ∈ Pools cfg → Z.of_nat (length (gh_Repos (cfg_GitHub cfg))) ≤ Size pc) ∧
  (gh_Scope (cfg_GitHub cfg) ∈ [ScopeOrg; ScopeEnterprise] → da_access a = Ok tt) ∧
  (repo_scoped cfg = true → ∀ i ref, RepoTargets (cfg_GitHub cfg) !! i = Some ref →
     ended ca !! i = Some (Answered (Ok true)) ∧
     ((∃ found, ended cw !! i = Some (Answered (Ok found))) ∨
      ∃ e, ended cw !! i = Some (Answered (Err e)) ∧ usesSharedRepoApp (cfg_Auth cfg) = true ∧ errors_is "github.ErrContentsForbidden" e = true)).
Proof.
  assert (∀ e, no_error e = true ↔ e = None) as Hno by (by intros []).
  unfold doctor. cbn zeta. set (ok := _ && _). transitivity (ok = true); [destruct ok; naive_solver|]. unfold ok.
  rewrite !andb_true_iff, !Hno, service_ok_iff, starved_none, access_none, actions_none, workflows_none, Hactions, Hworkflows.
  rewrite enabled_results, scanned_results by done.
  assert (∀ l : list (string * bool), forallb snd l = true ↔ ∀ x, x ∈ l → x.2 = true) as Hall.
  { intros l. rewrite forallb_forall. setoid_rewrite list_elem_of_In. done. }
  assert (forallb snd ((λ pc, pool_line manifest (da_hint a) (da_found a pc) pc (da_backend a pc)) <$> Pools cfg) = true ↔
    ∀ pc, pc ∈ Pools cfg → ∃ d, da_backend a pc = Ok (Some d) ∧ dm_ping d = None ∧ dm_os d = Ok (OS pc)) as ->.
  { rewrite Hall. setoid_rewrite list_elem_of_fmap. setoid_rewrite <- pool_line_ok. naive_solver. }
  naive_solver.
Qed.

(** A repository with one pool, and everything in order. *)
Definition ready_config : Config := sample_config ScopeRepo "" [] [sample_pool "a" "" false "" [] ""].
Definition ready_checks : checks := MkChecks 3 [] [] {[0%nat := Answered (Ok true)]}.
Definition ready_answers : doctor_answers := {|
  da_service := Some (StatusRunning, None);
  da_recovery := Ok (MkStatus 0 None "");
  da_hint := "";
  da_found _ := [];
  da_backend _ := Ok (Some (Daemon None (Ok "linux")));
  da_access := Ok tt;
  da_actions := runRepoChecks (RepoTargets (cfg_GitHub ready_config)) ready_checks;
  da_workflows := runRepoChecks (RepoTargets (cfg_GitHub ready_config)) ready_checks |}.

Lemma doctor_passes_witness :
  doctor sample_manifest ready_answers (Ok ready_config) = None ∧
  ((∀ pc, pc ∈ Pools ready_config → ∃ d, da_backend ready_answers pc = Ok (Some d) ∧ dm_ping d = None ∧ dm_os d = Ok (OS pc))).
Proof.
  assert (all_ended (RepoTargets (cfg_GitHub ready_config)) ready_checks) as Hall.
  { intros [|i] Hi; [by eexists|]. vm_compute in Hi. lia. }
  assert (doctor sample_manifest ready_answers (Ok ready_config) = None) as Hok by (vm_compute; reflexivity).
  split; [exact Hok|]. apply (doctor_passes sample_manifest ready_answers ready_config ready_checks ready_checks eq_refl eq_refl Hall Hall) in Hok.
  apply Hok.
Defined.
