(* ===== verification/Orchestrator.v ===== *)
(** * The orchestrator

    [runOrchestrator] of [cmd/multirunner/main.go] with the parts of
    [helpers.go] and [scaleset.go]: from a loaded configuration to the mode that
    runs its pools.  The calls that leave the program answer as [calls] says; the
    trace holds what is opened, started and closed.  The long-running parts are
    those of the other files: this one says what they are started with. *)

From S2P Require Import Prelude GoErr GoStr ImageVersions Config CacheServer Backend Session ScaleSet GitHub Qemu Pools Redact.
From S2P Require GitEnv GitMirror.

Local Open Scope Z_scope.
Local Open Scope go_scope.

Implicit Types pc : Config.Pool.

(** ** Backends *)

(** A constructor of a backend with its arguments. *)
Inductive backend_spec :=
| BQemu (q : QEMU)
| BContainerd (nerdctl address namespace isolation : string)
| BDockerLinux (host : string) (tls : option DockerTLS)
| BDockerWindows (host isolation : string) (tls : option DockerTLS).

(** The TLS files, unless there are none. *)
Definition dockerTLSConfig pc : option DockerTLS :=
  let t := TLS (pool_Docker pc) in
  if is_empty (CAFile t) && is_empty (CertFile t) && is_empty (KeyFile t) then None else Some t.
Definition newBackend pc : option backend_spec :=
  if String.eqb (Config.Backend pc) "qemu" then Some (BQemu (pool_QEMU pc))
  else if String.eqb (Config.Backend pc) "containerd" then
    let c := pool_Containerd pc in Some (BContainerd (Nerdctl c) (Address c) (Namespace c) (cd_Isolation c))
  else if String.eqb (OS pc) "linux" then Some (BDockerLinux (Host (pool_Docker pc)) (dockerTLSConfig pc))
  else if String.eqb (OS pc) "windows" then
    Some (BDockerWindows (Host (pool_Docker pc)) (docker_Isolation (pool_Docker pc)) (dockerTLSConfig pc))
  else None.

(** ** What a pool's runners get *)

Definition tool_mount pc : list Mount :=
  if String.eqb (tc_Mode (pool_ToolCache pc)) "shared-volume" && negb (is_empty (Volume (pool_ToolCache pc)))
  then [MkMount (Volume (pool_ToolCache pc)) (ToolCachePath pc) (ReadOnly (pool_ToolCache pc)) true] else [].
Definition socket_mount pc : list Mount :=
  if EnableDinD (pool_Docker pc) then [MkMount (DockerSocketPath pc) (DockerSocketPath pc) false false] else [].
Definition workspace_mount pc : list Mount :=
  if ShareWorkspace (pool_Docker pc) then [MkMount (SharedWorkspacePath pc) (SharedWorkspacePath pc) false false] else [].

Definition target_slug (cfg : Config) : string := gh_Owner (cfg_GitHub cfg) +:+ "/" +:+ gh_Repo (cfg_GitHub cfg).
Definition mirrored (cfg : Config) (mgr : option GitEnv.Manager) : option GitEnv.Manager :=
  if String.eqb (gh_Scope (cfg_GitHub cfg)) ScopeRepo then mgr else None.

Definition poolEnvAndMounts (cfg : Config) pc (shared : gmap string string) (mgr : option GitEnv.Manager)
    : gmap string string * list Mount :=
  let env := match tool_mount pc with m :: _ => <["RUNNER_TOOL_CACHE" := mnt_Target m]> shared | [] => shared end in
  let mounts := tool_mount pc ++ socket_mount pc ++ workspace_mount pc in
  match mirrored cfg mgr with
  | None => (env, mounts)
  | Some m =>
      let slug := target_slug cfg in
      if DotGit (cfg_GitCache cfg) then
        let base := trim_right (default "" (shared !! "ACTIONS_RESULTS_URL")) "/" in
        if is_empty base then (env, mounts)
        else
          let env := <["MR_GIT_BUNDLE_URL" := base +:+ "/gitmirror/" +:+ slug]> env in
          (if String.eqb (OS pc) "windows" then <["ACTIONS_RUNNER_HOOK_JOB_STARTED" := "C:\mr-githook.ps1"]> env else env, mounts)
      else
        let target := GitMirror.ContainerPath slug (OS pc) in
        (<["MULTIRUNNER_GIT_MIRROR" := target]> env, mounts ++ [MkMount (GitMirror.MirrorPath m slug) target true false])
  end.

Definition normalizedContainerSettings (c : ContainerConfig) : ContainerSettings :=
  {| CPUCount := cc_CPUs c; cs_MemoryBytes := MemoryBytes c; cs_MemorySwapBytes := MemorySwapBytes c; cs_DNS := DNS c |}.

(** A pool that is ready. *)
Record prepared := Prepared {
  pr_pool : Config.Pool;
  pr_backend : backend_spec;
  pr_image : string;
  pr_env : gmap string string;
  pr_mounts : list Mount
}.

(** ** The scale sets *)

Definition client_options (cfg : Config) (target : string) : ClientOptions :=
  let a := cfg_Auth cfg in
  {| co_TargetURL := target; co_PAT := PAT a; co_AppID := AppID a; co_InstallationID := InstallationID a;
     co_PrivateKeyPath := PrivateKeyPath a; co_ClientID := ClientID a; co_TokenPath := TokenPath a |}.

(** A session of [runScaleset]: the key of its health, the name it is
    supervised under, and its options; [scaleset.Run] fills in the instance, the
    ID of the scale set and the owner. *)
Record pool_session := PoolSession {
  ps_key : string;
  ps_name : string;
  ps_session : SessionOptions;
  ps_launch : Options
}.
Definition pool_options (p : prepared) : Options :=
  {| opt_ScaleSetID := 0; opt_Image := pr_image p; opt_WorkFolder := WorkFolder (pr_pool p); opt_Labels := Labels (pr_pool p);
     opt_Env := pr_env p; opt_Mounts := pr_mounts p; opt_Container := normalizedContainerSettings (Container (pr_pool p));
     MaxRunners := Size (pr_pool p); opt_Ownership := no_ownership |}.
Definition session_of (target : string) (p : prepared) : pool_session :=
  let pc := pr_pool p in
  PoolSession (Name pc) (Config.ScaleSet pc)
    {| so_Name := Config.ScaleSet pc; so_RunnerGroup := RunnerGroup pc; so_Labels := Labels pc; so_Target := target;
       so_Pool := Name pc; so_Instance := "" |}
    (pool_options p).

(** What the program runs until its context ends. *)
Inductive mode :=
| ModeScaleset (sessions : list pool_session)
| ModeAutoscale (launchers : list Launcher) (webhook : option Webhook)
| ModePool (launchers : list Launcher).

(** ** Its calls *)

(** What is opened, started and closed. *)
Inductive event :=
| EvHousekeeping (refs : list GoldenRef)
| EvSweeps
| EvMirror (slug : string)
| EvCacheServer (bundler : option string)
| EvMetrics
| EvOpen pc
| EvClean pc
| EvInstall pc
| EvReady pc
| EvRun (m : mode)
| EvClose pc.

(** How the calls that leave the program answer; a pool is pinged again after
    an installation. *)
Record calls := {
  c_github : Config.GitHub → option goerror;
  c_hash : QEMU → result string;
  c_mkdir : option goerror;
  c_cache : Cache → result Server;
  c_make : backend_spec → option goerror;
  c_ping : Config.Pool → nat → option goerror;
  c_os : Config.Pool → result string;
  c_hint : string;
  c_confirm : bool;
  c_install : option goerror;
  c_client : ClientOptions → option goerror;
  c_run : mode → option goerror;
  c_ended : bool
}.

Section run.
Variable k : calls.
Variable manifest : Manifest.
Local Notation P := (M (list event)).

Definition emit (e : event) : P unit := modify (λ l, l ++ [e]).
Definition guard (e : option goerror) : P unit := match e with Some e => throw e | None => ret tt end.
Definition of_result {A} (r : result A) : P A := match r with Ok a => ret a | Err e => throw e end.

(** ** The parts before the pools *)

(** A client for each repository, or one. *)
Fixpoint github_clients (gh : Config.GitHub) (refs : list RepoRef) : P unit :=
  match refs with
  | [] => ret tt
  | ref :: refs =>
      let repo := {| gh_URL := gh_URL gh; gh_Scope := ScopeRepo; gh_Owner := ref_Owner ref; gh_Repo := ref_Repo ref; gh_Repos := gh_Repos gh |} in
      match c_github k repo with
      | Some e => throw (errorf_w ("github client for " +:+ slug ref +:+ ": ") e)
      | None => github_clients gh refs
      end
  end.
Definition github_provider (cfg : Config) : P unit :=
  let gh := cfg_GitHub cfg in
  if String.eqb (gh_Scope gh) ScopeRepos then github_clients gh (ResolvedRepos gh)
  else match c_github k gh with Some e => throw (errorf_w "github client: " e) | None => ret tt end.

Fixpoint golden_refs (pools : list Config.Pool) : P (list GoldenRef) :=
  match pools with
  | [] => ret []
  | pc :: pools =>
      if negb (String.eqb (Config.Backend pc) "qemu") then golden_refs pools
      else
        let q := pool_QEMU pc in
        let! hash := if is_empty (BakeISO q) then ret ""
                     else match c_hash k q with
                          | Err e => throw (errorf_w ("qemu pool " +:+ quote (Name pc) +:+ " bake inputs: ") e)
                          | Ok h => ret h
                          end in
        let! refs := golden_refs pools in
        ret (MkGoldenRef (Golden q) (BakeISO q) hash :: refs)
  end.
Definition runQEMUHousekeeping (cfg : Config) : P unit :=
  let! refs := golden_refs (Config.Pools cfg) in
  match refs with [] => ret tt | _ => emit (EvHousekeeping refs) end.

Definition setupGitCache (cfg : Config) : P (option GitEnv.Manager) :=
  if negb (GitCache_Enabled (cfg_GitCache cfg)) then ret None
  else match c_mkdir k with
       | Some e => throw (errorf_w "git cache: " (errorf_w "create git mirror dir: " e))
       | None =>
           let m := GitEnv.New (gc_Path (cfg_GitCache cfg)) (gh_URL (cfg_GitHub cfg)) (PAT (cfg_Auth cfg)) in
           (if 0 <? gc_MaxAgeDays (cfg_GitCache cfg) then emit EvSweeps else ret tt) ;;;
           (if String.eqb (gh_Scope (cfg_GitHub cfg)) ScopeRepo then emit (EvMirror (target_slug cfg)) else ret tt) ;;;
           ret (Some m)
       end.

Definition startCache (cfg : Config) (mgr : option GitEnv.Manager) : P string :=
  if negb (is_empty (cache_ExternalURL (cfg_Cache cfg))) then ret (cache_ExternalURL (cfg_Cache cfg))
  else match c_cache k (cfg_Cache cfg) with
       | Err e => throw (errorf_w "cache server: " e)
       | Ok srv =>
           let bundler := match mirrored cfg mgr with
                          | Some _ => if DotGit (cfg_GitCache cfg) then Some (target_slug cfg) else None
                          | None => None
                          end in
           emit (EvCacheServer bundler) ;;; ret (AdvertiseURL srv)
       end.
Definition shared_env (cfg : Config) (mgr : option GitEnv.Manager) : P (gmap string string) :=
  if cache_Enabled (cfg_Cache cfg) && negb (String.eqb (cache_Mode (cfg_Cache cfg)) "off") then
    let! advertise := startCache cfg mgr in
    ret (if is_empty advertise then ∅ else RunnerEnv advertise)
  else ret ∅.

(** ** The pools *)

Definition maybeInstallWindowsDaemon pc (interactive installDeps : bool) : P unit :=
  let guidance := errorf ("pool " +:+ Name pc +:+ ": " +:+ c_hint k) in
  if negb installDeps && (negb interactive || negb (c_confirm k)) then throw guidance
  else emit (EvInstall pc) ;;;
       match c_install k with Some e => throw (errorf_w "install windows daemon: " e) | None => ret tt end.

(** [be.OSType]: an error or no answer is no reason to stop. *)
Definition check_mode pc : P unit :=
  match c_os k pc with
  | Ok os =>
      if negb (is_empty os) && negb (String.eqb os (OS pc))
      then throw (errorf ("pool " +:+ Name pc +:+ ": daemon at " +:+ Host (pool_Docker pc) +:+ " is in " +:+ quote os +:+
                          " mode, but pool os is " +:+ quote (OS pc) +:+ " (wrong container mode)"))
      else ret tt
  | Err _ => ret tt
  end.
Definition ping_failed pc (interactive installDeps : bool) (e : goerror) : P unit :=
  if String.eqb (OS pc) "windows" && bool_mem (Config.Backend pc) [""; "docker"] then
    maybeInstallWindowsDaemon pc interactive installDeps ;;;
    match c_ping k pc 1 with
    | Some e => throw (errorf_w ("pool " +:+ Name pc +:+ ": windows daemon still unreachable at " +:+ Host (pool_Docker pc) +:+ ": ") e)
    | None => ret tt
    end
  else if String.eqb (Config.Backend pc) "containerd"
  then throw (EWrap ("pool " +:+ Name pc +:+ ": containerd unreachable at " +:+ Address (pool_Containerd pc) +:+ ": ") e
                    " (install with `multirunner install-containerd`)")
  else throw (errorf_w ("pool " +:+ Name pc +:+ ": cannot reach docker daemon at " +:+ Host (pool_Docker pc) +:+ ": ") e).

Definition preparePool pc (interactive installDeps : bool) : P (option backend_spec) :=
  match newBackend pc with
  | None => ret None
  | Some be =>
      guard (c_make k be) ;;;
      emit (EvOpen pc) ;;;
      (if String.eqb (Config.Backend pc) "qemu" then emit (EvClean pc) else ret tt) ;;;
      match c_ping k pc 0 with Some e => ping_failed pc interactive installDeps e | None => ret tt end ;;;
      check_mode pc ;;;
      ret (Some be)
  end.

(** The loop over the pools: what it has made of them. *)
Fixpoint prepare_pools (cfg : Config) (shared : gmap string string) (mgr : option GitEnv.Manager) (interactive installDeps : bool)
    (pools : list Config.Pool) : P (list prepared) :=
  match pools with
  | [] => ret []
  | pc :: pools =>
      let! be := preparePool pc interactive installDeps in
      match be with
      | None => prepare_pools cfg shared mgr interactive installDeps pools
      | Some be =>
          let '(env, mounts) := poolEnvAndMounts cfg pc shared mgr in
          emit (EvReady pc) ;;;
          let! rest := prepare_pools cfg shared mgr interactive installDeps pools in
          ret (Prepared pc be (ImageRef manifest pc) env mounts :: rest)
      end
  end.

(** ** The run *)

Definition launcher_of (hooks : Hooks) (p : prepared) : Launcher :=
  NewLauncher (pr_pool p) (pr_image p) (pr_env p) (pr_mounts p) hooks.

(** [runScaleset], up to the supervision of its sessions. *)
Definition scaleset_mode (cfg : Config) (ps : list prepared) : P mode :=
  let gh := cfg_GitHub cfg in
  let! target := of_result (TargetURL (gh_URL gh) (gh_Scope gh) (gh_Owner gh) (gh_Repo gh)) in
  match c_client k (client_options cfg target), ps with
  | Some e, p :: _ => throw (errorf_w ("pool " +:+ Name (pr_pool p) +:+ ": ") e)
  | _, _ => ret (ModeScaleset (session_of target <$> ps))
  end.
Definition choose_mode (cfg : Config) (hooks : Hooks) (ps : list prepared) : P mode :=
  if IsScaleset (cfg_Provisioning cfg) then scaleset_mode cfg ps
  else if IsAutoscale (cfg_Provisioning cfg) then
    ret (ModeAutoscale (launcher_of hooks <$> ps) (if is_empty (wh_Listen (cfg_Webhook cfg)) then None else Some (cfg_Webhook cfg)))
  else ret (ModePool (launcher_of hooks <$> ps)).

Fixpoint close_all (ps : list prepared) : P unit :=
  match ps with [] => ret tt | p :: ps => emit (EvClose (pr_pool p)) ;;; close_all ps end.

Definition run_mode (cfg : Config) (hooks : Hooks) (ps : list prepared) : P unit :=
  match ps with
  | [] => throw (errorf "no runnable pools")
  | _ => let! m := choose_mode cfg hooks ps in emit (EvRun m) ;;; guard (c_run k m)
  end.

Definition orchestrate (cfg : Config) (hooks : Hooks) (interactive installDeps : bool) : P unit :=
  github_provider cfg ;;;
  runQEMUHousekeeping cfg ;;;
  let! mgr := setupGitCache cfg in
  let! shared := shared_env cfg mgr in
  (if is_empty (metrics_Listen (cfg_Metrics cfg)) then ret tt else emit EvMetrics) ;;;
  let! ps := prepare_pools cfg shared mgr interactive installDeps (Config.Pools cfg) in
  (** the deferred closing of the backends *)
  let? r := run_mode cfg hooks ps in
  close_all ps ;;;
  of_result r.

(** The secrets that are taken out of the error; the logger's writer has sorted
    them in place. *)
Definition orchestrator_secrets (cfg : Config) : list string :=
  (newRedactingWriter [PAT (cfg_Auth cfg); wh_Secret (cfg_Webhook cfg); cache_AccessToken (cfg_Cache cfg)]).2.
Definition runOrchestrator (load : result Config) (hooks : Hooks) (interactive installDeps : bool) : P unit :=
  let! cfg := of_result load in
  let? r := orchestrate cfg hooks interactive installDeps in
  match r with
  | Ok _ => ret tt
  | Err e => throw (if c_ended k then e else errorf (sanitizeLogTextWithSecrets (error_text e) (orchestrator_secrets cfg)))
  end.
End run.
