(* ===== verification/OrchestratorSpec.v ===== *)
(** * What the orchestrator starts

    A mode runs only when every configured pool is ready, with exactly those
    pools and what the configuration gives their runners; a backend that was
    opened is closed when the mode ends; and the error that is returned holds no
    secret. *)

From S2P Require Import Prelude GoErr GoStr ImageVersions Config ConfigSpec CacheServer Backend Session ScaleSet GitHub Qemu Pools Redact RedactSpec Orchestrator.
From S2P Require GitEnv GitMirror.

Local Open Scope go_scope.

(** ** What a program adds to the trace *)

Definition adds {A} (c : M (list event) A) (Q : result A → list event → Prop) : Prop :=
  ∀ w, wp c (λ r w', ∃ l, w' = w ++ l ∧ Q r l) w.

Lemma adds_ret {A} (a : A) (Q : result A → list event → Prop) : Q (Ok a) [] → adds (ret a) Q.
Proof. intros HQ w. apply wp_ret. exists []. by rewrite app_nil_r. Qed.
Lemma adds_throw {A} e (Q : result A → list event → Prop) : Q (Err e) [] → adds (throw e) Q.
Proof. intros HQ w. apply wp_throw. exists []. by rewrite app_nil_r. Qed.
Lemma adds_emit e (Q : result unit → list event → Prop) : Q (Ok tt) [e] → adds (emit e) Q.
Proof. intros HQ w. apply wp_modify. by exists [e]. Qed.

Lemma adds_mono {A} (c : M (list event) A) (Q Q' : result A → list event → Prop) :
  adds c Q → (∀ r l, Q r l → Q' r l) → adds c Q'.
Proof. intros Hc HQ w. eapply wp_mono; [apply Hc|]. cbn. intros r w' (l & -> & Hl). exists l. auto. Qed.

Lemma adds_catch {A B} (c : M (list event) A) (f : result A → M (list event) B) (Q1 : result A → list event → Prop) (Q : result B → list event → Prop) :
  adds c Q1 → (∀ r l, Q1 r l → adds (f r) (λ r' l', Q r' (l ++ l'))) → adds (catch c f) Q.
Proof.
  intros Hc Hf w. apply wp_catch. eapply wp_mono; [apply Hc|]. cbn. intros r w' (l & -> & Hl).
  eapply wp_mono; [apply (Hf r l Hl)|]. cbn. intros r' w' (l' & -> & Hl'). exists (l ++ l'). by rewrite app_assoc.
Qed.

Lemma adds_bind {A B} (c : M (list event) A) (f : A → M (list event) B) (Q1 : result A → list event → Prop) (Q : result B → list event → Prop) :
  adds c Q1 → (∀ a l, Q1 (Ok a) l → adds (f a) (λ r' l', Q r' (l ++ l'))) → (∀ e l, Q1 (Err e) l → Q (Err e) l) → adds (bind c f) Q.
Proof.
  intros Hc Hf He w. apply wp_bind. eapply wp_mono; [apply Hc|]. cbn. intros [a|e] w' (l & -> & Hl).
  - eapply wp_mono; [apply (Hf a l Hl)|]. cbn. intros r' w' (l' & -> & Hl'). exists (l ++ l'). by rewrite app_assoc.
  - exists l. auto.
Qed.

(** ** Pools that are opened, closed and run *)

Definition opened (l : list event) : list Config.Pool := omap (λ e, match e with EvOpen pc => Some pc | _ => None end) l.
Definition closed (l : list event) : list Config.Pool := omap (λ e, match e with EvClose pc => Some pc | _ => None end) l.
Definition modes (l : list event) : list mode := omap (λ e, match e with EvRun m => Some m | _ => None end) l.
Definition quiet (l : list event) : Prop := opened l = [] ∧ closed l = [] ∧ modes l = [].

Lemma opened_app l1 l2 : opened (l1 ++ l2) = opened l1 ++ opened l2.
Proof. apply omap_app. Qed.
Lemma closed_app l1 l2 : closed (l1 ++ l2) = closed l1 ++ closed l2.
Proof. apply omap_app. Qed.
Lemma modes_app l1 l2 : modes (l1 ++ l2) = modes l1 ++ modes l2.
Proof. apply omap_app. Qed.

Lemma quiet_app l1 l2 : quiet l1 → quiet l2 → quiet (l1 ++ l2).
Proof. unfold quiet. rewrite opened_app, closed_app, modes_app. intros (-> & -> & ->) (-> & -> & ->). done. Qed.

Definition is_quiet {A} (c : M (list event) A) : Prop := adds c (λ _ l, quiet l).
Lemma trace_quiet_ret {A} (a : A) : is_quiet (ret a).
Proof. by apply adds_ret. Qed.
Lemma trace_quiet_throw {A} e : is_quiet (throw (A := A) e).
Proof. by apply adds_throw. Qed.
Lemma trace_quiet_bind {A B} (c : M (list event) A) (f : A → M (list event) B) : is_quiet c → (∀ a, is_quiet (f a)) → is_quiet (bind c f).
Proof.
  intros Hc Hf. eapply adds_bind; [exact Hc|intros a l Hl|done]. eapply adds_mono; [apply Hf|]. cbn. intros r l' Hl'. by apply quiet_app.
Qed.

Ltac quiet_step :=
  match goal with
  | |- is_quiet (ret _) => apply trace_quiet_ret
  | |- is_quiet (throw _) => apply trace_quiet_throw
  | |- is_quiet (bind _ _) => apply trace_quiet_bind; [|intros ?]
  | |- is_quiet (emit _) => apply adds_emit; done
  | |- is_quiet (of_result ?r) => unfold of_result; destruct r
  | |- is_quiet (guard ?r) => unfold guard; destruct r
  | |- is_quiet (match ?x with _ => _ end) => destruct x
  | |- is_quiet (if ?x then _ else _) => destruct x
  | |- is_quiet (let _ := _ in _) => cbv zeta
  end.
Ltac quietly := repeat quiet_step.

Section quiet.
Variable k : calls.

Lemma github_quiet cfg : is_quiet (github_provider k cfg).
Proof.
  unfold github_provider. cbv zeta. destruct (String.eqb _ _); [|quietly]. generalize (ResolvedRepos (cfg_GitHub cfg)).
  intros refs. induction refs as [|r refs IH]; cbn [github_clients]; quietly. done.
Qed.

Lemma housekeeping_quiet cfg : is_quiet (runQEMUHousekeeping k cfg).
Proof.
  unfold runQEMUHousekeeping. apply trace_quiet_bind; [|intros; quietly]. generalize (Config.Pools cfg). intros pools.
  induction pools as [|pc pools IH]; cbn [golden_refs]; quietly; done.
Qed.

(** The mirrors, and what the runners are told of the cache. *)
Definition manager_of (cfg : Config) : option GitEnv.Manager :=
  if GitCache_Enabled (cfg_GitCache cfg)
  then Some (GitEnv.New (gc_Path (cfg_GitCache cfg)) (gh_URL (cfg_GitHub cfg)) (PAT (cfg_Auth cfg))) else None.
Definition advertised (cfg : Config) (advertise : string) : Prop :=
  cache_ExternalURL (cfg_Cache cfg) ≠ "" ∧ advertise = cache_ExternalURL (cfg_Cache cfg) ∨
  cache_ExternalURL (cfg_Cache cfg) = "" ∧ ∃ srv, c_cache k (cfg_Cache cfg) = Ok srv ∧ advertise = AdvertiseURL srv.
Definition shared_of (cfg : Config) (shared : gmap string string) : Prop :=
  shared = ∅ ∨
  cache_Enabled (cfg_Cache cfg) = true ∧ cache_Mode (cfg_Cache cfg) ≠ "off" ∧
  ∃ advertise, advertised cfg advertise ∧ shared = RunnerEnv advertise.

Lemma git_adds cfg : adds (setupGitCache k cfg) (λ r l, quiet l ∧ ∀ mgr, r = Ok mgr → mgr = manager_of cfg).
Proof.
  unfold setupGitCache, manager_of. destruct (GitCache_Enabled _); cbn [negb]; [|apply adds_ret; split; [done|by intros ? [= <-]]].
  destruct (c_mkdir k); [by apply adds_throw|]. cbv zeta.
  eapply (adds_bind _ _ (λ _ l, quiet l)); [fold (is_quiet (A := unit)); change (is_quiet (if 0 <? gc_MaxAgeDays (cfg_GitCache cfg) then emit EvSweeps else ret tt)%Z); quietly| |by intros ? ? ?].
  intros _ l Hl. eapply (adds_bind _ _ (λ _ l, quiet l)).
  - change (is_quiet (if String.eqb (gh_Scope (cfg_GitHub cfg)) ScopeRepo then emit (EvMirror (target_slug cfg)) else ret tt)). quietly.
  - intros _ l' Hl'. apply adds_ret. rewrite app_nil_r. split; [by apply quiet_app|by intros ? [= <-]].
  - intros e l' Hl'. split; [by apply quiet_app|done].
Qed.

Lemma cache_adds cfg mgr : adds (startCache k cfg mgr) (λ r l, quiet l ∧ ∀ a, r = Ok a → advertised cfg a).
Proof.
  unfold startCache, advertised. destruct (is_empty (cache_ExternalURL _)) eqn:He; cbn [negb].
  - apply is_empty_true in He. destruct (c_cache k _) as [srv|e] eqn:Hc; [|by apply adds_throw]. cbv zeta.
    eapply (adds_bind _ _ (λ _ l, quiet l)); [by apply adds_emit| |done]. intros _ l Hl. apply adds_ret. rewrite app_nil_r.
    split; [done|]. intros a [= <-]. right. split; [done|]. by exists srv.
  - apply is_empty_false in He. apply adds_ret. split; [done|]. intros a [= <-]. by left.
Qed.

Lemma shared_adds cfg mgr : adds (shared_env k cfg mgr) (λ r l, quiet l ∧ ∀ shared, r = Ok shared → shared_of cfg shared).
Proof.
  unfold shared_env, shared_of. destruct (cache_Enabled _ && _) eqn:Hc; [|apply adds_ret; split; [done|intros ? [= <-]; by left]].
  apply andb_true_iff in Hc as [Hen Hm%negb_true_iff%String.eqb_neq].
  eapply adds_bind; [apply cache_adds| |by intros e l [? _]]. intros a l [Hl Ha]. apply adds_ret. rewrite app_nil_r. split; [done|].
  intros shared [= <-]. destruct (is_empty a); [by left|right]. split_and!; [done..|]. exists a. auto.
Qed.

Lemma install_quiet pc i d : is_quiet (maybeInstallWindowsDaemon k pc i d).
Proof. unfold maybeInstallWindowsDaemon. quietly. Qed.

(** ** The pools *)

Variable manifest : Manifest.

(** The daemon of a pool answers, at once or after an installation. *)
Definition answers_ping (pc : Config.Pool) : Prop :=
  c_ping k pc 0 = None ∨
  OS pc = "windows" ∧ Config.Backend pc ∈ [""; "docker"] ∧ c_install k = None ∧ c_ping k pc 1 = None.
Definition right_mode (pc : Config.Pool) : Prop := ∀ os, c_os k pc = Ok os → os = "" ∨ os = OS pc.
Definition usable (pc : Config.Pool) (be : backend_spec) : Prop :=
  newBackend pc = Some be ∧ c_make k be = None ∧ answers_ping pc ∧ right_mode pc.

(** What preparing a pool adds. *)
Definition prepares (pc : Config.Pool) (r : result (option backend_spec)) (l : list event) : Prop :=
  closed l = [] ∧ modes l = [] ∧
  match r with
  | Ok None => newBackend pc = None ∧ opened l = []
  | Ok (Some be) => usable pc be ∧ opened l = [pc]
  | Err _ => True
  end.

Lemma mode_adds pc : adds (check_mode k pc) (λ r l, quiet l ∧ (r = Ok tt → right_mode pc)).
Proof.
  unfold check_mode, right_mode. destruct (c_os k pc) as [os|e] eqn:Ho; [|by apply adds_ret].
  destruct (negb (is_empty os) && negb (String.eqb os (OS pc))) eqn:Hb; [by apply adds_throw|]. apply adds_ret. split; [done|].
  intros _ os' [= <-]. apply andb_false_iff in Hb as [Hb|Hb]; apply negb_false_iff in Hb;
    [left; by apply is_empty_true|right; by apply String.eqb_eq].
Qed.

Lemma ping_adds pc i d : adds (match c_ping k pc 0 with Some e => ping_failed k pc i d e | None => ret tt end)
  (λ r l, quiet l ∧ (r = Ok tt → answers_ping pc)).
Proof.
  unfold answers_ping. destruct (c_ping k pc 0) as [e|]; [|apply adds_ret; split; [done|by left]]. unfold ping_failed.
  destruct (String.eqb (OS pc) "windows" && _) eqn:Hw; [|destruct (String.eqb (Config.Backend pc) "containerd"); by apply adds_throw].
  apply andb_true_iff in Hw as [Hw%String.eqb_eq Hb%bool_mem_true].
  eapply (adds_bind _ _ (λ r l, quiet l ∧ (r = Ok tt → c_install k = None))); [|intros [] l [Hl Hi]|by intros e' l [? _]].
  - unfold maybeInstallWindowsDaemon. cbv zeta. destruct (_ && _); [by apply adds_throw|].
    eapply (adds_bind _ _ (λ _ l, quiet l)); [by apply adds_emit| |done]. intros _ l Hl.
    destruct (c_install k) as [e'|]; [apply adds_throw|apply adds_ret]; rewrite app_nil_r; done.
  - specialize (Hi eq_refl). destruct (c_ping k pc 1) as [e'|] eqn:Hp; [apply adds_throw|apply adds_ret]; rewrite app_nil_r; [done|].
    split; [done|]. intros _. right. auto.
Qed.

Lemma prepare_adds pc i d : adds (preparePool k pc i d) (prepares pc).
Proof.
  unfold preparePool, prepares. destruct (newBackend pc) as [be|] eqn:Hn; [|by apply adds_ret].
  eapply (adds_bind _ _ (λ r l, l = [] ∧ (r = Ok tt → c_make k be = None))).
  { unfold guard. destruct (c_make k be); [by apply adds_throw|by apply adds_ret]. }
  2:{ by intros e l [-> _]. }
  intros [] l [-> Hmk]. specialize (Hmk eq_refl). eapply (adds_bind _ _ (λ _ l, l = [EvOpen pc])); [by apply adds_emit| |by intros e l ->].
  intros _ l ->. eapply (adds_bind _ _ (λ _ l, quiet l)).
  { change (is_quiet (if String.eqb (Config.Backend pc) "qemu" then emit (EvClean pc) else ret tt)). quietly. }
  2:{ intros e l (_ & Hc & Hm). by rewrite !closed_app, !modes_app, Hc, Hm. }
  intros _ l1 (Ho1 & Hc1 & Hm1). eapply adds_bind; [apply ping_adds| |].
  2:{ intros e l2 [(_ & Hc2 & Hm2) _]. by rewrite !closed_app, !modes_app, Hc1, Hm1, Hc2, Hm2. }
  intros [] l2 [(Ho2 & Hc2 & Hm2) Hp]. specialize (Hp eq_refl). eapply adds_bind; [apply mode_adds| |].
  2:{ intros e l3 [(_ & Hc3 & Hm3) _]. by rewrite !closed_app, !modes_app, Hc1, Hm1, Hc2, Hm2, Hc3, Hm3. }
  intros [] l3 [(Ho3 & Hc3 & Hm3) Hr]. apply adds_ret.
  rewrite app_nil_r, !opened_app, !closed_app, !modes_app, Ho1, Hc1, Hm1, Ho2, Hc2, Hm2, Ho3, Hc3, Hm3. unfold usable. split_and!; try done. by apply Hr.
Qed.
(** A pool as the configuration asks for it, with a daemon that answers. *)
Definition ready (cfg : Config) (shared : gmap string string) (mgr : option GitEnv.Manager) (p : prepared) : Prop :=
  usable (pr_pool p) (pr_backend p) ∧ pr_image p = ImageRef manifest (pr_pool p) ∧
  (pr_env p, pr_mounts p) = poolEnvAndMounts cfg (pr_pool p) shared mgr.
Definition has_backend (pc : Config.Pool) : Prop := is_Some (newBackend pc).

Lemma pools_adds cfg shared mgr i d pools :
  adds (prepare_pools k manifest cfg shared mgr i d pools) (λ r l, closed l = [] ∧ modes l = [] ∧
    ∀ ps, r = Ok ps → pr_pool <$> ps = filter has_backend pools ∧ Forall (ready cfg shared mgr) ps ∧ opened l = pr_pool <$> ps).
Proof.
  induction pools as [|pc pools IH]; cbn [prepare_pools]; [apply adds_ret; split_and!; [done..|by intros ? [= <-]]|].
  eapply adds_bind; [apply prepare_adds| |by intros e l (? & ? & _)]. intros [be|] l (Hc & Hm & Hb); cbn in Hb.
  2:{ destruct Hb as [Hn Ho]. eapply adds_mono; [apply IH|]. cbn beta. intros r l' (Hc' & Hm' & Hr).
    rewrite closed_app, modes_app, opened_app, Hc, Hm, Ho, Hc', Hm'. split_and!; [done..|]. intros ps Hps.
    rewrite filter_cons_False; [by apply Hr|]. unfold has_backend. rewrite Hn. by intros [? ?]. }
  destruct Hb as [Hu Ho]. destruct (poolEnvAndMounts cfg pc shared mgr) as [env mounts] eqn:Hp.
  eapply (adds_bind _ _ (λ _ l, quiet l)); [by apply adds_emit| |].
  2:{ intros e l' (_ & Hc' & Hm'). by rewrite closed_app, modes_app, Hc, Hm, Hc', Hm'. }
  intros _ l1 (Ho1 & Hc1 & Hm1). eapply adds_bind; [exact IH| |].
  2:{ intros e l2 (Hc2 & Hm2 & _). by rewrite !closed_app, !modes_app, Hc, Hm, Hc1, Hm1, Hc2, Hm2. }
  intros ps l2 (Hc2 & Hm2 & Hps). destruct (Hps ps eq_refl) as (Hf & Hall & Ho2). apply adds_ret.
  rewrite app_nil_r, !closed_app, !modes_app, !opened_app, Hc, Hm, Hc1, Hm1, Hc2, Hm2, Ho, Ho1, Ho2. split_and!; [done..|].
  intros ps' [= <-]. rewrite fmap_cons. cbn [pr_pool]. rewrite filter_cons_True by (exists be; apply Hu). rewrite Hf. split_and!; [done| |done].
  constructor; [|done]. by split_and!.
Qed.

(** ** The mode *)

(** The mode that the configuration names, for these pools. *)
Definition mode_for (cfg : Config) (hooks : Hooks) (ps : list prepared) (m : mode) : Prop :=
  let gh := cfg_GitHub cfg in
  match m with
  | ModeScaleset sessions =>
      IsScaleset (cfg_Provisioning cfg) = true ∧
      ∃ target, TargetURL (gh_URL gh) (gh_Scope gh) (gh_Owner gh) (gh_Repo gh) = Ok target ∧ sessions = session_of target <$> ps
  | ModeAutoscale launchers _ =>
      IsScaleset (cfg_Provisioning cfg) = false ∧ IsAutoscale (cfg_Provisioning cfg) = true ∧ launchers = launcher_of hooks <$> ps
  | ModePool launchers =>
      IsScaleset (cfg_Provisioning cfg) = false ∧ IsAutoscale (cfg_Provisioning cfg) = false ∧ launchers = launcher_of hooks <$> ps
  end.

Lemma choose_adds cfg hooks ps : adds (choose_mode k cfg hooks ps) (λ r l, l = [] ∧ ∀ m, r = Ok m → mode_for cfg hooks ps m).
Proof.
  unfold choose_mode. destruct (IsScaleset _) eqn:Hs.
  - unfold scaleset_mode. cbv zeta. eapply (adds_bind _ _ (λ r l, l = [] ∧ r = TargetURL (gh_URL (cfg_GitHub cfg)) (gh_Scope (cfg_GitHub cfg)) (gh_Owner (cfg_GitHub cfg)) (gh_Repo (cfg_GitHub cfg)))).
    + unfold of_result. destruct (TargetURL _ _ _ _); [by apply adds_ret|by apply adds_throw].
    + intros target l [-> Ht]. destruct (c_client k _), ps; (apply adds_throw || apply adds_ret); split; try done;
        intros m [= <-]; split; try done; by exists target.
    + by intros e l [-> _].
  - destruct (IsAutoscale _) eqn:Ha; apply adds_ret; (split; [done|]); intros m [= <-]; by split_and!.
Qed.

Lemma run_adds cfg hooks ps : adds (run_mode k cfg hooks ps) (λ r l,
  (l = [] ∧ r ≠ Ok tt) ∨ ∃ m, l = [EvRun m] ∧ mode_for cfg hooks ps m ∧ ps ≠ [] ∧ (r = Ok tt ↔ c_run k m = None)).
Proof.
  unfold run_mode. destruct ps as [|p ps]; [apply adds_throw; by left|].
  eapply adds_bind; [apply choose_adds| |by intros e l [-> _]; left]. intros m l [-> Hm].
  eapply (adds_bind _ _ (λ r l, l = [EvRun m] ∧ r = Ok tt)); [by apply adds_emit| |by intros e l [-> ?]]. intros _ l [-> _].
  unfold guard. destruct (c_run k m) eqn:Hr; [apply adds_throw|apply adds_ret]; right; exists m; (split; [done|split; [by apply Hm|split; [done|by rewrite Hr]]]).
Qed.

Lemma close_adds ps : adds (close_all ps) (λ r l, r = Ok tt ∧ l = (λ p, EvClose (pr_pool p)) <$> ps).
Proof.
  induction ps as [|p ps IH]; cbn [close_all]; [by apply adds_ret|].
  eapply (adds_bind _ _ (λ r l, l = [EvClose (pr_pool p)] ∧ r = Ok tt)); [by apply adds_emit| |by intros e l [_ ?]].
  intros _ l [-> _]. eapply adds_mono; [exact IH|]. cbn beta. intros r l [-> ->]. done.
Qed.

(** A run that ends before its mode, or with it. *)
Definition ends_early (r : result unit) (tr : list event) : Prop :=
  r ≠ Ok tt ∧ modes tr = [] ∧
  (closed tr = [] ∨ closed tr = opened tr).
Definition ends_with_mode (cfg : Config) (hooks : Hooks) (r : result unit) (tr : list event) : Prop :=
  ∃ shared ps before m,
    shared_of cfg shared ∧
    pr_pool <$> ps = filter has_backend (Config.Pools cfg) ∧ ps ≠ [] ∧ Forall (ready cfg shared (manager_of cfg)) ps ∧
    mode_for cfg hooks ps m ∧
    tr = before ++ EvRun m :: ((λ p, EvClose (pr_pool p)) <$> ps) ∧
    opened before = pr_pool <$> ps ∧ closed before = [] ∧ modes before = [] ∧
    (r = Ok tt ↔ c_run k m = None).

Lemma closed_pools ps : closed ((λ p, EvClose (pr_pool p)) <$> ps) = pr_pool <$> ps.
Proof. induction ps as [|p ps IH]; [done|]. cbn. f_equal. exact IH. Qed.
Lemma opened_pools ps : opened ((λ p, EvClose (pr_pool p)) <$> ps) = [].
Proof. induction ps as [|p ps IH]; [done|]. exact IH. Qed.
Lemma modes_pools ps : modes ((λ p, EvClose (pr_pool p)) <$> ps) = [].
Proof. induction ps as [|p ps IH]; [done|]. exact IH. Qed.

Definition ends (cfg : Config) (hooks : Hooks) (r : result unit) (tr : list event) : Prop :=
  ends_early r tr ∨ ends_with_mode cfg hooks r tr.

(** What comes before the pools changes nothing. *)
Lemma ends_after cfg hooks r l l' : quiet l → ends cfg hooks r l' → ends cfg hooks r (l ++ l').
Proof.
  intros (Ho & Hc & Hm) [(Hr & Hm' & Hc')|(shared & ps & before & m & Hs & Hp & Hne & Hall & Hmo & -> & Ho' & Hc' & Hm' & Hr)].
  - left. split; [done|]. by rewrite modes_app, opened_app, closed_app, Ho, Hc, Hm.
  - right. exists shared, ps, (l ++ before), m. rewrite <- app_assoc, opened_app, closed_app, modes_app, Ho, Hc, Hm. by split_and!.
Qed.
Lemma quiet_fails cfg hooks e l : quiet l → ends cfg hooks (Err e) l.
Proof. intros (Ho & Hc & Hm). left. split; [done|]. auto. Qed.

Lemma ends_bind {A} cfg hooks (c : M (list event) A) (f : A → M (list event) unit) (Q : A → Prop) :
  adds c (λ r l, quiet l ∧ ∀ a, r = Ok a → Q a) → (∀ a, Q a → adds (f a) (ends cfg hooks)) → adds (bind c f) (ends cfg hooks).
Proof.
  intros Hc Hf. eapply adds_bind; [exact Hc| |intros e l [Hl _]; by apply quiet_fails]. intros a l [Hl Ha].
  eapply adds_mono; [apply Hf, Ha; done|]. intros r l' Hl'. by apply ends_after.
Qed.
Lemma ends_quiet {A} cfg hooks (c : M (list event) A) (f : A → M (list event) unit) :
  is_quiet c → (∀ a, adds (f a) (ends cfg hooks)) → adds (bind c f) (ends cfg hooks).
Proof.
  intros Hc Hf. eapply (ends_bind _ _ _ _ (λ _, True)); [|auto]. eapply adds_mono; [exact Hc|]. auto.
Qed.

Lemma ends_error cfg hooks e e' l : ends cfg hooks (Err e) l → ends cfg hooks (Err e') l.
Proof.
  intros [(_ & Hm & Hc)|(shared & ps & before & m & Hs & Hp & Hne & Hall & Hmo & Htr & Ho & Hc & Hm & Hr)]; [by left|right].
  exists shared, ps, before, m. do 9 (split; [done|]). destruct Hr as [_ Hr]. split; [done|]. intros Hk. by apply Hr in Hk.
Qed.

(** The mode of pools that are ready, and the closing of their backends. *)
Lemma serve_adds cfg hooks shared ps : shared_of cfg shared → pr_pool <$> ps = filter has_backend (Config.Pools cfg) →
  Forall (ready cfg shared (manager_of cfg)) ps →
  adds (catch (run_mode k cfg hooks ps) (λ r, close_all ps ;;; of_result r)) (λ r l,
    ∀ before, opened before = pr_pool <$> ps → closed before = [] → modes before = [] → ends cfg hooks r (before ++ l)).
Proof.
  intros Hs Hp Hall. eapply adds_catch; [apply run_adds|]. intros r l Hr.
  eapply adds_bind; [apply close_adds| |by intros e l' [? _]]. intros _ l' [_ ->].
  assert (adds (of_result (A := unit) r) (λ r' l', l' = [] ∧ r' = r)) as Hres.
  { unfold of_result. destruct r; [by apply adds_ret|by apply adds_throw]. }
  eapply adds_mono; [exact Hres|]. cbn beta. intros r' l' [-> ->] before Ho Hc Hm. rewrite app_nil_r.
  destruct Hr as [[-> Hr]|(m & -> & Hmo & Hne & Hr)].
  - left. split; [done|]. cbn [app]. rewrite modes_app, closed_app, opened_app, modes_pools, closed_pools, opened_pools, Ho, Hc, Hm.
    split; [done|]. right. by rewrite app_nil_r.
  - right. by exists shared, ps, before, m.
Qed.

Lemma orchestrate_adds cfg hooks i d : adds (orchestrate k manifest cfg hooks i d) (ends cfg hooks).
Proof.
  unfold orchestrate. apply ends_quiet; [apply github_quiet|intros _]. apply ends_quiet; [apply housekeeping_quiet|intros _].
  eapply ends_bind; [apply git_adds|]. intros mgr ->. eapply ends_bind; [apply shared_adds|]. intros shared Hs.
  apply ends_quiet; [quietly|intros _]. eapply adds_bind; [apply pools_adds| |].
  - intros ps l (Hc & Hm & Hps). destruct (Hps ps eq_refl) as (Hf & Hall & Ho).
    eapply adds_mono; [by apply (serve_adds _ _ shared)|]. cbn beta. intros r l' Hl'. by apply Hl'.
  - intros e l (Hc & Hm & _). left. split; [done|]. auto.
Qed.
End quiet.

(** C17: The orchestrator runs a mode only with every configured pool ready, and
    closes what it ran.  From a configuration, a run either fails before any
    mode, or there is exactly one mode and it is the one that the configuration
    names; its pools are, in order, the configured pools that have a backend,
    each with a client, a daemon that answered, after an installation if it is
    one of Windows containers, and that is in the mode of the pool's system, its
    image, and the environment and the mounts of the caches; all were opened
    before, each is closed once after, and the run succeeds when the mode does.
    A run that fails before its mode closes nothing, or all it has opened. *)
Theorem orchestrator_starts k manifest cfg hooks interactive installDeps r tr
    (Hrun : runOrchestrator k manifest (Ok cfg) hooks interactive installDeps [] = (r, tr)) :
  ends_early r tr ∨ ends_with_mode k manifest cfg hooks r tr.
Proof.
  assert (adds (runOrchestrator k manifest (Ok cfg) hooks interactive installDeps) (ends k manifest cfg hooks)) as Hadds.
  { unfold runOrchestrator. eapply (ends_bind _ _ _ _ _ _ (λ cfg', cfg' = cfg)).
    - apply adds_ret. split; [done|]. by intros ? [= <-].
    - intros ? ->. eapply adds_catch; [apply orchestrate_adds|]. cbn beta. intros [[]|e] l Hl.
      + apply adds_ret. by rewrite app_nil_r.
      + apply adds_throw. rewrite app_nil_r. revert Hl. apply ends_error. }
  specialize (Hadds []). unfold wp in Hadds. rewrite Hrun in Hadds. destruct Hadds as (l & Htr & Hl). cbn in Htr, Hl. by subst l.
Qed.

(** Two pools, and a mode that fails with the personal access token in its
    message. *)
Definition demo_server : Server :=
  {| advertiseURL := "http://10.0.0.2:9876"; accessToken := ""; upstream := None; gitBundlerRepo := ""; gitBundler := None;
     gcInterval := 0; gcMaxAge := 0; gcMaxBytes := 0 |}.
Definition demo_calls : calls :=
  {| c_github := λ _, None; c_hash := λ _, Ok ""; c_mkdir := None; c_cache := λ _, Ok demo_server; c_make := λ _, None;
     c_ping := λ _ _, None; c_os := λ _, Ok "linux"; c_hint := ""; c_confirm := false; c_install := None; c_client := λ _, None;
     c_run := λ _, Some (errorf "401 for ghp_xyz9"); c_ended := false |}.
Definition demo_config : Config :=
  applyDefaults (resolveSecrets {["TOKEN" := "ghp_xyz9"]} (sample_config "org" "" [] [pool_a; pool_b])).

Lemma orchestrator_starts_witness :
  let '(r, tr) := runOrchestrator demo_calls sample_manifest (Ok demo_config) (MkHooks true true) false false [] in
  r = Err (errorf "401 for <redacted>") ∧ Name <$> closed tr = ["a"; "b"] ∧
  (ends_early r tr ∨ ends_with_mode demo_calls sample_manifest demo_config (MkHooks true true) r tr).
Proof.
  destruct (runOrchestrator _ _ _ _ _ _ _) as [r tr] eqn:Hrun. split; [|split].
  - vm_compute in Hrun. injection Hrun as <- _. reflexivity.
  - vm_compute in Hrun. injection Hrun as _ <-. reflexivity.
  - exact (orchestrator_starts _ _ _ _ _ _ _ _ Hrun).
Defined.

(** ** The error *)

Lemma orchestrator_secrets_elem cfg s : s ≠ "" →
  (s ∈ orchestrator_secrets cfg ↔ s ∈ [PAT (cfg_Auth cfg); wh_Secret (cfg_Webhook cfg); cache_AccessToken (cfg_Cache cfg)]).
Proof. intros Hs. unfold orchestrator_secrets. by apply newRedactingWriter_keeps. Qed.

Lemma orchestrator_secrets_ascii cfg :
  forallb ascii_text [PAT (cfg_Auth cfg); wh_Secret (cfg_Webhook cfg); cache_AccessToken (cfg_Cache cfg)] = true →
  forallb ascii_text (orchestrator_secrets cfg) = true.
Proof.
  rewrite !forallb_forall. intros Hall s Hs. destruct (decide (s = "")) as [->|Hne]; [done|].
  apply Hall, list_elem_of_In, orchestrator_secrets_elem, list_elem_of_In; done.
Qed.

Lemma orchestrator_fails k manifest cfg hooks i d e tr :
  orchestrate k manifest cfg hooks i d [] = (Err e, tr) → c_ended k = false →
  runOrchestrator k manifest (Ok cfg) hooks i d [] =
    (Err (errorf (sanitizeLogTextWithSecrets (error_text e) (orchestrator_secrets cfg))), tr).
Proof.
  intros He Hk. unfold runOrchestrator, of_result, bind, catch, ret. cbv beta iota. by rewrite He, Hk.
Qed.

(** The error that the orchestrator ends with holds no secret of its
    configuration: however it failed, in whatever part, the text holds neither
    the personal access token nor the webhook's secret nor the access token of
    the cache, although the writer of the log has sorted the list of the
    secrets in place before: for secrets that are ASCII text, and an error of
    which no control character is dropped. *)
Theorem orchestrator_error_hides k manifest cfg hooks interactive installDeps e e0 tr tr0 s
    (Hfails : orchestrate k manifest cfg hooks interactive installDeps [] = (Err e0, tr0))
    (Hended : c_ended k = false)
    (Hrun : runOrchestrator k manifest (Ok cfg) hooks interactive installDeps [] = (Err e, tr))
    (Hin : s ∈ [PAT (cfg_Auth cfg); wh_Secret (cfg_Webhook cfg); cache_AccessToken (cfg_Cache cfg)])
    (Hs : unwritten s)
    (Hascii : forallb ascii_text [PAT (cfg_Auth cfg); wh_Secret (cfg_Webhook cfg); cache_AccessToken (cfg_Cache cfg)] = true)
    (Hplain : undropped (error_text e0) = true) :
  contains (error_text e) s = false ∧ tr = tr0.
Proof.
  rewrite (orchestrator_fails _ _ _ _ _ _ _ _ Hfails Hended) in Hrun. injection Hrun as <- <-. split; [|done].
  cbn [error_text]. apply sanitize_gone.
  - apply orchestrator_secrets_elem; [apply Hs|done].
  - done.
  - by apply orchestrator_secrets_ascii.
  - done.
Qed.

Definition demo_run (c : M (list event) unit) : result unit := (c []).1.

Lemma orchestrator_error_hides_witness :
  demo_run (runOrchestrator demo_calls sample_manifest (Ok demo_config) (MkHooks true true) false false) = Err (errorf "401 for <redacted>") ∧
  contains "401 for <redacted>" "ghp_xyz9" = false.
Proof.
  assert (demo_run (orchestrate demo_calls sample_manifest demo_config (MkHooks true true) false false) = Err (errorf "401 for ghp_xyz9")) as H0
    by (vm_compute; reflexivity).
  assert (demo_run (runOrchestrator demo_calls sample_manifest (Ok demo_config) (MkHooks true true) false false) = Err (errorf "401 for <redacted>")) as H1
    by (vm_compute; reflexivity).
  split; [exact H1|]. unfold demo_run in H0, H1.
  destruct (orchestrate demo_calls _ _ _ _ _ _) as [r tr0] eqn:Hf.
  destruct (runOrchestrator demo_calls _ _ _ _ _ _) as [r' tr] eqn:Hr. cbn [fst] in H0, H1. subst r r'.
  refine (proj1 (orchestrator_error_hides _ _ _ _ _ _ _ _ _ _ _ Hf eq_refl Hr _ _ _ _)).
  - vm_compute. left.
  - split_and!; [discriminate|reflexivity|reflexivity|]. intros name Hn. unfold placeholders in Hn.
    rewrite !elem_of_cons, elem_of_nil in Hn. destruct Hn as [->|[->|[->|[->|[]]]]]; reflexivity.
  - vm_compute. reflexivity.
  - vm_compute. reflexivity.
Defined.
