(* ===== verification/Bake.v ===== *)
(** * The bake of a golden image

    [internal/winvm/bake.go] from the selected tools on, [meta.go], the writer
    of [iso.go], the actions of [housekeeping_run.go] and the QMP conversations
    of an installation ([qmp.go]).  Files, feeds and failing calls are those of
    [Host]; QEMU, qemu-img, the ISO library and the embedded templates answer
    through [Workshop]. *)

From S2P Require Import Prelude GoErr GoStr Codec Sha256 Sha512 ImageVersions BakePlan Filepath Json Host Qemu Redact.

Local Open Scope Z_scope.
Local Open Scope go_scope.

(** ** Artifacts *)

Record bakeArtifact := Artifact {
  art_Name : string;
  art_Version : string;
  art_URL : string;
  art_Algorithm : string;
  art_Digest : string
}.

Definition validateSHA256 (digest : string) : option goerror :=
  if negb (String.length digest =? 64)%nat then Some (errorf "must contain 64 hexadecimal characters")
  else match hex_decode digest with
       | None => Some (errorf_w "must be hexadecimal: " (ENew "hex.InvalidByteError" "encoding/hex: invalid byte"))
       | Some _ => None
       end.

(** Releases that are not in the manifest, as Go reads them. *)
Definition no_channel : DotNetChannel := Build_DotNetChannel [] "" "" "" "" "" "" "".
Definition no_node : NodeRelease := Build_NodeRelease "" "" "" "" "".
Definition no_line : BuildToolsLine := Build_BuildToolsLine "" "" "" "" "" "" "".

Section artifacts.
Variable m : Manifest.

Definition DefaultRunnerVersion : string := runner_Version (min_Runner (m_Minimal m)).
Definition DefaultRunnerSHA256 : string := runner_WindowsX64SHA256 (min_Runner (m_Minimal m)).
Definition minGit : MinGit := min_MinGit (m_Minimal m).

Definition bakeNodeURLForVersion (version : string) : string :=
  "https://nodejs.org/dist/v" +:+ version +:+ "/node-v" +:+ version +:+ "-win-x64.zip".
Definition bakeGoURL : string := "https://go.dev/dl/go" +:+ go_Version (m_Go m) +:+ ".windows-amd64.zip".
Definition bakeDotNetURL (version : string) : string :=
  "https://builds.dotnet.microsoft.com/dotnet/Sdk/" +:+ version +:+ "/dotnet-sdk-" +:+ version +:+ "-win-x64.zip".

Definition channel_of (channel : string) : DotNetChannel := default no_channel (Channels (m_DotNet m) !! channel).
Definition node_of (major : string) : NodeRelease := default no_node (Releases (m_Node m) !! major).
Definition line_of (line : string) : BuildToolsLine := default no_line (Lines (m_BuildTools m) !! line).

Definition bakeDotNetArtifactName (channel : string) : string := "dotnet-" +:+ ReplaceAll channel "." "-" +:+ ".zip".
Definition bakeDotNetArtifacts (channels : list string) : list bakeArtifact :=
  (λ channel, let release := channel_of channel in
              Artifact (bakeDotNetArtifactName channel) (ch_Version release) (bakeDotNetURL (ch_Version release)) "SHA512"
                       (ch_WindowsX64SHA512 release)) <$> channels.

Definition bakeNodeArtifactName (major : string) : string := "node-" +:+ major +:+ ".zip".
Definition bakeCorepackArtifact : bakeArtifact :=
  let corepack := node_Corepack (m_Node m) in
  Artifact "corepack.tgz" (ImageVersions.cp_Version corepack) (ImageVersions.cp_URL corepack) "SHA512" (ImageVersions.cp_SHA512 corepack).
Definition node_artifact (major : string) : bakeArtifact :=
  let release := node_of major in
  Artifact (bakeNodeArtifactName major) (nr_Version release) (bakeNodeURLForVersion (nr_Version release)) "SHA256"
           (nr_WindowsX64SHA256 release).
Definition bakeNodeArtifacts (majors : list string) : list bakeArtifact :=
  match majors with [] => [] | _ => (node_artifact <$> majors) ++ [bakeCorepackArtifact] end.

Definition bakeBuildToolsArtifactName (line suffix : string) : string := "vs-" +:+ line +:+ "." +:+ suffix.
Definition bakeBuildToolsArtifacts (lines : list string) : list bakeArtifact :=
  lines ≫= λ line, let release := line_of line in
    [Artifact (bakeBuildToolsArtifactName line "exe") (bt_Version release) (BootstrapperURL release) "SHA256" (BootstrapperSHA256 release);
     Artifact (bakeBuildToolsArtifactName line "channel") (bt_Version release) (ChannelURL release) "SHA256" (ChannelSHA256 release)].

Definition go_artifact : bakeArtifact :=
  Artifact "go.zip" (go_Version (m_Go m)) bakeGoURL "SHA256" (go_WindowsAMD64SHA256 (m_Go m)).
Definition tool_artifacts (plan : bakeToolPlan) (tool : string) : list bakeArtifact :=
  if String.eqb tool "node" then bakeNodeArtifacts (plan_Node plan)
  else if String.eqb tool "go" then [go_artifact]
  else if String.eqb tool "dotnet" then bakeDotNetArtifacts (plan_DotNet plan)
  else if String.eqb tool "buildtools" then bakeBuildToolsArtifacts (plan_BuildTools plan)
  else [].
Definition runner_artifact (version digest : string) : bakeArtifact :=
  Artifact "runner.zip" version
    ("https://github.com/actions/runner/releases/download/v" +:+ version +:+ "/actions-runner-win-x64-" +:+ version +:+ ".zip")
    "SHA256" digest.
Definition mingit_artifact : bakeArtifact :=
  Artifact "mingit.zip" (mingit_Version minGit) (mingit_URL minGit) "SHA256" (mingit_SHA256 minGit).

Definition bakeArtifactsForPlan (runnerVersion runnerSHA256 : string) (plan : bakeToolPlan) : result (list bakeArtifact) :=
  let runnerVersion := if is_empty runnerVersion then DefaultRunnerVersion else runnerVersion in
  if is_empty runnerSHA256 && negb (String.eqb runnerVersion DefaultRunnerVersion)
  then Err (errorf ("runner SHA256 is required for custom version " +:+ runnerVersion))
  else
    let runnerSHA256 := if is_empty runnerSHA256 then DefaultRunnerSHA256 else runnerSHA256 in
    match validateSHA256 runnerSHA256 with
    | Some e => Err (errorf_w "runner SHA256: " e)
    | None => Ok ([runner_artifact runnerVersion runnerSHA256; mingit_artifact] ++ (Kinds plan ≫= tool_artifacts plan))
    end.

(** ** The installation scripts *)

Definition script_line (s : string) : string := "                " +:+ s +:+ newline.
Definition fetch_line (name url algorithm digest : string) : string :=
  script_line ("FetchOrStage '" +:+ name +:+ "' '" +:+ url +:+ "' C:\" +:+ name +:+ " " +:+ algorithm +:+ " '" +:+ digest +:+ "'").
Definition machine_variable (name value : string) : string :=
  script_line ("[Environment]::SetEnvironmentVariable('" +:+ name +:+ "', '" +:+ value +:+ "', 'Machine')").

Definition dotnet_script (a : bakeArtifact) : string :=
  fetch_line (art_Name a) (art_URL a) "SHA512" (art_Digest a) +:+
  script_line ("Expand-Archive C:\" +:+ art_Name a +:+ " C:\dotnet -Force") +:+
  script_line ("Remove-Item C:\" +:+ art_Name a).
Definition bakeDotNetInstallScript (channels : list string) : string :=
  trim_suffix newline (String.concat "" (dotnet_script <$> bakeDotNetArtifacts channels)).

Definition node_dest (release : NodeRelease) : string := "C:\hostedtoolcache\windows\node\" +:+ nr_Version release +:+ "\x64".
Definition node_script (major : string) : string :=
  let release := node_of major in
  let archive := bakeNodeArtifactName major in
  let temp := "C:\node-" +:+ major in
  let dest := node_dest release in
  fetch_line archive (bakeNodeURLForVersion (nr_Version release)) "SHA256" (nr_WindowsX64SHA256 release) +:+
  script_line ("Expand-Archive C:\" +:+ archive +:+ " '" +:+ temp +:+ "' -Force") +:+
  script_line ("New-Item -ItemType Directory -Force '" +:+ dest +:+ "' | Out-Null") +:+
  script_line ("Copy-Item '" +:+ temp +:+ "\node-v" +:+ nr_Version release +:+ "-win-x64\*' '" +:+ dest +:+ "' -Recurse -Force") +:+
  script_line ("New-Item -ItemType File -Force '" +:+ dest +:+ ".complete' | Out-Null") +:+
  script_line ("Remove-Item C:\" +:+ archive +:+ ", '" +:+ temp +:+ "' -Recurse -Force").
(** The loop that stops at the default: the last one, if it is not there. *)
Fixpoint selected (wanted current : string) (l : list string) : string :=
  match l with
  | [] => current
  | x :: l => if String.eqb x wanted then x else selected wanted x l
  end.
Definition corepack_script (dest : string) : string :=
  let corepack := bakeCorepackArtifact in
  machine_variable "AGENT_TOOLSDIRECTORY" "C:\hostedtoolcache\windows" +:+
  machine_variable "RUNNER_TOOL_CACHE" "C:\hostedtoolcache\windows" +:+
  script_line ("Add-MachinePath '" +:+ dest +:+ "'") +:+
  script_line ("Add-MachinePath '" +:+ dest +:+ "\node_modules\npm\bin'") +:+
  fetch_line (art_Name corepack) (art_URL corepack) "SHA512" (art_Digest corepack) +:+
  script_line ("& '" +:+ dest +:+ "\npm.cmd' install -g --no-audit --no-fund --no-update-notifier C:\" +:+ art_Name corepack) +:+
  script_line "if ($LASTEXITCODE -ne 0) { throw 'Corepack install failed' }" +:+
  script_line ("Remove-Item C:\" +:+ art_Name corepack) +:+
  script_line ("& '" +:+ dest +:+ "\corepack.cmd' enable --install-directory '" +:+ dest +:+ "' 2>$null").
Definition bakeNodeInstallScript (majors : list string) : string :=
  let chosen := selected (format_int (DefaultMajor (m_Node m))) "" majors in
  trim_suffix newline (String.concat "" (node_script <$> majors) +:+
                       (if is_empty chosen then "" else corepack_script (node_dest (node_of chosen)))).

Definition buildtools_script (line : string) : string :=
  let release := line_of line in
  let exe := bakeBuildToolsArtifactName line "exe" in
  let channel := bakeBuildToolsArtifactName line "channel" in
  let installPath := "C:\BuildTools\" +:+ line in
  let component c := script_line ("    '--add', '" +:+ c +:+ "', `") in
  fetch_line exe (BootstrapperURL release) "SHA256" (BootstrapperSHA256 release) +:+
  fetch_line channel (ChannelURL release) "SHA256" (ChannelSHA256 release) +:+
  script_line ("$p = Start-Process -FilePath C:\" +:+ exe +:+ " -Wait -PassThru -ArgumentList `") +:+
  script_line ("    '--quiet', '--wait', '--norestart', '--nocache', '--installPath', '" +:+ installPath +:+ "', `") +:+
  script_line ("    '--channelUri', 'file:///C:/" +:+ channel +:+ "', '--installChannelUri', 'file:///C:/" +:+ channel +:+ "', '--noUpdateInstaller', `") +:+
  component "Microsoft.VisualStudio.Workload.VCTools" +:+
  component "Microsoft.VisualStudio.Component.VC.Tools.x86.x64" +:+
  component "Microsoft.VisualStudio.Component.Windows11SDK.26100" +:+
  component "Microsoft.VisualStudio.Component.VC.CMake.Project" +:+
  component "Microsoft.Net.Component.4.8.SDK" +:+
  component "Microsoft.Net.Component.4.8.TargetingPack" +:+
  script_line "    '--add', 'Microsoft.VisualStudio.Component.Roslyn.Compiler', '--includeRecommended'" +:+
  script_line ("if ($p.ExitCode -ne 0 -and $p.ExitCode -ne 3010) { throw " +:+
               in_quotes ("vs_buildtools " +:+ line +:+ " failed: $($p.ExitCode)") +:+ " }") +:+
  script_line ("Remove-Item C:\" +:+ exe +:+ ", C:\" +:+ channel) +:+
  machine_variable ("VSBUILDTOOLS_" +:+ line) installPath.
Definition bakeBuildToolsInstallScript (lines : list string) : string :=
  let chosen := selected (DefaultLine (m_BuildTools m)) "" lines in
  trim_suffix newline (String.concat "" (buildtools_script <$> lines) +:+
                       (if is_empty chosen then "" else machine_variable "VSBUILDTOOLS" ("C:\BuildTools\" +:+ chosen))).
End artifacts.

(** ** Options *)

Record BakeOptions := {
  WindowsISO : string;
  WindowsISOSHA256 : string;
  bo_Golden : string;
  DiskGB : Z;
  bo_MemMB : Z;
  bo_CPUs : Z;
  bo_Accel : string;
  bo_RunnerVersion : string;
  bo_RunnerSHA256 : string;
  bo_Tools : list string;
  AdminPassword : string;
  bo_EvalDays : Z;
  bo_MaxRearms : Z;
  bo_Licensed : bool;
  bo_WorkflowsHash : string;
  QEMUBin : string;
  ImgBin : string;
  OVMFCode : string;
  OVMFVarsTemplate : string;
  VNC : string;
  VNCWeb : string;
  VNCWebSocket : string;
  bo_Timeout : Z
}.

Definition set_hash (hash : string) (o : BakeOptions) : BakeOptions :=
  {| WindowsISO := WindowsISO o; WindowsISOSHA256 := WindowsISOSHA256 o; bo_Golden := bo_Golden o; DiskGB := DiskGB o;
     bo_MemMB := bo_MemMB o; bo_CPUs := bo_CPUs o; bo_Accel := bo_Accel o; bo_RunnerVersion := bo_RunnerVersion o;
     bo_RunnerSHA256 := bo_RunnerSHA256 o; bo_Tools := bo_Tools o; AdminPassword := AdminPassword o; bo_EvalDays := bo_EvalDays o;
     bo_MaxRearms := bo_MaxRearms o; bo_Licensed := bo_Licensed o; bo_WorkflowsHash := hash; QEMUBin := QEMUBin o;
     ImgBin := ImgBin o; OVMFCode := OVMFCode o; OVMFVarsTemplate := OVMFVarsTemplate o; VNC := VNC o; VNCWeb := VNCWeb o;
     VNCWebSocket := VNCWebSocket o; bo_Timeout := bo_Timeout o |}.
Definition set_vnc (vnc websocket : string) (o : BakeOptions) : BakeOptions :=
  {| WindowsISO := WindowsISO o; WindowsISOSHA256 := WindowsISOSHA256 o; bo_Golden := bo_Golden o; DiskGB := DiskGB o;
     bo_MemMB := bo_MemMB o; bo_CPUs := bo_CPUs o; bo_Accel := bo_Accel o; bo_RunnerVersion := bo_RunnerVersion o;
     bo_RunnerSHA256 := bo_RunnerSHA256 o; bo_Tools := bo_Tools o; AdminPassword := AdminPassword o; bo_EvalDays := bo_EvalDays o;
     bo_MaxRearms := bo_MaxRearms o; bo_Licensed := bo_Licensed o; bo_WorkflowsHash := bo_WorkflowsHash o; QEMUBin := QEMUBin o;
     ImgBin := ImgBin o; OVMFCode := OVMFCode o; OVMFVarsTemplate := OVMFVarsTemplate o; VNC := vnc; VNCWeb := VNCWeb o;
     VNCWebSocket := websocket; bo_Timeout := bo_Timeout o |}.

Definition minutes (n : Z) : Z := n * (60 * 10 ^ 9).
Definition bakeBaseTimeout : Z := minutes 45.
Definition bakeBuildToolsTimeout : Z := minutes 90.
Definition bakeToolchainTimeout : Z := minutes 75.

Definition bakeTimeoutForPlan (plan : bakeToolPlan) : Z :=
  foldl (λ timeout kind,
    if bool_mem kind ["dotnet"; "node"; "go"] then (if timeout <? bakeToolchainTimeout then bakeToolchainTimeout else timeout) else timeout)
    (wrap64 (bakeBaseTimeout + wrap64 (Z.of_nat (length (plan_BuildTools plan)) * bakeBuildToolsTimeout))) (Kinds plan).

Definition GoldenSerialPath (golden : string) : string := golden +:+ ".serial.log".
Definition bake_vars (golden : string) : string := golden +:+ ".vars.fd".
Definition metaPath (golden : string) : string := golden +:+ ".meta.json".
Definition autounattend_path (golden : string) : string := golden +:+ ".autounattend.iso".
Definition goldenOKMarker : string := "MR:GOLDEN_OK".

(** [time.Duration.String] *)
Fixpoint pad_zeros (n : nat) (s : string) : string := match n with O => s | S n => pad_zeros n (String "0" s) end.
Definition fraction (prec : nat) (v : Z) : string :=
  let r := v mod 10 ^ Z.of_nat prec in
  if r =? 0 then "" else "." +:+ trim_right (pad_zeros (prec - String.length (format_int r)) (format_int r)) "0".
Definition format_duration (d : Z) : string :=
  let u := Z.abs d in
  let part prec unit := format_int (u / 10 ^ Z.of_nat prec) +:+ fraction prec u +:+ unit in
  let seconds := u / 10 ^ 9 in
  let s60 := format_int (seconds mod 60) +:+ fraction 9 u +:+ "s" in
  if u =? 0 then "0s"
  else (if d <? 0 then "-" else "") +:+
       (if u <? 10 ^ 3 then part 0%nat "ns"
        else if u <? 10 ^ 6 then part 3%nat (utf8 181 +:+ "s")
        else if u <? 10 ^ 9 then part 6%nat "ms"
        else if seconds <? 60 then s60
        else if seconds <? 3600 then format_int (seconds / 60) +:+ "m" +:+ s60
        else format_int (seconds / 3600) +:+ "h" +:+ format_int (seconds / 60 mod 60) +:+ "m" +:+ s60).
Example duration_texts : format_duration <$> [minutes 45; 1500000; 90000000000; minutes 225 + 1; 1] =
  ["45m0s"; "1.5ms"; "1m30s"; "3h45m0.000000001s"; "1ns"].
Proof. vm_compute. reflexivity. Qed.

(** ** The workshop *)

(** A run of QEMU: whether it starts, what it leaves in the files it was given
    to write, and how it ends, if it does before it is killed; it opens the log
    of the serial port from the start. *)
Record guest_run := GuestRun {
  g_start : option goerror;
  g_disk : string;
  g_vars : string;
  g_serial : option string;
  g_exit : option (option goerror)
}.

(** [img_create]: qemu-img's error with its output, and the disk it leaves.
    [iso_add]: what the ISO writer says of a file.  [ports host excluded]: the
    ports that the system gives on a host before the last, and the last, an
    error or a port that will do.  [look_path] and [bin_dir]: [exec.LookPath]
    and [lookPathDir]. *)
Class Workshop := {
  template : string → result string;
  iso_new : option goerror;
  iso_add : string → string → option goerror;
  iso_image : string → list (string * string) → string;
  encode_meta : GoldenMeta → result string;
  decode_meta : string → result GoldenMeta;
  img_create : list string → option (goerror * string) * option string;
  guest : list string → gmap string file → guest_run;
  ports : string → list Z → list Z * result Z;
  ports_end host excluded p : (ports host excluded).2 = Ok p → 5900 ≤ p ≤ 65535 ∧ p ∉ excluded;
  ports_range host excluded p : p ∈ (ports host excluded).1 → 0 < p ≤ 65535;
  temp_dir : string;
  vm_vnc : string;
  look_path : string → option string;
  bin_dir : string → option string;
  exists_file : string → bool;
  kvm : bool;
  goos : string;
  goarch : string
}.

Section options.
Context `{MapRange} (m : Manifest) `{!Workshop}.

Definition or_default (x d : string) : string := if is_empty x then d else x.
Definition or_positive (x d : Z) : Z := if x <=? 0 then d else x.

Definition defaults (o : BakeOptions) : BakeOptions :=
  let qemu := or_default (QEMUBin o) "qemu-system-x86_64" in
  let '(code, vars) := if is_empty (OVMFCode o) then DetectOVMF exists_file (bin_dir qemu) else (OVMFCode o, OVMFVarsTemplate o) in
  {| WindowsISO := WindowsISO o; WindowsISOSHA256 := WindowsISOSHA256 o; bo_Golden := bo_Golden o;
     DiskGB := or_positive (DiskGB o) 40; bo_MemMB := or_positive (bo_MemMB o) 4096; bo_CPUs := or_positive (bo_CPUs o) 2;
     bo_Accel := or_default (bo_Accel o) (DetectAccel kvm goos goarch);
     bo_RunnerVersion := or_default (bo_RunnerVersion o) (DefaultRunnerVersion m); bo_RunnerSHA256 := bo_RunnerSHA256 o;
     bo_Tools := bo_Tools o; AdminPassword := or_default (AdminPassword o) "Multirunner!1";
     bo_EvalDays := or_positive (bo_EvalDays o) 180; bo_MaxRearms := or_positive (bo_MaxRearms o) 5; bo_Licensed := bo_Licensed o;
     bo_WorkflowsHash := bo_WorkflowsHash o; QEMUBin := qemu; ImgBin := or_default (ImgBin o) "qemu-img";
     OVMFCode := code; OVMFVarsTemplate := vars; VNC := VNC o; VNCWeb := VNCWeb o; VNCWebSocket := VNCWebSocket o;
     bo_Timeout := if bo_Timeout o <=? 0
                   then match resolveToolPlan m (bo_Tools o) with Ok plan => bakeTimeoutForPlan plan | Err _ => bakeBaseTimeout end
                   else bo_Timeout o |}.

(** ** The files of the installation *)

Definition AutounattendFiles (runnerVersion runnerSHA256 adminPassword : string) (tools : list string) : result (gmap string string) :=
  match resolveToolPlan m tools with
  | Err e => Err e
  | Ok plan =>
      match template "autounattend.xml", template "install-golden.ps1", template "startup.ps1", template "setupcomplete.cmd", template "githook.ps1" with
      | Err e, _, _, _, _ | Ok _, Err e, _, _, _ | Ok _, Ok _, Err e, _, _ | Ok _, Ok _, Ok _, Err e, _ | Ok _, Ok _, Ok _, Ok _, Err e => Err e
      | Ok unattend, Ok install, Ok startup, Ok setupComplete, Ok gitHook =>
          let runnerSHA256 :=
            if is_empty runnerSHA256 && String.eqb runnerVersion (DefaultRunnerVersion m) then DefaultRunnerSHA256 m else runnerSHA256 in
          let install := foldl (λ s '(name, value), ReplaceAll s name value) install
            [("__RUNNER_VERSION__", runnerVersion); ("__RUNNER_SHA256__", runnerSHA256); ("__TOOLS__", join "," (Kinds plan));
             ("__NODE_INSTALLS__", bakeNodeInstallScript m (plan_Node plan)); ("__GO_URL__", bakeGoURL m);
             ("__GO_SHA256__", go_WindowsAMD64SHA256 (m_Go m)); ("__MINGIT_URL__", mingit_URL (minGit m));
             ("__MINGIT_SHA256__", mingit_SHA256 (minGit m)); ("__DOTNET_INSTALLS__", bakeDotNetInstallScript m (plan_DotNet plan));
             ("__BUILDTOOLS_INSTALLS__", bakeBuildToolsInstallScript m (plan_BuildTools plan))] in
          Ok (list_to_map [("autounattend.xml", ReplaceAll unattend "__ADMIN_PASSWORD__" adminPassword);
                           ("setupcomplete.cmd", setupComplete); ("githook.ps1", gitHook); ("install-golden.ps1", install);
                           ("startup.ps1", startup)])
      end
  end.

(** ** The fingerprint *)

Definition toolsHashAdminPassword : string := "__GOLDEN_FINGERPRINT_PASSWORD__".

Definition artifact_line (a : bakeArtifact) : string :=
  "artifact=" +:+ art_Name a +:+ "|" +:+ art_Version a +:+ "|" +:+ art_URL a +:+ "|" +:+ art_Algorithm a +:+ "|" +:+ to_lower (art_Digest a) +:+ newline.
Definition nul : string := String "000" "".
(** What [toolsHashResolved] writes to the hash. *)
Definition hash_input (tools : list string) (isoDigest : string) (artifacts : list bakeArtifact) (files : gmap string string) : string :=
  "golden-inputs:v4" +:+ newline +:+
  "windows-iso:sha256=" +:+ isoDigest +:+ newline +:+
  "tools=" +:+ join "," (normalizeTools tools) +:+ newline +:+
  String.concat "" (artifact_line <$> artifacts) +:+
  String.concat "" ((λ name, name +:+ nul +:+ default "" (files !! name)) <$> sort_strings (map_to_list files).*1).
Definition toolsHashResolved (tools : list string) (isoDigest : string) (artifacts : list bakeArtifact) (files : gmap string string) : string :=
  "golden:" +:+ hex_encode (str_take 8 (sha256 (hash_input tools isoDigest artifacts files))).
End options.

(** ** Addresses *)

(** The last colon of a text: what is before it and after it. *)
Fixpoint last_colon (s : string) : option (string * string) :=
  match s with
  | "" => None
  | String c s =>
      match last_colon s with
      | Some (a, b) => Some (String c a, b)
      | None => if Ascii.eqb c ":" then Some ("", s) else None
      end
  end.
(** [net.SplitHostPort] *)
Definition SplitHostPort (hostport : string) : option (string * string) :=
  match last_colon hostport with
  | None => None
  | Some (before, port) =>
      match before with
      | String "[" rest =>
          match cut "]" rest with
          | (host, "", true) => if str_mem "[" rest || str_mem "[" port || str_mem "]" port then None else Some (host, port)
          | _ => None
          end
      | _ => if str_mem ":" before || str_mem "[" hostport || str_mem "]" hostport then None else Some (before, port)
      end
  end.
Definition JoinHostPort (host port : string) : string :=
  if str_mem ":" host then "[" +:+ host +:+ "]:" +:+ port else host +:+ ":" +:+ port.

Definition splitAddress (address : string) : result (string * Z) :=
  match SplitHostPort address with
  | None => Err (errorf ("invalid host:port " +:+ quote address))
  | Some (host, portText) =>
      if is_empty host then Err (errorf ("invalid host:port " +:+ quote address))
      else match parse_int portText with
           | Some port => if (port <? 0) || (65535 <? port) then Err (errorf ("invalid port in " +:+ quote address)) else Ok (host, port)
           | None => Err (errorf ("invalid port in " +:+ quote address))
           end
  end.

(** The loop of [freePort], over the ports that the system gives. *)
Fixpoint free_port (given : list Z) (last : result Z) (excluded : list Z) : result Z :=
  match given with
  | [] => last
  | port :: given =>
      if port <? 5900 then free_port given last excluded
      else if bool_decide (port ∈ excluded) then free_port given last excluded
      else Ok port
  end.
Record vncConfig := VncConfig { vnc_host : string; vnc_port : Z; vnc_webPort : Z }.

Definition parse_web (o : BakeOptions) : result (string * Z) :=
  if is_empty (VNCWeb o) then Ok ("", 0)
  else match splitAddress (VNCWeb o) with
       | Err e => Err (errorf_w "bake: --vnc-web: " e)
       | Ok (host, port) => if port =? 0 then Err (errorf "bake: --vnc-web port must not be 0") else Ok (host, port)
       end.
Definition parse_raw (o : BakeOptions) (webHost : string) : result (string * Z) :=
  if is_empty (VNC o) then Ok (webHost, 0)
  else match splitAddress (VNC o) with
       | Err e => Err (errorf_w "bake: --vnc: " e)
       | Ok hp => Ok hp
       end.
Definition parseVNC (o : BakeOptions) : result vncConfig :=
  if is_empty (VNC o) && is_empty (VNCWeb o) then Ok (VncConfig "" 0 0)
  else match parse_web o with
       | Err e => Err e
       | Ok (webHost, webPort) =>
           match parse_raw o webHost with
           | Err e => Err e
           | Ok (host, port) =>
               let host := if is_empty webHost then host else webHost in
               if negb (port =? 0) && (port <? 5900) then Err (errorf "bake: --vnc port must be 0 or at least 5900")
               else if (port =? webPort) && negb (port =? 0) then Err (errorf "bake: --vnc and --vnc-web cannot use the same port")
               else Ok (VncConfig host port webPort)
           end
       end.

Section vnc.
Context `{!Workshop}.

Definition freePort (host : string) (excluded : list Z) : result Z :=
  let '(given, last) := ports host excluded in free_port given last excluded.

Definition prepareVNC (o : BakeOptions) : result BakeOptions :=
  match parseVNC o with
  | Err e => Err e
  | Ok cfg =>
      if is_empty (vnc_host cfg) then Ok (set_vnc (VNC o) "" o)
      else
        let host := vnc_host cfg in
        match (if vnc_port cfg =? 0 then freePort host [vnc_webPort cfg] else Ok (vnc_port cfg)) with
        | Err e => Err (errorf_w ("bake: allocate VNC port on " +:+ host +:+ ": ") e)
        | Ok port =>
            let vnc := JoinHostPort host (format_int port) in
            if is_empty (VNCWeb o) then Ok (set_vnc vnc "" o)
            else match freePort host [port; vnc_webPort cfg] with
                 | Err e => Err (errorf_w ("bake: allocate VNC WebSocket port on " +:+ host +:+ ": ") e)
                 | Ok wsPort => Ok (set_vnc vnc (JoinHostPort host (format_int wsPort)) o)
                 end
        end
  end.
End vnc.

Definition bakeQMPAddr : string := "127.0.0.1:4455".
Definition bakeInstallCDDev : string := "instcd".

(** Host and port of an address that was checked. *)
Definition address (a : string) : string * Z := match splitAddress a with Ok hp => hp | Err _ => ("", 0) end.
Definition vnc_args (o : BakeOptions) : list string :=
  if is_empty (VNC o) then ["-display"; "none"]
  else
    let '(host, port) := address (VNC o) in
    let websocket := if is_empty (VNCWebSocket o) then "" else ",websocket=" +:+ format_int (address (VNCWebSocket o)).2 in
    ["-vnc"; JoinHostPort host (format_int (port - 5900)) +:+ websocket].
Definition bakeQEMUArgs (o : BakeOptions) (autounattendISO varsFD : string) : list string :=
  let accel := if is_empty (bo_Accel o) then "tcg" else bo_Accel o in
  ["-machine"; "q35"; "-accel"; accel; "-cpu"; cpuArg accel; "-m"; format_int (bo_MemMB o); "-smp"; format_int (bo_CPUs o)] ++
  (if is_empty (OVMFCode o) then []
   else ["-drive"; "if=pflash,format=raw,unit=0,readonly=on,file=" +:+ OVMFCode o;
         "-drive"; "if=pflash,format=raw,unit=1,file=" +:+ varsFD]) ++
  ["-drive"; "file=" +:+ bo_Golden o +:+ ",if=none,id=osdisk,format=qcow2";
   "-device"; "ahci,id=ahci"; "-device"; "ide-hd,drive=osdisk,bus=ahci.0";
   "-drive"; "file=" +:+ WindowsISO o +:+ ",media=cdrom,id=" +:+ bakeInstallCDDev;
   "-drive"; "file=" +:+ autounattendISO +:+ ",media=cdrom";
   "-netdev"; "user,id=n0"; "-device"; "e1000,netdev=n0";
   "-qmp"; "tcp:" +:+ bakeQMPAddr +:+ ",server,nowait"; "-serial"; "file:" +:+ GoldenSerialPath (bo_Golden o)] ++
  vnc_args o.

(** ** Files *)

Section bake.
Context `{MapRange} (m : Manifest) `{!Workshop} `{!Disk} `{!Web}.
Local Notation P := (M world).

(** [os.Create] and [os.OpenFile] of [os.WriteFile]: a new file has mode 0644. *)
Definition create_file (path : string) : P unit :=
  syscall (OpOpen path) (λ fs, (Ok tt, <[path := File "" (match fs !! path with Some f => f_mode f | None => 420 end)]> fs)).
(** [os.WriteFile] *)
Definition WriteFile (path data : string) : P unit :=
  create_file path ;;;
  let? r := write path data in
  let? c := close path in
  match r with Err e => throw e | Ok _ => of_result c end.
Definition copyFile (dst src : string) : P unit := let! b := read_file src in WriteFile dst b.

(** [os.MkdirTemp] and [os.RemoveAll] of what it made. *)
Definition mkdir_temp : P string :=
  let! n := gets calls in
  let dir := Join temp_dir ("mr-bakestage" +:+ random_name n) in
  syscall (OpCreate dir) (λ fs, (Ok dir, fs)).
Definition in_dir (dir path : string) : bool := has_prefix (dir +:+ "/") path.
Definition remove_all (dir : string) : P unit :=
  syscall (OpRemove dir) (λ fs, (Ok tt, filter (λ kv, in_dir dir kv.1 = false) fs)).
(** A call whose error is not looked at. *)
Definition ignored (c : P unit) : P unit := let? _ := c in ret tt.

Definition fileDigest (path algorithm : string) : P string :=
  let! data := read_file path in
  if String.eqb (to_upper algorithm) "SHA256" then ret (hex_encode (sha256 data))
  else if String.eqb (to_upper algorithm) "SHA512" then ret (hex_encode (sha512 data))
  else throw (errorf ("unsupported digest algorithm " +:+ quote algorithm)).

(** ** Metadata *)

(** [meta.go]; a golden without metadata has the zero value. *)
Definition no_meta : GoldenMeta := MkGoldenMeta 0 0 0 0 false "".
Definition LoadMeta (golden : string) : P GoldenMeta :=
  let? r := read_file (metaPath golden) in
  match r with
  | Err e => if errors_is "os.ErrNotExist" e then ret no_meta else throw e
  | Ok b => of_result (decode_meta b)
  end.
Definition SaveMeta (golden : string) (meta : GoldenMeta) : P unit :=
  let! b := of_result (encode_meta meta) in WriteFile (metaPath golden) b.

(** ** The fingerprint of the inputs *)

Definition iso_digest (o : BakeOptions) : P string :=
  if is_empty (WindowsISO o) then ret "none"
  else
    wrap "windows ISO SHA256: " (guard (if is_empty (WindowsISOSHA256 o) then None else validateSHA256 (WindowsISOSHA256 o))) ;;;
    let! got := wrap "hash Windows ISO: " (fileDigest (WindowsISO o) "SHA256") in
    if negb (is_empty (WindowsISOSHA256 o)) && negb (equal_fold got (WindowsISOSHA256 o))
    then throw (errorf ("windows ISO SHA256 mismatch: got " +:+ got +:+ ", want " +:+ WindowsISOSHA256 o))
    else ret got.
Definition ToolsHash (o : BakeOptions) : P string :=
  let! isoDigest := iso_digest o in
  let! plan := of_result (resolveToolPlan m (bo_Tools o)) in
  let runnerVersion := or_default (bo_RunnerVersion o) (DefaultRunnerVersion m) in
  let! artifacts := of_result (bakeArtifactsForPlan m runnerVersion (bo_RunnerSHA256 o) plan) in
  let! files := of_result (AutounattendFiles m runnerVersion (bo_RunnerSHA256 o) toolsHashAdminPassword (bo_Tools o)) in
  ret (toolsHashResolved (Canonical plan) isoDigest artifacts files).

(** [validateBake]: the options with their defaults and the fingerprint. *)
Definition validateBake (o : BakeOptions) : P BakeOptions :=
  let o := defaults m o in
  if is_empty (WindowsISO o) || is_empty (bo_Golden o) then throw (errorf "bake: WindowsISO and Golden are required")
  else
    wrap "bake: windows iso: " (stat_mode (WindowsISO o)) ;;;
    guard (result_err (parseVNC o)) ;;;
    let! hash := wrap "bake inputs: " (ToolsHash o) in
    ret (set_hash hash o).

(** What a dry run says of checked options; a program that is not found is
    named as such. *)
Definition program (bin : string) : string := default (bin +:+ " (not found on PATH)") (look_path bin).
Definition plan_display (o : BakeOptions) : string :=
  match parseVNC o with
  | Err _ => "disabled"
  | Ok cfg => if is_empty (vnc_host cfg) then "disabled"
              else JoinHostPort (vnc_host cfg) (if vnc_port cfg =? 0 then "automatic" else format_int (vnc_port cfg))
  end.
Definition plan_text (o : BakeOptions) : string :=
  let isoCheck := if is_empty (WindowsISOSHA256 o) then "SHA256 computed" else "SHA256 matched expected digest" in
  let nvram := if is_empty (OVMFCode o) then "disabled (legacy BIOS)" else bake_vars (bo_Golden o) in
  let websocket := if is_empty (VNCWeb o) then "disabled" else "automatic on the VNC host" in
  let webViewer := if is_empty (VNCWeb o) then "disabled" else "http://" +:+ VNCWeb o in
  "Dry run: no changes will be made." +:+ newline +:+
  "Windows ISO: " +:+ WindowsISO o +:+ " (" +:+ isoCheck +:+ ")" +:+ newline +:+
  "Golden disk: " +:+ bo_Golden o +:+ " (" +:+ format_int (DiskGB o) +:+ " GB; create)" +:+ newline +:+
  "Autounattend ISO: " +:+ autounattend_path (bo_Golden o) +:+ newline +:+
  "NVRAM: " +:+ nvram +:+ "; serial log: " +:+ GoldenSerialPath (bo_Golden o) +:+ newline +:+
  "QEMU: " +:+ program (QEMUBin o) +:+ "; qemu-img: " +:+ program (ImgBin o) +:+ newline +:+
  "VM: " +:+ format_int (bo_MemMB o) +:+ " MB RAM; " +:+ format_int (bo_CPUs o) +:+ " CPUs; accel=" +:+ bo_Accel o +:+
    "; timeout=" +:+ format_duration (bo_Timeout o) +:+ newline +:+
  "VNC: " +:+ plan_display o +:+ "; WebSocket: " +:+ websocket +:+ "; web viewer: " +:+ webViewer +:+ newline +:+
  "Tools: " +:+ or_default (join "," (bo_Tools o)) "minimal" +:+ "; runner and tool payloads are staged when available" +:+ newline +:+
  "Apply: rerun this command without --dry-run" +:+ newline.
Definition PlanBake (o : BakeOptions) : P (string * BakeOptions) :=
  let! o := validateBake o in ret (plan_text o, o).

(** ** Staging *)

Definition http_get (url : string) : P response :=
  let! u := of_result (new_request url) in
  λ w, (client_Do (asked w) (Req "GET" u []),
        World (asked w ++ [Req "GET" u []]) (files w) (calls w) (printed w) (typed w)).
Definition join_errors (a b : option goerror) : option goerror :=
  match a, b with
  | None, None => None
  | Some a, None => Some (EJoin [a])
  | None, Some b => Some (EJoin [b])
  | Some a, Some b => Some (EJoin [a; b])
  end.
Definition downloadFile (url dst : string) : P unit :=
  let! resp := http_get url in
  if negb (rs_StatusCode resp =? 200) then throw (errorf ("download " +:+ url +:+ ": status " +:+ format_int (rs_StatusCode resp)))
  else
    create_file dst ;;;
    let? copied := write dst (rs_body resp) in
    let copyErr := match copied with Err e => Some e | Ok _ => rs_err resp end in
    let? closed := close dst in
    match join_errors copyErr (result_err closed) with
    | Some e => ignored (remove dst) ;;; throw e
    | None => ret tt
    end.

(** The refs that are staged: the artifact's name and the path of its file. *)
Definition stage_artifact (dir : string) (refs : gmap string string) (a : bakeArtifact) : P (gmap string string) :=
  let dst := Join dir (art_Name a) in
  let? got := downloadFile (art_URL a) dst in
  match got with
  | Err _ => ret refs
  | Ok _ =>
      let? digest := fileDigest dst (art_Algorithm a) in
      let fits := match digest with Ok got => equal_fold got (art_Digest a) | Err _ => false end in
      if fits then ret (<[art_Name a := dst]> refs) else ignored (remove dst) ;;; ret refs
  end.
(** [stageArtifacts]: the directory is [None] when there is none to remove. *)
Definition stageArtifacts (artifacts : list bakeArtifact) : P (gmap string string * option string) :=
  let? dir := mkdir_temp in
  match dir with
  | Err _ => ret (∅, None)
  | Ok dir => let! refs := loop (stage_artifact dir) ∅ artifacts in ret (refs, Some dir)
  end.
Definition stageBakeBinaries (runnerVersion runnerSHA256 : string) (tools : list string) : P (gmap string string * option string) :=
  match resolveToolPlan m tools with
  | Err _ => ret (∅, None)
  | Ok plan => match bakeArtifactsForPlan m runnerVersion runnerSHA256 plan with
               | Err _ => ret (∅, None)
               | Ok artifacts => stageArtifacts artifacts
               end
  end.

(** The contents of the ISO, as they are added. *)
Definition add_content (content : list (string * string)) (file : string * string) : P (list (string * string)) :=
  guard (iso_add file.1 file.2) ;;; ret (content ++ [file]).
Definition add_ref (content : list (string * string)) (ref : string * string) : P (list (string * string)) :=
  let! data := read_file ref.2 in add_content content (ref.1, data).
Definition BuildISOFiles (path label : string) (fs : gmap string string) (refs : gmap string string) : P unit :=
  guard iso_new ;;;
  let! content := loop add_content [] (range fs) in
  let! content := loop add_ref content (range refs) in
  create_file path ;;;
  let? r := write path (iso_image label content) in
  ignored (close path) ;;;
  of_result r.
Definition BuildISO (path label : string) (fs : gmap string string) : P unit := BuildISOFiles path label fs ∅.

(** ** Preparing and running *)

(** What a program writes by itself. *)
Definition put (path data : string) : P unit :=
  modify (set_files (λ fs, <[path := File data (match fs !! path with Some f => f_mode f | None => 420 end)]> fs)).

Definition create_args (o : BakeOptions) : list string :=
  ["create"; "-f"; "qcow2"; bo_Golden o; format_int (DiskGB o) +:+ "G"].
Definition create_disk (o : BakeOptions) : P unit :=
  let '(failed, disk) := img_create (create_args o) in
  match disk with Some d => put (bo_Golden o) d | None => ret tt end ;;;
  match failed with Some (e, out) => throw (EWrap "create golden disk: " e (": " +:+ out)) | None => ret tt end.

(** The ISO and the NVRAM, once the payloads are staged. *)
Definition create_media (o : BakeOptions) (fs refs : gmap string string) : P unit :=
  BuildISOFiles (autounattend_path (bo_Golden o)) "AUTOUNATTEND" fs refs ;;;
  if is_empty (OVMFCode o) then ret tt
  else if is_empty (OVMFVarsTemplate o) then throw (errorf "bake: UEFI code found but no vars template; set OVMFVarsTemplate")
  else wrap "bake: create nvram: " (copyFile (bake_vars (bo_Golden o)) (OVMFVarsTemplate o)).

(** The rest of [Prepare], once the log of an earlier run is gone. *)
Definition prepare_media (o : BakeOptions) : P (string * list string * BakeOptions) :=
  let! fs := of_result (AutounattendFiles m (bo_RunnerVersion o) (bo_RunnerSHA256 o) (AdminPassword o) (bo_Tools o)) in
  let! staged := stageBakeBinaries (bo_RunnerVersion o) (bo_RunnerSHA256 o) (bo_Tools o) in
  let '(refs, dir) := staged in
  let? r := create_media o fs refs in
  match dir with Some dir => ignored (remove_all dir) | None => ret tt end ;;;
  of_result r ;;;
  let iso := autounattend_path (bo_Golden o) in
  ret (iso, bakeQEMUArgs o iso (bake_vars (bo_Golden o)), o).

Definition Prepare (o : BakeOptions) : P (string * list string * BakeOptions) :=
  let! o := validateBake o in
  let! o := of_result (prepareVNC o) in
  create_disk o ;;;
  ignored (remove (GoldenSerialPath (bo_Golden o))) ;;;
  prepare_media o.

Definition run_qemu (o : BakeOptions) (args : list string) : P (option (option goerror)) :=
  let! fs := gets files in
  let g := guest args fs in
  match g_start g with
  | Some e => throw (errorf_w "start qemu: " e)
  | None =>
      put (bo_Golden o) (g_disk g) ;;;
      (if is_empty (OVMFCode o) then ret tt else put (bake_vars (bo_Golden o)) (g_vars g)) ;;;
      match g_serial g with Some log => put (GoldenSerialPath (bo_Golden o)) log | None => ret tt end ;;;
      ret (g_exit g)
  end.

Definition serialTail (b : string) (n : nat) : string := str_drop (String.length b - n) b.
(** [os.ReadFile] of the log; its error is not looked at. *)
Definition read_serial (golden : string) : P string :=
  let? r := read_file (GoldenSerialPath golden) in ret (match r with Ok b => b | Err _ => "" end).

Definition baked_meta (now : Z) (o : BakeOptions) : GoldenMeta :=
  MkGoldenMeta now (bo_EvalDays o) 0 (bo_MaxRearms o) (bo_Licensed o) (bo_WorkflowsHash o).
Definition install (now : Z) (o : BakeOptions) (args : list string) : P unit :=
  let! exit := run_qemu o args in
  match exit with
  | Some (Some e) => throw (errorf_w "golden install run: " e)
  | None =>
      let! serial := read_serial (bo_Golden o) in
      throw (errorf ("golden bake timed out after " +:+ format_duration (bo_Timeout o) +:+ " (guest hung); serial tail:" +:+ newline +:+
                     serialTail serial 2000))
  | Some None =>
      let! serial := read_serial (bo_Golden o) in
      if negb (contains serial goldenOKMarker)
      then throw (errorf ("golden bake did not complete: " +:+ quote goldenOKMarker +:+ " not found in serial log " +:+
                          GoldenSerialPath (bo_Golden o) +:+ newline +:+ "--- serial tail ---" +:+ newline +:+ serialTail serial 2000))
      else SaveMeta (bo_Golden o) (baked_meta now o)
  end.
Definition Bake (now : Z) (o : BakeOptions) : P unit :=
  let! prepared := Prepare o in
  let '(iso, args, o) := prepared in
  let? r := install now o args in
  ignored (remove iso) ;;;
  of_result r.

(** ** Housekeeping *)

Definition err_killed : goerror := ENew "exec.ExitError" "signal: killed".
Definition rearm_iso (golden : string) : string := golden +:+ ".rearm.iso".
Definition rearm_args (o : BakeOptions) : list string :=
  QEMUArgs vm_vnc {| lo_Overlay := bo_Golden o; lo_JITISOPath := rearm_iso (bo_Golden o); lo_Name := ""; lo_QMPAddr := "";
                     lo_PIDFile := ""; lo_MemMB := bo_MemMB o; lo_CPUs := bo_CPUs o; lo_Accel := bo_Accel o; lo_Firmware := no_firmware |}.
(** A guest that does not power off runs until the context ends. *)
Definition rearm (now : Z) (o : BakeOptions) : P unit :=
  let! fs := gets files in
  let g := guest (rearm_args o) fs in
  match g_start g with
  | Some e => throw (errorf_w "rearm boot: " e)
  | None =>
      put (bo_Golden o) (g_disk g) ;;;
      match g_serial g with Some log => put (GoldenSerialPath (bo_Golden o)) log | None => ret tt end ;;;
      match g_exit g with
      | None => throw (errorf_w "rearm boot: " err_killed)
      | Some (Some e) => throw (errorf_w "rearm boot: " e)
      | Some None => let! meta := LoadMeta (bo_Golden o) in SaveMeta (bo_Golden o) (ApplyRearm meta now)
      end
  end.
Definition RearmGolden (now : Z) (o : BakeOptions) : P unit :=
  let o := defaults m o in
  BuildISO (rearm_iso (bo_Golden o)) "REARM" {["rearm.txt" := "1"]} ;;;
  let? r := rearm now o in
  ignored (remove (rearm_iso (bo_Golden o))) ;;;
  of_result r.
Definition RebuildGolden (now : Z) (o : BakeOptions) : P unit := Bake now o.

(** One golden of [CheckOnce]; what goes wrong is only logged. *)
Definition check_golden (threshold now : Z) (o : BakeOptions) : P unit :=
  let? loaded := LoadMeta (bo_Golden o) in
  match loaded with
  | Err _ => ret tt
  | Ok meta =>
      if EvalDays meta =? 0 then ret tt
      else match Decide threshold meta (bo_WorkflowsHash o) now with
           | ActionNone => ret tt
           | ActionRearm => ignored (RearmGolden now o)
           | ActionRebuild => if is_empty (WindowsISO o) then ret tt else ignored (RebuildGolden now o)
           end
  end.
Definition check_all (threshold now : Z) (refs : list BakeOptions) : P unit := loop (λ _ o, check_golden threshold now o) tt refs.
End bake.

(** ** The installation over QMP *)

Section qmp.
(** Reading past what QEMU sends, and the outcome of each write. *)
Variable eof : goerror.
Variable writes : nat → option goerror.

Definition qmp_command (name : string) (arguments : list (string * json)) : string :=
  encode_json (JObj (match arguments with [] => [] | _ => [("arguments", JObj arguments)] end ++ [("execute", JStr name)])).
Definition capabilities : string := qmp_command "qmp_capabilities" [].
Definition enter_key : string :=
  qmp_command "send-key" [("keys", JArr [JObj [("data", JStr "ret"); ("type", JStr "qcode")]])].
Definition eject_command (device : string) : string := qmp_command "eject" [("device", JStr device); ("force", JBool true)].
Definition screendump (filename : string) : string := qmp_command "screendump" [("filename", JStr filename); ("format", JStr "png")].

(** A command and the line that answers it: what was sent, with the [n]th
    write, the answer and the lines left. *)
Definition send_command (n : nat) (command : string) (lines : list string) : list string * result string * list string :=
  match writes n with
  | Some e => ([], Err e, lines)
  | None => match lines with
            | [] => ([command], Err eof, [])
            | line :: lines => ([command], Ok line, lines)
            end
  end.

(** The presses of [QMPBootKeys], whose errors are not looked at. *)
Fixpoint press_keys (presses n : nat) (lines : list string) : list string :=
  match presses with
  | O => []
  | S presses => let '(sent, _, lines) := send_command n enter_key lines in sent ++ press_keys presses (S n) lines
  end.
Definition QMPBootKeys (dial : option goerror) (lines : list string) (presses : nat) : list string * option goerror :=
  match dial with
  | Some e => ([], Some (errorf_w "dial qmp: " e))
  | None =>
      match lines with
      | [] => ([], Some (errorf_w "qmp greeting: " eof))
      | _ :: lines =>
          match send_command 0 capabilities lines with
          | (sent, Err e, _) => (sent, Some e)
          | (sent, Ok _, lines) => (sent ++ press_keys presses 1 lines, None)
          end
      end
  end.

Definition is_reset (line : string) : bool :=
  contains line (in_quotes "event" +:+ ": " +:+ in_quotes "RESET") || contains line (in_quotes "event" +:+ ":" +:+ in_quotes "RESET").
(** The lines after the first reset, if there is one. *)
Fixpoint after_reset (lines : list string) : option (list string) :=
  match lines with
  | [] => None
  | line :: lines => if is_reset line then Some lines else after_reset lines
  end.
Definition QMPEjectOnReset (dial : option goerror) (lines : list string) (device : string) : list string * option goerror :=
  match dial with
  | Some e => ([], Some (errorf_w "dial qmp: " e))
  | None =>
      match lines with
      | [] => ([], Some (errorf_w "qmp greeting: " eof))
      | _ :: lines =>
          match writes 0%nat with
          | Some e => ([], Some e)
          | None =>
              match after_reset lines with
              | None => ([capabilities], Some (errorf_w "qmp read: " eof))
              | Some _ => match writes 1%nat with
                          | Some e => ([capabilities], Some e)
                          | None => ([capabilities; eject_command device], None)
                          end
              end
          end
      end
  end.

(** [abs]: the absolute path of the picture, with slashes. *)
Definition QMPScreenshot (dial : option goerror) (lines : list string) (abs : string) : list string * option goerror :=
  match dial with
  | Some e => ([], Some (errorf_w "dial qmp: " e))
  | None =>
      match lines with
      | [] => ([], Some (errorf_w "qmp greeting: " eof))
      | _ :: lines =>
          match send_command 0 capabilities lines with
          | (sent, Err e, _) => (sent, Some (errorf_w "qmp capabilities: " e))
          | (sent, Ok _, lines) =>
              match send_command 1 (screendump abs) lines with
              | (sent', Err e, _) => (sent ++ sent', Some (errorf_w "screendump: " e))
              | (sent', Ok resp, _) =>
                  (sent ++ sent', if contains resp "return" then None else Some (errorf ("screendump failed: " +:+ resp)))
              end
          end
      end
  end.
End qmp.

Example ejects_once : (QMPEjectOnReset (errorf "EOF") (λ _, None) None
    ["{}"; "{}"; "{" +:+ in_quotes "event" +:+ ": " +:+ in_quotes "RESET" +:+ "}"; "{}"] bakeInstallCDDev).1 =
  [capabilities; "{" +:+ in_quotes "arguments" +:+ ":{" +:+ in_quotes "device" +:+ ":" +:+ in_quotes "instcd" +:+ "," +:+
                 in_quotes "force" +:+ ":true}," +:+ in_quotes "execute" +:+ ":" +:+ in_quotes "eject" +:+ "}"].
Proof. vm_compute. reflexivity. Qed.
