(* ===== verification/BakeSpec.v ===== *)
(** * What a bake guarantees

    The fingerprint of a golden image tells its inputs apart; what is staged for
    the guest is pinned and is what the guest asks for; the ports of the viewer
    are free of conflicts; and the metadata of a golden is written only after an
    installation that reported its end. *)

From S2P Require Import Prelude GoErr GoStr Codec Sha256 Sha512 ImageVersions BakePlan Filepath Json Host Qemu Redact RedactSpec Bake.

Local Open Scope Z_scope.
Local Open Scope go_scope.

(** ** The fingerprint *)

Lemma sep_inj c a b s t : str_mem c a = false → str_mem c b = false → a +:+ String c s = b +:+ String c t → a = b ∧ s = t.
Proof.
  intros Ha Hb Heq. pose proof (cut_app c a s Ha) as Hc. rewrite Heq, (cut_app c b t Hb) in Hc. by injection Hc as -> ->.
Qed.

Lemma app_same_tail a b c : a +:+ c = b +:+ c → a = b.
Proof.
  revert b. induction a as [|x a IH]; intros [|y b] Heq; [done|exfalso|exfalso|].
  - apply (f_equal String.length) in Heq. cbn in Heq. rewrite str_length_app in Heq. lia.
  - apply (f_equal String.length) in Heq. cbn in Heq. rewrite str_length_app in Heq. lia.
  - cbn in Heq. injection Heq as -> Heq. f_equal. by apply IH.
Qed.

Lemma join_comma_inj l l' : Forall (λ s, s ≠ "" ∧ str_mem "," s = false) l → Forall (λ s, s ≠ "" ∧ str_mem "," s = false) l' →
  join "," l = join "," l' → l = l'.
Proof.
  assert (∀ l, Forall (λ s, s ≠ "" ∧ str_mem "," s = false) l → l ≠ [] → split "," (join "," l) = l) as Hs.
  { induction 1 as [|s l0 [Hne Hf] Hl IH]; [done|]. intros _. destruct l0 as [|s' l0]; [by apply split_free|].
    rewrite join_cons by done. change ("," +:+ ?x) with (String "," x). rewrite split_app by done. by rewrite IH. }
  assert (∀ l, Forall (λ s, s ≠ "" ∧ str_mem "," s = false) l → l ≠ [] → join "," l ≠ "") as Hn.
  { intros [|s l0] Hl Hne; [done|]. apply Forall_cons in Hl as [[Hs0 _] _]. destruct l0; [done|]. rewrite join_cons by done. by destruct s. }
  intros Hl Hl' Heq. destruct l as [|s l], l' as [|s' l']; [done| | |].
  - by destruct (Hn _ Hl').
  - by destruct (Hn _ Hl).
  - rewrite <- (Hs _ Hl), <- (Hs _ Hl') by done. by rewrite Heq.
Qed.

(** What an artifact is pinned to; the case of its digest does not matter. *)
Definition pinned (a : bakeArtifact) : string * string * string * string * string :=
  (art_Name a, art_Version a, art_URL a, art_Algorithm a, to_lower (art_Digest a)).
Definition field_ok (s : string) : Prop := str_mem "|" s = false ∧ str_mem "010" s = false.
Definition artifact_ok (a : bakeArtifact) : Prop :=
  field_ok (art_Name a) ∧ field_ok (art_Version a) ∧ field_ok (art_URL a) ∧ field_ok (art_Algorithm a) ∧ field_ok (to_lower (art_Digest a)).

Lemma artifact_line_inj a b s t : artifact_ok a → artifact_ok b → artifact_line a +:+ s = artifact_line b +:+ t → pinned a = pinned b ∧ s = t.
Proof.
  intros ([Hn _] & [Hv _] & [Hu _] & [Ha _] & [_ Hd]) ([Hn' _] & [Hv' _] & [Hu' _] & [Ha' _] & [_ Hd']). unfold artifact_line, pinned.
  rewrite !str_app_assoc. intros Heq. injection Heq as Heq. change ("|" +:+ ?x) with (String "|" x) in Heq.
  apply sep_inj in Heq as [En Heq]; [|done..]. apply sep_inj in Heq as [Ev Heq]; [|done..].
  apply sep_inj in Heq as [Eu Heq]; [|done..]. apply sep_inj in Heq as [Ea Heq]; [|done..].
  change (newline +:+ ?x) with (String "010" x) in Heq. apply sep_inj in Heq as [Ed Heq]; [|done..].
  split; [|done]. by rewrite En, Ev, Eu, Ea, Ed.
Qed.

Lemma artifact_lines_inj l : ∀ l' s t, Forall artifact_ok l → Forall artifact_ok l' →
  has_prefix "artifact=" s = false → has_prefix "artifact=" t = false →
  String.concat "" (artifact_line <$> l) +:+ s = String.concat "" (artifact_line <$> l') +:+ t → pinned <$> l = pinned <$> l' ∧ s = t.
Proof.
  assert (∀ a l s, String.concat "" (artifact_line <$> a :: l) +:+ s = artifact_line a +:+ String.concat "" (artifact_line <$> l) +:+ s) as Hc.
  { intros a [|b l0] s; cbn; [done|]. by rewrite !str_app_assoc. }
  assert (∀ a s, has_prefix "artifact=" (artifact_line a +:+ s) = true) as Hp.
  { intros a s. unfold artifact_line. rewrite str_app_assoc. apply has_prefix_app. }
  induction l as [|a l IH]; intros [|b l'] s t Hl Hl' Hs Ht Heq; [done| | |].
  - exfalso. rewrite Hc in Heq. cbn [fmap list_fmap String.concat String.append] in Heq. by rewrite Heq, Hp in Hs.
  - exfalso. rewrite Hc in Heq. cbn [fmap list_fmap String.concat String.append] in Heq. by rewrite <- Heq, Hp in Ht.
  - rewrite !Hc in Heq. apply Forall_cons in Hl as [Ha Hl], Hl' as [Hb Hl'].
    apply artifact_line_inj in Heq as [Eab Heq]; [|done..]. destruct (IH _ _ _ Hl Hl' Hs Ht Heq) as [E1 E2].
    rewrite !fmap_cons, Eab, E1. done.
Qed.

Definition nul_free (s : string) : Prop := str_mem "000" s = false.
Definition entry (f : gmap string string) (name : string) : string := name +:+ nul +:+ default "" (f !! name).

Lemma entries_inj names f g : Forall nul_free names → (∀ n, n ∈ names → nul_free (default "" (f !! n)) ∧ nul_free (default "" (g !! n))) →
  String.concat "" (entry f <$> names) = String.concat "" (entry g <$> names) →
  ∀ n, n ∈ names → default "" (f !! n) = default "" (g !! n).
Proof.
  assert (∀ h n l, String.concat "" (entry h <$> n :: l) = n +:+ String "000" (default "" (h !! n) +:+ String.concat "" (entry h <$> l))) as Hc.
  { intros h n l. unfold entry. destruct l; cbn; [by rewrite str_app_nil_r|]. by rewrite !str_app_assoc. }
  induction names as [|n names IH]; intros Hn Hv Heq; [intros ? H; by apply elem_of_nil in H|].
  apply Forall_cons in Hn as [Hn0 Hn]. rewrite !Hc in Heq. apply sep_inj in Heq as [_ Heq]; [|done..].
  destruct (Hv n ltac:(left)) as [Hvf Hvg].
  assert (default "" (f !! n) = default "" (g !! n) ∧ String.concat "" (entry f <$> names) = String.concat "" (entry g <$> names)) as [E1 E2].
  { destruct names as [|n2 names]; [by rewrite !str_app_nil_r in Heq|]. apply Forall_cons in Hn as [Hn2 _].
    rewrite !Hc in Heq. rewrite <- !str_app_assoc in Heq.
    apply sep_inj in Heq as [Ea Eb]; [|unfold nul_free in *; rewrite str_mem_app; by apply orb_false_iff..].
    split; [by eapply app_same_tail|]. by rewrite !Hc, Eb. }
  intros n' [->|Hn']%elem_of_cons; [done|]. apply IH; [done| |done..]. intros n'' H''. apply Hv. by right.
Qed.

Lemma sort_strings_unique l l' : l ≡ₚ l' → sort_strings l = sort_strings l'.
Proof.
  intros Hp. eapply (StronglySorted_unique String.le); [apply sort_strings_sorted..|]. by rewrite !sort_strings_perm.
Qed.

Lemma keys_elem (f : gmap string string) n : n ∈ (map_to_list f).*1 ↔ n ∈ dom f.
Proof.
  rewrite list_elem_of_fmap, elem_of_dom. split.
  - intros ([k v] & -> & Hk). apply elem_of_map_to_list in Hk. by exists v.
  - intros [v Hv]. exists (n, v). by rewrite elem_of_map_to_list.
Qed.
Lemma keys_dom (f g : gmap string string) : dom f = dom g → sort_strings (map_to_list f).*1 = sort_strings (map_to_list g).*1.
Proof.
  intros Hd. apply sort_strings_unique. apply NoDup_Permutation; [apply NoDup_fst_map_to_list..|].
  intros n. by rewrite !keys_elem, Hd.
Qed.

(** ** Inputs of a fingerprint *)

(** The inputs as the code has them: canonical selectors, a hexadecimal digest
    or none, pinned artifacts, and the files of the installation, which are
    text. *)
Record inputs := Inputs {
  in_tools : list string;
  in_iso : string;
  in_artifacts : list bakeArtifact;
  in_files : gmap string string
}.
Definition fingerprint (i : inputs) : string := toolsHashResolved (in_tools i) (in_iso i) (in_artifacts i) (in_files i).
Definition fingerprint_text (i : inputs) : string := hash_input (in_tools i) (in_iso i) (in_artifacts i) (in_files i).
Definition inputs_ok (i : inputs) : Prop :=
  Forall (λ s, str_mem "," s = false ∧ str_mem "010" s = false) (in_tools i) ∧
  str_mem "010" (in_iso i) = false ∧
  Forall artifact_ok (in_artifacts i) ∧
  dom (in_files i) = list_to_set ["autounattend.xml"; "setupcomplete.cmd"; "githook.ps1"; "install-golden.ps1"; "startup.ps1"] ∧
  map_Forall (λ _ content, nul_free content) (in_files i).
(** What must be the same for a golden to be left alone. *)
Definition same_inputs (a b : inputs) : Prop :=
  normalizeTools (in_tools a) = normalizeTools (in_tools b) ∧ in_iso a = in_iso b ∧
  pinned <$> in_artifacts a = pinned <$> in_artifacts b ∧ in_files a = in_files b.

Lemma dedup_tools_elem seen l t : t ∈ dedup_tools seen l → t ≠ "" ∧ ∃ t0, t0 ∈ l ∧ t = to_lower (trim_space t0).
Proof.
  revert seen. induction l as [|x l IH]; intros seen; cbn [dedup_tools]; [intros Hx; by apply elem_of_nil in Hx|].
  destruct (is_empty _ || _) eqn:He.
  - intros Ht. apply IH in Ht as (Hne & t0 & Ht0 & ->). split; [done|]. exists t0. split; [by right|done].
  - apply orb_false_iff in He as [He%is_empty_false _]. intros [->|Ht]%elem_of_cons; [split; [done|]; exists x; split; [by left|done]|].
    apply IH in Ht as (Hne & t0 & Ht0 & ->). split; [done|]. exists t0. split; [by right|done].
Qed.

Lemma to_lower_absent c s : bool_decide (c ∈ [","%char; "010"%char]) = true → str_mem c s = false → str_mem c (to_lower s) = false.
Proof.
  intros Hc%bool_decide_eq_true. assert (∀ d, Ascii.eqb c (lower_ascii d) = Ascii.eqb c d) as Hd.
  { apply elem_of_cons in Hc as [->|Hc]; [|apply list_elem_of_singleton in Hc as ->]; by intros [[] [] [] [] [] [] [] []]. }
  induction s as [|d s IH]; [done|]. cbn. intros [Ha Hb]%orb_false_iff. apply orb_false_iff. split; [|by apply IH]. by rewrite Hd.
Qed.
Lemma trim_left_absent p c s : str_mem c s = false → str_mem c (trim_left_by p s) = false.
Proof. induction s as [|d s IH]; [done|]. cbn. intros H. destruct (p d); [|done]. apply orb_false_iff in H as [_ H]. auto. Qed.
Lemma trim_right_absent p c s : str_mem c s = false → str_mem c (trim_right_by p s) = false.
Proof.
  induction s as [|d s IH]; [done|]. cbn. intros [Ha Hb]%orb_false_iff. specialize (IH Hb).
  destruct (trim_right_by p s) as [|e r]; [destruct (p d)|]; cbn in *; by rewrite ?Ha, ?IH.
Qed.

Lemma normalized_ok tools : Forall (λ s, str_mem "," s = false ∧ str_mem "010" s = false) tools →
  Forall (λ s, s ≠ "" ∧ str_mem "," s = false) (normalizeTools tools) ∧ Forall (λ s, str_mem "010" s = false) (normalizeTools tools).
Proof.
  intros Hl. rewrite Forall_forall in Hl. split; apply Forall_forall; intros t Ht; unfold normalizeTools in Ht; rewrite elem_of_sort_strings in Ht;
    apply dedup_tools_elem in Ht as (Hne & t0 & Ht0 & ->); destruct (Hl t0 Ht0) as [H1 H2].
  - split; [done|]. by apply to_lower_absent, trim_right_absent, trim_left_absent.
  - by apply to_lower_absent, trim_right_absent, trim_left_absent.
Qed.

Lemma join_absent c sep l : str_mem c sep = false → Forall (λ s, str_mem c s = false) l → str_mem c (join sep l) = false.
Proof.
  intros Hs Hl. induction Hl as [|s l0 H1 H2 IH]; [done|]. destruct l0 as [|s' l0]; [done|]. rewrite join_cons by done.
  by rewrite !str_mem_app, H1, Hs, IH.
Qed.

Lemma files_head (f : gmap string string) : dom f = list_to_set ["autounattend.xml"; "setupcomplete.cmd"; "githook.ps1"; "install-golden.ps1"; "startup.ps1"] →
  sort_strings (map_to_list f).*1 = ["autounattend.xml"; "githook.ps1"; "install-golden.ps1"; "setupcomplete.cmd"; "startup.ps1"].
Proof.
  intros Hd. transitivity (sort_strings ["autounattend.xml"; "setupcomplete.cmd"; "githook.ps1"; "install-golden.ps1"; "startup.ps1"]);
    [|vm_compute; reflexivity]. apply sort_strings_unique. apply NoDup_Permutation; [apply NoDup_fst_map_to_list| |].
  - apply (bool_decide_unpack (NoDup _)). vm_compute. exact I.
  - intros n. by rewrite keys_elem, Hd, elem_of_list_to_set.
Qed.

Lemma fingerprint_text_inj a b : inputs_ok a → inputs_ok b → fingerprint_text a = fingerprint_text b → same_inputs a b.
Proof.
  intros (Ht & Hi & Ha & Hd & Hf) (Ht' & Hi' & Ha' & Hd' & Hf'). unfold fingerprint_text, hash_input, same_inputs. intros Heq.
  injection Heq as Heq. change (newline +:+ ?x) with (String "010" x) in Heq.
  apply sep_inj in Heq as [-> Heq]; [|done..]. injection Heq as Heq.
  destruct (normalized_ok _ Ht) as [Hc Hn], (normalized_ok _ Ht') as [Hc' Hn'].
  apply sep_inj in Heq as [Ej Heq]; [|by apply join_absent..]. apply join_comma_inj in Ej as ->; [|done..].
  rewrite !files_head in Heq by done.
  apply artifact_lines_inj in Heq as [-> Heq]; [|done..|reflexivity|reflexivity]. split_and!; [done..|].
  assert (∀ n, n ∈ ["autounattend.xml"; "githook.ps1"; "install-golden.ps1"; "setupcomplete.cmd"; "startup.ps1"] ↔ n ∈ dom (in_files a)) as Hin.
  { intros n. by rewrite <- (files_head _ Hd), elem_of_sort_strings, keys_elem. }
  assert (∀ f : gmap string string, map_Forall (λ _ content, nul_free content) f → ∀ n, nul_free (default "" (f !! n))) as Hnf.
  { intros f Hff n. destruct (f !! n) as [c|] eqn:Hn0; [by apply (Hff n)|done]. }
  apply map_eq. intros n. destruct (decide (n ∈ dom (in_files a))) as [Hn0|Hn0].
  - assert (default "" (in_files a !! n) = default "" (in_files b !! n)) as Hv.
    { apply (entries_inj ["autounattend.xml"; "githook.ps1"; "install-golden.ps1"; "setupcomplete.cmd"; "startup.ps1"] _ _ ltac:(repeat constructor) (λ n _, conj (Hnf _ Hf n) (Hnf _ Hf' n)) Heq). by apply Hin. }
    assert (n ∈ dom (in_files b)) as Hb0 by (by rewrite Hd', <- Hd). apply elem_of_dom in Hn0 as [x Hx], Hb0 as [y Hy].
    rewrite Hx, Hy in *. cbn in Hv. by subst.
  - assert (n ∉ dom (in_files b)) as Hb0 by (by rewrite Hd', <- Hd). by rewrite !not_elem_of_dom_1.
Qed.

(** C23: The fingerprint of a golden image stands for all of its inputs.  When two
    bakes have the same fingerprint, they have the same tools, the same Windows
    ISO, the same pinned artifacts and the same files of the installation, or
    the texts of their inputs collide in the first half of a quarter of SHA-256;
    no separator of the text can be shifted between fields. *)
Theorem fingerprint_faithful a b (Ha : inputs_ok a) (Hb : inputs_ok b) :
  fingerprint a = fingerprint b ↔
  same_inputs a b ∨
  (fingerprint_text a ≠ fingerprint_text b ∧ str_take 8 (sha256 (fingerprint_text a)) = str_take 8 (sha256 (fingerprint_text b))).
Proof.
  unfold fingerprint, toolsHashResolved. fold (fingerprint_text a) (fingerprint_text b). split.
  - intros Heq. injection Heq as Heq. apply (f_equal hex_decode) in Heq. rewrite !hex_decode_encode in Heq. injection Heq as Heq.
    destruct (decide (fingerprint_text a = fingerprint_text b)) as [E|E]; [left; by apply fingerprint_text_inj|by right].
  - intros [(Et & Ei & Ep & Ef)|[_ Es]]; [|by rewrite Es].
    assert (∀ l : list bakeArtifact, artifact_line <$> l = (λ '(n, v, u, g, d), "artifact=" +:+ n +:+ "|" +:+ v +:+ "|" +:+ u +:+ "|" +:+ g +:+ "|" +:+ d +:+ newline) <$> (pinned <$> l)) as Hl.
    { intros l. rewrite <- list_fmap_compose. by apply list_fmap_ext. }
    unfold fingerprint_text, hash_input. by rewrite Et, Ei, Ef, !Hl, Ep.
Qed.

(** ** Ports of the viewer *)

Section vnc.
Context `{!Workshop}.

Lemma free_port_ok given last excluded p : (∀ q, q ∈ given → 0 < q ≤ 65535) → (∀ q, last = Ok q → 5900 ≤ q ≤ 65535 ∧ q ∉ excluded) →
  free_port given last excluded = Ok p → 5900 ≤ p ≤ 65535 ∧ p ∉ excluded.
Proof using Type.
  induction given as [|q given IH]; intros Hg Hl; cbn [free_port]; [apply Hl|]. destruct (q <? 5900) eqn:Hq.
  - intros Hp. apply IH; [|done..]. intros q' Hq'. apply Hg. by right.
  - destruct (bool_decide (q ∈ excluded)) eqn:Hx; intros Hp; [apply IH; [|done..]; intros q' Hq'; apply Hg; by right|].
    injection Hp as <-. apply bool_decide_eq_false in Hx. apply Z.ltb_ge in Hq. specialize (Hg q ltac:(left)). split; [lia|done].
Qed.

Lemma freePort_ok host excluded p : freePort host excluded = Ok p → 5900 ≤ p ≤ 65535 ∧ p ∉ excluded.
Proof using Type.
  unfold freePort. destruct (ports host excluded) as [given last] eqn:Hp. apply free_port_ok.
  - intros q Hq. apply (ports_range host excluded). by rewrite Hp.
  - intros q Hq. apply (ports_end host excluded). by rewrite Hp.
Qed.
End vnc.

(** A host that a split address can have. *)
Definition plain_host (h : string) : Prop := h ≠ "" ∧ str_mem "[" h = false ∧ str_mem "]" h = false.

Lemma last_colon_spec s a b : last_colon s = Some (a, b) ↔ s = a +:+ String ":" b ∧ str_mem ":" b = false.
Proof.
  revert a b. induction s as [|c s IH]; intros a b; cbn [last_colon].
  - split; [done|]. intros [Heq _]. by destruct a.
  - destruct (last_colon s) as [[a0 b0]|] eqn:Hs.
    + destruct (proj1 (IH a0 b0) eq_refl) as [Es Hb0]. split.
      * intros [= <- <-]. by rewrite Es.
      * intros [Heq Hb]. destruct a as [|d a]; cbn in Heq; injection Heq as -> Heq.
        -- exfalso. rewrite <- Heq, Es, str_mem_app in Hb. cbn in Hb. by rewrite orb_true_r in Hb.
        -- assert (Some (a0, b0) = Some (a, b)) as [= -> ->]; [by apply IH|done].
    + assert (str_mem ":" s = false) as Hf.
      { clear -Hs. induction s as [|d s IH]; [done|]. cbn [last_colon str_mem] in *. destruct (last_colon s) as [[??]|]; [done|].
        destruct (Ascii.eqb_spec d ":"); [done|]. rewrite IH by done. rewrite orb_false_r. apply Ascii.eqb_neq. congruence. }
      destruct (Ascii.eqb_spec c ":") as [->|Hc]; split.
      * by intros [= <- <-].
      * intros [Heq Hb]. destruct a as [|d a]; cbn in Heq; [injection Heq as ->; done|injection Heq as Hd Heq].
        exfalso. rewrite Heq, str_mem_app in Hf. cbn in Hf. by rewrite orb_true_r in Hf.
      * done.
      * intros [Heq Hb]. destruct a as [|d a]; cbn in Heq; injection Heq as Hd Heq; [done|].
        exfalso. rewrite Heq, str_mem_app in Hf. cbn in Hf. by rewrite orb_true_r in Hf.
Qed.

Lemma split_host_port h p s : plain_host h → str_mem ":" p = false → str_mem "[" p = false → str_mem "]" p = false →
  s = JoinHostPort h p → SplitHostPort s = Some (h, p).
Proof.
  intros (Hne & Ho & Hc) Hp1 Hp2 Hp3 ->. unfold SplitHostPort, JoinHostPort. destruct (str_mem ":" h) eqn:Hcol.
  - assert (last_colon ("[" +:+ h +:+ "]:" +:+ p) = Some ("[" +:+ h +:+ "]", p)) as ->.
    { apply last_colon_spec. split; [|done]. by rewrite !str_app_assoc. }
    cbn [String.append]. change (h +:+ "]") with (h +:+ String "]" ""). rewrite cut_app by done.
    rewrite str_mem_app, Ho, Hp2, Hp3. done.
  - assert (last_colon (h +:+ ":" +:+ p) = Some (h, p)) as -> by (by apply last_colon_spec).
    destruct h as [|c h]; [done|]. assert (c ≠ "["%char) as Hc0.
    { intros ->. cbn in Ho. done. }
    rewrite Hcol, !str_mem_app, Ho, Hc. cbn [orb]. change (str_mem "[" (":" +:+ p)) with (str_mem "[" p). change (str_mem "]" (":" +:+ p)) with (str_mem "]" p).
    rewrite Hp2, Hp3. clear -Hc0. destruct c as [[] [] [] [] [] [] [] []]; try reflexivity. by destruct Hc0.
Qed.

Lemma port_text_absent c p : is_digit c = false → c ≠ "-"%char → str_mem c (format_int p) = false.
Proof. intros Hd Hm. apply format_int_mem; done. Qed.

Lemma address_join h p : plain_host h → 0 ≤ p ≤ 65535 → splitAddress (JoinHostPort h (format_int p)) = Ok (h, p).
Proof.
  intros Hh Hp. unfold splitAddress. rewrite (split_host_port h (format_int p)); [|done|by apply port_text_absent..|done].
  destruct Hh as [Hne _]. apply is_empty_false in Hne. rewrite Hne. rewrite parse_format_int by (unfold int64_min, int64_max; lia).
  assert ((p <? 0) || (65535 <? p) = false) as ->; [|done]. apply orb_false_iff. split; apply Z.ltb_ge; lia.
Qed.

Lemma split_host_plain s h p : SplitHostPort s = Some (h, p) → h ≠ "" → plain_host h.
Proof.
  unfold SplitHostPort. destruct (last_colon s) as [[before port]|] eqn:Hl; [|done]. apply last_colon_spec in Hl as [-> _].
  assert (∀ before, (if str_mem ":" before || str_mem "[" (before +:+ String ":" port) || str_mem "]" (before +:+ String ":" port)
                     then None else Some (before, port)) = Some (h, p) → h ≠ "" → plain_host h) as Hplain.
  { intros b. destruct (_ || _) eqn:Hx; [done|]. apply orb_false_iff in Hx as [[_ Hx]%orb_false_iff Hy]. intros [= -> ->] Hne.
    rewrite str_mem_app in Hx, Hy. apply orb_false_iff in Hx as [Hx _], Hy as [Hy _]. done. }
  destruct (decide (head (bytes_of before) = Some 91)) as [Hh|Hh].
  - destruct before as [|c rest]; [done|]. cbn in Hh. assert (c = "["%char) as ->.
    { rewrite <- (ascii_of_Z_of_ascii c). by injection Hh as ->. }
    destruct (cut "]" rest) as [[host tail] found] eqn:Hc. destruct tail; [destruct found|done]; [|done].
    apply cut_spec in Hc as [-> Hc]. destruct (_ || _) eqn:Hx; [done|]. apply orb_false_iff in Hx as [[Hx _]%orb_false_iff _].
    rewrite str_mem_app in Hx. apply orb_false_iff in Hx as [Hx _]. intros [= -> ->] Hne. done.
  - intros Hs Hne. apply (Hplain before); [|done]. destruct before as [|c rest]; [exact Hs|].
    destruct c as [[] [] [] [] [] [] [] []]; try exact Hs. exfalso. by apply Hh.
Qed.

Lemma splitAddress_ok a h p : splitAddress a = Ok (h, p) → plain_host h ∧ 0 ≤ p ≤ 65535.
Proof.
  unfold splitAddress. destruct (SplitHostPort a) as [[h' t]|] eqn:Hs; [|done]. destruct (is_empty h') eqn:He; [done|].
  apply is_empty_false in He. destruct (parse_int t) as [q|]; [|done]. destruct (_ || _) eqn:Hr; [done|]. intros [= -> ->].
  apply orb_false_iff in Hr as [H1%Z.ltb_ge H2%Z.ltb_ge]. split; [by eapply split_host_plain|lia].
Qed.

(** The addresses that were asked for. *)
Definition asks (o : BakeOptions) (c : vncConfig) : Prop :=
  plain_host (vnc_host c) ∧
  (vnc_port c = 0 ∨ 5900 ≤ vnc_port c ≤ 65535 ∧ vnc_port c ≠ vnc_webPort c ∧ VNC o ≠ "") ∧
  (if is_empty (VNCWeb o) then vnc_webPort c = 0
   else 0 < vnc_webPort c ≤ 65535 ∧ splitAddress (VNCWeb o) = Ok (vnc_host c, vnc_webPort c)).

Lemma parseVNC_asks o c : parseVNC o = Ok c →
  (VNC o = "" ∧ VNCWeb o = "" ∧ c = VncConfig "" 0 0) ∨ asks o c.
Proof.
  unfold parseVNC, parse_web, parse_raw, asks. destruct (is_empty (VNC o)) eqn:Hv, (is_empty (VNCWeb o)) eqn:Hw; cbn [andb];
    [apply is_empty_true in Hv, Hw; intros [= <-]; by left| | |]; intros Hp; right.
  - destruct (splitAddress (VNCWeb o)) as [[h p]|] eqn:Hs; [|done]. apply splitAddress_ok in Hs as Hr. destruct Hr as [Hh Hr].
    destruct (Z.eqb_spec p 0) as [->|Hp0]; [done|]. destruct (is_empty h) eqn:He; [apply is_empty_true in He; by destruct Hh|].
    change (0 =? 0) with true in Hp. cbn [negb andb] in Hp. rewrite andb_false_r in Hp. injection Hp as <-. cbn.
    split_and!; [done|by left|lia|lia|done].
  - destruct (splitAddress (VNC o)) as [[h p]|] eqn:Hs; [|done]. apply splitAddress_ok in Hs as [Hh Hr]. cbn in Hp.
    destruct (Z.eqb_spec p 0) as [->|Hp0]; cbn in Hp.
    + injection Hp as <-. cbn. split_and!; [done|by left|done].
    + destruct (p <? 5900) eqn:H5; [done|]. apply Z.ltb_ge in H5. cbn in Hp. injection Hp as <-. cbn.
      split_and!; [done|right|done]. split_and!; [lia..|by apply is_empty_false].
  - destruct (splitAddress (VNCWeb o)) as [[h p]|] eqn:Hs; [|done]. apply splitAddress_ok in Hs as Hr. destruct Hr as [Hh Hr].
    destruct (Z.eqb_spec p 0) as [->|Hp0]; [done|]. destruct (splitAddress (VNC o)) as [[h' p']|] eqn:Hs'; [|done].
    apply splitAddress_ok in Hs' as [Hh' Hr']. destruct (is_empty h) eqn:He; [apply is_empty_true in He; by destruct Hh|].
    destruct (Z.eqb_spec p' 0) as [->|Hp0']; cbn in Hp.
    + rewrite andb_false_r in Hp. injection Hp as <-. cbn. split_and!; [done|by left|lia|lia|done].
    + destruct (p' <? 5900) eqn:H5; [done|]. apply Z.ltb_ge in H5. rewrite andb_true_r in Hp. destruct (Z.eqb_spec p' p); [done|].
      injection Hp as <-. cbn. split_and!; [done|right|lia|lia|done]. split_and!; [lia..|by apply is_empty_false].
Qed.

Lemma parseVNC_user o c : parseVNC o = Ok c → ∀ h p, VNC o ≠ "" → splitAddress (VNC o) = Ok (h, p) → vnc_port c = p.
Proof.
  unfold parseVNC, parse_raw. intros Hp h p Hv Hs. apply is_empty_false in Hv. rewrite Hv, Hs in Hp. cbn [andb] in Hp.
  destruct (parse_web o) as [[wh wp]|]; [|done]. destruct (negb (p =? 0) && (p <? 5900)); [done|]. destruct ((p =? wp) && negb (p =? 0)); [done|]. by injection Hp as <-.
Qed.

Lemma JoinHostPort_nonempty h p : is_empty (JoinHostPort h p) = false.
Proof. apply is_empty_false. unfold JoinHostPort. destruct (str_mem ":" h); [done|]. by destruct h. Qed.

Lemma vnc_args_join o h p w : plain_host h → 0 ≤ p ≤ 65535 → VNC o = JoinHostPort h (format_int p) →
  VNCWebSocket o = match w with Some ws => JoinHostPort h (format_int ws) | None => "" end → (∀ ws, w = Some ws → 0 ≤ ws ≤ 65535) →
  vnc_args o = ["-vnc"; JoinHostPort h (format_int (p - 5900)) +:+ match w with Some ws => ",websocket=" +:+ format_int ws | None => "" end].
Proof.
  intros Hh Hp Hv Hw Hws. unfold vnc_args, address. rewrite Hv, JoinHostPort_nonempty, address_join by done. rewrite Hw.
  destruct w as [ws|]; [|done]. rewrite JoinHostPort_nonempty, address_join; [done..|by apply Hws].
Qed.

(** The display of a bake gets ports that QEMU can take.  When the addresses
    of the viewer pass, QEMU either gets no display, when none was asked for, or
    a display whose number is not negative, on a port of its host from 5900 to
    65535, the one that was asked for if it was not 0; with a web viewer it gets
    as well a WebSocket port in that range, and the three ports, of the display,
    of the WebSocket and of the viewer, which all are on the viewer's host, are
    different. *)
Theorem vnc_ports `{!Workshop} o o' (Hprep : prepareVNC o = Ok o') :
  (VNC o = "" ∧ VNCWeb o = "" ∧ vnc_args o' = ["-display"; "none"]) ∨
  ∃ host port,
    5900 ≤ port ≤ 65535 ∧ splitAddress (VNC o') = Ok (host, port) ∧
    (∀ h p, VNC o ≠ "" → splitAddress (VNC o) = Ok (h, p) → p ≠ 0 → p = port) ∧
    (VNCWeb o = "" → vnc_args o' = ["-vnc"; JoinHostPort host (format_int (port - 5900))]) ∧
    (VNCWeb o ≠ "" → ∃ web ws,
       splitAddress (VNCWeb o) = Ok (host, web) ∧ 5900 ≤ ws ≤ 65535 ∧ web ≠ 0 ∧ NoDup [port; ws; web] ∧
       vnc_args o' = ["-vnc"; JoinHostPort host (format_int (port - 5900)) +:+ ",websocket=" +:+ format_int ws]).
Proof.
  unfold prepareVNC in Hprep. destruct (parseVNC o) as [c|] eqn:Hc; [|done]. pose proof (parseVNC_user o c Hc) as Huser.
  apply parseVNC_asks in Hc as [(Hv & Hw & ->)|(Hh & Hport & Hweb)].
  { left. cbn in Hprep. injection Hprep as <-. unfold vnc_args, set_vnc. cbn. by rewrite Hv. }
  right. assert (is_empty (vnc_host c) = false) as He by (apply is_empty_false, Hh). rewrite He in Hprep.
  destruct (if vnc_port c =? 0 then _ else _) as [port|] eqn:Hpo; [|done].
  assert (5900 ≤ port ≤ 65535 ∧ port ≠ vnc_webPort c ∧ (vnc_port c ≠ 0 → vnc_port c = port)) as (Hr & Hne & Heq).
  { destruct (Z.eqb_spec (vnc_port c) 0) as [E|E].
    - apply freePort_ok in Hpo as [Hr Hn]. split; [done|]. split; [|done]. intros ->. apply Hn. left.
    - injection Hpo as <-. destruct Hport as [?|(? & ? & _)]; done. }
  exists (vnc_host c), port. split; [done|].
  destruct (is_empty (VNCWeb o)) eqn:Hwe.
  - injection Hprep as <-. cbn [VNC set_vnc]. rewrite address_join by (done || lia). apply is_empty_true in Hwe. split_and!; [done| | |done].
    + intros h p Hv Hs Hp. rewrite <- (Heq ltac:(rewrite (Huser h p Hv Hs); done)). symmetry. by apply (Huser h).
    + intros _. rewrite (vnc_args_join _ (vnc_host c) port None) by (done || lia). by rewrite str_app_nil_r.
  - destruct (freePort _ [port; vnc_webPort c]) as [ws|] eqn:Hws; [|done]. injection Hprep as <-. cbn [VNC set_vnc].
    apply freePort_ok in Hws as [Hwr Hwn]. rewrite !not_elem_of_cons in Hwn. destruct Hwn as (Hn1 & Hn2 & _). destruct Hweb as [Hwb Hsw].
    rewrite address_join by (done || lia). apply is_empty_false in Hwe. split_and!; [done| |done|].
    + intros h p Hv Hs Hp. rewrite <- (Heq ltac:(rewrite (Huser h p Hv Hs); done)). symmetry. by apply (Huser h).
    + intros _. exists (vnc_webPort c), ws. split; [done|]. split; [done|]. split; [lia|]. split.
      * repeat (apply NoDup_cons; split; [rewrite ?not_elem_of_cons; repeat split; try (by apply not_elem_of_nil); congruence|]). by apply NoDup_nil.
      * rewrite (vnc_args_join _ (vnc_host c) port (Some ws)); [done..| |done| |]; [lia|done|]. intros ? [= <-]. lia.
Qed.

(** ** What a program leaves alone *)

Section frame.
Context `{MapRange} (m : Manifest) `{!Workshop} `{!Disk} `{!Web}.

Definition kept (p : string) (x : option file) (w : world) : Prop := files w !! p = x.

Lemma kept_syscall {A} p x o (f : gmap string file → result A * gmap string file) :
  (∀ fs, (f fs).2 !! p = fs !! p) → preserves (kept p x) (syscall o f).
Proof using Type.
  intros Hf. apply preserves_wp. intros w Hw. apply syscall_wp; [done|]. unfold kept. cbn [files set_files]. by rewrite Hf.
Qed.
Lemma kept_read p x path : preserves (kept p x) (read_file path).
Proof using Type. by apply kept_syscall. Qed.
Lemma kept_stat p x path : preserves (kept p x) (stat_mode path).
Proof using Type. by apply kept_syscall. Qed.
Lemma kept_create p x path : p ≠ path → preserves (kept p x) (create_file path).
Proof using Type. intros Hne. apply kept_syscall. intros fs. cbn. by rewrite lookup_insert_ne. Qed.
Lemma kept_write p x path data : p ≠ path → preserves (kept p x) (write path data).
Proof using Type.
  intros Hne w Hw. unfold write, kept in *. destruct (op_fails _ _); cbn; by rewrite lookup_alter_ne.
Qed.
Lemma kept_close p x path : preserves (kept p x) (close path).
Proof using Type. by apply kept_syscall. Qed.
Lemma kept_remove p x path : p ≠ path → preserves (kept p x) (remove path).
Proof using Type.
  intros Hne. apply kept_syscall. intros fs. destruct (fs !! path); cbn; [by rewrite lookup_delete_ne|done].
Qed.
Lemma kept_put p x path data : p ≠ path → preserves (kept p x) (put path data).
Proof using Type. intros Hne w Hw. unfold put, modify, kept in *. cbn. by rewrite lookup_insert_ne. Qed.
Lemma kept_remove_all p x dir : in_dir dir p = false → preserves (kept p x) (remove_all dir).
Proof using Type.
  intros Hd. apply kept_syscall. intros fs. cbn. rewrite map_lookup_filter. destruct (fs !! p); [|done]. cbn. by rewrite option_guard_True.
Qed.
Lemma kept_get p x url : preserves (kept p x) (http_get url).
Proof using Type.
  unfold http_get. apply preserves_bind; [apply preserves_of_result|]. intros u w Hw. exact Hw.
Qed.
Lemma kept_gets {A} p x (f : world → A) : preserves (kept p x) (gets f).
Proof using Type. by intros w Hw. Qed.
Lemma kept_ignored p x c : preserves (kept p x) c → preserves (kept p x) (ignored c).
Proof using Type. intros Hc. apply preserves_catch; [done|]. intros r. apply preserves_ret. Qed.
Lemma ignored_wp (P : world → Prop) c w : preserves P c → P w → wp (ignored c) (λ r w', r = Ok tt ∧ P w') w.
Proof using Type.
  intros Hc Hw. apply wp_catch. eapply wp_mono; [by apply wp_preserves|]. intros r w' Hw'. by apply wp_ret.
Qed.
End frame.

Ltac kept_step :=
  match goal with
  | |- preserves _ (bind _ _) => apply preserves_bind; [|intros]
  | |- preserves _ (catch _ _) => apply preserves_catch; [|intros]
  | |- preserves _ (wrap _ _) => apply preserves_wrap
  | |- preserves _ (loop _ _ _) => apply preserves_loop; intros
  | |- preserves _ (of_result _) => apply preserves_of_result
  | |- preserves _ (guard _) => apply preserves_guard
  | |- preserves _ (ret _) => apply preserves_ret
  | |- preserves _ (throw _) => apply preserves_throw
  | |- preserves _ (read_file _) => apply kept_read
  | |- preserves _ (stat_mode _) => apply kept_stat
  | |- preserves _ (create_file _) => apply kept_create
  | |- preserves _ (write _ _) => apply kept_write
  | |- preserves _ (close _) => apply kept_close
  | |- preserves _ (remove _) => apply kept_remove
  | |- preserves _ (put _ _) => apply kept_put
  | |- preserves _ (remove_all _) => apply kept_remove_all
  | |- preserves _ (http_get _) => apply kept_get
  | |- preserves _ (gets _) => apply kept_gets
  | |- preserves _ (ignored _) => apply kept_ignored
  | |- preserves _ (match ?x with _ => _ end) => destruct x
  | |- preserves _ (if ?x then _ else _) => destruct x
  | |- preserves _ (let _ := _ in _) => cbv zeta
  end.
Ltac keeping := repeat kept_step; try done.

(** ** Staged payloads *)

Section staging.
Context `{MapRange} (m : Manifest) `{!Workshop} `{!Disk} `{!Web}.

Definition digest_of (algorithm data : string) : option string :=
  if String.eqb (to_upper algorithm) "SHA256" then Some (hex_encode (sha256 data))
  else if String.eqb (to_upper algorithm) "SHA512" then Some (hex_encode (sha512 data)) else None.
(** Data with the pinned digest of an artifact. *)
Definition matches (a : bakeArtifact) (data : string) : Prop :=
  ∃ d, digest_of (art_Algorithm a) data = Some d ∧ equal_fold d (art_Digest a) = true.

Definition stage_dir (n : nat) : string := Join temp_dir ("mr-bakestage" +:+ random_name n).
(** The paths of different names in a directory are different. *)
Definition apart (dir : string) (names : list string) : Prop := ∀ a b, a ∈ names → b ∈ names → Join dir a = Join dir b → a = b.

Lemma plain_apart dir names : has_prefix "/" dir = true → Forall plain names → apart dir names.
Proof using Type.
  intros Hd Hn a b Ha Hb Heq. rewrite Forall_forall in Hn. pose proof (Hn a Ha) as Pa. pose proof (Hn b Hb) as Pb.
  change a with (join "/" [a]) in Heq. change b with (join "/" [b]) in Heq.
  assert (∀ x, plain x → Forall plain [x]) as Hone by (intros x Hx; by apply Forall_singleton).
  rewrite (Join_elems dir [a]), (Join_elems dir [b]) in Heq by auto. apply (f_equal elems) in Heq.
  destruct (elems_rooted dir Hd) as [_ Hp]. rewrite !elems_path_text in Heq by (apply Forall_app; auto).
  injection Heq as Heq. by apply app_inj_tail in Heq as [_ ->].
Qed.

(** What the refs are while the artifacts before them are staged. *)
Definition verified (dir : string) (staged : list bakeArtifact) (refs : gmap string string) (w : world) : Prop :=
  ∀ name path, refs !! name = Some path → path = Join dir name ∧
    ∃ a f, a ∈ staged ∧ art_Name a = name ∧ files w !! path = Some f ∧ matches a (f_data f).

Lemma verified_kept dir staged refs w w' : verified dir staged refs w →
  (∀ a, a ∈ staged → files w' !! Join dir (art_Name a) = files w !! Join dir (art_Name a)) → verified dir staged refs w'.
Proof using Type.
  intros Hv Hk name path Hr. destruct (Hv name path Hr) as (-> & a & f & Ha & <- & Hf & Hm). split; [done|].
  exists a, f. rewrite Hk by done. done.
Qed.

Lemma digest_wp path algorithm w (Q : result string → world → Prop) :
  (∀ r w', files w' = files w → (∀ d, r = Ok d → ∃ f, files w !! path = Some f ∧ digest_of algorithm (f_data f) = Some d) → Q r w') →
  wp (fileDigest path algorithm) Q w.
Proof using Type.
  intros HQ. unfold fileDigest. apply wp_bind. apply stored_wp. intros r w' Hw Hr. destruct r as [data|e]; [|by apply HQ].
  destruct (Hr data eq_refl) as (f & Hf & <-). unfold digest_of in HQ.
  destruct (String.eqb (to_upper algorithm) "SHA256"); [|destruct (String.eqb (to_upper algorithm) "SHA512")].
  1,2: apply wp_ret, HQ; [done|]; intros d [= <-]; by exists f.
  by apply wp_throw, HQ.
Qed.

Lemma stage_frame dir refs a p x : p ≠ Join dir (art_Name a) → preserves (kept p x) (stage_artifact dir refs a).
Proof using Type. intros Hp. unfold stage_artifact, downloadFile, fileDigest. keeping. Qed.

Lemma stage_artifact_wp dir refs a staged w : verified dir staged refs w →
  apart dir (art_Name <$> staged ++ [a]) → art_Name a ∉ art_Name <$> staged →
  wp (stage_artifact dir refs a) (λ r w', ∃ refs', r = Ok refs' ∧ verified dir (staged ++ [a]) refs' w') w.
Proof using Type.
  intros Hv Hap Hnew. set (dst := Join dir (art_Name a)).
  assert (∀ b, b ∈ staged → Join dir (art_Name b) ≠ dst) as Hne.
  { intros b Hb Heq. apply Hnew. apply list_elem_of_fmap. exists b. split; [|done]. symmetry. eapply Hap; [| |exact Heq];
      apply list_elem_of_fmap; [exists b|exists a]; (split; [done|]); apply elem_of_app; [by left|right; left]. }
  (** every later world keeps the paths of the staged artifacts *)
  assert (∀ refs' w', verified dir staged refs' w' → verified dir (staged ++ [a]) refs' w') as Hmore.
  { intros refs' w' Hv' name path Hr. destruct (Hv' name path Hr) as (E & b & f & Hb & Hrest). split; [done|].
    exists b, f. split; [apply elem_of_app; by left|done]. }
  assert (∀ A (c : M world A), (∀ p x, p ≠ dst → preserves (kept p x) c) →
    ∀ w, verified dir staged refs w → verified dir staged refs (c w).2) as Hkeep.
  { intros A c Hc w0 Hw0. eapply verified_kept; [exact Hw0|]. intros b Hb. by apply (Hc _ (files w0 !! Join dir (art_Name b)) (Hne b Hb)). }
  unfold stage_artifact. fold dst. apply wp_catch. eapply wp_mono; [apply (wp_preserves (verified dir staged refs)); [|exact Hv]|].
  { intros w0 Hw0. apply Hkeep; [|done]. intros p x Hp. unfold downloadFile. keeping. }
  intros [[]|e] w1 Hw1; [|apply wp_ret; exists refs; split; [done|by apply Hmore]]. cbn beta in Hw1.
  apply wp_catch, digest_wp. intros r w2 Hw2 Hr. assert (verified dir staged refs w2) as Hv2 by (eapply verified_kept; [exact Hw1|by rewrite Hw2]).
  assert (wp (ignored (remove dst) ;;; ret refs) (λ r w', ∃ refs', r = Ok refs' ∧ verified dir (staged ++ [a]) refs' w') w2) as Hrm.
  { apply wp_bind. eapply wp_mono; [apply (ignored_wp (verified dir staged refs)); [|exact Hv2]|].
    - intros w0 Hw0. apply Hkeep; [|done]. intros p x Hp. keeping.
    - intros r' w3 [-> Hw3]. apply wp_ret. exists refs. split; [done|by apply Hmore]. }
  destruct r as [d|e]; cbn zeta; [|exact Hrm]. destruct (equal_fold d (art_Digest a)) eqn:Hd; [|exact Hrm].
  apply wp_ret. eexists. split; [done|]. destruct (Hr d eq_refl) as (f & Hf & Hdg). intros name path. rewrite lookup_insert.
  destruct (decide (art_Name a = name)) as [<-|Hn]; [|intros Hl; exact (Hmore refs w2 Hv2 name path Hl)].
  intros [= <-]. split; [done|]. exists a, f. rewrite Hw2. split; [apply elem_of_app; right; left|]. split; [done|]. split; [done|]. by exists d.
Qed.

Lemma loop_stage_wp dir todo : ∀ staged refs w, verified dir staged refs w →
  apart dir (art_Name <$> staged ++ todo) → NoDup (art_Name <$> staged ++ todo) →
  wp (loop (stage_artifact dir) refs todo) (λ r w', ∃ refs', r = Ok refs' ∧ verified dir (staged ++ todo) refs' w') w.
Proof using Type.
  induction todo as [|a todo IH]; intros staged refs w Hv Hap Hnd; cbn [loop].
  { apply wp_ret. exists refs. by rewrite app_nil_r. }
  apply wp_bind. eapply wp_mono; [apply (stage_artifact_wp dir refs a staged); [done| |]|].
  - rewrite (cons_middle a), app_assoc, fmap_app in Hap. intros x y Hx Hy. apply Hap; apply elem_of_app; by left.
  - rewrite fmap_app, fmap_cons in Hnd. apply NoDup_app in Hnd as (_ & Hnd & _). intros Hin. apply (Hnd _ Hin). left.
  - intros r w' (refs' & -> & Hv'). rewrite (cons_middle a), app_assoc. apply IH; [done|..]; by rewrite <- app_assoc.
Qed.

(** C24: The payloads that are staged for the guest are the pinned ones.  Whatever
    the servers answer and whichever call fails, each file that is given to the
    ISO is, at that moment, one whose digest is that of the artifact whose name
    it has; a download that fails, is cut short or has another digest is left
    to the guest, which checks it itself. *)
Theorem payloads_verified artifacts w r w'
    (Hnames : Forall plain (art_Name <$> artifacts))
    (Hdistinct : NoDup (art_Name <$> artifacts))
    (Htemp : ∀ n, has_prefix "/" (stage_dir n) = true)
    (Hrun : stageArtifacts artifacts w = (r, w')) :
  ∃ refs dir, r = Ok (refs, dir) ∧
  ∀ name path, refs !! name = Some path →
    ∃ a f, a ∈ artifacts ∧ art_Name a = name ∧ files w' !! path = Some f ∧ matches a (f_data f).
Proof using Type.
  assert (wp (stageArtifacts artifacts) (λ r w', ∃ refs dir, r = Ok (refs, dir) ∧
    ∀ name path, refs !! name = Some path → ∃ a f, a ∈ artifacts ∧ art_Name a = name ∧ files w' !! path = Some f ∧ matches a (f_data f)) w) as Hwp;
    [|unfold wp in Hwp; by rewrite Hrun in Hwp].
  unfold stageArtifacts. apply wp_catch. unfold mkdir_temp. apply wp_bind, wp_gets. cbn beta. fold (stage_dir (calls w)).
  apply syscall_wp; [intros e; apply wp_ret; exists ∅, None; split; [done|]; intros name path; by rewrite lookup_empty|]. cbn [fst snd].
  apply wp_bind. eapply wp_mono; [apply (loop_stage_wp _ artifacts [] ∅)|].
  - intros name path. by rewrite lookup_empty.
  - by apply plain_apart.
  - done.
  - intros r' w2 (refs & -> & Hv). apply wp_ret. exists refs, (Some (stage_dir (calls w))). split; [done|].
    intros name path Hl. destruct (Hv name path Hl) as (_ & a & f & Ha & Hn & Hf & Hm). by exists a, f.
Qed.
End staging.

(** ** The bake *)

Section bake.
Context `{MapRange} (m : Manifest) `{!Workshop} `{!Disk} `{!Web}.
Local Notation P := (M world).

(** The options with their defaults and their fingerprint, from the ISO and the
    selected tools. *)
Definition hashed (o o' : BakeOptions) (fs : gmap string file) : Prop :=
  ∃ iso plan artifacts install,
    fs !! WindowsISO o = Some iso ∧
    (WindowsISOSHA256 o = "" ∨ equal_fold (hex_encode (sha256 (f_data iso))) (WindowsISOSHA256 o) = true) ∧
    resolveToolPlan m (bo_Tools o) = Ok plan ∧
    bakeArtifactsForPlan m (bo_RunnerVersion o') (bo_RunnerSHA256 o) plan = Ok artifacts ∧
    AutounattendFiles m (bo_RunnerVersion o') (bo_RunnerSHA256 o) toolsHashAdminPassword (bo_Tools o) = Ok install ∧
    o' = set_hash (fingerprint (Inputs (Canonical plan) (hex_encode (sha256 (f_data iso))) artifacts install)) (defaults m o).

(** Not a file of the staging directory. *)
Definition outside (p : string) : Prop := ∀ n, in_dir (stage_dir n) p = false ∧ ∀ name, plain name → Join (stage_dir n) name ≠ p.

Lemma iso_wp o w : wp (iso_digest o) (λ r w', files w' = files w ∧ ∀ d, WindowsISO o ≠ "" → r = Ok d →
  ∃ f, files w !! WindowsISO o = Some f ∧ d = hex_encode (sha256 (f_data f)) ∧ (WindowsISOSHA256 o = "" ∨ equal_fold d (WindowsISOSHA256 o) = true)) w.
Proof using Type.
  unfold iso_digest. destruct (is_empty (WindowsISO o)) eqn:Hi; [apply wp_ret; split; [done|]; apply is_empty_true in Hi; by rewrite Hi|].
  apply wp_bind. unfold wrap. apply wp_catch. unfold guard.
  destruct (if is_empty (WindowsISOSHA256 o) then _ else _); [apply wp_throw, wp_throw; done|]. apply wp_ret, wp_ret.
  apply wp_bind, wp_catch, digest_wp. intros r w' Hw Hr. destruct r as [got|e]; [|by apply wp_throw]. apply wp_ret.
  destruct (Hr got eq_refl) as (f & Hf & Hd). injection Hd as <-. destruct (negb (is_empty (WindowsISOSHA256 o)) && _) eqn:Hm; [by apply wp_throw|].
  apply wp_ret. split; [done|]. intros d _ [= <-]. exists f. split; [done|]. split; [done|].
  apply andb_false_iff in Hm as [Hm|Hm]; apply negb_false_iff in Hm; [left; by apply is_empty_true|by right].
Qed.

Lemma of_result_wp {A} (r : result A) (Q : result A → world → Prop) w : Q r w → wp (of_result r) Q w.
Proof using Type. by destruct r. Qed.

(** What the defaults do not change. *)
Lemma defaults_keep o : let d := defaults m o in
  WindowsISO d = WindowsISO o ∧ WindowsISOSHA256 d = WindowsISOSHA256 o ∧ bo_Tools d = bo_Tools o ∧ bo_RunnerSHA256 d = bo_RunnerSHA256 o ∧
  bo_Golden d = bo_Golden o ∧ or_default (bo_RunnerVersion d) (DefaultRunnerVersion m) = bo_RunnerVersion d.
Proof using Type.
  assert (∀ x y, or_default (or_default x y) y = or_default x y) as Hor.
  { intros x y. unfold or_default. destruct (is_empty x) eqn:Hx; [by destruct (is_empty y)|by rewrite Hx]. }
  unfold defaults. destruct (if is_empty (OVMFCode o) then _ else _). cbn. split_and!; done.
Qed.

Lemma hash_wp o w : WindowsISO o ≠ "" →
  wp (let! hash := wrap "bake inputs: " (ToolsHash m (defaults m o)) in ret (set_hash hash (defaults m o)))
     (λ r w', files w' = files w ∧ ∀ o1, r = Ok o1 → hashed o o1 (files w)) w.
Proof using Type.
  intros Hne. destruct (defaults_keep o) as (Hiso & Hsha & Htools & Hrs & _ & Hver). set (d := defaults m o) in *.
  apply wp_bind. unfold wrap. apply wp_catch. unfold ToolsHash. apply wp_bind. eapply wp_mono; [apply iso_wp|].
  intros [digest|e] w2 [Hw2 Hd2]; [|by apply wp_throw]. rewrite Hiso in Hd2. destruct (Hd2 digest Hne eq_refl) as (f & Hf & -> & Hmatch).
  rewrite Htools, Hrs, Hver. rewrite Hsha in Hmatch. apply wp_bind, of_result_wp.
  destruct (resolveToolPlan m (bo_Tools o)) as [plan|e] eqn:Hplan; [|by apply wp_throw]. apply wp_bind, of_result_wp.
  destruct (bakeArtifactsForPlan _ _ _ _) as [arts|e] eqn:Harts; [|by apply wp_throw]. apply wp_bind, of_result_wp.
  destruct (AutounattendFiles _ _ _ _ _) as [install|e] eqn:Hinst; [|by apply wp_throw]. apply wp_ret, wp_ret, wp_ret.
  split; [done|]. intros o1 [= <-]. by exists f, plan, arts, install.
Qed.

Lemma validate_wp o w : wp (validateBake m o) (λ r w', files w' = files w ∧ ∀ o1, r = Ok o1 → hashed o o1 (files w)) w.
Proof using Type.
  unfold validateBake. destruct (defaults_keep o) as (Hiso & _). destruct (is_empty (WindowsISO _) || _) eqn:He; [by apply wp_throw|].
  apply orb_false_iff in He as [Hne%is_empty_false _]. rewrite Hiso in Hne. apply wp_bind. unfold wrap at 1. apply wp_catch, stored_wp.
  intros rs w1 Hw1 _. destruct rs as [md|e]; [|by apply wp_throw]. apply wp_ret, wp_bind. unfold guard.
  destruct (result_err (parseVNC _)); [by apply wp_throw|]. apply wp_ret. rewrite <- Hw1. by apply hash_wp.
Qed.

(** A dry run changes no file, and passes what the bake itself checks first. *)
Lemma PlanBake_wp o w : wp (PlanBake m o) (λ r w', files w' = files w ∧ ∀ text o1, r = Ok (text, o1) → hashed o o1 (files w)) w.
Proof using Type.
  unfold PlanBake. apply wp_bind. eapply wp_mono; [apply validate_wp|]. intros [o1|e] w1 [Hw1 Ho1]; [|by split].
  apply wp_ret. split; [done|]. intros text o2 [= _ <-]. by apply Ho1.
Qed.

Lemma kept_loop {A B} p x (f : B → A → M world B) l : (∀ b a, a ∈ l → preserves (kept p x) (f b a)) → ∀ b, preserves (kept p x) (loop f b l).
Proof using Type.
  induction l as [|a l IH]; intros Hf b; cbn [loop]; [apply preserves_ret|]. apply preserves_bind; [apply Hf; left|].
  intros b'. apply IH. intros b0 a0 Ha. apply Hf. by right.
Qed.

Definition plain_names (o : BakeOptions) : Prop := ∀ plan v d artifacts,
  resolveToolPlan m (bo_Tools o) = Ok plan → bakeArtifactsForPlan m v d plan = Ok artifacts → Forall plain (art_Name <$> artifacts).

(** Staging never fails. *)
Lemma loop_ok {A B} (f : B → A → M world B) : (∀ b a w, ∃ b', (f b a w).1 = Ok b') → ∀ l b w, ∃ b', (loop f b l w).1 = Ok b'.
Proof using Type.
  intros Hf l. induction l as [|a l IH]; intros b w; cbn [loop]; [by exists b|]. unfold bind. destruct (Hf b a w) as [b1 Hb1].
  destruct (f b a w) as [r w1]. cbn in Hb1. subst r. apply IH.
Qed.
Lemma stage_ok dir refs a w : ∃ refs', (stage_artifact dir refs a w).1 = Ok refs'.
Proof using Type.
  assert (wp (stage_artifact dir refs a) (λ r _, ∃ refs', r = Ok refs') w) as H'; [|exact H'].
  assert (∀ w, wp (ignored (remove (Join dir (art_Name a))) ;;; ret refs) (λ r _, ∃ refs', r = Ok refs') w) as Hrm.
  { intros w0. apply wp_bind. eapply wp_mono; [by apply (ignored_wp (λ _, True))|]. intros r w1 [-> _]. apply wp_ret. by exists refs. }
  unfold stage_artifact. apply wp_catch. eapply wp_mono; [by apply (wp_preserves (λ _, True))|]. intros [[]|e] w1 _; [|apply wp_ret; by exists refs].
  apply wp_catch. eapply wp_mono; [by apply (wp_preserves (λ _, True))|]. intros r w2 _. cbv zeta.
  destruct (match r with Ok _ => _ | Err _ => _ end); [apply wp_ret; by eexists|apply Hrm].
Qed.

(** Staging writes to its directory, and says which. *)
Lemma stage_all_wp o v d w p x : plain_names o → outside p → kept p x w →
  wp (stageBakeBinaries m v d (bo_Tools o)) (λ r w', kept p x w' ∧ ∃ refs dir, r = Ok (refs, dir) ∧ (∀ n, dir = Some n → in_dir n p = false)) w.
Proof using Type.
  intros Hpn Hout Hw. unfold stageBakeBinaries. destruct (resolveToolPlan m (bo_Tools o)) as [plan|] eqn:Hplan; [|apply wp_ret; split; [done|by exists ∅, None]].
  destruct (bakeArtifactsForPlan m v d plan) as [arts|] eqn:Harts; [|apply wp_ret; split; [done|by exists ∅, None]].
  specialize (Hpn _ _ _ _ Hplan Harts). unfold stageArtifacts. apply wp_catch. unfold mkdir_temp. apply wp_bind, wp_gets. cbn beta.
  fold (stage_dir (calls w)). destruct (Hout (calls w)) as [Hin Hne].
  apply syscall_wp; [intros e; apply wp_ret; split; [exact Hw|by exists ∅, None]|]. cbn [fst snd].
  apply wp_bind. assert (∀ refs, preserves (kept p x) (loop (stage_artifact (stage_dir (calls w))) refs arts)) as Hloop.
  { apply kept_loop. intros refs a Ha. apply stage_frame. intros ->. rewrite Forall_forall in Hpn.
    eapply Hne; [apply Hpn|done]. apply list_elem_of_fmap. by exists a. }
  match goal with |- wp _ _ ?w0 =>
    destruct (loop_ok (stage_artifact (stage_dir (calls w))) (stage_ok _) arts ∅ w0) as [refs Hr]; pose proof (Hloop ∅ w0 Hw) as Hk
  end.
  unfold wp. destruct (loop _ ∅ arts _) as [r w1]. cbn [fst snd] in *. subst r. cbn.
  split; [exact Hk|]. exists refs, (Some (stage_dir (calls w))). split; [done|]. by intros n [= <-].
Qed.

Lemma app_tail_ne g x y : x ≠ y → g +:+ x ≠ g +:+ y.
Proof using Type. intros Hne Heq. apply Hne. induction g as [|c g IH]; [done|]. injection Heq as Heq. auto. Qed.
Lemma app_self_ne g c x : g ≠ g +:+ String c x.
Proof using Type. intros Heq. apply (f_equal String.length) in Heq. rewrite str_length_app in Heq. cbn in Heq. lia. Qed.

Lemma prepareVNC_fields o o' : prepareVNC o = Ok o' → ∃ v ws, o' = set_vnc v ws o.
Proof using Type.
  unfold prepareVNC. destruct (parseVNC o) as [c|]; [|done]. destruct (is_empty (vnc_host c)); [intros [= <-]; by eexists _, _|].
  destruct (if vnc_port c =? 0 then _ else _); [|done]. destruct (is_empty (VNCWeb o)); [intros [= <-]; by eexists _, _|].
  destruct (freePort _ _); [|done]. intros [= <-]. by eexists _, _.
Qed.
Lemma hashed_golden o o1 fs : hashed o o1 fs → bo_Golden o1 = bo_Golden o ∧ bo_Tools o1 = bo_Tools o.
Proof using Type.
  intros (iso & plan & arts & install & _ & _ & _ & _ & _ & ->). destruct (defaults_keep o) as (_ & _ & Ht & _ & Hg & _).
  unfold set_hash. cbn. by rewrite Hg, Ht.
Qed.

Definition prepared_from (o : BakeOptions) (fs : gmap string file) (iso : string) (args : list string) (o' : BakeOptions) : Prop :=
  (∃ o1, hashed o o1 fs ∧ prepareVNC o1 = Ok o') ∧ bo_Golden o' = bo_Golden o ∧
  iso = autounattend_path (bo_Golden o) ∧ args = bakeQEMUArgs o' iso (bake_vars (bo_Golden o)).

Lemma create_disk_kept o p x : p ≠ bo_Golden o → preserves (kept p x) (create_disk o).
Proof using Type. intros Hp. unfold create_disk. destruct (img_create _) as [failed disk]. keeping. Qed.
Lemma create_media_kept o fs refs p x : p ≠ autounattend_path (bo_Golden o) → p ≠ bake_vars (bo_Golden o) →
  preserves (kept p x) (create_media o fs refs).
Proof using Type.
  intros Hi Hv. unfold create_media, BuildISOFiles, copyFile, WriteFile, add_ref, add_content. keeping.
Qed.

Lemma kept_step_wp {A B} p x (c : P A) (k : A → P B) (Q : result B → Prop) w0 :
  preserves (kept p x) c → kept p x w0 → (∀ e, Q (Err e)) →
  (∀ a w1, kept p x w1 → wp (k a) (λ r w', kept p x w' ∧ Q r) w1) →
  wp (bind c k) (λ r w', kept p x w' ∧ Q r) w0.
Proof using Type.
  intros Hc Hw0 He Hk. apply wp_bind. eapply wp_mono; [by apply wp_preserves|].
  intros [a|e] w'' Hw''; [by apply Hk|by split].
Qed.

Lemma prepare_media_wp o o2 w p x : plain_names o → bo_Tools o2 = bo_Tools o → outside p →
  p ≠ autounattend_path (bo_Golden o2) → p ≠ bake_vars (bo_Golden o2) → kept p x w →
  wp (prepare_media m o2) (λ r w', kept p x w' ∧ ∀ iso args o', r = Ok (iso, args, o') →
    o' = o2 ∧ iso = autounattend_path (bo_Golden o2) ∧ args = bakeQEMUArgs o2 iso (bake_vars (bo_Golden o2))) w.
Proof using Type.
  intros Hpn Ht2 Hout Hi Hv Hk. unfold prepare_media.
  set (Q := λ r : result (string * list string * BakeOptions), ∀ iso args o', r = Ok (iso, args, o') →
    o' = o2 ∧ iso = autounattend_path (bo_Golden o2) ∧ args = bakeQEMUArgs o2 iso (bake_vars (bo_Golden o2))).
  apply (kept_step_wp p x _ _ Q); [by keeping|done..|]. intros fs w4 Hk4.
  rewrite Ht2. apply wp_bind. eapply wp_mono; [by apply (stage_all_wp o _ _ w4 p x)|].
  intros r w5 [Hk5 (refs & dir & -> & Hdir)]. apply wp_catch. eapply wp_mono; [apply wp_preserves; [|exact Hk5]|].
  { by apply create_media_kept. }
  intros rm w6 Hk6. cbn beta. apply (kept_step_wp p x _ _ Q); [|done..|].
  { destruct dir as [d|]; [|apply preserves_ret]. apply kept_ignored, kept_remove_all. by apply Hdir. }
  intros _ w7 Hk7. apply (kept_step_wp p x _ _ Q); [by keeping|done..|]. intros _ w8 Hk8. apply wp_ret. split; [done|].
  by intros iso args o' [= <- <- <-].
Qed.

(** The log of an earlier run that a removal left behind. *)
Definition left_behind (golden : string) (fs : gmap string file) (log : string) : Prop :=
  f_data <$> fs !! GoldenSerialPath golden = Some log ∧ ∃ n e, op_fails n (OpRemove (GoldenSerialPath golden)) = Some e.
(** What the log can hold, once the bake is prepared. *)
Definition serial_cleared (golden : string) (fs fs' : gmap string file) : Prop :=
  ∀ log, f_data <$> fs' !! GoldenSerialPath golden = Some log → left_behind golden fs log.

Lemma remove_serial_wp golden fs w : files w !! GoldenSerialPath golden = fs !! GoldenSerialPath golden →
  wp (ignored (remove (GoldenSerialPath golden))) (λ _ w', serial_cleared golden fs (files w')) w.
Proof using Type.
  intros Hw. unfold ignored, remove, serial_cleared, left_behind, wp, catch, syscall, ret. cbn.
  destruct (op_fails (S (calls w)) (OpRemove (GoldenSerialPath golden))) as [e|] eqn:Hf; cbn.
  - rewrite Hw. intros log Hl. split; [done|]. by exists (S (calls w)), e.
  - destruct (files w !! _) as [f|] eqn:Hs; cbn; intros log; [by rewrite lookup_delete_eq|by rewrite Hs].
Qed.

(** [o2] is what a bake of [o] goes on with. *)
Definition readied (o : BakeOptions) (fs : gmap string file) (o2 : BakeOptions) : Prop := ∃ o1, hashed o o1 fs ∧ prepareVNC o1 = Ok o2.

Lemma readied_keep o fs o2 : readied o fs o2 → bo_Golden o2 = bo_Golden o ∧ bo_Tools o2 = bo_Tools o.
Proof using Type.
  intros (o1 & Ho1 & Ho2). pose proof (hashed_golden _ _ _ Ho1) as [Hg1 Ht1].
  destruct (prepareVNC_fields _ _ Ho2) as (v & ws & ->). unfold set_vnc. cbn. by rewrite Hg1, Ht1.
Qed.

(** [Prepare] up to the removal of the log. *)
Lemma prepare_begin_wp {A} o w (k : BakeOptions → P A) (Q : result A → world → Prop) :
  (∀ e w', files w' = files w → Q (Err e) w') →
  (∀ o2 w', readied o (files w) o2 → files w' = files w → wp (k o2) Q w') →
  wp (let! o := validateBake m o in let! o := of_result (prepareVNC o) in k o) Q w.
Proof using Type.
  intros He Hk. apply wp_bind. eapply wp_mono; [apply validate_wp|].
  intros [o1|e] w1 [Hw1 Ho1]; [|by apply He]. specialize (Ho1 o1 eq_refl).
  apply wp_bind, of_result_wp. destruct (prepareVNC o1) as [o2|e] eqn:Ho2; [|by apply He].
  apply Hk; [by exists o1|done].
Qed.

Lemma prepare_wp o w p : plain_names o → outside p → p ≠ bo_Golden o → p ≠ GoldenSerialPath (bo_Golden o) →
  p ≠ autounattend_path (bo_Golden o) → p ≠ bake_vars (bo_Golden o) →
  wp (Prepare m o) (λ r w', kept p (files w !! p) w' ∧
    ∀ iso args o', r = Ok (iso, args, o') → prepared_from o (files w) iso args o') w.
Proof using Type.
  intros Hpn Hout Hg Hs Hi Hv. unfold Prepare. apply prepare_begin_wp; [intros e w' Hw'; split; [unfold kept; by rewrite Hw'|done]|].
  intros o2 w2 Hr Hw2. pose proof (readied_keep _ _ _ Hr) as [Hg2 Ht2].
  set (Q := λ r : result (string * list string * BakeOptions), ∀ iso args o', r = Ok (iso, args, o') → prepared_from o (files w) iso args o').
  assert (kept p (files w !! p) w2) as Hk2 by (unfold kept; by rewrite Hw2).
  apply (kept_step_wp p (files w !! p) _ _ Q); [apply create_disk_kept; by rewrite Hg2|done..|]. intros _ w3 Hk3.
  apply (kept_step_wp p (files w !! p) _ _ Q); [rewrite Hg2; by keeping|done..|]. intros _ w4 Hk4.
  eapply wp_mono; [apply (prepare_media_wp o o2 w4 p (files w !! p)); [done..|by rewrite Hg2|by rewrite Hg2|done]|].
  intros r w5 [Hk5 Hr5]. split; [done|]. intros iso args o' E. destruct (Hr5 _ _ _ E) as (-> & -> & ->).
  split; [exact Hr|]. by rewrite Hg2.
Qed.

Lemma prepare_serial_wp o w : plain_names o → outside (GoldenSerialPath (bo_Golden o)) →
  wp (Prepare m o) (λ r w', ∀ x, r = Ok x → serial_cleared (bo_Golden o) (files w) (files w')) w.
Proof using Type.
  intros Hpn Hout. unfold Prepare. apply prepare_begin_wp; [done|].
  intros o2 w2 Hr Hw2. pose proof (readied_keep _ _ _ Hr) as [Hg2 Ht2]. set (s := GoldenSerialPath (bo_Golden o)) in *.
  assert (s ≠ bo_Golden o) as Hsg by (intros Heq; symmetry in Heq; by apply app_self_ne in Heq).
  apply wp_bind. eapply wp_mono; [apply wp_preserves; [apply (create_disk_kept o2 s (files w !! s)); by rewrite Hg2|unfold kept; by rewrite Hw2]|].
  intros [[]|e] w3 Hk3; [|done]. apply wp_bind. rewrite Hg2.
  eapply wp_mono; [apply (remove_serial_wp _ (files w)); exact Hk3|]. intros [[]|e] w4 Hk4; [|done].
  eapply wp_mono; [apply (prepare_media_wp o o2 w4 s (files w4 !! s)); [done..| | |done]|].
  - rewrite Hg2. by apply app_tail_ne.
  - rewrite Hg2. by apply app_tail_ne.
  - intros r w5 [Hk5 _] x _. unfold serial_cleared. fold s. rewrite Hk5. exact Hk4.
Qed.

Lemma write_file_wp path data w p : p = path →
  wp (WriteFile path data) (λ r w', r = Ok tt → f_data <$> files w' !! p = Some data) w.
Proof using Type.
  intros ->. unfold WriteFile. apply wp_bind, syscall_wp; [done|]. cbn [fst snd]. apply wp_catch. unfold write, wp.
  unfold catch, close, syscall. destruct (op_fails _ (OpWrite path)); cbn; [by repeat case_match|].
  destruct (op_fails _ (OpClose path)); cbn; [done|]. intros _. by rewrite lookup_alter, decide_True, lookup_insert, decide_True by done.
Qed.
Lemma write_file_kept path data p x : p ≠ path → preserves (kept p x) (WriteFile path data).
Proof using Type. intros Hp. unfold WriteFile. keeping. Qed.

(** The log that the installation itself wrote ends it; a log of an earlier
    run counts only when it could not be removed and QEMU wrote none.  [fs] are
    the files before the bake, [fs'] those that QEMU started on. *)
Definition completed (o : BakeOptions) (args : list string) (fs fs' : gmap string file) : Prop :=
  let g := guest args fs' in
  g_start g = None ∧ g_exit g = Some None ∧ ∃ log, contains log goldenOKMarker = true ∧
    (g_serial g = Some log ∨ g_serial g = None ∧ left_behind (bo_Golden o) fs log).

Lemma run_qemu_wp o args w p : p ≠ bo_Golden o → p ≠ bake_vars (bo_Golden o) → p ≠ GoldenSerialPath (bo_Golden o) →
  wp (run_qemu o args) (λ r w', kept p (files w !! p) w' ∧ ∀ exit, r = Ok exit →
    let g := guest args (files w) in g_start g = None ∧ g_exit g = exit ∧
    ∀ log, f_data <$> files w' !! GoldenSerialPath (bo_Golden o) = Some log →
      g_serial g = Some log ∨ g_serial g = None ∧ f_data <$> files w !! GoldenSerialPath (bo_Golden o) = Some log) w.
Proof using Type.
  intros Hg Hv Hs. unfold run_qemu. apply wp_bind, wp_gets. cbv zeta. cbn beta. set (g := guest args (files w)).
  destruct (g_start g) as [e|] eqn:Hst; [by apply wp_throw|].
  assert (GoldenSerialPath (bo_Golden o) ≠ bo_Golden o) as Hsg by (intros Heq; symmetry in Heq; by apply app_self_ne in Heq).
  assert (GoldenSerialPath (bo_Golden o) ≠ bake_vars (bo_Golden o)) as Hsv by (by apply app_tail_ne).
  set (s := GoldenSerialPath (bo_Golden o)) in *. set (d := bo_Golden o) in *. set (v := bake_vars d) in *.
  apply wp_bind, wp_modify. cbn beta. set (w1 := set_files _ w). assert (∀ q, q ≠ d → files w1 !! q = files w !! q) as H1'.
  { intros q Hq. unfold w1, set_files. cbn. by rewrite lookup_insert_ne. }
  apply wp_bind. assert (wp (if is_empty (OVMFCode o) then ret tt else put v (g_vars g))
    (λ r w2, r = Ok tt ∧ ∀ q, q ≠ d → q ≠ v → files w2 !! q = files w !! q) w1) as Hvars.
  { destruct (is_empty (OVMFCode o)); [apply wp_ret; split; [done|auto]|]. apply wp_modify. split; [done|].
    intros q Hd Hq. unfold set_files. cbn [files]. rewrite lookup_insert_ne by done. by apply H1'. }
  eapply wp_mono; [exact Hvars|]. intros r w2 [-> H2']. apply wp_bind. destruct (g_serial g) as [log|] eqn:Hlog.
  - apply wp_modify, wp_ret. split; [unfold kept, set_files; cbn [files]; rewrite lookup_insert_ne by done; by apply H2'|].
    intros exit [= <-]. split_and!; [done..|]. intros log'. unfold set_files. cbn [files]. rewrite lookup_insert, decide_True by done.
    intros [= <-]. by left.
  - apply wp_ret, wp_ret. split; [unfold kept; by apply H2'|]. intros exit [= <-]. split_and!; [done..|]. intros log Hl. right.
    split; [done|]. by rewrite <- H2'.
Qed.

Lemma read_serial_wp golden w : wp (read_serial golden) (λ r w', files w' = files w ∧ ∃ log, r = Ok log ∧
  (log = "" ∨ f_data <$> files w !! GoldenSerialPath golden = Some log)) w.
Proof using Type.
  unfold read_serial. apply wp_catch, stored_wp. intros r w' Hw Hr. apply wp_ret. split; [done|].
  destruct r as [b|e]; [|exists ""; by split; [|left]]. exists b. split; [done|]. right. destruct (Hr b eq_refl) as (f & Hf & <-). by rewrite Hf.
Qed.

Lemma install_wp now o args fs w : serial_cleared (bo_Golden o) fs (files w) → let p := metaPath (bo_Golden o) in
  wp (install now o args) (λ r w',
    (kept p (files w !! p) w' ∧ r ≠ Ok tt) ∨
    completed o args fs (files w) ∧
    (r = Ok tt → ∃ b, encode_meta (baked_meta now o) = Ok b ∧ f_data <$> files w' !! p = Some b)) w.
Proof using Type.
  intros Hclear. cbv zeta. set (p := metaPath (bo_Golden o)). unfold install. apply wp_bind.
  assert (p ≠ bo_Golden o ∧ p ≠ bake_vars (bo_Golden o) ∧ p ≠ GoldenSerialPath (bo_Golden o)) as (Hg & Hv & Hs).
  { split; [intros Heq; symmetry in Heq; by apply app_self_ne in Heq|]. split; by apply app_tail_ne. }
  eapply wp_mono; [by apply (run_qemu_wp o args w p)|]. intros [exit|e] w1 [Hk1 Hx]; [|by left].
  destruct (Hx exit eq_refl) as (Hst & Hexit & Hlog). destruct exit as [[e|]|].
  - apply wp_throw. by left.
  - apply wp_bind. eapply wp_mono; [apply read_serial_wp|]. intros r w2 [Hw2 (log & -> & Hl)].
    destruct (contains log goldenOKMarker) eqn:Hc; cbn [negb]; [|apply wp_throw; left; split; [unfold kept; by rewrite Hw2|done]].
    assert (completed o args fs (files w)) as Hdone.
    { split_and!; [done..|]. exists log. split; [done|]. destruct Hl as [->|Hl]; [done|].
      destruct (Hlog _ Hl) as [?|[? Hold]]; [by left|right]. split; [done|]. by apply Hclear. }
    unfold SaveMeta. apply wp_bind, of_result_wp. destruct (encode_meta (baked_meta now o)) as [b|e] eqn:Hb; [|by right].
    eapply wp_mono; [by apply (write_file_wp p)|]. intros r w3 Hr. right. split; [done|]. intros Hok. exists b. auto.
  - apply wp_bind. eapply wp_mono; [apply read_serial_wp|]. intros r w2 [Hw2 (log & -> & Hl)]. apply wp_throw. left.
    split; [unfold kept; by rewrite Hw2|done].
Qed.

(** C22: The metadata of a golden image is written by an installation that said it
    was done, and by nothing else.  Whatever fails, a bake either fails and
    leaves the metadata as it was, or its preparation succeeded, QEMU ran with
    the arguments of these options on the files that the preparation left,
    ended by itself and in time, and the log that this run wrote to its serial
    port has the marker of the end; a log of an earlier run is taken for it only
    when that could not be removed and QEMU wrote none.  When the bake succeeds,
    the metadata is that of the options, whose fingerprint is that of the
    Windows ISO, which has the digest that was asked for, of the artifacts and
    of the files of the installation; when it fails after all, while the
    metadata is written in place, nothing is said of what the file then
    holds. *)
Theorem bake_ships now o w r w'
    (Hnames : plain_names o)
    (Hout : outside (metaPath (bo_Golden o)))
    (Hserial : outside (GoldenSerialPath (bo_Golden o)))
    (Hrun : Bake m now o w = (r, w')) :
  (files w' !! metaPath (bo_Golden o) = files w !! metaPath (bo_Golden o) ∧ r ≠ Ok tt) ∨
  ∃ o1 o' args w1,
    hashed o o1 (files w) ∧ prepareVNC o1 = Ok o' ∧
    args = bakeQEMUArgs o' (autounattend_path (bo_Golden o)) (bake_vars (bo_Golden o)) ∧
    Prepare m o w = (Ok (autounattend_path (bo_Golden o), args, o'), w1) ∧
    completed o' args (files w) (files w1) ∧
    (r = Ok tt → ∃ b, encode_meta (baked_meta now o') = Ok b ∧ f_data <$> files w' !! metaPath (bo_Golden o) = Some b).
Proof using Type.
  set (p := metaPath (bo_Golden o)).
  assert (p ≠ bo_Golden o ∧ p ≠ GoldenSerialPath (bo_Golden o) ∧ p ≠ autounattend_path (bo_Golden o) ∧ p ≠ bake_vars (bo_Golden o)) as (Hg & Hs & Hi & Hv).
  { split; [intros Heq; symmetry in Heq; by apply app_self_ne in Heq|]. split_and!; by apply app_tail_ne. }
  pose proof (prepare_wp o w p Hnames Hout Hg Hs Hi Hv) as Hp. pose proof (prepare_serial_wp o w Hnames Hserial) as Hc.
  unfold Bake, bind in Hrun. unfold wp in Hp, Hc. destruct (Prepare m o w) as [[[[iso args] o']|e] w1]; cbn in Hp, Hc.
  2:{ injection Hrun as <- <-. left. by split; [apply Hp|]. }
  destruct Hp as [Hk1 Hp]. destruct (Hp iso args o' eq_refl) as ((o1 & Hh & Hvnc) & Hg' & -> & ->).
  assert (serial_cleared (bo_Golden o') (files w) (files w1)) as Hclear by (rewrite Hg'; by eapply Hc).
  pose proof (install_wp now o' (bakeQEMUArgs o' (autounattend_path (bo_Golden o)) (bake_vars (bo_Golden o))) (files w) w1 Hclear) as Hin.
  cbv zeta in Hin. rewrite Hg' in Hin. fold p in Hin. unfold wp in Hin. unfold catch in Hrun.
  destruct (install _ _ _ w1) as [r1 w2]. cbn in Hin.
  assert (wp (ignored (remove (autounattend_path (bo_Golden o)))) (λ r w', r = Ok tt ∧ kept p (files w2 !! p) w') w2) as Hrm
    by (apply ignored_wp; [by apply kept_remove|done]).
  unfold wp in Hrm. destruct (ignored _ w2) as [r2 w3]. cbn in Hrm. destruct Hrm as [-> Hk3].
  assert (r = r1 ∧ w' = w3) as [-> ->] by (by destruct r1; injection Hrun as <- <-). unfold kept in Hk1, Hk3.
  destruct Hin as [[Hk2 Hne]|[Hd Hok]]; [left|right].
  - split; [|done]. by rewrite Hk3, Hk2.
  - exists o1, o', (bakeQEMUArgs o' (autounattend_path (bo_Golden o)) (bake_vars (bo_Golden o))), w1.
    split_and!; [done..|]. intros Hr. rewrite Hk3. auto.
Qed.
End bake.

(** ** What the guest asks for *)

(** A part of a text that does not stand at its end. *)
Definition inside (t s : string) : Prop := ∃ a c b, s = a +:+ t +:+ String c b.

Lemma inside_l t s x : inside t s → inside t (s +:+ x).
Proof. intros (a & c & b & ->). exists a, c, (b +:+ x). by rewrite !str_app_assoc. Qed.
Lemma inside_r t s x : inside t s → inside t (x +:+ s).
Proof. intros (a & c & b & ->). exists (x +:+ a), c, b. by rewrite !str_app_assoc. Qed.
Lemma inside_concat {A} (f : A → string) t l x : x ∈ l → inside t (f x) → inside t (String.concat "" (f <$> l)).
Proof.
  assert (∀ y l, String.concat "" (f <$> y :: l) = f y +:+ String.concat "" (f <$> l)) as Hc
    by (intros y [|z l0]; cbn; [by rewrite str_app_nil_r|done]).
  intros Hx Ht. induction l as [|y l IH]; [by apply elem_of_nil in Hx|]. rewrite Hc.
  apply elem_of_cons in Hx as [<-|Hx]; [by apply inside_l|apply inside_r; auto].
Qed.
Lemma inside_trimmed t s : inside t s → contains (trim_suffix newline s) t = true.
Proof.
  intros (a & c & b & ->). apply contains_spec. unfold trim_suffix. destruct (has_suffix newline _); [|by exists a, (String c b)].
  rewrite <- !str_app_assoc. rewrite str_take_app_ge; [by eexists _, _; rewrite str_app_assoc|].
  rewrite (str_length_app (a +:+ t)). cbn. lia.
Qed.

Section guest.
Context (m : Manifest) (plan : bakeToolPlan).

(** What asks the guest for an artifact, and the script that has it. *)
Definition fetch (a : bakeArtifact) : string :=
  "FetchOrStage '" +:+ art_Name a +:+ "' '" +:+ art_URL a +:+ "' C:\" +:+ art_Name a +:+ " " +:+ art_Algorithm a +:+ " '" +:+ art_Digest a +:+ "'".
Definition install_script (tool : string) : string :=
  if String.eqb tool "node" then bakeNodeInstallScript m (plan_Node plan)
  else if String.eqb tool "dotnet" then bakeDotNetInstallScript m (plan_DotNet plan)
  else bakeBuildToolsInstallScript m (plan_BuildTools plan).

Lemma fetch_inside a : inside (fetch a) (fetch_line (art_Name a) (art_URL a) (art_Algorithm a) (art_Digest a)).
Proof using Type. exists "                ", "010"%char, "". unfold fetch_line, script_line, fetch. by rewrite !str_app_assoc. Qed.

Lemma selected_nonempty wanted l : ∀ current, l ≠ [] → Forall (λ x, x ≠ "") l → selected wanted current l ≠ "".
Proof using Type.
  assert (∀ l current, current ≠ "" → Forall (λ x, x ≠ "") l → selected wanted current l ≠ "") as Hs.
  { induction l0 as [|x l0 IH]; intros current Hc Hl; [done|]. apply Forall_cons in Hl as [Hx Hl]. cbn. case_match; [done|]. by apply IH. }
  intros current Hne Hl. destruct l as [|x l]; [done|]. apply Forall_cons in Hl as [Hx Hl]. cbn. case_match; [done|]. by apply Hs.
Qed.

Lemma node_fetches a : Forall (λ major, major ≠ "") (plan_Node plan) → a ∈ bakeNodeArtifacts m (plan_Node plan) →
  contains (bakeNodeInstallScript m (plan_Node plan)) (fetch a) = true.
Proof using Type.
  intros Hne Ha. apply inside_trimmed. unfold bakeNodeArtifacts in Ha. destruct (plan_Node plan) as [|x l] eqn:Hp; [by apply elem_of_nil in Ha|].
  rewrite <- Hp in *. apply elem_of_app in Ha as [Ha|Ha].
  - apply inside_l. apply list_elem_of_fmap in Ha as (major & -> & Hm). eapply inside_concat; [done|].
    apply inside_l. exact (fetch_inside (node_artifact m major)).
  - apply list_elem_of_singleton in Ha as ->. apply inside_r.
    assert (is_empty (selected (format_int (DefaultMajor (m_Node m))) "" (plan_Node plan)) = false) as ->.
    { apply is_empty_false, selected_nonempty; [by rewrite Hp|done]. }
    unfold corepack_script. do 4 apply inside_r. apply inside_l. exact (fetch_inside (bakeCorepackArtifact m)).
Qed.

(** The guest asks for exactly what the host stages.  Every payload of a
    selected Node, .NET or Build Tools release is asked for by the script of its
    tool, under the name it is staged with, from the same address and with the
    same algorithm and digest, so a staged payload is found and one that is not
    is downloaded and checked. *)
Theorem guest_asks_staged tool a
    (Htool : tool ∈ ["node"; "dotnet"; "buildtools"])
    (Hmajors : Forall (λ major, major ≠ "") (plan_Node plan))
    (Ha : a ∈ tool_artifacts m plan tool) :
  contains (install_script tool) (fetch a) = true.
Proof using Type.
  rewrite !elem_of_cons, elem_of_nil in Htool. destruct Htool as [->|[->|[->|[]]]]; cbn in Ha; cbn [install_script String.eqb Ascii.eqb].
  - by apply node_fetches.
  - apply inside_trimmed. apply list_elem_of_fmap in Ha as (channel & -> & Hc). eapply inside_concat.
    + apply list_elem_of_fmap. by exists channel.
    + apply inside_l. exact (fetch_inside (Artifact _ _ _ "SHA512" _)).
  - apply inside_trimmed, inside_l. apply list_elem_of_bind in Ha as (line & Ha & Hl). eapply inside_concat; [exact Hl|].
    unfold buildtools_script. rewrite !elem_of_cons, elem_of_nil in Ha. destruct Ha as [->|[->|[]]]; [apply inside_l|apply inside_r, inside_l];
      exact (fetch_inside (Artifact _ _ _ "SHA256" _)).
Qed.
End guest.

(** ** Examples *)

Definition demo_port (excluded : list Z) : Z := foldr Z.max 5899 excluded + 1.
Lemma demo_port_new excluded : 5900 ≤ demo_port excluded ∧ demo_port excluded ∉ excluded.
Proof.
  unfold demo_port. assert (5899 ≤ foldr Z.max 5899 excluded ∧ ∀ q, q ∈ excluded → q ≤ foldr Z.max 5899 excluded) as [Hlo Hhi].
  { induction excluded as [|q l [IH1 IH2]]; cbn; [split; [lia|intros q Hq; by apply elem_of_nil in Hq]|]. split; [lia|].
    intros q' [->|Hq']%elem_of_cons; [lia|]. specialize (IH2 q' Hq'). lia. }
  split; [lia|]. intros Hin. specialize (Hhi _ Hin). lia.
Qed.
Definition demo_ports (host : string) (excluded : list Z) : list Z * result Z :=
  ([80], if demo_port excluded <=? 65535 then Ok (demo_port excluded) else Err (errorf "no port")).
Definition demo_guest (args : list string) (fs : gmap string file) : guest_run :=
  GuestRun None "disk" "vars" (Some ("MR:START" +:+ newline +:+ "MR:GOLDEN_OK")) (Some None).

Section demo.
Local Instance demo_workshop : Workshop.
Proof.
  refine {| template name := Ok name; iso_new := None; iso_add _ _ := None; iso_image label l := label; encode_meta meta := Ok (Qemu.WorkflowsHash meta);
            decode_meta b := Ok no_meta; img_create _ := (None, Some "empty"); guest := demo_guest; ports := demo_ports; temp_dir := "/tmp";
            vm_vnc := ""; look_path _ := None; bin_dir _ := None; exists_file _ := false; kvm := true; goos := "linux"; goarch := "amd64" |}.
  - intros host excluded p. unfold demo_ports. cbn [snd]. destruct (demo_port_new excluded) as [Hlo Hnew].
    destruct (Z.leb_spec (demo_port excluded) 65535); [|done]. intros [= <-]. done.
  - intros host excluded p. unfold demo_ports. cbn [fst]. intros ->%list_elem_of_singleton. lia.
Defined.
Local Instance demo_disk : Disk := {| op_fails _ _ := None; torn _ _ := ""; random_name _ := "1" |}.
Definition demo_body : string := "abc".
Local Instance demo_web : Web := {| new_request u := Ok u; client_Do _ _ := Ok (Resp 200 "200 OK" "" demo_body None "") |}.

Definition demo_bake : BakeOptions :=
  {| WindowsISO := "win.iso"; WindowsISOSHA256 := ""; bo_Golden := "g.qcow2"; DiskGB := 0; bo_MemMB := 0; bo_CPUs := 0; bo_Accel := "";
     bo_RunnerVersion := ""; bo_RunnerSHA256 := ""; bo_Tools := []; AdminPassword := ""; bo_EvalDays := 0; bo_MaxRearms := 0;
     bo_Licensed := false; bo_WorkflowsHash := ""; QEMUBin := ""; ImgBin := ""; OVMFCode := ""; OVMFVarsTemplate := "";
     VNC := "127.0.0.1:0"; VNCWeb := "127.0.0.1:8080"; VNCWebSocket := ""; bo_Timeout := 0 |}.
Definition demo_world : world := World [] {["win.iso" := File "an image" 420]} 0 [] [].

Lemma demo_outside : outside (metaPath (bo_Golden demo_bake)).
Proof.
  intros n. split; [reflexivity|]. intros name Hname. change name with (join "/" [name]). rewrite Join_elems; [|reflexivity|done|by apply Forall_singleton].
  unfold path_text. cbn. intros Heq. discriminate Heq.
Qed.
Lemma demo_names : plain_names sample_manifest demo_bake.
Proof.
  intros plan v d artifacts Hplan. vm_compute in Hplan. injection Hplan as <-. unfold bakeArtifactsForPlan.
  destruct (_ && _); [done|]. destruct (validateSHA256 _); [done|]. intros [= <-]. cbn. repeat constructor; done.
Qed.

Lemma demo_serial_outside : outside (GoldenSerialPath (bo_Golden demo_bake)).
Proof.
  intros n. split; [reflexivity|]. intros name Hname. change name with (join "/" [name]). rewrite Join_elems; [|reflexivity|done|by apply Forall_singleton].
  unfold path_text. cbn. intros Heq. discriminate Heq.
Qed.

Lemma bake_ships_witness :
  let '(r, w') := Bake sample_manifest 7 demo_bake demo_world in
  r = Ok tt ∧
  ((files w' !! metaPath "g.qcow2" = None ∧ r ≠ Ok tt) ∨
   ∃ o1 o' args w1, hashed sample_manifest demo_bake o1 (files demo_world) ∧ prepareVNC o1 = Ok o' ∧
     args = bakeQEMUArgs o' (autounattend_path "g.qcow2") (bake_vars "g.qcow2") ∧
     Prepare sample_manifest demo_bake demo_world = (Ok (autounattend_path "g.qcow2", args, o'), w1) ∧
     completed o' args (files demo_world) (files w1) ∧
     (r = Ok tt → ∃ b, encode_meta (baked_meta 7 o') = Ok b ∧ f_data <$> files w' !! metaPath "g.qcow2" = Some b)).
Proof.
  assert ((Bake sample_manifest 7 demo_bake demo_world).1 = Ok tt) as Hok by (vm_compute; reflexivity).
  destruct (Bake sample_manifest 7 demo_bake demo_world) as [r w'] eqn:Hrun. split; [exact Hok|].
  exact (bake_ships sample_manifest 7 demo_bake demo_world r w' demo_names demo_outside demo_serial_outside Hrun).
Defined.

(** The file that is staged has the digest of its artifact. *)
Definition demo_artifact : bakeArtifact :=
  Artifact "a.zip" "1" "https://a" "sha256" "BA7816BF8F01CFEA414140DE5DAE2223B00361A396177A9CB410FF61F20015AD".
Definition bad_artifact : bakeArtifact := Artifact "b.zip" "1" "https://b" "SHA512" "00".

Lemma payloads_verified_witness :
  let '(r, w') := stageArtifacts [demo_artifact; bad_artifact] demo_world in
  (∃ dir, r = Ok ({["a.zip" := "/tmp/mr-bakestage1/a.zip"]}, dir)) ∧
  ∃ refs dir, r = Ok (refs, dir) ∧ ∀ name path, refs !! name = Some path →
    ∃ a f, a ∈ [demo_artifact; bad_artifact] ∧ art_Name a = name ∧ files w' !! path = Some f ∧ matches a (f_data f).
Proof.
  assert ((stageArtifacts [demo_artifact; bad_artifact] demo_world).1 = Ok ({["a.zip" := "/tmp/mr-bakestage1/a.zip"]}, Some "/tmp/mr-bakestage1")) as Hok
    by (vm_compute; reflexivity).
  destruct (stageArtifacts [demo_artifact; bad_artifact] demo_world) as [r w'] eqn:Hrun. split; [by exists (Some "/tmp/mr-bakestage1")|].
  apply (payloads_verified [demo_artifact; bad_artifact] demo_world r w'); [| | |exact Hrun].
  - repeat constructor; done.
  - apply (bool_decide_unpack (NoDup _)). vm_compute. exact I.
  - intros n. reflexivity.
Defined.

Lemma vnc_ports_witness :
  vnc_args <$> [match prepareVNC demo_bake with Ok o => o | Err _ => demo_bake end] = [["-vnc"; "127.0.0.1:2181,websocket=8082"]] ∧
  ∃ o', prepareVNC demo_bake = Ok o' ∧
    ((VNC demo_bake = "" ∧ VNCWeb demo_bake = "" ∧ vnc_args o' = ["-display"; "none"]) ∨
     ∃ host port, 5900 ≤ port ≤ 65535 ∧ splitAddress (VNC o') = Ok (host, port) ∧
       (∀ h p, VNC demo_bake ≠ "" → splitAddress (VNC demo_bake) = Ok (h, p) → p ≠ 0 → p = port) ∧
       (VNCWeb demo_bake = "" → vnc_args o' = ["-vnc"; JoinHostPort host (format_int (port - 5900))]) ∧
       (VNCWeb demo_bake ≠ "" → ∃ web ws,
          splitAddress (VNCWeb demo_bake) = Ok (host, web) ∧ 5900 ≤ ws ≤ 65535 ∧ web ≠ 0 ∧ NoDup [port; ws; web] ∧
          vnc_args o' = ["-vnc"; JoinHostPort host (format_int (port - 5900)) +:+ ",websocket=" +:+ format_int ws])).
Proof.
  split; [vm_compute; reflexivity|]. eexists. split; [vm_compute; reflexivity|]. apply vnc_ports. vm_compute. reflexivity.
Defined.
End demo.

Definition demo_inputs (iso : string) : inputs :=
  Inputs ["go"] iso [go_artifact sample_manifest]
    (list_to_map ((λ n, (n, n)) <$> ["autounattend.xml"; "setupcomplete.cmd"; "githook.ps1"; "install-golden.ps1"; "startup.ps1"])).
Lemma fingerprint_faithful_witness :
  fingerprint (demo_inputs "aa") = fingerprint (demo_inputs "bb") ↔
  same_inputs (demo_inputs "aa") (demo_inputs "bb") ∨
  (fingerprint_text (demo_inputs "aa") ≠ fingerprint_text (demo_inputs "bb") ∧
   str_take 8 (sha256 (fingerprint_text (demo_inputs "aa"))) = str_take 8 (sha256 (fingerprint_text (demo_inputs "bb")))).
Proof.
  apply (fingerprint_faithful (demo_inputs "aa") (demo_inputs "bb")); (split_and!; [repeat constructor|reflexivity|repeat constructor|reflexivity|]);
    intros k v Hv; apply elem_of_list_to_map_2 in Hv; apply list_elem_of_fmap in Hv as (n & [= -> ->] & Hn);
    rewrite !elem_of_cons, elem_of_nil in Hn; destruct Hn as [->|[->|[->|[->|[->|[]]]]]]; reflexivity.
Defined.

Lemma guest_asks_staged_witness :
  let plan := {| Canonical := []; Kinds := ["node"]; plan_Node := ["22"; "24"]; plan_DotNet := []; plan_BuildTools := [] |} in
  contains (install_script sample_manifest plan "node") (fetch (bakeCorepackArtifact sample_manifest)) = true.
Proof.
  apply guest_asks_staged; [left|by repeat constructor|]. apply elem_of_app. right. left.
Defined.
