(* ===== verification/Build.v ===== *)
(** * The build of the program

    [internal/buildcmd/build.go], the arguments of [cmd/build/main.go] once the
    flag library has read them, and the identity of a binary in
    [internal/buildinfo/buildinfo.go].  Git, the go command, the environment and
    the probes of the file system are the class [Builder]. *)

From S2P Require Import Prelude GoErr GoStr Codec Filepath Host Redact.

Local Open Scope Z_scope.
Local Open Scope go_scope.

(** ** The identity of a binary *)

Definition defaultVersion : string := "dev".
Definition unknownCommit : string := "unknown".
Definition VersionVariable : string := "github.com/GerardSmit/multirunner/internal/buildinfo.Version".
Definition CommitVariable : string := "github.com/GerardSmit/multirunner/internal/buildinfo.Commit".

Record BuildInfo := MkInfo { info_Version : string; info_Commit : string }.

(** The settings of one build, as the go command records them. *)
Record debug_info := DebugInfo { main_Version : string; Settings : list (string * string) }.

(** One setting: the commit so far and whether the tree was modified. *)
Definition read_setting (linkedCommit : bool) (s : string * bool) (setting : string * string) : string * bool :=
  let '(commit, dirty) := s in
  let '(key, value) := setting in
  if String.eqb key "vcs.revision"
  then ((if negb linkedCommit && negb (is_empty (trim_space value)) then trim_space value else commit), dirty)
  else if String.eqb key "vcs.modified" then (commit, String.eqb value "true")
  else s.
Definition buildinfo_resolve (version commit : string) (build : option debug_info) : BuildInfo :=
  let version := trim_space version in
  let linkedVersion := negb (is_empty version) && negb (String.eqb version defaultVersion) in
  let version :=
    match build with
    | Some b => if negb linkedVersion && negb (is_empty (main_Version b)) && negb (String.eqb (main_Version b) "(devel)")
                then main_Version b else version
    | None => version
    end in
  let version := if is_empty version then defaultVersion else version in
  let commit := trim_space commit in
  let linkedCommit := negb (is_empty commit) && negb (String.eqb commit unknownCommit) in
  let '(commit, dirty) :=
    match build with Some b => foldl (read_setting linkedCommit) (commit, false) (Settings b) | None => (commit, false) end in
  let commit := if is_empty commit then unknownCommit else commit in
  MkInfo (if dirty && negb linkedVersion && negb (has_suffix "-dirty" version) then version +:+ "-dirty" else version) commit.
Definition info_text (i : BuildInfo) : string := info_Version i +:+ " (commit " +:+ info_Commit i +:+ ")".

(** ** Options *)

Record BuildFlags := {
  fl_version : option string;
  fl_commit : option string;
  fl_output : string;
  fl_goos : string;
  fl_goarch : string;
  fl_allow_dirty : bool;
  fl_args : list string
}.
Record BuildOptions := {
  bd_Directory : string;
  bd_Output : string;
  bd_Version : string;
  bd_Commit : string;
  bd_GOOS : string;
  bd_GOARCH : string;
  bd_AllowDirty : bool
}.

(** A flag that was given must not be blank. *)
Definition explicit (name : string) (flag : option string) : result string :=
  match flag with
  | None => Ok ""
  | Some value => if is_empty (trim_space value) then Err (errorf ("-" +:+ name +:+ " cannot be empty")) else Ok value
  end.
Definition parseArgs (f : BuildFlags) : result BuildOptions :=
  match fl_args f with
  | _ :: _ => Err (errorf ("unexpected arguments: " +:+ join " " (fl_args f)))
  | [] =>
      match explicit "version" (fl_version f) with
      | Err e => Err e
      | Ok version =>
          match explicit "commit" (fl_commit f) with
          | Err e => Err e
          | Ok commit => Ok {| bd_Directory := ""; bd_Output := fl_output f; bd_Version := version; bd_Commit := commit;
                               bd_GOOS := fl_goos f; bd_GOARCH := fl_goarch f; bd_AllowDirty := fl_allow_dirty f |}
          end
      end
  end.

Definition targetPackage : string := "./cmd/multirunner".

Fixpoint all_chars (p : ascii → bool) (s : string) : bool :=
  match s with "" => true | String c s => p c && all_chars p s end.
Definition version_char (c : ascii) : bool := is_alnum c || str_mem c "._/+~-".
Definition versionPattern (s : string) : bool :=
  match s with "" => false | String c s => is_alnum c && all_chars version_char s end.
Definition is_hex (c : ascii) : bool := match hex_val c with Some _ => true | None => false end.
Definition commitPattern (s : string) : bool :=
  ((String.length s =? 40)%nat || (String.length s =? 64)%nat) && all_chars is_hex s.

(** [entry[:strings.IndexByte(entry, '=')+1]]: nothing when there is no [=]. *)
Definition through_equals (entry : string) : string :=
  match cut "=" entry with (name, _, true) => name +:+ "=" | (_, _, false) => "" end.
Definition setEnv (env : list string) (key value : string) : list string :=
  List.filter (λ entry, negb (equal_fold (through_equals entry) (key +:+ "="))) env ++ [key +:+ "=" +:+ value].

Fixpoint firstNonempty (values : list string) : string :=
  match values with [] => "" | v :: values => if is_empty v then firstNonempty values else v end.

(** ** The build *)

(** [git dir args]: the output of a git command in a directory.  [go dir env args]:
    how the go command ends. *)
Class Builder := {
  getwd : result string;
  abs_path : string → result string;
  git_output : string → list string → result string;
  is_there : string → bool;
  environ : list string;
  getenv : string → string;
  host_goos : string;
  host_goarch : string;
  go_run : string → list string → list string → option goerror
}.

Record invocation := Invocation { inv_dir : string; inv_env : list string; inv_args : list string }.

Section build.
Context `{Builder}.

(** Where the build starts, the commit, whether the checkout is dirty, and
    whether it is one. *)
Definition gitIdentity (directory : string) : result (string * string * bool * bool) :=
  match git_output directory ["rev-parse"; "--show-toplevel"] with
  | Err _ => Ok (directory, "", false, false)
  | Ok root =>
      let directory := trim_space root in
      match git_output directory ["rev-parse"; "HEAD"] with
      | Err e => Err (errorf_w "resolve source commit: " e)
      | Ok commit =>
          match git_output directory ["status"; "--porcelain"; "--untracked-files=normal"] with
          | Err e => Err (errorf_w "resolve source status: " e)
          | Ok status => Ok (directory, trim_space commit, negb (is_empty (trim_space status)), true)
          end
      end
  end.

(** The directories from the first one up; the fuel is for one that is never
    its own parent. *)
Fixpoint find_root (fuel : nat) (current : string) : option string :=
  match fuel with
  | O => None
  | S fuel =>
      if is_there (Join current "go.mod") then Some current
      else if String.eqb (Dir current) current then None else find_root fuel (Dir current)
  end.
Definition moduleRoot (directory : string) : result string :=
  match abs_path directory with
  | Err e => Err (errorf_w "resolve build directory: " e)
  | Ok current =>
      match find_root (S (String.length current)) current with
      | Some root => Ok root
      | None => Err (errorf ("find module root from " +:+ quote directory +:+ ": go.mod not found"))
      end
  end.

Definition start_directory (o : BuildOptions) : result string :=
  if is_empty (bd_Directory o)
  then match getwd with Err e => Err (errorf_w "get working directory: " e) | Ok d => Ok d end
  else Ok (bd_Directory o).

(** The directory and the commit that are built. *)
Definition source (o : BuildOptions) (directory sourceCommit : string) (inGit : bool) : result (string * string) :=
  let commit := trim_space (bd_Commit o) in
  if negb inGit then
    if is_empty commit then Err (errorf "resolve source checkout: not a Git checkout; provide -commit explicitly")
    else match moduleRoot directory with Err e => Err e | Ok root => Ok (root, commit) end
  else Ok (directory, if is_empty commit then sourceCommit else commit).

Definition choose_version (o : BuildOptions) (commit : string) (dirty : bool) : result string :=
  let version := trim_space (bd_Version o) in
  if is_empty version then Ok ("dev-" +:+ str_take 12 commit +:+ (if dirty then "-dirty" else ""))
  else if dirty && negb (bd_AllowDirty o)
  then Err (errorf ("source checkout is dirty; explicit version " +:+ quote version +:+ " requires -allow-dirty"))
  else Ok version.

Definition build_goos (o : BuildOptions) : string := firstNonempty [bd_GOOS o; getenv "GOOS"; host_goos].
Definition build_goarch (o : BuildOptions) : string := firstNonempty [bd_GOARCH o; getenv "GOARCH"; host_goarch].
Definition build_output (o : BuildOptions) : string :=
  if is_empty (bd_Output o) then (if String.eqb (build_goos o) "windows" then "multirunner.exe" else "multirunner") else bd_Output o.
Definition ldflags (version commit : string) : string :=
  join " " ["-s"; "-w"; "-X"; VersionVariable +:+ "=" +:+ version; "-X"; CommitVariable +:+ "=" +:+ commit].
Definition build_args (o : BuildOptions) (version commit : string) : list string :=
  ["build"; "-trimpath"; "-ldflags"; ldflags version commit; "-o"; build_output o; targetPackage].
Definition build_env (o : BuildOptions) : list string :=
  setEnv (setEnv (setEnv environ "CGO_ENABLED" "0") "GOOS" (build_goos o)) "GOARCH" (build_goarch o).

(** The run of the go command, if it comes to it, and the error. *)
Definition run_go (o : BuildOptions) (directory version commit : string) : list invocation * option goerror :=
  let inv := Invocation directory (build_env o) (build_args o version commit) in
  ([inv], match go_run (inv_dir inv) (inv_env inv) (inv_args inv) with
          | Some e => Some (errorf_w ("build multirunner for " +:+ build_goos o +:+ "/" +:+ build_goarch o +:+ ": ") e)
          | None => None
          end).
Definition build (o : BuildOptions) : list invocation * option goerror :=
  match start_directory o with
  | Err e => ([], Some e)
  | Ok directory =>
      match gitIdentity directory with
      | Err e => ([], Some e)
      | Ok (directory, sourceCommit, dirty, inGit) =>
          match source o directory sourceCommit inGit with
          | Err e => ([], Some e)
          | Ok (directory, commit) =>
              if negb (commitPattern commit)
              then ([], Some (errorf "commit must be a full 40 or 64 character hexadecimal object ID"))
              else match choose_version o commit dirty with
                   | Err e => ([], Some e)
                   | Ok version =>
                       if negb (versionPattern version)
                       then ([], Some (errorf ("version " +:+ quote version +:+ " contains unsupported characters")))
                       else run_go o directory version commit
                   end
          end
      end
  end.
Definition build_command (f : BuildFlags) : list invocation * option goerror :=
  match parseArgs f with Err e => ([], Some e) | Ok o => build o end.
End build.

(** ** The environment and the patterns *)

(** The entries that name a variable, in any case. *)
Definition names (key entry : string) : bool := equal_fold (through_equals entry) (key +:+ "=").

Lemma through_equals_entry key value : str_mem "=" key = false → through_equals (key +:+ "=" +:+ value) = key +:+ "=".
Proof. intros Hk. unfold through_equals. change (key +:+ "=" +:+ value) with (key +:+ String "=" value). by rewrite cut_app. Qed.

Lemma setEnv_names env key value : str_mem "=" key = false → List.filter (names key) (setEnv env key value) = [key +:+ "=" +:+ value].
Proof.
  intros Hk. unfold setEnv. rewrite List.filter_app. cbn [List.filter]. unfold names at 2.
  rewrite through_equals_entry, equal_fold_refl by done. replace (List.filter _ (List.filter _ env)) with (@nil string); [done|].
  symmetry. induction env as [|e env IH]; [done|]. cbn [List.filter]. destruct (equal_fold (through_equals e) (key +:+ "=")) eqn:He; [done|].
  cbn [negb List.filter]. unfold names at 1. by rewrite He.
Qed.

Lemma setEnv_other env key value k : str_mem "=" key = false → equal_fold (key +:+ "=") (k +:+ "=") = false →
  List.filter (names k) (setEnv env key value) = List.filter (names k) env.
Proof.
  intros Hk Hne. unfold setEnv. rewrite List.filter_app. cbn [List.filter]. unfold names at 2.
  rewrite through_equals_entry, Hne, app_nil_r by done. induction env as [|e env IH]; [done|]. cbn [List.filter].
  destruct (equal_fold (through_equals e) (key +:+ "=")) eqn:He; cbn [negb]; [|cbn [List.filter]; by rewrite IH].
  rewrite IH. unfold names at 2. assert (equal_fold (through_equals e) (k +:+ "=") = false) as ->; [|done].
  apply equal_fold_iff in He. destruct (equal_fold (through_equals e) (k +:+ "=")) eqn:Hf; [|done].
  apply equal_fold_iff in Hf. assert (equal_fold (key +:+ "=") (k +:+ "=") = true) as Hc by (apply equal_fold_iff; by rewrite <- He).
  by rewrite Hc in Hne.
Qed.

Lemma all_chars_mem p c s : all_chars p s = true → p c = false → str_mem c s = false.
Proof.
  induction s as [|d s IH]; intros Hs Hc; [done|]. cbn in *. apply andb_true_iff in Hs as [Hd Hs]. rewrite IH by done.
  destruct (Ascii.eqb_spec c d) as [->|]; [congruence|done].
Qed.
Lemma all_chars_weaken (p q : ascii → bool) s : (∀ c, p c = true → q c = true) → all_chars p s = true → all_chars q s = true.
Proof. intros Hpq. induction s as [|c s IH]; [done|]. cbn. intros [Hc Hs]%andb_true_iff. by rewrite Hpq, IH. Qed.
Lemma versionPattern_chars s : versionPattern s = true → s ≠ "" ∧ all_chars version_char s = true.
Proof.
  destruct s as [|c s]; [done|]. cbn [versionPattern all_chars]. intros [Hc Hs]%andb_true_iff. split; [done|].
  unfold version_char at 1. by rewrite Hc, Hs.
Qed.
Lemma space_version c : is_space c = true → version_char c = false.
Proof. destruct c as [[] [] [] [] [] [] [] []]; vm_compute; done. Qed.
Lemma space_hex c : is_space c = true → is_hex c = false.
Proof. destruct c as [[] [] [] [] [] [] [] []]; vm_compute; done. Qed.

Lemma trim_space_chars s : (∀ c, is_space c = true → str_mem c s = false) → trim_space s = s.
Proof.
  intros Hs. unfold trim_space. assert (trim_left_by is_space s = s) as ->.
  { destruct s as [|c s]; [done|]. cbn [trim_left_by]. destruct (is_space c) eqn:Hc; [|done]. specialize (Hs c Hc). cbn in Hs.
    by rewrite Ascii.eqb_refl in Hs. }
  induction s as [|c s IH]; [done|]. cbn [trim_right_by]. rewrite IH.
  - destruct s; [|done]. destruct (is_space c) eqn:Hc; [|done]. specialize (Hs c Hc). cbn in Hs. by rewrite Ascii.eqb_refl in Hs.
  - intros d Hd. specialize (Hs d Hd). cbn in Hs. by apply orb_false_iff in Hs as [_ Hs].
Qed.

Lemma split_join_free c ws : ws ≠ [] → Forall (λ w, str_mem c w = false) ws → split c (join (String c "") ws) = ws.
Proof.
  intros Hn Hw. induction Hw as [|w ws Hw Hws IH]; [done|]. destruct ws as [|x ws]; [by apply split_free|].
  rewrite join_cons by done. change (String c "" +:+ ?s) with (String c s). rewrite split_app by done. by rewrite IH.
Qed.

(** ** The root of the module *)

Lemma Dir_plain l : Forall plain l → Dir (path_text (true, l)) = path_text (true, removelast l).
Proof.
  intros Hl. unfold Dir, path_text at 1. cbn [fst snd]. change ("/" +:+ join "/" l) with ("" +:+ String slash (join "/" l)).
  rewrite split_mid. cbn [split app]. destruct l as [|e l]; [reflexivity|]. rewrite split_join_plain by done.
  change (removelast ("" :: e :: l)) with ("" :: removelast (e :: l)). set (r := removelast (e :: l)).
  assert (Forall plain r) as Hr.
  { subst r. rewrite removelast_firstn_len. by apply Forall_take. }
  unfold Clean. f_equal. unfold elems. assert (has_prefix "/" (join "/" (("" :: r) ++ [""])) = true) as ->.
  { cbn [app]. rewrite join_cons by (by destruct r). reflexivity. }
  f_equal. rewrite split_join_free; [|done|].
  - change ((("" :: r) ++ [""])) with ("" :: (r ++ [""])). change (clean_elems true [] ("" :: r ++ [""])) with (clean_elems true [] (r ++ [""])).
    rewrite clean_elems_app, (clean_elems_plain true [] r) by done. change (reverse (reverse r) = r). by rewrite reverse_involutive.
  - cbn [app]. constructor; [done|]. apply Forall_app. split; [|by repeat constructor]. eapply Forall_impl; [exact Hr|]. by intros x (_ & _ & _ & Hx).
Qed.

Lemma path_text_inj l l' : Forall plain l → Forall plain l' → path_text (true, l) = path_text (true, l') → l = l'.
Proof. intros Hl Hl' Heq. apply (f_equal elems) in Heq. rewrite !elems_path_text in Heq by done. by injection Heq. Qed.

Section root.
Context `{Builder}.

(** Whether the module starts at the first [n] elements of a path. *)
Definition module_at (l : list string) (n : nat) : bool := is_there (path_text (true, take n l ++ ["go.mod"])).
(** The nearest directory above that has a module. *)
Definition nearest (l : list string) (r : option string) : Prop :=
  match r with
  | Some r => ∃ n, (n ≤ length l)%nat ∧ r = path_text (true, take n l) ∧ module_at l n = true ∧
                   ∀ k, (n < k ≤ length l)%nat → module_at l k = false
  | None => ∀ k, (k ≤ length l)%nat → module_at l k = false
  end.

Lemma find_root_nearest l : Forall plain l → ∀ fuel, (length l < fuel)%nat → nearest l (find_root fuel (path_text (true, l))).
Proof.
  induction l as [|e l IH] using rev_ind; intros Hl fuel Hf; (destruct fuel as [|fuel]; [lia|]); cbn [find_root].
  - change (Join (path_text (true, [])) "go.mod") with (path_text (true, ["go.mod"])).
    change (Dir (path_text (true, []))) with (path_text (true, [])). rewrite String.eqb_refl.
    destruct (is_there _) eqn:Ht; [exists 0%nat; split_and!; try done; intros k Hk; cbn in Hk; lia|].
    intros k Hk. cbn in Hk. by replace k with 0%nat by lia.
  - assert (module_at (l ++ [e]) (length (l ++ [e])) = is_there (Join (path_text (true, l ++ [e])) "go.mod")) as Hat.
    { unfold module_at. rewrite firstn_all. f_equal. symmetry. change "go.mod" with (join "/" ["go.mod"]) at 1.
      rewrite Join_elems; [by rewrite elems_path_text|exact (has_prefix_app "/" _)|done|by apply Forall_singleton]. }
    rewrite <- Hat. destruct (module_at _ _) eqn:Ht.
    { exists (length (l ++ [e])). rewrite firstn_all. split_and!; try done. intros k Hk. lia. }
    rewrite Dir_plain, removelast_last by done. apply Forall_app in Hl as [Hl He].
    destruct (String.eqb_spec (path_text (true, l)) (path_text (true, l ++ [e]))) as [E|_].
    { apply path_text_inj in E; [|done|by apply Forall_app]. apply (f_equal length) in E. rewrite length_app in E. cbn in E. lia. }
    rewrite length_app in *. cbn [length] in *. assert (∀ k, (k ≤ length l)%nat → module_at (l ++ [e]) k = module_at l k) as Hsame.
    { intros k Hk. unfold module_at. by rewrite take_app_le. }
    specialize (IH Hl fuel ltac:(lia)). destruct (find_root fuel _) as [r|]; cbn [nearest] in *.
    + destruct IH as (n & Hn & -> & Hm & Hk). exists n. rewrite length_app, take_app_le, Hsame by lia. cbn [length]. split_and!; try done; [lia|].
      intros k Hk'. destruct (decide (k = length l + 1)%nat) as [->|Hne]; [done|]. rewrite Hsame by lia. apply Hk. lia.
    + intros k Hk. rewrite length_app in Hk. cbn [length] in Hk.
      destruct (decide (k = length l + 1)%nat) as [->|Hne]; [done|]. rewrite Hsame by lia. apply IH. lia.
Qed.

Lemma path_text_length l : Forall plain l → (length l ≤ String.length (path_text (true, l)))%nat.
Proof.
  intros Hl. unfold path_text. cbn [fst snd]. rewrite str_length_app. cbn [String.length]. induction Hl as [|e l (He & _) Hl IH]; cbn [length]; [lia|].
  assert (1 ≤ String.length e)%nat by (destruct e; [done|cbn; lia]). destruct l as [|x l]; [cbn [join length]; lia|].
  rewrite join_cons, !str_length_app by done. cbn [String.length]. lia.
Qed.

Lemma moduleRoot_nearest d l : abs_path d = Ok (path_text (true, l)) → Forall plain l →
  nearest l (match moduleRoot d with Ok r => Some r | Err _ => None end).
Proof.
  intros Habs Hl. unfold moduleRoot. rewrite Habs. pose proof (find_root_nearest l Hl (S (String.length (path_text (true, l))))) as Hr.
  pose proof (path_text_length l Hl). destruct (find_root _ _); apply Hr; lia.
Qed.
End root.
