(* ===== verification/BuildSpec.v ===== *)
(** * The identity of a build

    What a binary that was built says of itself, and what the go command was
    told. *)

From S2P Require Import Prelude GoErr GoStr Codec Filepath Host Redact Build.

Local Open Scope Z_scope.
Local Open Scope go_scope.

Lemma versions_plain c s : is_space c = true ∨ c = "="%char → versionPattern s = true → str_mem c s = false.
Proof.
  intros Hc [_ Hs]%versionPattern_chars. eapply all_chars_mem; [exact Hs|]. destruct Hc as [Hc| ->]; [by apply space_version|reflexivity].
Qed.
Lemma commits_plain c s : is_space c = true ∨ c = "="%char → commitPattern s = true → str_mem c s = false.
Proof.
  intros Hc [_ Hs]%andb_true_iff. eapply all_chars_mem; [exact Hs|]. destruct Hc as [Hc| ->]; [by apply space_hex|reflexivity].
Qed.

(** The linker's flags read back as separate words. *)
Lemma ldflags_words version commit : versionPattern version = true → commitPattern commit = true →
  split " " (ldflags version commit) = ["-s"; "-w"; "-X"; VersionVariable +:+ "=" +:+ version; "-X"; CommitVariable +:+ "=" +:+ commit].
Proof.
  intros Hv Hc. unfold ldflags. apply split_join_free; [done|].
  pose proof (versions_plain " " version (or_introl eq_refl) Hv) as Hv'. pose proof (commits_plain " " commit (or_introl eq_refl) Hc) as Hc'.
  repeat constructor; rewrite !str_mem_app; rewrite ?Hv', ?Hc'; reflexivity.
Qed.

(** A text is blank when each of its characters is a space. *)
Lemma trim_space_blank s : trim_space s ≠ "" ↔ ∃ c, str_mem c s = true ∧ is_space c = false.
Proof.
  assert (∀ t, trim_right_by is_space t ≠ "" ↔ ∃ c, str_mem c t = true ∧ is_space c = false) as Hr.
  { induction t as [|d t IH]; [split; [done|by intros (c & ? & _)]|]. cbn [trim_right_by str_mem].
    destruct (trim_right_by is_space t) as [|x y] eqn:Ht.
    - destruct (is_space d) eqn:Hd; split; try done.
      + intros (c & [Hc|Hc]%orb_true_iff & Hs); [apply Ascii.eqb_eq in Hc; congruence|]. apply IH. by exists c.
      + intros _. exists d. by rewrite Ascii.eqb_refl.
    - split; [intros _|done]. destruct (proj1 IH ltac:(done)) as (c & Hc & Hs). exists c. by rewrite Hc, orb_true_r. }
  unfold trim_space. rewrite Hr. split; intros (c & Hc & Hs); exists c; (split; [|done]); revert Hc; induction s as [|d s IH]; try done;
    cbn [trim_left_by]; destruct (is_space d) eqn:Hd; try done; cbn [str_mem].
  - intros Hc. by rewrite IH, orb_true_r.
  - intros [Hc|Hc]%orb_true_iff; [apply Ascii.eqb_eq in Hc; congruence|auto].
Qed.

Lemma linked_settings commit l d : (foldl (read_setting true) (commit, d) l).1 = commit.
Proof.
  revert d. induction l as [|[k v] l IH]; intros d; [done|]. cbn [foldl]. unfold read_setting at 2. cbn [negb andb].
  destruct (String.eqb k "vcs.revision"); [apply IH|]. destruct (String.eqb k "vcs.modified"); apply IH.
Qed.

(** A binary that was linked with an identity has it, whatever else was
    recorded; the default version leaves room for what was. *)
Lemma resolve_linked version commit b : versionPattern version = true → commitPattern commit = true →
  info_Commit (buildinfo_resolve version commit b) = commit ∧
  (version ≠ "dev" → info_Version (buildinfo_resolve version commit b) = version).
Proof.
  intros Hv Hc. unfold buildinfo_resolve.
  rewrite (trim_space_chars version) by (intros c Hs; apply versions_plain; [by left|done]).
  rewrite (trim_space_chars commit) by (intros c Hs; apply commits_plain; [by left|done]).
  assert (is_empty version = false) as Hne by (apply is_empty_false, versionPattern_chars, Hv).
  assert (is_empty commit = false ∧ String.eqb commit unknownCommit = false) as [Hce Hcu].
  { apply andb_true_iff in Hc as [Hl _]. split; [apply is_empty_false|apply String.eqb_neq]; intros ->; by vm_compute in Hl. }
  rewrite Hne, Hce, Hcu. cbn [negb andb]. set (linked := negb (String.eqb version defaultVersion)).
  assert (version ≠ "dev" → linked = true) as Hl by (intros Hd; subst linked; by apply negb_true_iff, String.eqb_neq).
  destruct b as [b|].
  - pose proof (linked_settings commit (Settings b) false) as Hs. destruct (foldl _ _ _) as [c d]. cbn in Hs. subst c.
    rewrite Hce. cbn [info_Commit info_Version]. split; [done|]. intros Hd. rewrite (Hl Hd). cbn [negb andb]. by rewrite Hne, andb_false_r.
  - rewrite Hce. cbn [info_Commit info_Version andb]. by rewrite Hne.
Qed.

Section build.
Context `{Builder}.

(** Where the build starts. *)
Definition starts_in (o : BuildOptions) (directory : string) : Prop :=
  (bd_Directory o ≠ "" ∧ directory = bd_Directory o) ∨ (bd_Directory o = "" ∧ getwd = Ok directory).
(** Git says that the directory is in a checkout: its root, its commit and
    whether anything was changed or is not tracked. *)
Definition checkout (directory root commit : string) (dirty : bool) : Prop :=
  ∃ top head status,
    git_output directory ["rev-parse"; "--show-toplevel"] = Ok top ∧ root = trim_space top ∧
    git_output root ["rev-parse"; "HEAD"] = Ok head ∧ commit = trim_space head ∧
    git_output root ["status"; "--porcelain"; "--untracked-files=normal"] = Ok status ∧
    (dirty = true ↔ ∃ c, str_mem c status = true ∧ is_space c = false).
(** The sources that are built: a checkout, or the module above a directory
    that Git does not take for one. *)
Definition built_from (o : BuildOptions) (dirty : bool) (directory commit : string) : Prop :=
  ∃ d0, starts_in o d0 ∧
  ((∃ head, checkout d0 directory head dirty ∧
      (trim_space (bd_Commit o) ≠ "" ∧ commit = trim_space (bd_Commit o) ∨ trim_space (bd_Commit o) = "" ∧ commit = head)) ∨
   ((∃ e, git_output d0 ["rev-parse"; "--show-toplevel"] = Err e) ∧ dirty = false ∧
      trim_space (bd_Commit o) ≠ "" ∧ commit = trim_space (bd_Commit o) ∧
      ∃ l, abs_path d0 = Ok (path_text (true, l)) ∧ nearest l (Some directory))).
Definition version_of (o : BuildOptions) (dirty : bool) (commit version : string) : Prop :=
  (trim_space (bd_Version o) = "" ∧ version = "dev-" +:+ str_take 12 commit +:+ (if dirty then "-dirty" else "")) ∨
  (trim_space (bd_Version o) ≠ "" ∧ version = trim_space (bd_Version o) ∧ (dirty = true → bd_AllowDirty o = true)).

Lemma start_of o d0 : start_directory o = Ok d0 → starts_in o d0.
Proof using Type.
  unfold start_directory, starts_in. destruct (is_empty (bd_Directory o)) eqn:He.
  - apply is_empty_true in He. destruct getwd; [|done]. intros [= ->]. by right.
  - apply is_empty_false in He. intros [= <-]. by left.
Qed.

Lemma checkout_of d0 d src dirty inGit : gitIdentity d0 = Ok (d, src, dirty, inGit) →
  (inGit = true ∧ checkout d0 d src dirty) ∨
  (inGit = false ∧ d = d0 ∧ dirty = false ∧ ∃ e, git_output d0 ["rev-parse"; "--show-toplevel"] = Err e).
Proof using Type.
  unfold gitIdentity. destruct (git_output d0 _) as [top|e] eqn:Ht; [|intros [= <- <- <- <-]; right; eauto].
  destruct (git_output _ ["rev-parse"; "HEAD"]) as [head|e] eqn:Hh; [|done].
  destruct (git_output _ ["status"; _; _]) as [status|e] eqn:Hs; [|done]. intros [= <- <- <- <-]. left. split; [done|].
  exists top, head, status. split_and!; try done. rewrite negb_true_iff, is_empty_false. apply trim_space_blank.
Qed.

Lemma source_from o d0 d src dirty inGit directory commit :
  (∀ x p, abs_path x = Ok p → ∃ l, Forall plain l ∧ p = path_text (true, l)) →
  start_directory o = Ok d0 → gitIdentity d0 = Ok (d, src, dirty, inGit) → source o d src inGit = Ok (directory, commit) →
  built_from o dirty directory commit.
Proof using Type.
  intros Habs Hd%start_of Hg%checkout_of Hs. exists d0. split; [done|]. unfold source in Hs.
  destruct Hg as [[-> Hg]|(-> & -> & -> & He)]; cbn [negb] in Hs.
  - left. exists src. injection Hs as <- <-. split; [done|]. destruct (is_empty (trim_space (bd_Commit o))) eqn:Hc;
      [apply is_empty_true in Hc; by right|apply is_empty_false in Hc; by left].
  - right. destruct (is_empty _) eqn:Hc; [done|]. apply is_empty_false in Hc.
    destruct (moduleRoot d0) as [root|] eqn:Hr; [|done]. injection Hs as <- <-. split_and!; try done.
    destruct (abs_path d0) as [p|] eqn:Hp; [|unfold moduleRoot in Hr; by rewrite Hp in Hr].
    destruct (Habs _ _ Hp) as (l & Hl & ->). exists l. split; [done|]. pose proof (moduleRoot_nearest d0 l Hp Hl) as Hn. by rewrite Hr in Hn.
Qed.

Lemma choose_version_of o commit dirty version : choose_version o commit dirty = Ok version → version_of o dirty commit version.
Proof using Type.
  unfold choose_version, version_of. destruct (is_empty (trim_space (bd_Version o))) eqn:He.
  - intros [= <-]. left. by apply is_empty_true in He.
  - destruct (dirty && negb (bd_AllowDirty o)) eqn:Hd; [done|]. intros [= <-]. right. split; [by apply is_empty_false|]. split; [done|].
    intros ->. cbn in Hd. by apply negb_false_iff in Hd.
Qed.

(** The variables of the target, each set once. *)
Lemma build_env_target o key value :
  (key, value) ∈ [("CGO_ENABLED", "0"); ("GOOS", build_goos o); ("GOARCH", build_goarch o)] →
  List.filter (names key) (build_env o) = [key +:+ "=" +:+ value].
Proof using Type.
  intros Hin. unfold build_env. rewrite !elem_of_cons, elem_of_nil in Hin. destruct Hin as [[= -> ->]|[[= -> ->]|[[= -> ->]|[]]]].
  - rewrite !setEnv_other by reflexivity. by apply setEnv_names.
  - rewrite setEnv_other by reflexivity. by apply setEnv_names.
  - by apply setEnv_names.
Qed.

(** C29: A binary tells which sources it was built from.  The build runs the go
    command at most once, and then in the checkout, or in the nearest directory
    above with a module when git finds no checkout, with the target set once
    whatever the environment held.  The commit is the one that was given or that
    of the checkout, and a checkout is dirty when the status of git is not
    blank: then a version of its own is taken only when that was allowed, and
    the version is marked otherwise.  Both have the form that is required, so
    the flags of the linker fall into exactly the words that set them, and the
    binary reports this commit, and this version unless it is the default one,
    whatever the go command recorded beside them. *)
Theorem build_identity o inv invs err
    (Habs : ∀ x p, abs_path x = Ok p → ∃ l, Forall plain l ∧ p = path_text (true, l))
    (Hrun : build o = (inv :: invs, err)) :
  invs = [] ∧
  ∃ dirty version commit,
    versionPattern version = true ∧ commitPattern commit = true ∧
    built_from o dirty (inv_dir inv) commit ∧ version_of o dirty commit version ∧
    (∃ flags, inv_args inv = ["build"; "-trimpath"; "-ldflags"; flags; "-o"; build_output o; targetPackage] ∧
       split " " flags = ["-s"; "-w"; "-X"; VersionVariable +:+ "=" +:+ version; "-X"; CommitVariable +:+ "=" +:+ commit]) ∧
    (∀ key value, (key, value) ∈ [("CGO_ENABLED", "0"); ("GOOS", build_goos o); ("GOARCH", build_goarch o)] →
       List.filter (names key) (inv_env inv) = [key +:+ "=" +:+ value]) ∧
    (∀ b, info_Commit (buildinfo_resolve version commit b) = commit ∧
          (version ≠ "dev" → info_Version (buildinfo_resolve version commit b) = version)).
Proof using Type.
  unfold build in Hrun. destruct (start_directory o) as [d0|] eqn:Hd; [|done].
  destruct (gitIdentity d0) as [[[[d src] dirty] inGit]|] eqn:Hg; [|done].
  destruct (source o d src inGit) as [[directory commit]|] eqn:Hs; [|done].
  destruct (commitPattern commit) eqn:Hc; cbn [negb] in Hrun; [|done].
  destruct (choose_version o commit dirty) as [version|] eqn:Hv; [|done].
  destruct (versionPattern version) eqn:Hvp; cbn [negb] in Hrun; [|done].
  unfold run_go in Hrun. injection Hrun as <- <- _. split; [done|]. exists dirty, version, commit. cbn [inv_dir inv_env inv_args].
  split_and!; try done.
  - by eapply source_from.
  - by apply choose_version_of.
  - exists (ldflags version commit). split; [done|]. by apply ldflags_words.
  - apply build_env_target.
  - intros b. by apply resolve_linked.
Qed.
End build.

(** ** Examples *)

Definition demo_commit : string := "0123456789abcdef0123456789abcdef01234567".
Section demo.
Local Instance demo_builder : Builder :=
  {| getwd := Ok "/src/cmd"; abs_path d := Ok "/src/cmd";
     git_output _ args := if bool_decide (args = ["rev-parse"; "--show-toplevel"]) then Ok ("/src" +:+ newline)
                          else if bool_decide (args = ["rev-parse"; "HEAD"]) then Ok (demo_commit +:+ newline)
                          else Ok " M main.go";
     is_there p := String.eqb p "/src/go.mod"; environ := ["goos=plan9"; "PATH=/bin"]; getenv name := "";
     host_goos := "linux"; host_goarch := "amd64"; go_run _ _ _ := None |}.
Definition demo_build : BuildOptions :=
  {| bd_Directory := ""; bd_Output := ""; bd_Version := ""; bd_Commit := ""; bd_GOOS := "windows"; bd_GOARCH := ""; bd_AllowDirty := false |}.
Definition demo_invocation : invocation :=
  Invocation "/src" ["PATH=/bin"; "CGO_ENABLED=0"; "GOOS=windows"; "GOARCH=amd64"]
             ["build"; "-trimpath"; "-ldflags"; ldflags "dev-0123456789ab-dirty" demo_commit; "-o"; "multirunner.exe"; targetPackage].

Lemma build_identity_witness :
  build demo_build = ([demo_invocation], None) ∧
  ∃ version commit, split " " (ldflags "dev-0123456789ab-dirty" demo_commit) =
    ["-s"; "-w"; "-X"; VersionVariable +:+ "=" +:+ version; "-X"; CommitVariable +:+ "=" +:+ commit].
Proof.
  assert (build demo_build = ([demo_invocation], None)) as Hrun by (vm_compute; reflexivity). split; [exact Hrun|].
  destruct (build_identity demo_build demo_invocation [] None) as (_ & dirty & version & commit & _ & _ & _ & _ & (flags & Hargs & Hwords) & _).
  - intros x p [= <-]. exists ["src"; "cmd"]. split; [|reflexivity]. repeat constructor; done.
  - exact Hrun.
  - exists version, commit. injection Hargs as ->. exact Hwords.
Defined.

(** Outside of a checkout the module above is built. *)
Local Instance demo_plain : Builder :=
  {| getwd := Ok "/src/cmd"; abs_path d := Ok "/src/cmd"; git_output _ _ := Err (errorf "not a git repository");
     is_there p := String.eqb p "/src/go.mod"; environ := []; getenv name := ""; host_goos := "linux"; host_goarch := "amd64";
     go_run _ _ _ := None |}.
Example plain_root : find_root 9 "/src/cmd/multirunner" = Some "/src" ∧ find_root 9 "/other" = None.
Proof. vm_compute. done. Qed.
End demo.
