(* ===== verification/Winsetup.v ===== *)
(** * The installers of the Windows container runtimes

    [internal/winsetup/winsetup.go]: a script that is in the binary runs
    elevated, without being written to disk, and says in a file how it ended.
    PowerShell, the scripts and the registry are the class [Windows]; the files
    are those of [Host]. *)

From S2P Require Import Prelude GoErr GoStr Codec Json Filepath Host Redact.

Local Open Scope Z_scope.
Local Open Scope go_scope.

(** ** Encoded commands *)

(** [[]rune(s)] *)
Fixpoint runes_from (fuel : nat) (s : string) : list Z :=
  match fuel, s with
  | O, _ | _, "" => []
  | S fuel, _ => let '(r, w) := decode_rune s in r :: runes_from fuel (str_drop w s)
  end.
Definition runes (s : string) : list Z := runes_from (String.length s) s.

(** [utf16.Encode]: the units of a rune. *)
Definition utf16_units (r : Z) : list Z :=
  if (0 <=? r) && (r <? 55296) || (57344 <=? r) && (r <? 65536) then [r]
  else if (65536 <=? r) && (r <=? 1114111)
  then [55296 + (r - 65536) / 1024; 56320 + (r - 65536) mod 1024]
  else [runeError].
Definition utf16_encode (rs : list Z) : list Z := rs ≫= utf16_units.
(** [binary.LittleEndian.PutUint16] *)
Fixpoint little_endian (units : list Z) : string :=
  match units with
  | [] => ""
  | u :: units => String (ascii_of_Z (u mod 256)) (String (ascii_of_Z (u / 256)) (little_endian units))
  end.
Definition encodePowerShell (s : string) : string := b64_encode StdEncoding (little_endian (utf16_encode (runes s))).

Definition wrapScript (body : string) (args : list string) : string :=
  match args with [] => body | _ => "& {" +:+ newline +:+ body +:+ newline +:+ "} " +:+ join " " args end.
Definition psQuote (s : string) : string := "'" +:+ ReplaceAll s "'" "''" +:+ "'".

(** ** The installers *)

(** [powershell command fs]: how PowerShell ends on these files, and what it
    leaves; [probe_output]: what it prints. *)
Class Windows := {
  win_goos : string;
  program_data : string;
  daemon_script : string;
  containerdScript : string;
  powershell : string → gmap string file → option goerror * gmap string file;
  probe_output : string → result string;
  rebootPending : bool
}.

Record InstallOptions := { DataRoot : string }.
Definition installArgs (o : InstallOptions) : list string :=
  if is_empty (DataRoot o) then [] else ["-DataRoot"; psQuote (DataRoot o)].

Section windows.
Context `{Windows} `{!Disk}.
Local Notation P := (M world).

(** [filepath.Join] on Windows, of a clean directory and a name. *)
Definition winJoin (dir name : string) : string := if is_empty dir then name else trim_suffix "\" dir +:+ "\" +:+ name.
Definition statusPaths : string * string :=
  let dir := winJoin program_data "multirunner" in (winJoin dir "winsetup-status.txt", winJoin dir "winsetup.log").

Definition LastStatus : P (option string) :=
  let? r := read_file statusPaths.1 in ret (match r with Ok b => Some (trim_space b) | Err _ => None end).

Definition elevated_command (enc : string) : string :=
  "Start-Process -FilePath powershell -Verb RunAs -Wait -ArgumentList @('-NoProfile','-ExecutionPolicy','Bypass','-EncodedCommand','" +:+ enc +:+ "')".
Definition run_powershell (command : string) : P (option goerror) :=
  λ w, let '(err, fs) := powershell command (files w) in (Ok err, set_files (λ _, fs) w).
(** The status that is recorded, and the error of the process. *)
Definition runElevated (body : string) (args : list string) : P (string * option goerror) :=
  let? _ := remove statusPaths.1 in
  let! runErr := run_powershell (elevated_command (encodePowerShell (wrapScript body args))) in
  let! status := LastStatus in
  ret (default "" status, runErr).

(** What an installer prints when it succeeds. *)
Definition Install (o : InstallOptions) : P string :=
  if negb (String.eqb win_goos "windows") then throw (errorf "install-windows-daemon is only supported on Windows")
  else
    let! r := runElevated daemon_script (installArgs o) in
    let '(status, runErr) := r in
    if has_prefix "reboot-required" status
    then ret (newline +:+ "Windows Containers feature enabled — REBOOT required, then re-run: multirunner install-windows-daemon")
    else if String.eqb status "ok" then ret (newline +:+ "Windows-container daemon installed and running on npipe:////./pipe/docker_engine_windows")
    else if has_prefix "error" status
    then throw (errorf ("windows daemon install failed: " +:+ trim_prefix "error: " status +:+ " (log: " +:+ statusPaths.2 +:+ ")"))
    else match runErr with
         | Some e => throw (errorf_w "windows daemon install: elevation declined or failed: " e)
         | None => throw (errorf ("windows daemon install: unknown result (log: " +:+ statusPaths.2 +:+ ")"))
         end.
Definition InstallContainerd : P string :=
  if negb (String.eqb win_goos "windows") then throw (errorf "install-containerd is only supported on Windows")
  else
    let! r := runElevated containerdScript [] in
    let '(status, runErr) := r in
    if has_prefix "reboot-required" status
    then ret (newline +:+ "Containers/Hyper-V features enabled — REBOOT required, then re-run: multirunner install-containerd")
    else if String.eqb status "ok" then ret (newline +:+ "containerd + nerdctl + runhcs installed and running (pipe \\.\pipe\containerd-containerd)")
    else if has_prefix "error" status then throw (errorf ("containerd install failed: " +:+ trim_prefix "error: " status))
    else match runErr with
         | Some e => throw (errorf_w "containerd install: elevation declined or failed: " e)
         | None => throw (errorf "containerd install: unknown result")
         end.

(** ** The plan of a dry run *)

Record installState := {
  InstallationType : string;
  Containers_state : string;
  HyperV : string;
  Service : string;
  RebootPending : bool
}.
Definition no_state (reboot : bool) : installState :=
  {| InstallationType := ""; Containers_state := ""; HyperV := ""; Service := ""; RebootPending := reboot |}.

Definition probe (serviceName : string) : string :=
  String.concat newline
    [""; "$ErrorActionPreference = 'Stop'"; "function Feature([string]$name) {";
     "    try { return (Get-WindowsOptionalFeature -Online -FeatureName $name).State.ToString() }";
     "    catch { return 'unknown (feature inspection requires elevation)' }"; "}";
     "$svc = Get-Service -Name " +:+ psQuote serviceName +:+ " -ErrorAction SilentlyContinue"; "[pscustomobject]@{";
     "    installationType = (Get-ItemProperty 'HKLM:\SOFTWARE\Microsoft\Windows NT\CurrentVersion' -Name InstallationType -ErrorAction SilentlyContinue).InstallationType";
     "    containers = Feature 'Containers'"; "    hyperV = Feature 'Microsoft-Hyper-V'";
     "    service = if ($svc) { $svc.Status.ToString() } else { 'not installed' }"; "} | ConvertTo-Json -Compress"].
Definition decode_state (v : json) : decoded installState :=
  let '(installation, ok1) := field "installationType" as_string "" v in
  let '(containers, ok2) := field "containers" as_string "" v in
  let '(hyperV, ok3) := field "hyperV" as_string "" v in
  let '(service, ok4) := field "service" as_string "" v in
  let '(reboot, ok5) := field "RebootPending" as_bool false v in
  ({| InstallationType := installation; Containers_state := containers; HyperV := hyperV; Service := service; RebootPending := reboot |},
   ok1 && ok2 && ok3 && ok4 && ok5).
Definition inspectInstall (serviceName : string) : result installState :=
  match probe_output (probe serviceName) with
  | Err e => Err e
  | Ok out => match parse_json out with
              | None => Err (ENew "json.SyntaxError" "invalid JSON")
              | Some v => let '(state, ok) := decode_state v in
                          if ok then Ok state else Err (ENew "json.UnmarshalTypeError" "json: cannot unmarshal")
              end
  end.

Definition bullet (s : string) : string := "  - " +:+ s +:+ newline.
Definition bool_text (b : bool) : string := if b then "true" else "false".
Definition is_server (state : installState) : bool := has_prefix "Server" (InstallationType state).
Definition needsHyperV (kind : string) (state : installState) : bool := String.eqb kind "containerd" || negb (is_server state).
Definition current_state (state : installState) (inspectErr : option goerror) : string :=
  match inspectErr with
  | Some e => "Host inspection: unavailable (" +:+ error_text e +:+ ")" +:+ newline
  | None => "Current state: Containers=" +:+ Containers_state state +:+ "; Hyper-V=" +:+ HyperV state +:+ "; service=" +:+
            Service state +:+ "; reboot pending=" +:+ bool_text (RebootPending state) +:+ newline
  end.
Definition planned_actions (kind : string) (o : InstallOptions) (state : installState) : string :=
  if String.eqb kind "containerd" then
    bullet "Enable Containers and Hyper-V when disabled." +:+
    bullet "If feature enablement requires a reboot, stop and request a reboot; rerun afterward." +:+
    bullet "Download missing containerd, runhcs, nerdctl, and Windows CNI binaries." +:+
    bullet "Rewrite containerd config and the machine PATH entry." +:+
    bullet "Register or reconfigure and start the containerd service."
  else
    bullet ("Enable Containers" +:+ (if is_server state then "" else " and Hyper-V") +:+ " when disabled.") +:+
    bullet "If feature enablement requires a reboot, stop and request a reboot; rerun afterward." +:+
    bullet "Download or upgrade the pinned Moby binaries." +:+
    bullet "Create the docker-users group and add the current user when needed." +:+
    bullet ("Rewrite daemon configuration with data-root " +:+
            (if is_empty (DataRoot o) then "%ProgramData%\multirunner\docker\data" else DataRoot o) +:+ ".") +:+
    bullet "Register or reconfigure and start the multirunner-dockerd service.".
Definition reboot_line (kind : string) (state : installState) (inspectErr : option goerror) : string :=
  "Reboot: " +:+
  (if RebootPending state then "already pending; reboot before applying."
   else match inspectErr with
        | Some _ => "unknown; apply may require one after enabling Windows features."
        | None => if String.eqb (Containers_state state) "Enabled" && (negb (needsHyperV kind state) || String.eqb (HyperV state) "Enabled")
                  then "not expected from feature enablement." else "may be required after enabling Windows features."
        end) +:+ newline.
Definition formatInstallPlan (kind : string) (o : InstallOptions) (state : installState) (inspectErr : option goerror) : string :=
  "Dry run: no changes will be made." +:+ newline +:+ "Installer: install-" +:+ kind +:+ newline +:+
  "Apply requires: Administrator elevation (UAC)" +:+ newline +:+
  current_state state inspectErr +:+ "Planned actions:" +:+ newline +:+ planned_actions kind o state +:+ reboot_line kind state inspectErr +:+
  "Apply with: multirunner install-" +:+ kind +:+
  (if String.eqb kind "windows-daemon" && negb (is_empty (DataRoot o)) then " --data-root " +:+ psQuote (DataRoot o) else "") +:+ newline.
Definition printInstallPlan (kind : string) (o : InstallOptions) : result string :=
  if negb (String.eqb win_goos "windows") then Err (errorf ("install-" +:+ kind +:+ " is only supported on Windows"))
  else
    let serviceName := if String.eqb kind "containerd" then "containerd" else "multirunner-dockerd" in
    let found := inspectInstall serviceName in
    let state := match found with Ok s => s | Err _ => no_state false end in
    let state := {| InstallationType := InstallationType state; Containers_state := Containers_state state; HyperV := HyperV state;
                    Service := Service state; RebootPending := rebootPending |} in
    Ok (formatInstallPlan kind o state (result_err found)).
Definition PlanWindowsDaemon (o : InstallOptions) : result string := printInstallPlan "windows-daemon" o.
Definition PlanContainerd : result string := printInstallPlan "containerd" {| DataRoot := "" |}.
End windows.
