(* ===== verification/WinsetupSpec.v ===== *)
(** * What the installers run, and what they report

    An elevated command is read back the way PowerShell reads it: the flag
    -EncodedCommand takes the Base64 of UTF-16 with the low byte first, and a
    literal in single quotes ends at the first quote that is not doubled, where
    the four typographic quotes count as quotes too. *)

From S2P Require Import Prelude GoErr GoStr Codec Json Filepath Host Redact RedactSpec Winsetup.

Local Open Scope Z_scope.
Local Open Scope go_scope.

(** ** Runes *)

Definition scalar (r : Z) : Prop := 0 ≤ r < 55296 ∨ 57344 ≤ r ≤ 1114111.

Lemma byte_in_range lo hi c : byte_in lo hi c = true → lo ≤ Z_of_ascii c ≤ hi.
Proof. unfold byte_in. intros [H1%Z.leb_le H2%Z.leb_le]%andb_true_iff. lia. Qed.

Lemma second_range b c : second_of b c = true →
  128 ≤ Z_of_ascii c ≤ 191 ∧ (b = 224 → 160 ≤ Z_of_ascii c) ∧ (b = 237 → Z_of_ascii c ≤ 159) ∧
  (b = 240 → 144 ≤ Z_of_ascii c) ∧ (b = 244 → Z_of_ascii c ≤ 143).
Proof.
  unfold second_of, continuation.
  destruct (Z.eqb_spec b 224), (Z.eqb_spec b 237), (Z.eqb_spec b 240), (Z.eqb_spec b 244); intros Hc%byte_in_range; lia.
Qed.

Lemma decode_scalar c s : let r := (decode_rune (String c s)).1 in scalar r ∧ (is_ascii c = false → 128 ≤ r).
Proof.
  cbv zeta. unfold is_ascii. pose proof (Z_of_ascii_range c) as Hb. cbn [decode_rune]. destruct (Z_of_ascii c <? 128) eqn:Ha.
  { apply Z.ltb_lt in Ha. split; [left; cbn; lia|done]. }
  apply Z.ltb_ge in Ha. assert (scalar runeError ∧ (false = false → 128 ≤ runeError)) as Herr by (unfold scalar, runeError; lia).
  destruct s as [|c1 s]; [exact Herr|]. destruct (negb _) eqn:H1; [exact Herr|]. apply negb_false_iff in H1.
  rewrite !andb_true_iff, !Z.leb_le in H1. destruct H1 as [[Hlo Hhi] H2%second_range].
  unfold low6. destruct (Z.ltb_spec (Z_of_ascii c) 224); [cbn [fst]; unfold scalar; dlia|].
  destruct s as [|c2 s]; [exact Herr|]. destruct (negb (continuation c2)) eqn:H3; [exact Herr|].
  apply negb_false_iff, byte_in_range in H3. destruct (Z.ltb_spec (Z_of_ascii c) 240); [cbn [fst]; unfold scalar; dlia|].
  destruct s as [|c3 s]; [exact Herr|]. destruct (negb (continuation c3)) eqn:H4; [exact Herr|].
  apply negb_false_iff, byte_in_range in H4. cbn [fst]. unfold scalar. dlia.
Qed.

Lemma runes_fuel n s : (String.length s ≤ n)%nat → runes_from n s = runes s.
Proof.
  unfold runes. intros Hn. enough (∀ m, String.length s ≤ m → runes_from n s = runes_from m s)%nat by auto.
  revert s Hn. induction n as [|n IH]; intros s Hn m Hm.
  - destruct s; [by destruct m|cbn in Hn; lia].
  - destruct s as [|c s]; [by destruct m|]. destruct m as [|m]; [cbn in Hm; lia|]. cbn [runes_from].
    pose proof (decode_width (String c s) ltac:(done)) as Hw. destruct (decode_rune (String c s)) as [r w]. cbn [snd] in Hw.
    f_equal. apply IH; rewrite str_length_drop; cbn in *; lia.
Qed.

Lemma runes_step s : s ≠ "" → runes s = (decode_rune s).1 :: runes (str_drop (decode_rune s).2 s).
Proof.
  intros Hs. pose proof (decode_width s Hs) as Hw. unfold runes at 1. destruct s as [|c s]; [done|]. cbn [runes_from String.length].
  destruct (decode_rune (String c s)) as [r w]. cbn [fst snd] in *. rewrite runes_fuel; [done|].
  rewrite str_length_drop. cbn in *. lia.
Qed.

Lemma runes_cons c s : is_ascii c = true → runes (String c s) = Z_of_ascii c :: runes s.
Proof. intros Hc. rewrite runes_step by done. by rewrite decode_ascii. Qed.

(** Induction rune by rune. *)
Lemma rune_ind (Q : string → Prop) : Q "" → (∀ s, s ≠ "" → Q (str_drop (decode_rune s).2 s) → Q s) → ∀ s, Q s.
Proof.
  intros H0 HS s. remember (String.length s) as n eqn:Hn. revert s Hn. induction (lt_wf n) as [n _ IH]. intros s ->.
  destruct (decide (s = "")) as [->|Hs]; [done|]. apply HS; [done|]. pose proof (decode_width s Hs) as Hw.
  eapply IH; [|reflexivity]. rewrite str_length_drop. lia.
Qed.

Lemma str_drop_short w a t : (w ≤ String.length a)%nat → str_drop w (a +:+ t) = str_drop w a +:+ t.
Proof. revert a. induction w as [|w IH]; intros [|d a] Hw; cbn in *; try done; [lia|]. apply IH. lia. Qed.

Lemma runes_app a c t : is_ascii c = true → runes (a +:+ String c t) = runes a ++ runes (String c t).
Proof.
  intros Hc. induction a as [|a Ha IH] using rune_ind; [done|]. rewrite (runes_step (a +:+ String c t)) by (by destruct a).
  rewrite (runes_step a) by done. rewrite decode_app by done. pose proof (decode_width a Ha) as Hw.
  rewrite str_drop_short by lia. by rewrite IH.
Qed.

Lemma runes_scalar s : Forall scalar (runes s).
Proof.
  induction s as [|s Hs IH] using rune_ind; [constructor|]. rewrite runes_step by done. constructor; [|done].
  destruct s as [|c s]; [done|]. apply decode_scalar.
Qed.

Lemma str_drop_mem c n s : str_mem c s = false → str_mem c (str_drop n s) = false.
Proof.
  revert s. induction n as [|n IH]; intros [|d s] Hs; try done. cbn [str_drop]. apply IH. cbn in Hs. by apply orb_false_iff in Hs as [_ Hs].
Qed.

Lemma runes_free s : str_mem "'" s = false → 39 ∉ runes s.
Proof.
  induction s as [|s Hs IH] using rune_ind; intros Hq; [by apply not_elem_of_nil|]. rewrite runes_step by done.
  apply not_elem_of_cons. split; [|apply IH; by apply str_drop_mem]. destruct s as [|c s]; [done|].
  destruct (is_ascii c) eqn:Ha; [|apply (decode_scalar c s) in Ha; lia]. rewrite decode_ascii by done. cbn [fst]. intros Heq.
  change (Ascii.eqb "'" c || str_mem "'" s = false) in Hq. apply orb_false_iff in Hq as [Hq _]. apply Ascii.eqb_neq in Hq. apply Hq. rewrite <- (ascii_of_Z_of_ascii c), <- Heq. reflexivity.
Qed.

(** ** Encoded commands *)

Fixpoint utf16_decode (units : list Z) : list Z :=
  match units with
  | [] => []
  | u :: units =>
      if (55296 <=? u) && (u <? 56320)
      then match units with
           | v :: rest => if (56320 <=? v) && (v <? 57344) then (65536 + (u - 55296) * 1024 + (v - 56320)) :: utf16_decode rest
                          else runeError :: utf16_decode units
           | [] => [runeError]
           end
      else u :: utf16_decode units
  end.
Fixpoint units_of (bytes : string) : list Z :=
  match bytes with
  | String a (String b bytes) => (Z_of_ascii a + 256 * Z_of_ascii b) :: units_of bytes
  | _ => []
  end.
(** The text that PowerShell runs for an encoded command. *)
Definition decode_command (enc : string) : option (list Z) := utf16_decode ∘ units_of <$> b64_decode StdEncoding enc.

Lemma utf16_decode_encode rs : Forall scalar rs → utf16_decode (utf16_encode rs) = rs.
Proof.
  unfold utf16_encode. induction 1 as [|r rs Hr Hrs IH]; [done|]. rewrite bind_cons. unfold utf16_units, scalar in *.
  destruct (_ || _) eqn:H1.
  - cbn [app utf16_decode]. assert ((55296 <=? r) && (r <? 56320) = false) as ->; [|by rewrite IH].
    rewrite orb_true_iff, !andb_true_iff, !Z.leb_le, !Z.ltb_lt in H1. apply andb_false_iff. rewrite Z.leb_gt, Z.ltb_ge. lia.
  - rewrite orb_false_iff, !andb_false_iff, !Z.leb_gt, !Z.ltb_ge in H1.
    assert ((65536 <=? r) && (r <=? 1114111) = true) as -> by (rewrite andb_true_iff, !Z.leb_le; lia). cbn [app utf16_decode].
    assert ((55296 <=? 55296 + (r - 65536) / 1024) && (55296 + (r - 65536) / 1024 <? 56320) = true) as ->
      by (rewrite andb_true_iff, Z.leb_le, Z.ltb_lt; dlia).
    assert ((56320 <=? 56320 + (r - 65536) mod 1024) && (56320 + (r - 65536) mod 1024 <? 57344) = true) as ->
      by (rewrite andb_true_iff, Z.leb_le, Z.ltb_lt; dlia).
    rewrite IH. f_equal. dlia.
Qed.

Lemma units_range rs : Forall scalar rs → Forall (λ u, 0 ≤ u < 65536) (utf16_encode rs).
Proof.
  unfold utf16_encode. induction 1 as [|r rs Hr Hrs IH]; [constructor|]. rewrite bind_cons. apply Forall_app. split; [|done].
  unfold utf16_units, scalar in *. destruct (_ || _) eqn:H1.
  - rewrite orb_true_iff, !andb_true_iff, !Z.leb_le, !Z.ltb_lt in H1. apply Forall_singleton. lia.
  - destruct ((65536 <=? r) && _) eqn:H2; [|by apply Forall_singleton]. rewrite andb_true_iff, !Z.leb_le in H2.
    repeat constructor; dlia.
Qed.

Lemma units_of_le us : Forall (λ u, 0 ≤ u < 65536) us → units_of (little_endian us) = us.
Proof.
  induction 1 as [|u us Hu Hus IH]; [done|]. cbn [little_endian units_of]. rewrite IH, !Z_of_ascii_of_Z by dlia. f_equal. dlia.
Qed.

(** PowerShell runs the text that was encoded. *)
Lemma decode_encodePowerShell s : decode_command (encodePowerShell s) = Some (runes s).
Proof.
  unfold decode_command, encodePowerShell. rewrite b64_decode_encode by apply known_std. cbn. f_equal.
  rewrite units_of_le by apply units_range, runes_scalar. apply utf16_decode_encode, runes_scalar.
Qed.

Lemma b64_no_quote s : str_mem "'" (b64_encode StdEncoding s) = false.
Proof.
  assert (∀ k, 0 ≤ k < 64 → Ascii.eqb "'" (b64_char StdEncoding k) = false) as H.
  { intros k Hk. apply negb_true_iff. apply (all_below 64 (λ k, negb (Ascii.eqb "'" (b64_char StdEncoding k)))); [reflexivity|done]. }
  induction s as [|a|a b|a b c s IH] using string_ind3; b64_ranges; [done| | |];
    cbn [b64_encode str_mem]; rewrite !H by b64_sext; [reflexivity..|]. exact IH.
Qed.

(** ** Literals *)

Definition is_quote (r : Z) : bool := (r =? 39) || (8216 <=? r) && (r <=? 8219).
Definition prepend (l : list Z) (p : list Z * list Z) : list Z * list Z := (l ++ p.1, p.2).
(** The text of a literal after its first quote, and what follows it. *)
Fixpoint read_body (rs : list Z) : option (list Z * list Z) :=
  match rs with
  | [] => None
  | r :: rest =>
      if is_quote r
      then match rest with
           | q :: rest' => if is_quote q then prepend [r] <$> read_body rest' else Some ([], rest)
           | [] => Some ([], [])
           end
      else prepend [r] <$> read_body rest
  end.
Definition read_literal (rs : list Z) : option (list Z * list Z) :=
  match rs with r :: rest => if is_quote r then read_body rest else None | [] => None end.
(** No quote but the straight one. *)
Definition straight (s : string) : Prop := Forall (λ r, is_quote r = true → r = 39) (runes s).

Lemma prepend_cons r l p : prepend [r] (prepend l p) = prepend (r :: l) p.
Proof. done. Qed.

Lemma read_body_free l rest : Forall (λ r, is_quote r = false) l → read_body (l ++ rest) = prepend l <$> read_body rest.
Proof.
  induction 1 as [|r l Hr Hl IH]; [cbn [app]; by destruct (read_body rest) as [[]|]|]. cbn [app read_body]. rewrite Hr, IH.
  by destruct (read_body rest).
Qed.

Lemma doubled_free a b : str_mem "'" a = false → ReplaceAll (a +:+ b) "'" "''" = a +:+ ReplaceAll b "'" "''".
Proof.
  induction a as [|c a IH]; intros Ha; [done|]. change (Ascii.eqb "'" c || str_mem "'" a = false) in Ha.
  apply orb_false_iff in Ha as [Hc Ha]. change (String c a +:+ b) with (String c (a +:+ b)). unfold ReplaceAll.
  cbn [String.length replace_lit]. change (has_prefix "'" (String c (a +:+ b))) with (Ascii.eqb "'" c && true). rewrite Hc. cbn [andb].
  change (String c (ReplaceAll (a +:+ b) "'" "''") = String c a +:+ ReplaceAll b "'" "''"). by rewrite IH.
Qed.

Lemma first_quote s : str_mem "'" s = false ∨ ∃ a b, s = a +:+ String "'" b ∧ str_mem "'" a = false.
Proof.
  induction s as [|c s IH]; [by left|]. destruct (Ascii.eqb_spec "'" c) as [<-|Hc]; [right; by exists "", s|].
  apply Ascii.eqb_neq in Hc. destruct IH as [IH|(a & b & -> & Ha)].
  - left. change (Ascii.eqb "'" c || str_mem "'" s = false). by rewrite Hc.
  - right. exists (String c a), b. split; [done|]. change (Ascii.eqb "'" c || str_mem "'" a = false). by rewrite Hc.
Qed.

Lemma free_straight s : str_mem "'" s = false → straight s → Forall (λ r, is_quote r = false) (runes s).
Proof.
  intros Hf%runes_free Hs. apply Forall_forall. intros r Hr. destruct (is_quote r) eqn:Hq; [|done].
  unfold straight in Hs. rewrite Forall_forall in Hs. by rewrite (Hs r Hr Hq) in Hr.
Qed.

Lemma doubled_reads s : straight s → read_body (runes (ReplaceAll s "'" "''") ++ [39]) = Some (runes s, []).
Proof.
  remember (String.length s) as n eqn:Hn. revert s Hn. induction (lt_wf n) as [n _ IH]. intros s -> Hs.
  destruct (first_quote s) as [Hf|(a & b & -> & Ha)].
  - pose proof (doubled_free s "" Hf) as Hd. change (ReplaceAll "" "'" "''") with "" in Hd. rewrite str_app_nil_r in Hd. rewrite Hd.
    rewrite read_body_free by (by apply free_straight). cbn. unfold prepend. cbn. by rewrite app_nil_r.
  - rewrite doubled_free by done. change (ReplaceAll (String "'" b) "'" "''") with (String "'" (String "'" (ReplaceAll b "'" "''"))).
    unfold straight in Hs. rewrite runes_app, runes_cons in Hs by reflexivity. apply Forall_app in Hs as [Hsa [_ Hsb]%Forall_cons].
    rewrite !runes_app, !runes_cons, <- app_assoc by reflexivity. rewrite read_body_free by (by apply free_straight).
    change (Z_of_ascii "'") with 39. cbn [app read_body]. change (is_quote 39) with true. cbn iota.
    rewrite (IH (String.length b)); [|rewrite str_length_app; cbn [String.length]; lia|done..]. reflexivity.
Qed.

Lemma psQuote_reads s : straight s → read_literal (runes (psQuote s)) = Some (runes s, []).
Proof.
  intros Hs. unfold psQuote. change ("'" +:+ ?x +:+ "'") with (String "'" (x +:+ String "'" "")).
  rewrite runes_cons, runes_app by reflexivity. cbn [read_literal]. change (is_quote (Z_of_ascii "'")) with true. cbn iota.
  by apply doubled_reads.
Qed.

(** How many quotes there are, and how many of them are straight. *)
Definition quotes (rs : list Z) : nat := length (filter (λ r, is_quote r = true) rs).
Definition straights (rs : list Z) : nat := length (filter (λ r, r = 39) rs).

Lemma quotes_app a b : quotes (a ++ b) = (quotes a + quotes b)%nat.
Proof. unfold quotes. by rewrite filter_app, length_app. Qed.
Lemma straights_app a b : straights (a ++ b) = (straights a + straights b)%nat.
Proof. unfold straights. by rewrite filter_app, length_app. Qed.

(** A literal that ends with the text is longer than what it means by its
    doubled quotes. *)
Lemma read_body_length n rs out : (length rs ≤ n)%nat → read_body rs = Some (out, []) → (2 * length rs = 2 * length out + quotes rs + 1)%nat.
Proof.
  revert rs out. induction n as [|n IH]; intros [|r rs] out Hn Hr; [done|cbn in Hn; lia|done|]. cbn [read_body length] in *.
  unfold quotes in *. destruct (is_quote r) eqn:Hq.
  - rewrite filter_cons_True by done. cbn [length]. destruct rs as [|q rs]; [injection Hr as <-; cbn; lia|].
    destruct (is_quote q) eqn:Hq'; [|by injection Hr]. rewrite filter_cons_True by done. cbn [length] in *.
    destruct (read_body rs) as [[out' rest]|] eqn:Hb; [|done]. injection Hr as <- ->.
    pose proof (IH rs out' ltac:(lia) Hb). cbn [length]. lia.
  - rewrite filter_cons_False by congruence. destruct (read_body rs) as [[out' rest]|] eqn:Hb; [|done]. injection Hr as <- ->.
    pose proof (IH rs out' ltac:(lia) Hb). cbn [length app]. lia.
Qed.

Lemma doubled_counts s : let d := runes (ReplaceAll s "'" "''") in
  (length d = length (runes s) + straights (runes s) ∧ quotes d = quotes (runes s) + straights (runes s))%nat.
Proof.
  cbv zeta. remember (String.length s) as n eqn:Hn. revert s Hn. induction (lt_wf n) as [n _ IH]. intros s ->.
  assert (∀ a, str_mem "'" a = false → straights (runes a) = 0%nat) as H0.
  { intros a Ha%runes_free. unfold straights. induction (runes a) as [|r rs IHr]; [done|]. apply not_elem_of_cons in Ha as [Hr Ha].
    rewrite filter_cons_False by congruence. auto. }
  destruct (first_quote s) as [Hf|(a & b & -> & Ha)].
  - pose proof (doubled_free s "" Hf) as Hd. change (ReplaceAll "" "'" "''") with "" in Hd. rewrite str_app_nil_r in Hd.
    rewrite Hd, (H0 s Hf). lia.
  - rewrite doubled_free by done. change (ReplaceAll (String "'" b) "'" "''") with (String "'" (String "'" (ReplaceAll b "'" "''"))).
    destruct (IH (String.length b) ltac:(rewrite str_length_app; cbn [String.length]; lia) b eq_refl) as [Hl Hq].
    rewrite !runes_app, !runes_cons, !length_app, !quotes_app, !straights_app, (H0 a Ha) by reflexivity. change (Z_of_ascii "'") with 39.
    assert (∀ x, quotes (39 :: x) = S (quotes x)) as Eq by done. assert (∀ x, straights (39 :: x) = S (straights x)) as Es by done.
    rewrite !Eq, Es. cbn [length]. lia.
Qed.

Lemma straights_quotes rs : (straights rs ≤ quotes rs)%nat ∧ (straights rs = quotes rs → Forall (λ r, is_quote r = true → r = 39) rs).
Proof.
  unfold straights, quotes. induction rs as [|r rs [IH1 IH2]]; [by split; [|constructor]|]. destruct (is_quote r) eqn:Hq.
  - rewrite (filter_cons_True (λ r, is_quote r = true)) by done. destruct (decide (r = 39)) as [->|Hr].
    + rewrite filter_cons_True by done. cbn [length]. split; [lia|]. intros [= He]. constructor; [done|auto].
    + rewrite filter_cons_False by done. cbn [length]. split; [lia|]. intros He. lia.
  - rewrite (filter_cons_False (λ r, is_quote r = true)) by congruence. rewrite filter_cons_False by (by intros ->).
    split; [done|]. intros He. constructor; [congruence|auto].
Qed.

(** Nothing but a text without typographic quotes reads back. *)
Lemma psQuote_reads_back s : read_literal (runes (psQuote s)) = Some (runes s, []) ↔ straight s.
Proof.
  split; [|apply psQuote_reads]. unfold psQuote. change ("'" +:+ ?x +:+ "'") with (String "'" (x +:+ String "'" "")).
  rewrite runes_cons, runes_app by reflexivity. cbn [read_literal]. change (is_quote (Z_of_ascii "'")) with true. cbn iota.
  intros Hr%(read_body_length _ _ _ (le_n _)). destruct (doubled_counts s) as [Hl Hq]. rewrite length_app, quotes_app, Hl, Hq in Hr.
  change (length (runes (String "'" ""))) with 1%nat in Hr. change (quotes (runes (String "'" ""))) with 1%nat in Hr.
  destruct (straights_quotes (runes s)) as [Hle He]. apply He. lia.
Qed.

(** ** The command line *)

(** What an outer PowerShell passes on: the literal after the flag. *)
Definition command_head : string :=
  "Start-Process -FilePath powershell -Verb RunAs -Wait -ArgumentList @('-NoProfile','-ExecutionPolicy','Bypass','-EncodedCommand','".
Definition elevated_text (command : string) : option (list Z) :=
  if has_prefix command_head command
  then match cut "'" (str_drop (String.length command_head) command) with (enc, ")", true) => decode_command enc | _ => None end
  else None.

Lemma elevated_reads s : elevated_text (elevated_command (encodePowerShell s)) = Some (runes s).
Proof.
  unfold elevated_text, elevated_command. fold command_head. rewrite has_prefix_app, str_drop_app.
  change (encodePowerShell s +:+ "')") with (encodePowerShell s +:+ String "'" ")"). rewrite cut_app by apply b64_no_quote.
  apply decode_encodePowerShell.
Qed.

(** C28: The elevated installer runs exactly its script.  The command that is
    given to PowerShell has no way out of its quotes, and the text that the
    elevated process decodes from it is the script of the binary; with a data
    root it is the script as a block, applied to one argument, a literal that
    reads back as that path if and only if the path has no typographic quote:
    PowerShell takes U+2018 to U+201B for quotes, and the code doubles the
    straight one alone. *)
Theorem installer_runs_script body o :
  let text := elevated_text (elevated_command (encodePowerShell (wrapScript body (installArgs o)))) in
  (DataRoot o = "" → text = Some (runes body)) ∧
  (DataRoot o ≠ "" → ∃ literal,
     text = Some (runes ("& {" +:+ newline +:+ body +:+ newline +:+ "} -DataRoot ") ++ literal) ∧
     (read_literal literal = Some (runes (DataRoot o), []) ↔ straight (DataRoot o))).
Proof.
  cbv zeta. rewrite elevated_reads. unfold installArgs. split.
  - intros ->. reflexivity.
  - intros Hne. apply is_empty_false in Hne. rewrite Hne. exists (runes (psQuote (DataRoot o))). split; [|apply psQuote_reads_back].
    f_equal. assert (∀ q, wrapScript body ["-DataRoot"; q] = ("& {" +:+ newline +:+ body +:+ newline +:+ "} -DataRoot ") +:+ q) as Hw.
    { intros q. unfold wrapScript. cbn [join]. by rewrite !str_app_assoc. }
    rewrite Hw. unfold psQuote. change ("'" +:+ ?x) with (String "'" x). by rewrite runes_app.
Qed.

(** A typographic quote ends the literal. *)
Example typographic_quote : read_literal (runes (psQuote ("D:\O" +:+ utf8 8217 +:+ "; calc"))) = Some (runes "D:\O", runes "; calc'").
Proof. vm_compute. reflexivity. Qed.

(** ** The outcome *)

Section windows.
Context `{Windows} `{!Disk}.

(** The files the script starts from: without an old status, unless that could
    not be removed. *)
Definition before (w : world) : gmap string file :=
  match op_fails (S (calls w)) (OpRemove statusPaths.1) with Some _ => files w | None => delete statusPaths.1 (files w) end.
(** How PowerShell ends with the script, and the files it leaves. *)
Definition ran (body : string) (args : list string) (w : world) : option goerror * gmap string file :=
  powershell (elevated_command (encodePowerShell (wrapScript body args))) (before w).
(** The status file as it is read after the script; a read that fails is that of
    a file that is not there. *)
Definition recorded (w : world) (fs : gmap string file) : option string :=
  match op_fails (S (S (calls w))) (OpRead statusPaths.1) with
  | Some _ => None
  | None => (λ f, trim_space (f_data f)) <$> fs !! statusPaths.1
  end.
(** An installer that runs this script: the files are those of the script, and
    the answer is that of the recorded status. *)
Definition reports (body : string) (args : list string) (w : world) (r : result string) (w' : world) : Prop :=
  let '(err, fs) := ran body args w in
  files w' = fs ∧
  (is_ok r = true ↔ ∃ status, recorded w fs = Some status ∧ (status = "ok" ∨ ∃ more, status = "reboot-required" +:+ more)) ∧
  (∀ status more e, recorded w fs = Some status → status = "error: " +:+ more → r = Err e →
     ∃ before after, error_text e = before +:+ more +:+ after) ∧
  (∀ e, recorded w fs = None → err = Some e → ∃ prefix, r = Err (errorf_w prefix e)).

Lemma before_wp w : wp (remove statusPaths.1) (λ _ w1, calls w1 = S (calls w) ∧ files w1 = before w) w.
Proof using Type.
  unfold before. generalize statusPaths.1. intros p. unfold wp, remove, syscall. cbn.
  destruct (op_fails (S (calls w)) (OpRemove p)) as [e|]; cbn; [done|]. destruct (files w !! p) as [f|] eqn:Hf; cbn; split; try done. by rewrite delete_id.
Qed.
Lemma runElevated_wp body args w :
  wp (runElevated body args) (λ r w', let '(err, fs) := ran body args w in r = Ok (default "" (recorded w fs), err) ∧ files w' = fs) w.
Proof using Type.
  unfold runElevated, ran. generalize (elevated_command (encodePowerShell (wrapScript body args))). intros cmd.
  apply wp_catch. eapply wp_mono; [apply before_wp|]. intros _ w1 [Hc Hf]. apply wp_bind.
  unfold run_powershell at 1, wp. rewrite Hf. destruct (powershell cmd (before w)) as [err fs]. cbn [fst snd].
  unfold LastStatus, recorded. generalize statusPaths.1. intros p.
  unfold read_file, syscall, stored, bind, catch, ret. cbn. rewrite Hc.
  destruct (op_fails (S (S (calls w))) (OpRead p)) as [e|]; cbn; [done|]. by destruct (fs !! p).
Qed.

(** What both installers make of a status. *)
Lemma reports_of body args w (r : result string) w' err fs :
  ran body args w = (err, fs) → files w' = fs →
  (let status := default "" (recorded w fs) in
   is_ok r = has_prefix "reboot-required" status || String.eqb status "ok" ∧
   (has_prefix "error" status = true → ∀ e, r = Err e → ∃ pre post, error_text e = pre +:+ trim_prefix "error: " status +:+ post) ∧
   (status = "" → ∀ e, err = Some e → ∃ prefix, r = Err (errorf_w prefix e))) → reports body args w r w'.
Proof using Type.
  intros Hran Hw (Hok & He & Hn). unfold reports. rewrite Hran. split; [done|]. split; [|split].
  - rewrite Hok, orb_true_iff, String.eqb_eq. destruct (recorded w fs) as [t|].
    + change (default "" (Some t)) with t. split.
      * intros [[more ->]%has_prefix_spec|Ht]; eexists; (split; [reflexivity|]); [right; by exists more|by left].
      * intros (t' & [= <-] & [->|[more ->]]); [by right|left; reflexivity].
    + split; [intros [Hf|Hf]; discriminate|intros (t & Ht & _); done].
  - intros status more e Hs Heq Hr. rewrite Hs in He. cbn [default from_option id] in He.
    destruct (He ltac:(by rewrite Heq) e Hr) as (pre & post & ->). exists pre, post. by rewrite Heq, trim_prefix_app.
  - intros e Hs. apply Hn. by rewrite Hs.
Qed.

(** The cases of an installer, once PowerShell has ended. *)
Ltac by_status st :=
  repeat match goal with E : _ = (_ : bool) |- _ => rewrite E end; cbn [orb is_ok];
  repeat match goal with E : _ = (_ : bool) |- _ => revert E end; generalize st; intros t; intros;
  (split; [reflexivity|split]);
  [try (intros; discriminate)
  |try (intros Ht; rewrite Ht in *; discriminate); try (intros; discriminate); try (intros _ ? [= <-]; by eexists)].
Ltac installed Hran Hw :=
  match type of Hran with ran _ _ ?w = (?err, ?fs) =>
    let st := constr:(default "" (recorded w fs)) in let H1 := fresh in
    destruct (has_prefix "reboot-required" st) eqn:H1;
      [|destruct (String.eqb st "ok") eqn:?; [|destruct (has_prefix "error" st) eqn:?; [|destruct err as [pe|]]]];
    first [apply wp_ret|apply wp_throw]; (eapply reports_of; [exact Hran|exact Hw|]); cbv zeta; by_status st
  end.

(** C27: An installer says that it succeeded exactly when the script said so.  On
    Windows, whatever fails, either installer runs its own script on the files
    without the old status, unless that could not be removed; it succeeds if and
    only if the status file can be read afterwards and says ok or asks for a
    reboot; the error of the script is in the error that is returned, and so is
    that of PowerShell when there is no status. *)
Theorem installers_report o w (Hos : win_goos = "windows") :
  reports daemon_script (installArgs o) w (Install o w).1 (Install o w).2 ∧
  reports containerdScript [] w (InstallContainerd w).1 (InstallContainerd w).2.
Proof using Type.
  split.
  - enough (wp (Install o) (reports daemon_script (installArgs o) w) w) by done. unfold Install. rewrite Hos. cbn [negb String.eqb].
    change (String.eqb "windows" "windows") with true. cbn [negb]. apply wp_bind. eapply wp_mono; [apply runElevated_wp|].
    intros r w'. destruct (ran _ _ w) as [err fs] eqn:Hran. intros [-> Hw]. installed Hran Hw.
    intros _ e [= <-]. by exists "windows daemon install failed: ", (" (log: " +:+ statusPaths.2 +:+ ")").
  - enough (wp InstallContainerd (reports containerdScript [] w) w) by done. unfold InstallContainerd. rewrite Hos. cbn [negb String.eqb].
    change (String.eqb "windows" "windows") with true. cbn [negb]. apply wp_bind. eapply wp_mono; [apply runElevated_wp|].
    intros r w'. destruct (ran _ _ w) as [err fs] eqn:Hran. intros [-> Hw]. installed Hran Hw.
    intros _ e [= <-]. exists "containerd install failed: ", "". by rewrite str_app_nil_r.
Qed.
End windows.

(** ** Examples *)

Section demo.
Definition demo_status : string := "C:\ProgramData\multirunner\winsetup-status.txt".
(** The elevation is declined. *)
Local Instance demo_windows : Windows :=
  {| win_goos := "windows"; program_data := "C:\ProgramData"; daemon_script := "Write-Host hi"; containerdScript := "Write-Host hi";
     powershell _ fs := (Some (errorf "declined"), fs); probe_output _ := Err (errorf "no PowerShell"); rebootPending := false |}.
Local Instance demo_disk : Disk :=
  {| op_fails _ o := match o with OpRemove _ => Some (errorf "access is denied") | _ => None end; torn _ _ := ""; random_name _ := "1" |}.
Definition demo_options : InstallOptions := {| DataRoot := "D:\it's" |}.
Definition demo_world : world := World [] {[demo_status := File ("ok" +:+ newline) 420]} 0 [] [].

Lemma installer_runs_script_witness :
  ∃ literal, elevated_text (elevated_command (encodePowerShell (wrapScript "Write-Host hi" (installArgs demo_options)))) =
    Some (runes ("& {" +:+ newline +:+ "Write-Host hi" +:+ newline +:+ "} -DataRoot ") ++ literal) ∧
    read_literal literal = Some (runes "D:\it's", []).
Proof.
  destruct (installer_runs_script "Write-Host hi" demo_options) as [_ Hroot]. destruct Hroot as (literal & Htext & Hread); [done|].
  exists literal. split; [exact Htext|]. apply Hread. unfold straight. vm_compute. repeat constructor; done.
Defined.

(** A status that cannot be removed is taken for that of an elevation that was
    declined. *)
Example stale_status : is_ok (Install demo_options demo_world).1 = true.
Proof. vm_compute. reflexivity. Qed.

Lemma installers_report_witness :
  win_goos = "windows" ∧
  reports daemon_script (installArgs demo_options) demo_world (Install demo_options demo_world).1 (Install demo_options demo_world).2.
Proof. split; [reflexivity|]. destruct (installers_report demo_options demo_world) as [Hi _]; [reflexivity|]. exact Hi. Defined.
End demo.
