(* ===== verification/Detect.v ===== *)
(** * The detection of image flavors

    [internal/detect/detect.go]: the files of a repository say which published
    images its jobs need.  A repository is the class [Source]; the YAML decoder
    of a workflow is a parameter, with the nodes of [ConfigFile]. *)

From S2P Require Import Prelude GoErr GoStr ImageVersions Filepath Host Redact Config ConfigFile.

Local Open Scope Z_scope.
Local Open Scope go_scope.

(** ** Paths *)

(** [path.Base] and [path.Ext] *)
Fixpoint last_slash (s : string) : string := match s with "" => "" | String c r => if str_mem slash r then last_slash r else if Ascii.eqb c slash then r else s end.
Definition path_Base (p : string) : string :=
  if is_empty p then "."
  else let p := trim_right p "/" in if is_empty (last_slash p) then "/" else last_slash p.
Fixpoint from_last_dot (s : string) : string :=
  match s with "" => "" | String c r => if str_mem "." r then from_last_dot r else if Ascii.eqb c "." then s else "" end.
Definition path_Ext (p : string) : string := from_last_dot (last_slash p).
Example paths : path_Base <$> ["a/b.go"; "b"; "a/"; "/"] = ["b.go"; "b"; "a"; "/"] ∧ path_Ext <$> ["a.b/c"; "x/y.tar.gz"; ".env"] = [""; ".gz"; ".env"].
Proof. vm_compute. done. Qed.

(** ** Markers *)

Inductive Flavor := FlavorNativeBuild | FlavorNode | FlavorDotnet | FlavorRust | FlavorGo.
#[export] Instance Flavor_eq_dec : EqDecision Flavor.
Proof. solve_decision. Defined.
Definition flavor_name (f : Flavor) : string :=
  match f with FlavorNativeBuild => "native-build" | FlavorNode => "node" | FlavorDotnet => "dotnet" | FlavorRust => "rust" | FlavorGo => "go" end.

Record Hit := MkHit { hit_Flavor : Flavor; Evidence : list string }.
Record ScanResult := MkScan { Hits : list Hit; RunsOn : list (list string) }.

Definition markers : list (Flavor * (string → string → bool)) :=
  [(FlavorDotnet, λ base ext, bool_mem ext [".csproj"; ".sln"] || String.eqb base "global.json");
   (FlavorNode, λ base _, String.eqb base "package.json");
   (FlavorGo, λ base _, String.eqb base "go.mod");
   (FlavorRust, λ base _, String.eqb base "Cargo.toml");
   (FlavorNativeBuild, λ base _, bool_mem base ["pyproject.toml"; "requirements.txt"; "setup.py"])].
Definition catalogOrder : list Flavor := [FlavorNativeBuild; FlavorNode; FlavorDotnet; FlavorRust; FlavorGo].

Definition skipDir (name : string) : bool :=
  bool_mem name ["node_modules"; "vendor"; ".git"; "bin"; "obj"; "target"; "dist"; "build"; ".venv"; "venv"].
Definition inSkippedDir (p : string) : bool := existsb skipDir (split slash (Dir p)).
Definition isWorkflow (p : string) : bool :=
  has_prefix ".github/workflows/" p && bool_mem (to_lower (path_Ext p)) [".yml"; ".yaml"].
(** A path as the scan sees it. *)
Definition normalize (p : string) : string := trim_prefix "./" (Clean (ReplaceAll p "\" "/")).

(** ** The scan *)

Class Source := {
  Paths : result (list string);
  ReadFile : string → result string;
  decode_workflow : string → option (gmap string (option node))
}.

Definition nodeToStrings (n : option node) : list string :=
  match n with
  | None => []
  | Some n =>
      match Kind n with
      | ScalarNode => if is_empty (Value n) then [] else [Value n]
      | SequenceNode => Value <$> filter (λ c, Kind c = ScalarNode ∧ Value c ≠ "") (Content n)
      | _ => []
      end
  end.

Record scan_state := Scanning { evidence : Flavor → list string; workflows : list string }.
Definition add_evidence (p : string) (ev : Flavor → list string) (marker : Flavor * (string → string → bool)) : Flavor → list string :=
  let '(f, matches) := marker in
  if matches (path_Base p) (to_lower (path_Ext p)) && (length (ev f) <? 5)%nat
  then λ g, if bool_decide (g = f) then ev f ++ [p] else ev g
  else ev.
Definition scan_path (st : scan_state) (p : string) : scan_state :=
  let p := normalize p in
  if inSkippedDir p then st
  else Scanning (foldl (add_evidence p) (evidence st) markers)
                (if isWorkflow p then workflows st ++ [p] else workflows st).

Definition label_key (labels : list string) : string := join "," labels.
Definition by_label_key (a b : list string) : Prop := String.le (label_key a) (label_key b).
#[export] Instance by_label_key_dec : RelDecision by_label_key.
Proof. intros a b. unfold by_label_key. apply _. Defined.
(** The keys seen so far and the sets that have them. *)
Definition add_labels (st : list string * list (list string)) (labels : list string) : list string * list (list string) :=
  if bool_mem (label_key labels) st.1 then st else (st.1 ++ [label_key labels], st.2 ++ [labels]).

Section scan.
Context `{MapRange} `{!Source}.

Definition runsOnFromWorkflow (data : string) : list (list string) :=
  match decode_workflow data with
  | None => []
  | Some jobs => filter (λ labels, labels ≠ []) ((λ '(_, runsOn), nodeToStrings runsOn) <$> range jobs)
  end.
Definition collectRunsOn (wfs : list string) : list (list string) :=
  let found := wfs ≫= λ wf, match ReadFile wf with Err _ => [] | Ok data => runsOnFromWorkflow data end in
  merge_sort by_label_key (foldl add_labels ([], []) found).2.
Definition Scan : result ScanResult :=
  match Paths with
  | Err e => Err e
  | Ok paths =>
      let st := foldl scan_path (Scanning (λ _, []) []) paths in
      Ok (MkScan ((λ f, MkHit f (evidence st f)) <$> filter (λ f, evidence st f ≠ []) catalogOrder)
                 (collectRunsOn (workflows st)))
  end.
End scan.

(** ** The report *)

Definition hasFlavor (hits : list Hit) (f : Flavor) : bool := existsb (λ h, bool_decide (hit_Flavor h = f)) hits.
Definition pad_right (n : nat) (s : string) : string := s +:+ String.concat "" (replicate (n - String.length s) " ").
Definition pool_block (os : string) (h : Hit) : string :=
  let f := flavor_name (hit_Flavor h) in
  "  - name: " +:+ os +:+ "-" +:+ f +:+ newline +:+ "    os: " +:+ os +:+ newline +:+ "    image_tier: " +:+ f +:+ newline +:+
  "    labels: [self-hosted, " +:+ os +:+ ", " +:+ f +:+ "]" +:+ newline.
Definition image_to_pull (os : string) (f : Flavor) : string := "gerardsmit/multirunner-runner-" +:+ os +:+ ":" +:+ flavor_name f.
Definition hit_line (h : Hit) : string :=
  "  - " +:+ pad_right 12 (flavor_name (hit_Flavor h)) +:+ " (" +:+ join ", " (Evidence h) +:+ ")" +:+ newline.
Definition flavors_text (hits : list Hit) (os : string) : string :=
  match hits with
  | [] => "No language markers detected. The minimal image is enough:" +:+ newline +:+ "  image_tier: minimal" +:+ newline
  | _ =>
      "Detected flavors:" +:+ newline +:+ String.concat "" (hit_line <$> hits) +:+
      (if hasFlavor hits FlavorDotnet || hasFlavor hits FlavorRust
       then newline +:+ "Note: the dotnet and rust flavors already bundle Node." +:+ newline else "") +:+
      newline +:+ "Recommended pools (paste into config.yaml):" +:+ newline +:+ newline +:+ "pools:" +:+ newline +:+
      String.concat "" (pool_block os <$> hits) +:+
      newline +:+ "Images to pull:" +:+ newline +:+
      String.concat "" ((λ h, "  " +:+ image_to_pull os (hit_Flavor h) +:+ newline) <$> hits)
  end.
Definition runs_on_text (res : ScanResult) (os : string) : string :=
  match RunsOn res with
  | [] => ""
  | sets =>
      newline +:+ "runs-on values already used in .github/workflows:" +:+ newline +:+
      String.concat "" ((λ labels, "  [" +:+ join ", " labels +:+ "]" +:+ newline) <$> sets) +:+
      newline +:+ "Add the flavor label to a job's runs-on to route it, e.g." +:+ newline +:+
      match Hits res with
      | [] => ""
      | h :: _ => "  runs-on: [self-hosted, " +:+ os +:+ ", " +:+ flavor_name (hit_Flavor h) +:+ "]" +:+ newline
      end
  end.
Definition Render (res : ScanResult) (os : string) : string := flavors_text (Hits res) os +:+ runs_on_text res os.

(** [detectCmd]: the command, with the repository chosen. *)
Definition detect_command `{MapRange} `{!Source} (os : string) : result string :=
  if negb (bool_mem os ["linux"; "windows"]) then Err (errorf ("--os must be linux|windows, got " +:+ quote os))
  else match Scan with Err e => Err e | Ok res => Ok (Render res os) end.
