(* ===== verification/DetectSpec.v ===== *)
(** * What the detection finds, and what it recommends *)

From S2P Require Import Prelude GoErr GoStr ImageVersions Filepath Host Redact Config ConfigFile Detect.

Local Open Scope Z_scope.
Local Open Scope go_scope.

(** ** Flavors *)

(** A directory of dependencies or of build results. *)
Definition in_build_dir (p : string) : Prop :=
  ∃ name, name ∈ split slash (Dir p) ∧
          name ∈ ["node_modules"; "vendor"; ".git"; "bin"; "obj"; "target"; "dist"; "build"; ".venv"; "venv"].
(** The files that are signs of a flavor. *)
Definition shows (f : Flavor) (p : string) : Prop :=
  let base := path_Base p in let ext := to_lower (path_Ext p) in
  match f with
  | FlavorDotnet => ext = ".csproj" ∨ ext = ".sln" ∨ base = "global.json"
  | FlavorNode => base = "package.json"
  | FlavorGo => base = "go.mod"
  | FlavorRust => base = "Cargo.toml"
  | FlavorNativeBuild => base = "pyproject.toml" ∨ base = "requirements.txt" ∨ base = "setup.py"
  end.
#[export] Instance shows_dec f p : Decision (shows f p).
Proof. unfold shows. destruct f; apply _. Defined.
#[export] Instance in_build_dir_dec p : Decision (in_build_dir p).
Proof.
  refine (cast_if (decide (Exists (λ name, name ∈ ["node_modules"; "vendor"; ".git"; "bin"; "obj"; "target"; "dist"; "build"; ".venv"; "venv"])
                                  (split slash (Dir p))))); unfold in_build_dir; by rewrite <- Exists_exists.
Defined.
(** The paths that count: with slashes, cleaned, and without a leading dot. *)
Definition kept (paths : list string) : list string :=
  filter (λ p, ¬ in_build_dir p) ((λ p, trim_prefix "./" (Clean (ReplaceAll p "\" "/"))) <$> paths).

(** A file that a marker takes for a sign. *)
Definition sign (f : Flavor) (p : string) (m : Flavor * (string → string → bool)) : Prop :=
  m.1 = f ∧ m.2 (path_Base p) (to_lower (path_Ext p)) = true.
#[export] Instance sign_dec f p m : Decision (sign f p m).
Proof. unfold sign. apply _. Defined.

Lemma marks_shows f p : Exists (sign f p) markers ↔ shows f p.
Proof.
  unfold markers, sign, shows. rewrite !Exists_cons, Exists_nil. cbn [fst snd].
  rewrite !orb_true_iff, !bool_mem_true, !String.eqb_eq, !elem_of_cons, !elem_of_nil. generalize (path_Base p) (to_lower (path_Ext p)). intros base ext.
  destruct f; intuition (try congruence).
Qed.
Lemma inSkippedDir_spec p : inSkippedDir p = true ↔ in_build_dir p.
Proof.
  unfold inSkippedDir, in_build_dir. rewrite existsb_exists. split; intros (name & Hn & Hs); exists name.
  - split; [by apply list_elem_of_In|]. by apply bool_mem_true in Hs.
  - split; [by apply list_elem_of_In|]. by apply bool_mem_true.
Qed.

Lemma take_snoc {A} n (l : list A) x : take n (l ++ [x]) = if (length (take n l) <? n)%nat then take n l ++ [x] else take n l.
Proof.
  rewrite length_take. destruct (Nat.ltb_spec (Nat.min n (length l)) n) as [Hl|Hl].
  - rewrite !take_ge; [done|lia|rewrite length_app; cbn; lia].
  - rewrite take_app_le by lia. done.
Qed.

Lemma add_evidence_at p ev m f :
  add_evidence p ev m f = if decide (sign f p m) then (if (length (ev f) <? 5)%nat then ev f ++ [p] else ev f) else ev f.
Proof.
  destruct m as [g matches]. unfold add_evidence. destruct (decide (sign f p (g, matches))) as [[Hg Hm]|Hs]; cbn [fst snd] in *.
  - subst g. rewrite Hm. cbn [andb]. destruct (length (ev f) <? 5)%nat; [by rewrite bool_decide_true|done].
  - destruct (matches _ _ && (length (ev g) <? 5)%nat) eqn:Hm; [|done]. apply andb_true_iff in Hm as [Hm _].
    rewrite bool_decide_false; [done|]. intros ->. by apply Hs.
Qed.

Lemma foldl_evidence p ms : NoDup ms.*1 → ∀ ev f,
  foldl (add_evidence p) ev ms f = if decide (Exists (sign f p) ms) then (if (length (ev f) <? 5)%nat then ev f ++ [p] else ev f) else ev f.
Proof.
  induction ms as [|m ms IH]; intros Hd ev f; [rewrite decide_False; [done|]; intros He; by apply Exists_nil in He|].
  rewrite fmap_cons in Hd. apply NoDup_cons in Hd as [Hm Hd]. cbn [foldl]. rewrite IH, add_evidence_at by done.
  destruct (decide (sign f p m)) as [Hs|Hs].
  - rewrite (decide_True (P := Exists _ (m :: ms))) by (by left). rewrite decide_False; [done|]. intros (n & Hn & Hf & _)%Exists_exists.
    apply Hm. destruct Hs as [-> _]. rewrite <- Hf. by apply list_elem_of_fmap_2.
  - assert (Exists (sign f p) (m :: ms) ↔ Exists (sign f p) ms) as He by (rewrite Exists_cons; tauto).
    by rewrite (decide_ext _ _ _ _ He).
Qed.

Lemma scan_fold paths : let st := foldl scan_path (Scanning (λ _, []) []) paths in
  (∀ f, evidence st f = take 5 (filter (shows f) (kept paths))) ∧ workflows st = filter (λ p, isWorkflow p = true) (kept paths).
Proof.
  cbv zeta. induction paths as [|p paths [IHe IHw]] using rev_ind; [done|]. rewrite foldl_app. cbn [foldl].
  set (st := foldl scan_path _ paths) in *. unfold kept in *. change (λ p, trim_prefix "./" (Clean (ReplaceAll p "\" "/"))) with normalize in *. rewrite fmap_app, filter_app. cbn [fmap list_fmap]. unfold scan_path.
  set (q := normalize p). pose proof (inSkippedDir_spec q) as Hspec. destruct (inSkippedDir q) eqn:Hq.
  { rewrite filter_cons_False, app_nil_r by (by intros []; apply Hspec). by split. }
  rewrite filter_cons_True by (by intros Hb%Hspec). change (filter (λ p, ¬ in_build_dir p) []) with (@nil string). cbn [evidence workflows]. split.
  - intros f. rewrite foldl_evidence by (by compute_done). rewrite IHe, filter_app. rewrite (decide_ext _ _ _ _ (marks_shows f q)).
    destruct (decide (shows f q)) as [Hm|Hm].
    + rewrite (filter_cons_True (shows f)) by done. change (filter (shows f) []) with (@nil string). by rewrite take_snoc.
    + rewrite (filter_cons_False (shows f)) by done. change (filter (shows f) []) with (@nil string). by rewrite app_nil_r.
  - rewrite filter_app, IHw. destruct (isWorkflow q) eqn:Hw.
    + by rewrite (filter_cons_True (λ p, isWorkflow p = true)).
    + rewrite (filter_cons_False (λ p, isWorkflow p = true)) by (by rewrite Hw). by rewrite app_nil_r.
Qed.

(** ** Labels *)

#[export] Instance by_label_key_total : Total by_label_key.
Proof. intros a b. apply (total String.le). Qed.
#[export] Instance by_label_key_trans : Transitive by_label_key.
Proof. intros a b c. unfold by_label_key. apply transitivity. Qed.

Lemma add_labels_ok found : let st := foldl add_labels ([], []) found in
  st.1 = label_key <$> st.2 ∧ NoDup st.1 ∧ (∀ l, l ∈ st.2 → l ∈ found) ∧ ∀ l, l ∈ found → label_key l ∈ st.1.
Proof.
  cbv zeta. induction found as [|l found (Hk & Hd & Hs & Hin)] using rev_ind;
    [split_and!; [done|constructor|done|by intros l Hl%elem_of_nil]|].
  rewrite foldl_app. cbn [foldl]. destruct (foldl add_labels _ found) as [seen out]. cbn [fst snd] in *. unfold add_labels. cbn [fst snd].
  destruct (bool_mem (label_key l) seen) eqn:Hm; cbn [fst snd].
  - apply bool_mem_true in Hm. split_and!; [done|done|set_solver|]. intros l'. rewrite elem_of_app, list_elem_of_singleton. intros [?| ->]; auto.
  - split; [by rewrite fmap_app, Hk|]. split; [|split; [set_solver|]].
    + apply NoDup_app. split; [done|]. split; [|apply NoDup_singleton]. intros k Hk' ->%list_elem_of_singleton.
      apply bool_mem_true in Hk'. by rewrite Hk' in Hm.
    + intros l'. rewrite !elem_of_app, !list_elem_of_singleton. intros [?| ->]; auto.
Qed.

Lemma sorted_keys l : StronglySorted by_label_key l → StronglySorted String.le (label_key <$> l).
Proof.
  induction 1 as [|a l Hl IH Ha]; cbn; constructor; [done|]. apply Forall_fmap. eapply Forall_impl; [exact Ha|]. done.
Qed.

Section scan.
Context `{MapRange} `{!Source}.

(** The texts of a sequence, without the empty ones. *)
Inductive texts : list node → list string → Prop :=
| texts_nil : texts [] []
| texts_text c cs l : Kind c = ScalarNode → Value c ≠ "" → texts cs l → texts (c :: cs) (Value c :: l)
| texts_other c cs l : Kind c ≠ ScalarNode ∨ Value c = "" → texts cs l → texts (c :: cs) l.
(** The labels that the value of runs-on names. *)
Definition names_labels (runsOn : node) (labels : list string) : Prop :=
  labels ≠ [] ∧ (Kind runsOn = ScalarNode ∧ labels = [Value runsOn] ∧ Value runsOn ≠ "" ∨
                 Kind runsOn = SequenceNode ∧ texts (Content runsOn) labels).
(** A file that GitHub takes for a workflow. *)
Definition is_workflow (p : string) : Prop :=
  (∃ rest, p = ".github/workflows/" +:+ rest) ∧ (to_lower (path_Ext p) = ".yml" ∨ to_lower (path_Ext p) = ".yaml").
(** The labels of a job of a workflow of the repository. *)
Definition used (paths : list string) (labels : list string) : Prop :=
  ∃ wf data jobs name runsOn, wf ∈ kept paths ∧ is_workflow wf ∧ ReadFile wf = Ok data ∧ decode_workflow data = Some jobs ∧
    jobs !! name = Some (Some runsOn) ∧ names_labels runsOn labels.

Lemma texts_filter cs l : texts cs l ↔ l = Value <$> filter (λ c, Kind c = ScalarNode ∧ Value c ≠ "") cs.
Proof using Type.
  split.
  - induction 1 as [|c cs l Hk Hv Ht IH|c cs l Hn Ht IH]; [done| |].
    + rewrite filter_cons_True by done. cbn. by rewrite IH.
    + rewrite filter_cons_False; [done|]. intros [? ?]. by destruct Hn.
  - intros ->. induction cs as [|c cs IH]; [constructor|]. destruct (decide (Kind c = ScalarNode ∧ Value c ≠ "")) as [[Hk Hv]|Hn].
    + rewrite filter_cons_True by done. by constructor.
    + rewrite filter_cons_False by done. constructor; [|done]. destruct (decide (Kind c = ScalarNode)); [right|by left].
      destruct (decide (Value c = "")); [done|]. by destruct Hn.
Qed.
Lemma nodeToStrings_names job l : l ≠ [] → nodeToStrings job = l ↔ ∃ n, job = Some n ∧ names_labels n l.
Proof using Type.
  intros Hl. unfold nodeToStrings, names_labels. destruct job as [n|]; [|split; [by intros <-|by intros (? & ? & _)]].
  transitivity (names_labels n l); [|unfold names_labels; split; [by exists n|by intros (? & [= <-] & ?)]]. unfold names_labels.
  rewrite texts_filter. destruct (is_empty (Value n)) eqn:He; [apply is_empty_true in He|apply is_empty_false in He];
    destruct (Kind n); naive_solver.
Qed.
Lemma isWorkflow_spec p : isWorkflow p = true ↔ is_workflow p.
Proof using Type.
  unfold isWorkflow, is_workflow. rewrite andb_true_iff, has_prefix_spec, bool_mem_true, !elem_of_cons, elem_of_nil. naive_solver.
Qed.

Lemma found_used paths l :
  l ∈ (filter (λ p, isWorkflow p = true) (kept paths) ≫= λ wf, match ReadFile wf with Err _ => [] | Ok data => runsOnFromWorkflow data end) ↔
  used paths l.
Proof using Type.
  unfold used. split.
  - intros Hl. apply list_elem_of_bind in Hl as (wf & Hl & Hwf). apply list_elem_of_filter in Hwf as [Hw%isWorkflow_spec Hwf].
    destruct (ReadFile wf) as [data|] eqn:Hr; [|by apply elem_of_nil in Hl]. unfold runsOnFromWorkflow in Hl.
    destruct (decode_workflow data) as [jobs|] eqn:Hj; [|by apply elem_of_nil in Hl].
    apply list_elem_of_filter in Hl as [Hn Hl]. apply list_elem_of_fmap in Hl as ([name job] & Hl & Hrange).
    symmetry in Hl. apply nodeToStrings_names in Hl as (n & -> & Hl); [|done].
    exists wf, data, jobs, name, n. split_and!; try done. by apply elem_of_range.
  - intros (wf & data & jobs & name & job & Hwf & Hw & Hr & Hj & Hl & Hn). assert (l ≠ []) as Hne by apply Hn.
    apply list_elem_of_bind. exists wf. rewrite Hr. split; [|apply list_elem_of_filter; by rewrite isWorkflow_spec]. unfold runsOnFromWorkflow. rewrite Hj.
    apply list_elem_of_filter. split; [done|]. apply list_elem_of_fmap. exists (name, Some job). split; [|by apply elem_of_range].
    symmetry. apply nodeToStrings_names; [done|]. by exists job.
Qed.

(** C30: The detection reports exactly what the repository shows.  A flavor is
    reported exactly when a file outside of the directories of dependencies and
    build results is a sign of it, each once, in the order of the catalog and
    with its first five files as evidence.  Every label set in the report is
    that of a job of a workflow that can be read, and every such set is in it,
    or another one of the same text once its labels are joined with commas, of
    which the report has one; the sets are sorted by this text, whatever the
    order in which the jobs are decoded. *)
Theorem scan_exact paths res
    (Hpaths : Paths = Ok paths)
    (Hscan : Scan = Ok res) :
  (hit_Flavor <$> Hits res) `sublist_of` [FlavorNativeBuild; FlavorNode; FlavorDotnet; FlavorRust; FlavorGo] ∧
  (∀ f, f ∈ hit_Flavor <$> Hits res ↔ ∃ p, p ∈ kept paths ∧ shows f p) ∧
  (∀ h, h ∈ Hits res → Evidence h = take 5 (filter (shows (hit_Flavor h)) (kept paths))) ∧
  (∀ labels, labels ∈ RunsOn res → used paths labels) ∧
  (∀ labels, used paths labels → ∃ reported, reported ∈ RunsOn res ∧ join "," reported = join "," labels) ∧
  StronglySorted String.le (join "," <$> RunsOn res) ∧ NoDup (join "," <$> RunsOn res).
Proof using Type.
  unfold Scan in Hscan. rewrite Hpaths in Hscan. injection Hscan as <-. destruct (scan_fold paths) as [He Hw].
  set (st := foldl scan_path _ paths) in *. cbn [Hits RunsOn].
  assert (hit_Flavor <$> ((λ f, MkHit f (evidence st f)) <$> filter (λ f, evidence st f ≠ []) catalogOrder) =
          filter (λ f, evidence st f ≠ []) catalogOrder) as Hf.
  { rewrite <- list_fmap_compose. apply list_fmap_id. }
  unfold collectRunsOn. rewrite Hw. set (found := filter _ (kept paths) ≫= _). destruct (add_labels_ok found) as (Hk & Hd & Hs & Hin).
  rewrite Hf. change (join ",") with label_key. split_and!.
  - apply sublist_filter.
  - intros f. rewrite list_elem_of_filter, He. split.
    + intros [Hne _]. destruct (filter (shows f) (kept paths)) as [|p l] eqn:Hl; [done|].
      assert (p ∈ filter (shows f) (kept paths)) as Hp by (rewrite Hl; left). apply list_elem_of_filter in Hp as [Hm Hp]. by exists p.
    + intros (p & Hp & Hm). split; [|destruct f; set_solver]. intros Hn.
      assert (p ∈ filter (shows f) (kept paths)) as Hp' by (by apply list_elem_of_filter).
      destruct (filter (shows f) (kept paths)); [by apply elem_of_nil in Hp'|done].
  - intros h Hh. apply list_elem_of_fmap in Hh as (f & -> & _). cbn. apply He.
  - intros l Hl. rewrite merge_sort_Permutation in Hl. apply found_used. by apply Hs.
  - intros l Hl%found_used. apply Hin in Hl. rewrite Hk in Hl. apply list_elem_of_fmap in Hl as (l' & Heq & Hl').
    exists l'. by rewrite merge_sort_Permutation.
  - apply sorted_keys, StronglySorted_merge_sort; apply _.
  - rewrite merge_sort_Permutation, <- Hk. exact Hd.
Qed.
End scan.

(** ** Images *)

Lemma windows_plain lines tier : str_mem ":" tier = false →
  windows_flavors lines !! tier = (list_to_map [("node", "node"); ("dotnet", "dotnet"); ("buildtools", "buildtools")] : gmap string string) !! tier.
Proof.
  intros Ht. unfold windows_flavors. generalize (list_to_map [("node", "node"); ("dotnet", "dotnet"); ("buildtools", "buildtools")] : gmap string string).
  induction lines as [|line lines IH]; intros m; [done|]. cbn [foldl]. rewrite IH. apply lookup_insert_ne. intros <-.
  change ("buildtools:" +:+ line) with ("buildtools" +:+ String ":" line) in Ht. rewrite str_mem_app in Ht. done.
Qed.

Lemma published_windows `{MapRange} manifest f :
  published_tag manifest "windows" (flavor_name f) = if bool_decide (f ∈ [FlavorNode; FlavorDotnet]) then flavor_name f else "".
Proof.
  unfold published_tag. change (publishedFlavors manifest "windows") with (windows_flavors (ReleaseLines (m_BuildTools manifest))).
  rewrite windows_plain by (by destruct f). destruct f; vm_compute; reflexivity.
Qed.

(** Which of the recommendations can be followed.  For a container pool that
    was pasted as it is recommended, the configuration always passes, and the
    image that the report says to pull is the one that the pool runs for every
    flavor on Linux; on Windows only for node and dotnet, and the pool runs a
    local image that nobody builds for the others. *)
Theorem recommended_images `{MapRange} manifest os f p
    (Hos : os ∈ ["linux"; "windows"])
    (Hpool : OS p = os ∧ ImageTier p = flavor_name f ∧ Image p = "") :
  validateImageTier manifest p = None ∧
  (ImageRef manifest p = image_to_pull os f ↔ os = "linux" ∨ f ∈ [FlavorNode; FlavorDotnet]) ∧
  (os = "windows" → f ∉ [FlavorNode; FlavorDotnet] → ImageRef manifest p = "multirunner/runner-windows-" +:+ flavor_name f +:+ ":dev").
Proof.
  destruct Hpool as (Ho & Ht & Hi). unfold validateImageTier, ImageRef. rewrite Ho, Ht, Hi. cbn [is_empty negb String.eqb orb].
  change (is_empty "") with true. cbn [negb orb].
  assert (is_empty (flavor_name f) || String.eqb (flavor_name f) "minimal" = false) as Hn by (by destruct f).
  rewrite Hn. cbn [orb]. rewrite !elem_of_cons, elem_of_nil in Hos. destruct Hos as [->|[->|[]]].
  - assert (published_tag manifest "linux" (flavor_name f) = flavor_name f) as -> by (destruct f; reflexivity).
    assert (is_empty (flavor_name f) = false) as Hne by (by destruct f). rewrite Hne. cbn [negb]. split_and!; try done.
    + by destruct (String.eqb (Backend p) "qemu").
    + split; [by left|]. intros _. reflexivity.
  - rewrite published_windows. case_bool_decide as Hf.
    + assert (is_empty (flavor_name f) = false) as Hne by (by destruct f). rewrite Hne. cbn [negb]. split_and!; try done.
      * by destruct (String.eqb (Backend p) "qemu").
      * split; [by right|]. intros _. reflexivity.
    + change (is_empty "") with true. cbn [negb]. split_and!; try done.
      * destruct (String.eqb (Backend p) "qemu"); [done|]. by destruct f.
      * split; [intros Heq; by destruct f|]. intros [?|?]; done.
Qed.

(** ** Examples *)

Section demo.
(** The pool of a pasted recommendation, with a backend of its own. *)
Definition pasted_pool (os : string) (f : Flavor) : Pool :=
  {| Name := os +:+ "-" +:+ flavor_name f; OS := os; Backend := ""; Size := 1; ImageTier := flavor_name f; Image := "";
     Container := {| cc_CPUs := 0; MemoryMB := 0; MemorySwapMB := 0; DNS := [] |};
     pool_QEMU := {| Golden := ""; WorkDir := ""; MemMB := 0; qemu_CPUs := 0; Accel := ""; BakeISO := "";
                     BakeISOSHA256 := ""; RunnerVersion := ""; RunnerSHA256 := ""; Licensed := false; Tools := [] |};
     pool_Containerd := {| Address := ""; Nerdctl := ""; Namespace := ""; cd_Isolation := "" |};
     RunnerGroupID := 0; Labels := ["self-hosted"; os; flavor_name f]; pool_Repository := ""; Workflows := []; WorkflowEvent := "";
     WorkflowActor := ""; WorkflowRef := ""; WorkFolder := ""; NamePrefix := "";
     pool_Docker := {| Host := ""; TLS := {| CAFile := ""; CertFile := ""; KeyFile := "" |};
                       EnableDinD := false; ShareWorkspace := false; docker_Isolation := ""; WindowsDinD := "" |};
     pool_ToolCache := {| tc_Mode := ""; Volume := ""; ReadOnly := false |};
     MaxConsecutiveFailures := 0; ScaleSet := ""; RunnerGroup := "" |}.
Local Instance demo_source : Source :=
  {| Paths := Ok ["app\app.csproj"; "web/package.json"; "web/node_modules/x/package.json"; ".github/workflows/ci.yml"];
     ReadFile p := Ok p;
     decode_workflow data := Some {["build" := Some (Node ScalarNode 0 "" "ubuntu-latest" "" [] [])]} |}.
Definition demo_scan : ScanResult :=
  MkScan [MkHit FlavorNode ["web/package.json"]; MkHit FlavorDotnet ["app/app.csproj"]] [["ubuntu-latest"]].

Definition rust_pool (os : string) : Pool := pasted_pool os FlavorRust.
Lemma recommended_images_witness :
  ImageRef sample_manifest (rust_pool "windows") = "multirunner/runner-windows-rust:dev" ∧
  ImageRef sample_manifest (rust_pool "linux") = image_to_pull "linux" FlavorRust.
Proof.
  split.
  - destruct (recommended_images sample_manifest "windows" FlavorRust (rust_pool "windows")) as (_ & _ & Hw).
    + right. left.
    + done.
    + apply Hw; [done|]. intros Hin. rewrite !elem_of_cons, elem_of_nil in Hin. by destruct Hin as [?|[?|[]]].
  - destruct (recommended_images sample_manifest "linux" FlavorRust (rust_pool "linux")) as (_ & Hl & _); [left|done|].
    apply Hl. by left.
Defined.

Lemma scan_exact_witness :
  Scan = Ok demo_scan ∧
  used ["app\app.csproj"; "web/package.json"; "web/node_modules/x/package.json"; ".github/workflows/ci.yml"] ["ubuntu-latest"].
Proof.
  assert (Scan = Ok demo_scan) as Hscan by (vm_compute; reflexivity). split; [exact Hscan|].
  destruct (scan_exact ["app\app.csproj"; "web/package.json"; "web/node_modules/x/package.json"; ".github/workflows/ci.yml"] demo_scan)
    as (_ & _ & _ & Hu & _); [reflexivity|exact Hscan|]. apply Hu. by left.
Defined.
End demo.
