(* ===== verification/BrowserFlow.v ===== *)
(** * The browser flow

    [Connect] of [internal/ghapp/connect.go]: the server on the loopback address
    that a browser is sent to, while the command waits for the App and for its
    installation.

    The requests of the browser come in any order and number; the command takes
    what the handlers hand over through channels of one place, and each is read
    only once, so the values that wait behind the first one, and the handlers
    that wait to send them, change nothing: a channel is the list of what was
    sent.  What GitHub answers to an exchange, by its address and its headers,
    comes with the request; the theorems stand at the end. *)

From S2P Require Import Prelude GoErr GoStr NetIP Json GhApp Connect.

Local Open Scope Z_scope.
Local Open Scope go_scope.

(** ** The exchange of a code *)

Definition exchange_url (apiBase code : string) : string := trim_right apiBase "/" +:+ "/app-manifests/" +:+ code +:+ "/conversions".
Definition exchange_headers : list (string * string) :=
  [("Accept", "application/vnd.github+json"); ("X-GitHub-Api-Version", "2022-11-28")].
Definition decode_credentials (v : json) : decoded Credentials :=
  let '(id, ok1) := field "id" as_int 0 v in
  let '(slug, ok2) := field "slug" as_string "" v in
  let '(pem, ok3) := field "pem" as_string "" v in
  let '(secret, ok4) := field "webhook_secret" as_string "" v in
  let '(url, ok5) := field "html_url" as_string "" v in
  (MkCredentials id slug pem secret 0 url, ok1 && ok2 && ok3 && ok4 && ok5).
Definition set_installation (id : Z) (c : Credentials) : Credentials :=
  MkCredentials (cr_AppID c) (Slug c) (PEM c) (WebhookSecret c) id (HTMLURL c).

(** [strconv.ParseInt], whose error is not looked at: a number that is too large
    is the nearest one. *)
Definition parse_ignoring (s : string) : Z :=
  let '(sign, ds) := parse_sign s in
  if is_empty ds then 0
  else match digits_val 0 ds with
       | Some v => Z.max int64_min (Z.min int64_max (sign * v))
       | None => 0
       end.

Section flow.
(** The error of a body that does not decode, the error of a URL that does not
    parse, and the base of the API. *)
Variable json_error : string → goerror.
Variable bad_url : string → option goerror.
Variable apiBase : string.

(** What GitHub answers to a POST at an address, with these headers. *)
Definition post_answers : Type := string → list (string * string) → http_answer.

Definition exchangeManifest (code : string) (github : post_answers) : result Credentials :=
  match bad_url (exchange_url apiBase code) with
  | Some e => Err e
  | None =>
      match github (exchange_url apiBase code) exchange_headers with
      | HFailed e => Err (errorf_w "exchange manifest: " e)
      | HAnswered status _ body =>
          if negb (status =? 201) then Err (errorf ("exchange manifest: status " +:+ format_int status))
          else match decode_json body with
               | None => Err (json_error body)
               | Some v => let '(out, ok) := decode_credentials v in if ok : bool then Ok out else Err (json_error body)
               end
      end
  end.

(** ** The server *)

Record flow_config := FlowConfig { fc_BaseURL : string; fc_Scope : string; createURL : string; manifest : string }.

Inductive http_request :=
| Landing
| Callback (code : string) (github : post_answers)
| Setup (installation_id : string).
Inductive page :=
| FormPage (action manifest state : string)
| Failure (status : Z) (message : string)
| RedirectPage (title message url : string)
| DonePage (title message : string).

Record channels := Chans { creds : list Credentials; installs : list Z; errs : list goerror }.

Definition handle (c : flow_config) (ch : channels) (r : http_request) : page * channels :=
  match r with
  | Landing => (FormPage (createURL c) (manifest c) "multirunner", ch)
  | Callback code github =>
      if is_empty code then (Failure 400 "missing code", ch)
      else match exchangeManifest code github with
           | Err e => (Failure 502 (error_text e), Chans (creds ch) (installs ch) (errs ch ++ [e]))
           | Ok app =>
               (RedirectPage "App created" ("GitHub App created. Continue to install it on your " +:+ fc_Scope c +:+ ".")
                             (trim_right (fc_BaseURL c) "/" +:+ "/apps/" +:+ Slug app +:+ "/installations/new"),
                Chans (creds ch ++ [app]) (installs ch) (errs ch))
           end
  | Setup idStr =>
      let id := parse_ignoring idStr in
      (DonePage "Connected" "multirunner is connected to GitHub. You can close this tab.",
       if id =? 0 then ch else Chans (creds ch) (installs ch ++ [id]) (errs ch))
  end.

(** ** The command *)

Inductive flow_phase := WaitApp | WaitInstall (app : Credentials) | Returned (r : result Credentials).
Record flow := Flow { chans : channels; phase : flow_phase }.

Definition err_no_app : goerror := errorf "timed out waiting for App creation".
Definition err_no_install : goerror :=
  errorf "App created but timed out waiting for installation; install it and re-run with the printed app_id".

(** What happens: a request is served, the server fails, the context ends, a
    timer fires, or the command takes a value. *)
Inductive flow_event := EvRequest (r : http_request) | EvServe (e : goerror) | EvCancel (e : goerror) | EvTimeout | EvTake.

(** A select takes any case that is ready. *)
Inductive flow_step (c : flow_config) : flow → flow_event → flow → Prop :=
| step_request ch ph r : (∀ x, ph ≠ Returned x) → flow_step c (Flow ch ph) (EvRequest r) (Flow (handle c ch r).2 ph)
| step_serve ch ph e : (∀ x, ph ≠ Returned x) → flow_step c (Flow ch ph) (EvServe e) (Flow (Chans (creds ch) (installs ch) (errs ch ++ [e])) ph)
| step_app app apps ids es : flow_step c (Flow (Chans (app :: apps) ids es) WaitApp) EvTake (Flow (Chans apps ids es) (WaitInstall app))
| step_fails apps ids e es : flow_step c (Flow (Chans apps ids (e :: es)) WaitApp) EvTake (Flow (Chans apps ids es) (Returned (Err e)))
| step_installed app apps id ids es :
    flow_step c (Flow (Chans apps (id :: ids) es) (WaitInstall app)) EvTake (Flow (Chans apps ids es) (Returned (Ok (set_installation id app))))
| step_no_app ch : flow_step c (Flow ch WaitApp) EvTimeout (Flow ch (Returned (Err err_no_app)))
| step_no_install ch app : flow_step c (Flow ch (WaitInstall app)) EvTimeout (Flow ch (Returned (Err err_no_install)))
| step_cancel ch ph e : (∀ x, ph ≠ Returned x) → flow_step c (Flow ch ph) (EvCancel e) (Flow ch (Returned (Err e))).

Inductive flow_runs (c : flow_config) (s : flow) : list flow_event → flow → Prop :=
| runs_nil : flow_runs c s [] s
| runs_snoc tr s1 ev s2 : flow_runs c s tr s1 → flow_step c s1 ev s2 → flow_runs c s (tr ++ [ev]) s2.
Definition flow_start : flow := Flow (Chans [] [] []) WaitApp.

(** What is known before the server starts: [listen], the address that it got. *)
Definition connect_config (url_parse : string → goerror + device_url) (opt : Options) (listen : result string) : result flow_config :=
  match (if is_empty (WebhookURL (opt_Needs opt)) then None else ValidateWebhookURL url_parse (WebhookURL (opt_Needs opt))) with
  | Some e => Err e
  | None =>
      let opt := MkOptions (orDefault (opt_BaseURL opt) "https://github.com") (opt_Scope opt) (opt_Org opt) (opt_Owner opt)
                           (orDefault (opt_Name opt) "multirunner") (opt_Needs opt) in
      match listen with
      | Err e => Err (errorf_w "listen: " e)
      | Ok addr => Ok (FlowConfig (opt_BaseURL opt) (opt_Scope opt) (createAppURL opt) (buildManifest opt ("http://" +:+ addr)))
      end
  end.

(** ** What the flow returns *)

(** What the requests of a trace hand over, in order. *)
Definition app_of (ev : flow_event) : option Credentials :=
  match ev with
  | EvRequest (Callback code github) => if is_empty code then None else match exchangeManifest code github with Ok app => Some app | Err _ => None end
  | _ => None
  end.
Definition install_of (ev : flow_event) : option Z :=
  match ev with EvRequest (Setup idStr) => if parse_ignoring idStr =? 0 then None else Some (parse_ignoring idStr) | _ => None end.
Definition error_of (ev : flow_event) : option goerror :=
  match ev with
  | EvRequest (Callback code github) => if is_empty code then None else match exchangeManifest code github with Ok _ => None | Err e => Some e end
  | EvServe e => Some e
  | EvCancel e => Some e
  | EvTimeout => Some err_no_app
  | _ => None
  end.

(** The channels hold what was handed over and not taken yet. *)
Definition flow_inv (tr : list flow_event) (s : flow) : Prop :=
  (∀ e, e ∈ errs (chans s) → e ∈ omap error_of tr) ∧
  match phase s with
  | WaitApp => creds (chans s) = omap app_of tr ∧ installs (chans s) = omap install_of tr
  | WaitInstall app => app :: creds (chans s) = omap app_of tr ∧ installs (chans s) = omap install_of tr
  | Returned (Ok c) => ∃ app id, head (omap app_of tr) = Some app ∧ head (omap install_of tr) = Some id ∧ c = set_installation id app
  | Returned (Err e) => e ∈ omap error_of tr ∨ e = err_no_install ∧ EvTimeout ∈ tr ∧ ∃ app, head (omap app_of tr) = Some app
  end.

Lemma omap_snoc {A B} (f : A → option B) l x : omap f (l ++ [x]) = omap f l ++ option_list (f x).
Proof using Type. rewrite omap_app. by destruct (f x) eqn:Hx; cbn; rewrite Hx. Qed.

Lemma handle_adds c ch r : let ch' := (handle c ch r).2 in
  creds ch' = creds ch ++ option_list (app_of (EvRequest r)) ∧
  installs ch' = installs ch ++ option_list (install_of (EvRequest r)) ∧
  errs ch' = errs ch ++ option_list (error_of (EvRequest r)).
Proof using Type.
  cbv zeta. destruct r as [|code github|idStr]; cbn [handle app_of install_of error_of].
  - cbn. by rewrite !app_nil_r.
  - destruct (is_empty code); [cbn; by rewrite !app_nil_r|]. destruct (exchangeManifest code github); cbn; by rewrite !app_nil_r.
  - cbv zeta. destruct (parse_ignoring idStr =? 0); cbn; by rewrite !app_nil_r.
Qed.

Lemma errs_more tr ev ch es : (∀ e, e ∈ errs ch → e ∈ omap error_of tr) → es = errs ch ++ option_list (error_of ev) →
  ∀ e, e ∈ es → e ∈ omap error_of (tr ++ [ev]).
Proof using Type. intros He -> e [Hin|Hin]%elem_of_app; rewrite omap_snoc, elem_of_app; [left; by apply He|by right]. Qed.

Lemma errs_keep tr ev ch : (∀ e, e ∈ errs ch → e ∈ omap error_of tr) → ∀ e, e ∈ errs ch → e ∈ omap error_of (tr ++ [ev]).
Proof using Type. intros He e Hin. rewrite omap_snoc, elem_of_app. left. by apply He. Qed.

(** An event that hands nothing over. *)
Lemma quiet_event tr ev : app_of ev = None → install_of ev = None →
  omap app_of (tr ++ [ev]) = omap app_of tr ∧ omap install_of (tr ++ [ev]) = omap install_of tr.
Proof using Type. intros Ha Hi. rewrite !omap_snoc, Ha, Hi. cbn. by rewrite !app_nil_r. Qed.

Lemma handled_inv c tr ch ph r : (∀ x, ph ≠ Returned x) → flow_inv tr (Flow ch ph) →
  flow_inv (tr ++ [EvRequest r]) (Flow (handle c ch r).2 ph).
Proof using Type.
  intros Hph [He Hp]. destruct (handle_adds c ch r) as (Hc & Hi & Hes). split; cbn [chans phase] in *; [by eapply errs_more|].
  rewrite !omap_snoc, Hc, Hi. destruct ph as [|app|x]; [..|by destruct (Hph x)]; destruct Hp as [<- <-]; done.
Qed.

Lemma ended_inv tr ev ch e : (∀ e', e' ∈ errs ch → e' ∈ omap error_of (tr ++ [ev])) → e ∈ omap error_of (tr ++ [ev]) →
  flow_inv (tr ++ [ev]) (Flow ch (Returned (Err e))).
Proof using Type. intros He Hin. split; [done|]. by left. Qed.

Lemma flow_step_inv c tr s ev s' : flow_inv tr s → flow_step c s ev s' → flow_inv (tr ++ [ev]) s'.
Proof using Type.
  intros Hinv Hstep. destruct Hstep as [ch ph r Hph|ch ph e Hph|app apps ids es|apps ids e es|app apps id ids es|ch|ch app|ch ph e Hph].
  - by apply handled_inv.
  - destruct Hinv as [He Hp]. destruct (quiet_event tr (EvServe e) eq_refl eq_refl) as [Ha Hi]. split; cbn [chans phase errs creds installs] in *.
    + by eapply errs_more.
    + rewrite Ha, Hi. destruct ph as [|app|x]; [done..|by destruct (Hph x)].
  - destruct Hinv as [He [Hc Hi]]. cbn in *. destruct (quiet_event tr EvTake eq_refl eq_refl) as [Ha Hi'].
    split; cbn; [|by rewrite Ha, Hi']. exact (errs_keep _ _ (Chans apps ids es) He).
  - destruct Hinv as [He _]. cbn in *. apply ended_inv; cbn.
    + intros e' Hin. rewrite omap_snoc, elem_of_app. left. apply He. by right.
    + rewrite omap_snoc, elem_of_app. left. apply He. by left.
  - destruct Hinv as [He [Hc Hi]]. cbn in *. destruct (quiet_event tr EvTake eq_refl eq_refl) as [Ha Hi'].
    split; cbn; [exact (errs_keep _ _ (Chans apps (id :: ids) es) He)|]. exists app, id. by rewrite Ha, Hi', <- Hc, <- Hi.
  - destruct Hinv as [He _]. apply ended_inv; [by apply errs_keep|]. rewrite omap_snoc, elem_of_app. right. by left.
  - destruct Hinv as [He [Hc Hi]]. cbn in *. split; [by apply errs_keep|]. right. split; [done|]. split; [apply elem_of_app; right; by left|].
    exists app. destruct (quiet_event tr EvTimeout eq_refl eq_refl) as [-> _]. by rewrite <- Hc.
  - destruct Hinv as [He _]. apply ended_inv; [by apply errs_keep|]. rewrite omap_snoc, elem_of_app. right. by left.
Qed.

Lemma flow_runs_inv c tr s : flow_runs c flow_start tr s → flow_inv tr s.
Proof using Type.
  induction 1 as [|tr s1 ev s2 Hruns IH Hstep]; [|by eapply flow_step_inv]. split; [|done]. intros e He. by apply elem_of_nil in He.
Qed.

(** ** What counts as an App and as an installation *)

(** A callback whose code GitHub exchanged: it answered 201 to the POST at the
    address of the code, and the body is an object with these members. *)
Definition granted (ev : flow_event) (app : Credentials) : Prop :=
  ∃ code github status_text body v id slug pem secret url,
    ev = EvRequest (Callback code github) ∧ code ≠ "" ∧
    let address := trim_right apiBase "/" +:+ "/app-manifests/" +:+ code +:+ "/conversions" in
    bad_url address = None ∧
    github address [("Accept", "application/vnd.github+json"); ("X-GitHub-Api-Version", "2022-11-28")] = HAnswered 201 status_text body ∧
    decode_json body = Some v ∧
    field "id" as_int 0 v = (id, true) ∧ field "slug" as_string "" v = (slug, true) ∧ field "pem" as_string "" v = (pem, true) ∧
    field "webhook_secret" as_string "" v = (secret, true) ∧ field "html_url" as_string "" v = (url, true) ∧
    app = MkCredentials id slug pem secret 0 url.

(** A decimal number; one that is too large is the nearest that fits. *)
Definition numeral (s : string) (n : Z) : Prop :=
  ∃ sign ds v, (s = ds ∧ sign = 1 ∨ s = "+" +:+ ds ∧ sign = 1 ∨ s = "-" +:+ ds ∧ sign = -1) ∧
    ds ≠ "" ∧ digits_val 0 ds = Some v ∧ n = Z.max (- 2 ^ 63) (Z.min (2 ^ 63 - 1) (sign * v)).
Definition reported (ev : flow_event) (id : Z) : Prop :=
  ∃ idStr, ev = EvRequest (Setup idStr) ∧ numeral idStr id ∧ id ≠ 0.

(** Why a code was not exchanged. *)
Definition refused (ev : flow_event) (e : goerror) : Prop :=
  ∃ code github, ev = EvRequest (Callback code github) ∧ code ≠ "" ∧ (∀ app, ¬ granted ev app) ∧
    let address := exchange_url apiBase code in
    (bad_url address = Some e ∨
     (∃ e', github address exchange_headers = HFailed e' ∧ e = errorf_w "exchange manifest: " e') ∨
     (∃ status text body, github address exchange_headers = HAnswered status text body ∧
        (status ≠ 201 ∧ e = errorf ("exchange manifest: status " +:+ format_int status) ∨ status = 201 ∧ e = json_error body))).

(** The first event of a trace with [P]. *)
Definition first_event {A} (P : flow_event → A → Prop) (tr : list flow_event) (a : A) : Prop :=
  ∃ before ev later, tr = before ++ ev :: later ∧ P ev a ∧ ∀ ev' a', ev' ∈ before → ¬ P ev' a'.

Lemma first_of {A} (f : flow_event → option A) (P : flow_event → A → Prop) tr a :
  (∀ ev a, f ev = Some a ↔ P ev a) → head (omap f tr) = Some a → first_event P tr a.
Proof using Type.
  intros Hf. induction tr as [|ev tr IH]; [done|]. cbn. destruct (f ev) as [b|] eqn:Hb.
  - intros [= ->]. exists [], ev, tr. split_and!; [done|by apply Hf|]. by intros ev' a' ?%elem_of_nil.
  - intros (before & ev0 & later & -> & HP & Hno)%IH. exists (ev :: before), ev0, later. split_and!; [done..|].
    intros ev' a' [->|Hin]%elem_of_cons; [|by apply Hno]. intros Ha%Hf. congruence.
Qed.

Lemma app_of_granted ev app : app_of ev = Some app ↔ granted ev app.
Proof using Type.
  split.
  - destruct ev as [[|code github|]| | | |]; try done. cbn. destruct (is_empty code) eqn:Hc; [done|]. apply is_empty_false in Hc.
    unfold exchangeManifest. destruct (bad_url _) eqn:Hu; [done|]. destruct (github _ _) as [e|status text body] eqn:Hg; [done|].
    destruct (Z.eqb_spec status 201) as [->|]; [|done]. cbn [negb]. destruct (decode_json body) as [v|] eqn:Hv; [|done].
    unfold decode_credentials. destruct (field "id" _ _ v) as [id []] eqn:H1, (field "slug" _ _ v) as [slug []] eqn:H2,
      (field "pem" _ _ v) as [pem []] eqn:H3, (field "webhook_secret" _ _ v) as [secret []] eqn:H4, (field "html_url" _ _ v) as [url []] eqn:H5;
      try done. intros [= <-]. by exists code, github, text, body, v, id, slug, pem, secret, url.
  - intros (code & github & text & body & v & id & slug & pem & secret & url & -> & Hc & Hu & Hg & Hv & H1 & H2 & H3 & H4 & H5 & ->).
    cbn. apply is_empty_false in Hc as ->. unfold exchangeManifest, exchange_url, exchange_headers. rewrite Hu, Hg. cbn. rewrite Hv.
    unfold decode_credentials. by rewrite H1, H2, H3, H4, H5.
Qed.

Lemma parse_ignoring_numeral s : parse_ignoring s ≠ 0 → numeral s (parse_ignoring s).
Proof using Type.
  unfold parse_ignoring. destruct (parse_sign s) as [sign ds] eqn:Hs. destruct (is_empty ds) eqn:Hd; [done|]. apply is_empty_false in Hd.
  destruct (digits_val 0 ds) as [v|] eqn:Hv; [|done]. intros _. exists sign, ds, v. split_and!; [|done..].
  destruct s as [|c s]; [by injection Hs as <- <-|]. cbn in Hs.
  destruct (Ascii.eqb_spec c "-") as [->|]; [injection Hs as <- <-; auto|].
  destruct (Ascii.eqb_spec c "+") as [->|]; injection Hs as <- <-; auto.
Qed.
Lemma numeral_parse s n : numeral s n → parse_ignoring s = n.
Proof using Type.
  intros (sign & ds & v & Hs & Hd & Hv & ->). unfold parse_ignoring. assert (parse_sign s = (sign, ds)) as ->.
  { destruct Hs as [[-> ->]|[[-> ->]|[-> ->]]]; [|done..]. destruct ds as [|c ds]; [done|]. cbn in Hv |- *.
    destruct (Ascii.eqb_spec c "-") as [->|]; [done|]. by destruct (Ascii.eqb_spec c "+") as [->|]. }
  apply is_empty_false in Hd as ->. by rewrite Hv.
Qed.
Lemma install_of_reported ev id : install_of ev = Some id ↔ reported ev id.
Proof using Type.
  split.
  - destruct ev as [[| |idStr]| | | |]; try done. cbn. destruct (Z.eqb_spec (parse_ignoring idStr) 0) as [|Hne]; [done|].
    intros [= <-]. exists idStr. split_and!; [done|by apply parse_ignoring_numeral|done].
  - intros (idStr & -> & Hn%numeral_parse & Hne). cbn. rewrite Hn. by destruct (Z.eqb_spec id 0).
Qed.

Lemma error_of_spec ev e : error_of ev = Some e →
  refused ev e ∨ ev = EvServe e ∨ ev = EvCancel e ∨ ev = EvTimeout ∧ e = err_no_app.
Proof using Type.
  destruct ev as [[|code github|]|e'|e'| |]; cbn; try done; try (intros [= ->]; auto; fail).
  destruct (is_empty code) eqn:Hc; [done|]. apply is_empty_false in Hc. destruct (exchangeManifest code github) as [app|e'] eqn:Hx; [done|].
  intros [= ->]. left. exists code, github. split_and!; [done..| |].
  - intros app Ha%app_of_granted. cbn in Ha. apply is_empty_false in Hc. by rewrite Hc, Hx in Ha.
  - cbv zeta. unfold exchangeManifest in Hx. destruct (bad_url _) as [u|]; [left; congruence|right].
    destruct (github _ _) as [e'|status text body]; [left; exists e'; split; [done|congruence]|right].
    exists status, text, body. split; [done|]. destruct (Z.eqb_spec status 201) as [->|Hs]; cbn [negb] in Hx; [right|left; split; [done|congruence]].
    split; [done|]. destruct (decode_json body) as [v|]; [|congruence]. destruct (decode_credentials v) as [out []]; congruence.
Qed.

(** C26: The browser flow returns what the browser brought first.  However the
    requests come in and whatever fails beside them, when the flow returns
    credentials they are those of the first callback whose code GitHub
    exchanged, with status 201 and a body that has them, and the installation
    is the first one that was reported, even when that was before the App
    existed; and when it fails, a code was not exchanged, the server or the
    context ended, or a timer fired, before the App or after it. *)
Theorem browser_flow_returns c tr ch r (Hruns : flow_runs c flow_start tr (Flow ch (Returned r))) :
  match r with
  | Ok app => ∃ app0 id, first_event granted tr app0 ∧ first_event reported tr id ∧
      app = MkCredentials (cr_AppID app0) (Slug app0) (PEM app0) (WebhookSecret app0) id (HTMLURL app0)
  | Err e => (∃ ev, ev ∈ tr ∧ refused ev e) ∨ EvServe e ∈ tr ∨ EvCancel e ∈ tr ∨
      EvTimeout ∈ tr ∧ (e = err_no_app ∨ e = err_no_install ∧ ∃ app, first_event granted tr app)
  end.
Proof using Type.
  destruct (flow_runs_inv _ _ _ Hruns) as [_ Hp]. cbn in Hp. destruct r as [app|e].
  - destruct Hp as (app0 & id & Ha & Hi & ->). exists app0, id.
    split_and!; [eapply first_of; [apply app_of_granted|done]|eapply first_of; [apply install_of_reported|done]|done].
  - destruct Hp as [(ev & Hin & He)%list_elem_of_omap|(-> & Ht & app & Ha)].
    + apply error_of_spec in He as [?|[->|[->|[-> ->]]]]; [left; by exists ev|auto| |].
      * auto.
      * auto 6.
    + do 3 right. split; [done|]. right. split; [done|]. exists app. eapply first_of; [apply app_of_granted|done].
Qed.
End flow.

(** ** Examples *)

Section demo.
Definition demo_json_error (body : string) : goerror := errorf "invalid JSON".
Definition demo_url (url : string) : option goerror := None.
Definition demo_app : string :=
  encode_json (JObj [("id", JNum "7"); ("slug", JStr "mr"); ("pem", JStr "key")]).
Definition demo_config : flow_config := FlowConfig "https://github.com" "org" "https://github.com/settings/apps/new" "{}".
Definition demo_github : post_answers := λ _ _, HAnswered 201 "201 Created" demo_app.
Definition demo_trace : list flow_event :=
  [EvRequest Landing; EvRequest (Setup "99"); EvRequest (Callback "c" demo_github); EvTake; EvTake].
Definition demo_credentials : Credentials := MkCredentials 7 "mr" "key" "" 99 "".

(** The installation that is returned came before the App. *)
Lemma demo_runs : ∃ ch, flow_runs demo_json_error demo_url "https://api.github.com" demo_config flow_start demo_trace (Flow ch (Returned (Ok demo_credentials))).
Proof.
  eexists. change demo_trace with (((((([] ++ [EvRequest Landing]) ++ [EvRequest (Setup "99")]) ++
    [EvRequest (Callback "c" demo_github)]) ++ [EvTake]) ++ [EvTake])).
  eapply runs_snoc; [eapply runs_snoc; [eapply runs_snoc; [eapply runs_snoc; [eapply runs_snoc; [apply runs_nil|]|]|]|]|].
  - by apply step_request.
  - by apply step_request.
  - by apply step_request.
  - vm_compute. apply step_app.
  - apply (step_installed _ _ _ _ (MkCredentials 7 "mr" "key" "" 0 "")).
Qed.

Lemma browser_flow_returns_witness :
  (∃ ch, flow_runs demo_json_error demo_url "https://api.github.com" demo_config flow_start demo_trace (Flow ch (Returned (Ok demo_credentials)))) ∧
  ∃ app0 id, first_event (granted demo_url "https://api.github.com") demo_trace app0 ∧ first_event reported demo_trace id ∧
    demo_credentials = MkCredentials (cr_AppID app0) (Slug app0) (PEM app0) (WebhookSecret app0) id (HTMLURL app0).
Proof.
  split; [exact demo_runs|]. destruct demo_runs as [ch Hruns].
  exact (browser_flow_returns demo_json_error demo_url "https://api.github.com" demo_config demo_trace ch (Ok demo_credentials) Hruns).
Defined.
End demo.
