(* ===== verification/ServiceControl.v ===== *)
(** * The installation of the service

    [serviceCmd], [servicePlan] and [newService] of [cmd/multirunner/main.go],
    the recovery policy of [internal/servicehost/policy.go] and
    [recovery_*.go], and the options that a worker reads from its environment
    ([service_worker.go]).  The service manager answers through [Manager]: what
    a call answers may depend on all calls before it. *)

From S2P Require Import Prelude GoErr GoStr Filepath Host Redact ServiceHost.

Local Open Scope Z_scope.
Local Open Scope go_scope.

(** ** The recovery policy *)

Definition seconds (n : Z) : Z := n * 10 ^ 9.
Definition StopTimeout : Z := seconds 15.
Definition recoveryResetSeconds : Z := 10 * 60.
Definition launchdThrottle : Z := 15.
Definition restartDelays : list Z := [seconds 15; seconds 30; seconds 60].
Definition WindowsRestartDelays : list Z := restartDelays.

Definition lines_text (l : list string) : string := String.concat "" ((λ s, s +:+ newline) <$> l).
Definition tab : string := String "009" "".
Definition systemdUnit : string := lines_text
  ["[Unit]"; "Description={{.Description}}"; "ConditionFileIsExecutable={{.Path|cmdEscape}}"; "StartLimitIntervalSec=10min";
   "StartLimitBurst=4"; "{{range $i, $dep := .Dependencies}}{{$dep}}"; "{{end}}"; "[Service]";
   "ExecStart={{.Path|cmdEscape}}{{range .Arguments}} {{.|cmd}}{{end}}";
   "{{if .WorkingDirectory}}WorkingDirectory={{.WorkingDirectory|cmdEscape}}{{end}}"; "{{if .UserName}}User={{.UserName}}{{end}}";
   "Restart=on-failure"; "RestartSec=15s"; "KillMode=mixed"; "TimeoutStopSec=20s";
   "# The supervisor sends sanitized worker records through the native logger."; "StandardOutput=null"; "StandardError=null";
   "{{range $k, $v := .EnvVars}}Environment={{$k}}={{$v}}"; "{{end}}"; "[Install]"; "WantedBy=multi-user.target"].
Definition launchdPlist : string := lines_text
  ["<?xml version=" +:+ in_quotes "1.0" +:+ " encoding=" +:+ in_quotes "UTF-8" +:+ "?>";
   "<!DOCTYPE plist PUBLIC " +:+ in_quotes "-//Apple//DTD PLIST 1.0//EN" +:+ " " +:+
     in_quotes "http://www.apple.com/DTDs/PropertyList-1.0.dtd" +:+ ">";
   "<plist version=" +:+ in_quotes "1.0" +:+ ">"; "<dict>"; tab +:+ "<key>Label</key>"; tab +:+ "<string>{{html .Name}}</string>";
   tab +:+ "<key>ProgramArguments</key>"; tab +:+ "<array>"; tab +:+ tab +:+ "<string>{{html .Path}}</string>";
   tab +:+ tab +:+ "{{range .Config.Arguments}}<string>{{html .}}</string>"; tab +:+ tab +:+ "{{end}}"; tab +:+ "</array>";
   tab +:+ "<key>KeepAlive</key>"; tab +:+ "<dict>"; tab +:+ tab +:+ "<key>SuccessfulExit</key>"; tab +:+ tab +:+ "<false/>"; tab +:+ "</dict>";
   tab +:+ "<key>ThrottleInterval</key>"; tab +:+ "<integer>" +:+ format_int launchdThrottle +:+ "</integer>";
   tab +:+ "{{if .WorkingDirectory}}<key>WorkingDirectory</key>"; tab +:+ "<string>{{html .WorkingDirectory}}</string>{{end}}";
   tab +:+ "<key>StandardErrorPath</key>"; tab +:+ "<string>/dev/null</string>"; tab +:+ "<key>StandardOutPath</key>";
   tab +:+ "<string>/dev/null</string>"; tab +:+ "<!-- Sanitized worker records are emitted through the native logger. -->"; "</dict>"; "</plist>"].

(** The options of the service library; a number or a text. *)
Inductive option_value := OptText (s : string) | OptInt (n : Z).
Definition OptionsFor (goos : string) : gmap string option_value :=
  if String.eqb goos "windows"
  then list_to_map [("OnFailure", OptText "restart"); ("OnFailureDelayDuration", OptText "15s"); ("OnFailureResetPeriod", OptInt recoveryResetSeconds)]
  else if String.eqb goos "linux" then list_to_map [("Restart", OptText "on-failure"); ("SystemdScript", OptText systemdUnit)]
  else if String.eqb goos "darwin" then {["LaunchdConfig" := OptText launchdPlist]}
  else {["Restart" := OptText "on-failure"]}.

Record service_config := {
  sc_Name : string;
  sc_Arguments : list string;
  sc_WorkingDirectory : string;
  sc_Option : gmap string option_value
}.
Definition service_config_for (goos absCfg : string) : service_config :=
  {| sc_Name := "multirunner"; sc_Arguments := ["run"; "--config"; absCfg]; sc_WorkingDirectory := Dir absCfg; sc_Option := OptionsFor goos |}.

(** ** The service manager *)

Inductive recovery_action := ServiceRestart (delay : Z) | NoAction.

Inductive manager_call :=
| CallNew (sc : service_config)
| CallControl (action : string) (sc : service_config)
| CallUninstall
| CallConnect
| CallOpen (name : string)
| CallSetActions (actions : list recovery_action) (resetPeriod : Z)
| CallNonCrash (on : bool)
| CallResetFailed (unit_name : string)
| CallClear.

Definition calls_made : Type := list (manager_call * option goerror).
Class Manager := {
  manager_answer : calls_made → manager_call → option goerror;
  sv_goos : string;
  sv_platform : string;
  reset_output : string
}.

(** The calls so far and the file of the crash loop. *)
Record service_state := Service { made : calls_made; history : history_file }.

Section control.
Context `{Manager}.
Local Notation P := (M service_state).

Definition call (c : manager_call) : P unit :=
  λ s, let e := manager_answer (made s) c in
       (match e with Some e => Err e | None => Ok tt end, Service (made s ++ [(c, e)]) (history s)).
(** The failing call of [ClearFailures] is the removal of its file. *)
Definition clear_failures : P unit :=
  λ s, let '(e, file) := ClearFailures (manager_answer (made s) CallClear) (history s) in
       (match e with Some e => Err e | None => Ok tt end, Service (made s ++ [(CallClear, e)]) file).
Definition failing {A} (what : string) (c : P A) : P A :=
  let? r := c in match r with Ok x => ret x | Err e => throw (errorf_w what e) end.

Definition recovery_actions : list recovery_action := (ServiceRestart <$> restartDelays) ++ [NoAction].
Definition setRecoveryActions (resetPeriod : Z) : P unit :=
  failing "set recovery actions: " (call (CallSetActions recovery_actions resetPeriod)) ;;;
  failing "limit recovery to process failures: " (call (CallNonCrash false)).
Definition with_service (name : string) (body : P unit) : P unit :=
  failing "connect to service manager: " (call CallConnect) ;;;
  failing ("open service " +:+ quote name +:+ ": ") (call (CallOpen name)) ;;;
  body.

Definition ConfigureRecovery (name : string) : P unit :=
  if String.eqb sv_goos "windows" then with_service name (setRecoveryActions recoveryResetSeconds) else ret tt.
Definition ResetRecovery (name platform : string) : P unit :=
  if String.eqb sv_goos "windows"
  then with_service name (failing "reset recovery counter: " (setRecoveryActions 0) ;;; setRecoveryActions recoveryResetSeconds)
  else if String.eqb sv_goos "linux"
  then if contains platform "systemd"
       then let? r := call (CallResetFailed (name +:+ ".service")) in
            match r with Err e => throw (EWrap "systemctl reset-failed: " e (": " +:+ trim_space reset_output)) | Ok _ => ret tt end
       else ret tt
  else ret tt.

(** What happens when the recovery of a new service cannot be set. *)
Definition rollback (e : goerror) : P unit :=
  let? r := call CallUninstall in
  match r with
  | Err rollbackErr => throw (EWrap "configure service recovery: " e ("; rollback install: " +:+ error_text rollbackErr))
  | Ok _ => throw (EWrap "configure service recovery: " e "; installation rolled back")
  end.
Definition reset_before (action : string) : P unit :=
  if bool_mem action ["start"; "restart"]
  then failing "reset native service recovery: " (ResetRecovery "multirunner" sv_platform) ;;;
       failing "clear service failure state: " clear_failures
  else ret tt.
Definition configure_after (action : string) : P unit :=
  if String.eqb action "install"
  then let? r := ConfigureRecovery "multirunner" in match r with Err e => rollback e | Ok _ => ret tt end
  else ret tt.
Definition clear_after (action : string) : P unit :=
  if bool_mem action ["install"; "uninstall"] then failing "clear service failure state: " clear_failures else ret tt.

(** [newService] *)
Definition newService (absCfg : string) : P service_config :=
  let sc := service_config_for sv_goos absCfg in
  failing "service: " (call (CallNew sc)) ;;; ret sc.

(** [serviceCmd]: one action, on the service of a configuration file. *)
Definition control_service (action absCfg : string) : P string :=
  let! sc := newService absCfg in
  reset_before action ;;;
  call (CallControl action sc) ;;;
  configure_after action ;;;
  clear_after action ;;;
  ret ("service 'multirunner': " +:+ action +:+ " ok").
End control.

(** [servicePlan]: the status is what the service manager reports, if it does. *)
Inductive service_status := StatusRunning | StatusStopped | StatusUnknown.
Definition action_effect (action : string) : string :=
  if String.eqb action "install" then "create or replace the service definition using the resolved config path"
  else if String.eqb action "uninstall" then "remove the service definition"
  else if String.eqb action "start" then "start the installed service and runner orchestration"
  else if String.eqb action "stop" then "stop the service and its runner orchestration"
  else if String.eqb action "restart" then "stop and start the service and its runner orchestration"
  else "".
Definition servicePlan (platform : string) (status : result service_status) (action configPath : string) : string :=
  let state := match status with Ok StatusRunning => "running" | Ok StatusStopped => "stopped" | _ => "unknown/not installed" end in
  lines_text
    ["Dry run: no changes will be made."; "Platform: " +:+ platform; "Service: multirunner (" +:+ state +:+ ")";
     "Action: " +:+ action +:+ " — " +:+ action_effect action; "Config: " +:+ configPath;
     "Apply with: multirunner service " +:+ action +:+ " --config " +:+ in_quotes configPath].

(** ** The options of a worker *)

Record serviceWorkerOptions := { wo_configPath : string; wo_interactive : bool; wo_installDeps : bool }.
(** [strconv.ParseBool] *)
Definition parse_bool (s : string) : option bool :=
  if bool_mem s ["1"; "t"; "T"; "true"; "TRUE"; "True"] then Some true
  else if bool_mem s ["0"; "f"; "F"; "false"; "FALSE"; "False"] then Some false
  else None.
Definition serviceWorkerOptionsFromEnvironment (getenv : string → string) : result serviceWorkerOptions :=
  if is_empty (getenv serviceWorkerConfigEnv) then Err (errorf "missing internal config path")
  else match parse_bool (getenv serviceWorkerInstallDepsEnv) with
       | None => Err (errorf "invalid internal install-deps value")
       | Some installDeps =>
           match parse_bool (getenv serviceWorkerInteractiveEnv) with
           | None => Err (errorf "invalid internal interactive value")
           | Some interactive =>
               Ok {| wo_configPath := getenv serviceWorkerConfigEnv; wo_interactive := interactive; wo_installDeps := installDeps |}
           end
       end.

(** ** What an installation leaves *)

Section theorems.
Context `{Manager}.

Lemma call_wp c s (Q : result unit → service_state → Prop) :
  (∀ e, Q (match e with Some e => Err e | None => Ok tt end) (Service (made s ++ [(c, e)]) (history s))) → wp (call c) Q s.
Proof using Type. intros HQ. unfold wp, call. apply HQ. Qed.

Lemma failing_wp {A} what (c : M service_state A) s (Q : result A → service_state → Prop) :
  wp c (λ r s', Q (match r with Ok x => Ok x | Err e => Err (errorf_w what e) end) s') s → wp (failing what c) Q s.
Proof using Type. intros Hc. unfold failing. apply wp_catch. eapply wp_mono; [exact Hc|]. intros [x|e] s' HQ; [by apply wp_ret|by apply wp_throw]. Qed.

(** The calls of a program: they come after those before it, and leave the
    history alone. *)
Definition adds (s s' : service_state) (tr : calls_made) : Prop := made s' = made s ++ tr ∧ history s' = history s.
(** Windows was told to restart the service after fifteen, thirty and sixty
    seconds and then no more, to forget a failure after ten minutes, and to
    count crashes only. *)
Definition scheduled (tr : calls_made) : Prop :=
  (CallSetActions [ServiceRestart (15 * 10 ^ 9); ServiceRestart (30 * 10 ^ 9); ServiceRestart (60 * 10 ^ 9); NoAction] 600, None) ∈ tr ∧
  (CallNonCrash false, None) ∈ tr.
(** The unit that systemd was given stops a service that fails four times
    within ten minutes. *)
Definition limited (sc : service_config) : Prop :=
  ∃ unit_text, sc_Option sc !! "SystemdScript" = Some (OptText unit_text) ∧
    contains unit_text (newline +:+ "StartLimitBurst=4" +:+ newline) = true ∧
    contains unit_text (newline +:+ "StartLimitIntervalSec=10min" +:+ newline) = true ∧
    contains unit_text (newline +:+ "Restart=on-failure" +:+ newline) = true.
(** The service manager bounds the restarts of the service: under Windows it
    was told to, under Linux the definition says so.  launchd and other
    managers restart it without end. *)
Definition bounded_restarts (sc : service_config) (tr : calls_made) : Prop :=
  (sv_goos = "windows" → scheduled tr) ∧ (sv_goos = "linux" → limited sc).

Lemma unit_limited absCfg : sv_goos = "linux" → limited (service_config_for sv_goos absCfg).
Proof using Type. intros ->. exists systemdUnit. by vm_compute. Qed.
Definition keeps_service (tr : calls_made) : Prop := Forall (λ c, c.1 ≠ CallUninstall) tr.

Lemma adds_call s c e tr s' : adds (Service (made s ++ [(c, e)]) (history s)) s' tr → adds s s' ((c, e) :: tr).
Proof using Type. intros [Hm Hh]. split; [|done]. rewrite Hm. cbn. by rewrite <- app_assoc. Qed.
Lemma adds_one s c e : adds s (Service (made s ++ [(c, e)]) (history s)) [(c, e)].
Proof using Type. done. Qed.

Lemma setRecoveryActions_wp s : wp (setRecoveryActions recoveryResetSeconds)
  (λ r s', ∃ tr, adds s s' tr ∧ keeps_service tr ∧ (r = Ok tt → scheduled tr)) s.
Proof using Type.
  unfold setRecoveryActions. apply wp_bind, failing_wp, call_wp. intros [e|].
  { eexists. split; [apply adds_one|]. split; [by repeat constructor|done]. }
  apply failing_wp, call_wp. intros e2. eexists. split; [apply adds_call, adds_one|]. split; [by repeat constructor|].
  destruct e2; [done|]. intros _. split; [by left|by right; left].
Qed.

Lemma ConfigureRecovery_wp name s : wp (ConfigureRecovery name)
  (λ r s', ∃ tr, adds s s' tr ∧ keeps_service tr ∧ (r = Ok tt → sv_goos = "windows" → scheduled tr)) s.
Proof using Type.
  unfold ConfigureRecovery. destruct (String.eqb_spec sv_goos "windows") as [Hw|Hw].
  - unfold with_service. apply wp_bind, failing_wp, call_wp. intros [e|].
    { eexists. split; [apply adds_one|]. split; [by repeat constructor|done]. }
    apply wp_bind, failing_wp, call_wp. intros [e|].
    { eexists. split; [apply adds_call, adds_one|]. split; [by repeat constructor|done]. }
    eapply wp_mono; [apply setRecoveryActions_wp|]. intros r s' (tr & Ha & Hk & Hs). eexists.
    split; [apply adds_call, adds_call, Ha|]. split; [by repeat constructor|]. intros Hr _. destruct (Hs Hr) as [H1 H2].
    split; right; right; done.
  - apply wp_ret. exists []. split; [split; [by rewrite app_nil_r|done]|]. split; [constructor|done].
Qed.

Lemma clear_failures_spec s : ∃ e, clear_failures s = (match e with Some e => Err e | None => Ok tt end,
  Service (made s ++ [(CallClear, e)]) (if e then history s else Absent)).
Proof using Type.
  unfold clear_failures, ClearFailures. destruct (history s) eqn:Hh; [by exists None|..];
    (destruct (manager_answer (made s) CallClear) as [err|]; [by exists (Some err)|by exists None]).
Qed.

(** What an installation that failed left: nothing was installed; or the
    service is there with its restarts bounded, and only the failures of the
    past could not be forgotten; or the last thing done was to uninstall. *)
Definition not_installed (tr : calls_made) : Prop :=
  ∃ c e, last tr = Some (c, Some e) ∧ ((∃ sc, c = CallNew sc ∧ tr = [(c, Some e)]) ∨ (∃ sc, c = CallControl "install" sc)).
Definition not_forgotten (sc : service_config) (tr : calls_made) (err : goerror) : Prop :=
  (CallControl "install" sc, None) ∈ tr ∧ keeps_service tr ∧ bounded_restarts sc tr ∧
  ∃ e, last tr = Some (CallClear, Some e) ∧ err = errorf_w "clear service failure state: " e.
Definition rolled_back (tr : calls_made) (err : goerror) : Prop :=
  ∃ x, last tr = Some (CallUninstall, x) ∧
    match x with None => True | Some e => contains (error_text err) ("rollback install: " +:+ error_text e) = true end.

Lemma rollback_wp e s : wp (rollback e) (λ r s', ∃ x err, r = Err err ∧ adds s s' [(CallUninstall, x)] ∧
  match x with None => True | Some e' => contains (error_text err) ("rollback install: " +:+ error_text e') = true end) s.
Proof using Type.
  unfold rollback. apply wp_catch, call_wp. intros [x|]; apply wp_throw; (eexists _, _; split; [done|]; split; [apply adds_one|]); [|done].
  cbn [error_text]. apply contains_spec. exists ("configure service recovery: " +:+ error_text e +:+ "; "), "".
  by rewrite !str_app_assoc, str_app_nil_r.
Qed.

Lemma adds_trans s s1 s2 tr tr' : adds s s1 tr → adds s1 s2 tr' → adds s s2 (tr ++ tr').
Proof using Type. intros [E1 H1] [E2 H2]. split; [by rewrite E2, E1, app_assoc|congruence]. Qed.

(** C25: The installation of the service is whole or undone.  Whatever the service
    manager answers, an installation that succeeds has installed the service
    of this configuration, with its restarts bounded where the service manager
    can bound them, under Windows and systemd, and has forgotten the failures
    of the past.  One that fails forgets none of them, and has installed
    nothing, or the last thing it did was to uninstall, where an uninstall that
    fails as well is in the error, or, when only the failures could not be
    forgotten, has left the service installed with its restarts bounded. *)
Theorem install_settles absCfg s r s' (Hrun : control_service "install" absCfg s = (r, s')) :
  let sc := service_config_for sv_goos absCfg in
  ∃ tr, made s' = made s ++ tr ∧
  match r with
  | Ok _ => (CallControl "install" sc, None) ∈ tr ∧ keeps_service tr ∧ bounded_restarts sc tr ∧ history s' = Absent
  | Err e => history s' = history s ∧ (not_installed tr ∨ not_forgotten sc tr e ∨ rolled_back tr e)
  end.
Proof using Type.
  cbv zeta. set (sc := service_config_for sv_goos absCfg).
  assert (wp (control_service "install" absCfg) (λ r s', ∃ tr, made s' = made s ++ tr ∧ match r with
    | Ok _ => (CallControl "install" sc, None) ∈ tr ∧ keeps_service tr ∧ bounded_restarts sc tr ∧ history s' = Absent
    | Err e => history s' = history s ∧ (not_installed tr ∨ not_forgotten sc tr e ∨ rolled_back tr e) end) s) as Hwp;
    [|unfold wp in Hwp; by rewrite Hrun in Hwp].
  unfold control_service, newService, reset_before, configure_after, clear_after.
  change (bool_mem "install" ["start"; "restart"]) with false.
  change (String.eqb "install" "install") with true. change (bool_mem "install" ["install"; "uninstall"]) with true.
  apply wp_bind, wp_bind, failing_wp, call_wp. fold sc. intros [e0|].
  { eexists. split; [done|]. split; [done|]. left. eexists _, _. split; [done|]. left. by exists sc. }
  apply wp_ret, wp_bind, wp_ret, wp_bind, call_wp. intros [e1|].
  { eexists. split; [cbn; by rewrite <- app_assoc|]. split; [done|]. left. eexists _, _. split; [done|]. right. by exists sc. }
  apply wp_bind, wp_catch. eapply wp_mono; [apply ConfigureRecovery_wp|]. intros r1 s1 (tr & Hadds & Hk & Hb).
  apply adds_call, adds_call in Hadds.
  assert (keeps_service ((CallNew sc, None) :: (CallControl "install" sc, None) :: tr)) as Hkeeps by (by repeat constructor).
  set (tr1 := (CallNew sc, None) :: (CallControl "install" sc, None) :: tr) in *.
  assert ((CallControl "install" sc, None) ∈ tr1) as Hin by (right; left).
  destruct r1 as [[]|e1].
  - apply wp_ret, wp_bind, failing_wp. destruct (clear_failures_spec s1) as [e Hc]. unfold wp. rewrite Hc.
    assert (∀ x, keeps_service (tr1 ++ [(CallClear, x)])) as Hk' by (intros x; apply Forall_app; split; [done|by repeat constructor]).
    assert (∀ x, bounded_restarts sc (tr1 ++ [(CallClear, x)])) as Hbound.
    { intros x. split; [|apply unit_limited]. intros Hw. destruct (Hb eq_refl Hw); split; apply elem_of_app; left; by do 2 right. }
    destruct Hadds as [Hm Hh].
    destruct e as [e|]; cbn; (eexists; split; [rewrite Hm, <- app_assoc; reflexivity|]).
    + split; [done|]. right. left. split; [apply elem_of_app; by left|]. split; [apply Hk'|]. split; [apply Hbound|].
      exists e. by rewrite last_snoc.
    + split; [apply elem_of_app; by left|]. split; [apply Hk'|]. split; [apply Hbound|done].
  - eapply wp_mono; [apply rollback_wp|]. intros r2 s2 (x & err & -> & Hadds2 & Hx).
    destruct (adds_trans _ _ _ _ _ Hadds Hadds2) as [Hm Hh]. exists (tr1 ++ [(CallUninstall, x)]). split; [done|]. split; [done|].
    right. right. exists x. by rewrite last_snoc.
Qed.
End theorems.

(** The three bounds on a crash loop are the same: that of the program, the
    restarts of Windows and the one of the systemd unit; the unit waits longer
    than a stop takes. *)
Lemma restart_limits_agree :
  Z.of_nat (length restartDelays) + 1 = CrashLoopFailureCount ∧ seconds recoveryResetSeconds = FailureWindow ∧
  contains systemdUnit ("StartLimitBurst=" +:+ format_int CrashLoopFailureCount +:+ newline) = true ∧
  contains systemdUnit ("StartLimitIntervalSec=" +:+ format_int (FailureWindow / seconds 60) +:+ "min" +:+ newline) = true ∧
  contains systemdUnit ("TimeoutStopSec=" +:+ format_int (StopTimeout / seconds 1 + 5) +:+ "s" +:+ newline) = true.
Proof. vm_compute. done. Qed.

Section demo.
(** Windows refuses the recovery actions of a service that it installed. *)
Local Instance demo_manager : Manager :=
  {| manager_answer _ c := match c with CallSetActions _ _ => Some (errorf "access is denied") | _ => None end;
     sv_goos := "windows"; sv_platform := "windows-service"; reset_output := "" |}.
Lemma install_settles_witness :
  ∃ tr, made (control_service "install" "/etc/m.yaml" (Service [] Absent)).2 = [] ++ tr ∧
  last tr = Some (CallUninstall, None) ∧
  match (control_service "install" "/etc/m.yaml" (Service [] Absent)).1 with
  | Ok _ => False
  | Err e => not_installed tr ∨ not_forgotten (service_config_for "windows" "/etc/m.yaml") tr e ∨ rolled_back tr e
  end.
Proof.
  exists (made (control_service "install" "/etc/m.yaml" (Service [] Absent)).2). split; [done|]. split; [vm_compute; reflexivity|].
  destruct (install_settles "/etc/m.yaml" (Service [] Absent) (control_service "install" "/etc/m.yaml" (Service [] Absent)).1
    (control_service "install" "/etc/m.yaml" (Service [] Absent)).2) as (tr & Hm & Hr); [by destruct (control_service _ _ _)|].
  cbn [made app] in Hm. rewrite <- Hm in Hr. exact (proj2 Hr).
Defined.
End demo.
